(* ===== verification/_CoqProject ===== *)
-Q . S2P
Prelude.v
SortedMap.v
Blunder.v
Utils.v
GoStrings.v
Conf.v
ConfFacts.v
ConfNumbers.v
ConfNumberFacts.v
ConfSections.v
NodeProgram.v
InodeTypes.v
Extents.v
ExtentsFacts.v
ReadPlanFacts.v
ReadCache.v
ReadCacheFacts.v
Dlm.v
DlmFacts.v
HeadhunterCodec.v
Headhunter.v
HeadhunterConfig.v
VolumeHandle.v
InodeVolume.v
InodeConfig.v
InodeConfigFacts.v
InodeReload.v
InodeDir.v
InodeFile.v
InodeFileFacts.v
InodeInstance.v
HeadhunterNonce.v
HeadhunterLayout.v
HeadhunterRecords.v
HeadhunterInstance.v
ConfigInstance.v
FsProgram.v
FsLocks.v
FsConfig.v
FsFlock.v
FsPath.v
Fs.v
FsMiddleware.v
FsTreeWalk.v
FsLockFacts.v
FsNeutral.v
FsClients.v
FsFacts.v
FsListing.v
FsInstance.v
Jrpcfs.v
JrpcfsConfigFacts.v
JrpcfsFilesystem.v
JrpcfsServer.v
JrpcfsIo.v
JrpcfsInstance.v
FuseConfig.v
Httpserver.v
HttpserverFacts.v
Daemon.v
DaemonFacts.v
DaemonRuns.v
DaemonInstance.v
SwiftHttp.v
SwiftHttpFacts.v
SwiftPool.v
SwiftPoolFacts.v
SwiftClients.v
SwiftRequests.v
SwiftChunkedPut.v
SwiftRequestFacts.v
SwiftRunFacts.v
SwiftPutFacts.v
SwiftDeletes.v
SwiftInstance.v
RamSwift.v
RamSwiftFacts.v
RamSwiftSpec.v
RamSwiftInstance.v
FuseNodes.v
