(* ===== verification/Prelude.v ===== *)
(** * A verification library for ProxyFS

    ProxyFS serves a POSIX file system whose data lives in Swift objects.  This
    library models its Go code as Rocq functions and programs and proves what
    makes it correct.  Every definition keeps the name it has in the source; the
    names of several packages (Read, Write, Link ...) live in the files of their
    package and are written [InodeFile.Read], [Fs.Read].

    ** The program and the files that model it

    A client calls an operation of a mount ([fs]).  The operation takes inode
    locks of the lock manager ([dlm]), and calls the inode volume ([inode]),
    which keeps inodes in memory, writes file data to log segments (Swift objects)
    and keeps records of inodes, log segments and B+Tree nodes in the volume
    database ([headhunter]).  That database persists itself as checkpoints in
    Swift.  [swiftclient] speaks HTTP with Swift.  Clients reach the mounts over
    JSON-RPC and a binary protocol ([jrpcfs]) and through FUSE ([fuse]); pages
    over HTTP show the process and its fsck jobs ([httpserver]).  The daemon
    ([proxyfsd]) starts the packages, hands them changes of the configuration
    ([conf]) and stops them.  Errors carry annotations ([blunder]).

    - Prelude: machine integers, Go results ([out]: a value, or the panic of
      the goroutine), monads, record updates, tactics and hints.
    - SortedMap: the interface of the vendored B+Tree as a sorted association
      list; NodeProgram: tree operations as programs over their three callbacks.
    - Blunder (src/blunder/api.go), Utils (src/utils/api.go), GoStrings (numbers
      and strings of Go's library).
    - Conf (src/conf/api.go): configuration maps, the regular expressions that
      read them, files that include files; ConfNumbers: option values
      of type float, with the roundings of IEEE 754, and durations; ConfSections
      (src/utils/api.go): the names of sections, and the volumes that the
      configuration gives to a peer.  Facts: ConfFacts, ConfNumberFacts.
    - Dlm (src/dlm/llm.go, api.go) and DlmFacts: [lockEnter], [lockWake] and
      [unlock] are the critical sections of the lock manager; [dstep] is the
      transition system of its callers.
    - HeadhunterCodec, Headhunter (src/headhunter): header and trailer formats,
      nonces, checkpoints, mounting, the record trees.  Facts: HeadhunterNonce,
      HeadhunterLayout, HeadhunterRecords; HeadhunterInstance instantiates the
      interfaces.  HeadhunterConfig (config.go): the volumes of the process,
      their daemons, start and change of configuration.  VolumeHandle is the interface [inode] uses ([VolumeHandleOk]
      its laws; HeadhunterRecords proves what the implementation keeps of them).
    - InodeTypes, Extents, ReadCache, InodeVolume, InodeDir, InodeFile (src/inode):
      the state [volumeStruct] of a volume, extents and read plans of file.go,
      the read cache of file_flusher.go, inode.go, dir.go, file data.  Facts:
      ExtentsFacts, ReadPlanFacts, ReadCacheFacts, InodeFileFacts;
      InodeInstance is a volume in memory.  InodeConfig (config.go): volumes and
      the flow controls that they share; facts in InodeConfigFacts (counts) and
      InodeReload (changes); ConfigInstance runs both packages.
    - FsProgram, FsLocks, FsFlock, FsPath, Fs, FsMiddleware, FsTreeWalk
      (src/fs): operations of a mount as programs whose effects are lock
      operations and calls of the volume, so that they can run alone ([runFs])
      or interleaved ([sstep]).  Facts: FsLockFacts and FsNeutral (lock
      discipline), FsClients (composition with the lock manager), FsFacts,
      FsListing; FsInstance runs whole histories.  FsConfig (config.go):
      volumes and mounts of the process.
    - Jrpcfs (src/jrpcfs/api.go, config.go), JrpcfsFilesystem (filesystem.go,
      middleware.go, ping.go), JrpcfsServer (the methods of the server) and
      JrpcfsIo (io.go): a handler changes the tables of
      mounts and ends, or runs a program of [fs] on a mount, or panics
      ([handler]).  [request] is a method with its arguments, indexed by the type
      of its reply; [serve] runs one.  Facts also in
      JrpcfsConfigFacts; JrpcfsInstance.
    - FuseConfig (src/fuse/config.go): mount points.  FuseNodes (fuse.go, dir.go,
      file.go, symlink.go): the methods of the nodes as programs of [fs].
    - Httpserver (src/httpserver/config.go, request_handler.go): volumes, fsck
      jobs, requests and the text of the responses; HttpserverFacts.
    - Daemon (src/proxyfsd/daemon.go, src/dlm/config.go): the packages as records
      of their four calls on parts of one state [process], [Daemon] with its
      signals; DaemonFacts (each package, and all in a row), DaemonRuns (states
      that a running process can reach), DaemonInstance.
    - RamSwift (src/ramswift/daemon.go): the emulation of Swift that tests and
      development use.  A request is a program of critical sections
      ([ramProg]), run alone ([runRam]) or among others ([rstep]).
      RamSwiftFacts: what holds however requests interleave; RamSwiftSpec: the
      store that it implements; RamSwiftInstance: runs, and [swiftclient] on it.
    - SwiftHttp (src/swiftclient/utils.go, http_status.go): HTTP/1.1 on a
      connection; SwiftPool (utils.go, config.go): connection
      pools, requests as programs over them, goroutines and the starvation
      callback; SwiftRequests (retry.go, account.go, container.go, object.go):
      retries and requests; SwiftChunkedPut (object.go): Chunked PUT contexts and
      copies; SwiftDeletes (object.go, config.go): asynchronous deletes.  Facts:
      SwiftHttpFacts, SwiftPoolFacts, SwiftClients (any number of goroutines),
      SwiftRequestFacts, SwiftRunFacts, SwiftPutFacts; SwiftInstance is a
      scripted server.
    ** What the theorems show

    - File data: a read gives the bytes that were written, a write changes
      nothing else, and a flush makes every byte durable ([InodeFileFacts]);
      through a mount with its locks and permissions ([FsFacts]).  Below that,
      extents refine a map from positions to log segment positions, read plans
      are exact, and the read cache is an LRU cache.
    - Locks: exclusion, order, no lost waiter, no leak in the lock manager
      ([DlmFacts]); operations of [fs] are clients of it that release what they
      take ([FsClients]).
    - Volume database: nonces are unique across crashes, checkpoints read back,
      records are finite maps, an object is deleted only when no node lives in it.
    - Directories: pages of a listing make up the directory; account listings
      end and are complete.
    - Requests to Swift: what is written on a connection is read back, a GET
      returns the body, a Chunked PUT that reports success was delivered and can
      be read back, retries are bounded; however requests interleave, pools
      count their connections, lose no waiter and leak nothing; asynchronous
      deletes are done in order.
    - Configuration maps: what is written is read back, strings and files agree,
      scaled floats and durations have their values.
    - Changes of configuration: package by package ([InodeReload],
      [HeadhunterConfig]) and for the whole process ([DaemonRuns]): through
      any requests and changes all packages have the volumes of this peer, every
      handle of a client is a mount of one of them, and a daemon that waits for a
      signal serves the files of the last one.
    - Requests of clients: whatever they are, handles stay consistent and every
      program that is run releases its locks; unknown mounts are reported alike;
      the fast port reads what it wrote; a volume has one fsck job at a time; a
      listing over FUSE is the directory, and a name leads to a node of its kind.
    - The emulation of Swift: alone, a request answers as a store of three finite
      maps, and [swiftclient] reads back what it put; however requests
      interleave, pointers and trees stay well formed, a read is a range of one
      PUT, and only a range behind the end of an object panics.
    - Theorems about behaviour that is not what the code means (deadlocks, leaks,
      panics) are stated as such, with the run that shows them.

    ** Conventions, bounds and fuel

    A uint64 is a [Z] and its arithmetic ([+u], [-u]) wraps at 2^64.  A panic is
    [Panic]; a goroutine that blocks stops its program where it is.  Loops that
    are not structural take fuel; where the fuel is computed inside a definition
    (length of the list or the map, plus one) a theorem or the proof of the
    operation shows it is enough, and where it is an argument, as in
    [getAccountLoop] and [resolveLoop], the theorem gives the amount that suffices.
    Critical sections are atomic steps.

    ** Interfaces

    What is not under src/, or belongs to another package, is a typeclass:
    [SwiftContainer] and [SwiftData] (Swift as the callers see it), [BPlusTree]
    and [PayloadTree] (the vendored sortedmap), [OnDiskCodec] (JSON),
    [VolumeHandle] (headhunter to inode), [InodeHandle] (inode to fs), [TCP] and
    [TCPStream] (connections, clock and memory, to swiftclient), [ConfFiles]
    (the files of a configuration and the depth of the stack), [Machine] (what
    the processor makes of a NaN, and its memory), [MapRange] (the order of a
    range over a map), [Host] (os.Stat, fusermount, the FUSE library), [Clock],
    [Json] and [Metrics] (to httpserver), [Neighbours] (the packages that the
    daemon starts and that are not modelled).  Laws are separate classes, and
    each has an instance that satisfies them.

    ** Not modelled

    Logging, statistics and their output (logger, stats, statslogger), the
    arguments and signals of the commands, command line tools and benchmark
    drivers; the FUSE library and net/http; sockets and the JSON codec of the
    servers; the profiling of requests and the counters of busy workers.
    Contents of the B+Tree library.  Times and random numbers
    are arguments. *)

From stdpp Require Export gmap strings list fin_maps.
From Stdlib Require Export ZArith Lia.

Declare Scope go_scope.
Delimit Scope go_scope with go.
Open Scope Z_scope.
Open Scope go_scope.

(** ** Machine integers

    Go's unsigned integers are [Z] kept in range; every arithmetic operator
    of the source that can wrap is written with one of these. *)

Definition two64 : Z := 18446744073709551616.
Definition two32 : Z := 4294967296.

Definition u64 (z : Z) : Z := z mod two64.
Definition u32 (z : Z) : Z := z mod two32.

Definition uadd (a b : Z) : Z := u64 (a + b).
Definition usub (a b : Z) : Z := u64 (a - b).
Definition umul (a b : Z) : Z := u64 (a * b).

Notation "a +u b" := (uadd a b) (at level 50, left associativity) : go_scope.
Notation "a -u b" := (usub a b) (at level 50, left associativity) : go_scope.
Notation "a *u b" := (umul a b) (at level 40, left associativity) : go_scope.

Definition is_u64 (z : Z) : Prop := 0 <= z < two64.

Lemma two64_pos : 0 < two64.
Proof. reflexivity. Qed.

Lemma u64_range z : is_u64 (u64 z).
Proof. apply Z.mod_pos_bound, two64_pos. Qed.

Lemma u64_small z : is_u64 z -> u64 z = z.
Proof. intros H. apply Z.mod_small, H. Qed.

Lemma uadd_small a b : 0 <= a + b < two64 -> a +u b = a + b.
Proof. apply u64_small. Qed.

Lemma usub_small a b : 0 <= a - b < two64 -> a -u b = a - b.
Proof. apply u64_small. Qed.

Lemma umul_small a b : 0 <= a * b < two64 -> a *u b = a * b.
Proof. apply u64_small. Qed.

Lemma usub_wrap a b : - two64 <= a - b < 0 -> a -u b = a - b + two64.
Proof.
  intros H. unfold usub, u64. symmetry.
  apply (Z.mod_unique_pos _ _ (-1)); [|lia]. lia.
Qed.

Lemma uadd_wrap a b : two64 <= a + b < 2 * two64 -> a +u b = a + b - two64.
Proof.
  intros H. unfold uadd, u64. symmetry. apply (Z.mod_unique_pos _ _ 1); lia.
Qed.

(** Removes every wrap-around whose operands are in range. *)
Ltac unwrap_in_range :=
  repeat match goal with
  | |- context [uadd ?a ?b] => rewrite (uadd_small a b) by lia
  | |- context [usub ?a ?b] => rewrite (usub_small a b) by lia
  | |- context [umul ?a ?b] => rewrite (umul_small a b) by lia
  end.

(** ** Outcomes of Go calls

    A Go call returns values with a nil error, returns a non-nil error, or
    panics (which ends the process). *)

Inductive outcome (E A : Type) : Type :=
| Ret (a : A)
| Err (e : E)
| Panic.
Arguments Ret {E A} a.
Arguments Err {E A} e.
Arguments Panic {E A}.

Definition obind {E A B} (m : outcome E A) (k : A -> outcome E B) : outcome E B :=
  match m with
  | Ret a => k a
  | Err e => Err e
  | Panic => Panic
  end.

Notation "x <- m ;; k" := (obind m (fun x => k))
  (at level 100, m at next level, right associativity) : go_scope.
Notation "' p <- m ;; k" := (obind m (fun x => match x with p => k end))
  (at level 20, p pattern, m at level 99, k at level 200) : go_scope.

(** Go's [if !ok { panic(...) }] after a map access. *)
Definition must {E A} (o : option A) : outcome E A :=
  match o with Some a => Ret a | None => Panic end.

(** ** Stateful Go code: the state survives an error return. *)

Definition St (S E A : Type) : Type := S -> S * outcome E A.

Definition sret {S E A} (a : A) : St S E A := fun s => (s, Ret a).
Definition serr {S E A} (e : E) : St S E A := fun s => (s, Err e).
Definition spanic {S E A} : St S E A := fun s => (s, Panic).
Definition sget {S E} : St S E S := fun s => (s, Ret s).
Definition smod {S E} (f : S -> S) : St S E unit := fun s => (f s, Ret tt).
Definition slift {S E A} (m : outcome E A) : St S E A := fun s => (s, m).

Definition sbind {S E A B} (m : St S E A) (k : A -> St S E B) : St S E B :=
  fun s => match m s with
           | (s', Ret a) => k a s'
           | (s', Err e) => (s', Err e)
           | (s', Panic) => (s', Panic)
           end.

Notation "x <~ m ;; k" := (sbind m (fun x => k))
  (at level 100, m at next level, right associativity) : go_scope.
Notation "' p <~ m ;; k" := (sbind m (fun x => match x with p => k end))
  (at level 20, p pattern, m at level 99, k at level 200) : go_scope.
Notation "m ;;~ k" := (sbind m (fun _ => k))
  (at level 100, right associativity) : go_scope.

(** Runs [m] and returns its error, if any, as a value: the pattern
    [err = f(); if nil != err { ... }] where the caller goes on. *)
Definition stry {S E A} (m : St S E A) : St S E (E + A) :=
  fun s => match m s with
           | (s', Ret a) => (s', Ret (inr a))
           | (s', Err e) => (s', Ret (inl e))
           | (s', Panic) => (s', Panic)
           end.

Lemma sbind_ret {S E A B} (m : St S E A) (k : A -> St S E B) s s' a :
  m s = (s', Ret a) -> sbind m k s = k a s'.
Proof. intros H. unfold sbind. by rewrite H. Qed.

Lemma sbind_err {S E A B} (m : St S E A) (k : A -> St S E B) s s' e :
  m s = (s', Err e) -> sbind m k s = (s', Err e).
Proof. intros H. unfold sbind. by rewrite H. Qed.

(** A loop over a slice whose body may fail. *)
Fixpoint sfor {S E A} (l : list A) (body : A -> St S E unit) : St S E unit :=
  match l with
  | [] => sret tt
  | x :: l' => body x ;;~ sfor l' body
  end.

(** An invariant of a loop, kept by its body for every element. *)
Lemma sfor_inv {S E A} (P : S -> Prop) (l : list A) (body : A -> St S E unit) :
  (forall a s s' r, a ∈ l -> P s -> body a s = (s', r) -> P s') ->
  forall s s' r, P s -> sfor l body s = (s', r) -> P s'.
Proof.
  intros Hb. induction l as [|a l IH]; intros s s' r HP HE; [by injection HE as <- _|].
  cbn [sfor] in HE. unfold sbind in HE. destruct (body a s) as [s1 o] eqn:E1.
  assert (P s1) by (eapply Hb; [|done|done]; by apply elem_of_cons; left).
  destruct o as [u|e|]; [|by injection HE as <- _..].
  eapply IH; [|done|exact HE]. intros b t t' r' Hin. apply Hb. by apply elem_of_cons; right.
Qed.

(** A loop that ends without an error: what holds of the elements done. *)
Lemma sfor_ret_ind {S E A} (P : list A -> S -> Prop) (l : list A) (body : A -> St S E unit) s0 s' :
  P [] s0 ->
  (forall done x s1 s2, x ∈ l -> P done s1 -> body x s1 = (s2, Ret tt) -> P (done ++ [x]) s2) ->
  sfor l body s0 = (s', Ret tt) -> P l s'.
Proof.
  intros H0 Hb. change l with ([] ++ l) at 2. revert H0. generalize (@nil A) as before.
  assert (Hb' : forall x, x ∈ l -> forall done s1 s2, P done s1 -> body x s1 = (s2, Ret tt) -> P (done ++ [x]) s2) by eauto.
  clear Hb. revert s0. induction l as [|x l IH]; intros s0 before H0 HE; cbn [sfor] in HE.
  - injection HE as <-. by rewrite app_nil_r.
  - unfold sbind in HE. destruct (body x s0) as [s1 [[]| |]] eqn:Hx; try done.
    replace (before ++ x :: l) with ((before ++ [x]) ++ l) by by rewrite <- app_assoc.
    eapply IH; [intros y Hy; apply Hb'; set_solver| |exact HE]. eapply Hb'; [set_solver|exact H0|exact Hx].
Qed.

(** A sequence that ends without an error. *)
Lemma sbind_ret_inv {S E A B} (m : St S E A) (k : A -> St S E B) s s' b :
  sbind m k s = (s', Ret b) -> exists s1 a, m s = (s1, Ret a) /\ k a s1 = (s', Ret b).
Proof. unfold sbind. destruct (m s) as [s1 [a| |]]; try done. eauto. Qed.

(** ** Relational reasoning about stateful code

    [keeps R m]: however [m] ends, its final state is related to its initial
    state by [R].  For a preorder this is compositional, so it carries an
    invariant (or a monotone quantity) through any composition of calls. *)

Definition keeps {S E A} (R : S -> S -> Prop) (m : St S E A) : Prop :=
  forall s s' r, m s = (s', r) -> R s s'.

Section Keeps.
Context {S E : Type} (R : S -> S -> Prop) `{!PreOrder R}.

Lemma keeps_ret {A} (a : A) : keeps R (sret (E := E) a).
Proof. intros s s' r [= <- <-]. reflexivity. Qed.

Lemma keeps_err {A} (e : E) : keeps R (serr (A := A) e).
Proof. intros s s' r [= <- <-]. reflexivity. Qed.

Lemma keeps_panic {A} : keeps R (spanic (E := E) (A := A)).
Proof. intros s s' r [= <- <-]. reflexivity. Qed.

Lemma keeps_lift {A} (o : outcome E A) : keeps R (slift o).
Proof. intros s s' r [= <- <-]. reflexivity. Qed.

Lemma keeps_get : keeps R (sget (E := E)).
Proof. intros s s' r [= <- <-]. reflexivity. Qed.

Lemma keeps_bind {A B} (m : St S E A) (k : A -> St S E B) :
  keeps R m -> (forall a, keeps R (k a)) -> keeps R (sbind m k).
Proof.
  intros Hm Hk s s' r. unfold sbind. destruct (m s) as [s1 [a|e|]] eqn:E1; intros H.
  - etransitivity; [by eapply Hm | by eapply Hk].
  - injection H as <- <-. by eapply Hm.
  - injection H as <- <-. by eapply Hm.
Qed.

Lemma keeps_try {A} (m : St S E A) : keeps R m -> keeps R (stry m).
Proof.
  intros Hm s s' r. unfold stry. destruct (m s) as [s1 [a|e|]] eqn:E1; intros [= <- <-]; by eapply Hm.
Qed.

Lemma keeps_for {A} (l : list A) (body : A -> St S E unit) :
  (forall a, keeps R (body a)) -> keeps R (sfor l body).
Proof.
  intros Hb. induction l as [|a l IH]; simpl; [apply keeps_ret|]. by apply keeps_bind.
Qed.

Lemma keeps_mod (f : S -> S) : (forall s, R s (f s)) -> keeps R (smod (E := E) f).
Proof. intros Hf s s' r [= <- <-]. apply Hf. Qed.
End Keeps.

(** ** Record updates

    [r <| f := v |>] is the Go assignment [r.f = v] on a struct value.  A
    record declares its eta-expansion once; the update of a field replaces
    that field in it. *)

Class Eta (R : Type) := eta : R -> R.
Class Setter {R T : Type} (proj : R -> T) := set : (T -> T) -> R -> R.
Arguments set {R T} proj {Setter} _ _.

Ltac build_setter proj :=
  lazymatch type of proj with
  | ?R -> ?T =>
      let e := constr:(_ : Eta R) in
      let e := eval red in e in
      exact (fun (f : T -> T) (r : R) =>
               ltac:(let b := eval cbv beta in (e r) in
                     lazymatch b with
                     | context C [proj r] => let t := context C [f (proj r)] in exact t
                     end))
  end.

#[export] Hint Extern 1 (Setter ?proj) => build_setter proj : typeclass_instances.

Notation "r <| p := v |>" := (set p (fun _ => v) r)
  (at level 1, left associativity, p at level 0, v at level 99) : go_scope.

(** ** Lists *)

(** A Go [[]byte]. *)
Definition bytes : Type := list Z.

Definition zlen {A} (l : list A) : Z := Z.of_nat (length l).

Lemma zlen_app {A} (l1 l2 : list A) : zlen (l1 ++ l2) = zlen l1 + zlen l2.
Proof. unfold zlen. rewrite length_app. lia. Qed.

Lemma zlen_cons {A} (x : A) l : zlen (x :: l) = 1 + zlen l.
Proof. unfold zlen. simpl. lia. Qed.

Lemma zlen_nil {A} : zlen (@nil A) = 0.
Proof. reflexivity. Qed.

Lemma zlen_nonneg {A} (l : list A) : 0 <= zlen l.
Proof. unfold zlen. lia. Qed.

Definition zsum (l : list Z) : Z := foldr Z.add 0 l.

Lemma zsum_app l1 l2 : zsum (l1 ++ l2) = zsum l1 + zsum l2.
Proof. induction l1 as [|x l1 IH]; simpl; [done|]. unfold zsum in *. simpl. lia. Qed.

Lemma snoc_cases {A} (l : list A) : l = [] \/ exists l' x, l = l' ++ [x].
Proof.
  destruct l as [|x l _] using rev_ind; [by left|]. right. by exists l, x.
Qed.

Lemma lookup_mid {A} (l1 l2 : list A) x : (l1 ++ x :: l2) !! length l1 = Some x.
Proof. by rewrite list_lookup_middle. Qed.

(** One element of a list of owners changes: everybody else's share stays. *)
Lemma concat_insert {A B} (f : A -> list B) (l : list A) i x y :
  l !! i = Some x -> exists rest,
    concat (map f l) ≡ₚ f x ++ rest /\ concat (map f (<[i := y]> l)) ≡ₚ f y ++ rest.
Proof.
  intros Hi. exists (concat (map f (delete i l))). split.
  - rewrite (delete_Permutation l i x Hi) at 1. done.
  - assert (Hi' : <[i := y]> l !! i = Some y) by (apply list_lookup_insert_eq; by eapply lookup_lt_Some).
    rewrite (delete_Permutation _ i y Hi') at 1. simpl.
    replace (delete i (<[i := y]> l)) with (delete i l); [done|].
    clear. revert i. induction l as [|z l IH]; intros [|i]; simpl; try done. f_equal. apply IH.
Qed.

Lemma Forall2_insert_snoc {A B} (P : A -> B -> Prop) l k i x y l' k' :
  Forall2 P l k -> P x y -> Forall2 P l' k' -> Forall2 P (<[i := x]> l ++ l') (<[i := y]> k ++ k').
Proof. intros H Hxy H'. apply Forall2_app; [|done]. by apply Forall2_insert. Qed.

(** Boolean tests of the source, turned into propositions. *)
Ltac zcases :=
  repeat match goal with
  | |- context [Z.ltb ?a ?b] => destruct (Z.ltb_spec a b)
  | |- context [Z.leb ?a ?b] => destruct (Z.leb_spec a b)
  | |- context [Z.eqb ?a ?b] => destruct (Z.eqb_spec a b)
  | |- context [Z.gtb ?a ?b] => rewrite (Z.gtb_ltb a b)
  | |- context [Z.geb ?a ?b] => rewrite (Z.geb_leb a b)
  end.

Create Rewrite HintDb go_rw.
#[export] Hint Rewrite @zlen_app @zlen_cons @zlen_nil : go_rw.

(** Arithmetic about list lengths: normalises [zlen] and calls [lia]. *)
Ltac zlia :=
  autorewrite with go_rw in *;
  repeat match goal with
  | |- context [zlen ?l] => lazymatch goal with
      | _ : 0 <= zlen l |- _ => fail | |- _ => pose proof (zlen_nonneg l) end
  | _ : context [zlen ?l] |- _ => lazymatch goal with
      | _ : 0 <= zlen l |- _ => fail | |- _ => pose proof (zlen_nonneg l) end
  end; lia.

Create HintDb go.
#[export] Hint Resolve two64_pos u64_range zlen_nonneg : go.
