(* ===== verification/SortedMap.v ===== *)
(** The sorted-map contract used by the inode and headhunter packages.

    ProxyFS keeps directory entries, file extents and headhunter records in
    the B+Trees of the vendored [sortedmap] package.  The packages only rely
    on the [SortedMap] interface that package documents (indices are positions
    in key order, [BisectLeft] and [BisectRight] return the neighbouring
    position when the key is absent, [Put] refuses an existing key,
    [PatchBy*] refuse a missing one).  Here such a map is the list of its
    pairs in increasing key order, and each method of the interface is a
    function on that list. *)

From S2P Require Import Prelude.

(** A key order: Go's [sortedmap.Compare] callbacks. *)
Class KeyOrder (K : Type) := {
  kltb : K -> K -> bool;
  keqb : K -> K -> bool
}.

Class KeyOrderOk (K : Type) `{KeyOrder K} : Prop := {
  kltb_irrefl : forall k, kltb k k = false;
  kltb_trans : forall a b c, kltb a b = true -> kltb b c = true -> kltb a c = true;
  kltb_total : forall a b, kltb a b = false -> kltb b a = false -> a = b;
  keqb_spec : forall a b, keqb a b = true <-> a = b
}.

#[export] Instance KeyOrder_Z : KeyOrder Z := { kltb := Z.ltb; keqb := Z.eqb }.

#[export] Instance KeyOrderOk_Z : KeyOrderOk Z.
Proof. split; intros; simpl in *; lia. Qed.

#[export] Instance KeyOrder_string : KeyOrder string :=
  { kltb := String.ltb; keqb := String.eqb }.

Lemma ascii_compare_trans a b c :
  Ascii.compare a b = Lt -> Ascii.compare b c = Lt -> Ascii.compare a c = Lt.
Proof. unfold Ascii.compare. rewrite !N.compare_lt_iff. lia. Qed.

Lemma string_ltb_trans a : forall b c,
  String.compare a b = Lt -> String.compare b c = Lt -> String.compare a c = Lt.
Proof.
  induction a as [|x a IH]; intros [|y b] [|z c]; simpl; try done.
  destruct (Ascii.compare x y) eqn:Exy; destruct (Ascii.compare y z) eqn:Eyz;
    intros H1 H2; try done;
    try apply Ascii.compare_eq_iff in Exy; try apply Ascii.compare_eq_iff in Eyz; subst.
  - replace (Ascii.compare z z) with Eq by (symmetry; apply N.compare_refl).
    by apply (IH b).
  - by rewrite Eyz.
  - by rewrite Exy.
  - by rewrite (ascii_compare_trans x y z).
Qed.

Lemma string_compare_refl a : String.compare a a = Eq.
Proof.
  induction a as [|x a IH]; [done|]. simpl. unfold Ascii.compare.
  by rewrite N.compare_refl.
Qed.

#[export] Instance KeyOrderOk_string : KeyOrderOk string.
Proof.
  split; intros; simpl in *.
  - unfold String.ltb. by rewrite string_compare_refl.
  - unfold String.ltb in *.
    destruct (String.compare a b) eqn:E1; try done.
    destruct (String.compare b c) eqn:E2; try done.
    by rewrite (string_ltb_trans a b c).
  - unfold String.ltb in *. rewrite String.compare_antisym in H0.
    destruct (String.compare a b) eqn:E1; try done.
    by apply String.compare_eq_iff.
  - apply String.eqb_eq.
Qed.

Section SortedMap.
Context {K V : Type} `{KeyOrder K}.

(** Number of leading pairs whose key is smaller than [k]. *)
Fixpoint rank (k : K) (m : list (K * V)) : nat :=
  match m with
  | [] => O
  | (k', _) :: m' => if kltb k' k then S (rank k m') else O
  end.

Definition entry_at (m : list (K * V)) (k : K) : option V :=
  match m !! rank k m with
  | Some (k', v) => if keqb k' k then Some v else None
  | None => None
  end.

Definition BisectLeft (m : list (K * V)) (k : K) : Z * bool :=
  match entry_at m k with
  | Some _ => (Z.of_nat (rank k m), true)
  | None => (Z.of_nat (rank k m) - 1, false)
  end.

Definition BisectRight (m : list (K * V)) (k : K) : Z * bool :=
  (Z.of_nat (rank k m), match entry_at m k with Some _ => true | None => false end).

Definition GetByIndex (m : list (K * V)) (i : Z) : option (K * V) :=
  if i <? 0 then None else m !! Z.to_nat i.

Definition GetByKey (m : list (K * V)) (k : K) : option V := entry_at m k.

Definition Len (m : list (K * V)) : Z := zlen m.

Definition DeleteByIndex (m : list (K * V)) (i : Z) : option (list (K * V)) :=
  if (i <? 0) || (zlen m <=? i) then None
  else Some (take (Z.to_nat i) m ++ drop (S (Z.to_nat i)) m).

Definition PatchByIndex (m : list (K * V)) (i : Z) (v : V) : option (list (K * V)) :=
  match GetByIndex m i with
  | Some (k, _) => Some (<[Z.to_nat i := (k, v)]> m)
  | None => None
  end.

Definition DeleteByKey (m : list (K * V)) (k : K) : option (list (K * V)) :=
  match entry_at m k with
  | Some _ => Some (take (rank k m) m ++ drop (S (rank k m)) m)
  | None => None
  end.

Definition PatchByKey (m : list (K * V)) (k : K) (v : V) : option (list (K * V)) :=
  match entry_at m k with
  | Some _ => Some (<[rank k m := (k, v)]> m)
  | None => None
  end.

Definition Put (m : list (K * V)) (k : K) (v : V) : option (list (K * V)) :=
  match entry_at m k with
  | Some _ => None
  | None => Some (take (rank k m) m ++ (k, v) :: drop (rank k m) m)
  end.

(** Strictly increasing keys. *)
Fixpoint sorted (m : list (K * V)) : Prop :=
  match m with
  | [] => True
  | (k, _) :: m' => Forall (fun p => kltb k p.1 = true) m' /\ sorted m'
  end.

Definition below (k : K) : K * V -> Prop := fun p => kltb p.1 k = true.
Definition above (k : K) : K * V -> Prop := fun p => kltb k p.1 = true.

Context `{!KeyOrderOk K}.

Lemma keqb_refl k : keqb k k = true.
Proof. by apply keqb_spec. Qed.

Lemma above_neq k k' v m : Forall (above k) m -> (k', v) ∈ m -> kltb k' k = false.
Proof.
  intros Hm Hin. rewrite Forall_forall in Hm. specialize (Hm _ Hin).
  destruct (kltb k' k) eqn:E; [|done].
  unfold above in Hm. simpl in Hm.
  pose proof (kltb_trans _ _ _ Hm E) as C. by rewrite kltb_irrefl in C.
Qed.

Lemma sorted_app m1 m2 :
  sorted (m1 ++ m2) <->
  sorted m1 /\ sorted m2 /\ Forall (fun p => Forall (above p.1) m2) m1.
Proof.
  induction m1 as [|[k v] m1 IH]; simpl.
  - split; [intros Hs; repeat split; done | by intros (_ & ? & _)].
  - rewrite IH, Forall_app, Forall_cons. unfold above. simpl. tauto.
Qed.

Lemma rank_pre k pre post : Forall (below k) pre -> rank k (pre ++ post) = (length pre + rank k post)%nat.
Proof.
  intros Hp. induction pre as [|[k' v] pre IH]; simpl; [done|].
  inversion Hp as [|? ? Hk Hp']; subst. unfold below in Hk. simpl in Hk.
  rewrite Hk, IH by done. lia.
Qed.

Lemma rank_above k post : Forall (above k) post -> rank k post = O.
Proof.
  intros Hp. destruct post as [|[k' v] post]; [done|]. simpl.
  by rewrite (above_neq k k' v _ Hp) by set_solver.
Qed.

Lemma rank_hit k v post : rank k ((k, v) :: post) = O.
Proof. simpl. by rewrite kltb_irrefl. Qed.

Lemma entry_at_hit k v pre post :
  Forall (below k) pre -> entry_at (pre ++ (k, v) :: post) k = Some v.
Proof.
  intros Hp. unfold entry_at. rewrite (rank_pre k), rank_hit, Nat.add_0_r, lookup_mid by done.
  by rewrite keqb_refl.
Qed.

Lemma entry_at_miss k pre post :
  Forall (below k) pre -> Forall (above k) post -> entry_at (pre ++ post) k = None.
Proof.
  intros Hp Hq. unfold entry_at. rewrite (rank_pre k), (rank_above k), Nat.add_0_r by done.
  destruct post as [|[k' v] post].
  - by rewrite app_nil_r, lookup_ge_None_2 by lia.
  - rewrite lookup_mid. destruct (keqb k' k) eqn:E; [|done].
    apply keqb_spec in E. subst k'. inversion Hq as [|? ? Hk _]; subst.
    unfold above in Hk. simpl in Hk. by rewrite kltb_irrefl in Hk.
Qed.

(** Every sorted map is split by any key, with or without a hit. *)
Lemma sorted_split m k :
  sorted m ->
  (exists pre v post, m = pre ++ (k, v) :: post /\ Forall (below k) pre /\ Forall (above k) post)
  \/ (exists pre post, m = pre ++ post /\ Forall (below k) pre /\ Forall (above k) post).
Proof.
  induction m as [|[k' v'] m IH]; simpl.
  - intros _. right. by exists [], [].
  - intros [Hlt Hs]. destruct (kltb k' k) eqn:E1.
    + destruct (IH Hs) as [(pre & v & post & -> & Hp & Hq) | (pre & post & -> & Hp & Hq)].
      * left. exists ((k', v') :: pre), v, post. split; [done|]. split; [|done]. by constructor.
      * right. exists ((k', v') :: pre), post. split; [done|]. split; [|done]. by constructor.
    + destruct (kltb k k') eqn:E2.
      * right. exists [], ((k', v') :: m). split; [done|]. split; [done|].
        constructor; [done|]. eapply Forall_impl; [exact Hlt|].
        intros p Hp'. by apply (kltb_trans _ k').
      * left. pose proof (kltb_total _ _ E1 E2) as ->. by exists [], v', m.
Qed.

Lemma BisectLeft_hit k v pre post :
  Forall (below k) pre -> BisectLeft (pre ++ (k, v) :: post) k = (zlen pre, true).
Proof.
  intros Hp. unfold BisectLeft. rewrite entry_at_hit by done.
  by rewrite (rank_pre k), rank_hit, Nat.add_0_r.
Qed.

Lemma BisectLeft_miss k pre post :
  Forall (below k) pre -> Forall (above k) post ->
  BisectLeft (pre ++ post) k = (zlen pre - 1, false).
Proof.
  intros Hp Hq. unfold BisectLeft. rewrite entry_at_miss by done.
  by rewrite (rank_pre k), (rank_above k), Nat.add_0_r.
Qed.

Lemma BisectRight_hit k v pre post :
  Forall (below k) pre -> BisectRight (pre ++ (k, v) :: post) k = (zlen pre, true).
Proof.
  intros Hp. unfold BisectRight. rewrite entry_at_hit by done.
  by rewrite (rank_pre k), rank_hit, Nat.add_0_r.
Qed.

Lemma BisectRight_miss k pre post :
  Forall (below k) pre -> Forall (above k) post ->
  BisectRight (pre ++ post) k = (zlen pre, false).
Proof.
  intros Hp Hq. unfold BisectRight. rewrite entry_at_miss by done.
  by rewrite (rank_pre k), (rank_above k), Nat.add_0_r.
Qed.

Lemma GetByIndex_neg m i : i < 0 -> GetByIndex m i = None.
Proof. intros. unfold GetByIndex. by rewrite (proj2 (Z.ltb_lt _ _)). Qed.

Lemma GetByIndex_nat m (n : nat) : GetByIndex m (Z.of_nat n) = m !! n.
Proof. unfold GetByIndex. rewrite (proj2 (Z.ltb_ge _ _)) by lia. by rewrite Nat2Z.id. Qed.

Lemma GetByIndex_mid e pre post : GetByIndex (pre ++ e :: post) (zlen pre) = Some e.
Proof. unfold zlen. by rewrite GetByIndex_nat, lookup_mid. Qed.

Lemma GetByIndex_end m : GetByIndex m (zlen m) = None.
Proof. unfold zlen. rewrite GetByIndex_nat. by apply lookup_ge_None_2. Qed.

Lemma DeleteByIndex_mid e pre post : DeleteByIndex (pre ++ e :: post) (zlen pre) = Some (pre ++ post).
Proof.
  unfold DeleteByIndex. rewrite zlen_app, zlen_cons.
  pose proof (zlen_nonneg pre). pose proof (zlen_nonneg post).
  rewrite (proj2 (Z.ltb_ge _ _)), (proj2 (Z.leb_gt _ _)) by lia. simpl.
  unfold zlen. rewrite Nat2Z.id, take_app_length.
  replace (S (length pre)) with (length (pre ++ [e])) by (rewrite length_app; simpl; lia).
  replace (pre ++ e :: post) with ((pre ++ [e]) ++ post) by (by rewrite <- app_assoc).
  by rewrite drop_app_length.
Qed.

Lemma PatchByIndex_mid k v v' pre post :
  PatchByIndex (pre ++ (k, v) :: post) (zlen pre) v' = Some (pre ++ (k, v') :: post).
Proof.
  unfold PatchByIndex. rewrite GetByIndex_mid. unfold zlen.
  by rewrite Nat2Z.id, insert_app_r_alt, Nat.sub_diag by lia.
Qed.

Lemma Put_mid k v pre post :
  Forall (below k) pre -> Forall (above k) post ->
  Put (pre ++ post) k v = Some (pre ++ (k, v) :: post).
Proof.
  intros Hp Hq. unfold Put. rewrite entry_at_miss by done.
  by rewrite (rank_pre k), (rank_above k), Nat.add_0_r, take_app_length, drop_app_length.
Qed.

Lemma Put_hit k v v' pre post :
  Forall (below k) pre -> Put (pre ++ (k, v) :: post) k v' = None.
Proof. intros Hp. unfold Put. by rewrite entry_at_hit. Qed.

Lemma DeleteByKey_mid k v pre post :
  Forall (below k) pre -> DeleteByKey (pre ++ (k, v) :: post) k = Some (pre ++ post).
Proof.
  intros Hp. unfold DeleteByKey. rewrite entry_at_hit by done.
  rewrite (rank_pre k), rank_hit, Nat.add_0_r by done. rewrite take_app_length.
  replace (S (length pre)) with (length (pre ++ [(k, v)])) by (rewrite length_app; simpl; lia).
  replace (pre ++ (k, v) :: post) with ((pre ++ [(k, v)]) ++ post) by (by rewrite <- app_assoc).
  by rewrite drop_app_length.
Qed.

Lemma DeleteByKey_miss k m : entry_at m k = None -> DeleteByKey m k = None.
Proof. intros Hm. unfold DeleteByKey. by rewrite Hm. Qed.

Lemma PatchByKey_mid k v v' pre post :
  Forall (below k) pre -> PatchByKey (pre ++ (k, v) :: post) k v' = Some (pre ++ (k, v') :: post).
Proof.
  intros Hp. unfold PatchByKey. rewrite entry_at_hit by done.
  rewrite (rank_pre k), rank_hit, Nat.add_0_r by done.
  by rewrite insert_app_r_alt, Nat.sub_diag by lia.
Qed.

(** ** Sorted maps as sets of pairs *)

Lemma below_neq k v m : Forall (below k) m -> (k, v) ∉ m.
Proof. intros Hm Hin. rewrite Forall_forall in Hm. specialize (Hm _ Hin). unfold below in Hm. cbn in Hm. by rewrite kltb_irrefl in Hm. Qed.

Lemma above_not_elem k v m : Forall (above k) m -> (k, v) ∉ m.
Proof. intros Hm Hin. rewrite Forall_forall in Hm. specialize (Hm _ Hin). unfold above in Hm. cbn in Hm. by rewrite kltb_irrefl in Hm. Qed.

Lemma entry_at_elem m k v : sorted m -> entry_at m k = Some v <-> (k, v) ∈ m.
Proof.
  intros Hs. destruct (sorted_split m k Hs) as [(pre & v0 & post & -> & Hp & Hq)|(pre & post & -> & Hp & Hq)].
  - rewrite entry_at_hit by done. rewrite elem_of_app, elem_of_cons. split; [intros [= ->]; by right; left|].
    intros [Hin|[[= ->]|Hin]]; [|done|]; exfalso; [by eapply below_neq|by eapply above_not_elem].
  - rewrite entry_at_miss by done. rewrite elem_of_app. split; [done|].
    intros [Hin|Hin]; exfalso; [by eapply below_neq|by eapply above_not_elem].
Qed.

Lemma sorted_keys m m' : map fst m = map fst m' -> sorted m -> sorted m'.
Proof.
  revert m'. induction m as [|[k v] m IH]; intros [|[k' v'] m'] HE Hs; try done. cbn in *. injection HE as -> HE.
  destruct Hs as [Hlt Hs]. split; [|by eapply IH]. clear -Hlt HE.
  revert m' HE. induction Hlt as [|[a b] m Ha _ IH]; intros [|[a' b'] m'] HE; try done. cbn in *. injection HE as <- HE.
  constructor; [done|]. by apply IH.
Qed.

Lemma PatchByKey_elem m k v m' : sorted m -> PatchByKey m k v = Some m' ->
  sorted m' /\ map fst m' = map fst m /\ (exists v0, (k, v0) ∈ m)
  /\ forall k' v', (k', v') ∈ m' <-> k' = k /\ v' = v \/ k' <> k /\ (k', v') ∈ m.
Proof.
  intros Hs HP. destruct (sorted_split m k Hs) as [(pre & v0 & post & -> & Hp & Hq)|(pre & post & -> & Hp & Hq)].
  - rewrite PatchByKey_mid in HP by done. injection HP as <-.
    assert (Hk : map fst (pre ++ (k, v) :: post) = map fst (pre ++ (k, v0) :: post)) by (by rewrite !map_app).
    split; [by eapply sorted_keys|]. split; [done|]. split; [exists v0; set_solver|]. intros k' v'.
    rewrite !elem_of_app, !elem_of_cons. destruct (keqb k' k) eqn:E.
    + apply keqb_spec in E. subst k'. pose proof (below_neq k v' pre Hp). pose proof (above_not_elem k v' post Hq).
      split; [intros [?|[[= ->]|?]]; naive_solver|naive_solver].
    + assert (k' <> k) by (intros ->; by rewrite keqb_refl in E). split; [intros [?|[[= ? ?]|?]]; naive_solver|].
      intros [[? ?]|[_ [?|[[= ? ?]|?]]]]; naive_solver.
  - unfold PatchByKey in HP. by rewrite entry_at_miss in HP.
Qed.

Lemma Put_elem m k v m' : sorted m -> Put m k v = Some m' ->
  sorted m' /\ zlen m' = zlen m + 1 /\ (forall v0, (k, v0) ∉ m)
  /\ forall k' v', (k', v') ∈ m' <-> k' = k /\ v' = v \/ (k', v') ∈ m.
Proof.
  intros Hs HP. destruct (sorted_split m k Hs) as [(pre & v0 & post & -> & Hp & Hq)|(pre & post & -> & Hp & Hq)].
  - by rewrite Put_hit in HP.
  - rewrite Put_mid in HP by done. injection HP as <-. split.
    { apply sorted_app in Hs as (Hs1 & Hs2 & Hall). apply sorted_app. split; [done|]. split; [by split|].
      rewrite Forall_forall in Hall, Hp |- *. intros p Hin. constructor; [by apply Hp|by apply Hall]. }
    split; [rewrite !zlen_app, zlen_cons; lia|]. split.
    { intros v0. rewrite elem_of_app. intros [Hin|Hin]; [by eapply below_neq|by eapply above_not_elem]. }
    intros k' v'. rewrite !elem_of_app, elem_of_cons. split; [intros [?|[[= -> ->]|?]]; auto|].
    intros [[-> ->]|[?|?]]; auto.
Qed.

Lemma DeleteByKey_elem m k m' : sorted m -> DeleteByKey m k = Some m' ->
  sorted m' /\ forall k' v', (k', v') ∈ m' <-> k' <> k /\ (k', v') ∈ m.
Proof.
  intros Hs HD. destruct (sorted_split m k Hs) as [(pre & v0 & post & -> & Hp & Hq)|(pre & post & -> & Hp & Hq)].
  - rewrite DeleteByKey_mid in HD by done. injection HD as <-. split.
    { apply sorted_app in Hs as (Hs1 & [_ Hs2] & Hall). apply sorted_app. split; [done|]. split; [done|].
      eapply Forall_impl; [exact Hall|]. intros p Hc. by apply Forall_cons in Hc as [_ Hc]. }
    intros k' v'. rewrite !elem_of_app, elem_of_cons. destruct (keqb k' k) eqn:E.
    + apply keqb_spec in E. subst k'. pose proof (below_neq k v' pre Hp). pose proof (above_not_elem k v' post Hq). naive_solver.
    + assert (k' <> k) by (intros ->; by rewrite keqb_refl in E). naive_solver.
  - by rewrite DeleteByKey_miss in HD by by apply entry_at_miss.
Qed.
End SortedMap.
