(* ===== verification/Blunder.v ===== *)
(** Package [blunder]: errors annotated with an errno and an HTTP status.

    An error is the chain of (key, value) annotations that [merry] keeps, the
    newest first; message texts and stack traces are not modelled.  A Go
    [error] value is [option error], with [None] for [nil]. *)

From S2P Require Import Prelude.

Module Blunder.

Inductive errkey := KErrno | KHTTPCode.

#[export] Instance errkey_eq_dec : EqDecision errkey.
Proof. solve_decision. Defined.

(** A non-nil error; [[]] is what [fmt.Errorf] returns. *)
Definition error : Type := list (errkey * Z).

Definition plain : error := [].

(** [FsError] values. *)
Definition NotPermError : Z := 1.
Definition NotFoundError : Z := 2.
Definition IOError : Z := 5.
Definition TooBigError : Z := 7.
Definition TooManyArgsError : Z := 7.
Definition BadFileError : Z := 9.
Definition TryAgainError : Z := 11.
Definition OutOfMemoryError : Z := 12.
Definition PermDeniedError : Z := 13.
Definition BadAddressError : Z := 14.
Definition DevBusyError : Z := 16.
Definition FileExistsError : Z := 17.
Definition NoDeviceError : Z := 19.
Definition NotDirError : Z := 20.
Definition IsDirError : Z := 21.
Definition InvalidArgError : Z := 22.
Definition TableOverflowError : Z := 23.
Definition TooManyOpenFilesError : Z := 24.
Definition FileTooLargeError : Z := 27.
Definition NoSpaceError : Z := 28.
Definition BadSeekError : Z := 29.
Definition ReadOnlyError : Z := 30.
Definition TooManyLinksError : Z := 31.
Definition OutOfRangeError : Z := 34.
Definition NameTooLongError : Z := 36.
Definition NoLocksError : Z := 37.
Definition NotImplementedError : Z := 38.
Definition NotEmptyError : Z := 39.
Definition TooManySymlinksError : Z := 40.
Definition NotSupportedError : Z := 95.
Definition NoDataError : Z := 61.
Definition TimedOut : Z := 110.

Definition NotActiveError : Z := NotFoundError.
Definition BadMountIDError : Z := InvalidArgError.
Definition BadMountVolumeError : Z := InvalidArgError.
Definition NotFileError : Z := IsDirError.
Definition SegNumNotIntError : Z := IOError.
Definition SegNotFoundError : Z := IOError.
Definition SegReadError : Z := IOError.
Definition BtreeDeleteError : Z := IOError.
Definition BtreePutError : Z := IOError.
Definition BtreeLenError : Z := IOError.
Definition FileWriteError : Z := IOError.
Definition GetMetadataError : Z := IOError.
Definition InodeFlushError : Z := IOError.
Definition NotSymlinkError : Z := InvalidArgError.
Definition IsSymlinkError : Z := InvalidArgError.
Definition LinkDirError : Z := NotPermError.
Definition BadHTTPDeleteError : Z := IOError.
Definition BadHTTPGetError : Z := IOError.
Definition BadHTTPHeadError : Z := IOError.
Definition BadHTTPPutError : Z := IOError.
Definition InvalidInodeTypeError : Z := InvalidArgError.
Definition InvalidFileModeError : Z := InvalidArgError.
Definition InvalidUserIDError : Z := InvalidArgError.
Definition InvalidGroupIDError : Z := InvalidArgError.
Definition StreamNotFound : Z := NoDataError.
Definition AccountNotModifiable : Z := NotPermError.
Definition OldMetaDataDifferent : Z := TryAgainError.

Definition SuccessError : Z := 0.
Definition UnpackError : Z := 1000.
Definition PackError : Z := 1001.
Definition CorruptInodeError : Z := 1002.
Definition NotAnObjectError : Z := 1003.

Definition successErrno : Z := 0.
Definition failureErrno : Z := -1.

(** [merry.Value]: the newest annotation with that key. *)
Fixpoint merryValue (e : error) (k : errkey) : option Z :=
  match e with
  | [] => None
  | (k', v) :: e' => if decide (k' = k) then Some v else merryValue e' k
  end.

Definition NewError (errValue : Z) : error := (KErrno, errValue) :: plain.

Definition AddError (e : option error) (errValue : Z) : error :=
  match e with
  | None => (KErrno, errValue) :: plain
  | Some e' => (KErrno, errValue) :: e'
  end.

Definition hasErrnoValue (e : option error) : bool :=
  match e with
  | None => false
  | Some e' => match merryValue e' KErrno with Some _ => true | None => false end
  end.

Definition AddHTTPCode (e : option error) (statusCode : Z) : error :=
  match e with
  | None => (KHTTPCode, statusCode) :: plain
  | Some e' => (KHTTPCode, statusCode) :: e'
  end.

Definition Errno (e : option error) : Z :=
  match e with
  | None => successErrno
  | Some e' => match merryValue e' KErrno with Some v => v | None => failureErrno end
  end.

Definition Is (e : option error) (theError : Z) : bool := Errno e =? theError.
Definition IsNot (e : option error) (theError : Z) : bool := negb (Errno e =? theError).
Definition IsSuccess (e : option error) : bool := Errno e =? successErrno.
Definition IsNotSuccess (e : option error) : bool := negb (Errno e =? successErrno).

(** [merry.Wrap(nil)] is a nil interface, whose [WithValue] panics. *)
Definition ErrorUpdate (e : option error) (currentVal changeToVal : Z) : outcome error (option error) :=
  if Errno e =? currentVal then
    match e with
    | None => Panic
    | Some e' => Ret (Some ((KErrno, changeToVal) :: e'))
    end
  else Ret e.

Definition HTTPCode (e : option error) : Z :=
  match e with
  | None => 200
  | Some e' =>
      match merryValue e' KHTTPCode with
      | Some code => if code =? 0 then 500 else code
      | None => 500
      end
  end.

Lemma Errno_AddError e v : Errno (Some (AddError e v)) = v.
Proof. by destruct e. Qed.

Lemma Is_AddError e v : Is (Some (AddError e v)) v = true.
Proof. unfold Is. rewrite Errno_AddError. apply Z.eqb_refl. Qed.

(** Annotations of an error are independent and the newest wins: adding an
    errno sets the errno that [Is] tests and keeps the HTTP status, adding a
    status keeps the errno, [ErrorUpdate] replaces exactly the errno it is
    asked to replace, and no error at all counts as success with status 200. *)
Theorem error_annotations e v code cur new :
  Errno (Some (AddError e v)) = v /\ Is (Some (AddError e v)) v = true
  /\ (e <> None -> HTTPCode (Some (AddError e v)) = HTTPCode e)
  /\ (e <> None -> Errno (Some (AddHTTPCode e code)) = Errno e)
  /\ (code <> 0 -> HTTPCode (Some (AddHTTPCode e code)) = code)
  /\ (forall x, e = Some x -> Errno e = cur -> ErrorUpdate e cur new = Ret (Some (AddError e new)))
  /\ (Errno e <> cur -> ErrorUpdate e cur new = Ret e)
  /\ (IsSuccess None = true /\ HTTPCode None = 200 /\ ErrorUpdate None SuccessError new = Panic).
Proof.
  split_and!; try done.
  - apply Errno_AddError.
  - apply Is_AddError.
  - by destruct e.
  - by destruct e.
  - intros Hc. destruct e as [e|]; simpl; by destruct (Z.eqb_spec code 0).
  - intros x -> <-. unfold ErrorUpdate. by rewrite Z.eqb_refl.
  - intros Hne. unfold ErrorUpdate. by destruct (Z.eqb_spec (Errno e) cur).
Qed.

End Blunder.

Export Blunder.

(** Results of Go calls that return a [blunder]-style error. *)
Abbreviation res A := (outcome error A).

#[export] Hint Rewrite Errno_AddError Is_AddError : go_rw.
