(* ===== verification/Utils.v ===== *)
(** Package [utils]: byte and string conversions, Swift paths, the
    multi-waiter wait group and the statistics helpers.

    The Go library functions the package calls ([binary.LittleEndian],
    [strconv.ParseUint] in base 16, [fmt]'s [%016X], [strings.SplitN]) are
    modelled on the way they are used here. *)

From S2P Require Import Prelude Blunder.
From Stdlib Require Import Ascii.
Open Scope list_scope.

Definition is_byte (b : Z) : Prop := 0 <= b < 256.

(** ** Little-endian integers *)

Fixpoint lePut (n : nat) (v : Z) : bytes :=
  match n with
  | O => []
  | S n' => v mod 256 :: lePut n' (v / 256)
  end.

Fixpoint leGet (bs : bytes) : Z :=
  match bs with
  | [] => 0
  | b :: bs' => b + 256 * leGet bs'
  end.

Definition ByteSliceToUint32 (byteSlice : bytes) : option Z :=
  if negb (4 =? zlen byteSlice) then None else Some (leGet byteSlice).

Definition Uint32ToByteSlice (u32 : Z) : bytes := lePut 4 u32.

Definition ByteSliceToUint64 (byteSlice : bytes) : option Z :=
  if negb (8 =? zlen byteSlice) then None else Some (leGet byteSlice).

Definition Uint64ToByteSlice (u64 : Z) : bytes := lePut 8 u64.

(** ** Strings as byte sequences *)

Definition byteOfAscii (c : ascii) : Z := Z.of_N (N_of_ascii c).
Definition asciiOfByte (b : Z) : ascii := ascii_of_N (Z.to_N b).

Fixpoint StringToByteSlice (str : string) : bytes :=
  match str with
  | EmptyString => []
  | String c str' => byteOfAscii c :: StringToByteSlice str'
  end.

Fixpoint ByteSliceToString (byteSlice : bytes) : string :=
  match byteSlice with
  | [] => EmptyString
  | b :: byteSlice' => String (asciiOfByte b) (ByteSliceToString byteSlice')
  end.

(** ** Hexadecimal *)

Definition ByteToHexDigit (u8 : Z) : Z :=
  let u8 := Z.land u8 15 in
  if 10 >? u8 then 48 + u8 else 65 + (u8 - 10).

(** [%0<n>X] of a value below [16 ^ n]. *)
Fixpoint hexDigits (n : nat) (value : Z) (tail : string) : string :=
  match n with
  | O => tail
  | S n' => hexDigits n' (value / 16) (String (asciiOfByte (ByteToHexDigit (value mod 16))) tail)
  end.

Definition Uint64ToHexStr (value : Z) : string := hexDigits 16 value EmptyString.

Definition hexValue (c : ascii) : option Z :=
  let b := byteOfAscii c in
  if (48 <=? b) && (b <=? 57) then Some (b - 48)
  else if (97 <=? b) && (b <=? 102) then Some (b - 97 + 10)
  else if (65 <=? b) && (b <=? 70) then Some (b - 65 + 10)
  else None.

Fixpoint parseHex (s : string) (n : Z) : option Z :=
  match s with
  | EmptyString => Some n
  | String c s' =>
      match hexValue c with
      | None => None
      | Some v => if two64 <=? n * 16 + v then None else parseHex s' (n * 16 + v)
      end
  end.

(** [strconv.ParseUint(value, 16, 64)]: a syntax or range error is [plain]. *)
Definition HexStrToUint64 (value : string) : res Z :=
  match value with
  | EmptyString => Err plain
  | _ => match parseHex value 0 with Some v => Ret v | None => Err plain end
  end.

(** ** Splitting *)

(** [strings.Cut] at the first occurrence of a one-character separator. *)
Fixpoint cutAt (sep : ascii) (s : string) : string * option string :=
  match s with
  | EmptyString => (EmptyString, None)
  | String c s' =>
      if Ascii.eqb c sep then (EmptyString, Some s')
      else let '(a, r) := cutAt sep s' in (String c a, r)
  end.

Fixpoint SplitN (sep : ascii) (n : nat) (s : string) : list string :=
  match n with
  | O => []
  | S O => [s]
  | S n' => match cutAt sep s with
            | (a, None) => [a]
            | (a, Some r) => a :: SplitN sep n' r
            end
  end.

Fixpoint Split (sep : ascii) (s : string) : list string :=
  match s with
  | EmptyString => [EmptyString]
  | String c s' =>
      if Ascii.eqb c sep then EmptyString :: Split sep s'
      else match Split sep s' with
           | [] => [String c EmptyString]
           | w :: ws => String c w :: ws
           end
  end.

Definition slash : ascii := "/"%char.

(** [path[1:]] panics on the empty path. *)
Definition PathToAcctContObj (path : string) : res (string * string * string) :=
  match path with
  | EmptyString => Panic
  | String _ path' =>
      match SplitN slash 4 path' with
      | [_; accountName] => Ret (accountName, EmptyString, EmptyString)
      | [_; accountName; containerName] => Ret (accountName, containerName, EmptyString)
      | [_; accountName; containerName; objectName] => Ret (accountName, containerName, objectName)
      | _ => Err plain
      end
  end.

(** ** [MultiWaiterWaitGroup]

    [waiting] counts the goroutines blocked on the condition variable: a
    broadcast lets all of them run again, and each then tests the count of
    signalers once more, as [Wait] does on entry. *)

Record MultiWaiterWaitGroup := mkMWWG {
  numWaiters : Z;
  numSignalers : Z;
  waiting : Z
}.

#[export] Instance eta_mwwg : Eta MultiWaiterWaitGroup := fun m =>
  mkMWWG (numWaiters m) (numSignalers m) (waiting m).

Definition FetchMultiWaiterWaitGroup : MultiWaiterWaitGroup := mkMWWG 0 0 0.

(** [Add] returns how many goroutines its broadcast woke. *)
Definition mwwgAdd (m : MultiWaiterWaitGroup) (delta : Z) : outcome error (MultiWaiterWaitGroup * Z) :=
  let m := m <| numSignalers := numSignalers m + delta |> in
  if 0 >? numSignalers m then Panic
  else if (0 =? numSignalers m) && (0 <? numWaiters m)
       then Ret (m <| numWaiters := 0 |> <| waiting := 0 |>, waiting m)
       else Ret (m, 0).

Definition mwwgDone (m : MultiWaiterWaitGroup) : outcome error (MultiWaiterWaitGroup * Z) := mwwgAdd m (-1).

(** One pass of the loop of [Wait]: [true] when it returns. *)
Definition mwwgWait (m : MultiWaiterWaitGroup) : MultiWaiterWaitGroup * bool :=
  if negb (0 =? numSignalers m)
  then (m <| numWaiters := numWaiters m +u 1 |> <| waiting := waiting m + 1 |>, false)
  else (m, true).

(** ** Statistics *)

Record EventStats := mkStats {
  numOps : Z;
  opDuration : Z;
  lwmDuration : Z;
  hwmDuration : Z
}.

#[export] Instance eta_stats : Eta EventStats := fun s =>
  mkStats (numOps s) (opDuration s) (lwmDuration s) (hwmDuration s).

Definition isSmallerThan (newDur oldDur : Z) : bool := newDur <? oldDur.
Definition durationIsZero (duration : Z) : bool := duration =? 0.

Definition setHighLowValue (s : EventStats) (duration : Z) : EventStats :=
  if isSmallerThan duration (lwmDuration s) || durationIsZero (lwmDuration s)
  then s <| lwmDuration := duration |>
  else s <| hwmDuration := duration |>.

Definition incOpDuration (s : EventStats) (duration : Z) : EventStats :=
  setHighLowValue (s <| opDuration := opDuration s + duration |>) duration.

(** ** Facts: integers *)

Lemma lePut_length n v : length (lePut n v) = n.
Proof. revert v. induction n as [|n IH]; intros v; simpl; [done|]. by rewrite IH. Qed.

Lemma leGet_lePut n : forall v, 0 <= v < 256 ^ Z.of_nat n -> leGet (lePut n v) = v.
Proof.
  induction n as [|n IH]; intros v Hv; simpl; [simpl in Hv; lia|].
  rewrite Nat2Z.inj_succ, Z.pow_succ_r in Hv by lia. rewrite IH; [|split; [apply Z.div_pos; lia|]].
  - pose proof (Z.div_mod v 256 ltac:(lia)). lia.
  - apply Z.div_lt_upper_bound; lia.
Qed.

Lemma lePut_leGet bs : Forall is_byte bs -> lePut (length bs) (leGet bs) = bs.
Proof.
  induction 1 as [|b bs Hb _ IH]; [done|]. cbn [length lePut leGet]. unfold is_byte in Hb.
  rewrite (Z.mul_comm 256), Z.mod_add, Z.mod_small, Z.div_add, Z.div_small, Z.add_0_l by lia. by rewrite IH.
Qed.

Lemma lePut_bytes n v : Forall is_byte (lePut n v).
Proof.
  revert v. induction n as [|n IH]; intros v; simpl; [constructor|]. constructor; [|apply IH].
  apply Z.mod_pos_bound. lia.
Qed.

Lemma leGet_range bs : Forall is_byte bs -> 0 <= leGet bs < 256 ^ zlen bs.
Proof.
  induction 1 as [|b bs Hb _ IH]; [done|]. cbn [leGet]. rewrite zlen_cons, Z.pow_add_r by zlia.
  unfold is_byte in Hb. change (256 ^ 1) with 256. lia.
Qed.

(** [bs] read at width [n] in little-endian order from the front of a buffer. *)
Lemma leGet_take n v rest : 0 <= v < 256 ^ Z.of_nat n -> leGet (take n (lePut n v ++ rest)) = v.
Proof. intros Hv. rewrite <- (lePut_length n v) at 1. rewrite take_app_length. by apply leGet_lePut. Qed.

Lemma byteOfAscii_range c : is_byte (byteOfAscii c).
Proof. unfold byteOfAscii, is_byte. pose proof (N_ascii_bounded c). lia. Qed.

Lemma asciiOfByte_byteOfAscii c : asciiOfByte (byteOfAscii c) = c.
Proof. unfold asciiOfByte, byteOfAscii. rewrite N2Z.id. apply ascii_N_embedding. Qed.

Lemma byteOfAscii_asciiOfByte b : is_byte b -> byteOfAscii (asciiOfByte b) = b.
Proof. unfold asciiOfByte, byteOfAscii, is_byte. intros Hb. rewrite N_ascii_embedding; lia. Qed.

Lemma ByteSliceToString_StringToByteSlice s : ByteSliceToString (StringToByteSlice s) = s.
Proof. induction s as [|c s IH]; simpl; [done|]. by rewrite IH, asciiOfByte_byteOfAscii. Qed.

Lemma StringToByteSlice_ByteSliceToString bs : Forall is_byte bs -> StringToByteSlice (ByteSliceToString bs) = bs.
Proof. induction 1 as [|b bs Hb _ IH]; simpl; [done|]. by rewrite IH, byteOfAscii_asciiOfByte. Qed.

(** The fixed-width encodings are mutually inverse: a 32- or 64-bit value
    survives the trip through bytes, a slice of the right length of any bytes
    survives the trip through the integer, and every other length is refused. *)
Theorem integer_bytes_roundtrip :
  (forall v, 0 <= v < two32 -> ByteSliceToUint32 (Uint32ToByteSlice v) = Some v)
  /\ (forall v, 0 <= v < two64 -> ByteSliceToUint64 (Uint64ToByteSlice v) = Some v)
  /\ (forall bs v, Forall is_byte bs -> ByteSliceToUint32 bs = Some v -> Uint32ToByteSlice v = bs /\ v < two32)
  /\ (forall bs v, Forall is_byte bs -> ByteSliceToUint64 bs = Some v -> Uint64ToByteSlice v = bs /\ v < two64)
  /\ (forall bs, ByteSliceToUint32 bs = None <-> length bs <> 4%nat)
  /\ (forall bs, ByteSliceToUint64 bs = None <-> length bs <> 8%nat).
Proof.
  unfold ByteSliceToUint32, ByteSliceToUint64, Uint32ToByteSlice, Uint64ToByteSlice.
  split_and!.
  - intros v Hv. by rewrite leGet_lePut.
  - intros v Hv. by rewrite leGet_lePut.
  - intros bs v Hbs. destruct (Z.eqb_spec 4 (zlen bs)) as [E|]; [|done]. cbn [negb]. intros [= <-].
    pose proof (leGet_range bs Hbs) as Hr. rewrite <- E in Hr.
    split; [|exact (proj2 Hr)]. replace 4%nat with (length bs) by (unfold zlen in E; lia). by apply lePut_leGet.
  - intros bs v Hbs. destruct (Z.eqb_spec 8 (zlen bs)) as [E|]; [|done]. cbn [negb]. intros [= <-].
    pose proof (leGet_range bs Hbs) as Hr. rewrite <- E in Hr.
    split; [|exact (proj2 Hr)]. replace 8%nat with (length bs) by (unfold zlen in E; lia). by apply lePut_leGet.
  - intros bs. unfold zlen. destruct (Z.eqb_spec 4 (Z.of_nat (length bs))); simpl; split; [done|lia|lia|done].
  - intros bs. unfold zlen. destruct (Z.eqb_spec 8 (Z.of_nat (length bs))); simpl; split; [done|lia|lia|done].
Qed.

(** ** Facts: hexadecimal *)

Lemma hexValue_digit d : 0 <= d < 16 -> hexValue (asciiOfByte (ByteToHexDigit d)) = Some d.
Proof.
  intros Hd. assert (d = 0 \/ d = 1 \/ d = 2 \/ d = 3 \/ d = 4 \/ d = 5 \/ d = 6 \/ d = 7 \/ d = 8 \/ d = 9
    \/ d = 10 \/ d = 11 \/ d = 12 \/ d = 13 \/ d = 14 \/ d = 15) as Hc by lia.
  repeat (destruct Hc as [->|Hc]; [reflexivity|]). by subst d.
Qed.

Lemma parseHex_app s1 : forall s2 n,
  parseHex (s1 +:+ s2) n = match parseHex s1 n with Some m => parseHex s2 m | None => None end.
Proof.
  induction s1 as [|c s1 IH]; intros s2 n; simpl; [done|].
  destruct (hexValue c); [|done]. destruct (_ <=? _); [done|]. apply IH.
Qed.

Lemma parseHex_hexDigits n : forall v tail m,
  0 <= v < 16 ^ Z.of_nat n -> 0 <= m -> m * 16 ^ Z.of_nat n + v < two64 ->
  parseHex (hexDigits n v tail) m = parseHex tail (m * 16 ^ Z.of_nat n + v).
Proof.
  induction n as [|n IH]; intros v tail m Hv Hm Hb.
  - simpl in *. f_equal. lia.
  - rewrite Nat2Z.inj_succ, Z.pow_succ_r in * by lia. cbn [hexDigits].
    assert (0 <= v / 16 < 16 ^ Z.of_nat n).
    { split; [apply Z.div_pos; lia | apply Z.div_lt_upper_bound; lia]. }
    pose proof (Z.div_mod v 16 ltac:(lia)) as Hdm. pose proof (Z.mod_pos_bound v 16 ltac:(lia)) as Hmod.
    rewrite IH by (try lia; nia). cbn [parseHex].
    rewrite hexValue_digit by lia.
    replace ((m * 16 ^ Z.of_nat n + v / 16) * 16 + v mod 16) with (m * (16 * 16 ^ Z.of_nat n) + v) by lia.
    destruct (Z.leb_spec two64 (m * (16 * 16 ^ Z.of_nat n) + v)); [lia|done].
Qed.

Lemma hexDigits_cons n v tail : exists c s, hexDigits (S n) v tail = String c s.
Proof.
  revert v tail. induction n as [|n IH]; intros v tail; [simpl; eauto|].
  cbn [hexDigits]. apply IH.
Qed.

Lemma HexStrToUint64_Uint64ToHexStr v : is_u64 v -> HexStrToUint64 (Uint64ToHexStr v) = Ret v.
Proof.
  intros Hv. unfold HexStrToUint64, Uint64ToHexStr.
  destruct (hexDigits_cons 15 v EmptyString) as (c & s & E). rewrite E, <- E.
  rewrite parseHex_hexDigits; [done| |lia|]; unfold is_u64, two64 in *; simpl; lia.
Qed.

Lemma hexDigits_length n v tail : String.length (hexDigits n v tail) = (n + String.length tail)%nat.
Proof. revert v tail. induction n as [|n IH]; intros v tail; simpl; [done|]. rewrite IH. simpl. lia. Qed.

Lemma hexValue_range c v : hexValue c = Some v -> 0 <= v < 16.
Proof. unfold hexValue. pose proof (byteOfAscii_range c). repeat case_match; intros [= <-]; lia. Qed.

Lemma parseHex_range s : forall n v, is_u64 n -> parseHex s n = Some v -> is_u64 v.
Proof.
  induction s as [|c s IH]; simpl; intros n v Hn HE; [congruence|].
  destruct (hexValue c) as [d|] eqn:E; [|done]. apply hexValue_range in E.
  destruct (Z.leb_spec two64 (n * 16 + d)); [done|]. eapply IH; [|exact HE]. unfold is_u64 in *. lia.
Qed.

(** Object and log segment names: every 64-bit number prints as exactly 16
    hexadecimal digits, parses back to itself, and what parses at all is a
    64-bit number; the empty string does not parse. *)
Theorem hex_roundtrip :
  (forall v, 0 <= v < two64 -> HexStrToUint64 (Uint64ToHexStr v) = Ret v /\ String.length (Uint64ToHexStr v) = 16%nat)
  /\ (forall s v, HexStrToUint64 s = Ret v -> 0 <= v < two64)
  /\ HexStrToUint64 EmptyString = Err plain.
Proof.
  split_and!; [| |done].
  - intros v Hv. split; [by apply HexStrToUint64_Uint64ToHexStr|]. unfold Uint64ToHexStr. by rewrite hexDigits_length.
  - intros s v. unfold HexStrToUint64. destruct s as [|c s]; [done|].
    destruct (parseHex _ _) as [w|] eqn:E; [|done]. intros [= <-]. eapply parseHex_range; [|exact E]. done.
Qed.

(** ** Facts: splitting *)

Definition lacks (sep : ascii) (s : string) : Prop := cutAt sep s = (s, None).

Lemma cutAt_app sep a b : lacks sep a -> cutAt sep (a +:+ String sep b) = (a, Some b).
Proof.
  unfold lacks. induction a as [|c a IH]; simpl; [by rewrite Ascii.eqb_refl|].
  destruct (Ascii.eqb c sep); [done|]. destruct (cutAt sep a) as [x r] eqn:E. intros [= -> ->].
  by rewrite IH.
Qed.

Lemma Split_lacks sep s : lacks sep s -> Split sep s = [s].
Proof.
  unfold lacks. induction s as [|c s IH]; simpl; [done|]. destruct (Ascii.eqb c sep); [done|].
  destruct (cutAt sep s) as [x r]. intros [= -> ->]. by rewrite IH.
Qed.

Lemma Split_app sep a b : lacks sep a -> Split sep (a +:+ String sep b) = a :: Split sep b.
Proof.
  unfold lacks. induction a as [|c a IH]; simpl; [by rewrite Ascii.eqb_refl|].
  destruct (Ascii.eqb c sep); [done|]. destruct (cutAt sep a) as [x r]. intros [= -> ->]. by rewrite IH.
Qed.

Definition swiftPath (version account container object : string) : string :=
  String slash (version +:+ String slash (account +:+ String slash (container +:+ String slash object))).

(** The parts of a Swift path are found again in it, with every slash of
    the object name kept in the object name, and the shorter forms yield empty
    container and object names. *)
Theorem PathToAcctContObj_parts version account container object :
  lacks slash version -> lacks slash account -> lacks slash container ->
  PathToAcctContObj (swiftPath version account container object) = Ret (account, container, object)
  /\ PathToAcctContObj (String slash (version +:+ String slash (account +:+ String slash container)))
     = Ret (account, container, EmptyString)
  /\ PathToAcctContObj (String slash (version +:+ String slash account)) = Ret (account, EmptyString, EmptyString)
  /\ PathToAcctContObj (String slash version) = Err plain.
Proof.
  intros Hv Ha Hc. unfold PathToAcctContObj, swiftPath. cbn [SplitN].
  by rewrite !cutAt_app, !Hv, Ha, Hc by done.
Qed.

Lemma PathToAcctContObj_parts_witness :
  PathToAcctContObj "/v1/AUTH_test/con/a/b" = Ret ("AUTH_test"%string, "con"%string, "a/b"%string).
Proof.
  apply (PathToAcctContObj_parts "v1" "AUTH_test" "con" "a/b"); reflexivity.
Defined.

(** ** Facts: the wait group *)

Inductive mwwgStep : MultiWaiterWaitGroup -> MultiWaiterWaitGroup -> Prop :=
| MwwgAdd m delta m' woken : mwwgAdd m delta = Ret (m', woken) -> mwwgStep m m'
| MwwgWait m m' r : waiting m + 1 < two64 -> mwwgWait m = (m', r) -> mwwgStep m m'.

Inductive mwwgReachable : MultiWaiterWaitGroup -> Prop :=
| mwwgInit : mwwgReachable FetchMultiWaiterWaitGroup
| mwwgNext m m' : mwwgReachable m -> mwwgStep m m' -> mwwgReachable m'.

Lemma mwwg_inv m :
  mwwgReachable m ->
  0 <= numSignalers m /\ numWaiters m = waiting m /\ 0 <= waiting m /\ (numSignalers m = 0 -> waiting m = 0).
Proof.
  induction 1 as [|m m' _ IH Hs]; [done|]. destruct IH as (H1 & H2 & H3 & H4).
  destruct Hs as [m delta m' k HE|m m' r Hb HE].
  - unfold mwwgAdd, set in HE. cbn [numSignalers numWaiters waiting] in HE.
    destruct (Z.gtb_spec 0 (numSignalers m + delta)); [done|].
    destruct (Z.eqb_spec 0 (numSignalers m + delta)), (Z.ltb_spec 0 (numWaiters m)); cbn [andb] in HE;
      injection HE as <- _; cbn [numSignalers numWaiters waiting]; lia.
  - unfold mwwgWait in HE. destruct (Z.eqb_spec 0 (numSignalers m)); simpl in HE; injection HE as <- _; simpl.
    + lia.
    + rewrite uadd_small; lia.
Qed.

(** No waiter of a [MultiWaiterWaitGroup] is left behind: whenever no
    signaler is outstanding, no goroutine is blocked in [Wait], and a further
    [Wait] returns at once. *)
Theorem mwwg_no_lost_waiter m :
  mwwgReachable m -> numSignalers m = 0 -> waiting m = 0 /\ mwwgWait m = (m, true).
Proof.
  intros Hm H0. split; [by apply mwwg_inv|]. unfold mwwgWait. by rewrite H0.
Qed.

Lemma mwwg_no_lost_waiter_witness : exists m, numSignalers m = 0 /\ waiting m = 0 /\ mwwgWait m = (m, true).
Proof.
  exists (mkMWWG 0 0 0). split; [reflexivity|]. apply (mwwg_no_lost_waiter (mkMWWG 0 0 0)); [|reflexivity].
  apply (mwwgNext (mkMWWG 1 1 1)); [|by apply (MwwgAdd _ (-1) _ 1)].
  apply (mwwgNext (mkMWWG 0 1 0)); [|by apply (MwwgWait _ _ false)].
  apply (mwwgNext FetchMultiWaiterWaitGroup); [apply mwwgInit|]. by apply (MwwgAdd _ 1 _ 0).
Defined.

(** ** Facts: statistics *)

(** The "high" mark of [EventStats] is the last duration that was not below
    the "low" mark, not the greatest one: after 5, 9 and 7 it is 7. *)
Theorem hwmDuration_not_maximum :
  hwmDuration (foldl incOpDuration (mkStats 0 0 0 0) [5; 9; 7]) = 7
  /\ hwmDuration (foldl incOpDuration (mkStats 0 0 0 0) [5]) = 0.
Proof. done. Qed.
