(* ===== verification/GoStrings.v ===== *)
(** Numbers and strings of the Go library: strconv, fmt and strings, as far as
    the program uses them.  [strings.TrimSpace] is modelled for ASCII white
    space. *)

From S2P Require Import Prelude Blunder Utils.
From Stdlib Require Import Ascii.
Open Scope list_scope.

Definition maxInt : Z := 9223372036854775807.

Fixpoint digitsLoop (fuel : nat) (base value : Z) (tail : string) : string :=
  match fuel with
  | O => tail
  | S fuel' =>
      let tail' := String (asciiOfByte (ByteToHexDigit (value mod base))) tail in
      if value <? base then tail' else digitsLoop fuel' base (value / base) tail'
  end.

(** [strconv.FormatUint(value, 10)] and [fmt.Sprintf] of an integer with [%X]. *)
Definition FormatUint (value : Z) : string := digitsLoop 64 10 value EmptyString.
Definition FormatHex (value : Z) : string := digitsLoop 64 16 value EmptyString.

(** [strconv.Itoa], and [%d] of a signed integer. *)
Definition formatInt (z : Z) : string := if z <? 0 then ("-" ++ FormatUint (- z))%string else FormatUint z.

Definition decValue (c : ascii) : option Z :=
  let b := byteOfAscii c in
  if (48 <=? b) && (b <=? 57) then Some (b - 48) else None.

Fixpoint parseDec (s : string) (n : Z) : option Z :=
  match s with
  | EmptyString => Some n
  | String c s' => match decValue c with Some v => parseDec s' (n * 10 + v) | None => None end
  end.

(** [strconv.Atoi] and [strconv.ParseInt] in base 10 with 64 bits. *)
Definition Atoi (s : string) : res Z :=
  let '(negative, digits) :=
    match s with
    | String c s' => if Ascii.eqb c "-" then (true, s') else if Ascii.eqb c "+" then (false, s') else (false, s)
    | EmptyString => (false, s)
    end in
  match digits with
  | EmptyString => Err plain
  | _ => match parseDec digits 0 with
         | None => Err plain
         | Some v => if negative
                     then if maxInt + 1 <? v then Err plain else Ret (- v)
                     else if maxInt <? v then Err plain else Ret v
         end
  end.

(** [strconv.ParseUint(s, 16, 32)] *)
Definition ParseUint16_32 (s : string) : res Z :=
  v <- HexStrToUint64 s ;; if two32 <=? v then Err plain else Ret v.

Definition isSpace (c : ascii) : bool :=
  let b := byteOfAscii c in ((9 <=? b) && (b <=? 13)) || (b =? 32).

Fixpoint trimLeft (s : string) : string :=
  match s with
  | String c s' => if isSpace c then trimLeft s' else s
  | EmptyString => s
  end.

Fixpoint trimRight (s : string) : string :=
  match s with
  | String c s' =>
      match trimRight s' with
      | EmptyString => if isSpace c then EmptyString else String c EmptyString
      | t => String c t
      end
  | EmptyString => s
  end.

Definition TrimSpace (s : string) : string := trimRight (trimLeft s).

Definition lower (c : ascii) : ascii :=
  let b := byteOfAscii c in if (65 <=? b) && (b <=? 90) then asciiOfByte (b + 32) else c.

(** [strings.ToLower]; no rune beyond ASCII has a lower case in the words it is
    compared with. *)
Fixpoint ToLower (s : string) : string :=
  match s with EmptyString => EmptyString | String c s' => String (lower c) (ToLower s') end.

Definition commaSpace : string := ", ".

Definition CR : Z := 13.
Definition LF : Z := 10.
Definition CRLF : string := ByteSliceToString [CR; LF].

Example format_examples : FormatUint 0 = "0" /\ FormatUint 1234567890 = "1234567890" /\ FormatHex 255 = "FF" /\ FormatHex 0 = "0".
Proof. repeat split. Qed.

Example atoi_examples : Atoi "200" = Ret 200 /\ Atoi "-7" = Ret (-7) /\ Atoi "+" = Err plain /\ Atoi "9223372036854775808" = Err plain.
Proof. repeat split. Qed.

Example trim_examples : TrimSpace " a b " = "a b" /\ TrimSpace "  " = "".
Proof. repeat split. Qed.

(** ** Numbers *)

Lemma digitsLoop_parse {A} (P : string -> Z -> A) base bound :
  1 < base -> (forall d s n, 0 <= d < base -> 0 <= n -> n * base + d < bound ->
    P (String (asciiOfByte (ByteToHexDigit d)) s) n = P s (n * base + d)) ->
  forall fuel v tail, 0 <= v < base ^ Z.of_nat fuel -> v < bound ->
  P (digitsLoop fuel base v tail) 0 = P tail v.
Proof.
  intros Hb HP. induction fuel as [|fuel IH]; intros v tail Hv Hlt.
  { simpl in Hv. cbn [digitsLoop]. by replace v with 0 by lia. }
  pose proof (Z.div_mod v base ltac:(lia)). pose proof (Z.mod_pos_bound v base ltac:(lia)).
  rewrite Nat2Z.inj_succ, Z.pow_succ_r in Hv by lia.
  cbn [digitsLoop]. destruct (Z.ltb_spec v base).
  - rewrite HP by (rewrite ?Z.mod_small by lia; lia). by rewrite Z.mod_small by lia.
  - assert (0 <= v / base) by (apply Z.div_pos; lia).
    assert (v / base < base ^ Z.of_nat fuel) by (apply Z.div_lt_upper_bound; lia).
    rewrite IH by nia.
    rewrite HP by nia. f_equal. lia.
Qed.

Lemma FormatHex_parse v : 0 <= v < two64 -> parseHex (FormatHex v) 0 = Some v.
Proof.
  intros Hv. unfold FormatHex.
  rewrite (digitsLoop_parse parseHex 16 two64); [done|lia| |unfold two64 in *; simpl; lia|lia].
  intros d s n Hd Hn Hlt. cbn [parseHex]. rewrite hexValue_digit by lia.
  destruct (Z.leb_spec two64 (n * 16 + d)); [lia|done].
Qed.

Lemma decValue_digit d : 0 <= d < 10 -> decValue (asciiOfByte (ByteToHexDigit d)) = Some d.
Proof.
  intros Hd. assert (d = 0 \/ d = 1 \/ d = 2 \/ d = 3 \/ d = 4 \/ d = 5 \/ d = 6 \/ d = 7 \/ d = 8 \/ d = 9) as Hc by lia.
  repeat (destruct Hc as [->|Hc]; [reflexivity|]). by subst d.
Qed.

Lemma FormatUint_parse v : 0 <= v < two64 -> parseDec (FormatUint v) 0 = Some v.
Proof.
  intros Hv. unfold FormatUint.
  rewrite (digitsLoop_parse parseDec 10 two64); [done|lia| |unfold two64 in *; simpl; lia|lia].
  intros d s n Hd Hn Hlt. cbn [parseDec]. by rewrite decValue_digit by lia.
Qed.

(** The characters of a printed number are digits. *)
Fixpoint allChars (P : ascii -> Prop) (s : string) : Prop :=
  match s with EmptyString => True | String c s' => P c /\ allChars P s' end.

Definition hexChar (c : ascii) : Prop := exists d, 0 <= d < 16 /\ c = asciiOfByte (ByteToHexDigit d).

Lemma digitsLoop_chars fuel base : 1 < base <= 16 -> forall v tail, allChars hexChar tail -> allChars hexChar (digitsLoop fuel base v tail).
Proof.
  intros Hb. induction fuel as [|fuel IH]; intros v tail Ht; [done|]. cbn [digitsLoop].
  assert (allChars hexChar (String (asciiOfByte (ByteToHexDigit (v mod base))) tail)).
  { split; [|done]. exists (v mod base). split; [|done]. pose proof (Z.mod_pos_bound v base ltac:(lia)). lia. }
  destruct (v <? base); [done|]. by apply IH.
Qed.

Lemma digitsLoop_cons fuel base v : exists c s, digitsLoop (S fuel) base v EmptyString = String c s.
Proof.
  enough (forall tail, exists c s, digitsLoop (S fuel) base v tail = String c s) by eauto.
  revert v. induction fuel as [|fuel IH]; intros v tail; cbn [digitsLoop]; destruct (v <? base); eauto.
Qed.

Lemma hexChar_byte c : hexChar c -> 48 <= byteOfAscii c <= 70.
Proof.
  intros (d & Hd & ->).
  assert (d = 0 \/ d = 1 \/ d = 2 \/ d = 3 \/ d = 4 \/ d = 5 \/ d = 6 \/ d = 7 \/ d = 8 \/ d = 9
    \/ d = 10 \/ d = 11 \/ d = 12 \/ d = 13 \/ d = 14 \/ d = 15) as Hc by lia.
  repeat (destruct Hc as [->|Hc]; [vm_compute; split; discriminate|]). subst d. vm_compute. split; discriminate.
Qed.

Lemma allChars_mono (P Q : ascii -> Prop) s : (forall c, P c -> Q c) -> allChars P s -> allChars Q s.
Proof. intros HPQ. induction s as [|c s IH]; [done|]. intros [Hc Hs]. split; auto. Qed.

Lemma allChars_app P a b : allChars P (a +:+ b) <-> allChars P a /\ allChars P b.
Proof. induction a as [|c a IH]; simpl; [tauto|]. rewrite IH. tauto. Qed.

Definition notCR (c : ascii) : Prop := byteOfAscii c <> CR.

Lemma FormatHex_notCR v : allChars notCR (FormatHex v).
Proof.
  eapply allChars_mono; [|apply digitsLoop_chars; [lia|done]]. intros c Hc. apply hexChar_byte in Hc. unfold notCR, CR. lia.
Qed.

Lemma ParseUint_FormatHex v : 0 <= v < two32 -> ParseUint16_32 (FormatHex v) = Ret v.
Proof.
  intros Hv. unfold ParseUint16_32, HexStrToUint64.
  pose proof (FormatHex_parse v) as Hp. unfold FormatHex in *. destruct (digitsLoop_cons 63 16 v) as (c & s & Hc).
  rewrite Hc in *. cbn [obind]. rewrite Hp by (unfold two32, two64 in *; lia). cbn [obind].
  destruct (Z.leb_spec two32 v); [lia|done].
Qed.

Lemma length_StringToByteSlice s : length (StringToByteSlice s) = String.length s.
Proof. induction s as [|c s IH]; simpl; [done|]. by rewrite IH. Qed.

Lemma StringToByteSlice_app a b : StringToByteSlice (a +:+ b) = StringToByteSlice a ++ StringToByteSlice b.
Proof. induction a as [|c a IH]; simpl; [done|]. by rewrite IH. Qed.

Lemma length_ByteSliceToString bs : String.length (ByteSliceToString bs) = length bs.
Proof. induction bs as [|b bs IH]; simpl; [done|]. by rewrite IH. Qed.

Lemma string_app_assoc (a b c : string) : a +:+ (b +:+ c) = (a +:+ b) +:+ c.
Proof. induction a as [|x a IH]; [done|]. exact (f_equal (String x) IH). Qed.

Lemma Atoi_FormatUint v : 0 <= v <= maxInt -> Atoi (FormatUint v) = Ret v.
Proof.
  intros Hv. pose proof (FormatUint_parse v) as Hp. specialize (Hp ltac:(unfold maxInt, two64 in *; lia)).
  assert (allChars hexChar (FormatUint v)) as Hc by by apply digitsLoop_chars.
  unfold FormatUint in *. destruct (digitsLoop_cons 63 10 v) as (c & s & Hs). rewrite Hs in *. destruct Hc as [Hc _].
  apply hexChar_byte in Hc. unfold Atoi.
  destruct (Ascii.eqb_spec c "-") as [->|_]; [vm_compute in Hc; by destruct Hc|].
  destruct (Ascii.eqb_spec c "+") as [->|_]; [vm_compute in Hc; by destruct Hc|].
  rewrite Hp. destruct (Z.ltb_spec maxInt v); [lia|done].
Qed.

Lemma digitsLoop_length fuel base : forall v tail, (String.length (digitsLoop fuel base v tail) <= fuel + String.length tail)%nat.
Proof.
  induction fuel as [|fuel IH]; intros v tail; [done|]. cbn [digitsLoop]. destruct (v <? base); [simpl; lia|].
  etransitivity; [apply IH|]. simpl. lia.
Qed.

Lemma FormatUint_3 v : 100 <= v < 1000 -> exists a b c, FormatUint v = String a (String b (String c EmptyString)).
Proof.
  intros Hv. pose proof (Z.div_mod v 10 ltac:(lia)). pose proof (Z.mod_pos_bound v 10 ltac:(lia)).
  pose proof (Z.div_mod (v / 10) 10 ltac:(lia)). pose proof (Z.mod_pos_bound (v / 10) 10 ltac:(lia)).
  unfold FormatUint. change 64%nat with (S (S (S 61))). cbn [digitsLoop].
  destruct (Z.ltb_spec v 10); [lia|]. destruct (Z.ltb_spec (v / 10) 10); [lia|].
  destruct (Z.ltb_spec (v / 10 / 10) 10); [eauto|lia].
Qed.
