(* ===== verification/Conf.v ===== *)
(** Package [conf]: configuration maps (conf/api.go).

    A string is a sequence of bytes; a regular expression reads it rune by rune,
    as [range] and package [regexp] do.  The files and the working directory are
    outside: [ConfFiles].  Values of type float and time.Duration are read in
    ConfNumbers. *)

From S2P Require Import Prelude Blunder Utils GoStrings.
From Stdlib Require Import Ascii.
Open Scope list_scope.

(** ** Package unicode/utf8 *)

Definition RuneError : Z := 65533.

(** The range of the second byte, and the number of bytes, by the first. *)
Definition runeShape (b : Z) : option (nat * Z * Z) :=
  if (194 <=? b) && (b <=? 223) then Some (1%nat, 128, 191)
  else if b =? 224 then Some (2%nat, 160, 191)
  else if b =? 237 then Some (2%nat, 128, 159)
  else if (225 <=? b) && (b <=? 239) then Some (2%nat, 128, 191)
  else if b =? 240 then Some (3%nat, 144, 191)
  else if b =? 244 then Some (3%nat, 128, 143)
  else if (241 <=? b) && (b <=? 243) then Some (3%nat, 128, 191)
  else None.

(** The continuation bytes of a rune. *)
Fixpoint moreBytes (n : nat) (lo hi value : Z) (s : string) : option (Z * string) :=
  match n with
  | O => Some (value, EmptyString)
  | S n' =>
      match s with
      | EmptyString => None
      | String c s' =>
          let b := byteOfAscii c in
          if (lo <=? b) && (b <=? hi)
          then match moreBytes n' 128 191 (value * 64 + b mod 64) s' with
               | Some (v, raw) => Some (v, String c raw)
               | None => None
               end
          else None
      end
  end.

(** [utf8.DecodeRune] of a string that is not empty: the rune and its bytes. *)
Definition DecodeRune (c : ascii) (s : string) : Z * string :=
  let b := byteOfAscii c in
  let bad := (RuneError, String c EmptyString) in
  if b <? 128 then (b, String c EmptyString)
  else match runeShape b with
       | None => bad
       | Some (n, lo, hi) =>
           match moreBytes n lo hi (b mod (2 ^ (6 - Z.of_nat n))) s with
           | Some (v, raw) => (v, String c raw)
           | None => bad
           end
       end.

Definition dropBytes (n : nat) (s : string) : string := String.substring n (String.length s - n) s.

Definition nextRune (s : string) : option (Z * string * string) :=
  match s with
  | EmptyString => None
  | String c s' => let '(r, raw) := DecodeRune c s' in Some (r, raw, dropBytes (String.length raw - 1) s')
  end.

(** ** Package regexp

    The expressions of the package are sequences of single runes of a class and
    of classes repeated as often as possible. *)

Inductive item := One (p : Z -> bool) | Many (p : Z -> bool).

Abbreviation regex := (list item).

Definition plus (p : Z -> bool) : regex := [One p; Many p].

Fixpoint many (fuel : nat) (p : Z -> bool) (k : string -> option string) (s : string) : option string :=
  match
    match fuel, nextRune s with
    | S fuel', Some (r, _, s') => if p r then many fuel' p k s' else None
    | _, _ => None
    end
  with
  | Some rest => Some rest
  | None => k s
  end.

(** What is left after the first match in the order of preference that ends
    in a string [final] accepts. *)
Fixpoint rmatch (r : regex) (final : string -> bool) (s : string) : option string :=
  match r with
  | [] => if final s then Some s else None
  | One p :: r' =>
      match nextRune s with
      | Some (c, _, s') => if p c then rmatch r' final s' else None
      | None => None
      end
  | Many p :: r' => many (String.length s) p (rmatch r' final) s
  end.

Definition atEnd (s : string) : bool := match s with EmptyString => true | _ => false end.

(** [MatchString] of an expression between ^ and $. *)
Definition MatchString (r : regex) (s : string) : bool := match rmatch r atEnd s with Some _ => true | None => false end.

(** The leftmost match: what is before and what is after it. *)
Fixpoint rfind (fuel : nat) (r : regex) (s : string) : option (string * string) :=
  match rmatch r (fun _ => true) s with
  | Some rest => Some (EmptyString, rest)
  | None =>
      match fuel, nextRune s with
      | S fuel', Some (_, raw, s') =>
          match rfind fuel' r s' with
          | Some (before, rest) => Some (raw +:+ before, rest)
          | None => None
          end
      | _, _ => None
      end
  end.

(** [Split] at the first match, and at all of them. *)
Definition rsplit2 (r : regex) (s : string) : list string :=
  match rfind (String.length s) r s with
  | Some (before, rest) => [before; rest]
  | None => [s]
  end.

Fixpoint rsplitLoop (fuel : nat) (r : regex) (s : string) : list string :=
  match fuel, rfind (String.length s) r s with
  | S fuel', Some (before, rest) => before :: rsplitLoop fuel' r rest
  | _, _ => [s]
  end.

Definition rsplit (r : regex) (s : string) : list string := rsplitLoop (String.length s) r s.

(** [FindString] *)
Definition FindString (r : regex) (s : string) : string :=
  match rfind (String.length s) r s with
  | Some (before, rest) => String.substring (String.length before) (String.length s - String.length before - String.length rest) s
  | None => EmptyString
  end.

(** ** The expressions of the package *)

Definition rune (c : ascii) : Z := byteOfAscii c.
Definition oneOf (l : list ascii) (r : Z) : bool := existsb (fun c => r =? rune c) l.
Definition between (a b : ascii) (r : Z) : bool := (rune a <=? r) && (r <=? rune b).

Definition wordRune (r : Z) : bool := between "0" "9" r || between "A" "Z" r || between "a" "z" r || oneOf ["_"; "-"]%char r.
Definition sectionRune (r : Z) : bool := wordRune r || (r =? rune ":").
Definition blank (r : Z) : bool := (r =? rune " ") || (r =? 9).
Definition valueRune (r : Z) : bool := wordRune r || blank r || oneOf [","; "/"; ":"; "."; "["; "]"]%char r.
Definition anyRune (r : Z) : bool := negb (r =? 10).
Definition isRune (c : ascii) (r : Z) : bool := r =? rune c.

Definition stringRE : regex :=
  plus sectionRune ++ [One (isRune ".")] ++ plus wordRune ++ [Many blank; One (isRune "="); Many blank; Many valueRune].
Definition sectionNameOptionNameSeparatorRE : regex := [One (isRune ".")].
Definition sectionHeaderLineRE : regex := [One (isRune "["); Many blank] ++ plus sectionRune ++ [Many blank; One (isRune "]")].
Definition sectionNameRE : regex := plus sectionRune.
Definition optionLineRE : regex := plus wordRune ++ [Many blank; One (oneOf [":"; "="]%char); Many blank; Many valueRune].
Definition optionNameOptionValuesSeparatorRE : regex := [Many blank; One (oneOf [":"; "="]%char); Many blank].
Definition optionValueSeparatorRE : regex := [Many blank; One (fun r => blank r || isRune "," r); Many blank].
Definition includeLineRE : regex :=
  One anyRune :: map (fun c => One (isRune c)) ["i"; "n"; "c"; "l"; "u"; "d"; "e"]%char ++ plus blank ++ plus (fun r => negb (blank r)).
Definition includeFilePathSeparatorRE : regex := plus blank.

(** ** Configuration maps *)

Abbreviation ConfMapOption := (list string).
Abbreviation ConfMapSection := (gmap string ConfMapOption).
Abbreviation ConfMap := (gmap string ConfMapSection).

Definition MakeConfMap : ConfMap := ∅.

Definition isBlank (c : ascii) : bool := blank (byteOfAscii c).

Fixpoint trimBlanksLeft (s : string) : string :=
  match s with
  | String c s' => if isBlank c then trimBlanksLeft s' else s
  | EmptyString => s
  end.

Fixpoint trimBlanksRight (s : string) : string :=
  match s with
  | String c s' =>
      match trimBlanksRight s' with
      | EmptyString => if isBlank c then EmptyString else String c EmptyString
      | t => String c t
      end
  | EmptyString => s
  end.

(** [strings.Trim(s, " \t")] *)
Definition TrimBlanks (s : string) : string := trimBlanksRight (trimBlanksLeft s).

(** The values of an option: a blank string has none. *)
Definition splitValues (optionValues : string) : ConfMapOption :=
  let optionValuesSplit := rsplit optionValueSeparatorRE optionValues in
  if bool_decide (optionValuesSplit = [EmptyString]) then [] else optionValuesSplit.

Definition setOption (sectionName optionName : string) (option : ConfMapOption) (confMap : ConfMap) : ConfMap :=
  <[sectionName := <[optionName := option]> (default ∅ (confMap !! sectionName))]> confMap.

(** An index out of range panics. *)
Definition UpdateFromString (confString : string) : St ConfMap error unit :=
  let confStringTrimmed := TrimBlanks confString in
  if (0 =? String.length confStringTrimmed)%nat then serr plain
  else if negb (MatchString stringRE confStringTrimmed) then serr plain
  else match rsplit2 sectionNameOptionNameSeparatorRE confStringTrimmed with
       | [sectionName; optionPayload] =>
           match rsplit2 optionNameOptionValuesSeparatorRE optionPayload with
           | [optionName; optionValues] => smod (setOption sectionName optionName (splitValues optionValues))
           | _ => spanic
           end
       | _ => spanic
       end.

Definition UpdateFromStrings (confStrings : list string) : St ConfMap error unit := sfor confStrings UpdateFromString.

(** The outside: reading a file (or standard input), the directory of the
    absolute path of a file, and how many nested calls fit on a stack (the
    process ends when there are more). *)
Class ConfFiles := {
  ReadFile : string -> res string;
  absDir : string -> res string;
  stackLimit : nat
}.

Section Files.
Context `{ConfFiles}.

Definition firstSplit (sep : ascii) (s : string) : string := (cutAt sep s).1.

Definition stripLine (line : string) : string := TrimBlanks (firstSplit "#" (firstSplit ";" line)).

(** One line of a file; the section name that holds after it. *)
Definition processLine (include : string -> St ConfMap error unit) (confFilePath currentSectionName line : string)
    : St ConfMap error string :=
  let currentLine := stripLine line in
  if (0 =? String.length currentLine)%nat then sret currentSectionName
  else if MatchString includeLineRE currentLine then
    match rsplit2 includeFilePathSeparatorRE currentLine with
    | [_; nestedConfFilePath] =>
        nestedConfFilePath <~
          (match nestedConfFilePath with
           | EmptyString => spanic
           | String c _ =>
               if Ascii.eqb c "/" then sret nestedConfFilePath
               else dirAbsConfFilePath <~ slift (absDir confFilePath) ;;
                    sret (dirAbsConfFilePath ++ "/" ++ nestedConfFilePath)%string
           end) ;;
        include nestedConfFilePath ;;~
        sret EmptyString
    | _ => spanic
    end
  else if MatchString sectionHeaderLineRE currentLine then sret (FindString sectionNameRE currentLine)
  else if bool_decide (currentSectionName = EmptyString) then serr plain
  else if negb (MatchString optionLineRE currentLine) then serr plain
  else match rsplit2 optionNameOptionValuesSeparatorRE currentLine with
       | [optionName; optionValues] =>
           smod (setOption currentSectionName optionName (splitValues optionValues)) ;;~ sret currentSectionName
       | _ => spanic
       end.

(** The loop over the runes of a file; [line] is what was read of the current
    line, [ended] that the last rune was a line feed. *)
Fixpoint scanFile (include : string -> St ConfMap error unit) (confFilePath : string) (fuel : nat)
    (currentSectionName line : string) (ended : bool) (text : string) : St ConfMap error unit :=
  match nextRune text with
  | None => if ended then sret tt else serr plain
  | Some (lastRune, raw, text') =>
      match fuel with
      | O => spanic
      | S fuel' =>
          if RuneError =? lastRune then serr plain
          else if 10 =? lastRune then
            currentSectionName <~ processLine include confFilePath currentSectionName line ;;
            scanFile include confFilePath fuel' currentSectionName EmptyString true text'
          else scanFile include confFilePath fuel' currentSectionName (line +:+ raw) false text'
      end
  end.

Fixpoint updateNested (depth : nat) (confFilePath : string) : St ConfMap error unit :=
  match depth with
  | O => spanic
  | S depth' =>
      confFileBytes <~ slift (ReadFile confFilePath) ;;
      scanFile (updateNested depth') confFilePath (String.length confFileBytes) EmptyString EmptyString true confFileBytes
  end.

Definition UpdateFromFile (confFilePath : string) : St ConfMap error unit := updateNested stackLimit confFilePath.

Definition MakeConfMapFromFile (confFilePath : string) : ConfMap * res unit := UpdateFromFile confFilePath MakeConfMap.
End Files.

Definition MakeConfMapFromStrings (confStrings : list string) : ConfMap * res unit := UpdateFromStrings confStrings MakeConfMap.

(** ** Reading options *)

Definition fetchOption (confMap : ConfMap) (sectionName optionName : string) : res ConfMapOption :=
  match confMap !! sectionName with
  | None => Err plain
  | Some section => match section !! optionName with Some option => Ret option | None => Err plain end
  end.

Definition VerifyOptionValueIsEmpty (confMap : ConfMap) (sectionName optionName : string) : res unit :=
  option <- fetchOption confMap sectionName optionName ;;
  if (0 =? length option)%nat then Ret tt else Err plain.

Definition FetchOptionValueStringSlice (confMap : ConfMap) (sectionName optionName : string) : res (list string) :=
  fetchOption confMap sectionName optionName.

Definition FetchOptionValueString (confMap : ConfMap) (sectionName optionName : string) : res string :=
  optionValueSlice <- FetchOptionValueStringSlice confMap sectionName optionName ;;
  match optionValueSlice with
  | [optionValue] => Ret optionValue
  | _ => Err plain
  end.

Definition FetchOptionValueBool (confMap : ConfMap) (sectionName optionName : string) : res bool :=
  optionValueString <- FetchOptionValueString confMap sectionName optionName ;;
  let optionValueStringDownshifted := ToLower optionValueString in
  if bool_decide (optionValueStringDownshifted ∈ ["yes"; "on"; "true"]%string) then Ret true
  else if bool_decide (optionValueStringDownshifted ∈ ["no"; "off"; "false"]%string) then Ret false
  else Err plain.

(** [strconv.ParseUint(s, 10, bits)] *)
Definition ParseUint10 (bits : Z) (s : string) : res Z :=
  match s with
  | EmptyString => Err plain
  | _ => match parseDec s 0 with
         | Some v => if v <? 2 ^ bits then Ret v else Err plain
         | None => Err plain
         end
  end.

Definition FetchOptionValueUint16 (confMap : ConfMap) (sectionName optionName : string) : res Z :=
  optionValueString <- FetchOptionValueString confMap sectionName optionName ;; ParseUint10 16 optionValueString.

Definition FetchOptionValueUint32 (confMap : ConfMap) (sectionName optionName : string) : res Z :=
  optionValueString <- FetchOptionValueString confMap sectionName optionName ;; ParseUint10 32 optionValueString.

Definition FetchOptionValueUint64 (confMap : ConfMap) (sectionName optionName : string) : res Z :=
  optionValueString <- FetchOptionValueString confMap sectionName optionName ;; ParseUint10 64 optionValueString.

Definition byteAt (s : string) (i : nat) : Z := match String.get i s with Some c => byteOfAscii c | None => 0 end.

(** The bytes of an integer from the highest down. *)
Fixpoint bigEndian (n : nat) (v : Z) : bytes :=
  match n with
  | O => []
  | S n' => Z.land (Z.shiftr v (8 * Z.of_nat n')) 255 :: bigEndian n' v
  end.

Definition FetchOptionValueUUID (confMap : ConfMap) (sectionName optionName : string) : res bytes :=
  optionValueSlice <- FetchOptionValueStringSlice confMap sectionName optionName ;;
  match optionValueSlice with
  | [uuidString] =>
      if negb (String.length uuidString =? 36)%nat then Err plain
      else if negb ((byteAt uuidString 8 =? rune "-") && (byteAt uuidString 13 =? rune "-")
                    && (byteAt uuidString 18 =? rune "-") && (byteAt uuidString 23 =? rune "-")) then Err plain
      else
        timeLow <- HexStrToUint64 (String.substring 0 8 uuidString) ;;
        timeMid <- HexStrToUint64 (String.substring 9 4 uuidString) ;;
        timeHiAndVersion <- HexStrToUint64 (String.substring 14 4 uuidString) ;;
        clkSeqHiRes <- HexStrToUint64 (String.substring 19 2 uuidString) ;;
        clkClkSeqLow <- HexStrToUint64 (String.substring 21 2 uuidString) ;;
        node <- HexStrToUint64 (String.substring 24 12 uuidString) ;;
        Ret (bigEndian 4 timeLow ++ bigEndian 2 timeMid ++ bigEndian 2 timeHiAndVersion ++ bigEndian 1 clkSeqHiRes
             ++ bigEndian 1 clkClkSeqLow ++ bigEndian 6 node)
  | _ => Err plain
  end.

(** ** Writing a map

    The text [DumpConfMapToFile] writes; the sections and the options of each are
    given in the order in which the maps are iterated. *)

Fixpoint spaces (n : nat) : string := match n with O => EmptyString | S n' => String " " (spaces n') end.

Fixpoint dumpValues (firstOption : bool) (options : list string) : string :=
  match options with
  | [] => EmptyString
  | option :: rest => ((if firstOption then "" else ",") ++ " " ++ option ++ dumpValues false rest)%string
  end.

Definition newline : string := ByteSliceToString [10].

Definition maxLen (section : list (string * ConfMapOption)) : nat := foldr Nat.max O (map (fun o => String.length o.1) section).

Definition dumpOption (optionNameMaxLen : nat) (o : string * ConfMapOption) : string :=
  (o.1 ++ spaces (optionNameMaxLen - String.length o.1 + 1) ++ ":" ++ dumpValues true o.2 ++ newline)%string.

Definition dumpSection (s : string * list (string * ConfMapOption)) : string :=
  ("[" ++ s.1 ++ "]" ++ newline ++ String.concat "" (map (dumpOption (maxLen s.2)) s.2))%string.

Definition dumpConfMap (order : list (string * list (string * ConfMapOption))) : string :=
  match order with
  | [] => EmptyString
  | _ => (String.concat newline (map dumpSection order) ++ newline)%string
  end.

(** The maps an order of iteration is an order of. *)
Definition confMapOf (order : list (string * list (string * ConfMapOption))) : ConfMap :=
  list_to_map (map (fun s => (s.1, list_to_map s.2)) order).

Example string_examples :
  (UpdateFromString "  Peer:a.Name = x y,z , [1] " ∅).1 !! "Peer:a" = Some {[ "Name" := ["x"; "y"; "z"; "[1]"] ]}
  /\ (UpdateFromString "A.b =" ∅).1 !! "A" = Some {[ "b" := [] ]}
  /\ (UpdateFromString "A.b = x;" ∅).2 = Err plain.
Proof. repeat split; vm_compute; reflexivity. Qed.

Example uuid_example :
  FetchOptionValueUUID {[ "S" := {[ "u" := ["00112233-4455-6677-8899-aabbccddeeff"] ]} ]} "S" "u"
  = Ret (map (fun i => 17 * i) [0; 1; 2; 3; 4; 5; 6; 7; 8; 9; 10; 11; 12; 13; 14; 15]).
Proof. vm_compute. reflexivity. Qed.
