(* ===== verification/ConfFacts.v ===== *)
(** Configuration maps: what is written is read back, strings and files agree,
    numbers are in range. *)

From S2P Require Import Prelude Blunder Utils GoStrings Conf.
From Stdlib Require Import Ascii.
Open Scope list_scope.

(** ** Texts of ASCII characters *)

Definition isAscii (c : ascii) : Prop := byteOfAscii c < 128.
Definition inClass (p : Z -> bool) (c : ascii) : Prop := p (byteOfAscii c) = true.
Definition headNot (p : Z -> bool) (s : string) : Prop := match s with EmptyString => True | String c _ => ~ inClass p c end.

Lemma string_app_nil s : s +:+ EmptyString = s.
Proof. induction s as [|c s IH]; [done|]. exact (f_equal (String c) IH). Qed.

Lemma dropBytes_0 s : dropBytes 0 s = s.
Proof. unfold dropBytes. rewrite Nat.sub_0_r. induction s as [|c s IH]; simpl; [done|]. by rewrite IH. Qed.

Lemma next_ascii c s : isAscii c -> nextRune (String c s) = Some (byteOfAscii c, String c EmptyString, s).
Proof.
  intros Hc. unfold nextRune, DecodeRune. destruct (Z.ltb_spec (byteOfAscii c) 128) as [_|Hge]; [|unfold isAscii in Hc; lia].
  by rewrite dropBytes_0.
Qed.

Lemma length_app a b : String.length (a +:+ b) = (String.length a + String.length b)%nat.
Proof. induction a as [|c a IH]; simpl; [done|]. by rewrite <- IH. Qed.

(** ** Matching *)

Section Classes.
Context (p : Z -> bool).

(** The greedy choice is the match when what follows it matches. *)
Lemma many_greedy k a rest x : allChars (inClass p) a -> allChars isAscii a -> headNot p rest -> allChars isAscii rest ->
  k rest = Some x -> forall fuel, (String.length a <= fuel)%nat -> many fuel p k (a +:+ rest) = Some x.
Proof.
  intros Ha Haa Hr Hra Hk. induction a as [|c a IH]; intros fuel Hf.
  - change (EmptyString +:+ rest) with rest. destruct fuel as [|fuel]; cbn [many]; [by rewrite Hk|].
    destruct rest as [|c rest]; [cbn; by rewrite Hk|]. destruct Hra as [Hc _]. rewrite (next_ascii c rest) by done.
    simpl in Hr. unfold inClass in Hr. destruct (p (byteOfAscii c)); [done|]. by rewrite Hk.
  - change (String c a +:+ rest) with (String c (a +:+ rest)). destruct Ha as [Hc Ha], Haa as [Hca Haa].
    destruct fuel as [|fuel]; [simpl in Hf; lia|]. cbn [many]. rewrite next_ascii by done.
    unfold inClass in Hc. rewrite Hc, IH; [done..|simpl in Hf; lia].
Qed.

(** Every match takes some characters of the class. *)
Lemma many_sound k s x : allChars isAscii s -> forall fuel, many fuel p k s = Some x ->
  exists a b, s = a +:+ b /\ allChars (inClass p) a /\ k b = Some x.
Proof.
  induction s as [|c s IH]; intros Hs fuel E.
  - exists EmptyString, EmptyString. split_and!; [done|done|]. by destruct fuel.
  - destruct Hs as [Hc Hs]. destruct fuel as [|fuel]; cbn [many] in E; [by exists EmptyString, (String c s)|].
    rewrite next_ascii in E by done. destruct (p (byteOfAscii c)) eqn:Ep; [|by exists EmptyString, (String c s)].
    destruct (many fuel p k s) as [y|] eqn:Em; [|by exists EmptyString, (String c s)].
    injection E as <-. destruct (IH Hs fuel Em) as (a & b & -> & Ha & Hb). by exists (String c a), b.
Qed.
End Classes.

Lemma one_ok p r final c s : isAscii c -> inClass p c -> rmatch (One p :: r) final (String c s) = rmatch r final s.
Proof. intros Hc Hp. cbn [rmatch]. rewrite next_ascii by done. unfold inClass in Hp. by rewrite Hp. Qed.

Lemma one_fails p r final c s : isAscii c -> ~ inClass p c -> rmatch (One p :: r) final (String c s) = None.
Proof. intros Hc Hp. cbn [rmatch]. rewrite next_ascii by done. unfold inClass in Hp. by destruct (p (byteOfAscii c)). Qed.

Lemma many_ok p r final a rest x : allChars (inClass p) a -> allChars isAscii a -> headNot p rest -> allChars isAscii rest ->
  rmatch r final rest = Some x -> rmatch (Many p :: r) final (a +:+ rest) = Some x.
Proof. intros Ha Haa Hr Hra E. cbn [rmatch]. apply many_greedy; [done..|]. rewrite length_app. lia. Qed.

Lemma plus_ok p r final c a rest x : allChars (inClass p) (String c a) -> allChars isAscii (String c a) -> headNot p rest ->
  allChars isAscii rest -> rmatch r final rest = Some x -> rmatch (plus p ++ r) final (String c a +:+ rest) = Some x.
Proof.
  intros [Hc Ha] [Hca Haa] Hr Hra E. change (plus p ++ r) with (One p :: Many p :: r).
  change (String c a +:+ rest) with (String c (a +:+ rest)). rewrite one_ok by done. by apply many_ok.
Qed.

Lemma none_taken p r final c s : isAscii c -> ~ inClass p c -> rmatch (Many p :: r) final (String c s) = rmatch r final (String c s).
Proof.
  intros Hc Hp. cbn [rmatch String.length many]. rewrite next_ascii by done. unfold inClass in Hp. by destruct (p (byteOfAscii c)).
Qed.

(** ** Searching *)

Lemma rfind_here r s rest fuel : rmatch r (fun _ => true) s = Some rest -> rfind fuel r s = Some (EmptyString, rest).
Proof. intros E. destruct fuel; cbn [rfind]; by rewrite E. Qed.

(** No match starts with the character. *)
Definition noMatch (r : regex) (c : ascii) : Prop := isAscii c /\ forall t, rmatch r (fun _ => true) (String c t) = None.

Lemma rfind_skip r a s : allChars (noMatch r) a -> forall fuel, (String.length a <= fuel)%nat ->
  rfind fuel r (a +:+ s) = match rfind (fuel - String.length a) r s with Some (before, rest) => Some (a +:+ before, rest) | None => None end.
Proof.
  intros Ha. induction a as [|c a IH]; intros fuel Hf.
  - change (EmptyString +:+ s) with s. simpl. rewrite Nat.sub_0_r. by destruct (rfind fuel r s) as [[b t]|].
  - destruct Ha as [[Hc Hn] Ha]. destruct fuel as [|fuel]; [simpl in Hf; lia|].
    change (String c a +:+ s) with (String c (a +:+ s)). cbn [rfind]. rewrite Hn, next_ascii by done.
    rewrite IH by (done || (simpl in Hf; lia)). simpl. by destruct (rfind (fuel - String.length a) r s) as [[b t]|].
Qed.

Lemma rfind_match r a s rest : allChars (noMatch r) a -> rmatch r (fun _ => true) s = Some rest ->
  rfind (String.length (a +:+ s)) r (a +:+ s) = Some (a, rest).
Proof.
  intros Ha E. rewrite rfind_skip by (done || rewrite length_app; lia). rewrite (rfind_here r s rest) by done.
  by rewrite string_app_nil.
Qed.

Lemma rfind_none r a : allChars (noMatch r) a -> rmatch r (fun _ => true) EmptyString = None ->
  rfind (String.length a) r a = None.
Proof.
  intros Ha E. rewrite <- (string_app_nil a) at 2. rewrite rfind_skip by done. rewrite Nat.sub_diag. cbn [rfind]. by rewrite E.
Qed.

Lemma rsplit2_match r a s rest : allChars (noMatch r) a -> rmatch r (fun _ => true) s = Some rest -> rsplit2 r (a +:+ s) = [a; rest].
Proof. intros Ha E. unfold rsplit2. by rewrite (rfind_match r a s rest). Qed.

Lemma rsplitLoop_match r a s rest fuel : allChars (noMatch r) a -> rmatch r (fun _ => true) s = Some rest ->
  rsplitLoop (S fuel) r (a +:+ s) = a :: rsplitLoop fuel r rest.
Proof. intros Ha E. cbn [rsplitLoop]. by rewrite (rfind_match r a s rest). Qed.

Lemma rsplitLoop_last r a fuel : allChars (noMatch r) a -> rmatch r (fun _ => true) EmptyString = None -> rsplitLoop fuel r a = [a].
Proof. intros Ha E. destruct fuel; cbn [rsplitLoop]; [done|]. by rewrite (rfind_none r a). Qed.

(** ** Names and values *)

Definition wordChar (c : ascii) : Prop := inClass wordRune c.
Definition sectionChar (c : ascii) : Prop := inClass sectionRune c.
Definition valueChar (c : ascii) : Prop := inClass valueRune c /\ ~ inClass blank c /\ c <> ","%char.

(** A decidable fact about every character of a class is a fact about the 256
    characters. *)
Fixpoint forByte (n : nat) (f : Z -> bool) : bool := match n with O => true | S n' => f (Z.of_nat n') && forByte n' f end.

Lemma forByte_ok f c : forByte 256 f = true -> f (byteOfAscii c) = true.
Proof.
  intros Hf. pose proof (byteOfAscii_range c) as Hr.
  assert (Hn : forall n b, forByte n f = true -> 0 <= b < Z.of_nat n -> f b = true).
  { induction n as [|n IH]; intros b Hn Hb; [lia|]. cbn [forByte] in Hn. apply andb_true_iff in Hn as [H1 H2].
    destruct (decide (b = Z.of_nat n)) as [->|Hne]; [done|]. apply IH; [done|lia]. }
  apply (Hn 256%nat); [exact Hf|unfold is_byte in Hr; lia].
Qed.

Lemma class_incl (p q : Z -> bool) c : forByte 256 (fun b => negb (p b) || q b) = true -> inClass p c -> inClass q c.
Proof. intros Hf Hp. apply (forByte_ok _ c) in Hf. unfold inClass in *. rewrite Hp in Hf. exact Hf. Qed.

Lemma class_disjoint (p q : Z -> bool) c : forByte 256 (fun b => negb (p b && q b)) = true -> inClass p c -> ~ inClass q c.
Proof. intros Hf Hp Hq. apply (forByte_ok _ c) in Hf. unfold inClass in *. by rewrite Hp, Hq in Hf. Qed.

Lemma class_ascii (p : Z -> bool) c : forByte 256 (fun b => negb (p b) || (b <? 128)) = true -> inClass p c -> isAscii c.
Proof. intros Hf Hp. apply (forByte_ok _ c) in Hf. unfold inClass, isAscii in *. rewrite Hp in Hf. by apply Z.ltb_lt. Qed.

Lemma word_ascii c : wordChar c -> isAscii c.
Proof. by apply class_ascii. Qed.

Lemma section_ascii c : sectionChar c -> isAscii c.
Proof. by apply class_ascii. Qed.

Lemma value_ascii c : valueChar c -> isAscii c.
Proof. intros [Hc _]. by apply (class_ascii valueRune). Qed.

(** No separator starts inside of a name or value. *)
Lemma word_noMatch c : wordChar c -> noMatch optionNameOptionValuesSeparatorRE c.
Proof.
  intros Hc. split; [by apply word_ascii|]. intros t. unfold optionNameOptionValuesSeparatorRE.
  rewrite none_taken by (by apply word_ascii || by apply (class_disjoint wordRune)).
  apply one_fails; [by apply word_ascii|by apply (class_disjoint wordRune)].
Qed.

Lemma value_noMatch c : valueChar c -> noMatch optionValueSeparatorRE c.
Proof.
  intros Hc. pose proof (value_ascii c Hc) as Ha. destruct Hc as (Hc & Hb & Hcomma). split; [done|]. intros t. unfold optionValueSeparatorRE.
  rewrite none_taken by done. apply one_fails; [done|]. unfold inClass in *. intros Hm. apply orb_true_iff in Hm as [Hm|Hm]; [done|].
  unfold isRune, rune in Hm. apply Z.eqb_eq in Hm. apply Hcomma. rewrite <- (asciiOfByte_byteOfAscii c), Hm. reflexivity.
Qed.

Lemma section_noMatch c : sectionChar c -> noMatch sectionNameOptionNameSeparatorRE c.
Proof.
  intros Hc. split; [by apply section_ascii|]. intros t. apply one_fails; [by apply section_ascii|by apply (class_disjoint sectionRune)].
Qed.

(** ** Option lines *)

Definition value_ok (v : string) : Prop := v <> EmptyString /\ allChars valueChar v.

Definition joined (vs : list string) : string := String.concat commaSpace vs.

Definition blanks (s : string) : Prop := allChars (inClass blank) s.

(** What follows the colon or the equals sign. *)
Definition valuesText (vs : list string) : string := match vs with [] => EmptyString | _ => String " " (joined vs) end.

Lemma joined_cons v w vs : joined (v :: w :: vs) = v +:+ (commaSpace +:+ joined (w :: vs)).
Proof. reflexivity. Qed.

Lemma joined_chars (P : ascii -> Prop) vs : P ","%char -> P " "%char -> Forall (allChars P) vs -> allChars P (joined vs).
Proof.
  intros Hc Hb Hvs. induction Hvs as [|v [|w vs] Hv Hvs IH]; [done|done|].
  rewrite joined_cons. apply allChars_app. split; [done|]. apply allChars_app. by split.
Qed.

Lemma dumpValues_text vs : dumpValues true vs = valuesText vs.
Proof.
  destruct vs as [|v vs]; [done|]. change (dumpValues true (v :: vs)) with (String " " (v +:+ dumpValues false vs)). unfold valuesText. f_equal.
  revert v. induction vs as [|w vs IH]; intros v; [apply string_app_nil|].
  rewrite joined_cons, <- IH. reflexivity.
Qed.

Lemma value_ascii_all vs : Forall value_ok vs -> Forall (allChars isAscii) vs.
Proof. intros Hvs. eapply Forall_impl; [exact Hvs|]. intros v [_ Hv]. eapply allChars_mono; [apply value_ascii|done]. Qed.

Lemma joined_ascii vs : Forall value_ok vs -> allChars isAscii (joined vs).
Proof. intros Hv. apply joined_chars; [done..|]. by apply value_ascii_all. Qed.

Lemma joined_head vs : Forall value_ok vs -> headNot blank (joined vs).
Proof.
  intros Hv. destruct Hv as [|v [|w vs] [Hne Hv] _]; [done| |]; (destruct v as [|c v]; [done|]); by destruct Hv as [(_ & Hb & _) _].
Qed.

Lemma spaces_blank n : blanks (spaces n) /\ allChars isAscii (spaces n).
Proof. induction n as [|n [IH1 IH2]]; [done|]. by split; split. Qed.

(** The values are told apart again. *)
Lemma splitValues_joined vs : Forall value_ok vs -> splitValues (joined vs) = vs.
Proof.
  intros Hvs.
  assert (Hl : forall fuel, (length vs <= fuel)%nat -> vs <> [] -> rsplitLoop fuel optionValueSeparatorRE (joined vs) = vs).
  { induction Hvs as [|v vs [Hne Hv] Hvs IH]; intros fuel Hf Hn; [done|].
    assert (Hnm : allChars (noMatch optionValueSeparatorRE) v) by (eapply allChars_mono; [apply value_noMatch|done]).
    destruct vs as [|w vs]; [by apply rsplitLoop_last|]. rewrite joined_cons. destruct fuel as [|fuel]; [simpl in Hf; lia|].
    rewrite (rsplitLoop_match _ _ _ (joined (w :: vs))); [|done|].
    - rewrite IH by (done || (simpl in *; lia)). done.
    - unfold optionValueSeparatorRE. change (commaSpace +:+ joined (w :: vs)) with (String "," (String " " EmptyString +:+ joined (w :: vs))).
      rewrite none_taken, one_ok by done. by apply many_ok; [| |apply joined_head|apply joined_ascii|]. }
  unfold splitValues, rsplit. destruct vs as [|v vs]; [done|].
  rewrite Hl; [|clear Hl|done].
  - destruct (bool_decide_reflect (v :: vs = [EmptyString])) as [[= -> ->]|_]; [|done].
    apply Forall_cons in Hvs as [[Hne _] _]. done.
  - induction Hvs as [|x xs [Hne _] Hxs IH]; [done|]. destruct x as [|c x]; [done|].
    destruct xs as [|y xs]; [simpl; lia|]. rewrite joined_cons, !length_app.
    change (String.length commaSpace) with 2%nat. cbn [length String.length] in *. lia.
Qed.

(** A line of an option: the name, some blanks, a separator, the values. *)
Definition optionText (name between : string) (sep : ascii) (vs : list string) : string :=
  name +:+ (between +:+ String sep (valuesText vs)).

Definition isSep (sep : ascii) : Prop := sep = ":"%char \/ sep = "="%char.

Lemma one_inv p r final s x : allChars isAscii s -> rmatch (One p :: r) final s = Some x ->
  exists c t, s = String c t /\ inClass p c /\ allChars isAscii t /\ rmatch r final t = Some x.
Proof.
  destruct s as [|c t]; [done|]. intros [Hc Ht] E. cbn [rmatch] in E. rewrite next_ascii in E by done.
  destruct (p (byteOfAscii c)) eqn:Ep; [|done]. by exists c, t.
Qed.

Lemma many_inv p r final s x : allChars isAscii s -> rmatch (Many p :: r) final s = Some x ->
  exists a b, s = a +:+ b /\ allChars (inClass p) a /\ allChars isAscii b /\ rmatch r final b = Some x.
Proof.
  intros Hs E. apply many_sound in E as (a & b & -> & Ha & Hb); [|done]. apply allChars_app in Hs as [_ Hs]. by exists a, b.
Qed.

Lemma atEnd_inv s x : rmatch [] atEnd s = Some x -> s = EmptyString.
Proof. by destruct s. Qed.

Lemma split_unique p a1 : forall b1 a2 b2, allChars (inClass p) a1 -> allChars (inClass p) a2 -> headNot p b1 -> headNot p b2 ->
  a1 +:+ b1 = a2 +:+ b2 -> a1 = a2 /\ b1 = b2.
Proof.
  induction a1 as [|c a1 IH]; intros b1 [|d a2] b2 H1 H2 H3 H4 E.
  - done.
  - change (b1 = String d (a2 +:+ b2)) in E. subst b1. by destruct H2.
  - change (String c (a1 +:+ b1) = b2) in E. subst b2. by destruct H1.
  - change (String c (a1 +:+ b1) = String d (a2 +:+ b2)) in E. injection E as <- E. destruct H1, H2.
    destruct (IH b1 a2 b2) as [-> ->]; done.
Qed.

Lemma isRune_inv a c : inClass (isRune a) c -> c = a.
Proof.
  unfold inClass, isRune, rune. intros E. apply Z.eqb_eq in E. by rewrite <- (asciiOfByte_byteOfAscii c), E, asciiOfByte_byteOfAscii.
Qed.

Section Line.
Context (name between : string) (sep : ascii) (vs : list string).
Context (Hname : allChars wordChar name) (Hne : name <> EmptyString) (Hb : blanks between) (Hvs : Forall value_ok vs) (Hsep : isSep sep).

Lemma sep_facts : isAscii sep /\ ~ inClass blank sep /\ ~ inClass wordRune sep /\ inClass (oneOf [":"; "="]%char) sep.
Proof. destruct Hsep as [-> | ->]; vm_compute; by split_and!. Qed.

Lemma between_ascii : allChars isAscii between.
Proof. eapply allChars_mono; [|exact Hb]. intros c. by apply class_ascii. Qed.

Lemma values_ascii : allChars isAscii (valuesText vs).
Proof. unfold valuesText. destruct vs; [done|]. split; [done|]. by apply joined_ascii. Qed.

Lemma name_ascii : allChars isAscii name.
Proof. eapply allChars_mono; [apply word_ascii|done]. Qed.

Lemma between_head : headNot wordRune (between +:+ String sep (valuesText vs)).
Proof.
  destruct between as [|c b] eqn:E; [apply sep_facts|]. destruct Hb as [Hc _]. by apply (class_disjoint blank).
Qed.

Lemma values_match r final x : rmatch r final (joined vs) = Some x ->
  rmatch (Many blank :: r) final (valuesText vs) = Some x.
Proof.
  intros E. unfold valuesText. destruct vs as [|v vs'] eqn:Ev.
  - change EmptyString with (EmptyString +:+ EmptyString). by apply many_ok.
  - change (String " " (joined (v :: vs'))) with (String " " EmptyString +:+ joined (v :: vs')).
    apply many_ok; [done|done|by apply joined_head|by apply joined_ascii|done].
Qed.

Lemma option_match r final x : rmatch r final (joined vs) = Some x ->
  rmatch ([Many blank; One (oneOf [":"; "="]%char); Many blank] ++ r) final (between +:+ String sep (valuesText vs)) = Some x.
Proof.
  intros E. destruct sep_facts as (H1 & H2 & H3 & H4). cbn [app].
  apply many_ok; [done|apply between_ascii|done|split; [done|apply values_ascii]|].
  rewrite one_ok by done. by apply values_match.
Qed.

Lemma option_splits : rsplit2 optionNameOptionValuesSeparatorRE (optionText name between sep vs) = [name; joined vs].
Proof.
  unfold optionText. apply rsplit2_match.
  - eapply allChars_mono; [apply word_noMatch|done].
  - exact (option_match [] (fun _ => true) (joined vs) eq_refl).
Qed.

Lemma option_line : MatchString optionLineRE (optionText name between sep vs) = true.
Proof.
  pose proof name_ascii as Hna. pose proof between_head as Hbh.
  assert (Hra : allChars isAscii (between +:+ String sep (valuesText vs))).
  { apply allChars_app. split; [apply between_ascii|]. split; [apply sep_facts|apply values_ascii]. }
  assert (Hr : rmatch ([Many blank; One (oneOf [":"; "="]%char); Many blank] ++ [Many valueRune]) atEnd (between +:+ String sep (valuesText vs)) = Some EmptyString).
  { apply option_match. rewrite <- (string_app_nil (joined vs)). apply many_ok; [|by apply joined_ascii|done|done|done].
    apply joined_chars; [done|done|]. eapply Forall_impl; [exact Hvs|]. intros v [_ Hv]. eapply allChars_mono; [|exact Hv]. by intros ? (? & _). }
  unfold MatchString, optionLineRE, optionText. destruct name as [|c n]; [done|].
  by erewrite (plus_ok wordRune _ atEnd c n).
Qed.

Lemma not_header : MatchString sectionHeaderLineRE (optionText name between sep vs) = false.
Proof.
  unfold MatchString, sectionHeaderLineRE, optionText. destruct name as [|c n]; [done|].
  change (String c n +:+ (between +:+ String sep (valuesText vs))) with (String c (n +:+ (between +:+ String sep (valuesText vs)))).
  cbn [app]. destruct Hname as [Hc _]. by rewrite one_fails by (by apply word_ascii || by apply (class_disjoint wordRune)).
Qed.

(** The line is taken for an include exactly when the name has the form and
    there is no value. *)
Definition includeLike : Prop := exists c, name = String c "include".

Lemma text_ascii : allChars isAscii (optionText name between sep vs).
Proof.
  apply allChars_app. split; [apply name_ascii|]. apply allChars_app. split; [apply between_ascii|]. split; [apply sep_facts|apply values_ascii].
Qed.

Lemma include_only : MatchString includeLineRE (optionText name between sep vs) = true -> includeLike /\ vs = [].
Proof.
  pose proof text_ascii as Ht. destruct sep_facts as (_ & Hsb & Hsw & _). pose proof between_head as Hbh.
  unfold MatchString. destruct (rmatch _ _ _) as [x|] eqn:E; [|done]. intros _. revert E Ht. unfold includeLineRE. cbn [map app plus].
  intros E Ht. apply one_inv in E as (c0 & t0 & E0 & _ & Ht0 & E); [|done].
  do 7 (apply one_inv in E as (? & ? & -> & ->%isRune_inv & ? & E); [|done]).
  apply one_inv in E as (b0 & t1 & -> & Hb0 & ? & E); [|done]. apply many_inv in E as (b1 & t2 & -> & Hb1 & ? & E); [|done].
  apply one_inv in E as (n0 & t3 & -> & Hn0 & ? & E); [|done]. apply many_inv in E as (ns & t4 & -> & Hns & ? & E); [|done].
  apply atEnd_inv in E as ->. rewrite string_app_nil in E0. unfold optionText in E0.
  assert (Hc0 : wordChar c0). { destruct name as [|c n]; [done|]. injection E0 as -> _. apply Hname. }
  assert (Hi : allChars wordChar (String c0 "include")) by by split.
  destruct (split_unique wordRune _ _ (String c0 "include") (String b0 (b1 +:+ String n0 ns)) Hname Hi Hbh) as [En Eb]; [|exact E0|].
  { by apply (class_disjoint blank). }
  split; [by exists c0|].
  destruct (split_unique blank between (String sep (valuesText vs)) (String b0 b1) (String n0 ns)) as [_ Es]; [done| |done| |exact Eb|].
  - by split.
  - unfold headNot, inClass in *. by destruct (blank (byteOfAscii n0)).
  - injection Es as _ Ev. unfold valuesText in Ev. destruct vs as [|v vs']; [done|]. subst ns. destruct Hns as [Hns _]. by vm_compute in Hns.
Qed.
End Line.

(** ** Lines *)

Fixpoint lastOk (s : string) : Prop :=
  match s with
  | EmptyString => False
  | String c EmptyString => ~ inClass blank c
  | String _ s' => lastOk s'
  end.

Lemma lastOk_app a b : lastOk b -> lastOk (a +:+ b).
Proof.
  intros Hb. induction a as [|c a IH]; [done|]. change (String c a +:+ b) with (String c (a +:+ b)). cbn [lastOk].
  destruct (a +:+ b); [done|exact IH].
Qed.

Lemma lastOk_chars s : s <> EmptyString -> allChars (fun c => ~ inClass blank c) s -> lastOk s.
Proof. induction s as [|c [|d s] IH]; [done|by intros _ []|]. intros _ [_ Hs]. by apply IH. Qed.

Lemma trimRight_id s : lastOk s -> trimBlanksRight s = s.
Proof.
  induction s as [|c s IH]; [done|]. cbn [trimBlanksRight lastOk]. destruct s as [|d s].
  - intros Hc. cbn. unfold isBlank. unfold inClass in Hc. by destruct (blank (byteOfAscii c)).
  - intros Hs. by rewrite IH.
Qed.

Lemma trim_id c s : ~ inClass blank c -> lastOk (String c s) -> TrimBlanks (String c s) = String c s.
Proof.
  intros Hc Hs. unfold TrimBlanks. cbn [trimBlanksLeft]. unfold isBlank, inClass in *. destruct (blank (byteOfAscii c)); [done|].
  by apply trimRight_id.
Qed.

Lemma lacks_chars sep s : allChars (fun c => c <> sep) s -> lacks sep s.
Proof.
  unfold lacks. induction s as [|c s IH]; [done|]. intros [Hc Hs]. cbn [cutAt]. destruct (Ascii.eqb_spec c sep); [done|]. by rewrite IH.
Qed.

(** The characters of a line without a comment. *)
Definition lineRune (r : Z) : bool := valueRune r || (r =? rune "=").

Lemma stripLine_id c s : ~ inClass blank c -> lastOk (String c s) -> allChars (inClass lineRune) (String c s) -> stripLine (String c s) = String c s.
Proof.
  intros Hc Hl Hs. unfold stripLine, firstSplit.
  assert (Hlack : forall sep, lineRune (byteOfAscii sep) = false -> lacks sep (String c s)).
  { intros sep Hsep. apply lacks_chars. eapply allChars_mono; [|exact Hs]. intros d Hd ->. unfold inClass in Hd. congruence. }
  rewrite (Hlack ";"%char eq_refl). cbn [fst]. rewrite (Hlack "#"%char eq_refl). by apply trim_id.
Qed.

(** A line without a blank includes nothing. *)
Lemma no_blank_no_include s : allChars isAscii s -> allChars (fun c => ~ inClass blank c) s -> MatchString includeLineRE s = false.
Proof.
  intros Hs Hb. unfold MatchString. destruct (rmatch _ _ _) as [x|] eqn:E; [|done]. exfalso. revert E Hb Hs.
  unfold includeLineRE. cbn [map app plus]. intros E Hb Hs.
  do 8 (apply one_inv in E as (? & ? & -> & _ & ? & E); [|done]).
  apply one_inv in E as (b0 & t1 & -> & Hb0 & _); [|done]. cbn in Hb. tauto.
Qed.

Definition headerText (name : string) : string := String "[" (name +:+ "]").

Section Header.
Context (name : string) (Hname : allChars sectionChar name) (Hne : name <> EmptyString).

Lemma header_ascii : allChars isAscii (headerText name).
Proof. split; [done|]. apply allChars_app. split; [|done]. eapply allChars_mono; [apply section_ascii|done]. Qed.

Lemma header_chars P : P "["%char -> P "]"%char -> (forall c, sectionChar c -> P c) -> allChars P (headerText name).
Proof. intros H1 H2 H3. split; [done|]. apply allChars_app. split; [|done]. by eapply allChars_mono. Qed.

Lemma header_line : MatchString sectionHeaderLineRE (headerText name) = true.
Proof.
  pose proof header_ascii as [_ Ha]. apply allChars_app in Ha as [Ha _].
  unfold MatchString, sectionHeaderLineRE, headerText. destruct name as [|c n]; [done|]. cbn [app].
  rewrite one_ok by done.
  change (String c n +:+ "]") with (String c (n +:+ "]")).
  rewrite none_taken by (apply Ha || by apply (class_disjoint sectionRune), Hname).
  change (String c (n +:+ "]")) with (String c n +:+ "]").
  change (One sectionRune :: Many sectionRune :: [Many blank; One (isRune "]")]) with (plus sectionRune ++ [Many blank; One (isRune "]")]).
  by erewrite (plus_ok sectionRune _ atEnd c n).
Qed.

Lemma header_name : FindString sectionNameRE (headerText name) = name.
Proof.
  pose proof header_ascii as [_ Ha]. apply allChars_app in Ha as [Ha _].
  assert (Hm : rmatch sectionNameRE (fun _ => true) (name +:+ "]") = Some "]"%string).
  { destruct name as [|c n]; [done|]. unfold sectionNameRE. rewrite <- (app_nil_r (plus sectionRune)). by apply plus_ok. }
  unfold FindString. change (headerText name) with ("[" +:+ (name +:+ "]")).
  rewrite (rfind_match sectionNameRE "[" (name +:+ "]") "]"); [|by split; [split; [done|intros t; by apply one_fails]|]|done].
  rewrite !length_app. change (String.length "[") with 1%nat. change (String.length "]") with 1%nat.
  replace (1 + (String.length name + 1) - 1 - 1)%nat with (String.length name) by lia.
  change ("[" +:+ (name +:+ "]")) with (String "[" (name +:+ "]")). cbn [String.substring].
  clear. induction name as [|c n IH]; [done|]. change (String c n +:+ "]") with (String c (n +:+ "]")). cbn [String.length String.substring]. by rewrite IH.
Qed.

Lemma header_strip : stripLine (headerText name) = headerText name.
Proof.
  apply stripLine_id; [done| |].
  - apply (lastOk_app (String "[" name) "]"). done.
  - apply header_chars; [done..|]. intros c. by apply class_incl.
Qed.
End Header.

Section Process.
Context `{ConfFiles} (include : string -> St ConfMap error unit) (path : string).

Lemma process_header section name : allChars sectionChar name -> name <> EmptyString ->
  processLine include path section (headerText name) = sret name.
Proof.
  intros Hname Hne. unfold processLine. rewrite header_strip by done. cbn [headerText String.length Nat.eqb].
  rewrite no_blank_no_include, header_line, header_name; [done|done..| |].
  - by apply header_ascii.
  - apply header_chars; [done..|]. intros c. by apply class_disjoint.
Qed.

Lemma process_empty section : processLine include path section EmptyString = sret section.
Proof. done. Qed.

Lemma value_line v : value_ok v -> allChars (inClass lineRune) v.
Proof. intros [_ Hv]. eapply allChars_mono; [|exact Hv]. intros c (Hc & _). by apply (class_incl valueRune). Qed.

Lemma joined_last vs : Forall value_ok vs -> vs <> [] -> lastOk (joined vs).
Proof.
  intros Hvs. induction Hvs as [|v vs [Hne Hv] Hvs IH]; [done|]. intros _. destruct vs as [|w vs].
  - apply lastOk_chars; [done|]. eapply allChars_mono; [|exact Hv]. by intros c (_ & Hc & _).
  - rewrite joined_cons. by apply lastOk_app, lastOk_app, IH.
Qed.

Lemma process_option section name between sep vs : allChars wordChar name -> name <> EmptyString -> blanks between ->
  Forall value_ok vs -> isSep sep -> section <> EmptyString -> ~ (includeLike name /\ vs = []) ->
  processLine include path section (optionText name between sep vs) = (smod (setOption section name vs) ;;~ sret section).
Proof.
  intros Hname Hne Hb Hvs Hsep Hsec Hinc.
  assert (Hs : stripLine (optionText name between sep vs) = optionText name between sep vs).
  { assert (Hl : lastOk (optionText name between sep vs)).
    { apply lastOk_app, lastOk_app. destruct vs as [|v vs']; [by destruct Hsep as [-> | ->]|].
      change (String sep (valuesText (v :: vs'))) with ((String sep " ") +:+ joined (v :: vs')). by apply lastOk_app, joined_last. }
    assert (Ha : allChars (inClass lineRune) (optionText name between sep vs)).
    { apply allChars_app. split; [eapply allChars_mono; [|exact Hname]; intros c; by apply class_incl|].
      apply allChars_app. split; [eapply allChars_mono; [|exact Hb]; intros c; by apply class_incl|].
      split; [by destruct Hsep as [-> | ->]|]. destruct vs as [|v vs']; [done|]. split; [done|].
      apply joined_chars; [done..|]. eapply Forall_impl; [exact Hvs|]. intros x. apply value_line. }
    destruct name as [|c n]; [done|]. apply stripLine_id; [by apply (class_disjoint wordRune), Hname|exact Hl|exact Ha]. }
  unfold processLine. rewrite Hs.
  destruct (String.length (optionText name between sep vs)) as [|k] eqn:El; [unfold optionText in El; rewrite length_app in El; by destruct name|].
  cbn [Nat.eqb].
  destruct (MatchString includeLineRE _) eqn:Ei; [apply include_only in Ei; [done..]|].
  rewrite not_header, option_line, option_splits by done. rewrite bool_decide_false by done. cbn [negb].
  by rewrite splitValues_joined.
Qed.

(** The scan of a file, line by line. *)
Lemma scan_line fuel section line0 line ended text : allChars isAscii line -> allChars (fun c => byteOfAscii c <> 10) line ->
  (String.length line < fuel)%nat ->
  scanFile include path fuel section line0 ended (line +:+ (newline +:+ text))
  = (section <~ processLine include path section (line0 +:+ line) ;;
     scanFile include path (fuel - S (String.length line)) section EmptyString true text).
Proof.
  revert fuel line0 ended. induction line as [|c line IH]; intros fuel line0 ended Ha Hn Hf.
  - destruct fuel as [|fuel]; [simpl in Hf; lia|]. change (EmptyString +:+ (newline +:+ text)) with (String (asciiOfByte 10) text).
    rewrite string_app_nil. cbn [scanFile]. rewrite next_ascii by done. change (byteOfAscii (asciiOfByte 10)) with 10.
    cbn. by rewrite Nat.sub_0_r.
  - destruct fuel as [|fuel]; [simpl in Hf; lia|]. destruct Ha as [Hc Ha], Hn as [Hc' Hn].
    change (String c line +:+ (newline +:+ text)) with (String c (line +:+ (newline +:+ text))). cbn [scanFile].
    rewrite next_ascii by done. unfold isAscii in Hc.
    destruct (Z.eqb_spec RuneError (byteOfAscii c)) as [Hr|_]; [unfold RuneError in Hr; lia|].
    destruct (Z.eqb_spec 10 (byteOfAscii c)) as [Hr|_]; [lia|].
    rewrite IH by (done || (simpl in Hf; lia)). rewrite <- string_app_assoc. reflexivity.
Qed.
End Process.

(** ** A map that was written is read back *)

Record option_ok (o : string * ConfMapOption) : Prop := {
  o_name : allChars wordChar o.1 /\ o.1 <> EmptyString;
  o_values : Forall value_ok o.2;
  o_include : ~ (includeLike o.1 /\ o.2 = [])
}.

Record section_ok (s : string * list (string * ConfMapOption)) : Prop := {
  s_name : allChars sectionChar s.1 /\ s.1 <> EmptyString;
  s_some : s.2 <> [];
  s_options : Forall option_ok s.2;
  s_distinct : NoDup s.2.*1
}.

Definition lineOf (optionNameMaxLen : nat) (o : string * ConfMapOption) : string :=
  optionText o.1 (spaces (optionNameMaxLen - String.length o.1 + 1)) ":" o.2.

Definition sectionLines (s : string * list (string * ConfMapOption)) : list string :=
  headerText s.1 :: map (lineOf (maxLen s.2)) s.2 ++ [EmptyString].

Definition linesText (ls : list string) : string := String.concat "" (map (fun l => l +:+ newline) ls).

Lemma concat_cons (x : string) xs : String.concat "" (x :: xs) = x +:+ String.concat "" xs.
Proof. destruct xs as [|y xs]; [by rewrite string_app_nil|done]. Qed.

Lemma linesText_cons l ls : linesText (l :: ls) = l +:+ (newline +:+ linesText ls).
Proof. unfold linesText. cbn [map]. by rewrite concat_cons, string_app_assoc. Qed.

Lemma linesText_app l1 l2 : linesText (l1 ++ l2) = linesText l1 +:+ linesText l2.
Proof.
  induction l1 as [|l l1 IH]; [done|]. change ((l :: l1) ++ l2) with (l :: l1 ++ l2).
  by rewrite !linesText_cons, IH, !string_app_assoc.
Qed.

Lemma dumpSection_lines s : dumpSection s +:+ newline = linesText (sectionLines s).
Proof.
  unfold dumpSection, sectionLines. rewrite linesText_cons, linesText_app.
  assert (Ho : String.concat "" (map (dumpOption (maxLen s.2)) s.2) = linesText (map (lineOf (maxLen s.2)) s.2)).
  { generalize (maxLen s.2) as k. intros k. induction s.2 as [|o os IH]; [done|]. cbn [map]. rewrite concat_cons, linesText_cons, IH.
    unfold dumpOption, lineOf, optionText. rewrite dumpValues_text.
    change (":" +:+ (valuesText o.2 +:+ newline)) with (String ":" (valuesText o.2) +:+ newline). by rewrite !string_app_assoc. }
  rewrite Ho. change (linesText [EmptyString]) with newline. unfold headerText.
  change (String "[" (s.1 +:+ "]")) with ("[" +:+ (s.1 +:+ "]")). by rewrite <- !string_app_assoc.
Qed.

Lemma dumpConfMap_lines order : dumpConfMap order = linesText (concat (map sectionLines order)).
Proof.
  unfold dumpConfMap. destruct order as [|s order]; [done|]. revert s. induction order as [|t order IH]; intros s.
  - cbn [map concat]. rewrite app_nil_r. apply dumpSection_lines.
  - cbn [map concat]. rewrite linesText_app, <- dumpSection_lines. specialize (IH t). cbn [map concat] in IH. rewrite <- IH.
    change (String.concat newline (dumpSection s :: dumpSection t :: map dumpSection order))
      with (dumpSection s +:+ (newline +:+ String.concat newline (dumpSection t :: map dumpSection order))).
    by rewrite <- !string_app_assoc.
Qed.

Definition applySection (m : ConfMap) (s : string * list (string * ConfMapOption)) : ConfMap :=
  foldl (fun m o => setOption s.1 o.1 o.2 m) m s.2.

Section Scan.
Context `{ConfFiles} (include : string -> St ConfMap error unit) (path : string).

Definition cleanLine (l : string) : Prop := allChars isAscii l /\ allChars (fun c => byteOfAscii c <> 10) l.

Fixpoint processLines (section : string) (ls : list string) : St ConfMap error string :=
  match ls with
  | [] => sret section
  | l :: rest => section <~ processLine include path section l ;; processLines section rest
  end.

Lemma scan_lines ls : Forall cleanLine ls -> forall fuel section (m : ConfMap), (String.length (linesText ls) <= fuel)%nat ->
  scanFile include path fuel section EmptyString true (linesText ls) m
  = match processLines section ls m with (m', Ret _) => (m', Ret tt) | (m', Err e) => (m', Err e) | (m', Panic) => (m', Panic) end.
Proof.
  induction 1 as [|l ls [Ha Hn] Hls IH]; intros fuel section m Hf; [by destruct fuel|].
  rewrite linesText_cons in *. rewrite !length_app in Hf. change (String.length newline) with 1%nat in Hf.
  rewrite scan_line by (done || lia). change (EmptyString +:+ l) with l. cbn [processLines]. unfold sbind.
  destruct (processLine include path section l m) as [m1 [section1|e|]]; [|done..]. apply IH. lia.
Qed.

Lemma class_line p c : forByte 256 (fun b => negb (p b) || negb (b =? 10)) = true -> inClass p c -> byteOfAscii c <> 10.
Proof. intros Hf Hp E. apply (forByte_ok _ c) in Hf. unfold inClass in *. by rewrite Hp, E in Hf. Qed.

Lemma option_clean k o : option_ok o -> cleanLine (lineOf k o).
Proof.
  intros [[Hn Hne] Hv _]. destruct (spaces_blank (k - String.length o.1 + 1)) as [Hb _]. split; [apply text_ascii; (done || by left)|].
  apply allChars_app. split; [eapply allChars_mono; [|exact Hn]; intros c; by apply class_line|].
  apply allChars_app. split; [eapply allChars_mono; [|exact Hb]; intros c; by apply class_line|].
  split; [done|]. unfold valuesText. destruct (o.2) as [|v vs]; [done|]. split; [done|].
  apply joined_chars; [done..|]. eapply Forall_impl; [exact Hv|]. intros x Hx. apply value_line in Hx.
  eapply allChars_mono; [|exact Hx]. intros c. by apply class_line.
Qed.

Lemma section_clean s : section_ok s -> Forall cleanLine (sectionLines s).
Proof.
  intros [[Hn Hne] _ Ho _]. constructor.
  - split; [by apply header_ascii|]. apply header_chars; [done..|]. intros c. by apply class_line.
  - apply Forall_app. split; [|by constructor; [split|constructor]]. apply Forall_fmap. eapply Forall_impl; [exact Ho|]. intros o. apply option_clean.
Qed.

Lemma processLines_app l1 l2 : forall section m,
  processLines section (l1 ++ l2) m = (section <~ processLines section l1 ;; processLines section l2) m.
Proof.
  induction l1 as [|l l1 IH]; intros section m; [done|]. cbn [app processLines]. unfold sbind.
  destruct (processLine include path section l m) as [m1 [section1|e|]]; [|done..]. rewrite IH. reflexivity.
Qed.

Lemma process_section section s m : section_ok s -> processLines section (sectionLines s) m = (applySection m s, Ret s.1).
Proof.
  intros [[Hn Hne] _ Ho _]. unfold sectionLines. cbn [processLines]. unfold sbind at 1. rewrite process_header by done. cbn.
  assert (E : forall os m, Forall option_ok os -> processLines s.1 (map (lineOf (maxLen s.2)) os) m = (foldl (fun m o => setOption s.1 o.1 o.2 m) m os, Ret s.1)).
  { clear Ho. induction os as [|o os IH]; intros m0 Ho; [done|]. apply Forall_cons in Ho as [[[H1 H2] H3 H4] Ho]. cbn [map processLines].
    unfold sbind at 1. unfold lineOf at 1. rewrite process_option by (done || (by left) || apply spaces_blank). cbn. by apply IH. }
  rewrite processLines_app. unfold sbind. rewrite E by done. reflexivity.
Qed.

Lemma process_sections order : Forall section_ok order -> forall section m, exists section',
  processLines section (concat (map sectionLines order)) m = (foldl applySection m order, Ret section').
Proof.
  induction 1 as [|s order Hs Ho IH]; intros section m; [by exists section|]. cbn [map concat foldl].
  destruct (IH s.1 (applySection m s)) as [section' E]. exists section'.
  rewrite processLines_app. unfold sbind. by rewrite process_section.
Qed.
End Scan.

(** The maps as they are built. *)
Lemma foldl_insert {A} (l : list (string * A)) : forall m : gmap string A, NoDup l.*1 ->
  foldl (fun m x => <[x.1 := x.2]> m) m l = list_to_map l ∪ m.
Proof.
  induction l as [|[k x] l IH]; intros m Hd; cbn [foldl]; [by rewrite list_to_map_nil, (left_id_L ∅ (∪))|].
  rewrite fmap_cons in Hd. apply NoDup_cons in Hd as [Hk Hd]. rewrite IH by done. rewrite list_to_map_cons. cbn [fst snd].
  rewrite <- insert_union_r; [by rewrite <- insert_union_l|]. by apply not_elem_of_list_to_map_1.
Qed.

Lemma applySection_insert m s : s.2 <> [] -> applySection m s = <[s.1 := foldl (fun m x => <[x.1 := x.2]> m) (default ∅ (m !! s.1)) s.2]> m.
Proof.
  intros Hne. unfold applySection. destruct s.2 as [|o os]; [done|]. clear Hne. revert o m.
  induction os as [|o' os IH]; intros o m; [done|].
  change (foldl (fun m0 o0 => setOption s.1 o0.1 o0.2 m0) m (o :: o' :: os))
    with (foldl (fun m0 o0 => setOption s.1 o0.1 o0.2 m0) (setOption s.1 o.1 o.2 m) (o' :: os)).
  rewrite IH. unfold setOption at 1 2. rewrite lookup_insert_eq, insert_insert_eq. reflexivity.
Qed.

Lemma applySections order : Forall section_ok order -> NoDup order.*1 -> foldl applySection ∅ order = confMapOf order.
Proof.
  intros Ho Hd. unfold confMapOf.
  assert (Hgen : forall m : ConfMap, (forall s, s ∈ order -> m !! s.1 = None) ->
    foldl applySection m order = foldl (fun m x => <[x.1 := x.2]> m) m (map (fun s => (s.1, list_to_map s.2 : ConfMapSection)) order)).
  { induction Ho as [|s order Hs Ho IH]; intros m Hm; [done|]. rewrite fmap_cons in Hd. apply NoDup_cons in Hd as [Hsn Hd].
    cbn [map foldl fst snd]. rewrite applySection_insert by apply Hs. rewrite (Hm s) by by left. cbn [default].
    rewrite foldl_insert by apply Hs. rewrite (right_id_L ∅ (∪)). apply IH; [done|].
    intros t Ht. rewrite lookup_insert_ne; [apply Hm; by right|]. intros E. apply Hsn. rewrite E. by apply list_elem_of_fmap_2. }
  rewrite Hgen by (intros; apply lookup_empty).
  rewrite foldl_insert; [by rewrite (right_id_L ∅ (∪))|].
  replace (map (fun s => (s.1, list_to_map s.2 : ConfMapSection)) order).*1 with order.*1; [done|].
  clear. induction order as [|s order IH]; [done|]. cbn [map]. rewrite !fmap_cons. by rewrite IH.
Qed.

Section Dump.
Context `{ConfFiles}.

(** C34. A configuration map that is written to a file is read back: for every
    order in which the sections and options are written, reading the text gives
    the map, when every section has an option, names and values have characters
    that the syntax allows, and no option without a value has a name of eight
    characters that ends in "include". *)
Theorem dump_update_roundtrip order confFilePath :
  Forall section_ok order -> NoDup order.*1 -> (0 < stackLimit)%nat ->
  ReadFile confFilePath = Ret (dumpConfMap order) ->
  MakeConfMapFromFile confFilePath = (confMapOf order, Ret tt).
Proof.
  intros Ho Hd Hl Hr. unfold MakeConfMapFromFile, UpdateFromFile. destruct stackLimit as [|depth]; [lia|].
  cbn [updateNested]. unfold sbind, slift. rewrite Hr, dumpConfMap_lines.
  assert (Hc : Forall cleanLine (concat (map sectionLines order))).
  { apply Forall_concat, Forall_fmap. eapply Forall_impl; [exact Ho|]. intros s. apply section_clean. }
  rewrite scan_lines by done.
  destruct (process_sections (updateNested depth) confFilePath order Ho EmptyString MakeConfMap) as [section' ->].
  by rewrite applySections.
Qed.
End Dump.

(** ** Strings and files *)

Definition confString (section name between : string) (vs : list string) : string :=
  section +:+ ("." +:+ optionText name between "=" vs).

Section Agree.
Context (section name between : string) (vs : list string).
Context (Hsec : allChars sectionChar section) (Hsne : section <> EmptyString).
Context (Hname : allChars wordChar name) (Hne : name <> EmptyString) (Hb : blanks between) (Hvs : Forall value_ok vs).

Let Hsep : isSep "=" := or_intror eq_refl.

Lemma string_ascii : allChars isAscii (confString section name between vs).
Proof.
  apply allChars_app. split; [eapply allChars_mono; [apply section_ascii|done]|]. apply allChars_app. split; [done|]. by apply text_ascii.
Qed.

Lemma string_matches : MatchString stringRE (confString section name between vs) = true.
Proof.
  pose proof string_ascii as Ha. unfold confString in Ha. apply allChars_app in Ha as [Ha1 Ha2]. pose proof Ha2 as Ha2'. apply allChars_app in Ha2' as [_ Ha3].
  pose proof Ha3 as Ha3'. apply allChars_app in Ha3' as [Ha4 Ha5].
  pose proof (between_head between "=" vs Hb Hsep) as Hbh.
  assert (Hr : rmatch ([Many blank; One (isRune "="); Many blank] ++ [Many valueRune]) atEnd (between +:+ String "=" (valuesText vs)) = Some EmptyString).
  { cbn [app]. apply many_ok; [done|by apply between_ascii|done|by apply allChars_app in Ha5 as [_ ?]|]. rewrite one_ok by done.
    apply values_match; [done|]. rewrite <- (string_app_nil (joined vs)). apply many_ok; [|by apply joined_ascii|done|done|done].
    apply joined_chars; [done|done|]. eapply Forall_impl; [exact Hvs|]. intros v [_ Hv]. eapply allChars_mono; [|exact Hv]. by intros ? (? & _). }
  unfold MatchString, stringRE, confString. destruct section as [|c n]; [done|]. destruct name as [|d w]; [done|].
  erewrite (plus_ok sectionRune _ atEnd c n); [reflexivity|done|done|by apply (class_disjoint (isRune "."))|done|].
  change ("." +:+ optionText (String d w) between "=" vs) with (String "." (optionText (String d w) between "=" vs)).
  change (([One (isRune ".")] ++ ?r)) with (One (isRune ".") :: r). rewrite one_ok by done. by apply plus_ok.
Qed.

Lemma string_trim : TrimBlanks (confString section name between vs) = confString section name between vs.
Proof.
  assert (Hl : lastOk (confString section name between vs)).
  { apply lastOk_app, lastOk_app, lastOk_app, lastOk_app. destruct vs as [|v vs']; [done|].
    change (String "=" (valuesText (v :: vs'))) with ((String "=" " ") +:+ joined (v :: vs')). by apply lastOk_app, joined_last. }
  unfold confString in *. destruct section as [|c n]; [done|].
  apply trim_id; [by apply (class_disjoint sectionRune), Hsec|exact Hl].
Qed.

Lemma string_update m : UpdateFromString (confString section name between vs) m = (setOption section name vs m, Ret tt).
Proof.
  unfold UpdateFromString. rewrite string_trim, string_matches.
  destruct (String.length (confString section name between vs)) as [|k] eqn:El; [unfold confString in El; rewrite length_app in El; by destruct section|].
  cbn [Nat.eqb negb]. unfold confString at 1.
  rewrite (rsplit2_match sectionNameOptionNameSeparatorRE section _ (optionText name between "=" vs)).
  - rewrite option_splits by done. by rewrite splitValues_joined.
  - eapply allChars_mono; [apply section_noMatch|done].
  - change ("." +:+ optionText name between "=" vs) with (String "." (optionText name between "=" vs)). by apply one_ok.
Qed.

(** A setting given as a string and the same setting in a file do the same:
    the string "Section.Option = values" and a file with the section and a line
    of the option, with any blanks and either separator, set exactly this option
    to these values and change nothing else. *)
Theorem string_and_file_agree `{ConfFiles} confFilePath between' sep m :
  blanks between' -> isSep sep -> ~ (includeLike name /\ vs = []) -> (0 < stackLimit)%nat ->
  ReadFile confFilePath = Ret (linesText [headerText section; optionText name between' sep vs]) ->
  UpdateFromString (confString section name between vs) m = UpdateFromFile confFilePath m
  /\ UpdateFromFile confFilePath m = (setOption section name vs m, Ret tt).
Proof.
  intros Hb' Hsep' Hinc Hl Hr. rewrite string_update. unfold UpdateFromFile. destruct stackLimit as [|depth]; [lia|].
  cbn [updateNested]. unfold sbind, slift. rewrite Hr.
  assert (Hc : Forall cleanLine [headerText section; optionText name between' sep vs]).
  { constructor; [|constructor; [|constructor]].
    - split; [by apply header_ascii|]. apply header_chars; [done..|]. intros c. by apply class_line.
    - split; [by apply text_ascii|]. apply allChars_app. split; [eapply allChars_mono; [|exact Hname]; intros c; by apply class_line|].
      apply allChars_app. split; [eapply allChars_mono; [|exact Hb']; intros c; by apply class_line|].
      split; [by destruct Hsep' as [-> | ->]|]. unfold valuesText. destruct vs as [|v vs']; [done|]. split; [done|].
      apply joined_chars; [done..|]. eapply Forall_impl; [exact Hvs|]. intros x Hx. apply value_line in Hx.
      eapply allChars_mono; [|exact Hx]. intros c. by apply class_line. }
  rewrite scan_lines by done. cbn [processLines]. unfold sbind. rewrite process_header by done. cbn.
  by rewrite process_option.
Qed.
End Agree.

(** ** Includes *)

(** Files by name, and how many nested includes fit on the stack. *)
Definition filesOf (files : gmap string string) (limit : nat) : ConfFiles :=
  {| ReadFile := fun path => match files !! path with Some text => Ret text | None => Err plain end;
     absDir := fun _ => Ret "/"%string; stackLimit := limit |}.

Definition selfIncluding : string := linesText [".include /etc/a.conf"].

Lemma process_self `{ConfFiles} include path section m :
  processLine include path section ".include /etc/a.conf" m = (include "/etc/a.conf" ;;~ sret EmptyString)%string m.
Proof. reflexivity. Qed.

(** A file that includes itself is read for ever: however large the stack,
    it overflows, and the process ends. *)
Theorem self_include_overflows limit m :
  UpdateFromFile (H := filesOf {[ "/etc/a.conf" := selfIncluding ]} limit) "/etc/a.conf" m = (m, Panic).
Proof.
  set (files := filesOf _ limit).
  assert (Hr : @ReadFile files "/etc/a.conf" = Ret selfIncluding) by (cbn; by rewrite lookup_singleton_eq).
  clearbody files. unfold UpdateFromFile. generalize (@stackLimit files) as depth.
  induction depth as [|depth IH]; [done|]. cbn [updateNested]. unfold sbind at 1, slift. rewrite Hr.
  unfold selfIncluding. rewrite scan_lines.
  - cbn [processLines]. unfold sbind at 1. rewrite process_self. unfold sbind. by rewrite IH.
  - constructor; [|constructor]. split; vm_compute; repeat split; (reflexivity || discriminate).
  - reflexivity.
Qed.

(** An option without a value can be taken for an include: the dot of the
    expression for include lines stands for any character, so a map with an
    option "xinclude" that has no value is written as a file that cannot be read
    again. *)
Theorem option_taken_for_include limit :
  let confMap : ConfMap := {[ "S" := {[ "xinclude" := []; "z" := ["1"] ]} ]}%string in
  exists order, confMapOf order = confMap
    /\ (MakeConfMapFromFile (H := filesOf {[ "f" := dumpConfMap order ]} (S limit)) "f").2 <> Ret tt.
Proof.
  exists [("S", [("xinclude", []); ("z", ["1"])])]%string. split; [vm_compute; reflexivity|].
  unfold MakeConfMapFromFile, UpdateFromFile. cbn [stackLimit filesOf updateNested]. unfold sbind at 1, slift. cbn [ReadFile filesOf].
  rewrite lookup_singleton_eq. destruct limit as [|limit]; vm_compute; discriminate.
Qed.

(** ** Numbers *)

Lemma parse_in_range bits s v : ParseUint10 bits s = Ret v -> v < 2 ^ bits.
Proof.
  unfold ParseUint10. destruct s as [|c s]; [done|]. destruct (parseDec _ 0) as [w|]; [|done].
  destruct (Z.ltb_spec w (2 ^ bits)); [|done]. by intros [= <-].
Qed.

Lemma parseDec_nonneg s : forall n v, 0 <= n -> parseDec s n = Some v -> 0 <= v.
Proof.
  induction s as [|c s IH]; intros n v Hn E; cbn [parseDec] in E; [by injection E as <-|].
  unfold decValue in E. destruct (_ && _) eqn:Ec; [|done]. eapply IH; [|exact E]. lia.
Qed.

Lemma parse_nonneg bits s v : ParseUint10 bits s = Ret v -> 0 <= v.
Proof.
  unfold ParseUint10. destruct s as [|c s]; [done|]. destruct (parseDec _ 0) as [w|] eqn:E; [|done].
  destruct (w <? 2 ^ bits); [|done]. intros [= <-]. by eapply parseDec_nonneg.
Qed.

Lemma parse_printed bits v : 0 <= v < two64 -> ParseUint10 bits (FormatUint v) = if v <? 2 ^ bits then Ret v else Err plain.
Proof.
  intros Hv. pose proof (FormatUint_parse v Hv) as Hp. unfold ParseUint10, FormatUint in *.
  destruct (digitsLoop_cons 63 10 v) as (c & s & Hs). rewrite Hs in *. by rewrite Hp.
Qed.

Definition single (section name value : string) : ConfMap := {[ section := {[ name := [value] ]} ]}.

Lemma fetch_single section name value : FetchOptionValueString (single section name value) section name = Ret value.
Proof. unfold FetchOptionValueString, FetchOptionValueStringSlice, fetchOption, single. by rewrite !lookup_singleton_eq. Qed.

(** Integers from a configuration map are in the range of their type, and a
    number that is printed is fetched again exactly when it fits. *)
Theorem uint_options_fit section name v :
  (forall confMap n, FetchOptionValueUint16 confMap section name = Ret n -> 0 <= n < 65536)
  /\ (forall confMap n, FetchOptionValueUint32 confMap section name = Ret n -> 0 <= n < two32)
  /\ (forall confMap n, FetchOptionValueUint64 confMap section name = Ret n -> 0 <= n < two64)
  /\ (0 <= v < two64 ->
      FetchOptionValueUint16 (single section name (FormatUint v)) section name = (if v <? 65536 then Ret v else Err plain)
      /\ FetchOptionValueUint32 (single section name (FormatUint v)) section name = (if v <? two32 then Ret v else Err plain)
      /\ FetchOptionValueUint64 (single section name (FormatUint v)) section name = Ret v).
Proof.
  assert (Hr : forall bits confMap n, (optionValueString <- FetchOptionValueString confMap section name ;; ParseUint10 bits optionValueString) = Ret n ->
    0 <= n < 2 ^ bits).
  { intros bits confMap n. destruct (FetchOptionValueString confMap section name) as [s|e|]; [|done..]. cbn [obind]. intros E.
    split; [by eapply parse_nonneg|by eapply parse_in_range]. }
  split_and!; [apply (Hr 16)|apply (Hr 32)|apply (Hr 64)|]. intros Hv.
  unfold FetchOptionValueUint16, FetchOptionValueUint32, FetchOptionValueUint64. rewrite fetch_single. cbn [obind].
  rewrite !parse_printed by done. split_and!; [done|done|].
  change (2 ^ 64) with two64. destruct (Z.ltb_spec v two64); [done|lia].
Qed.

(** ** UUIDs *)

Definition hexText (b : Z) : string :=
  String (asciiOfByte (ByteToHexDigit (b / 16))) (String (asciiOfByte (ByteToHexDigit (b mod 16))) EmptyString).

Definition hexBytes (bs : bytes) : string := String.concat "" (map hexText bs).

(** The text of a UUID, from its sixteen bytes. *)
Definition uuidText (bs : bytes) : string :=
  hexBytes (take 4 bs) +:+ ("-" +:+ (hexBytes (take 2 (drop 4 bs)) +:+ ("-" +:+ (hexBytes (take 2 (drop 6 bs)) +:+ ("-" +:+
  (hexBytes (take 1 (drop 8 bs)) +:+ (hexBytes (take 1 (drop 9 bs)) +:+ ("-" +:+ hexBytes (drop 10 bs))))))))).

Fixpoint joinBytes (n : Z) (bs : bytes) : Z := match bs with [] => n | b :: rest => joinBytes (n * 256 + b) rest end.

Lemma joinBytes_shift bs : forall n, joinBytes n bs = n * 256 ^ zlen bs + joinBytes 0 bs.
Proof.
  induction bs as [|b bs IH]; intros n; cbn [joinBytes]; [unfold zlen; simpl; lia|].
  rewrite (IH (n * 256 + b)), (IH (0 * 256 + b)), zlen_cons, Z.pow_add_r by zlia. lia.
Qed.

Lemma joinBytes_range bs : Forall is_byte bs -> 0 <= joinBytes 0 bs < 256 ^ zlen bs.
Proof.
  induction 1 as [|b bs Hb Hbs IH]; [by vm_compute|]. cbn [joinBytes]. rewrite joinBytes_shift, zlen_cons, Z.pow_add_r by zlia.
  unfold is_byte in Hb. change (256 ^ 1) with 256. nia.
Qed.

Lemma bigEndian_join bs : Forall is_byte bs -> forall v, (exists hi, 0 <= hi /\ v = hi * 256 ^ zlen bs + joinBytes 0 bs) ->
  bigEndian (length bs) v = bs.
Proof.
  induction 1 as [|b bs Hb Hbs IH]; intros v (hi & Hhi & ->); [done|]. cbn [length bigEndian].
  pose proof (joinBytes_range bs Hbs) as Hr. unfold is_byte in Hb. cbn [joinBytes]. rewrite joinBytes_shift, zlen_cons, Z.pow_add_r by zlia.
  assert (Hp : 2 ^ (8 * Z.of_nat (length bs)) = 256 ^ zlen bs) by (rewrite Z.pow_mul_r by lia; done).
  f_equal.
  - rewrite Z.shiftr_div_pow2, Hp by lia. change 255 with (Z.ones 8). rewrite Z.land_ones by lia. change (256 ^ 1) with 256. change (2 ^ 8) with 256.
    replace (hi * (256 * 256 ^ zlen bs) + ((0 * 256 + b) * 256 ^ zlen bs + joinBytes 0 bs)) with ((hi * 256 + b) * 256 ^ zlen bs + joinBytes 0 bs) by lia.
    rewrite Z.div_add_l, (Z.div_small (joinBytes 0 bs)) by lia. rewrite Z.add_0_r, Z.add_comm, Z.mod_add, Z.mod_small by lia. done.
  - apply IH. exists (hi * 256 + b). split; [lia|]. change (256 ^ 1) with 256. lia.
Qed.

Lemma nibbles b : is_byte b -> 0 <= b / 16 < 16 /\ 0 <= b mod 16 < 16 /\ b / 16 * 16 + b mod 16 = b.
Proof.
  unfold is_byte. intros Hb. pose proof (Z.div_mod b 16 ltac:(lia)). pose proof (Z.mod_pos_bound b 16 ltac:(lia)).
  assert (0 <= b / 16 < 16) by (split; [apply Z.div_pos; lia|apply Z.div_lt_upper_bound; lia]). lia.
Qed.

Lemma parseHex_bytes bs : Forall is_byte bs -> forall n, 0 <= n -> n * 256 ^ zlen bs + joinBytes 0 bs < two64 ->
  parseHex (hexBytes bs) n = Some (joinBytes n bs).
Proof.
  induction 1 as [|b bs Hb Hbs IH]; intros n Hn Hlt; [done|]. unfold hexBytes. cbn [map]. rewrite concat_cons.
  change (hexText b +:+ String.concat "" (map hexText bs)) with
    (String (asciiOfByte (ByteToHexDigit (b / 16))) (String (asciiOfByte (ByteToHexDigit (b mod 16))) (hexBytes bs))).
  destruct (nibbles b Hb) as (H1 & H2 & H3). pose proof (joinBytes_range bs Hbs) as Hr.
  cbn [joinBytes] in Hlt. rewrite joinBytes_shift, zlen_cons, Z.pow_add_r in Hlt by zlia. change (256 ^ 1) with 256 in Hlt.
  assert (0 < 256 ^ zlen bs) by (apply Z.pow_pos_nonneg; zlia).
  assert (Hs : (n * 256 + b) < two64) by nia.
  cbn [parseHex]. rewrite hexValue_digit by lia. destruct (Z.leb_spec two64 (n * 16 + b / 16)); [lia|].
  rewrite hexValue_digit by lia. destruct (Z.leb_spec two64 ((n * 16 + b / 16) * 16 + b mod 16)); [lia|].
  replace ((n * 16 + b / 16) * 16 + b mod 16) with (n * 256 + b) by lia. cbn [joinBytes]. apply IH; [unfold is_byte in Hb; lia|]. lia.
Qed.

Lemma parse_hexBytes bs : Forall is_byte bs -> 0 < zlen bs <= 8 -> HexStrToUint64 (hexBytes bs) = Ret (joinBytes 0 bs).
Proof.
  intros Hb Hl. pose proof (joinBytes_range bs Hb) as Hr.
  assert (256 ^ zlen bs <= two64) by (change two64 with (256 ^ 8); apply Z.pow_le_mono_r; lia).
  unfold HexStrToUint64. destruct bs as [|b bs]; [zlia|]. rewrite parseHex_bytes by (done || lia). unfold hexBytes. cbn [map]. by rewrite concat_cons.
Qed.

(** UUIDs: the sixteen bytes of a UUID that is written in its usual text form
    are fetched again. *)
Theorem uuid_roundtrip section name bs : Forall is_byte bs -> length bs = 16%nat ->
  FetchOptionValueUUID (single section name (uuidText bs)) section name = Ret bs.
Proof.
  intros Hb Hl. do 16 (destruct bs as [|? bs]; [done|]). destruct bs; [|done].
  unfold FetchOptionValueUUID, FetchOptionValueStringSlice, fetchOption, single. rewrite !lookup_singleton_eq. cbn [obind].
  set (u := uuidText _).
  change (String.length u) with 36%nat. change (byteAt u 8) with 45. change (byteAt u 13) with 45. change (byteAt u 18) with 45. change (byteAt u 23) with 45.
  cbn [Nat.eqb negb andb]. change (45 =? rune "-") with true. cbn [andb negb].
  repeat match type of Hb with Forall _ (_ :: _) => apply Forall_cons in Hb as [? Hb] end.
  change (String.substring 0 8 u) with (hexBytes [z; z0; z1; z2]). change (String.substring 9 4 u) with (hexBytes [z3; z4]).
  change (String.substring 14 4 u) with (hexBytes [z5; z6]). change (String.substring 19 2 u) with (hexBytes [z7]).
  change (String.substring 21 2 u) with (hexBytes [z8]). change (String.substring 24 12 u) with (hexBytes [z9; z10; z11; z12; z13; z14]).
  rewrite !parse_hexBytes by (unfold zlen; simpl; (lia || (repeat (constructor; [assumption|]); constructor))). cbn [obind].
  assert (Hj : forall l k, Forall is_byte l -> k = length l -> bigEndian k (joinBytes 0 l) = l).
  { intros l k Hlb ->. apply bigEndian_join; [done|]. exists 0. lia. }
  rewrite !Hj by (done || (repeat (constructor; [assumption|]); constructor)). reflexivity.
Qed.

(** ** Concrete maps *)

Definition sampleOrder : list (string * list (string * ConfMapOption)) :=
  [("Peer:a", [("Name", ["x"; "10.0.0.1/8"]); ("Empty", [])]); ("FSGlobals", [("VolumeList", ["[v1]"; "v2"])])]%string.

Ltac chars := vm_compute; repeat split; (reflexivity || discriminate).

Lemma sample_ok : Forall section_ok sampleOrder.
Proof.
  constructor; [|constructor; [|constructor]].
  - split; [split; [chars|done]|done| |by apply (bool_decide_unpack _); vm_compute].
    constructor; [|constructor; [|constructor]].
    + split; [split; [chars|done]|constructor; [split; [done|chars]|constructor; [split; [done|chars]|constructor]]|by intros [_ ?]].
    + split; [split; [chars|done]|constructor|by intros [[c ?] _]].
  - split; [split; [chars|done]|done| |by apply (bool_decide_unpack _); vm_compute].
    constructor; [|constructor].
    split; [split; [chars|done]|constructor; [split; [done|chars]|constructor; [split; [done|chars]|constructor]]|by intros [_ ?]].
Qed.

Lemma dump_update_roundtrip_witness :
  MakeConfMapFromFile (H := filesOf {[ "a.conf" := dumpConfMap sampleOrder ]} 3) "a.conf" = (confMapOf sampleOrder, Ret tt).
Proof.
  apply (dump_update_roundtrip (H := filesOf {[ "a.conf" := dumpConfMap sampleOrder ]} 3) sampleOrder "a.conf" sample_ok).
  - by apply (bool_decide_unpack _); vm_compute.
  - cbn. lia.
  - cbn [ReadFile filesOf]. by rewrite lookup_singleton_eq.
Defined.

Definition settingFile : string := linesText [headerText "Peer:a"; optionText "Name" "  " ":" ["x"; "y"]].

Lemma string_and_file_agree_witness :
  UpdateFromString "Peer:a.Name = x, y" ∅ = UpdateFromFile (H := filesOf {[ "b.conf" := settingFile ]} 3) "b.conf" ∅
  /\ UpdateFromFile (H := filesOf {[ "b.conf" := settingFile ]} 3) "b.conf" ∅ = (setOption "Peer:a" "Name" ["x"; "y"] ∅, Ret tt).
Proof.
  refine (string_and_file_agree "Peer:a" "Name" " " ["x"; "y"] _ _ _ _ _ _ (H := filesOf {[ "b.conf" := settingFile ]} 3) "b.conf" "  " ":" ∅ _ _ _ _ _).
  - chars.
  - done.
  - chars.
  - done.
  - chars.
  - constructor; [split; [done|chars]|constructor; [split; [done|chars]|constructor]].
  - chars.
  - by left.
  - by intros [_ ?].
  - cbn. lia.
  - cbn [ReadFile filesOf]. by rewrite lookup_singleton_eq.
Defined.

Lemma uint_options_fit_witness : FetchOptionValueUint16 (single "S" "n" (FormatUint 65536)) "S" "n" = Err plain.
Proof.
  destruct (uint_options_fit "S" "n" 65536) as (_ & _ & _ & Hv). destruct Hv as [Hv _]; [unfold two64; lia|]. exact Hv.
Defined.

Lemma uuid_roundtrip_witness :
  FetchOptionValueUUID (single "S" "u" (uuidText [0; 17; 34; 51; 68; 85; 102; 119; 136; 153; 170; 187; 204; 221; 238; 255])) "S" "u"
  = Ret [0; 17; 34; 51; 68; 85; 102; 119; 136; 153; 170; 187; 204; 221; 238; 255].
Proof.
  apply (uuid_roundtrip "S" "u" [0; 17; 34; 51; 68; 85; 102; 119; 136; 153; 170; 187; 204; 221; 238; 255]); [|done].
  repeat (constructor; [unfold is_byte; lia|]). constructor.
Defined.
