(* ===== verification/ConfNumbers.v ===== *)
(** Numbers of a configuration: floating-point numbers of Go and
    strconv.ParseFloat, and the option values that are made of them.

    A float64 is a [spec_float] of the standard library with 53 bits of
    precision and exponents below 1024, a float32 one with 24 and 128; the
    operations round to nearest even.  Comparisons with an integer constant and
    truncation are exact. *)

From S2P Require Import Prelude Blunder Utils GoStrings.
From Stdlib Require Import Ascii SpecFloat.
Open Scope list_scope.

Abbreviation float := spec_float.

(** The width of a type: precision and exponent bound. *)
Inductive floatWidth := Float32 | Float64.

Definition precOf (w : floatWidth) : Z := match w with Float32 => 24 | Float64 => 53 end.
Definition emaxOf (w : floatWidth) : Z := match w with Float32 => 128 | Float64 => 1024 end.

(** [float64(z)] of an integer. *)
Definition ofInt (w : floatWidth) (z : Z) : float := binary_normalize (precOf w) (emaxOf w) z 0 false.

Definition fmul (x y : float) : float := SFmul 53 1024 x y.
Definition fdiv (x y : float) : float := SFdiv 53 1024 x y.
Definition fadd (x y : float) : float := SFadd 53 1024 x y.

Definition half : float := fdiv (ofInt Float64 1) (ofInt Float64 2).

(** [n <= x] and [x < 0]; every comparison with a NaN is false. *)
Definition intLeFloat (n : Z) (x : float) : bool :=
  match x with
  | S754_nan => false
  | S754_infinity s => negb s
  | S754_zero _ => n <=? 0
  | S754_finite s m e =>
      let v := if s then Zneg m else Zpos m in
      if 0 <=? e then n <=? v * 2 ^ e else n * 2 ^ (- e) <=? v
  end.

Definition isNegative (x : float) : bool :=
  match x with
  | S754_infinity s => s
  | S754_finite s _ _ => s
  | _ => false
  end.

(** The integer part, for a value that has one. *)
Definition truncFloat (x : float) : option Z :=
  match x with
  | S754_zero _ => Some 0
  | S754_finite s m e =>
      let v := if 0 <=? e then Zpos m * 2 ^ e else Zpos m / 2 ^ (- e) in
      Some (if s then - v else v)
  | _ => None
  end.

(** ** strconv.ParseFloat *)

Fixpoint digitsOf (s : string) (n : Z) (count : Z) : Z * Z * string :=
  match s with
  | String c s' => match decValue c with Some v => digitsOf s' (n * 10 + v) (count + 1) | None => (n, count, s) end
  | EmptyString => (n, count, s)
  end.

(** An exponent stops growing at 10000. *)
Fixpoint exponentOf (s : string) (e : Z) : Z * string :=
  match s with
  | String c s' =>
      match decValue c with
      | Some v => exponentOf s' (if e <? 10000 then e * 10 + v else e)
      | None => (e, s)
      end
  | EmptyString => (e, s)
  end.

Definition signOf (s : string) : bool * string :=
  match s with
  | String c s' => if Ascii.eqb c "-" then (true, s') else if Ascii.eqb c "+" then (false, s') else (false, s)
  | EmptyString => (false, s)
  end.

Definition startsWithDigit (s : string) : bool :=
  match s with String c _ => match decValue c with Some _ => true | None => false end | EmptyString => false end.

(** Sign, digits as an integer, and the power of ten they are multiplied with. *)
Definition readDecimal (s : string) : option (bool * Z * Z) :=
  let '(negative, s) := signOf s in
  let '(n, count, s) := digitsOf s 0 0 in
  let '(n, fraction, count, s) :=
    match s with
    | String c s' => if Ascii.eqb c "."
                     then let '(n', count', s'') := digitsOf s' n 0 in (n', count', count + count', s'')
                     else (n, 0, count, s)
    | EmptyString => (n, 0, count, s)
    end in
  if count =? 0 then None
  else
    match s with
    | EmptyString => Some (negative, n, - fraction)
    | String c s' =>
        if Ascii.eqb c "e" || Ascii.eqb c "E" then
          let '(negativeExponent, s') := signOf s' in
          if startsWithDigit s' then
            let '(e, s') := exponentOf s' 0 in
            match s' with
            | EmptyString => Some (negative, n, (if negativeExponent then - e else e) - fraction)
            | _ => None
            end
          else None
        else None
    end.

Definition decimalDigits (n : Z) : Z := Z.of_nat (String.length (digitsLoop (S (Z.to_nat (Z.log2 n))) 10 n EmptyString)).

(** The float nearest to a decimal number; the decimal point decides when it is
    too far away. *)
Definition ofDecimal (w : floatWidth) (negative : bool) (n e : Z) : float :=
  match n with
  | Zpos m =>
      if 310 <? decimalDigits n + e then S754_infinity negative
      else if decimalDigits n + e <? -330 then S754_zero negative
      else if 0 <=? e then binary_round (precOf w) (emaxOf w) negative (m * Z.to_pos (10 ^ e)) 0
      else SFdiv (precOf w) (emaxOf w) (S754_finite negative m 0) (S754_finite false (Z.to_pos (10 ^ (- e))) 0)
  | _ => S754_zero negative
  end.

Definition specialFloat (s : string) : option float :=
  let l := ToLower s in
  if bool_decide (l ∈ ["inf"; "infinity"; "+inf"; "+infinity"]%string) then Some (S754_infinity false)
  else if bool_decide (l ∈ ["-inf"; "-infinity"]%string) then Some (S754_infinity true)
  else if bool_decide (l = "nan"%string) then Some S754_nan
  else None.

(** A number beyond the range of the type is an error. *)
Definition ParseFloat (s : string) (w : floatWidth) : res float :=
  match specialFloat s with
  | Some x => Ret x
  | None =>
      match readDecimal s with
      | None => Err plain
      | Some (negative, n, e) =>
          match ofDecimal w negative n e with
          | S754_infinity _ => Err plain
          | x => Ret x
          end
      end
  end.

Example parse_floats :
  ParseFloat "1" Float64 = Ret (ofInt Float64 1)
  /\ ParseFloat "0.5" Float64 = Ret half
  /\ ParseFloat "-2.5e1" Float64 = Ret (ofInt Float64 (-25))
  /\ ParseFloat ".25e2" Float64 = Ret (ofInt Float64 25)
  /\ ParseFloat "1e309" Float64 = Err plain
  /\ ParseFloat "1e39" Float32 = Err plain
  /\ ParseFloat "1e-400" Float64 = Ret (S754_zero false)
  /\ ParseFloat "0.1" Float64 = Ret (S754_finite false 7205759403792794 (-56))
  /\ ParseFloat "Inf" Float64 = Ret (S754_infinity false)
  /\ ParseFloat "NaN" Float64 = Ret S754_nan
  /\ ParseFloat "" Float64 = Err plain /\ ParseFloat "." Float64 = Err plain /\ ParseFloat "1e" Float64 = Err plain
  /\ ParseFloat "1x" Float64 = Err plain.
Proof. repeat split; vm_compute; reflexivity. Qed.

(** ** Facts *)

Lemma trunc_below n x v : truncFloat x = Some v -> isNegative x = false -> intLeFloat n x = false -> 0 < n -> 0 <= v < n.
Proof.
  destruct x as [s|s| |s m e]; cbn [truncFloat isNegative intLeFloat]; intros [= <-] Hs Hn ?; [lia|]. subst s.
  destruct (Z.leb_spec 0 e).
  - apply Z.leb_gt in Hn. split; [|lia]. apply Z.mul_nonneg_nonneg; [lia|]. apply Z.pow_nonneg. lia.
  - apply Z.leb_gt in Hn. assert (0 < 2 ^ (- e)) by (apply Z.pow_pos_nonneg; lia).
    split; [apply Z.div_pos; lia|]. apply Z.div_lt_upper_bound; lia.
Qed.

Lemma trunc_some x n : isNegative x = false -> intLeFloat n x = false -> x <> S754_nan -> exists v, truncFloat x = Some v.
Proof. destruct x as [s|[]| |s m e]; cbn; intros; simplify_eq; eauto; done. Qed.

From S2P Require Import Conf.

(** Package [conf]: option values that are fractions and durations (conf/api.go),
    and time.ParseDuration. *)

(** What the machine decides: the integers a NaN is converted to, and the size
    of its memory ([platform.MemSize]). *)
Class Machine := {
  nanToUint32 : Z;
  nanToUint64 : Z;
  MemSize : Z
}.

(** ** Fractions *)

Definition FetchOptionValueFloat (w : floatWidth) (confMap : ConfMap) (sectionName optionName : string) : res float :=
  optionValueString <- FetchOptionValueString confMap sectionName optionName ;; ParseFloat optionValueString w.

Definition FetchOptionValueFloat32 := FetchOptionValueFloat Float32.
Definition FetchOptionValueFloat64 := FetchOptionValueFloat Float64.

Section Scaled.
Context `{Machine}.

(** [limit] is the greatest value of the type, as a float64. *)
Definition scaleFloat (limit nan multiplier : Z) (optionValueFloat64 : float) : res Z :=
  if isNegative optionValueFloat64 then Err plain
  else
    let optionValueFloat64Scaled := fadd (fmul optionValueFloat64 (ofInt Float64 multiplier)) half in
    if intLeFloat limit optionValueFloat64Scaled then Err plain
    else Ret (default nan (truncFloat optionValueFloat64Scaled)).

Definition FetchOptionValueFloatScaledToUint32 (confMap : ConfMap) (sectionName optionName : string) (multiplier : Z) : res Z :=
  optionValueFloat64 <- FetchOptionValueFloat64 confMap sectionName optionName ;;
  scaleFloat (two32 - 1) nanToUint32 multiplier optionValueFloat64.

(** The greatest uint64 is rounded to 2^64 when it becomes a float64. *)
Definition FetchOptionValueFloatScaledToUint64 (confMap : ConfMap) (sectionName optionName : string) (multiplier : Z) : res Z :=
  optionValueFloat64 <- FetchOptionValueFloat64 confMap sectionName optionName ;;
  scaleFloat two64 nanToUint64 multiplier optionValueFloat64.
End Scaled.

(** ** time.ParseDuration *)

Definition maxInt64 : Z := 9223372036854775807.

(** [leadingInt]: the digits at the start; none when they do not fit. *)
Fixpoint leadingInt (s : string) (x : Z) : option (Z * string) :=
  match s with
  | String c s' =>
      match decValue c with
      | Some v =>
          if maxInt64 / 10 <? x then None
          else if maxInt64 <? x * 10 + v then None
          else leadingInt s' (x * 10 + v)
      | None => Some (x, s)
      end
  | EmptyString => Some (x, s)
  end.

(** [leadingFraction]: digits beyond the precision of the type are skipped. *)
Fixpoint leadingFraction (s : string) (x : Z) (scale : float) (overflow : bool) : Z * float * string :=
  match s with
  | String c s' =>
      match decValue c with
      | Some v =>
          if overflow || (maxInt64 / 10 <? x) || (maxInt64 <? x * 10 + v) then leadingFraction s' x scale true
          else leadingFraction s' (x * 10 + v) (fmul scale (ofInt Float64 10)) false
      | None => (x, scale, s)
      end
  | EmptyString => (x, scale, s)
  end.

Fixpoint takeUnit (s : string) : string * string :=
  match s with
  | String c s' =>
      if Ascii.eqb c "." then (EmptyString, s)
      else match decValue c with
           | Some _ => (EmptyString, s)
           | None => let '(u, rest) := takeUnit s' in (String c u, rest)
           end
  | EmptyString => (EmptyString, s)
  end.

Definition Nanosecond : Z := 1.
Definition Microsecond : Z := 1000.
Definition Millisecond : Z := 1000000.
Definition Second : Z := 1000000000.
Definition Minute : Z := 60000000000.
Definition Hour : Z := 3600000000000.

(** The micro sign and the Greek letter in UTF-8. *)
Definition unitMap (u : string) : option Z :=
  if bool_decide (u = "ns"%string) then Some Nanosecond
  else if bool_decide (u ∈ ["us"%string; ByteSliceToString [194; 181; 115]; ByteSliceToString [206; 188; 115]]) then Some Microsecond
  else if bool_decide (u = "ms"%string) then Some Millisecond
  else if bool_decide (u = "s"%string) then Some Second
  else if bool_decide (u = "m"%string) then Some Minute
  else if bool_decide (u = "h"%string) then Some Hour
  else None.

(** One number with its unit; what is left of the string. *)
Definition durationPart (s : string) : option (Z * string) :=
  match s with
  | EmptyString => None
  | String c _ =>
      if negb (Ascii.eqb c "." || startsWithDigit s) then None
      else match leadingInt s 0 with
           | None => None
           | Some (v, rest) =>
               let pre := negb (String.length s =? String.length rest)%nat in
               let '(f, scale, post, rest) :=
                 match rest with
                 | String c' rest' =>
                     if Ascii.eqb c' "." then
                       let '(f, scale, rest'') := leadingFraction rest' 0 (ofInt Float64 1) false in
                       (f, scale, negb (String.length rest' =? String.length rest'')%nat, rest'')
                     else (0, ofInt Float64 1, false, rest)
                 | EmptyString => (0, ofInt Float64 1, false, rest)
                 end in
               if negb pre && negb post then None
               else
                 let '(u, rest) := takeUnit rest in
                 match u, unitMap u with
                 | String _ _, Some unit =>
                     if maxInt64 / unit <? v then None
                     else
                       let v := v * unit in
                       let v := if 0 <? f
                                then v + default 0 (truncFloat (fmul (ofInt Float64 f) (fdiv (ofInt Float64 unit) scale)))
                                else v in
                       if maxInt64 <? v then None else Some (v, rest)
                 | _, _ => None
                 end
           end
  end.

Fixpoint durationLoop (fuel : nat) (s : string) (d : Z) : res Z :=
  match s with
  | EmptyString => Ret d
  | _ =>
      match fuel with
      | O => Panic
      | S fuel' =>
          match durationPart s with
          | None => Err plain
          | Some (v, rest) => if maxInt64 <? d + v then Err plain else durationLoop fuel' rest (d + v)
          end
      end
  end.

Definition ParseDuration (s : string) : res Z :=
  let '(neg, s) := signOf s in
  if bool_decide (s = "0"%string) then Ret 0
  else match s with
       | EmptyString => Err plain
       | _ => d <- durationLoop (String.length s) s 0 ;; Ret (if neg then - d else d)
       end.

(** A time.Duration is an int64 of nanoseconds; [Seconds] has its sign. *)
Definition FetchOptionValueDuration (confMap : ConfMap) (sectionName optionName : string) : res Z :=
  optionValueString <- FetchOptionValueString confMap sectionName optionName ;;
  optionValue <- ParseDuration optionValueString ;;
  if optionValue <? 0 then Err plain else Ret optionValue.

(** The value that is returned with an error: a time that is about zero, or the
    negative one. *)
Definition durationValue (confMap : ConfMap) (sectionName optionName : string) : Z :=
  match obind (FetchOptionValueString confMap sectionName optionName) ParseDuration with Ret d => d | _ => 0 end.

Example durations :
  ParseDuration "10s" = Ret (10 * Second)
  /\ ParseDuration "1h30m" = Ret (90 * Minute)
  /\ ParseDuration "1.5h" = Ret (90 * Minute)
  /\ ParseDuration ".25ms" = Ret (250 * Microsecond)
  /\ ParseDuration "-1m" = Ret (- Minute)
  /\ ParseDuration "0" = Ret 0
  /\ ParseDuration "10" = Err plain
  /\ ParseDuration ".s" = Err plain
  /\ ParseDuration "2562047h" = Ret (2562047 * Hour)
  /\ ParseDuration "2562048h" = Err plain
  /\ ParseDuration "9223372036854775808ns" = Err plain.
Proof. repeat split; vm_compute; reflexivity. Qed.
