(* ===== verification/ConfNumberFacts.v ===== *)
(** Fractions and durations of a configuration map: their ranges, percentages,
    and durations from their parts. *)

From S2P Require Import Prelude Blunder Utils GoStrings ConfNumbers Conf ConfFacts.
From Stdlib Require Import Ascii SpecFloat.
Open Scope list_scope.

(** ** Fractions *)

Lemma aux_not_negative prec emax m e l : isNegative (binary_round_aux prec emax false m e l) = false.
Proof.
  unfold binary_round_aux. destruct (shr_fexp prec emax m e l) as [mrs e'].
  destruct (shr_fexp _ _ _ _ _) as [mrs'' e'']. destruct (shr_m mrs''); [done| |done]. by case_match.
Qed.

Lemma round_not_negative prec emax m e : isNegative (binary_round prec emax false m e) = false.
Proof. unfold binary_round. destruct (shl_align _ _ _). apply aux_not_negative. Qed.

Lemma ofInt_not_negative w z : 0 <= z -> isNegative (ofInt w z) = false.
Proof. intros Hz. unfold ofInt. destruct z; [done|apply round_not_negative|lia]. Qed.

Lemma fmul_not_negative x y : isNegative x = false -> isNegative y = false -> isNegative (fmul x y) = false.
Proof. destruct x, y; cbn; intros; subst; try done. apply aux_not_negative. Qed.

Lemma fadd_not_negative x y : isNegative x = false -> isNegative y = false -> isNegative (fadd x y) = false.
Proof.
  destruct x as [[]|[]| |[] ? ?], y as [[]|[]| |[] ? ?]; cbn [isNegative]; intros; try done.
  unfold fadd, SFadd, cond_Zopp. cbn [Z.add binary_normalize]. apply round_not_negative.
Qed.

Lemma scaleFloat_range limit nan multiplier x v :
  0 < limit -> 0 <= multiplier -> scaleFloat limit nan multiplier x = Ret v -> v = nan \/ 0 <= v < limit.
Proof.
  unfold scaleFloat. destruct (isNegative x) eqn:Hx; [done|].
  assert (Hneg : 0 <= multiplier -> isNegative (fadd (fmul x (ofInt Float64 multiplier)) half) = false).
  { intros. apply fadd_not_negative; [|done]. apply fmul_not_negative; [done|]. by apply ofInt_not_negative. }
  set (y := fadd _ _) in *. intros Hl Hm. specialize (Hneg Hm).
  destruct (intLeFloat limit y) eqn:Hle; intros Hs; [done|]. destruct (truncFloat y) as [w|] eqn:Hw; cbn in Hs; simplify_eq; eauto.
  right. by eapply trunc_below.
Qed.

(** C35. A fraction of a configuration map that is scaled to an integer is in the
    range of its type, or is what the machine converts a NaN to; the greatest
    uint32 cannot be had, since the half that is added for rounding lifts it to
    the limit that is refused. *)
Theorem scaled_options_fit `{Machine} confMap section name multiplier v :
  0 <= multiplier ->
  (FetchOptionValueFloatScaledToUint32 confMap section name multiplier = Ret v -> v = nanToUint32 \/ 0 <= v < two32 - 1)
  /\ (FetchOptionValueFloatScaledToUint64 confMap section name multiplier = Ret v -> v = nanToUint64 \/ 0 <= v < two64).
Proof.
  intros Hm. unfold FetchOptionValueFloatScaledToUint32, FetchOptionValueFloatScaledToUint64, obind.
  split; intros Hf; destruct (FetchOptionValueFloat64 _ _ _); try done.
  - by apply scaleFloat_range in Hf.
  - by apply scaleFloat_range in Hf.
Qed.

(** The text of a fraction with two digits. *)
Definition percentText (k : Z) : string :=
  if k =? 100 then "1"%string else ("0." ++ String (asciiOfByte (48 + k / 10)) (String (asciiOfByte (48 + k mod 10)) ""))%string.

Definition machineOf (nan size : Z) : Machine := {| nanToUint32 := nan; nanToUint64 := nan; MemSize := size |}.

Definition percentRead (k : Z) : bool :=
  match ParseFloat (percentText k) Float64 with
  | Ret x => match scaleFloat two64 (-1) 100 x with Ret v => (v =? k) | _ => false end
  | _ => false
  end.

Lemma percents_read : forallb percentRead (map Z.of_nat (seq 0 101)) = true.
Proof. vm_compute. reflexivity. Qed.

Lemma scaleFloat_nan limit nan nan' multiplier x v : scaleFloat limit nan multiplier x = Ret v -> v <> nan ->
  scaleFloat limit nan' multiplier x = Ret v.
Proof.
  unfold scaleFloat. destruct (isNegative x); [done|]. destruct (intLeFloat _ _); [done|].
  by destruct (truncFloat _); cbn; intros; simplify_eq.
Qed.

(** Percentages are read exactly: a fraction of two digits, scaled by one
    hundred, is the number of its digits, for every one from 0.00 to 1, whatever
    the float64 nearest to it is. *)
Theorem percentages_exact `{Machine} section name k : 0 <= k <= 100 ->
  FetchOptionValueFloatScaledToUint64 (single section name (percentText k)) section name 100 = Ret k.
Proof.
  intros Hk. unfold FetchOptionValueFloatScaledToUint64, FetchOptionValueFloat64, FetchOptionValueFloat.
  rewrite fetch_single. cbn [obind].
  pose proof (proj1 (forallb_forall _ _) percents_read k) as Hr. unfold percentRead in Hr.
  destruct (ParseFloat (percentText k) Float64) as [x| |]; cbn [obind].
  2,3: discriminate Hr; apply in_map_iff; exists (Z.to_nat k); split; [lia|apply in_seq; lia].
  destruct (scaleFloat two64 (-1) 100 x) as [v| |] eqn:Hs.
  2,3: discriminate Hr; apply in_map_iff; exists (Z.to_nat k); split; [lia|apply in_seq; lia].
  assert (v = k) as -> by (apply Z.eqb_eq, Hr, in_map_iff; exists (Z.to_nat k); split; [lia|apply in_seq; lia]).
  eapply scaleFloat_nan; [done|lia].
Qed.

(** The word nan is a fraction: it is neither negative nor too large, and the
    result is whatever the machine makes of it. *)
Theorem nan_is_accepted `{Machine} section name multiplier :
  FetchOptionValueFloatScaledToUint64 (single section name "nan") section name multiplier = Ret nanToUint64.
Proof.
  unfold FetchOptionValueFloatScaledToUint64, FetchOptionValueFloat64, FetchOptionValueFloat. rewrite fetch_single. reflexivity.
Qed.

(** ** Durations *)

Definition notDigit (c : ascii) : Prop := decValue c = None /\ c <> "."%char.

(** What can follow a number, and what can follow a unit. *)
Definition headIs (P : ascii -> Prop) (s : string) : Prop := match s with EmptyString => True | String c _ => P c end.

Definition isDigit (c : ascii) : Prop := exists v, decValue c = Some v.

Lemma digitsLoop_app fuel base : forall v tail rest, digitsLoop fuel base v (tail +:+ rest) = digitsLoop fuel base v tail +:+ rest.
Proof.
  induction fuel as [|fuel IH]; intros v tail rest; [done|]. cbn [digitsLoop]. destruct (v <? base); [done|].
  apply (IH _ (String _ tail)).
Qed.

Lemma leadingInt_printed v rest : 0 <= v <= maxInt64 -> headIs (fun c => decValue c = None) rest ->
  leadingInt (FormatUint v +:+ rest) 0 = Some (v, rest).
Proof.
  intros Hv Hr. unfold FormatUint. rewrite <- (digitsLoop_app 64 10 v EmptyString rest).
  rewrite (digitsLoop_parse leadingInt 10 (maxInt64 + 1)); [|lia| |unfold maxInt64 in *; simpl; lia|lia].
  - destruct rest as [|c rest]; [done|]. cbn [headIs] in Hr. change (EmptyString +:+ String c rest) with (String c rest). cbn [leadingInt]. by rewrite Hr.
  - intros d s n Hd Hn Hlt. cbn [leadingInt]. rewrite decValue_digit by lia.
    destruct (Z.ltb_spec (maxInt64 / 10) n) as [Hgt|_].
    { exfalso. change (maxInt64 / 10) with 922337203685477580 in Hgt. unfold maxInt64 in *. lia. }
    destruct (Z.ltb_spec maxInt64 (n * 10 + d)); [lia|done].
Qed.

Definition units : list string := ["ns"; "us"; "ms"; "s"; "m"; "h"]%string.

Lemma unit_chars u : u ∈ units -> allChars notDigit u /\ u <> EmptyString.
Proof.
  intros Hu. enough (Forall (fun u => allChars notDigit u /\ u <> EmptyString) units) as Hf by (by eapply Forall_forall in Hf).
  repeat constructor; done.
Qed.

Lemma takeUnit_unit u rest : allChars notDigit u -> headIs isDigit rest -> takeUnit (u +:+ rest) = (u, rest).
Proof.
  intros Hu Hr. induction u as [|c u IH].
  - change (takeUnit rest = (EmptyString, rest)). destruct rest as [|c rest]; [done|]. destruct Hr as [v Hv]. cbn [takeUnit]. rewrite Hv. by destruct (Ascii.eqb c ".").
  - destruct Hu as [[Hd Hdot] Hu]. change (String c u +:+ rest) with (String c (u +:+ rest)). cbn [takeUnit]. rewrite Hd. destruct (Ascii.eqb_spec c "."); [done|].
    by rewrite IH.
Qed.

Lemma FormatUint_digit v : 0 <= v < two64 -> exists c s, FormatUint v = String c s /\ isDigit c.
Proof.
  intros Hv. pose proof (FormatUint_parse v Hv) as Hp. destruct (digitsLoop_cons 63 10 v) as (c & s & Hc).
  exists c, s. split; [exact Hc|]. unfold FormatUint in Hp. rewrite Hc in Hp. cbn in Hp. unfold isDigit.
  destruct (decValue c); [eauto|done].
Qed.

Lemma digit_not_dot c : isDigit c -> Ascii.eqb c "." = false.
Proof. intros [v Hv]. destruct (Ascii.eqb_spec c "."); [by subst|done]. Qed.

Lemma length_string_app a b : String.length (a +:+ b) = (String.length a + String.length b)%nat.
Proof. apply ConfFacts.length_app. Qed.

(** A part of a duration that is written with its unit. *)
Definition part_ok (p : Z * string) : Prop :=
  0 <= p.1 /\ p.2 ∈ units /\ exists unit, unitMap p.2 = Some unit /\ p.1 * unit <= maxInt64.

Definition partValue (p : Z * string) : Z := p.1 * default 0 (unitMap p.2).

Definition partText (p : Z * string) : string := FormatUint p.1 +:+ p.2.

Lemma unit_positive u unit : unitMap u = Some unit -> 0 < unit.
Proof. unfold unitMap. repeat case_bool_decide; intros [= <-]; reflexivity. Qed.

Lemma part_fits p : part_ok p -> p.1 <= maxInt64 /\ 0 <= partValue p <= maxInt64.
Proof.
  intros (H0 & _ & unit & Hu & Hm). pose proof (unit_positive _ _ Hu). unfold partValue. rewrite Hu. cbn. nia.
Qed.

Lemma unit_head u rest : u ∈ units -> headIs notDigit (u +:+ rest).
Proof. intros Hu. destruct (unit_chars u Hu) as [Hc Hne]. destruct u; [done|]. apply Hc. Qed.

Lemma durationPart_printed p rest : part_ok p -> headIs isDigit rest ->
  durationPart (partText p +:+ rest) = Some (partValue p, rest).
Proof.
  intros Hp Hr. pose proof (part_fits p Hp) as [Hmax Hval]. destruct Hp as (H0 & Hu & unit & Hunit & Hm).
  destruct (FormatUint_digit p.1 ltac:(unfold maxInt64, two64 in *; lia)) as (c & s & Hf & Hc).
  pose proof (unit_head p.2 rest Hu) as Hh. destruct (unit_chars p.2 Hu) as [Hchars Hne]. unfold partText. rewrite <- string_app_assoc.
  pose proof (leadingInt_printed p.1 (p.2 +:+ rest) ltac:(lia)) as Hl. rewrite Hf in Hl |- *.
  change (String c s +:+ ?r) with (String c (s +:+ r)) in Hl |- *.
  unfold durationPart. replace (startsWithDigit (String c _)) with true by (unfold startsWithDigit; destruct Hc as [v ->]; done).
  rewrite orb_true_r. cbn [negb]. rewrite Hl by (destruct (p.2 +:+ rest); [done|apply Hh]).
  destruct (p.2 +:+ rest) as [|c' rest'] eqn:Hpr.
  { destruct p.2; [done|discriminate]. }
  destruct Hh as [Hd Hdot]. destruct (Ascii.eqb_spec c' "."); [done|]. rewrite <- Hpr, takeUnit_unit by done.
  replace (_ =? _)%nat with false.
  - cbn [negb andb]. cbv beta iota zeta. unfold partValue. pose proof (unit_positive _ _ Hunit).
    destruct p.2 as [|a u]; [done|]. rewrite Hunit. rewrite !Z.ltb_irrefl.
    assert (p.1 <= maxInt64 / unit) by (apply Z.div_le_lower_bound; lia).
    destruct (Z.ltb_spec (maxInt64 / unit) p.1); [lia|]. by destruct (Z.ltb_spec maxInt64 (p.1 * unit)); [lia|].
  - symmetry. apply Nat.eqb_neq. cbn [String.length]. rewrite length_string_app. cbn. lia.
Qed.

Definition partsText (parts : list (Z * string)) : string := String.concat "" (map partText parts).

Lemma partsText_cons p parts : partsText (p :: parts) = partText p +:+ partsText parts.
Proof. apply concat_cons. Qed.

Lemma partsText_head parts : Forall part_ok parts -> headIs isDigit (partsText parts).
Proof.
  destruct 1 as [|p parts Hp _]; [done|]. rewrite partsText_cons. pose proof (part_fits p Hp) as [Hmax _]. destruct Hp as (H0 & _).
  destruct (FormatUint_digit p.1 ltac:(unfold maxInt64, two64 in *; lia)) as (c & s & Hf & Hc). unfold partText. by rewrite Hf.
Qed.

Lemma durationLoop_printed parts : Forall part_ok parts -> forall fuel d, (String.length (partsText parts) <= fuel)%nat ->
  0 <= d -> foldr Z.add d (map partValue parts) <= maxInt64 ->
  durationLoop fuel (partsText parts) d = Ret (foldr Z.add d (map partValue parts)).
Proof.
  induction 1 as [|p parts Hp Hps IH]; intros fuel d Hf H0 Hsum; [by destruct fuel|].
  assert (Hge : forall ps e, Forall part_ok ps -> e <= foldr Z.add e (map partValue ps)).
  { induction 1 as [|q ps Hq _ IHq]; cbn; [lia|]. pose proof (part_fits q Hq). lia. }
  assert (Hshift : forall ps e f, foldr Z.add (e + f) (map partValue ps) = f + foldr Z.add e (map partValue ps)).
  { induction ps as [|q ps IHq]; intros e f; cbn; [lia|]. rewrite IHq. lia. }
  pose proof (part_fits p Hp) as [Hmax Hval]. rewrite partsText_cons in Hf |- *. cbn [map foldr] in Hsum |- *.
  destruct (FormatUint_digit p.1 ltac:(destruct Hp; unfold maxInt64, two64 in *; lia)) as (c & s & Hfmt & _).
  destruct (partText p +:+ partsText parts) as [|c' t] eqn:Ht; [unfold partText in Ht; by rewrite Hfmt in Ht|].
  destruct fuel as [|fuel]; [cbn in Hf; lia|]. cbn [durationLoop]. rewrite <- Ht, durationPart_printed by (done || by apply partsText_head).
  specialize (Hge parts (d + partValue p) Hps). rewrite Hshift in Hge.
  destruct (Z.ltb_spec maxInt64 (d + partValue p)); [lia|]. rewrite IH; [by rewrite Hshift| |lia|rewrite Hshift; lia].
  apply (f_equal String.length) in Ht. unfold partText in Ht. rewrite !length_string_app, Hfmt in Ht. cbn [String.length] in Ht, Hf. lia.
Qed.

(** A duration is the sum of its parts: numbers that are written each with
    its unit, one after the other, are read as the sum of the times they stand
    for, whenever it fits an int64; with a minus sign in front the option is
    refused unless the sum is zero. *)
Theorem durations_add_up section name parts :
  parts <> [] -> Forall part_ok parts -> foldr Z.add 0 (map partValue parts) <= maxInt64 ->
  let total := foldr Z.add 0 (map partValue parts) in
  FetchOptionValueDuration (single section name (partsText parts)) section name = Ret total
  /\ FetchOptionValueDuration (single section name ("-" ++ partsText parts)) section name
     = if total =? 0 then Ret 0 else Err plain.
Proof.
  intros Hne Hps Hsum total. unfold FetchOptionValueDuration. rewrite !fetch_single. cbn [obind].
  assert (Htotal : 0 <= total).
  { unfold total. clear -Hps. induction Hps as [|q ps Hq _ IHq]; cbn; [lia|]. pose proof (part_fits q Hq). lia. }
  pose proof (durationLoop_printed parts Hps (String.length (partsText parts)) 0 (le_n _) (Z.le_refl 0) Hsum) as Hl.
  pose proof (partsText_head parts Hps) as Hh.
  destruct parts as [|p parts]; [done|]. apply Forall_inv in Hps as Hp. pose proof (part_fits p Hp) as [Hmax _].
  destruct (FormatUint_digit p.1 ltac:(destruct Hp; unfold maxInt64, two64 in *; lia)) as (c & s & Hfmt & Hc).
  assert (Ht : exists c' c'' t, partsText (p :: parts) = String c' (String c'' t)).
  { rewrite partsText_cons. unfold partText. rewrite Hfmt. destruct (unit_chars p.2 (proj1 (proj2 Hp))) as [_ Hu].
    destruct s as [|c'' s]; [|by exists c, c'', (s +:+ p.2 +:+ partsText parts)%string; rewrite string_app_assoc].
    destruct p.2 as [|u us]; [done|]. by exists c, u, (us +:+ partsText parts). }
  destruct Ht as (c' & c'' & t & Ht). rewrite Ht in Hl, Hh |- *. cbn [headIs] in Hh.
  assert (Hsign : signOf (String c' (String c'' t)) = (false, String c' (String c'' t))).
  { unfold signOf. destruct Hh as [v Hv]. destruct (Ascii.eqb_spec c' "-"); [subst; discriminate Hv|].
    destruct (Ascii.eqb_spec c' "+"); [subst; discriminate Hv|done]. }
  unfold ParseDuration. rewrite Hsign.
  change (signOf ("-" +:+ String c' (String c'' t))) with (true, String c' (String c'' t)). cbn beta iota.
  rewrite bool_decide_false by (intros [=]). fold total in Hl. rewrite Hl. cbn [obind]. clear Hl. clearbody total.
  split; [by destruct (Z.ltb_spec total 0); [lia|]|]. destruct (Z.eqb_spec total 0) as [->|]; [reflexivity|].
  destruct (Z.ltb_spec (- total) 0); [done|lia].
Qed.

(** ** Concrete values *)

#[local] Instance sampleMachine : Machine := machineOf (2 ^ 63) (2 ^ 34).

Lemma scaled_options_fit_witness :
  0 <= 100 /\ FetchOptionValueFloatScaledToUint32 (single "Peer:a" "ReadCacheQuotaFraction" "0.20") "Peer:a" "ReadCacheQuotaFraction" 100 = Ret 20
  /\ (20 = nanToUint32 \/ 0 <= 20 < two32 - 1).
Proof.
  split; [lia|]. assert (Hr : FetchOptionValueFloatScaledToUint32 (single "Peer:a" "ReadCacheQuotaFraction" "0.20") "Peer:a" "ReadCacheQuotaFraction" 100 = Ret 20)
    by (vm_compute; reflexivity).
  split; [exact Hr|]. exact (proj1 (scaled_options_fit _ "Peer:a" "ReadCacheQuotaFraction" 100 20 ltac:(lia)) Hr).
Defined.

Lemma percentages_exact_witness :
  0 <= 29 <= 100 /\ FetchOptionValueFloatScaledToUint64 (single "Peer:a" "ReadCacheQuotaFraction" "0.29") "Peer:a" "ReadCacheQuotaFraction" 100 = Ret 29.
Proof. split; [lia|]. exact (percentages_exact "Peer:a" "ReadCacheQuotaFraction" 29 ltac:(lia)). Defined.

Definition sampleParts : list (Z * string) := [(1, "h"%string); (30, "m"%string); (250, "ms"%string)].

Lemma sampleParts_ok : Forall part_ok sampleParts.
Proof.
  repeat constructor; cbn; [lia|..]; try lia.
  all: try (eexists; split; [reflexivity|discriminate]).
  all: repeat ((by left) || right).
Qed.

Lemma durations_add_up_witness :
  Forall part_ok sampleParts
  /\ FetchOptionValueDuration (single "V" "CheckpointInterval" (partsText sampleParts)) "V" "CheckpointInterval" = Ret 5400250000000.
Proof.
  split; [exact sampleParts_ok|].
  exact (proj1 (durations_add_up "V" "CheckpointInterval" sampleParts ltac:(discriminate) sampleParts_ok ltac:(discriminate))).
Defined.
