(* ===== verification/ConfSections.v ===== *)
(** The names of the sections of a configuration map (utils/api.go), and what
    every package reads from it: the peer a volume belongs to.

    The order in which Go ranges over a map is not determined: [MapRange]. *)

From S2P Require Import Prelude Blunder Utils GoStrings Conf.
Open Scope list_scope.

(** Sections are namespaced unless one is named like this peer; the four
    prefixes of the package change together. *)
Definition sectionName (namespaced : bool) (prefix name : string) : string := if namespaced then (prefix ++ name)%string else name.

Definition VolumeNameConfSection (namespaced : bool) : string -> string := sectionName namespaced "Volume:".
Definition PhysicalContainerLayoutNameConfSection (namespaced : bool) : string -> string :=
  sectionName namespaced "PhysicalContainerLayout:".
Definition FlowControlNameConfSection (namespaced : bool) : string -> string := sectionName namespaced "FlowControl:".
Definition PeerNameConfSection (namespaced : bool) : string -> string := sectionName namespaced "Peer:".

Definition AdjustConfSectionNamespacingAsNecessary (confMap : ConfMap) : res bool :=
  unNamespacedWhoAmISectionName <- FetchOptionValueString confMap "Cluster" "WhoAmI" ;;
  let unNamespacedWhoAmISectionExists := bool_decide (is_Some (confMap !! unNamespacedWhoAmISectionName)) in
  let namespacedWhoAmISectionExists := bool_decide (is_Some (confMap !! ("Peer:" ++ unNamespacedWhoAmISectionName)%string)) in
  if Bool.eqb unNamespacedWhoAmISectionExists namespacedWhoAmISectionExists then Err plain
  else Ret (negb unNamespacedWhoAmISectionExists).

(** The names of the volumes, and the peer of one: none, or the only value. *)
Definition volumeListOf (confMap : ConfMap) : res (list string) := FetchOptionValueStringSlice confMap "FSGlobals" "VolumeList".

Definition primaryPeerOf (confMap : ConfMap) (namespaced : bool) (volumeName : string) : res (option string) :=
  primaryPeerList <- FetchOptionValueStringSlice confMap (VolumeNameConfSection namespaced volumeName) "PrimaryPeer" ;;
  match primaryPeerList with
  | [] => Ret None
  | [primaryPeer] => Ret (Some primaryPeer)
  | _ => Err plain
  end.

(** [x, err = f()]: a variable gets the zero value of its type when the call
    fails, and the caller returns. *)
Definition assign {S A} (m : res A) (zero : A) (f : A -> S -> S) : St S error unit :=
  fun s => match m with Ret a => (f a s, Ret tt) | Err e => (f zero s, Err e) | Panic => (s, Panic) end.

Lemma assign_ret {S A} (m : res A) zero (f : A -> S -> S) s s' : assign m zero f s = (s', Ret tt) -> exists a, m = Ret a /\ s' = f a s.
Proof. unfold assign. destruct m; intros [= <-]. eauto. Qed.

(** Peels the first call off a sequence that ended without an error. *)
Ltac ret_step H :=
  let s := fresh "s" in let a := fresh "a" in let E := fresh "E" in
  apply sbind_ret_inv in H as (s & a & E & H);
  lazymatch type of E with
  | slift _ _ = _ => injection E as <- E
  | sget _ = _ => injection E as <- <-
  | smod _ _ = _ => injection E as <- <-
  | sret _ _ = _ => injection E as <- <-
  | assign _ _ _ _ = _ => destruct a; apply assign_ret in E as (a & E & ->)
  | _ => idtac
  end.

(** The order of [for name = range set]. *)
Class MapRange := { rangeKeys : gset string -> list string }.

Class MapRangeOk `{MapRange} := { rangeKeys_perm X : rangeKeys X ≡ₚ elements X }.

#[export] Instance elementsRange : MapRange := {| rangeKeys := elements |}.

#[export] Instance elementsRangeOk : MapRangeOk (H := elementsRange).
Proof. by split. Qed.

Lemma rangeKeys_elem `{MapRangeOk} X name : name ∈ rangeKeys X <-> name ∈ X.
Proof. by rewrite rangeKeys_perm, elem_of_elements. Qed.

Lemma rangeKeys_nodup `{MapRangeOk} X : NoDup (rangeKeys X).
Proof. rewrite rangeKeys_perm. apply NoDup_elements. Qed.

(** The volumes of the list that this peer serves: [updatedVolumeMap]. *)
Fixpoint servedVolumes (confMap : ConfMap) (namespaced : bool) (whoAmI : string) (volumeList : list string) : res (gset string) :=
  match volumeList with
  | [] => Ret ∅
  | volumeName :: rest =>
      primaryPeer <- primaryPeerOf confMap namespaced volumeName ;;
      updatedVolumeMap <- servedVolumes confMap namespaced whoAmI rest ;;
      Ret (if bool_decide (primaryPeer = Some whoAmI) then {[volumeName]} ∪ updatedVolumeMap else updatedVolumeMap)
  end.

(** A volume of the list is handed to [body] when this peer is its primary peer. *)
Definition ifPrimary {S} (confMap : ConfMap) (namespaced : bool) (whoAmI volumeName : string) (body : St S error unit) : St S error unit :=
  primaryPeer <~ slift (primaryPeerOf confMap namespaced volumeName) ;;
  if bool_decide (primaryPeer = Some whoAmI) then body else sret tt.

(** ** Facts *)

Lemma servedVolumes_elem confMap namespaced whoAmI volumeList X :
  servedVolumes confMap namespaced whoAmI volumeList = Ret X ->
  forall volumeName, volumeName ∈ X <->
    volumeName ∈ volumeList /\ primaryPeerOf confMap namespaced volumeName = Ret (Some whoAmI).
Proof.
  revert X. induction volumeList as [|name rest IH]; cbn [servedVolumes]; intros X Hs volumeName.
  - injection Hs as <-. split; [intros Hin; by apply elem_of_empty in Hin|intros [Hin _]; by apply elem_of_nil in Hin].
  - destruct (primaryPeerOf confMap namespaced name) as [p| |] eqn:Hp; cbn [obind] in Hs; try done.
    destruct (servedVolumes _ _ _ rest) as [s| |]; cbn [obind] in Hs; try done. injection Hs as <-.
    specialize (IH s eq_refl volumeName). rewrite elem_of_cons. case_bool_decide; subst.
    + rewrite elem_of_union, elem_of_singleton, IH. split; [intros [->|[? ?]]; auto|]. intros [[->|?] ?]; auto.
    + rewrite IH. split; [intros [? ?]; auto|]. intros [[->|?] Hq]; [|auto]. congruence.
Qed.

(** The specification of a configuration: the volumes a peer serves. *)
Definition servedHere (confMap : ConfMap) (namespaced : bool) (whoAmI volumeName : string) : bool :=
  match primaryPeerOf confMap namespaced volumeName with Ret p => bool_decide (p = Some whoAmI) | _ => false end.

Definition servedBy (confMap : ConfMap) (namespaced : bool) (whoAmI : string) : gset string :=
  match volumeListOf confMap with
  | Ret volumeList => list_to_set (List.filter (servedHere confMap namespaced whoAmI) volumeList)
  | _ => ∅
  end.

Lemma servedHere_true confMap namespaced whoAmI volumeName :
  servedHere confMap namespaced whoAmI volumeName = true <-> primaryPeerOf confMap namespaced volumeName = Ret (Some whoAmI).
Proof.
  unfold servedHere. destruct (primaryPeerOf _ _ _); [|split; discriminate..]. rewrite bool_decide_eq_true. split; [by intros ->|congruence].
Qed.

Lemma servedBy_elem confMap namespaced whoAmI volumeList volumeName : volumeListOf confMap = Ret volumeList ->
  volumeName ∈ servedBy confMap namespaced whoAmI <->
  volumeName ∈ volumeList /\ primaryPeerOf confMap namespaced volumeName = Ret (Some whoAmI).
Proof.
  intros Hl. unfold servedBy. rewrite Hl, elem_of_list_to_set, !list_elem_of_In, filter_In. by rewrite servedHere_true.
Qed.

Lemma ifPrimary_ret {S} confMap namespaced whoAmI volumeName body (s s' : S) :
  ifPrimary confMap namespaced whoAmI volumeName body s = (s', Ret tt) ->
  primaryPeerOf confMap namespaced volumeName = Ret (Some whoAmI) /\ body s = (s', Ret tt)
  \/ primaryPeerOf confMap namespaced volumeName <> Ret (Some whoAmI) /\ s' = s.
Proof.
  unfold ifPrimary. intros HR. ret_step HR. case_bool_decide as Hp; subst; [by left|]. injection HR as <-. right. split; [congruence|done].
Qed.

(** The loops of the packages over the list: [P X] holds of the state once the
    volumes [X] of this peer were visited. *)
Lemma visitLoop_ind {S} (P : gset string -> S -> Prop) confMap namespaced whoAmI volumeList (visit : string -> St S error unit) (s s' : S) :
  volumeListOf confMap = Ret volumeList -> P ∅ s ->
  (forall X name u u', P X u -> visit name u = (u', Ret tt) ->
     primaryPeerOf confMap namespaced name = Ret (Some whoAmI) /\ P ({[name]} ∪ X) u'
     \/ primaryPeerOf confMap namespaced name <> Ret (Some whoAmI) /\ P X u') ->
  sfor volumeList visit s = (s', Ret tt) ->
  P (servedBy confMap namespaced whoAmI) s'.
Proof.
  intros Hl H0 Hstep HR. unfold servedBy. rewrite Hl.
  refine (sfor_ret_ind (fun don => P (list_to_set (List.filter (servedHere confMap namespaced whoAmI) don))) _ _ _ _ H0 _ HR).
  intros don x s1 s2 Hx Hs Hb. rewrite List.filter_app. cbn [List.filter]. destruct (Hstep _ _ _ _ Hs Hb) as [[Hp HP]|[Hp HP]].
  - apply servedHere_true in Hp. rewrite Hp, list_to_set_app_L. cbn. by rewrite union_empty_r_L, (union_comm_L _ {[x]}).
  - destruct (servedHere confMap namespaced whoAmI x) eqn:Hq; [by apply servedHere_true in Hq|]. by rewrite app_nil_r.
Qed.

Lemma servedLoop_ind {S} (P : gset string -> S -> Prop) confMap namespaced whoAmI volumeList body (s s' : S) :
  volumeListOf confMap = Ret volumeList -> P ∅ s ->
  (forall X name u u', P X u -> body name u = (u', Ret tt) -> P ({[name]} ∪ X) u') ->
  sfor volumeList (fun volumeName => ifPrimary confMap namespaced whoAmI volumeName (body volumeName)) s = (s', Ret tt) ->
  P (servedBy confMap namespaced whoAmI) s'.
Proof.
  intros Hl H0 Hstep HR. refine (visitLoop_ind P _ _ _ _ _ _ _ Hl H0 _ HR).
  intros X name u u' HP [[Hp Hb]|[Hp ->]]%ifPrimary_ret; [left|by right]. split; [done|by eapply Hstep].
Qed.
