(* ===== verification/NodeProgram.v ===== *)
(** Programs over the nodes of a persistent B+Tree.

    A [sortedmap] B+Tree reads, writes and discards its nodes through three
    callbacks its owner implements ([GetNode], [PutNode], [DiscardNode]); a
    tree operation is therefore a program whose only effects are these calls.
    [headhunter] implements them on its checkpoint object, [inode] on the
    volume handle. *)

From S2P Require Import Prelude Blunder.

Inductive nodeProg (A : Type) : Type :=
| NDone (a : A)
| NGet (objectNumber objectOffset objectLength : Z) (k : error + bytes -> nodeProg A)
| NPut (nodeByteSlice : bytes) (k : error + Z * Z -> nodeProg A)
| NDiscard (objectNumber objectOffset objectLength : Z) (k : error + unit -> nodeProg A).
Arguments NDone {A} a.
Arguments NGet {A} objectNumber objectOffset objectLength k.
Arguments NPut {A} nodeByteSlice k.
Arguments NDiscard {A} objectNumber objectOffset objectLength k.

Section RunNode.
Context {V : Type}.
Context (GetNode : Z -> Z -> Z -> St V error bytes).
Context (PutNode : bytes -> St V error (Z * Z)).
Context (DiscardNode : Z -> Z -> Z -> St V error unit).

(** Runs a tree operation with its owner's callbacks. *)
Fixpoint runNodes {A} (p : nodeProg A) : St V error A :=
  match p with
  | NDone a => sret a
  | NGet n o l k => r <~ stry (GetNode n o l) ;; runNodes (k r)
  | NPut b k => r <~ stry (PutNode b) ;; runNodes (k r)
  | NDiscard n o l k => r <~ stry (DiscardNode n o l) ;; runNodes (k r)
  end.

Lemma keeps_runNodes (R : V -> V -> Prop) `{!PreOrder R} :
  (forall n o l, keeps R (GetNode n o l)) -> (forall b, keeps R (PutNode b)) ->
  (forall n o l, keeps R (DiscardNode n o l)) ->
  forall A (p : nodeProg A), keeps R (runNodes p).
Proof.
  intros Hg Hp Hd A p. induction p; cbn [runNodes]; [by apply keeps_ret|..];
    (apply keeps_bind; [done | by apply keeps_try | done]).
Qed.
End RunNode.
