(* ===== verification/InodeTypes.v ===== *)
(** Package [inode]: the data of an inode, in memory and on disk.

    Field names are the source's.  [payload] is the B+Tree of a directory
    (entry name to inode number) or of a file (file offset to extent).
    Times are nanosecond counts; mutexes and wait groups are left to the step
    relations of the components that need interleavings. *)

From S2P Require Import Prelude SortedMap Blunder.

Definition DirType : Z := 4.
Definition FileType : Z := 8.
Definition SymlinkType : Z := 10.

Definition RootDirInodeNumber : Z := 1.

Record fileExtentStruct := mkExtent {
  FileOffset : Z;
  Length : Z;
  LogSegmentNumber : Z;
  LogSegmentOffset : Z
}.

#[export] Instance eta_fileExtentStruct : Eta fileExtentStruct := fun e =>
  mkExtent (FileOffset e) (Length e) (LogSegmentNumber e) (LogSegmentOffset e).

Inductive payload_t :=
| NoPayload
| DirPayload (entries : list (string * Z))
| FilePayload (extents : list (Z * fileExtentStruct)).

Record onDiskInodeV1Struct := mkOnDisk {
  InodeNumber : Z;
  InodeType : Z;
  LinkCount : Z;
  Size : Z;
  CreationTime : Z;
  ModificationTime : Z;
  AccessTime : Z;
  AttrChangeTime : Z;
  NumWrites : Z;
  Mode : Z;
  UserID : Z;
  GroupID : Z;
  StreamMap : gmap string bytes;
  PayloadObjectNumber : Z;
  PayloadObjectLength : Z;
  SymlinkTarget : string;
  LogSegmentMap : gmap Z Z
}.

#[export] Instance eta_onDisk : Eta onDiskInodeV1Struct := fun o =>
  mkOnDisk (InodeNumber o) (InodeType o) (LinkCount o) (Size o) (CreationTime o)
    (ModificationTime o) (AccessTime o) (AttrChangeTime o) (NumWrites o) (Mode o)
    (UserID o) (GroupID o) (StreamMap o) (PayloadObjectNumber o)
    (PayloadObjectLength o) (SymlinkTarget o) (LogSegmentMap o).

(** [inFlightLogSegmentStruct]: [ifl_context] is the embedded chunked PUT
    context, nil until it has been fetched. *)
Record inFlightLogSegmentStruct := mkInFlight {
  ifl_logSegmentNumber : Z;
  ifl_accountName : string;
  ifl_containerName : string;
  ifl_objectName : string;
  ifl_context : option Z
}.

#[export] Instance eta_inFlight : Eta inFlightLogSegmentStruct := fun i =>
  mkInFlight (ifl_logSegmentNumber i) (ifl_accountName i) (ifl_containerName i)
    (ifl_objectName i) (ifl_context i).

(** [flushing] lists the log segments handed to an
    [inFlightLogSegmentFlusher] goroutine that is not done: the count of the
    embedded wait group is its length. *)
Record inMemoryInodeStruct := mkInode {
  dirty : bool;
  payload : payload_t;
  openLogSegment : option Z;
  inFlightLogSegmentMap : gmap Z inFlightLogSegmentStruct;
  inFlightLogSegmentErrors : gmap Z error;
  flushing : list Z;
  onDisk : onDiskInodeV1Struct
}.

#[export] Instance eta_inode : Eta inMemoryInodeStruct := fun i =>
  mkInode (dirty i) (payload i) (openLogSegment i) (inFlightLogSegmentMap i)
    (inFlightLogSegmentErrors i) (flushing i) (onDisk i).

(** [inode.payload.(sortedmap.BPlusTree)] followed by the assertion that its
    values are extents, or inode numbers: a wrong type panics. *)
Definition fileExtents (inode : inMemoryInodeStruct) : res (list (Z * fileExtentStruct)) :=
  match payload inode with
  | FilePayload extents => Ret extents
  | _ => Panic
  end.

Definition dirEntriesOf (inode : inMemoryInodeStruct) : res (list (string * Z)) :=
  match payload inode with
  | DirPayload entries => Ret entries
  | _ => Panic
  end.

Record ReadPlanStep := mkStep {
  rps_LogSegmentNumber : Z;
  rps_Offset : Z;
  rps_Length : Z;
  rps_AccountName : string;
  rps_ContainerName : string;
  rps_ObjectName : string;
  rps_ObjectPath : string
}.
