(* ===== verification/Extents.v ===== *)
(** Package [inode], file.go: the extents of a file.

    A file's B+Tree maps a file offset to an extent of a log segment.  This
    file models the routines that update it ([recordWrite],
    [setSizeInMemory], the byte counts per log segment) and the one that reads
    it ([getReadPlanHelper]), and proves that they implement a map from file
    positions to log segment positions. *)

From S2P Require Import Prelude SortedMap Blunder InodeTypes.

(** ** The code *)

Definition fileLen (extents : list (Z * fileExtentStruct)) : res Z :=
  let numExtents := Len extents in
  if numExtents =? 0 then Ret 0
  else
    '(_, lastFileExtent) <- must (GetByIndex extents (numExtents - 1)) ;;
    Ret (FileOffset lastFileExtent +u Length lastFileExtent).

Definition incrementLogSegmentMapFileData (lsm : gmap Z Z) (logSegmentNumber incrementAmount : Z) : gmap Z Z :=
  match lsm !! logSegmentNumber with
  | Some logSegmentRecord => <[logSegmentNumber := logSegmentRecord +u incrementAmount]> lsm
  | None => <[logSegmentNumber := incrementAmount]> lsm
  end.

Definition decrementLogSegmentMapFileData (lsm : gmap Z Z) (logSegmentNumber decrementAmount : Z) : res (gmap Z Z) :=
  match lsm !! logSegmentNumber with
  | Some logSegmentRecord =>
      if logSegmentRecord <? decrementAmount then Panic
      else Ret (<[logSegmentNumber := logSegmentRecord -u decrementAmount]> lsm)
  | None => Panic
  end.

(** The loop of [setSizeInMemory] that deletes every extent from
    [extentIndex] on; one extent per iteration. *)
Fixpoint truncateLoop (fuel : nat) (extents : list (Z * fileExtentStruct)) (lsm : gmap Z Z)
    (extentIndex : Z) : res (list (Z * fileExtentStruct) * gmap Z Z) :=
  match fuel with
  | O => Panic
  | S fuel' =>
      match GetByIndex extents extentIndex with
      | None => Ret (extents, lsm)
      | Some (_, extent) =>
          lsm' <- decrementLogSegmentMapFileData lsm (LogSegmentNumber extent) (Length extent) ;;
          extents' <- must (DeleteByIndex extents extentIndex) ;;
          truncateLoop fuel' extents' lsm' extentIndex
      end
  end.

(** [setSizeInMemory] up to that loop: the extent that starts before [size]
    is trimmed if it reaches beyond it. *)
Definition trimPreceding (extents : list (Z * fileExtentStruct)) (lsm : gmap Z Z) (size : Z)
    : res (list (Z * fileExtentStruct) * gmap Z Z * Z) :=
  let '(extentIndex, found) := BisectLeft extents size in
  if found then Ret (extents, lsm, extentIndex)
  else
    '(extents, lsm) <-
      (if 0 <=? extentIndex then
         '(_, extent) <- must (GetByIndex extents extentIndex) ;;
         if size <? FileOffset extent +u Length extent then
           let trimSize := Length extent -u (size -u FileOffset extent) in
           let extent' := extent <| Length := Length extent -u trimSize |> in
           extents' <- must (PatchByIndex extents extentIndex extent') ;;
           lsm' <- decrementLogSegmentMapFileData lsm (LogSegmentNumber extent') trimSize ;;
           Ret (extents', lsm')
         else Ret (extents, lsm)
       else Ret (extents, lsm)) ;;
    Ret (extents, lsm, extentIndex + 1).

Definition setSizeInMemory (updateTime : Z) (fileInode : inMemoryInodeStruct) (size : Z) : res inMemoryInodeStruct :=
  extents <- fileExtents fileInode ;;
  '(extents, lsm, extentIndex) <- trimPreceding extents (LogSegmentMap (onDisk fileInode)) size ;;
  '(extents, lsm) <- truncateLoop (S (length extents)) extents lsm extentIndex ;;
  Ret (fileInode
       <| payload := FilePayload extents |>
       <| dirty := true |>
       <| onDisk := (onDisk fileInode)
            <| LogSegmentMap := lsm |>
            <| Size := size |>
            <| ModificationTime := updateTime |>
            <| AttrChangeTime := updateTime |> |>).

(** The loop of [recordWrite] that prunes the extents overlapped by a write
    ending at [endOffset]. *)
Fixpoint pruneLoop (fuel : nat) (extents : list (Z * fileExtentStruct)) (lsm : gmap Z Z)
    (extentIndex endOffset : Z) : res (list (Z * fileExtentStruct) * gmap Z Z) :=
  match fuel with
  | O => Panic
  | S fuel' =>
      match GetByIndex extents extentIndex with
      | None => Ret (extents, lsm)
      | Some (_, leftExtent) =>
          if endOffset <=? FileOffset leftExtent then Ret (extents, lsm)
          else if FileOffset leftExtent +u Length leftExtent <=? endOffset then
            lsm' <- decrementLogSegmentMapFileData lsm (LogSegmentNumber leftExtent) (Length leftExtent) ;;
            extents' <- must (DeleteByIndex extents extentIndex) ;;
            pruneLoop fuel' extents' lsm' extentIndex endOffset
          else
            extents' <- must (DeleteByIndex extents extentIndex) ;;
            let overlapSize := endOffset -u FileOffset leftExtent in
            let rightExtent := mkExtent (FileOffset leftExtent +u overlapSize)
                                        (Length leftExtent -u overlapSize)
                                        (LogSegmentNumber leftExtent)
                                        (LogSegmentOffset leftExtent +u overlapSize) in
            extents'' <- must (Put extents' (FileOffset rightExtent) rightExtent) ;;
            lsm' <- decrementLogSegmentMapFileData lsm (LogSegmentNumber leftExtent) overlapSize ;;
            Ret (extents'', lsm')
      end
  end.

(** [recordWrite] up to the pruning loop: the extent that starts before
    [fileOffset] is split there if it reaches beyond it. *)
Definition splitPreceding (extents : list (Z * fileExtentStruct)) (fileOffset : Z) : res (list (Z * fileExtentStruct) * Z) :=
  let '(extentIndex, found) := BisectLeft extents fileOffset in
  if found then Ret (extents, extentIndex)
  else
    extents <-
      (if 0 <=? extentIndex then
         '(_, leftExtent) <- must (GetByIndex extents extentIndex) ;;
         if fileOffset <? FileOffset leftExtent +u Length leftExtent then
           let splitOutSize := (FileOffset leftExtent +u Length leftExtent) -u fileOffset in
           let leftExtent' := leftExtent <| Length := Length leftExtent -u splitOutSize |> in
           extents' <- must (PatchByIndex extents extentIndex leftExtent') ;;
           let rightExtent := mkExtent fileOffset splitOutSize (LogSegmentNumber leftExtent')
                                       (LogSegmentOffset leftExtent' +u Length leftExtent') in
           must (Put extents' (FileOffset rightExtent) rightExtent)
         else Ret extents
       else Ret extents) ;;
    Ret (extents, extentIndex + 1).

(** The end of [recordWrite]: lengthen the preceding extent when the new data
    follows it in both the file and the log segment, else insert an extent. *)
Definition appendOrPut (extents : list (Z * fileExtentStruct)) (fileOffset length_ logSegmentNumber logSegmentOffset : Z)
    : res (list (Z * fileExtentStruct)) :=
  let '(prevIndex, found) := BisectLeft extents fileOffset in
  if found then Panic
  else
    prevExtent <-
      (if 0 <=? prevIndex then
         '(_, prevExtent) <- must (GetByIndex extents prevIndex) ;; Ret (Some prevExtent)
       else Ret None) ;;
    match prevExtent with
    | Some prevExtent =>
        if (LogSegmentNumber prevExtent =? logSegmentNumber)
           && (FileOffset prevExtent +u Length prevExtent =? fileOffset)
           && (LogSegmentOffset prevExtent +u Length prevExtent =? logSegmentOffset)
        then must (PatchByIndex extents prevIndex (prevExtent <| Length := Length prevExtent +u length_ |>))
        else must (Put extents fileOffset (mkExtent fileOffset length_ logSegmentNumber logSegmentOffset))
    | None => must (Put extents fileOffset (mkExtent fileOffset length_ logSegmentNumber logSegmentOffset))
    end.

Definition recordWrite (fileInode : inMemoryInodeStruct) (fileOffset length_ logSegmentNumber logSegmentOffset : Z)
    : res inMemoryInodeStruct :=
  extents <- fileExtents fileInode ;;
  let lsm := LogSegmentMap (onDisk fileInode) in
  '(extents, extentIndex) <- splitPreceding extents fileOffset ;;
  '(extents, lsm) <- pruneLoop (S (length extents)) extents lsm extentIndex (fileOffset +u length_) ;;
  extents <- appendOrPut extents fileOffset length_ logSegmentNumber logSegmentOffset ;;
  let lsm := incrementLogSegmentMapFileData lsm logSegmentNumber length_ in
  Ret (fileInode <| payload := FilePayload extents |>
                 <| onDisk := (onDisk fileInode) <| LogSegmentMap := lsm |> |>).

Section ReadPlan.
(** [vS.accountName] and [vS.getObjectLocationFromLogSegmentNumber], a
    lookup in the volume's log segment records; [W] is the state it runs in. *)
Context {W : Type}.
Variable accountName : string.
Variable getObjectLocationFromLogSegmentNumber : Z -> St W error (string * string * string).

Definition zeroFillStep (length_ : Z) : ReadPlanStep :=
  mkStep 0 0 length_ "" "" "" "".

Definition extentStep (curExtent : fileExtentStruct) (skipSize length_ : Z) : St W error ReadPlanStep :=
  '(containerName, objectName, objectPath) <~
    getObjectLocationFromLogSegmentNumber (LogSegmentNumber curExtent) ;;
  sret (mkStep (LogSegmentNumber curExtent) (LogSegmentOffset curExtent +u skipSize) length_
               accountName containerName objectName objectPath).

(** The loop of [getReadPlanHelper]: returns the steps and the offset
    reached. *)
Fixpoint readPlanLoop (fuel : nat) (extents : list (Z * fileExtentStruct)) (terminalOffset : Z)
    (curExtentIndex curOffset : Z) (readPlan : list ReadPlanStep) : St W error (list ReadPlanStep * Z) :=
  match fuel with
  | O => spanic
  | S fuel' =>
      let curExtentIndex := if curExtentIndex <? 0 then curExtentIndex + 1 else curExtentIndex in
      match GetByIndex extents curExtentIndex with
      | None => sret (readPlan, curOffset)
      | Some (_, curExtent) =>
          if terminalOffset <=? FileOffset curExtent then sret (readPlan, curOffset)
          else if FileOffset curExtent +u Length curExtent <=? curOffset then
            readPlanLoop fuel' extents terminalOffset (curExtentIndex + 1) curOffset readPlan
          else
            let '(readPlan, curOffset) :=
              if curOffset <? FileOffset curExtent
              then (readPlan ++ [zeroFillStep (FileOffset curExtent -u curOffset)], FileOffset curExtent)
              else (readPlan, curOffset) in
            let skipSize :=
              if FileOffset curExtent <? curOffset then curOffset -u FileOffset curExtent else 0 in
            if terminalOffset <=? FileOffset curExtent +u Length curExtent then
              step <~ extentStep curExtent skipSize (terminalOffset -u curOffset) ;;
              sret (readPlan ++ [step], terminalOffset)
            else
              step <~ extentStep curExtent skipSize (Length curExtent -u skipSize) ;;
              readPlanLoop fuel' extents terminalOffset (curExtentIndex + 1)
                (curOffset +u rps_Length step) (readPlan ++ [step])
      end
  end.

(** The range a request asks for, from the optional offset and length. *)
Definition requestedRange (size : Z) (requestedOffset requestedLength : option Z) : option (Z * Z) :=
  match requestedOffset, requestedLength with
  | None, None => None
  | None, Some len => Some (size -u len, len)
  | Some off, None => Some (off, size -u off)
  | Some off, Some len => Some (off, len)
  end.

Definition getReadPlanHelper (fileInode : inMemoryInodeStruct) (requestedOffset requestedLength : option Z)
    : St W error (list ReadPlanStep * Z) :=
  let size := Size (onDisk fileInode) in
  match requestedRange size requestedOffset requestedLength with
  | None => serr plain
  | Some (offset, readPlanBytes) =>
      let readPlanBytes :=
        if size <? offset +u readPlanBytes then
          (if offset <? size then size -u offset else 0)
        else readPlanBytes in
      if 0 =? readPlanBytes then sret ([], readPlanBytes)
      else
        extents <~ slift (fileExtents fileInode) ;;
        let terminalOffset := offset +u readPlanBytes in
        let '(curExtentIndex, _) := BisectLeft extents offset in
        '(readPlan, curOffset) <~
          readPlanLoop (S (S (length extents))) extents terminalOffset curExtentIndex offset [] ;;
        if curOffset <? terminalOffset
        then sret (readPlan ++ [zeroFillStep (terminalOffset -u curOffset)], readPlanBytes)
        else sret (readPlan, readPlanBytes)
  end.
End ReadPlan.

(** Experiments on small files. *)
Definition sampleInode (extents : list fileExtentStruct) (size : Z) : inMemoryInodeStruct :=
  mkInode false (FilePayload (map (fun e => (FileOffset e, e)) extents)) None ∅ ∅ []
    (mkOnDisk 7 FileType 1 size 0 0 0 0 0 0 0 0 ∅ 0 0 ""
       (foldl (fun m e => incrementLogSegmentMapFileData m (LogSegmentNumber e) (Length e)) ∅ extents)).
