(* ===== verification/ExtentsFacts.v ===== *)
(** The extent map of a file implements a map from file positions to log
    segment positions.

    [cell_at] is the abstract view: what a position of the file refers to.
    [ext_chain] is the well-formedness invariant (keys are the offsets,
    extents are non-empty, disjoint and in order, nothing wraps around 2^64)
    and [lsm_ok] the accounting invariant of [LogSegmentMap]. *)

From S2P Require Import Prelude SortedMap Blunder InodeTypes Extents.

Abbreviation ext_list := (list (Z * fileExtentStruct)).

Definition extEnd (e : fileExtentStruct) : Z := FileOffset e + Length e.

(** The segment and offset that hold file position [pos]; [None] in a hole. *)
Fixpoint cell_at (exts : ext_list) (pos : Z) : option (Z * Z) :=
  match exts with
  | [] => None
  | (_, e) :: exts' =>
      if (FileOffset e <=? pos) && (pos <? extEnd e)
      then Some (LogSegmentNumber e, LogSegmentOffset e + (pos - FileOffset e))
      else cell_at exts' pos
  end.

(** Bytes of the file that live in segment [lsn]. *)
Fixpoint seg_bytes (lsn : Z) (exts : ext_list) : Z :=
  match exts with
  | [] => 0
  | (_, e) :: exts' =>
      (if LogSegmentNumber e =? lsn then Length e else 0) + seg_bytes lsn exts'
  end.

Definition ext_ok (e : fileExtentStruct) : Prop :=
  0 < Length e /\ 0 <= LogSegmentOffset e /\ LogSegmentOffset e + Length e < two64.

(** [exts] is a chain of disjoint extents between [lo] and [hi]. *)
Fixpoint ext_chain (lo : Z) (exts : ext_list) (hi : Z) : Prop :=
  match exts with
  | [] => lo <= hi
  | (k, e) :: exts' =>
      k = FileOffset e /\ lo <= FileOffset e /\ ext_ok e /\ ext_chain (extEnd e) exts' hi
  end.

Definition maxOffset : Z := two64 - 1.

Definition ext_wf (exts : ext_list) : Prop := ext_chain 0 exts maxOffset.

Definition lsm_ok (lsm : gmap Z Z) (exts : ext_list) : Prop :=
  forall lsn, default 0 (lsm !! lsn) = seg_bytes lsn exts.

(** ** Chains *)

Lemma chain_le lo exts hi : ext_chain lo exts hi -> lo <= hi.
Proof.
  revert lo. induction exts as [|[k e] exts IH]; simpl; intros lo; [done|].
  intros (_ & Hlo & (Hl & _) & Hc). apply IH in Hc. unfold extEnd in Hc. lia.
Qed.

Lemma chain_app lo l1 l2 hi :
  ext_chain lo (l1 ++ l2) hi <-> exists mid, ext_chain lo l1 mid /\ ext_chain mid l2 hi.
Proof.
  revert lo. induction l1 as [|[k e] l1 IH]; simpl; intros lo.
  - split.
    + intros Hc. exists lo. split; [lia | done].
    + intros (mid & Hle & Hc). destruct l2 as [|[k e] l2]; simpl in *; [lia|].
      intuition lia.
  - setoid_rewrite IH. split.
    + intros (? & ? & ? & mid & ? & ?). exists mid. tauto.
    + intros (mid & (? & ? & ? & ?) & ?). split_and!; eauto.
Qed.

Lemma chain_weaken_lo lo lo' exts hi : lo' <= lo -> ext_chain lo exts hi -> ext_chain lo' exts hi.
Proof. destruct exts as [|[k e] exts]; simpl; intuition lia. Qed.

Lemma chain_weaken_hi lo exts hi hi' : hi <= hi' -> ext_chain lo exts hi -> ext_chain lo exts hi'.
Proof.
  revert lo. induction exts as [|[k e] exts IH]; simpl; intros lo Hle; [lia|].
  intros (? & ? & ? & ?). split_and!; auto.
Qed.

Lemma chain_keys lo exts hi :
  ext_chain lo exts hi -> Forall (fun p => lo <= p.1 /\ p.1 < hi) exts.
Proof.
  revert lo. induction exts as [|[k e] exts IH]; simpl; intros lo; [done|].
  intros (-> & Hlo & (Hl & _) & Hc). pose proof (chain_le _ _ _ Hc). unfold extEnd in *.
  constructor; [simpl; lia|]. eapply Forall_impl; [by apply IH|]. intros p. simpl. lia.
Qed.

Lemma chain_starts lo exts hi : ext_chain lo exts hi -> Forall (fun p => p.1 < extEnd p.2) exts.
Proof.
  revert lo. induction exts as [|[k e] exts IH]; simpl; intros lo; [done|].
  intros (-> & _ & (Hl & _) & Hc). constructor; [unfold extEnd; simpl; lia | by eapply IH].
Qed.

Lemma chain_below lo exts hi : ext_chain lo exts hi -> Forall (below hi) exts.
Proof.
  intros Hc. eapply Forall_impl; [by eapply chain_keys|].
  intros p [? ?]. apply Z.ltb_lt. lia.
Qed.

Lemma chain_above lo exts hi k : k < lo -> ext_chain lo exts hi -> Forall (above k) exts.
Proof.
  intros Hk Hc. eapply Forall_impl; [by eapply chain_keys|].
  intros p [? ?]. apply Z.ltb_lt. lia.
Qed.

Lemma chain_sorted lo exts hi : ext_chain lo exts hi -> sorted exts.
Proof.
  revert lo. induction exts as [|[k e] exts IH]; simpl; intros lo; [done|].
  intros (-> & Hlo & (Hl & _) & Hc). split; [|by eapply IH].
  apply (chain_above _ _ _ (FileOffset e)) in Hc; [exact Hc | unfold extEnd; lia].
Qed.

Lemma cell_at_app l1 l2 pos :
  cell_at (l1 ++ l2) pos = match cell_at l1 pos with Some c => Some c | None => cell_at l2 pos end.
Proof. induction l1 as [|[k e] l1 IH]; simpl; [done|]. destruct (_ && _); [done | apply IH]. Qed.

Lemma cell_at_range lo exts hi pos c :
  ext_chain lo exts hi -> cell_at exts pos = Some c -> lo <= pos < hi.
Proof.
  revert lo. induction exts as [|[k e] exts IH]; simpl; intros lo; [done|].
  intros (-> & Hlo & (Hl & _) & Hc). unfold extEnd in *.
  pose proof (chain_le _ _ _ Hc).
  destruct ((FileOffset e <=? pos) && (pos <? FileOffset e + Length e)) eqn:E.
  - intros _. lia.
  - intros Hs. specialize (IH _ Hc Hs). lia.
Qed.

Lemma cell_at_out lo exts hi pos :
  ext_chain lo exts hi -> pos < lo \/ hi <= pos -> cell_at exts pos = None.
Proof.
  intros Hc Hp. destruct (cell_at exts pos) eqn:E; [|done].
  pose proof (cell_at_range _ _ _ _ _ Hc E). lia.
Qed.

Lemma seg_bytes_app lsn l1 l2 : seg_bytes lsn (l1 ++ l2) = seg_bytes lsn l1 + seg_bytes lsn l2.
Proof. induction l1 as [|[k e] l1 IH]; simpl; [done|]. rewrite IH. lia. Qed.

Lemma seg_bytes_bound lo exts hi lsn :
  ext_chain lo exts hi -> 0 <= seg_bytes lsn exts <= hi - lo.
Proof.
  revert lo. induction exts as [|[k e] exts IH]; simpl; intros lo; [lia|].
  intros (-> & Hlo & (Hl & _) & Hc). specialize (IH _ Hc). unfold extEnd in *.
  case_match; lia.
Qed.

(** ** Accounting *)

Lemma decrement_ok lsm e exts1 exts2 amount lsn :
  0 <= amount <= Length e -> 0 < Length e ->
  lsm_ok lsm (exts1 ++ (lsn, e) :: exts2) ->
  (exists lo hi, ext_chain lo (exts1 ++ (lsn, e) :: exts2) hi /\ 0 <= lo /\ hi < two64) ->
  exists lsm',
    decrementLogSegmentMapFileData lsm (LogSegmentNumber e) amount = Ret lsm' /\
    forall s, default 0 (lsm' !! s) =
              seg_bytes s (exts1 ++ (lsn, e) :: exts2) - (if LogSegmentNumber e =? s then amount else 0).
Proof.
  intros Ha Hl Hok (lo & hi & Hc & Hlo & Hhi). unfold decrementLogSegmentMapFileData.
  pose proof (Hok (LogSegmentNumber e)) as Hs.
  pose proof (seg_bytes_bound _ _ _ (LogSegmentNumber e) Hc) as Hb.
  pose proof (proj1 (chain_app _ _ _ _) Hc) as (mid & Hc1 & Hc2).
  simpl in Hc2. destruct Hc2 as (_ & _ & _ & Hc3).
  pose proof (seg_bytes_bound _ _ _ (LogSegmentNumber e) Hc1) as Hb1.
  pose proof (seg_bytes_bound _ _ _ (LogSegmentNumber e) Hc3) as Hb3.
  rewrite seg_bytes_app in Hs, Hb. simpl in Hs, Hb. rewrite Z.eqb_refl in Hs, Hb.
  destruct (lsm !! LogSegmentNumber e) as [r|] eqn:E; simpl in Hs; [|lia].
  destruct (Z.ltb_spec r amount); [lia|]. eexists. split; [done|].
  intros s. destruct (Z.eqb_spec (LogSegmentNumber e) s) as [<-|Hne].
  - rewrite lookup_insert_eq. simpl. unwrap_in_range.
    rewrite seg_bytes_app. simpl. rewrite Z.eqb_refl. lia.
  - rewrite lookup_insert_ne by done. rewrite (Hok s). lia.
Qed.

Lemma increment_ok lsm exts lsn len :
  lsm_ok lsm exts -> 0 <= len -> 0 <= seg_bytes lsn exts -> seg_bytes lsn exts + len < two64 ->
  forall s, default 0 (incrementLogSegmentMapFileData lsm lsn len !! s) =
            seg_bytes s exts + (if lsn =? s then len else 0).
Proof.
  intros Hok Hl Hb Hlt s. unfold incrementLogSegmentMapFileData.
  pose proof (Hok lsn) as Hs.
  destruct (lsm !! lsn) as [r|] eqn:E; simpl in Hs;
    (destruct (Z.eqb_spec lsn s) as [<-|Hne];
     [ rewrite lookup_insert_eq; simpl; unwrap_in_range; lia
     | rewrite lookup_insert_ne by done; rewrite (Hok s); lia ]).
Qed.

(** ** Cutting an extent at a position *)

Definition headPart (e : fileExtentStruct) (off : Z) : fileExtentStruct :=
  mkExtent (FileOffset e) (off - FileOffset e) (LogSegmentNumber e) (LogSegmentOffset e).

Definition tailPart (e : fileExtentStruct) (off : Z) : fileExtentStruct :=
  mkExtent off (extEnd e - off) (LogSegmentNumber e) (LogSegmentOffset e + (off - FileOffset e)).

Lemma extEnd_headPart e off : extEnd (headPart e off) = off.
Proof. unfold extEnd, headPart. simpl. lia. Qed.

Lemma extEnd_tailPart e off : extEnd (tailPart e off) = extEnd e.
Proof. unfold extEnd, tailPart, extEnd. simpl. lia. Qed.

Lemma ext_ok_parts e off :
  ext_ok e -> FileOffset e < off < extEnd e -> ext_ok (headPart e off) /\ ext_ok (tailPart e off).
Proof. unfold ext_ok, headPart, tailPart, extEnd. simpl. lia. Qed.

Lemma cell_at_one k e post pos :
  cell_at ((k, e) :: post) pos =
  match cell_at [(k, e)] pos with Some c => Some c | None => cell_at post pos end.
Proof. by rewrite <- cell_at_app. Qed.

Lemma cell_at_headPart k k' e off pos :
  FileOffset e < off < extEnd e ->
  cell_at [(k, headPart e off)] pos = if pos <? off then cell_at [(k', e)] pos else None.
Proof.
  intros H. cbn [cell_at]. rewrite extEnd_headPart. unfold headPart. simpl.
  destruct (Z.ltb_spec pos off); [|by rewrite andb_false_r].
  by rewrite (proj2 (Z.ltb_lt pos (extEnd e))) by lia.
Qed.

Lemma cell_at_tailPart k k' e off pos :
  FileOffset e < off < extEnd e ->
  cell_at [(k, tailPart e off)] pos = if pos <? off then None else cell_at [(k', e)] pos.
Proof.
  intros H. cbn [cell_at]. rewrite extEnd_tailPart. unfold tailPart. simpl.
  destruct (Z.ltb_spec pos off).
  - by rewrite (proj2 (Z.leb_gt off pos)) by lia.
  - rewrite (proj2 (Z.leb_le off pos)), (proj2 (Z.leb_le (FileOffset e) pos)) by lia. simpl.
    destruct (pos <? extEnd e); [|done]. do 2 f_equal. lia.
Qed.

(** ** Where a position falls in the extent list *)

Inductive split_view (exts : ext_list) (off : Z) : Prop :=
| SplitAt pre e post
    (Hl : exts = pre ++ (off, e) :: post)
    (Hb : BisectLeft exts off = (zlen pre, true))
    (Hpre : ext_chain 0 pre off)
    (Hpost : ext_chain off ((off, e) :: post) maxOffset)
| SplitGap pre post
    (Hl : exts = pre ++ post)
    (Hb : BisectLeft exts off = (zlen pre - 1, false))
    (Hpre : ext_chain 0 pre off)
    (Hpost : ext_chain off post maxOffset)
| SplitInside pre e post
    (Hl : exts = pre ++ (FileOffset e, e) :: post)
    (Hb : BisectLeft exts off = (zlen pre, false))
    (Hpre : ext_chain 0 pre (FileOffset e))
    (Hin : FileOffset e < off < extEnd e)
    (Hok : ext_ok e)
    (Hpost : ext_chain (extEnd e) post maxOffset).

Lemma chain_split exts off :
  ext_wf exts -> 0 <= off <= maxOffset -> split_view exts off.
Proof.
  intros Hwf Hoff.
  destruct (sorted_split exts off) as [(pre & e & post & -> & Hp & Hq) | (pre & post & -> & Hp & Hq)];
    [by eapply chain_sorted| |].
  - apply chain_app in Hwf as (mid & Hc1 & Hc2).
    pose proof Hc2 as (Hk & Hlo & Hok & Hc3). simpl in Hk, Hlo.
    eapply SplitAt; [done | by apply BisectLeft_hit | |].
    + eapply chain_weaken_hi; [|done]. lia.
    + simpl. split_and!; try done. lia.
  - assert (Hpost : ext_chain off post maxOffset).
    { apply chain_app in Hwf as (mid & _ & Hc2).
      destruct post as [|[k e] post]; simpl in *; [lia|].
      inversion Hq as [|? ? Hk _]; subst. apply Z.ltb_lt in Hk. simpl in Hk. intuition lia. }
    destruct (snoc_cases pre) as [->|(pre' & [k e] & ->)].
    + eapply SplitGap; [done | by apply BisectLeft_miss | simpl; lia | done].
    + pose proof Hwf as Hwf'. rewrite <- app_assoc in Hwf'. simpl in Hwf'.
      apply chain_app in Hwf' as (mid & Hc1 & Hc2). simpl in Hc2.
      destruct Hc2 as (-> & Hlo & Hok & Hc3).
      pose proof Hp as Hp0. apply Forall_app in Hp as [Hp1 Hp2]. inversion Hp2 as [|? ? Hk _]; subst.
      apply Z.ltb_lt in Hk. simpl in Hk.
      destruct (Z.lt_ge_cases off (extEnd e)) as [Hin|Hout].
      * apply (SplitInside _ _ pre' e post).
        -- by rewrite <- app_assoc.
        -- rewrite BisectLeft_miss by done.
           rewrite zlen_app, zlen_cons. f_equal. unfold zlen. simpl. lia.
        -- eapply chain_weaken_hi; done.
        -- lia.
        -- done.
        -- done.
      * eapply SplitGap; [done | by apply BisectLeft_miss | | done].
        apply chain_app. exists mid. split; [done|]. simpl. split_and!; done.
Qed.

Lemma last_extent (pre : ext_list) k e post :
  GetByIndex ((pre ++ [(k, e)]) ++ post) (zlen (pre ++ [(k, e)]) - 1) = Some (k, e).
Proof.
  rewrite zlen_app, zlen_cons. replace (zlen pre + (1 + zlen (@nil (Z * fileExtentStruct))) - 1) with (zlen pre) by (unfold zlen; simpl; lia).
  rewrite <- app_assoc. apply (GetByIndex_mid (k, e)).
Qed.

(** In the gap case the code looks at the last extent of [pre] (if any) and
    finds that it ends before the position. *)
Lemma gap_last (pre : ext_list) off k e :
  ext_chain 0 (pre ++ [(k, e)]) off -> 0 <= off <= maxOffset ->
  k = FileOffset e /\ 0 <= FileOffset e /\ 0 < Length e /\ extEnd e <= off.
Proof.
  intros Hc Hoff. apply chain_app in Hc as (mid & Hc1 & Hc2). simpl in Hc2.
  pose proof (chain_le _ _ _ Hc1). destruct Hc2 as (-> & Hlo & (Hl & _) & Hle).
  repeat split; lia.
Qed.

Lemma splitPreceding_ok exts off :
  ext_wf exts -> 0 <= off <= maxOffset ->
  exists pre post,
    splitPreceding exts off = Ret (pre ++ post, zlen pre) /\
    ext_chain 0 pre off /\ ext_chain off post maxOffset /\
    (forall pos, cell_at (pre ++ post) pos = cell_at exts pos) /\
    (forall s, seg_bytes s (pre ++ post) = seg_bytes s exts).
Proof.
  intros Hwf Hoff. unfold splitPreceding.
  destruct (chain_split exts off Hwf Hoff) as [pre e post -> Hb Hpre Hpost | pre post -> Hb Hpre Hpost
                                              | pre e post -> Hb Hpre Hin Hok Hpost]; rewrite Hb.
  - exists pre, ((off, e) :: post). by refine (conj eq_refl (conj Hpre (conj Hpost (conj _ _)))).
  - exists pre, post. split; [|by refine (conj Hpre (conj Hpost (conj _ _)))].
    destruct (snoc_cases pre) as [->|(pre' & [k e] & ->)].
    + simpl. replace (zlen (@nil (Z * fileExtentStruct)) - 1 + 1) with 0 by (unfold zlen; simpl; lia). done.
    + destruct (gap_last _ _ _ _ Hpre Hoff) as (-> & H0 & Hl & Hend). unfold extEnd in Hend.
      rewrite (proj2 (Z.leb_le _ _)).
      * rewrite last_extent. simpl. unfold maxOffset in *. unwrap_in_range.
        rewrite (proj2 (Z.ltb_ge _ _)) by lia. simpl.
        by rewrite Z.sub_add.
      * rewrite zlen_app, zlen_cons. pose proof (zlen_nonneg pre'). unfold zlen at 2. simpl. lia.
  - pose proof (chain_le _ _ _ Hpost) as Hmax. pose proof (chain_le _ _ _ Hpre).
    destruct (ext_ok_parts e off Hok Hin) as [Hok1 Hok2].
    assert (Hl1 : ext_chain 0 (pre ++ [(FileOffset e, headPart e off)]) off).
    { apply chain_app. exists (FileOffset e). split; [done|]. simpl. rewrite extEnd_headPart.
      split_and!; try done; lia. }
    exists (pre ++ [(FileOffset e, headPart e off)]), ((off, tailPart e off) :: post).
    split; [|split; [done|split; [|split]]].
    + rewrite (proj2 (Z.leb_le _ _)) by apply zlen_nonneg. rewrite GetByIndex_mid.
      unfold ext_ok, maxOffset, extEnd in *. simpl. unwrap_in_range.
      rewrite (proj2 (Z.ltb_lt _ _)) by lia. rewrite PatchByIndex_mid. simpl. unwrap_in_range.
      replace (Length e - (FileOffset e + Length e - off)) with (off - FileOffset e) by lia.
      replace (pre ++ (FileOffset e, _) :: post) with ((pre ++ [(FileOffset e, headPart e off)]) ++ post)
        by (by rewrite <- app_assoc).
      rewrite Put_mid; [simpl | by eapply chain_below | eapply chain_above; [|done]; lia].
      rewrite zlen_app, zlen_cons. unfold zlen at 3. simpl. do 2 f_equal; lia.
    + simpl. rewrite extEnd_tailPart. split_and!; try done; lia.
    + intros pos. rewrite <- app_assoc, !cell_at_app. cbn [app].
      rewrite (cell_at_one _ (headPart e off)), (cell_at_one _ (tailPart e off)), (cell_at_one _ e).
      rewrite (cell_at_headPart _ (FileOffset e)), (cell_at_tailPart _ (FileOffset e)) by done.
      destruct (cell_at pre pos); [done|]. destruct (pos <? off); [by destruct (cell_at [(FileOffset e, e)] pos) | done].
    + intros s. rewrite <- app_assoc, !seg_bytes_app. simpl. unfold extEnd. case_match; lia.
Qed.

Lemma chain_join pre off lo post :
  ext_chain 0 pre off -> off <= lo -> ext_chain lo post maxOffset -> ext_wf (pre ++ post).
Proof.
  intros H1 Hle H2. apply chain_app. exists off. split; [done|]. by eapply chain_weaken_lo.
Qed.

(** Removing the head of [post], wholly or its first [amount] bytes. *)
Lemma decrement_head lsm pre post k e amount :
  0 <= amount <= Length e -> ext_wf (pre ++ (k, e) :: post) ->
  lsm_ok lsm (pre ++ (k, e) :: post) ->
  exists lsm',
    decrementLogSegmentMapFileData lsm (LogSegmentNumber e) amount = Ret lsm' /\
    forall post', (forall s, seg_bytes s post' =
                     seg_bytes s ((k, e) :: post) - (if LogSegmentNumber e =? s then amount else 0)) ->
                  lsm_ok lsm' (pre ++ post').
Proof.
  intros Ha Hwf Hok.
  assert (Hl : 0 < Length e).
  { apply chain_app in Hwf as (mid & _ & Hc). simpl in Hc. destruct Hc as (_ & _ & (Hl & _) & _). lia. }
  destruct (decrement_ok lsm e pre post amount k Ha Hl Hok) as (lsm' & Hd & Hs).
  { exists 0, maxOffset. split; [done|]. unfold maxOffset. lia. }
  exists lsm'. split; [done|]. intros post' Hp s.
  rewrite Hs, !seg_bytes_app, Hp. lia.
Qed.

Lemma pruneLoop_ok pre off endo post : forall fuel lo lsm,
  (length post < fuel)%nat -> ext_chain 0 pre off -> off <= lo -> off <= endo <= maxOffset ->
  ext_chain lo post maxOffset -> lsm_ok lsm (pre ++ post) ->
  exists post' lsm',
    pruneLoop fuel (pre ++ post) lsm (zlen pre) endo = Ret (pre ++ post', lsm') /\
    ext_chain (Z.max lo endo) post' maxOffset /\
    (forall pos, cell_at post' pos = if pos <? endo then None else cell_at post pos) /\
    lsm_ok lsm' (pre ++ post').
Proof.
  induction post as [|[k e] post IH]; intros fuel lo lsm Hf Hpre Hlo Hend Hc Hok;
    (destruct fuel as [|fuel]; [lia|]); cbn [pruneLoop].
  - rewrite app_nil_r in *. rewrite GetByIndex_end. exists [], lsm. rewrite app_nil_r.
    refine (conj eq_refl (conj _ (conj _ Hok))); [simpl in *; lia|]. intros pos. by case_match.
  - rewrite GetByIndex_mid. pose proof (chain_join _ _ _ _ Hpre Hlo Hc) as Hwf.
    pose proof Hc as (-> & Hk & (Hl & Hso & Hse) & Hc'). pose proof (chain_le _ _ _ Hc').
    pose proof (chain_le _ _ _ Hpre). unfold extEnd, maxOffset in *.
    destruct (Z.leb_spec endo (FileOffset e)).
    { exists ((FileOffset e, e) :: post), lsm. refine (conj eq_refl (conj _ (conj _ Hok))).
      - simpl. split_and!; try done. lia.
      - intros pos. destruct (Z.ltb_spec pos endo); [|done].
        eapply (cell_at_out (FileOffset e) _ maxOffset); [|lia]. simpl. split_and!; try done; lia. }
    unwrap_in_range. destruct (Z.leb_spec (FileOffset e + Length e) endo).
    + destruct (decrement_head lsm pre post (FileOffset e) e (Length e)) as (lsm1 & Hd & Hs);
        [lia|done|done|]. rewrite Hd. simpl. rewrite DeleteByIndex_mid. simpl.
      destruct (IH fuel (FileOffset e + Length e) lsm1) as (post' & lsm' & -> & Hc2 & Hcell & Hok2);
        try done; try lia; [simpl in Hf; lia| |].
      { apply Hs. intros s. simpl. lia. }
      exists post', lsm'. refine (conj eq_refl (conj _ (conj _ Hok2))).
      * eapply chain_weaken_lo; [|exact Hc2]. lia.
      * intros pos. rewrite Hcell. destruct (Z.ltb_spec pos endo); [done|].
        simpl. unfold extEnd. rewrite (proj2 (Z.ltb_ge pos _)) by lia. by rewrite andb_false_r.
    + rewrite DeleteByIndex_mid. cbn [must obind FileOffset]. unwrap_in_range.
      replace (FileOffset e + (endo - FileOffset e)) with endo by lia.
      replace (Length e - (endo - FileOffset e)) with (extEnd e - endo) by (unfold extEnd; lia).
      assert (Hin : FileOffset e < endo < extEnd e) by (unfold extEnd; lia).
      rewrite Put_mid; [cbn [must obind] | |].
      * destruct (decrement_head lsm pre post (FileOffset e) e (endo - FileOffset e)) as (lsm1 & Hd & Hs);
          [lia|done|done|]. rewrite Hd. cbn [obind].
        exists ((endo, tailPart e endo) :: post), lsm1. refine (conj eq_refl (conj _ (conj _ _))).
        -- pose proof (ext_ok_parts e endo). unfold ext_ok in *. simpl. rewrite extEnd_tailPart.
           split_and!; try done; try apply H3; unfold extEnd; lia.
        -- intros pos. rewrite (cell_at_one _ (tailPart e endo)), (cell_at_one _ e), (cell_at_tailPart _ (FileOffset e)) by done.
           destruct (Z.ltb_spec pos endo); [|done]. eapply cell_at_out; [exact Hc'|lia].
        -- apply Hs. intros s. simpl. unfold extEnd. case_match; lia.
      * eapply Forall_impl; [by eapply chain_below|]. intros p Hp. apply Z.ltb_lt in Hp. apply Z.ltb_lt. lia.
      * eapply chain_above; [|exact Hc']. lia.
Qed.

(** What a write of [len] bytes at [off] makes of a position. *)
Definition written (off len lsn lso : Z) (old : Z -> option (Z * Z)) (pos : Z) : option (Z * Z) :=
  if (off <=? pos) && (pos <? off + len) then Some (lsn, lso + (pos - off)) else old pos.

Section AppendOrPut.
Context (pre post : ext_list) (off len lsn lso : Z).
Context (Hpre : ext_chain 0 pre off) (Hpost : ext_chain (off + len) post maxOffset)
        (Hlen : 0 < len) (Hlso : 0 <= lso) (Hend : lso + len < two64).

Definition append_post (exts' : ext_list) : Prop :=
  ext_wf exts' /\
  (forall pos, cell_at exts' pos = written off len lsn lso (cell_at (pre ++ post)) pos) /\
  (forall s, seg_bytes s exts' = seg_bytes s (pre ++ post) + (if lsn =? s then len else 0)).

Lemma put_new_ok :
  Put (pre ++ post) off (mkExtent off len lsn lso) = Some (pre ++ (off, mkExtent off len lsn lso) :: post) /\
  append_post (pre ++ (off, mkExtent off len lsn lso) :: post).
Proof.
  split; [apply Put_mid; [by eapply chain_below | eapply chain_above; [|exact Hpost]; lia]|].
  pose proof (chain_le _ _ _ Hpre). split; [|split].
  - apply chain_app. exists off. split; [done|]. simpl. unfold ext_ok, extEnd. simpl.
    split_and!; try done; lia.
  - intros pos. unfold written. rewrite !cell_at_app. cbn [cell_at].
    unfold extEnd. simpl.
    destruct (Z.leb_spec off pos), (Z.ltb_spec pos (off + len)); simpl; try done.
    by rewrite (cell_at_out _ _ _ _ Hpre) by lia.
  - intros s. rewrite !seg_bytes_app. simpl. case_match; lia.
Qed.

Lemma append_prev_ok pre' k e :
  pre = pre' ++ [(k, e)] -> LogSegmentNumber e = lsn ->
  extEnd e = off -> LogSegmentOffset e + Length e = lso ->
  append_post (pre' ++ (k, e <| Length := Length e + len |>) :: post).
Proof.
  intros Hp Hn He Ho. unfold append_post.
  pose proof Hpre as Hpre'. rewrite Hp in *. apply chain_app in Hpre' as (mid & Hc1 & Hc2).
  simpl in Hc2. destruct Hc2 as (-> & Hlo & (Hl & Hso & _) & _).
  unfold extEnd in *. split; [|split].
  - apply chain_app. exists mid. split; [done|]. simpl. unfold ext_ok, extEnd. simpl.
    replace (FileOffset e + (Length e + len)) with (off + len) by lia.
    split_and!; try done; lia.
  - intros pos. unfold written. rewrite <- app_assoc, !cell_at_app. simpl. unfold extEnd. simpl.
    destruct (cell_at pre' pos) eqn:E.
    + pose proof (cell_at_range _ _ _ _ _ Hc1 E). by rewrite (proj2 (Z.leb_gt off pos)) by lia.
    + replace (FileOffset e + (Length e + len)) with (off + len) by lia.
      rewrite He, Hn.
      destruct (Z.leb_spec (FileOffset e) pos), (Z.ltb_spec pos (off + len)), (Z.ltb_spec pos off),
        (Z.leb_spec off pos); simpl; try lia; try done; do 2 f_equal; lia.
  - intros s. rewrite <- app_assoc, !seg_bytes_app. simpl. rewrite Hn. case_match; lia.
Qed.

Lemma appendOrPut_ok :
  exists exts', appendOrPut (pre ++ post) off len lsn lso = Ret exts' /\ append_post exts'.
Proof.
  unfold appendOrPut. pose proof (chain_le _ _ _ Hpre). pose proof (chain_le _ _ _ Hpost).
  rewrite BisectLeft_miss; [|by eapply chain_below | eapply chain_above; [|exact Hpost]; lia].
  destruct put_new_ok as [Hput Hok].
  destruct (snoc_cases pre) as [Hp|(pre' & [k e] & Hp)].
  - replace (zlen pre - 1) with (-1) by (by rewrite Hp). simpl. rewrite Hput. by eexists.
  - assert (Hz : zlen pre - 1 = zlen pre').
    { rewrite Hp, zlen_app, zlen_cons. unfold zlen at 2. simpl. lia. }
    rewrite Hz, (proj2 (Z.leb_le _ _)) by apply zlen_nonneg.
    pose proof Hpre as Hpre'. rewrite Hp in Hpre'.
    destruct (gap_last _ _ _ _ Hpre') as (Hk & H0' & Hl & Hle); [lia|].
    apply chain_app in Hpre' as (mid & _ & Hc2). simpl in Hc2.
    destruct Hc2 as (_ & _ & (_ & Hso & Hse) & _).
    replace (pre ++ post) with (pre' ++ (k, e) :: post) in * by (by rewrite Hp, <- app_assoc).
    rewrite (GetByIndex_mid (k, e)). cbn [must obind]. unfold maxOffset, extEnd in *. unwrap_in_range.
    destruct (_ && _) eqn:Eb; [|rewrite Hput; by eexists].
    rewrite PatchByIndex_mid. eexists. split; [done|].
    apply andb_true_iff in Eb as [[E1 E2]%andb_true_iff E3].
    apply Z.eqb_eq in E1, E2, E3.
    by apply append_prev_ok.
Qed.
End AppendOrPut.

(** ** File inodes *)

(** The invariant of a file inode's payload. *)
Definition file_wf (fileInode : inMemoryInodeStruct) : Prop :=
  exists exts, payload fileInode = FilePayload exts /\ ext_wf exts /\
               lsm_ok (LogSegmentMap (onDisk fileInode)) exts.

(** What the inode maps each file position to. *)
Definition file_cell (fileInode : inMemoryInodeStruct) (pos : Z) : option (Z * Z) :=
  match payload fileInode with
  | FilePayload exts => cell_at exts pos
  | _ => None
  end.

Definition write_in_range (off len lso : Z) : Prop :=
  0 <= off /\ 0 < len /\ off + len <= maxOffset /\ 0 <= lso /\ lso + len < two64.

Lemma recordWrite_ok fileInode off len lsn lso :
  file_wf fileInode -> write_in_range off len lso ->
  exists fileInode',
    recordWrite fileInode off len lsn lso = Ret fileInode' /\ file_wf fileInode' /\
    (forall pos, file_cell fileInode' pos = written off len lsn lso (file_cell fileInode) pos) /\
    onDisk fileInode' = (onDisk fileInode) <| LogSegmentMap := LogSegmentMap (onDisk fileInode') |> /\
    dirty fileInode' = dirty fileInode /\
    openLogSegment fileInode' = openLogSegment fileInode /\
    inFlightLogSegmentMap fileInode' = inFlightLogSegmentMap fileInode /\
    inFlightLogSegmentErrors fileInode' = inFlightLogSegmentErrors fileInode /\
    flushing fileInode' = flushing fileInode.
Proof.
  intros (exts & Hpl & Hwf & Hok) (Ho & Hl & Hoe & Hs & Hse).
  unfold recordWrite, fileExtents. rewrite Hpl. cbn [obind].
  destruct (splitPreceding_ok exts off Hwf) as (pre & post & Hsp & Hc1 & Hc2 & Hcell & Hseg); [lia|].
  rewrite Hsp. cbn [obind]. unfold maxOffset in *. rewrite (uadd_small off len) by lia.
  destruct (pruneLoop_ok pre off (off + len) post (S (length (pre ++ post))) off (LogSegmentMap (onDisk fileInode)))
    as (post' & lsm' & Hpr & Hc3 & Hcell2 & Hok2); try done; try (unfold maxOffset; lia).
  { rewrite length_app. lia. }
  { intros s. by rewrite Hseg. }
  rewrite Hpr. cbn [obind].
  replace (Z.max off (off + len)) with (off + len) in Hc3 by lia.
  destruct (appendOrPut_ok pre post' off len lsn lso) as (exts' & Ha & Hwf' & Hcell3 & Hseg3); try done.
  rewrite Ha. cbn [obind]. eexists. split; [done|]. split; [|split; [|by repeat split]].
  - exists exts'. split; [done|]. split; [done|].
    assert (Hb : 0 <= seg_bytes lsn (pre ++ post') /\ seg_bytes lsn (pre ++ post') + len < two64).
    { pose proof (seg_bytes_bound _ _ _ lsn Hc1). pose proof (seg_bytes_bound _ _ _ lsn Hc3).
      rewrite seg_bytes_app. unfold maxOffset in *. lia. }
    intros s. simpl. rewrite (increment_ok _ _ _ _ Hok2) by lia. by rewrite Hseg3.
  - intros pos. unfold file_cell. simpl. rewrite Hpl, Hcell3. unfold written.
    destruct (_ && _) eqn:Eb; [done|]. rewrite <- Hcell, !cell_at_app, Hcell2.
    destruct (cell_at pre pos); [done|]. destruct (Z.ltb_spec pos (off + len)); [|done].
    symmetry. eapply cell_at_out; [exact Hc2|]. lia.
Qed.

(** ** Truncation *)

Definition truncated (size : Z) (old : Z -> option (Z * Z)) (pos : Z) : option (Z * Z) :=
  if pos <? size then old pos else None.

Lemma truncateLoop_ok pre off post : forall fuel lo lsm,
  (length post < fuel)%nat -> ext_chain 0 pre off -> off <= lo ->
  ext_chain lo post maxOffset -> lsm_ok lsm (pre ++ post) ->
  exists lsm', truncateLoop fuel (pre ++ post) lsm (zlen pre) = Ret (pre, lsm') /\ lsm_ok lsm' pre.
Proof.
  induction post as [|[k e] post IH]; intros fuel lo lsm Hf Hpre Hlo Hc Hok;
    (destruct fuel as [|fuel]; [lia|]); cbn [truncateLoop].
  - rewrite app_nil_r in *. rewrite GetByIndex_end. by exists lsm.
  - rewrite GetByIndex_mid. pose proof (chain_join _ _ _ _ Hpre Hlo Hc) as Hwf.
    pose proof Hc as (-> & Hk & (Hl & _ & _) & Hc').
    destruct (decrement_head lsm pre post (FileOffset e) e (Length e)) as (lsm1 & Hd & Hs);
      [lia|done|done|]. rewrite Hd. cbn [obind]. rewrite DeleteByIndex_mid. cbn [must obind].
    apply (IH fuel (extEnd e)); try done; [simpl in Hf; lia | unfold extEnd; lia |].
    apply Hs. intros s. simpl. lia.
Qed.

Lemma trimPreceding_ok exts lsm size :
  ext_wf exts -> lsm_ok lsm exts -> 0 <= size <= maxOffset ->
  exists pre post lsm',
    trimPreceding exts lsm size = Ret (pre ++ post, lsm', zlen pre) /\
    ext_chain 0 pre size /\ ext_chain size post maxOffset /\
    (forall pos, pos < size -> cell_at pre pos = cell_at exts pos) /\
    lsm_ok lsm' (pre ++ post).
Proof.
  intros Hwf Hok Hsz. unfold trimPreceding.
  destruct (chain_split exts size Hwf Hsz) as [pre e post -> Hb Hpre Hpost | pre post -> Hb Hpre Hpost
                                              | pre e post -> Hb Hpre Hin Hoke Hpost]; rewrite Hb.
  - exists pre, ((size, e) :: post), lsm. refine (conj eq_refl (conj Hpre (conj Hpost (conj _ Hok)))).
    intros pos Hp. rewrite cell_at_app. rewrite (cell_at_out _ _ _ _ Hpost) by lia. by case_match.
  - exists pre, post, lsm. refine (conj _ (conj Hpre (conj Hpost (conj _ Hok)))).
    + destruct (snoc_cases pre) as [->|(pre' & [k e] & ->)]; [done|].
      destruct (gap_last _ _ _ _ Hpre Hsz) as (-> & H0 & Hl & Hend).
      rewrite (proj2 (Z.leb_le _ _)).
      * rewrite last_extent. cbn [must obind]. unfold maxOffset, extEnd in *. unwrap_in_range.
        rewrite (proj2 (Z.ltb_ge _ _)) by lia. cbn [obind]. by rewrite Z.sub_add.
      * rewrite zlen_app, zlen_cons. pose proof (zlen_nonneg pre'). unfold zlen at 2. simpl. lia.
    + intros pos Hp. rewrite cell_at_app. rewrite (cell_at_out _ _ _ _ Hpost) by lia. by case_match.
  - pose proof (chain_le _ _ _ Hpost). pose proof (chain_le _ _ _ Hpre).
    destruct (ext_ok_parts e size Hoke Hin) as [Hok1 _].
    destruct (decrement_head lsm pre post (FileOffset e) e (extEnd e - size)) as (lsm1 & Hd & Hs);
      [unfold extEnd in *; lia|done|done|].
    exists (pre ++ [(FileOffset e, headPart e size)]), post, lsm1.
    split; [|split; [|split; [|split]]].
    + rewrite (proj2 (Z.leb_le _ _)) by apply zlen_nonneg. rewrite GetByIndex_mid.
      unfold ext_ok, maxOffset, extEnd in *. cbn [must obind]. unwrap_in_range.
      rewrite (proj2 (Z.ltb_lt _ _)) by lia. rewrite PatchByIndex_mid. simpl. unwrap_in_range.
      replace (Length e - (size - FileOffset e)) with (FileOffset e + Length e - size) by lia.
      rewrite Hd. cbn [obind]. rewrite zlen_app, zlen_cons, <- app_assoc. cbn [app]. unfold zlen at 3. simpl.
      replace (Length e - (FileOffset e + Length e - size)) with (size - FileOffset e) by lia.
      do 2 f_equal; lia.
    + apply chain_app. exists (FileOffset e). split; [done|]. simpl. rewrite extEnd_headPart.
      split_and!; try done; lia.
    + eapply chain_weaken_lo; [|exact Hpost]. lia.
    + intros pos Hp. rewrite !cell_at_app, (cell_at_one _ e), (cell_at_headPart _ (FileOffset e)) by done.
      rewrite (proj2 (Z.ltb_lt pos size)) by lia.
      rewrite (cell_at_out _ _ _ _ Hpost) by lia. by destruct (cell_at [(FileOffset e, e)] pos).
    + rewrite <- app_assoc. apply Hs. intros s. simpl. unfold extEnd. case_match; lia.
Qed.

Lemma setSizeInMemory_ok now fileInode size :
  file_wf fileInode -> 0 <= size <= maxOffset ->
  exists fileInode',
    setSizeInMemory now fileInode size = Ret fileInode' /\ file_wf fileInode' /\
    (forall pos, file_cell fileInode' pos = truncated size (file_cell fileInode) pos) /\
    dirty fileInode' = true /\ Size (onDisk fileInode') = size /\
    ModificationTime (onDisk fileInode') = now /\ AttrChangeTime (onDisk fileInode') = now /\
    LinkCount (onDisk fileInode') = LinkCount (onDisk fileInode).
Proof.
  intros (exts & Hpl & Hwf & Hok) Hsz. unfold setSizeInMemory, fileExtents. rewrite Hpl. cbn [obind].
  destruct (trimPreceding_ok exts (LogSegmentMap (onDisk fileInode)) size Hwf Hok Hsz)
    as (pre & post & lsm' & Htrim & Hc1 & Hc2 & Hcell & Hok').
  rewrite Htrim. cbn [obind].
  destruct (truncateLoop_ok pre size post (S (length (pre ++ post))) size lsm') as (lsm2 & Ht & Hok2); try done.
  { rewrite length_app. lia. }
  rewrite Ht. cbn [obind]. eexists. split; [done|]. split; [|split; [|by repeat split]].
  - exists pre. split; [done|]. split; [|done]. eapply chain_weaken_hi; [|exact Hc1]. lia.
  - intros pos. unfold file_cell, truncated. simpl. rewrite Hpl.
    destruct (Z.ltb_spec pos size); [by apply Hcell|]. eapply cell_at_out; [exact Hc1|lia].
Qed.

(** ** Histories of a file *)

Inductive fileOp :=
| OpWrite (off len lsn lso : Z)
| OpSetSize (now size : Z).

Definition fileOp_in_range (op : fileOp) : Prop :=
  match op with
  | OpWrite off len _ lso => write_in_range off len lso
  | OpSetSize _ size => 0 <= size <= maxOffset
  end.

Definition runFileOp (fileInode : inMemoryInodeStruct) (op : fileOp) : res inMemoryInodeStruct :=
  match op with
  | OpWrite off len lsn lso => recordWrite fileInode off len lsn lso
  | OpSetSize now size => setSizeInMemory now fileInode size
  end.

Fixpoint runFileOps (fileInode : inMemoryInodeStruct) (ops : list fileOp) : res inMemoryInodeStruct :=
  match ops with
  | [] => Ret fileInode
  | op :: ops' => fileInode' <- runFileOp fileInode op ;; runFileOps fileInode' ops'
  end.

(** The reference: the newest write to a position since the last truncation
    below it. *)
Definition specFileOp (old : Z -> option (Z * Z)) (op : fileOp) : Z -> option (Z * Z) :=
  match op with
  | OpWrite off len lsn lso => written off len lsn lso old
  | OpSetSize _ size => truncated size old
  end.

Definition specFileOps (old : Z -> option (Z * Z)) (ops : list fileOp) : Z -> option (Z * Z) :=
  foldl specFileOp old ops.

Lemma specFileOps_ext ops : forall f g, (forall pos, f pos = g pos) ->
  forall pos, specFileOps f ops pos = specFileOps g ops pos.
Proof.
  induction ops as [|op ops IH]; intros f g Hfg pos; [apply Hfg|].
  simpl. apply IH. intros p. destruct op; simpl; unfold written, truncated; by case_match.
Qed.

Lemma runFileOp_ok fileInode op :
  file_wf fileInode -> fileOp_in_range op ->
  exists fileInode', runFileOp fileInode op = Ret fileInode' /\ file_wf fileInode' /\
    forall pos, file_cell fileInode' pos = specFileOp (file_cell fileInode) op pos.
Proof.
  intros Hwf Hr. destruct op as [off len lsn lso | now size]; simpl in *.
  - destruct (recordWrite_ok fileInode off len lsn lso Hwf Hr) as (i & H1 & H2 & H3 & _). eauto.
  - destruct (setSizeInMemory_ok now fileInode size Hwf Hr) as (i & H1 & H2 & H3 & _). eauto.
Qed.

(** A one-extent file used by the witnesses. *)
Definition oneExtentInode : inMemoryInodeStruct := sampleInode [mkExtent 0 10 5 0] 10.

Lemma oneExtentInode_wf : file_wf oneExtentInode.
Proof.
  exists [(0, mkExtent 0 10 5 0)]. split; [done|]. split.
  - unfold ext_wf, maxOffset; simpl; unfold ext_ok, extEnd, two64; simpl; lia.
  - intros lsn. change (LogSegmentMap (onDisk oneExtentInode)) with (<[5 := 10]> (∅ : gmap Z Z)).
    cbn [seg_bytes LogSegmentNumber Length]. destruct (Z.eqb_spec 5 lsn) as [<-|Hne]; [done|].
    by rewrite lookup_insert_ne.
Qed.

(** ** Properties *)

(** C18. [recordWrite] of a non-empty range that stays below 2^64, on a
    well-formed file inode, never panics, keeps the inode well formed
    (disjoint ordered extents, and [LogSegmentMap] equal to the bytes each
    segment holds), and makes exactly the written positions refer to the new
    log segment bytes while every other position is unchanged. *)
Theorem recordWrite_refines fileInode off len lsn lso :
  file_wf fileInode -> write_in_range off len lso ->
  exists fileInode',
    recordWrite fileInode off len lsn lso = Ret fileInode' /\ file_wf fileInode' /\
    forall pos, file_cell fileInode' pos =
      if (off <=? pos) && (pos <? off + len) then Some (lsn, lso + (pos - off)) else file_cell fileInode pos.
Proof.
  intros Hwf Hr. destruct (recordWrite_ok fileInode off len lsn lso Hwf Hr) as (i & H1 & H2 & H3 & _).
  by exists i.
Qed.

Lemma recordWrite_refines_witness :
  exists fileInode', recordWrite oneExtentInode 4 3 9 0 = Ret fileInode' /\ file_wf fileInode' /\
    forall pos, file_cell fileInode' pos =
      if (4 <=? pos) && (pos <? 4 + 3) then Some (9, 0 + (pos - 4)) else file_cell oneExtentInode pos.
Proof.
  apply (recordWrite_refines oneExtentInode 4 3 9 0 oneExtentInode_wf).
  unfold write_in_range, maxOffset, two64. lia.
Defined.

(** [setSizeInMemory] never panics on a well-formed file inode, records
    the new size and times, marks the inode dirty, keeps it well formed, and
    keeps the cells below the new size while every position at or beyond it
    becomes a hole. *)
Theorem setSizeInMemory_refines now fileInode size :
  file_wf fileInode -> 0 <= size <= maxOffset ->
  exists fileInode',
    setSizeInMemory now fileInode size = Ret fileInode' /\ file_wf fileInode' /\
    dirty fileInode' = true /\ Size (onDisk fileInode') = size /\
    ModificationTime (onDisk fileInode') = now /\ AttrChangeTime (onDisk fileInode') = now /\
    forall pos, file_cell fileInode' pos = if pos <? size then file_cell fileInode pos else None.
Proof.
  intros Hwf Hr. destruct (setSizeInMemory_ok now fileInode size Hwf Hr) as (i & ? & ? & ? & ? & ? & ? & ? & _).
  by exists i.
Qed.

Lemma setSizeInMemory_refines_witness :
  exists fileInode',
    setSizeInMemory 77 oneExtentInode 4 = Ret fileInode' /\ file_wf fileInode' /\
    dirty fileInode' = true /\ Size (onDisk fileInode') = 4 /\
    ModificationTime (onDisk fileInode') = 77 /\ AttrChangeTime (onDisk fileInode') = 77 /\
    forall pos, file_cell fileInode' pos = if pos <? 4 then file_cell oneExtentInode pos else None.
Proof.
  apply (setSizeInMemory_refines 77 oneExtentInode 4 oneExtentInode_wf).
  unfold maxOffset, two64. lia.
Defined.

(** Any history of in-range writes and size changes runs without a panic,
    and afterwards every position of the file refers to the newest write that
    covers it since the last truncation below it. *)
Theorem fileHistory_refines fileInode ops :
  file_wf fileInode -> Forall fileOp_in_range ops ->
  exists fileInode',
    runFileOps fileInode ops = Ret fileInode' /\ file_wf fileInode' /\
    forall pos, file_cell fileInode' pos = specFileOps (file_cell fileInode) ops pos.
Proof.
  intros Hwf Hr. revert fileInode Hwf. induction Hr as [|op ops Hop Hr IH]; intros fileInode Hwf; simpl.
  - by exists fileInode.
  - destruct (runFileOp_ok fileInode op Hwf Hop) as (i & -> & Hwf' & Hc). cbn [obind].
    destruct (IH i Hwf') as (i' & Hrun & Hwf2 & Hc2). exists i'. split; [done|]. split; [done|].
    intros pos. rewrite Hc2. by apply specFileOps_ext.
Qed.

Lemma fileHistory_refines_witness :
  exists fileInode',
    runFileOps oneExtentInode [OpWrite 4 3 9 0; OpSetSize 5 6; OpWrite 20 5 9 3] = Ret fileInode' /\
    file_wf fileInode' /\
    forall pos, file_cell fileInode' pos =
      specFileOps (file_cell oneExtentInode) [OpWrite 4 3 9 0; OpSetSize 5 6; OpWrite 20 5 9 3] pos.
Proof.
  apply (fileHistory_refines oneExtentInode _ oneExtentInode_wf).
  repeat constructor; simpl; unfold write_in_range, maxOffset, two64; lia.
Defined.

(** A zero-length [recordWrite] whose offset is inside an extent panics:
    the extent is split at the offset and the search for the predecessor then
    finds the offset as a key. *)
Theorem recordWrite_zero_length_panics fileInode exts pre e post off lsn lso :
  payload fileInode = FilePayload exts -> ext_wf exts ->
  exts = pre ++ (FileOffset e, e) :: post ->
  FileOffset e <= off < extEnd e ->
  recordWrite fileInode off 0 lsn lso = Panic.
Proof.
  intros Hpl Hwf Hex Hin. pose proof Hwf as Hwf'. rewrite Hex in Hwf'.
  apply chain_app in Hwf' as (mid & Hc1 & Hc2). pose proof (chain_le _ _ _ Hc1).
  pose proof Hc2 as (_ & Hlo & Hok & Hc3). apply chain_le in Hc3. unfold maxOffset in *.
  unfold recordWrite, fileExtents. rewrite Hpl. cbn [obind].
  destruct (splitPreceding_ok exts off Hwf) as (pre' & post' & -> & H1 & H2 & Hcell & _); [unfold maxOffset; lia|].
  cbn [obind]. rewrite uadd_small by lia. rewrite Z.add_0_r.
  assert (Hsome : exists c, cell_at exts off = Some c).
  { rewrite Hex, cell_at_app. simpl. rewrite (proj2 (Z.leb_le _ _)), (proj2 (Z.ltb_lt _ _)) by lia. simpl.
    destruct (cell_at pre off); by eexists. }
  destruct Hsome as [c Hc]. rewrite <- Hcell, cell_at_app, (cell_at_out _ _ _ _ H1) in Hc by lia.
  destruct post' as [|[k e'] post']; [done|]. destruct H2 as (-> & Hle & Hok' & Hc').
  assert (FileOffset e' = off) as Hoff.
  { simpl in Hc. destruct (Z.leb_spec (FileOffset e') off); [lia|]. simpl in Hc.
    rewrite (cell_at_out _ _ _ _ Hc') in Hc; [done|]. unfold extEnd. destruct Hok'. lia. }
  cbn [pruneLoop]. rewrite GetByIndex_mid. rewrite (proj2 (Z.leb_le _ _)) by lia. cbn [obind].
  unfold appendOrPut. rewrite Hoff. by rewrite BisectLeft_hit by (by eapply chain_below).
Qed.

Lemma recordWrite_zero_length_panics_witness : recordWrite oneExtentInode 4 0 9 0 = Panic.
Proof.
  apply (recordWrite_zero_length_panics oneExtentInode [(0, mkExtent 0 10 5 0)] [] (mkExtent 0 10 5 0) []);
    unfold extEnd, ext_wf, maxOffset, two64; simpl; try reflexivity; try lia.
  unfold ext_ok, extEnd, two64; simpl; lia.
Defined.
