(* ===== verification/ReadPlanFacts.v ===== *)
(** [getReadPlanHelper] returns exactly the cells of the requested range.

    A read plan is a list of steps; [plan_cell] says which log segment
    position (or hole) its [i]-th byte comes from. *)

From S2P Require Import Prelude SortedMap Blunder InodeTypes Extents ExtentsFacts.

Fixpoint plan_cell (plan : list ReadPlanStep) (i : Z) : option (Z * Z) :=
  match plan with
  | [] => None
  | step :: plan' =>
      if i <? rps_Length step
      then (if rps_LogSegmentNumber step =? 0 then None
            else Some (rps_LogSegmentNumber step, rps_Offset step + i))
      else plan_cell plan' (i - rps_Length step)
  end.

Definition plan_len (plan : list ReadPlanStep) : Z := zsum (map rps_Length plan).

Definition steps_nonempty (plan : list ReadPlanStep) : Prop :=
  Forall (fun step => 0 < rps_Length step) plan.

Lemma plan_len_app p1 p2 : plan_len (p1 ++ p2) = plan_len p1 + plan_len p2.
Proof. unfold plan_len. by rewrite map_app, zsum_app. Qed.

Lemma plan_len_cons s p : plan_len (s :: p) = rps_Length s + plan_len p.
Proof. done. Qed.

Lemma plan_len_nonneg p : steps_nonempty p -> 0 <= plan_len p.
Proof. induction 1; rewrite ?plan_len_cons; [done|]. lia. Qed.

Lemma plan_cell_app p1 p2 i :
  steps_nonempty p1 -> 0 <= i -> plan_cell (p1 ++ p2) i =
    if i <? plan_len p1 then plan_cell p1 i else plan_cell p2 (i - plan_len p1).
Proof.
  intros Hn. revert i. induction Hn as [|s p1 Hs Hn IH]; intros i Hi; simpl.
  - unfold plan_len. simpl. rewrite Z.sub_0_r. by rewrite (proj2 (Z.ltb_ge _ _)) by lia.
  - rewrite plan_len_cons. pose proof (plan_len_nonneg _ Hn).
    destruct (Z.ltb_spec i (rps_Length s)).
    + by rewrite (proj2 (Z.ltb_lt _ _)) by lia.
    + rewrite IH by lia. destruct (Z.ltb_spec (i - rps_Length s) (plan_len p1)),
        (Z.ltb_spec i (rps_Length s + plan_len p1)); try lia; [done|]. f_equal. lia.
Qed.

(** No extent of a live file refers to log segment 0, the zero-fill marker. *)
Definition segs_nonzero (exts : ext_list) : Prop :=
  Forall (fun p => LogSegmentNumber p.2 <> 0) exts.

Section ReadPlanFacts.
Context {W : Type} (accountName : string) (locate : Z -> St W error (string * string * string)).

(** The states the lookups run in and keep, and the locations they return. *)
Context (I : W -> Prop) (locOf : Z -> string * string * string).

(** The location of every segment the file refers to is known. *)
Definition located (exts : ext_list) : Prop :=
  Forall (fun p => forall w, I w ->
    exists w', locate (LogSegmentNumber p.2) w = (w', Ret (locOf (LogSegmentNumber p.2))) /\ I w') exts.

(** A step names the object its log segment is stored in. *)
Definition step_named (step : ReadPlanStep) : Prop :=
  rps_LogSegmentNumber step <> 0 ->
  rps_AccountName step = accountName /\
  (rps_ContainerName step, rps_ObjectName step, rps_ObjectPath step) = locOf (rps_LogSegmentNumber step).

(** [steps] covers the positions from [cur] to [cur'] with the cells of
    [exts], and only holes are left up to [term]. *)
Definition covers (exts : ext_list) (steps : list ReadPlanStep) (cur cur' term : Z) : Prop :=
  cur <= cur' <= term /\ plan_len steps = cur' - cur /\
  (steps_nonempty steps /\ Forall step_named steps) /\
  (forall i, 0 <= i < cur' - cur -> plan_cell steps i = cell_at exts (cur + i)) /\
  (forall pos, cur' <= pos < term -> cell_at exts pos = None).

Lemma covers_nil exts cur term :
  cur <= term -> (forall pos, cur <= pos < term -> cell_at exts pos = None) ->
  covers exts [] cur cur term.
Proof.
  intros Hle Hno. split; [lia|]. split; [unfold plan_len; simpl; lia|].
  split; [by split; constructor|]. split; [intros i Hi; lia | done].
Qed.

(** A hole up to [mid] in front of a covered range. *)
Lemma covers_hole exts steps cur mid cur' term :
  cur < mid -> (forall pos, cur <= pos < mid -> cell_at exts pos = None) ->
  covers exts steps mid cur' term ->
  covers exts (zeroFillStep (mid - cur) :: steps) cur cur' term.
Proof.
  intros Hlt Hno (Hle & Hlen & [Hne Hnm] & Hcell & Hrest). split; [lia|].
  split; [rewrite plan_len_cons; simpl; lia|].
  split; [split; constructor; [simpl; lia | done | by intros [] | done]|].
  split; [|done]. intros i Hi. simpl.
  destruct (Z.ltb_spec i (mid - cur)); [by rewrite Hno by lia|].
  rewrite Hcell by lia. f_equal. lia.
Qed.

(** Bytes of one extent in front of a covered range. *)
Lemma covers_extent exts e step steps cur mid cur' term :
  cur < mid -> LogSegmentNumber e <> 0 ->
  rps_LogSegmentNumber step = LogSegmentNumber e ->
  rps_Offset step = LogSegmentOffset e + (cur - FileOffset e) ->
  rps_Length step = mid - cur -> step_named step ->
  (forall pos, cur <= pos < mid ->
     cell_at exts pos = Some (LogSegmentNumber e, LogSegmentOffset e + (pos - FileOffset e))) ->
  covers exts steps mid cur' term ->
  covers exts (step :: steps) cur cur' term.
Proof.
  intros Hlt Hnz Hn Ho Hl Hsn Hce (Hle & Hlen & [Hne Hnm] & Hcell & Hrest). split; [lia|].
  split; [rewrite plan_len_cons; lia|]. split; [split; constructor; [lia | done..]|].
  split; [|done]. intros i Hi. simpl. rewrite Hl, Hn.
  destruct (Z.ltb_spec i (mid - cur)).
  - rewrite Hce by lia. rewrite (proj2 (Z.eqb_neq _ _)) by done. do 2 f_equal. lia.
  - rewrite Hcell by lia. f_equal. lia.
Qed.

Lemma covers_skip exts k e steps cur cur' term :
  extEnd e <= cur -> covers exts steps cur cur' term -> covers ((k, e) :: exts) steps cur cur' term.
Proof.
  intros Hend (Hle & Hlen & Hne & Hcell & Hrest).
  assert (Hskip : forall pos, cur <= pos -> cell_at ((k, e) :: exts) pos = cell_at exts pos).
  { intros pos Hp. simpl. rewrite (proj2 (Z.ltb_ge pos _)) by lia. by rewrite andb_false_r. }
  split; [done|]. split; [done|]. split; [done|].
  split; [intros i Hi | intros pos Hp]; rewrite Hskip by lia; auto.
Qed.

(** The two halves of what the loop does with an extent [e] that meets the
    range: an optional hole, then bytes of [e] up to [stop]. *)
Lemma covers_step k e post hole step steps cur stop cur' term lo :
  ext_chain lo ((k, e) :: post) maxOffset -> 0 <= lo -> LogSegmentNumber e <> 0 ->
  let start := Z.max cur (FileOffset e) in
  start < stop -> stop <= extEnd e -> stop <= term ->
  hole = (if cur <? FileOffset e then [zeroFillStep (FileOffset e - cur)] else []) ->
  rps_LogSegmentNumber step = LogSegmentNumber e ->
  rps_Offset step = LogSegmentOffset e + (start - FileOffset e) ->
  rps_Length step = stop - start -> step_named step ->
  covers ((k, e) :: post) steps stop cur' term ->
  covers ((k, e) :: post) (hole ++ step :: steps) cur cur' term.
Proof.
  intros Hc Hlo Hnz start Hst He Ht -> Hn Ho Hl Hsn Hcov.
  pose proof Hc as (_ & Hk & _ & _).
  assert (Hext : covers ((k, e) :: post) (step :: steps) start cur' term).
  { apply (covers_extent _ e step steps start stop); try done.
    intros pos Hp. cbn [cell_at].
    by rewrite (proj2 (Z.leb_le _ _)), (proj2 (Z.ltb_lt _ _)) by lia. }
  destruct (Z.ltb_spec cur (FileOffset e)).
  - replace start with (FileOffset e) in Hext by lia. apply covers_hole; try done.
    intros pos Hp. eapply (cell_at_out (FileOffset e) _ maxOffset); [|lia].
    destruct Hc as (-> & _ & Hok & Hrest). simpl. split_and!; try done; lia.
  - replace start with cur in Hext by lia. done.
Qed.

Lemma covers_trailing exts steps cur cur' term :
  covers exts steps cur cur' term -> cur' < term ->
  covers exts (steps ++ [zeroFillStep (term - cur')]) cur term term.
Proof.
  intros (Hle & Hlen & [Hne Hnm] & Hcell & Hrest) Hlt. split; [lia|].
  split; [rewrite plan_len_app, Hlen; unfold plan_len; simpl; lia|].
  split; [split; (apply Forall_app; split; [done|]; constructor; [|constructor]); [simpl; lia | done]|].
  split; [|intros; lia]. intros i Hi. rewrite plan_cell_app, Hlen by (done || lia).
  destruct (Z.ltb_spec i (cur' - cur)); [apply Hcell; lia|]. simpl.
  rewrite (proj2 (Z.ltb_lt _ _)) by lia. symmetry. apply Hrest. lia.
Qed.

Lemma extentStep_ok e skip len w :
  (forall w, I w -> exists w', locate (LogSegmentNumber e) w = (w', Ret (locOf (LogSegmentNumber e))) /\ I w') ->
  I w ->
  exists w' step, extentStep accountName locate e skip len w = (w', Ret step) /\ I w' /\
    rps_LogSegmentNumber step = LogSegmentNumber e /\
    rps_Offset step = LogSegmentOffset e +u skip /\ rps_Length step = len /\ step_named step.
Proof.
  intros H Hw. destruct (H w Hw) as (w' & Hl & Hw'). unfold extentStep. rewrite (sbind_ret _ _ _ _ _ Hl).
  destruct (locOf (LogSegmentNumber e)) as [[c o] p] eqn:E.
  eexists w', _. split; [done|]. split; [done|]. split_and!; try done.
Qed.

Lemma readPlanLoop_ok post : forall pre fuel lo cur term plan w, I w ->
  (length post < fuel)%nat -> ext_chain lo post maxOffset -> 0 <= lo ->
  0 <= cur < term -> term <= maxOffset -> segs_nonzero post -> located post ->
  exists w' steps cur',
    readPlanLoop accountName locate fuel (pre ++ post) term (zlen pre) cur plan w = (w', Ret (plan ++ steps, cur')) /\
    I w' /\ covers post steps cur cur' term.
Proof.
  induction post as [|[k e] post IH]; intros pre fuel lo cur term plan w Hw Hf Hc Hlo Hcur Hterm Hnz Hloc;
    (destruct fuel as [|fuel]; [lia|]); cbn [readPlanLoop];
    rewrite (proj2 (Z.ltb_ge (zlen pre) 0)) by apply zlen_nonneg.
  - rewrite app_nil_r, GetByIndex_end. exists w, [], cur. rewrite app_nil_r.
    split; [done|]. split; [done|]. apply covers_nil; [lia|done].
  - rewrite GetByIndex_mid. pose proof Hc as (-> & Hk & Hok & Hc').
    inversion Hnz as [|? ? Hn Hnz']; inversion Hloc as [|? ? Hl Hloc']; subst. simpl in Hn, Hl.
    pose proof (chain_le _ _ _ Hc') as Hmax.
    assert (Hpre : pre ++ (FileOffset e, e) :: post = (pre ++ [(FileOffset e, e)]) ++ post)
      by (by rewrite <- app_assoc).
    assert (Hz : zlen pre + 1 = zlen (pre ++ [(FileOffset e, e)]))
      by (rewrite zlen_app, zlen_cons; unfold zlen at 3; simpl; lia).
    destruct (Z.leb_spec term (FileOffset e)).
    { exists w, [], cur. rewrite app_nil_r. split; [done|]. split; [done|]. apply covers_nil; [lia|].
      intros pos Hp. eapply (cell_at_out (FileOffset e) _ maxOffset); [|lia].
      simpl. split_and!; try done; lia. }
    assert (Hee : FileOffset e +u Length e = extEnd e)
      by (unfold maxOffset, extEnd in *; destruct Hok as (? & _); by unwrap_in_range).
    rewrite Hee. destruct (Z.leb_spec (extEnd e) cur).
    { rewrite Hpre, Hz. destruct (IH (pre ++ [(FileOffset e, e)]) fuel (extEnd e) cur term plan w)
        as (w' & steps & cur' & Hr & Hw' & Hcov); try done; [simpl in Hf; lia | destruct Hok; unfold extEnd; lia |].
      exists w', steps, cur'. split; [done|]. split; [done|]. by apply covers_skip. }
    set (hole := if cur <? FileOffset e then [zeroFillStep (FileOffset e - cur)] else []).
    set (start := Z.max cur (FileOffset e)).
    destruct Hok as (Hlen & Hso & Hse). unfold maxOffset in *.
    assert (Hx : (if cur <? FileOffset e
                  then (plan ++ [zeroFillStep (FileOffset e -u cur)], FileOffset e) else (plan, cur))
                 = (plan ++ hole, start)).
    { unfold hole, start. destruct (Z.ltb_spec cur (FileOffset e)); rewrite ?app_nil_r; unwrap_in_range;
        f_equal; lia. }
    assert (Hy : (if FileOffset e <? start then start -u FileOffset e else 0) = start - FileOffset e).
    { unfold start. zcases; unwrap_in_range; lia. }
    rewrite Hx, Hy.
    cbv zeta. unfold extEnd in *.
    destruct (Z.leb_spec term (FileOffset e + Length e)).
    + destruct (extentStep_ok e (start - FileOffset e) (term -u start) w Hl Hw)
        as (w1 & step & Hst & Hw1 & Hs1 & Hs2 & Hs3 & Hs4).
      rewrite (sbind_ret _ _ _ _ _ Hst). exists w1, (hole ++ [step]), term.
      split; [by rewrite app_assoc|]. split; [done|].
      rewrite usub_small in Hs3 by lia. rewrite uadd_small in Hs2 by lia.
      eapply (covers_step _ e post hole step [] cur term term term lo); try done; unfold extEnd; try lia.
      apply covers_nil; [lia | intros; lia].
    + destruct (extentStep_ok e (start - FileOffset e) (Length e -u (start - FileOffset e)) w Hl Hw)
        as (w1 & step & Hst & Hw1 & Hs1 & Hs2 & Hs3 & Hs4).
      rewrite (sbind_ret _ _ _ _ _ Hst). rewrite usub_small in Hs3 by lia. rewrite uadd_small in Hs2 by lia.
      rewrite Hs3, (uadd_small start) by lia. rewrite Hpre, Hz.
      replace (start + (Length e - (start - FileOffset e))) with (FileOffset e + Length e) by lia.
      destruct (IH (pre ++ [(FileOffset e, e)]) fuel (FileOffset e + Length e) (FileOffset e + Length e) term
                   ((plan ++ hole) ++ [step]) w1) as (w2 & steps & cur' & -> & Hw2 & Hcov); try done; try lia;
        [simpl in Hf; lia|].
      exists w2, (hole ++ step :: steps), cur'. split; [by rewrite <- !app_assoc|]. split; [done|].
      eapply (covers_step _ e post hole step steps cur (FileOffset e + Length e) cur' term lo);
        try done; unfold extEnd; try lia.
      by apply covers_skip; [unfold extEnd; lia|].
Qed.
(** The loop entered at the index [BisectLeft] returns. *)
Lemma readPlan_from_bisect exts off term w :
  I w ->
  ext_wf exts -> 0 <= off < term -> term <= maxOffset -> segs_nonzero exts -> located exts ->
  exists w' steps cur',
    readPlanLoop accountName locate (S (S (length exts))) exts term (BisectLeft exts off).1 off [] w
      = (w', Ret (steps, cur')) /\ I w' /\
    covers exts steps off cur' term.
Proof.
  intros Hw Hwf Hoff Hterm Hnz Hloc.
  assert (Hgen : forall pre post, exts = pre ++ post -> ext_chain 0 pre off ->
            exists w' steps cur',
              readPlanLoop accountName locate (S (S (length exts))) exts term (zlen pre) off [] w
                = (w', Ret (steps, cur')) /\ I w' /\
              covers exts steps off cur' term).
  { intros pre post -> Hpre. apply chain_app in Hwf as (mid & Hc1 & Hc2).
    apply Forall_app in Hnz as [_ Hnz]. apply Forall_app in Hloc as [_ Hloc].
    pose proof (chain_le _ _ _ Hc1).
    destruct (readPlanLoop_ok post pre (S (S (length (pre ++ post)))) mid off term [] w)
      as (w' & steps & cur' & Hr & Hw' & Hcov); try done; [rewrite length_app; lia|].
    exists w', steps, cur'. split; [done|]. split; [done|]. destruct Hcov as (Hle & Hlen & Hne & Hcell & Hrest).
    assert (Hp : forall pos, off <= pos -> cell_at (pre ++ post) pos = cell_at post pos).
    { intros pos Hp. rewrite cell_at_app. by rewrite (cell_at_out _ _ _ _ Hpre) by lia. }
    split; [done|]. split; [done|]. split; [done|].
    split; [intros i Hi | intros pos Hi]; rewrite Hp by lia; auto. }
  destruct (chain_split exts off Hwf ltac:(lia)) as [pre e post Hl Hb Hpre Hpost | pre post Hl Hb Hpre Hpost
                                            | pre e post Hl Hb Hpre Hin Hok Hpost]; rewrite Hb; cbn [fst].
  - by apply (Hgen pre ((off, e) :: post)).
  - destruct (snoc_cases pre) as [->|(pre' & [k e] & ->)].
    + apply (Hgen [] post Hl). simpl. lia.
    + replace (zlen (pre' ++ [(k, e)]) - 1) with (zlen pre')
        by (rewrite zlen_app, zlen_cons; unfold zlen; simpl; lia).
      apply (Hgen pre' ((k, e) :: post)); [by rewrite Hl, <- app_assoc|].
      apply chain_app in Hpre as (mid & Hc1 & Hc2). apply chain_le in Hc2. by eapply chain_weaken_hi.
  - apply (Hgen pre ((FileOffset e, e) :: post) Hl). eapply chain_weaken_hi; [|exact Hpre]. lia.
Qed.

Definition clip (size off len : Z) : Z := Z.max 0 (Z.min len (size - off)).

Lemma getReadPlanHelper_ok fileInode exts ro rl off len w :
  I w ->
  payload fileInode = FilePayload exts -> ext_wf exts -> segs_nonzero exts -> located exts ->
  0 <= Size (onDisk fileInode) <= maxOffset ->
  requestedRange (Size (onDisk fileInode)) ro rl = Some (off, len) ->
  0 <= off -> 0 <= len -> off + len < two64 ->
  let n := clip (Size (onDisk fileInode)) off len in
  exists w' plan,
    getReadPlanHelper accountName locate fileInode ro rl w = (w', Ret (plan, n)) /\ I w' /\
    plan_len plan = n /\ (steps_nonempty plan /\ Forall step_named plan) /\
    (forall i, 0 <= i < n -> plan_cell plan i = file_cell fileInode (off + i)).
Proof.
  intros Hw Hpl Hwf Hnz Hloc Hsz Hrr Ho Hl Hol n. unfold getReadPlanHelper. rewrite Hrr.
  set (size := Size (onDisk fileInode)) in *. unfold maxOffset in *.
  rewrite (uadd_small off len) by lia.
  replace (if size <? off + len then if off <? size then size -u off else 0 else len) with n
    by (unfold n, clip; zcases; unwrap_in_range; lia).
  assert (Hn : 0 <= n /\ (n = 0 \/ off + n <= size)) by (unfold n, clip; lia).
  destruct (Z.eqb_spec 0 n) as [<-|Hnn].
  { exists w, []. split; [done|]. split; [done|]. split; [done|]. split; [by split; constructor|]. intros; lia. }
  unfold fileExtents, file_cell. rewrite Hpl. unfold slift, sbind at 1.
  rewrite (uadd_small off n) by lia.
  destruct (readPlan_from_bisect exts off (off + n) w) as (w' & steps & cur' & Hr & Hw' & Hcov);
    try done; unfold maxOffset; try lia.
  destruct (BisectLeft exts off) as [idx found]. cbn [fst] in Hr. rewrite (sbind_ret _ _ _ _ _ Hr).
  pose proof Hcov as (Hle & _).
  assert (Hfin : exists plan, covers exts plan off (off + n) (off + n) /\
            (if cur' <? off + n then sret (steps ++ [zeroFillStep (off + n -u cur')], n)
             else sret (steps, n)) = (sret (plan, n) : St W error _)).
  { destruct (Z.ltb_spec cur' (off + n)).
    - exists (steps ++ [zeroFillStep (off + n - cur')]). split; [by apply covers_trailing|].
      by unwrap_in_range.
    - exists steps. split; [|done]. by replace (off + n) with cur' in * by lia. }
  destruct Hfin as (plan & (_ & Hlen & Hne & Hcell & _) & ->).
  exists w', plan. split; [done|]. split; [done|]. split; [lia|]. split; [done|]. intros i Hi. apply Hcell. lia.
Qed.
End ReadPlanFacts.

(** ** Properties *)

(** C36. For every request whose range does not wrap (an offset and a length,
    a prefix request not beyond the end, a suffix request no longer than the
    file), [getReadPlanHelper] returns, without a panic, a plan of non-empty
    steps whose total length is the requested length clipped to the file size
    and whose [i]-th byte is the log segment byte (or hole) that position
    [offset + i] of the file refers to; every step that is not a hole names
    the object of its log segment.  [Inv] is an invariant of the state the
    locations are looked up in. *)
Theorem getReadPlanHelper_exact {W} accountName (locate : Z -> St W error _) Inv locOf fileInode exts ro rl off len w :
  Inv w ->
  payload fileInode = FilePayload exts -> ext_wf exts -> segs_nonzero exts -> located locate Inv locOf exts ->
  0 <= Size (onDisk fileInode) <= maxOffset ->
  requestedRange (Size (onDisk fileInode)) ro rl = Some (off, len) ->
  0 <= off -> 0 <= len -> off + len < two64 ->
  exists w' plan,
    getReadPlanHelper accountName locate fileInode ro rl w
      = (w', Ret (plan, Z.max 0 (Z.min len (Size (onDisk fileInode) - off)))) /\ Inv w' /\
    plan_len plan = Z.max 0 (Z.min len (Size (onDisk fileInode) - off)) /\
    (steps_nonempty plan /\ Forall (step_named accountName locOf) plan) /\
    forall i, 0 <= i < Z.max 0 (Z.min len (Size (onDisk fileInode) - off)) ->
      plan_cell plan i = file_cell fileInode (off + i).
Proof. intros. by eapply getReadPlanHelper_ok. Qed.

Definition someLocOf (lsn : Z) : string * string * string := ("c", "o", "/v1/a/c/o")%string.

Definition someLocation (lsn : Z) : St unit error (string * string * string) := sret (someLocOf lsn).

Lemma getReadPlanHelper_exact_witness :
  exists w' plan,
    getReadPlanHelper "a" someLocation (sampleInode [mkExtent 5 10 7 0] 20) (Some 2) None tt
      = (w', Ret (plan, Z.max 0 (Z.min 18 (20 - 2)))) /\ True /\
    plan_len plan = Z.max 0 (Z.min 18 (20 - 2)) /\
    (steps_nonempty plan /\ Forall (step_named "a" someLocOf) plan) /\
    forall i, 0 <= i < Z.max 0 (Z.min 18 (20 - 2)) ->
      plan_cell plan i = file_cell (sampleInode [mkExtent 5 10 7 0] 20) (2 + i).
Proof.
  apply (getReadPlanHelper_exact "a" someLocation (fun _ => True) someLocOf (sampleInode [mkExtent 5 10 7 0] 20)
           [(5, mkExtent 5 10 7 0)] (Some 2) None 2 18 tt); try reflexivity; try lia.
  - unfold ext_wf, maxOffset; simpl; unfold ext_ok, extEnd, two64; simpl; lia.
  - repeat constructor; simpl; lia.
  - constructor; [|constructor]. intros w _. by exists w.
  - simpl; unfold maxOffset, two64; lia.
Defined.

(** A suffix request ("bytes=-N") longer than the file does not return
    the whole file: the subtraction of the length from the file size wraps,
    and the plan is empty although the reported byte count is the requested
    length. *)
Theorem getReadPlanHelper_long_suffix_empty {W} accountName (locate : Z -> St W error _) fileInode exts len w :
  payload fileInode = FilePayload exts -> ext_wf exts ->
  Forall (fun p => extEnd p.2 <= Size (onDisk fileInode)) exts ->
  0 < Size (onDisk fileInode) < len -> len < two64 ->
  getReadPlanHelper accountName locate fileInode None (Some len) w = (w, Ret ([], len)).
Proof.
  intros Hpl Hwf Hend Hlt Hl64. unfold getReadPlanHelper, requestedRange.
  set (size := Size (onDisk fileInode)) in *.
  rewrite (usub_wrap size len), (uadd_wrap (size - len + two64) len) by lia.
  replace (size - len + two64 + len - two64) with size by lia.
  rewrite Z.ltb_irrefl, (proj2 (Z.eqb_neq 0 len)) by lia.
  unfold fileExtents. rewrite Hpl. unfold slift, sbind at 1.
  set (off := size - len + two64).
  assert (Hb : BisectLeft exts off = (zlen exts - 1, false)).
  { rewrite <- (app_nil_r exts) at 1. apply BisectLeft_miss; [|done].
    eapply Forall_impl; [apply Forall_and; split; [exact (chain_starts _ _ _ Hwf) | exact Hend]|].
    intros p [H1 H2]. apply Z.ltb_lt. unfold off. lia. }
  rewrite Hb. unfold off. rewrite (uadd_wrap (size - len + two64) len) by lia.
  replace (size - len + two64 + len - two64) with size by lia. fold off.
  assert (Hloop : readPlanLoop accountName locate (S (S (length exts))) exts size (zlen exts - 1) off [] w
                  = (w, Ret ([], off))).
  { destruct (snoc_cases exts) as [->|(exts' & [k e] & ->)]; [done|]. cbn [readPlanLoop].
    assert (Hz : zlen (exts' ++ [(k, e)]) - 1 = zlen exts')
      by (rewrite zlen_app, zlen_cons; unfold zlen; simpl; lia).
    rewrite Hz, (proj2 (Z.ltb_ge (zlen exts') 0)) by apply zlen_nonneg.
    rewrite GetByIndex_mid. apply Forall_app in Hend as [_ Hend].
    inversion Hend as [|? ? He _]; subst. simpl in He.
    apply chain_app in Hwf as (mid & Hc1 & Hc2). apply chain_le in Hc1.
    simpl in Hc2. destruct Hc2 as (_ & Hlo & (Hl & _) & Hmax). unfold extEnd, maxOffset in *.
    rewrite (proj2 (Z.leb_gt _ _)) by lia. unwrap_in_range.
    rewrite (proj2 (Z.leb_le _ _)) by (unfold off; lia).
    rewrite (proj2 (Z.ltb_ge (zlen exts' + 1) 0)) by (pose proof (zlen_nonneg exts'); lia).
    replace (zlen exts' + 1) with (zlen (exts' ++ [(k, e)])) by lia.
    by rewrite GetByIndex_end. }
  rewrite (sbind_ret _ _ _ _ _ Hloop). by rewrite (proj2 (Z.ltb_ge off size)) by (unfold off; lia).
Qed.

Lemma getReadPlanHelper_long_suffix_empty_witness :
  getReadPlanHelper "a" someLocation oneExtentInode None (Some 11) tt = (tt, Ret ([], 11)).
Proof.
  apply (getReadPlanHelper_long_suffix_empty "a" someLocation oneExtentInode [(0, mkExtent 0 10 5 0)] 11 tt);
    try reflexivity.
  - unfold ext_wf, maxOffset; simpl; unfold ext_ok, extEnd, two64; simpl; lia.
  - repeat constructor; unfold extEnd; simpl; lia.
  - simpl; lia.
Defined.
