(* ===== verification/ReadCache.v ===== *)
(** Package [inode]: the read cache of a flow control (config.go,
    file_flusher.go).

    The elements of the cache are a doubly linked list in Go's heap, from the
    most to the least recently used one, and a map from keys to elements.  The
    model keeps both: [heap] has the element structs by address, and a
    dereference of nil is [Panic].  The code that moves an element to the MRU
    position and the code that inserts a new one occur twice in [doReadPlan];
    they are one definition each. *)

From S2P Require Import Prelude Blunder.
Open Scope list_scope.

Record readCacheKeyStruct := mkKey {
  rk_volumeName : string;
  rk_logSegmentNumber : Z;
  rk_cacheLineTag : Z
}.

#[export] Instance readCacheKey_eq_dec : EqDecision readCacheKeyStruct.
Proof. solve_decision. Defined.

#[export] Instance readCacheKey_countable : Countable readCacheKeyStruct.
Proof.
  apply (inj_countable' (fun k => (rk_volumeName k, rk_logSegmentNumber k, rk_cacheLineTag k))
           (fun p => mkKey p.1.1 p.1.2 p.2)). by intros [].
Defined.

Record readCacheElementStruct := mkElement {
  readCacheKey : readCacheKeyStruct;
  next : option Z;
  prev : option Z;
  cacheLine : bytes
}.

#[export] Instance eta_element : Eta readCacheElementStruct := fun e =>
  mkElement (readCacheKey e) (next e) (prev e) (cacheLine e).

Record flowControlStruct := mkFlow {
  maxFlushSize : Z;
  readCacheLineSize : Z;
  readCacheLineCount : Z;
  readCache : gmap readCacheKeyStruct Z;
  readCacheMRU : option Z;
  readCacheLRU : option Z;
  heap : gmap Z readCacheElementStruct;
  heapNext : Z
}.

#[export] Instance eta_flow : Eta flowControlStruct := fun f =>
  mkFlow (maxFlushSize f) (readCacheLineSize f) (readCacheLineCount f) (readCache f) (readCacheMRU f)
    (readCacheLRU f) (heap f) (heapNext f).

(** [p->f = v] for a pointer that may be nil. *)
Definition deref (f : flowControlStruct) (p : option Z) : res (Z * readCacheElementStruct) :=
  match p with
  | None => Panic
  | Some a => match heap f !! a with Some e => Ret (a, e) | None => Panic end
  end.

Definition setNext (f : flowControlStruct) (p v : option Z) : res flowControlStruct :=
  '(a, e) <- deref f p ;; Ret (f <| heap := <[a := e <| next := v |>]> (heap f) |>).

Definition setPrev (f : flowControlStruct) (p v : option Z) : res flowControlStruct :=
  '(a, e) <- deref f p ;; Ret (f <| heap := <[a := e <| prev := v |>]> (heap f) |>).

(** A hit: the element leaves its position, ... *)
Definition unlink (f : flowControlStruct) (a : Z) : res flowControlStruct :=
  '(_, e) <- deref f (Some a) ;;
  if bool_decide (Some a = readCacheLRU f) then
    let f := f <| readCacheLRU := prev e |> in
    setNext f (readCacheLRU f) None
  else
    f <- setNext f (prev e) (next e) ;;
    setPrev f (next e) (prev e).

(** ... and becomes the MRU element. *)
Definition linkFront (f : flowControlStruct) (a : Z) : res flowControlStruct :=
  f <- setNext f (Some a) (readCacheMRU f) ;;
  f <- setPrev f (Some a) None ;;
  f <- setPrev f (readCacheMRU f) (Some a) ;;
  Ret (f <| readCacheMRU := Some a |>).

Definition touch (f : flowControlStruct) (a : Z) : res flowControlStruct :=
  if bool_decide (readCacheMRU f = Some a) then Ret f
  else f <- unlink f a ;; linkFront f a.

(** What [doReadPlan] does under the flow control's lock to look a line up. *)
Definition lookupLine (f : flowControlStruct) (key : readCacheKeyStruct) : res (flowControlStruct * option bytes) :=
  match readCache f !! key with
  | Some a =>
      f <- touch f a ;;
      '(_, e) <- deref f (Some a) ;;
      Ret (f, Some (cacheLine e))
  | None => Ret (f, None)
  end.

(** A miss: the least recently used element goes if the cache is full. *)
Definition evictIfFull (f : flowControlStruct) : res flowControlStruct :=
  if readCacheLineCount f <=? Z.of_nat (size (readCache f)) then
    '(_, lru) <- deref f (readCacheLRU f) ;;
    let f := f <| readCache := delete (readCacheKey lru) (readCache f) |> in
    if 1 =? readCacheLineCount f then Ret (f <| readCacheMRU := None |> <| readCacheLRU := None |>)
    else
      let f := f <| readCacheLRU := prev lru |> in
      setNext f (readCacheLRU f) None
  else Ret f.

(** The new element becomes the MRU one. *)
Definition insertLine (f : flowControlStruct) (key : readCacheKeyStruct) (line : bytes) : res flowControlStruct :=
  let a := heapNext f in
  let f := f <| heap := <[a := mkElement key None None line]> (heap f) |> <| heapNext := a + 1 |> in
  f <- evictIfFull f ;;
  let f := f <| readCache := <[key := a]> (readCache f) |> in
  match readCacheMRU f with
  | None => Ret (f <| readCacheMRU := Some a |> <| readCacheLRU := Some a |>)
  | Some _ =>
      f <- setNext f (Some a) (readCacheMRU f) ;;
      '(_, e) <- deref f (Some a) ;;
      f <- setPrev f (next e) (Some a) ;;
      Ret (f <| readCacheMRU := Some a |>)
  end.

(** [capReadCache]: the map is never made smaller, so the loop ends only by
    running off the list; [fuel] bounds the walk. *)
Fixpoint capLoop (fuel : nat) (f : flowControlStruct) : option (res flowControlStruct) :=
  if readCacheLineCount f <? Z.of_nat (size (readCache f)) then
    match fuel with
    | O => None
    | S fuel' =>
        match deref f (readCacheLRU f) with
        | Ret (_, lru) =>
            let f := f <| readCacheLRU := prev lru |> in
            match setNext f (readCacheLRU f) None with
            | Ret f' => capLoop fuel' f'
            | Err e => Some (Err e)
            | Panic => Some Panic
            end
        | Err e => Some (Err e)
        | Panic => Some Panic
        end
    end
  else Some (Ret f).

Definition emptyFlow (flushSize lineSize lineCount : Z) : flowControlStruct :=
  mkFlow flushSize lineSize lineCount ∅ None None ∅ 0.
