(* ===== verification/ReadCacheFacts.v ===== *)
(** The read cache is a least-recently-used list.

    [dseg] says that a part of the heap is a doubly linked list segment and
    [wf_cache] that a flow control holds the list of lines it is given, most
    recently used first, with the map pointing at its elements. *)

From S2P Require Import Prelude Blunder ReadCache.
Open Scope list_scope.

(** An element: its address, key and line. *)
Abbreviation elem := (Z * (readCacheKeyStruct * bytes))%type.

Definition hd_or (l : list elem) (n : option Z) : option Z :=
  match l with [] => n | x :: _ => Some x.1 end.

Definition last_or (p : option Z) (l : list elem) : option Z :=
  match last l with None => p | Some x => Some x.1 end.

Fixpoint dseg (h : gmap Z readCacheElementStruct) (p : option Z) (l : list elem) (n : option Z) : Prop :=
  match l with
  | [] => True
  | (a, (k, b)) :: l' => h !! a = Some (mkElement k (hd_or l' n) p b) /\ dseg h (Some a) l' n
  end.

Record wf_cache (f : flowControlStruct) (l : list elem) : Prop := {
  wf_seg : dseg (heap f) None l None;
  wf_mru : readCacheMRU f = hd_or l None;
  wf_lru : readCacheLRU f = last_or None l;
  wf_addrs : NoDup l.*1;
  wf_keys : NoDup l.*2.*1;
  wf_map : readCache f = list_to_map ((fun x : elem => (x.2.1, x.1)) <$> l);
  wf_fresh : Forall (fun x => x.1 < heapNext f) l
}.

(** ** Segments *)

Lemma last_or_snoc p l x : last_or p (l ++ [x]) = Some x.1.
Proof. unfold last_or. by rewrite last_snoc. Qed.

Lemma last_or_cons p x l : last_or p (x :: l) = last_or (Some x.1) l.
Proof. unfold last_or. rewrite last_cons. by destruct (last l). Qed.

Lemma last_or_app p l1 l2 : last_or p (l1 ++ l2) = last_or (last_or p l1) l2.
Proof. revert p. induction l1 as [|x l1 IH]; intros p; simpl; [done|]. by rewrite !last_or_cons. Qed.

Lemma hd_or_app l1 l2 n : hd_or (l1 ++ l2) n = hd_or l1 (hd_or l2 n).
Proof. by destruct l1. Qed.

Lemma dseg_app h p l1 l2 n :
  dseg h p (l1 ++ l2) n <-> dseg h p l1 (hd_or l2 n) /\ dseg h (last_or p l1) l2 n.
Proof.
  revert p. induction l1 as [|[a [k b]] l1 IH]; intros p; simpl; [tauto|].
  rewrite IH, hd_or_app, last_or_cons. simpl. tauto.
Qed.

Lemma dseg_ext h h' p l n :
  (forall a, a ∈ l.*1 -> h' !! a = h !! a) -> dseg h p l n -> dseg h' p l n.
Proof.
  revert p. induction l as [|[a [k b]] l IH]; intros p Hext; simpl; [done|]. intros [Ha Hl]. split.
  - rewrite Hext; [done|]. simpl. by apply elem_of_cons; left.
  - apply IH; [|done]. intros c Hc. apply Hext. simpl. by apply elem_of_cons; right.
Qed.

Lemma dseg_insert h a e p l n : a ∉ l.*1 -> dseg h p l n -> dseg (<[a := e]> h) p l n.
Proof.
  intros Ha. apply dseg_ext. intros c Hc. apply lookup_insert_ne. by intros ->.
Qed.

Lemma deref_ok f a e : heap f !! a = Some e -> deref f (Some a) = Ret (a, e).
Proof. intros H. unfold deref. by rewrite H. Qed.

Lemma setNext_ok f a e v :
  heap f !! a = Some e -> setNext f (Some a) v = Ret (f <| heap := <[a := e <| next := v |>]> (heap f) |>).
Proof. intros H. unfold setNext, deref. by rewrite H. Qed.

Lemma setPrev_ok f a e v :
  heap f !! a = Some e -> setPrev f (Some a) v = Ret (f <| heap := <[a := e <| prev := v |>]> (heap f) |>).
Proof. intros H. unfold setPrev, deref. by rewrite H. Qed.

(** The [next] of the last element of a segment. *)
Lemma setNext_last f p l a k b n v :
  dseg (heap f) p (l ++ [(a, (k, b))]) n -> NoDup (l ++ [(a, (k, b))]).*1 ->
  exists e, setNext f (Some a) v = Ret (f <| heap := <[a := e]> (heap f) |>) /\
    dseg (<[a := e]> (heap f)) p (l ++ [(a, (k, b))]) v.
Proof.
  rewrite fmap_app, dseg_app. simpl. intros [Hl [Ha _]] [_ [Hd _]]%NoDup_app.
  eexists. split; [by apply setNext_ok|]. apply dseg_app. simpl. split.
  - apply dseg_insert; [|done]. intros Hin. eapply Hd; [exact Hin|]. by apply list_elem_of_singleton.
  - by rewrite lookup_insert_eq.
Qed.

(** The [prev] of the first one. *)
Lemma setPrev_head f p a k b l n v :
  dseg (heap f) p ((a, (k, b)) :: l) n -> NoDup ((a, (k, b)) :: l).*1 ->
  exists e, setPrev f (Some a) v = Ret (f <| heap := <[a := e]> (heap f) |>) /\
    dseg (<[a := e]> (heap f)) v ((a, (k, b)) :: l) n.
Proof.
  simpl. intros [Ha Hl] [Hn _]%NoDup_cons. eexists. split; [by apply setPrev_ok|].
  rewrite lookup_insert_eq. split; [done|]. by apply dseg_insert.
Qed.

Lemma last_in (l : list elem) x : last l = Some x -> x.1 ∈ l.*1.
Proof.
  intros [l' ->]%last_Some. rewrite fmap_app. apply elem_of_app. right. by apply list_elem_of_singleton.
Qed.

(** ** A hit *)

(** The element leaves its position; it keeps its own links. *)
Lemma unlink_ok f l1 a k b l2 :
  wf_cache f (l1 ++ (a, (k, b)) :: l2) -> l1 <> [] ->
  exists h e, unlink f a = Ret (f <| heap := h |> <| readCacheLRU := last_or None (l1 ++ l2) |>) /\
    dseg h None (l1 ++ l2) None /\ h !! a = Some e /\ readCacheKey e = k /\ cacheLine e = b.
Proof.
  intros [Hs _ Hlru Ha _ _ _] Hne. destruct (snoc_cases l1) as [->|(l1' & [q [qk qb]] & ->)]; [done|]. clear Hne.
  rewrite last_or_app, last_or_snoc. rewrite last_or_app in Hlru. cbn [fst].
  apply dseg_app in Hs as [Hs1 [Hsa Hs2]]. rewrite last_or_snoc in Hsa. cbn [fst hd_or] in *.
  rewrite fmap_app in Ha. apply NoDup_app in Ha as (Ha1 & Hd & [Han Ha2]%NoDup_cons).
  assert (Han1 : a ∉ (l1' ++ [(q, (qk, qb))]).*1)
    by (intros Hin; eapply Hd; [exact Hin | by apply elem_of_cons; left]).
  assert (Hqa : q <> a).
  { intros ->. apply Han1. rewrite fmap_app. apply elem_of_app. right. by apply list_elem_of_singleton. }
  unfold unlink, deref. rewrite Hsa. cbn [obind prev next].
  destruct l2 as [|[c [ck cb]] l2'].
  - cbn [last_or last fst] in *. rewrite bool_decide_eq_true_2 by done.
    destruct (setNext_last (f <| readCacheLRU := Some q |>) None l1' q qk qb (Some a) None) as (e & He & Hd');
      [done..|].
    cbn [readCacheLRU]. exists (<[q:=e]> (heap f)), (mkElement k None (Some q) b).
    split; [exact He|]. rewrite app_nil_r. split; [done|].
    by rewrite lookup_insert_ne.
  - rewrite !last_or_cons in Hlru. cbn [fst hd_or] in *.
    assert (Hca : c <> a) by (intros ->; apply Han; simpl; by apply elem_of_cons; left).
    rewrite bool_decide_eq_false_2.
    2: { rewrite Hlru. unfold last_or. destruct (last l2') as [x|] eqn:E; [|congruence].
         intros [= ->]. apply Han. simpl. apply elem_of_cons. right.
         by apply last_in. }
    destruct (setNext_last f None l1' q qk qb (Some a) (Some c)) as (e & -> & Hd1); [done..|].
    cbn [obind].
    assert (Hs2' : dseg (<[q:=e]> (heap f)) (Some a) ((c, (ck, cb)) :: l2') None).
    { apply dseg_insert; [|done]. intros Hin. eapply Hd; [|apply elem_of_cons; right; exact Hin].
      rewrite fmap_app. apply elem_of_app. right. by apply list_elem_of_singleton. }
    destruct (setPrev_head (f <| heap := <[q:=e]> (heap f) |>) (Some a) c ck cb l2' None (Some q))
      as (e2 & Hsp & Hd2); [done..|].
    exists (<[c:=e2]> (<[q:=e]> (heap f))), (mkElement k (Some c) (Some q) b). split_and!; try done.
    + replace (last_or (Some q) ((c, (ck, cb)) :: l2')) with (readCacheLRU f)
        by (rewrite Hlru, last_or_cons; done).
      rewrite Hsp. by destruct f.
    + apply dseg_app. rewrite last_or_snoc. split; [|exact Hd2]. apply dseg_insert; [|done].
      intros Hin. eapply Hd; [exact Hin|]. simpl. apply elem_of_cons. right. by apply elem_of_cons; left.
    + by rewrite !lookup_insert_ne.
Qed.

Lemma linkFront_ok f l a e :
  dseg (heap f) None l None -> NoDup l.*1 -> readCacheMRU f = hd_or l None -> l <> [] ->
  heap f !! a = Some e -> a ∉ l.*1 ->
  exists h, linkFront f a = Ret (f <| heap := h |> <| readCacheMRU := Some a |>) /\
    dseg h None ((a, (readCacheKey e, cacheLine e)) :: l) None.
Proof.
  intros Hs Hn Hm Hne He Ha. destruct l as [|[c [ck cb]] l]; [done|]. cbn [hd_or fst] in *.
  unfold linkFront. rewrite (setNext_ok f a e _ He), Hm. cbn [obind].
  rewrite (setPrev_ok _ a (e <| next := Some c |>)) by (cbn; by rewrite lookup_insert_eq). cbn [obind].
  set (h1 := <[a:=_]> _). cbn in h1.
  assert (Hs1 : dseg h1 None ((c, (ck, cb)) :: l) None) by (by do 2 (apply dseg_insert; [done|])).
  destruct (setPrev_head (f <| heap := h1 |>) None c ck cb l None (Some a)) as (e2 & Hsp & Hd2); [done..|].
  replace (readCacheMRU _) with (Some c) by (by cbn).
  exists (<[c := e2]> h1). split; [|split].
  - change (setPrev _ _ _) with (setPrev (f <| heap := h1 |>) (Some c) (Some a)). by rewrite Hsp.
  - rewrite lookup_insert_ne; [unfold h1; by rewrite lookup_insert_eq|].
    intros ->. apply Ha. simpl. by apply elem_of_cons; left.
  - exact Hd2.
Qed.

(** A hit moves the element to the front and changes nothing else. *)
Lemma touch_ok f l1 x l2 :
  wf_cache f (l1 ++ x :: l2) ->
  exists f', touch f x.1 = Ret f' /\ wf_cache f' (x :: l1 ++ l2) /\
    readCache f' = readCache f /\ readCacheLineCount f' = readCacheLineCount f /\
    readCacheLineSize f' = readCacheLineSize f /\ maxFlushSize f' = maxFlushSize f.
Proof.
  intros Hwf. destruct x as [a [k b]]. pose proof Hwf as [Hs Hm Hl Ha Hk Hc Hf].
  assert (Hp : l1 ++ (a, (k, b)) :: l2 ≡ₚ (a, (k, b)) :: l1 ++ l2) by (symmetry; apply Permutation_middle).
  destruct (decide (l1 = [])) as [->|Hne].
  { exists f. unfold touch. rewrite bool_decide_eq_true_2 by done. by split_and!. }
  destruct (unlink_ok f l1 a k b l2 Hwf Hne) as (h & e & Hu & Hd & He & <- & <-).
  unfold touch. rewrite bool_decide_eq_false_2.
  2: { destruct l1 as [|y l1]; [done|]. rewrite Hm. simpl. intros [= Heq].
       rewrite <- app_comm_cons, fmap_cons in Ha. apply NoDup_cons in Ha as [Ha _]. apply Ha.
       rewrite Heq, fmap_app. apply elem_of_app. right. simpl. by apply elem_of_cons; left. }
  cbn [fst]. rewrite Hu. cbn [obind].
  set (x := (a, (readCacheKey e, cacheLine e))) in *.
  assert (Ha' : NoDup (x :: l1 ++ l2).*1) by (by rewrite <- Hp). pose proof Ha' as [Han Han2]%NoDup_cons.
  destruct (linkFront_ok (f <| heap := h |> <| readCacheLRU := last_or None (l1 ++ l2) |>) (l1 ++ l2) a e)
    as (h' & Hlf & Hd'); try done.
  { cbn; rewrite Hm. by destruct l1. }
  { by destruct l1. }
  eexists. split; [exact Hlf|]. split; [|by split_and!]. constructor; try done.
  - cbn. rewrite last_or_cons. destruct l1; [done|]. simpl. by rewrite !last_or_cons.
  - by rewrite <- Hp.
  - etransitivity; [exact Hc|]. apply list_to_map_proper; [|by rewrite Hp].
    rewrite <- list_fmap_compose. rewrite <- list_fmap_compose in Hk. exact Hk.
  - by rewrite <- Hp.
Qed.

(** ** A miss *)

Lemma wf_size f l : wf_cache f l -> size (readCache f) = length l.
Proof.
  intros [_ _ _ _ Hk Hm _]. rewrite Hm.
  rewrite <- (length_map (fun x : elem => (x.2.1, x.1)) l). change (map ?g l) with (g <$> l).
  set (m := (fun x : elem => (x.2.1, x.1)) <$> l).
  assert (Hn : NoDup m.*1) by (unfold m; rewrite <- list_fmap_compose; by rewrite <- list_fmap_compose in Hk).
  rewrite <- length_map_to_list. by rewrite (Permutation_length (map_to_list_to_map _ Hn)).
Qed.

Definition sameParams (f f' : flowControlStruct) : Prop :=
  readCacheLineCount f' = readCacheLineCount f /\ readCacheLineSize f' = readCacheLineSize f /\
  maxFlushSize f' = maxFlushSize f /\ heapNext f' = heapNext f.

Lemma wf_prefix_map l x :
  NoDup (l ++ [x]).*2.*1 ->
  delete x.2.1 (list_to_map ((fun x : elem => (x.2.1, x.1)) <$> l ++ [x]) : gmap readCacheKeyStruct Z)
  = list_to_map ((fun x : elem => (x.2.1, x.1)) <$> l).
Proof.
  intros Hk. rewrite !fmap_app in Hk. apply NoDup_app in Hk as (Hk & Hd & _).
  rewrite fmap_app. rewrite list_to_map_app. simpl. rewrite delete_union, delete_insert_eq.
  rewrite delete_empty, (right_id_L _ _), delete_id; [done|].
  apply not_elem_of_list_to_map_1. rewrite <- list_fmap_compose. rewrite <- list_fmap_compose in Hd.
  intros Hin. eapply Hd; [exact Hin|]. simpl. by apply elem_of_cons; left.
Qed.

Lemma evictIfFull_ok f l :
  wf_cache f l -> 1 <= readCacheLineCount f -> zlen l <= readCacheLineCount f ->
  exists f', evictIfFull f = Ret f' /\ sameParams f f' /\
    wf_cache f' (take (Z.to_nat (readCacheLineCount f - 1)) l) /\
    (forall a, a ∉ l.*1 -> heap f' !! a = heap f !! a).
Proof.
  intros Hwf H1 Hle. pose proof (wf_size f l Hwf) as Hsz. unfold evictIfFull. rewrite Hsz. fold (zlen l).
  destruct (Z.leb_spec (readCacheLineCount f) (zlen l)).
  2: { exists f. rewrite take_ge by (unfold zlen in *; lia). split; [done|]. split; [by repeat split|]. done. }
  destruct (snoc_cases l) as [->|(l' & [a [k b]] & ->)]; [rewrite zlen_nil in *; lia|].
  rewrite zlen_app in *. rewrite zlen_cons, zlen_nil in *.
  replace (take _ _) with l' by (rewrite take_app_le, take_ge; [done|unfold zlen in *; lia..]).
  destruct Hwf as [Hs Hm Hl Ha Hk Hc Hf]. rewrite last_or_snoc in Hl. cbn [fst] in Hl.
  pose proof Hs as [Hs1 [Hsa _]]%dseg_app. cbn [hd_or fst] in *.
  pose proof (wf_prefix_map _ _ Hk) as Hmap. cbn [fst snd] in Hmap. rewrite <- Hc in Hmap.
  assert (Ha' : NoDup l'.*1) by (rewrite fmap_app in Ha; by apply NoDup_app in Ha as (? & _)).
  assert (Hk' : NoDup l'.*2.*1) by (rewrite !fmap_app in Hk; by apply NoDup_app in Hk as (? & _)).
  assert (Hf' : Forall (fun x => x.1 < heapNext f) l') by by apply Forall_app in Hf as [? _].
  unfold deref. rewrite Hl, Hsa. cbn [obind prev readCacheKey].
  match goal with |- context [1 =? ?n] => change n with (readCacheLineCount f) end.
  destruct (Z.eqb_spec 1 (readCacheLineCount f)) as [Hone|Hone].
  { destruct l'; [|rewrite zlen_cons in *; pose proof (zlen_nonneg l'); lia].
    eexists. split; [done|]. split; [by repeat split|]. split; [|done]. by constructor. }
  destruct (snoc_cases l') as [->|(l'' & [q [qk qb]] & ->)]; [rewrite zlen_nil in *; lia|].
  rewrite last_or_snoc. cbn [fst readCacheLRU].
  destruct (setNext_last (f <| readCache := delete k (readCache f) |> <| readCacheLRU := Some q |>)
              None l'' q qk qb (Some a) None) as (e & He & Hd); [done..|].
  eexists. split; [exact He|]. split; [by repeat split|]. split.
  - constructor; try done; [|by cbn; rewrite last_or_snoc]. cbn. rewrite Hm. by destruct l''.
  - intros c Hcn. cbn. apply lookup_insert_ne. intros ->. apply Hcn. rewrite !fmap_app. simpl.
    apply elem_of_app. left. apply elem_of_app. right. by apply list_elem_of_singleton.
Qed.

(** The part of [insertLine] after the eviction. *)
Lemma insertFront_ok f l a k b :
  wf_cache f l -> heap f !! a = Some (mkElement k None None b) -> a ∉ l.*1 -> k ∉ l.*2.*1 -> a < heapNext f ->
  let f := f <| readCache := <[k := a]> (readCache f) |> in
  exists f', match readCacheMRU f with
    | None => Ret (f <| readCacheMRU := Some a |> <| readCacheLRU := Some a |>)
    | Some _ =>
        f <- setNext f (Some a) (readCacheMRU f) ;;
        '(_, e) <- deref f (Some a) ;;
        f <- setPrev f (next e) (Some a) ;;
        Ret (f <| readCacheMRU := Some a |>)
    end = Ret f' /\ wf_cache f' ((a, (k, b)) :: l) /\ sameParams f f'.
Proof.
  intros [Hs Hm Hl Ha Hk Hc Hf] He Han Hkn Hlt f1.
  replace (readCacheMRU f1) with (hd_or l None) by (by rewrite <- Hm).
  destruct l as [|[c [ck cb]] l]; cbn [hd_or fst].
  - eexists. split; [done|]. split; [|by repeat split]. constructor; try done.
    + by apply NoDup_cons.
    + by apply NoDup_cons.
    + cbn. by rewrite Hc.
    + by constructor.
  - rewrite (setNext_ok f1 a _ (Some c) He). cbn [obind].
    rewrite (deref_ok _ a (mkElement k (Some c) None b)) by (cbn; by rewrite lookup_insert_eq).
    cbn [obind next]. set (h1 := <[a:=_]> (heap f1)). cbn in h1.
    assert (Hs1 : dseg h1 None ((c, (ck, cb)) :: l) None) by (by apply dseg_insert).
    destruct (setPrev_head (f1 <| heap := h1 |>) None c ck cb l None (Some a)) as (e2 & Hsp & Hd2); [done..|].
    rewrite Hsp. cbn [obind]. eexists. split; [done|]. split; [|by repeat split].
    assert (Hca : c <> a) by (intros ->; apply Han; simpl; by apply elem_of_cons; left).
    constructor; try done.
    + split; [|done]. cbn. rewrite lookup_insert_ne by done. unfold h1. by rewrite lookup_insert_eq.
    + by apply NoDup_cons.
    + by apply NoDup_cons.
    + cbn. by rewrite Hc.
    + by constructor.
Qed.

Lemma insertLine_ok f l k b :
  wf_cache f l -> 1 <= readCacheLineCount f -> zlen l <= readCacheLineCount f -> k ∉ l.*2.*1 ->
  exists f', insertLine f k b = Ret f' /\
    wf_cache f' ((heapNext f, (k, b)) :: take (Z.to_nat (readCacheLineCount f - 1)) l) /\
    readCacheLineCount f' = readCacheLineCount f /\ readCacheLineSize f' = readCacheLineSize f.
Proof.
  intros Hwf H1 Hle Hkn. unfold insertLine. cbv zeta.
  set (f1 := f <| heap := _ |> <| heapNext := _ |>).
  assert (Han : heapNext f ∉ l.*1).
  { intros [x [Heq Hx]]%list_elem_of_fmap. destruct Hwf as [_ _ _ _ _ _ Hf].
    rewrite Forall_forall in Hf. specialize (Hf x Hx). lia. }
  assert (Hwf1 : wf_cache f1 l).
  { destruct Hwf as [Hs Hm Hl Ha Hk Hc Hf]. constructor; try done.
    - by apply dseg_insert.
    - eapply Forall_impl; [exact Hf|]. cbn. intros; lia. }
  destruct (evictIfFull_ok f1 l Hwf1) as (f2 & -> & (Hp1 & Hp2 & _ & Hp4) & Hwf2 & Hh2); [done..|]. cbn [obind].
  destruct (insertFront_ok f2 _ (heapNext f) k b Hwf2) as (f3 & Hf3 & Hwf3 & Hq1 & Hq2 & _).
  - rewrite Hh2 by done. apply lookup_insert_eq.
  - intros (x & Heq & Hx)%list_elem_of_fmap. apply Han. rewrite Heq. apply list_elem_of_fmap_2.
    by eapply subseteq_take.
  - intros Hin. apply Hkn. apply list_elem_of_fmap in Hin as (y & -> & Hy).
    apply list_elem_of_fmap in Hy as (x & -> & Hx). do 2 apply list_elem_of_fmap_2. by eapply subseteq_take.
  - rewrite Hp4. cbn. lia.
  - exists f3. split; [exact Hf3|]. split; [done|]. split; [by rewrite Hq1 | by rewrite Hq2].
Qed.

(** ** The abstract cache *)

(** A list of lines, most recently used first. *)
Abbreviation lru := (list (readCacheKeyStruct * bytes)).

Fixpoint lruRemove (k : readCacheKeyStruct) (c : lru) : option (bytes * lru) :=
  match c with
  | [] => None
  | (k', b) :: c' =>
      if decide (k' = k) then Some (b, c')
      else match lruRemove k c' with Some (b', c'') => Some (b', (k', b) :: c'') | None => None end
  end.

Definition lruGet (k : readCacheKeyStruct) (c : lru) : option (bytes * lru) :=
  match lruRemove k c with Some (b, c') => Some (b, (k, b) :: c') | None => None end.

Definition lruPut (capacity : Z) (k : readCacheKeyStruct) (b : bytes) (c : lru) : lru :=
  (k, b) :: take (Z.to_nat (capacity - 1)) c.

(** The flow control [f] holds the abstract cache [c]. *)
Definition holds (f : flowControlStruct) (c : lru) : Prop :=
  1 <= readCacheLineCount f /\ zlen c <= readCacheLineCount f /\
  exists l, wf_cache f l /\ l.*2 = c.

Lemma lruRemove_None k c : lruRemove k c = None <-> k ∉ c.*1.
Proof.
  induction c as [|[k' b] c IH]; simpl; [split; [by intros _ ?%not_elem_of_nil | done]|].
  rewrite not_elem_of_cons. destruct (decide (k' = k)) as [->|Hne]; [by split; [|intros []]|].
  destruct (lruRemove k c) as [[b' c']|]; [|by rewrite <- IH; split; [split; [by intros ->|] |]].
  split; [done|]. intros [_ ?%IH]. done.
Qed.

Lemma lruRemove_Some k c b c' :
  lruRemove k c = Some (b, c') -> exists c1 c2, c = c1 ++ (k, b) :: c2 /\ c' = c1 ++ c2.
Proof.
  revert c'. induction c as [|[k' d] c IH]; intros c'; simpl; [done|].
  destruct (decide (k' = k)) as [->|Hne]; [intros [= -> ->]; by exists [], c'|].
  destruct (lruRemove k c) as [[b' c'']|]; [|done]. intros [= -> <-].
  destruct (IH c'' eq_refl) as (c1 & c2 & -> & ->). by exists ((k', d) :: c1), c2.
Qed.

Lemma fmap_snd_middle (l : list elem) c1 x c2 :
  l.*2 = c1 ++ x :: c2 -> exists l1 a l2, l = l1 ++ (a, x) :: l2 /\ l1.*2 = c1 /\ l2.*2 = c2.
Proof.
  intros (l1 & [|[a y] l2] & -> & H & ->)%fmap_app_inv; [done|]. injection H as -> ->.
  by exists l1, a, l2.
Qed.

Lemma wf_lookup f l k a : wf_cache f l -> readCache f !! k = Some a <-> exists b, (a, (k, b)) ∈ l.
Proof.
  intros [_ _ _ _ Hk Hm _]. rewrite Hm. rewrite <- elem_of_list_to_map
    by (rewrite <- list_fmap_compose; by rewrite <- list_fmap_compose in Hk).
  rewrite list_elem_of_fmap. split.
  - intros ([a' [k' b]] & [= -> ->] & Hin). by exists b.
  - intros [b Hin]. by exists (a, (k, b)).
Qed.

Lemma lookupLine_holds f c k :
  holds f c ->
  match lruGet k c with
  | Some (b, c') => exists f', lookupLine f k = Ret (f', Some b) /\ holds f' c' /\
      readCacheLineCount f' = readCacheLineCount f /\ readCacheLineSize f' = readCacheLineSize f
  | None => lookupLine f k = Ret (f, None)
  end.
Proof.
  intros (H1 & Hle & l & Hwf & <-). unfold lruGet, lookupLine.
  destruct (lruRemove k l.*2) as [[b c']|] eqn:E.
  - apply lruRemove_Some in E as (c1 & c2 & Hc & ->).
    assert (Hlen : zlen ((k, b) :: c1 ++ c2) <= readCacheLineCount f)
      by (rewrite Hc in Hle; rewrite zlen_app, zlen_cons in Hle; rewrite zlen_cons, zlen_app; lia).
    destruct (fmap_snd_middle _ _ _ _ Hc) as (l1 & a & l2 & -> & <- & <-).
    rewrite (proj2 (wf_lookup f _ k a Hwf)) by (exists b; set_solver).
    destruct (touch_ok f l1 (a, (k, b)) l2 Hwf) as (f' & Ht & Hwf' & _ & Hcount & Hsize & _).
    cbn [fst] in Ht. rewrite Ht. cbn [obind].
    destruct Hwf' as [[Ha' Hs'] ? ? ? ? ? ?] eqn:Ewf. rewrite (deref_ok _ _ _ Ha'). cbn [obind cacheLine].
    exists f'. split; [done|]. rewrite Hcount, Hsize. split; [|done]. split; [by rewrite Hcount|].
    rewrite Hcount. split.
    + done.
    + exists ((a, (k, b)) :: l1 ++ l2). split; [done|]. simpl. by rewrite fmap_app.
  - apply lruRemove_None in E. destruct (readCache f !! k) as [a|] eqn:E2; [|done].
    apply (wf_lookup f l k a Hwf) in E2 as [b Hin]. exfalso. apply E.
    apply (list_elem_of_fmap_2' _ _ (k, b)); [|done]. by apply (list_elem_of_fmap_2' _ _ (a, (k, b))).
Qed.

Lemma insertLine_holds f c k b :
  holds f c -> lruGet k c = None ->
  exists f', insertLine f k b = Ret f' /\ holds f' (lruPut (readCacheLineCount f) k b c) /\
    readCacheLineCount f' = readCacheLineCount f /\ readCacheLineSize f' = readCacheLineSize f.
Proof.
  intros (H1 & Hle & l & Hwf & <-) Hg.
  assert (Hk : k ∉ l.*2.*1)
    by (apply lruRemove_None; unfold lruGet in Hg; by destruct (lruRemove k l.*2) as [[]|]).
  destruct (insertLine_ok f l k b Hwf) as (f' & Hi & Hwf' & Hc & Hs); [done| |done|].
  { unfold zlen in *. by rewrite length_fmap in Hle. }
  exists f'. split; [done|]. split; [|done]. split; [by rewrite Hc|]. rewrite Hc. split.
  - unfold lruPut, zlen. simpl. rewrite length_take. lia.
  - eexists. split; [exact Hwf'|]. unfold lruPut. simpl. by rewrite fmap_take.
Qed.

(** ** Shrinking *)

(** The loop only moves the LRU pointer: the map keeps its size, so the walk
    ends at the nil before the MRU element. *)
Lemma capLoop_walks fuel f l :
  dseg (heap f) None l None -> NoDup l.*1 -> readCacheLRU f = last_or None l ->
  readCacheLineCount f < Z.of_nat (size (readCache f)) -> (length l < fuel)%nat ->
  capLoop fuel f = Some Panic.
Proof.
  revert f l. induction fuel as [|fuel IH]; intros f l Hs Hn Hl Hlt Hf; [lia|].
  cbn [capLoop]. rewrite (proj2 (Z.ltb_lt _ _)) by done. rewrite Hl.
  destruct (snoc_cases l) as [->|(l' & [a [k b]] & ->)]; [done|].
  rewrite last_or_snoc. cbn [fst]. pose proof Hs as [Hs1 [Ha _]]%dseg_app.
  rewrite (deref_ok _ _ _ Ha). cbn [prev hd_or fst] in *.
  destruct (snoc_cases l') as [->|(l'' & [q [qk qb]] & ->)]; [done|].
  rewrite last_or_snoc. cbn [fst].
  rewrite fmap_app in Hn. apply NoDup_app in Hn as (Hn & _).
  destruct (setNext_last (f <| readCacheLRU := Some q |>) None l'' q qk qb (Some a) None)
    as (e & He & Hd); [done..|].
  match goal with |- context [setNext ?g ?p None] => change (setNext g p None) with (setNext g (Some q) None) end.
  rewrite He. apply (IH _ (l'' ++ [(q, (qk, qb))])); try done.
  - cbn. by rewrite last_or_snoc.
  - rewrite length_app in Hf. cbn [length] in Hf. lia.
Qed.

(** ** Properties *)

(** C39. The read cache of a flow control is a least-recently-used cache of
    [readCacheLineCount] lines.  The pointer manipulations of [doReadPlan]
    never dereference nil, a hit returns the line stored under the key and
    moves it to the front, a miss changes nothing, and inserting a missing
    line puts it in front and drops exactly the least recently used lines
    beyond the capacity. *)
Theorem readCache_is_lru f c k b :
  holds f c ->
  match lruGet k c with
  | Some (b', c') => exists f', lookupLine f k = Ret (f', Some b') /\ holds f' c'
  | None => lookupLine f k = Ret (f, None) /\
      exists f', insertLine f k b = Ret f' /\ holds f' (lruPut (readCacheLineCount f) k b c)
  end.
Proof.
  intros Hh. pose proof (lookupLine_holds f c k Hh) as Hlk. destruct (lruGet k c) as [[b' c']|] eqn:E.
  - destruct Hlk as (f' & ? & ? & _). by exists f'.
  - split; [done|]. destruct (insertLine_holds f c k b Hh E) as (f' & ? & ? & _). by exists f'.
Qed.

Lemma emptyFlow_holds flushSize lineSize lineCount : 1 <= lineCount -> holds (emptyFlow flushSize lineSize lineCount) [].
Proof.
  intros H. split; [done|]. split; [rewrite zlen_nil; cbn; lia|]. exists []. split; [|done].
  by constructor; try constructor.
Qed.

Lemma readCache_is_lru_witness :
  let k := mkKey "v" 7 0 in
  lookupLine (emptyFlow 100 4096 2) k = Ret (emptyFlow 100 4096 2, None) /\
  exists f', insertLine (emptyFlow 100 4096 2) k [1; 2] = Ret f' /\ holds f' [(k, [1; 2])].
Proof.
  exact (readCache_is_lru (emptyFlow 100 4096 2) [] (mkKey "v" 7 0) [1; 2] (emptyFlow_holds 100 4096 2 ltac:(lia))).
Defined.

(** [capReadCache] cannot shrink a cache: when a reconfiguration lowers
    [readCacheLineCount] below the number of cached lines, its loop never
    removes a key from the map, walks the whole list and dereferences nil. *)
Theorem capReadCache_panics f l fuel :
  wf_cache f l -> readCacheLineCount f < zlen l -> (length l < fuel)%nat ->
  capLoop fuel f = Some Panic.
Proof.
  intros Hwf Hlt Hf. pose proof (wf_size f l Hwf) as Hs. destruct Hwf.
  apply (capLoop_walks _ _ l); try done. unfold zlen in Hlt. by rewrite Hs.
Qed.

Definition twoLineFlow : flowControlStruct :=
  mkFlow 100 4096 1 {[mkKey "v" 7 0 := 0; mkKey "v" 7 1 := 1]} (Some 1) (Some 0)
    {[0 := mkElement (mkKey "v" 7 0) None (Some 1) [1]; 1 := mkElement (mkKey "v" 7 1) (Some 0) None [2]]} 2.

Lemma capReadCache_panics_witness : capLoop 3 twoLineFlow = Some Panic.
Proof.
  apply (capReadCache_panics twoLineFlow [(1, (mkKey "v" 7 1, [2])); (0, (mkKey "v" 7 0, [1]))] 3);
    [|by vm_compute|simpl; lia].
  constructor; try reflexivity.
  - by repeat split.
  - apply NoDup_ListNoDup. repeat constructor; simpl; intuition congruence.
  - apply NoDup_ListNoDup. repeat constructor; simpl; intuition congruence.
  - repeat constructor; simpl; lia.
Defined.
