(* ===== verification/Dlm.v ===== *)
(** Package [dlm]: the local lock manager (llm.go, api.go).

    Every critical section of llm.go runs under the mutex of the track it
    works on (taken while the mutex of the lock map is held), so it is one
    atomic transition here.  [commonLock] is cut where the goroutine can block
    on its condition variable: [lockEnter] is the part up to the wait and
    [lockWake] the part after it.  The request objects of a track are kept in
    a small heap, because the goroutine that waits and the queue share them;
    a caller ID (a pointer in Go) is its address. *)

From S2P Require Import Prelude Blunder.

Inductive lockState := nilType | shared | exclusive | stale.

#[export] Instance lockState_eq_dec : EqDecision lockState.
Proof. solve_decision. Defined.

Inductive LockHeldType := ANYLOCK | READLOCK | WRITELOCK.

Record localLockRequest := mkRequest {
  requestedState : lockState;
  wakeUp : bool;
  LockCallerID : Z
}.

#[export] Instance eta_localLockRequest : Eta localLockRequest := fun r =>
  mkRequest (requestedState r) (wakeUp r) (LockCallerID r).

Record localLockTrack := mkTrack {
  owners : Z;
  waiters : Z;
  state : lockState;
  listOfOwners : list Z;
  waitReqQ : list Z;
  requests : gmap Z localLockRequest;
  nextRequest : Z
}.

#[export] Instance eta_localLockTrack : Eta localLockTrack := fun t =>
  mkTrack (owners t) (waiters t) (state t) (listOfOwners t) (waitReqQ t) (requests t) (nextRequest t).

(** [globals.localLockMap]. *)
Abbreviation lockMap := (gmap string localLockTrack).

Definition newTrack : localLockTrack := mkTrack 0 0 stale [] [] ∅ 0.

(** [removeFromListOfOwners] gets the slice by value: the elements after the
    removed one are shifted left in the shared array, but the caller's slice
    keeps its length, so its last element stays.  [None] is the panic. *)
Fixpoint removeFromListOfOwners (l : list Z) (callerID : Z) : option (list Z) :=
  match l with
  | [] => None
  | id :: l' =>
      if id =? callerID then Some (l' ++ [List.last l id])
      else match removeFromListOfOwners l' callerID with
           | Some l'' => Some (id :: l'')
           | None => None
           end
  end.

Definition callerInListOfOwners (l : list Z) (callerID : Z) : bool :=
  existsb (fun id => id =? callerID) l.

Definition isLockHeld (globals : lockMap) (lockID : string) (callerID : Z) (lockHeldType : LockHeldType) : bool :=
  match globals !! lockID with
  | None => false
  | Some track =>
      match lockHeldType with
      | READLOCK => bool_decide (state track = shared) && callerInListOfOwners (listOfOwners track) callerID
      | WRITELOCK => bool_decide (state track = exclusive) && callerInListOfOwners (listOfOwners track) callerID
      | ANYLOCK => (bool_decide (state track = exclusive) || bool_decide (state track = shared))
                   && callerInListOfOwners (listOfOwners track) callerID
      end
  end.

Definition grantAndSignal (track : localLockTrack) (id : Z) (r : localLockRequest) : localLockTrack :=
  track <| state := requestedState r |>
        <| listOfOwners := listOfOwners track ++ [LockCallerID r] |>
        <| owners := owners track +u 1 |>
        <| requests := <[id := r <| wakeUp := true |>]> (requests track) |>.

(** The loop of [processLocalQ]; [q] is the queue still to be examined.  A
    queue entry that is not a request object cannot occur; the source panics
    on it and the model stops. *)
Fixpoint processLoop (q : list Z) (track : localLockTrack) : localLockTrack :=
  match q with
  | [] => track <| waitReqQ := [] |>
  | id :: q' =>
      match requests track !! id with
      | None => track <| waitReqQ := q |>
      | Some r =>
          if bool_decide (requestedState r = exclusive) && bool_decide (state track = stale) then
            (grantAndSignal track id r) <| waitReqQ := q' |>
          else if bool_decide (requestedState r = exclusive) then
            track <| waitReqQ := id :: q' |>
          else processLoop q' (grantAndSignal track id r)
      end
  end.

Definition processLocalQ (track : localLockTrack) : localLockTrack :=
  match waitReqQ track with
  | [] => track
  | _ =>
      if bool_decide (state track = exclusive) then track
      else processLoop (waitReqQ track) track
  end.

Inductive lockResult :=
| Acquired
| Busy (e : error)
| Blocked (id : Z).

Definition busyError : error := AddError (Some plain) TryAgainError.

(** [commonLock] up to the wait. *)
Definition lockEnter (globals : lockMap) (lockID : string) (callerID : Z) (req : lockState) (try : bool)
    : lockMap * lockResult :=
  let track := default newTrack (globals !! lockID) in
  if try && ((bool_decide (req = exclusive) && negb (bool_decide (state track = stale)))
             || bool_decide (state track = exclusive))
  then (<[lockID := track]> globals, Busy busyError)
  else
    let id := nextRequest track in
    let track := track <| requests := <[id := mkRequest req false callerID]> (requests track) |>
                       <| nextRequest := id + 1 |>
                       <| waitReqQ := waitReqQ track ++ [id] |>
                       <| waiters := waiters track +u 1 |> in
    let track := processLocalQ track in
    match requests track !! id with
    | Some r =>
        if wakeUp r
        then (<[lockID := track <| waiters := waiters track -u 1 |>]> globals, Acquired)
        else (<[lockID := track]> globals, Blocked id)
    | None => (<[lockID := track]> globals, Blocked id)
    end.

(** [commonLock] after the wait: enabled once the request was granted. *)
Definition lockWake (globals : lockMap) (lockID : string) (id : Z) : option lockMap :=
  match globals !! lockID with
  | None => None
  | Some track =>
      match requests track !! id with
      | Some r => if wakeUp r then Some (<[lockID := track <| waiters := waiters track -u 1 |>]> globals) else None
      | None => None
      end
  end.

(** [unlock]; the error return is always nil, [None] is a panic.  A track
    that is dropped from the map is still updated by the source, but nothing
    refers to it any more. *)
Definition unlock (globals : lockMap) (lockID : string) (callerID : Z) : option lockMap :=
  match globals !! lockID with
  | None => None
  | Some track =>
      let last := (owners track =? 1) && (waiters track =? 0) in
      let track' := track <| owners := owners track -u 1 |> in
      match removeFromListOfOwners (listOfOwners track') callerID with
      | None => None
      | Some l =>
          let track' := track' <| listOfOwners := l |> in
          let track' := if owners track' =? 0 then track' <| state := stale |> else track' in
          let track' := processLocalQ track' in
          Some (if last then delete lockID globals else <[lockID := track']> globals)
      end
  end.

(** api.go *)
Definition WriteLock (g : lockMap) (lockID : string) (callerID : Z) := lockEnter g lockID callerID exclusive false.
Definition ReadLock (g : lockMap) (lockID : string) (callerID : Z) := lockEnter g lockID callerID shared false.
Definition TryWriteLock (g : lockMap) (lockID : string) (callerID : Z) := lockEnter g lockID callerID exclusive true.
Definition TryReadLock (g : lockMap) (lockID : string) (callerID : Z) := lockEnter g lockID callerID shared true.
Definition Unlock (g : lockMap) (lockID : string) (callerID : Z) := unlock g lockID callerID.
Definition IsLockHeld := isLockHeld.
Definition IsReadHeld (g : lockMap) (lockID : string) (callerID : Z) := isLockHeld g lockID callerID READLOCK.
Definition IsWriteHeld (g : lockMap) (lockID : string) (callerID : Z) := isLockHeld g lockID callerID WRITELOCK.

(** [GenerateCallerID]: the number rendered into the fresh string; the
    pointer to that string is a fresh address. *)
Definition GenerateCallerID (nextCallerID : Z) : Z * Z := (nextCallerID, nextCallerID +u 1).

(** ** Clients

    A world adds to the lock map the goroutines that use it: per lock, the
    callers that hold it (with the mode they asked for) and the requests whose
    goroutine has not returned from [commonLock] yet.  Clients only unlock
    what they hold, and fewer than 2^64 goroutines use a lock at a time. *)

Record world := mkWorld {
  locks : lockMap;
  holders : gmap string (list (Z * lockState));
  pending : gmap string (list (Z * localLockRequest))
}.

Definition holdersOf (w : world) (l : string) : list (Z * lockState) := default [] (holders w !! l).
Definition pendingOf (w : world) (l : string) : list (Z * localLockRequest) := default [] (pending w !! l).

Definition roomFor (w : world) (l : string) : Prop :=
  zlen (holdersOf w l) + zlen (pendingOf w l) + 1 < two64.

Inductive dstep : world -> world -> Prop :=
| StepAcquire w l c m try g' :
    m = shared \/ m = exclusive -> roomFor w l ->
    lockEnter (locks w) l c m try = (g', Acquired) ->
    dstep w (mkWorld g' (<[l := (c, m) :: holdersOf w l]> (holders w)) (pending w))
| StepBlock w l c m try g' id :
    m = shared \/ m = exclusive -> roomFor w l ->
    lockEnter (locks w) l c m try = (g', Blocked id) ->
    dstep w (mkWorld g' (holders w) (<[l := (id, mkRequest m false c) :: pendingOf w l]> (pending w)))
| StepBusy w l c m g' e :
    m = shared \/ m = exclusive ->
    lockEnter (locks w) l c m true = (g', Busy e) ->
    dstep w (mkWorld g' (holders w) (pending w))
| StepWake w l g' id m c p1 p2 :
    pendingOf w l = p1 ++ (id, mkRequest m false c) :: p2 ->
    lockWake (locks w) l id = Some g' ->
    dstep w (mkWorld g' (<[l := (c, m) :: holdersOf w l]> (holders w)) (<[l := p1 ++ p2]> (pending w)))
| StepUnlock w l g' c m h1 h2 :
    holdersOf w l = h1 ++ (c, m) :: h2 ->
    unlock (locks w) l c = Some g' ->
    dstep w (mkWorld g' (<[l := h1 ++ h2]> (holders w)) (pending w)).

Definition initWorld : world := mkWorld ∅ ∅ ∅.

Inductive dreachable : world -> Prop :=
| dreach_init : dreachable initWorld
| dreach_step w w' : dreachable w -> dstep w w' -> dreachable w'.
