(* ===== verification/DlmFacts.v ===== *)
(** The local lock manager grants locks safely and in order.

    [tpre] relates a track to the callers that hold its lock ([H]), to the
    granted requests whose goroutine has not run yet ([W]) and to the queued
    ones ([Q]); [tinv] is the invariant between critical sections. *)

From S2P Require Import Prelude Blunder Dlm.

Definition grantable (m : lockState) : Prop := m = shared \/ m = exclusive.

Record tpre (t : localLockTrack) (H : list (Z * lockState)) (W Q : list (Z * localLockRequest)) : Prop := {
  tp_owners : owners t = zlen H + zlen W;
  tp_waiters : waiters t = zlen W + zlen Q;
  tp_nodup : NoDup (W ++ Q).*1;
  tp_fresh : Forall (fun p => p.1 < nextRequest t) (W ++ Q);
  tp_woken : Forall (fun p => requests t !! p.1 = Some (p.2 <| wakeUp := true |>)
                              /\ requestedState p.2 = state t) W;
  tp_queued : Forall (fun p => requests t !! p.1 = Some p.2) Q;
  tp_asleep : Forall (fun p => wakeUp p.2 = false /\ grantable (requestedState p.2)) (W ++ Q);
  tp_queue : waitReqQ t = Q.*1;
  tp_held : Forall (fun h => h.2 = state t) H;
  tp_state : match state t with
             | exclusive => zlen H + zlen W = 1
             | shared => 0 < zlen H + zlen W
             | stale => H = [] /\ W = []
             | nilType => False
             end;
  tp_list : H.*1 ++ map LockCallerID W.*2 ⊆+ listOfOwners t;
  tp_bound : zlen H + zlen W + zlen Q < two64
}.

(** The request at the head of the queue, if any, cannot be granted. *)
Definition head_blocked (t : localLockTrack) (Q : list (Z * localLockRequest)) : Prop :=
  match Q with
  | [] => True
  | (_, r) :: _ => state t = exclusive \/ (state t = shared /\ requestedState r = exclusive)
  end.

(** ** Granting requests *)

Lemma grant_tpre t H W id r Q :
  tpre t H W ((id, r) :: Q) ->
  (requestedState r = exclusive /\ state t = stale) \/
  (requestedState r = shared /\ (state t = stale \/ state t = shared)) ->
  tpre ((grantAndSignal t id r) <| waitReqQ := Q.*1 |>) H (W ++ [(id, r)]) Q.
Proof.
  intros [Ho Hw Hnd Hf Hwk Hq Has Hqq Hh Hst Hl Hb] Hcase.
  assert (Hne : Forall (fun p => p.1 <> id) (W ++ Q)).
  { rewrite fmap_app, fmap_cons in Hnd. apply Forall_forall. intros p Hp Heq. subst id.
    apply NoDup_app in Hnd as (_ & Hnd1 & Hnd2). apply NoDup_cons in Hnd2 as [Hnin _].
    apply elem_of_app in Hp as [Hp|Hp].
    - exfalso. apply (Hnd1 p.1 ltac:(by apply list_elem_of_fmap_2)). by apply elem_of_cons; left.
    - apply Hnin. simpl. by apply (list_elem_of_fmap_2 fst). }
  apply Forall_app in Hne as [HneW HneQ].
  inversion Hq as [|? ? Hr Hq']; subst. simpl in Hr.
  assert (Hsame : state t = stale /\ H = [] /\ W = [] \/ requestedState r = state t).
  { destruct Hcase as [[_ E]|[? [E|E]]]; rewrite E in *; [by left|by left|by right]. }
  split; simpl.
  - rewrite uadd_small; zlia.
  - zlia.
  - by rewrite <- app_assoc.
  - by rewrite <- app_assoc.
  - apply Forall_app. split.
    + rewrite Forall_forall in *. intros p Hp.
      rewrite lookup_insert_ne by (specialize (HneW p Hp); congruence). destruct (Hwk p Hp) as [H1 H2].
      split; [done|]. destruct Hsame as [(_ & _ & ->)| ->]; [set_solver | done].
    + constructor; [|constructor]. simpl. by rewrite lookup_insert_eq.
  - rewrite Forall_forall in *. intros p Hp. rewrite lookup_insert_ne by (specialize (HneQ p Hp); congruence). auto.
  - by rewrite <- app_assoc.
  - done.
  - destruct Hsame as [(_ & -> & _)| ->]; [constructor | done].
  - destruct Hcase as [[-> E]|[-> _]]; [|zlia]. rewrite E in Hst. destruct Hst as [-> ->]. done.
  - rewrite fmap_app, map_app. simpl. rewrite app_assoc. by apply submseteq_app.
  - zlia.
Qed.

Lemma processLoop_ok Q : forall t H W,
  tpre (t <| waitReqQ := Q.*1 |>) H W Q -> state t <> exclusive ->
  exists G Q', Q = G ++ Q' /\ tpre (processLoop Q.*1 t) H (W ++ G) Q' /\ head_blocked (processLoop Q.*1 t) Q'
               /\ (state (processLoop Q.*1 t) = stale -> Q = []).
Proof.
  induction Q as [|[id r] Q IH]; intros t H W Ht Hne; simpl.
  - exists [], []. rewrite (app_nil_r W). split_and!; done.
  - pose proof (tp_queued _ _ _ _ Ht) as Hq. inversion Hq as [|? ? Hr _]; subst. simpl in Hr.
    pose proof (tp_asleep _ _ _ _ Ht) as Hr2. rewrite Forall_app in Hr2. destruct Hr2 as [_ Hr2].
    inversion Hr2 as [|? ? [_ Hg] _]; subst. simpl in Hg. rewrite Hr.
    pose proof (tp_state _ _ _ _ Ht) as Hst. simpl in Hst.
    destruct (decide (requestedState r = exclusive)) as [E|E];
      [destruct (decide (state t = stale)) as [E2|E2]|];
      rewrite ?(bool_decide_eq_true_2 (requestedState r = exclusive)), ?(bool_decide_eq_false_2 (requestedState r = exclusive)),
        ?(bool_decide_eq_true_2 (state t = stale)), ?(bool_decide_eq_false_2 (state t = stale)) by done; simpl.
    + exists [(id, r)], Q. split; [done|]. split; [apply (grant_tpre _ _ _ _ _ _ Ht); by left|].
      split; [|simpl; congruence]. destruct Q as [|[? ?] ?]; simpl; auto.
    + exists [], ((id, r) :: Q). rewrite (app_nil_r W). split; [done|]. split; [done|].
      split; [|simpl; congruence]. simpl. right. destruct (state t); try done.
    + assert (Hsh : requestedState r = shared) by (destruct Hg; congruence).
      destruct (IH (grantAndSignal t id r) H (W ++ [(id, r)])) as (G & Q' & -> & Hp & Hb & _).
      * apply (grant_tpre _ _ _ _ _ _ Ht). right. split; [done|]. simpl. destruct (state t); try done; auto.
      * simpl. congruence.
      * exists ((id, r) :: G), Q'. rewrite <- app_assoc in Hp. split; [done|]. split; [done|]. split; [done|].
        intros Hs. pose proof (tp_state _ _ _ _ Hp) as Hst2. simpl in Hs, Hst2.
        destruct (state (processLoop _ _)); try discriminate. destruct Hst2 as [_ Hw]. by destruct W.
Qed.

Lemma processLocalQ_ok t H W Q :
  tpre t H W Q ->
  exists G Q', Q = G ++ Q' /\ tpre (processLocalQ t) H (W ++ G) Q' /\ head_blocked (processLocalQ t) Q'
               /\ (state (processLocalQ t) = stale -> Q = []).
Proof.
  intros Ht. unfold processLocalQ. pose proof (tp_queue _ _ _ _ Ht) as Hq.
  destruct (waitReqQ t) as [|a q] eqn:E.
  - destruct Q; [|done]. exists [], []. rewrite (app_nil_r W). split_and!; done.
  - case_bool_decide as Hx.
    + exists [], Q. rewrite (app_nil_r W). split; [done|]. split; [done|]. split; [|congruence].
      destruct Q as [|[? ?] ?]; simpl; auto.
    + rewrite Hq. apply processLoop_ok; [|done]. rewrite <- Hq, <- E. by destruct t.
Qed.

(** The goroutine of a granted request returns from [commonLock]. *)
Lemma wake_tpre t H W1 W2 id r Q :
  tpre t H (W1 ++ (id, r) :: W2) Q ->
  tpre (t <| waiters := waiters t -u 1 |>) ((LockCallerID r, requestedState r) :: H) (W1 ++ W2) Q.
Proof.
  intros [Ho Hw Hnd Hf Hwk Hq Has Hqq Hh Hst Hl Hb].
  assert (HP : (W1 ++ (id, r) :: W2) ≡ₚ (id, r) :: W1 ++ W2) by (symmetry; apply Permutation_middle).
  rewrite HP in *. simpl in *. inversion Hwk as [|? ? [_ Hs] Hwk']; subst.
  inversion Has; inversion Hf; subst. apply NoDup_cons in Hnd as [_ Hnd].
  split; simpl; try done.
  - zlia.
  - rewrite usub_small; zlia.
  - constructor; done.
  - destruct (state t); try done; try zlia. destruct Hst as [_ Hn]. by destruct W1.
  - etrans; [|exact Hl]. by rewrite <- Permutation_middle.
  - zlia.
Qed.

(** ** Releasing *)

(** What is left in the slice: the other elements, and the last one twice. *)
Lemma removeFromListOfOwners_some l c :
  c ∈ l -> exists l' x, removeFromListOfOwners l c = Some (l' ++ [x]) /\ l ≡ₚ c :: l'.
Proof.
  induction l as [|a l IH]; intros Hc; [by apply not_elem_of_nil in Hc|]. simpl.
  destruct (Z.eqb_spec a c) as [->|Hne]; [eauto|].
  destruct IH as (l' & x & E & HP).
  { apply elem_of_cons in Hc as [->|?]; done. }
  rewrite E. exists (a :: l'), x. split; [done|]. rewrite HP. apply Permutation_swap.
Qed.

Lemma release_tpre t H1 c m H2 W Q l :
  tpre t (H1 ++ (c, m) :: H2) W Q ->
  removeFromListOfOwners (listOfOwners t) c = Some l ->
  let t' := t <| owners := owners t -u 1 |> <| listOfOwners := l |> in
  tpre (if owners t' =? 0 then t' <| state := stale |> else t') (H1 ++ H2) W Q.
Proof.
  intros [Ho Hw Hnd Hf Hwk Hq Has Hqq Hh Hst Hl Hb] Hrm t'.
  assert (HP : (H1 ++ (c, m) :: H2) ≡ₚ (c, m) :: H1 ++ H2) by (symmetry; apply Permutation_middle).
  rewrite HP in *. simpl in *. inversion Hh as [|? ? Hm Hh']; subst.
  assert (Hown : owners t -u 1 = zlen (H1 ++ H2) + zlen W) by (rewrite usub_small; zlia).
  assert (Hsub : (H1 ++ H2).*1 ++ map LockCallerID W.*2 ⊆+ l).
  { destruct (removeFromListOfOwners_some (listOfOwners t) c) as (l' & x & E & HPl).
    { eapply elem_of_submseteq; [|exact Hl]. by apply elem_of_cons; left. }
    rewrite Hrm in E. injection E as ->. rewrite HPl in Hl. apply submseteq_inserts_r.
    apply submseteq_app_inv_l with (k := [c]). exact Hl. }
  subst t'. simpl. destruct (Z.eqb_spec (owners t -u 1) 0) as [E|E].
  - assert (HE : H1 ++ H2 = [] /\ W = []).
    { rewrite Hown in E. destruct (H1 ++ H2), W; [done|zlia..]. }
    destruct HE as [HE1 ->]. apply app_nil in HE1 as [-> ->]. split; simpl; try done; zlia.
  - split; simpl; try done; try zlia. destruct (state t); try done; try zlia. by destruct Hst, H1.
Qed.

(** ** The invariant between critical sections *)

Definition linv (o : option localLockTrack) (H : list (Z * lockState)) (P : list (Z * localLockRequest)) : Prop :=
  match o with
  | None => H = [] /\ P = []
  | Some t => exists W Q, P ≡ₚ W ++ Q /\ tpre t H W Q /\ head_blocked t Q /\ state t <> stale
  end.

Definition dinv (w : world) : Prop := forall l, linv (locks w !! l) (holdersOf w l) (pendingOf w l).

Lemma newTrack_tpre : tpre newTrack [] [] [].
Proof. split; simpl; try done; by constructor. Qed.

Lemma linv_start o H P :
  linv o H P -> exists W Q, P ≡ₚ W ++ Q /\ tpre (default newTrack o) H W Q.
Proof.
  destruct o as [t|]; simpl.
  - intros (W & Q & ? & ? & _). eauto.
  - intros [-> ->]. exists [], []. split; [done | apply newTrack_tpre].
Qed.

(** A new request is appended to the queue. *)
Lemma enqueue_tpre t H W Q m c :
  tpre t H W Q -> grantable m -> zlen H + zlen W + zlen Q + 1 < two64 ->
  tpre (t <| requests := <[nextRequest t := mkRequest m false c]> (requests t) |>
          <| nextRequest := nextRequest t + 1 |>
          <| waitReqQ := waitReqQ t ++ [nextRequest t] |>
          <| waiters := waiters t +u 1 |>) H W (Q ++ [(nextRequest t, mkRequest m false c)]).
Proof.
  intros [Ho Hw Hnd Hf Hwk Hq Has Hqq Hh Hst Hl Hb] Hm Hroom.
  assert (Hne : forall p, p ∈ W ++ Q -> p.1 <> nextRequest t).
  { intros p Hp. rewrite Forall_forall in Hf. specialize (Hf p Hp). lia. }
  split; simpl; try done.
  - rewrite uadd_small; zlia.
  - rewrite app_assoc, fmap_app. apply NoDup_app. split; [done|]. split; [|apply NoDup_singleton].
    intros x Hx Hx2. apply list_elem_of_singleton in Hx2. simpl in Hx2. subst x.
    apply list_elem_of_fmap in Hx as (p & Hp1 & Hp2). by apply (Hne p Hp2).
  - rewrite app_assoc. apply Forall_app. split; [|apply Forall_singleton; simpl; lia].
    eapply Forall_impl; [exact Hf|]. simpl. intros; lia.
  - rewrite Forall_forall in *. intros p Hp. rewrite lookup_insert_ne; [auto|].
    apply not_eq_sym, Hne, elem_of_app. by left.
  - apply Forall_app. split; [|apply Forall_singleton; simpl; by rewrite lookup_insert_eq].
    rewrite Forall_forall in *. intros p Hp. rewrite lookup_insert_ne; [auto|].
    apply not_eq_sym, Hne, elem_of_app. by right.
  - rewrite app_assoc. apply Forall_app. split; [done|]. by apply Forall_singleton.
  - by rewrite fmap_app, Hqq.
  - zlia.
Qed.

Lemma lockEnter_frame g l c m try k :
  k <> l -> (lockEnter g l c m try).1 !! k = g !! k.
Proof.
  intros Hk. unfold lockEnter. case_match; simpl; [by rewrite lookup_insert_ne|].
  case_match; [case_match|]; simpl; by rewrite lookup_insert_ne.
Qed.

(** A refused attempt leaves the lock as it was. *)
Lemma lockEnter_busy g l c m try g' e :
  lockEnter g l c m try = (g', Busy e) -> g' = g /\ e = busyError /\ try = true /\ is_Some (g !! l).
Proof.
  unfold lockEnter. destruct (try && _) eqn:Hb.
  - intros [= <- <-]. apply andb_true_iff in Hb as [-> Hb]. destruct (g !! l) as [t|] eqn:Hg; simpl in Hb.
    + by rewrite insert_id.
    + exfalso. clear -Hb. by case_bool_decide.
  - case_match; [case_match|]; done.
Qed.

(** What one call of [commonLock] does to its lock, on every branch. *)
Lemma lockEnter_ok g l c m try H P :
  linv (g !! l) H P -> grantable m -> zlen H + zlen P + 1 < two64 ->
  let '(g', r) := lockEnter g l c m try in
  match r with
  | Acquired => linv (g' !! l) ((c, m) :: H) P
  | Blocked id => linv (g' !! l) H ((id, mkRequest m false c) :: P)
  | Busy _ => try = true /\ linv (g' !! l) H P
  end.
Proof.
  intros Hinv Hm Hroom. unfold lockEnter.
  destruct (try && _) eqn:Hbusy.
  { rewrite lookup_insert_eq. apply andb_true_iff in Hbusy as [-> Hb]. split; [done|].
    destruct (g !! l) as [t|]; simpl in *; [done|]. exfalso. clear -Hb. by case_bool_decide. }
  destruct (linv_start _ _ _ Hinv) as (W & Q & HP & Ht).
  set (t := default newTrack (g !! l)) in *. set (id := nextRequest t).
  pose proof (enqueue_tpre t H W Q m c Ht Hm) as Hen.
  destruct (processLocalQ_ok _ _ _ _ (Hen ltac:(clear -HP Hroom; unfold zlen in *; rewrite HP, length_app in Hroom; lia)))
    as (G & Q' & HQ & Hp & Hhb & Hns).
  set (t' := processLocalQ _) in *.
  assert (Hst : state t' <> stale) by (intros E; specialize (Hns E); by destruct Q).
  destruct (snoc_cases Q') as [->|(Q0 & y & ->)].
  - rewrite app_nil_r in HQ. subst G.
    pose proof (tp_woken _ _ _ _ Hp) as Hwk. rewrite !Forall_app, Forall_singleton in Hwk.
    destruct Hwk as (_ & _ & [Hid _]). simpl in Hid. subst id. rewrite Hid. simpl. rewrite lookup_insert_eq. simpl.
    rewrite app_assoc in Hp. apply wake_tpre in Hp. rewrite app_nil_r in Hp. simpl in Hp.
    exists (W ++ Q), []. rewrite app_nil_r. split_and!; done.
  - rewrite app_assoc in HQ. apply app_inj_tail in HQ as [HQ <-].
    pose proof (tp_queued _ _ _ _ Hp) as Hq. rewrite Forall_app, Forall_singleton in Hq.
    destruct Hq as [_ Hid]. simpl in Hid. subst id. rewrite Hid. simpl. rewrite lookup_insert_eq. simpl.
    exists (W ++ G), (Q0 ++ [(nextRequest t, mkRequest m false c)]). split_and!; try done.
    rewrite HP, HQ. by rewrite !app_assoc, <- Permutation_cons_append.
Qed.

Lemma lockWake_ok g l id g' m c H P p1 p2 :
  linv (g !! l) H P -> P = p1 ++ (id, mkRequest m false c) :: p2 -> lockWake g l id = Some g' ->
  linv (g' !! l) ((c, m) :: H) (p1 ++ p2) /\ (forall k, k <> l -> g' !! k = g !! k).
Proof.
  intros Hinv HP Hw. unfold lockWake in Hw. destruct (g !! l) as [t|] eqn:Hg; [|done].
  destruct Hinv as (W & Q & HPp & Ht & Hhb & Hst).
  destruct (requests t !! id) as [r|] eqn:Hr; [|done]. destruct (wakeUp r) eqn:Hwu; [|done]. injection Hw as <-.
  split; [|intros; by rewrite lookup_insert_ne]. rewrite lookup_insert_eq. simpl.
  assert (Hin : (id, mkRequest m false c) ∈ W ++ Q).
  { rewrite <- HPp, HP. apply elem_of_app. right. by apply elem_of_cons; left. }
  apply elem_of_app in Hin as [Hin|Hin].
  - apply list_elem_of_split in Hin as (W1 & W2 & ->). apply wake_tpre in Ht.
    exists (W1 ++ W2), Q. split_and!; try done. rewrite HP, <- !app_assoc in HPp. simpl in HPp.
    rewrite <- !Permutation_middle in HPp. apply Permutation_cons_inv in HPp. by rewrite <- app_assoc.
  - pose proof (tp_queued _ _ _ _ Ht) as Hq. rewrite Forall_forall in Hq. specialize (Hq _ Hin). simpl in Hq.
    rewrite Hr in Hq. injection Hq as ->. done.
Qed.

Lemma unlock_ok g l c m H P h1 h2 :
  linv (g !! l) H P -> H = h1 ++ (c, m) :: h2 ->
  exists g', unlock g l c = Some g' /\ linv (g' !! l) (h1 ++ h2) P /\ (forall k, k <> l -> g' !! k = g !! k).
Proof.
  intros Hinv ->. unfold unlock. destruct (g !! l) as [t|] eqn:Hg; simpl in Hinv.
  2: { destruct Hinv as [Hn _]. by destruct h1. }
  destruct Hinv as (W & Q & HP & Ht & _ & _). simpl.
  destruct (removeFromListOfOwners_some (listOfOwners t) c) as (l' & x & E & _).
  { eapply elem_of_submseteq; [|exact (tp_list _ _ _ _ Ht)]. rewrite fmap_app, fmap_cons.
    apply elem_of_app. left. apply elem_of_app. right. by apply elem_of_cons; left. }
  rewrite E. pose proof (tp_owners _ _ _ _ Ht) as Ho. pose proof (tp_waiters _ _ _ _ Ht) as Hw.
  eexists. split; [reflexivity|].
  apply (release_tpre _ _ _ _ _ _ _ _ Ht) in E as Ht'. simpl in Ht'.
  destruct ((owners t =? 1) && (waiters t =? 0)) eqn:Hlast.
  - split; [|intros; by rewrite lookup_delete_ne]. rewrite lookup_delete_eq. simpl.
    apply andb_true_iff in Hlast as [H1%Z.eqb_eq H2%Z.eqb_eq]. split.
    + destruct h1, h2; try done; exfalso; zlia.
    + destruct W; [|zlia]. destruct Q; [|zlia]. simpl in HP. by apply Permutation_nil_r in HP.
  - split; [|intros; by rewrite lookup_insert_ne]. rewrite lookup_insert_eq. simpl.
    destruct (processLocalQ_ok _ _ _ _ Ht') as (G & Q' & HQ & Hp & Hhb & Hns).
    exists (W ++ G), Q'. split_and!; try done; [by rewrite <- app_assoc, <- HQ|].
    intros Hs. pose proof (tp_state _ _ _ _ Hp) as Hp2. rewrite Hs in Hp2. destruct Hp2 as [Hh HW].
    specialize (Hns Hs). rewrite Hns in *. destruct W; [|done]. apply app_nil in Hh as [-> ->].
    rewrite andb_false_iff, !Z.eqb_neq in Hlast. zlia.
Qed.

Lemma dstep_dinv w w' : dstep w w' -> dinv w -> dinv w'.
Proof.
  assert (Hh : forall v k, default [] (holders v !! k) = holdersOf v k) by done.
  assert (Hp : forall v k, default [] (pending v !! k) = pendingOf v k) by done.
  intros Hs Hd k. unfold holdersOf, pendingOf.
  destruct Hs as [w l c m try g' Hm Hroom HE | w l c m try g' id Hm Hroom HE | w l c m g' e Hm HE
                 | w l g' id m c p1 p2 HPd HE | w l g' c m h1 h2 HH HE]; simpl.
  all: destruct (decide (k = l)) as [->|Hk]; rewrite ?lookup_insert_eq, ?lookup_insert_ne, ?Hh, ?Hp by done; simpl.
  - pose proof (lockEnter_ok (locks w) l c m try _ _ (Hd l) Hm Hroom) as Hok. by rewrite HE in Hok.
  - replace (g' !! k) with (locks w !! k); [apply Hd|].
    by rewrite <- (lockEnter_frame (locks w) l c m try k Hk), HE.
  - pose proof (lockEnter_ok (locks w) l c m try _ _ (Hd l) Hm Hroom) as Hok. by rewrite HE in Hok.
  - replace (g' !! k) with (locks w !! k); [apply Hd|].
    by rewrite <- (lockEnter_frame (locks w) l c m try k Hk), HE.
  - apply lockEnter_busy in HE as (-> & _). apply Hd.
  - apply lockEnter_busy in HE as (-> & _). apply Hd.
  - by apply (lockWake_ok _ _ _ _ _ _ _ _ _ _ (Hd l) HPd HE).
  - replace (g' !! k) with (locks w !! k); [apply Hd|]. symmetry.
    by apply (lockWake_ok _ _ _ _ _ _ _ _ _ _ (Hd l) HPd HE).
  - destruct (unlock_ok _ _ _ _ _ _ _ _ (Hd l) HH) as (g2 & E2 & Hok & _). rewrite HE in E2. by injection E2 as <-.
  - destruct (unlock_ok _ _ _ _ _ _ _ _ (Hd l) HH) as (g2 & E2 & _ & Hf). rewrite HE in E2. injection E2 as <-.
    rewrite Hf by done. apply Hd.
Qed.

Lemma dreachable_dinv w : dreachable w -> dinv w.
Proof.
  induction 1 as [|w w' _ IH Hs]; [|by eapply dstep_dinv].
  intros l. unfold initWorld, holdersOf, pendingOf. simpl. by rewrite !lookup_empty.
Qed.

(** ** Executable schedules *)

Inductive action :=
| ALock (l : string) (c : Z) (m : lockState) (try : bool)
| AWake (l : string) (n : nat)
| AUnlock (l : string) (n : nat).

Definition dexec (w : world) (a : action) : option world :=
  match a with
  | ALock l c m try =>
      if (bool_decide (m = shared) || bool_decide (m = exclusive))
         && (zlen (holdersOf w l) + zlen (pendingOf w l) + 1 <? two64) then
        match lockEnter (locks w) l c m try with
        | (g', Acquired) => Some (mkWorld g' (<[l := (c, m) :: holdersOf w l]> (holders w)) (pending w))
        | (g', Blocked id) =>
            Some (mkWorld g' (holders w) (<[l := (id, mkRequest m false c) :: pendingOf w l]> (pending w)))
        | (g', Busy _) => Some (mkWorld g' (holders w) (pending w))
        end
      else None
  | AWake l n =>
      match pendingOf w l !! n with
      | Some (id, mkRequest m false c) =>
          match lockWake (locks w) l id with
          | Some g' => Some (mkWorld g' (<[l := (c, m) :: holdersOf w l]> (holders w))
                               (<[l := take n (pendingOf w l) ++ drop (S n) (pendingOf w l)]> (pending w)))
          | None => None
          end
      | _ => None
      end
  | AUnlock l n =>
      match holdersOf w l !! n with
      | Some (c, _) =>
          match unlock (locks w) l c with
          | Some g' => Some (mkWorld g' (<[l := take n (holdersOf w l) ++ drop (S n) (holdersOf w l)]> (holders w))
                               (pending w))
          | None => None
          end
      | None => None
      end
  end.

Fixpoint drun (w : world) (l : list action) : option world :=
  match l with
  | [] => Some w
  | a :: l' => match dexec w a with Some w' => drun w' l' | None => None end
  end.

Lemma dexec_dstep w a w' : dexec w a = Some w' -> dstep w w'.
Proof.
  destruct a as [l c m try|l n|l n]; simpl.
  - destruct (_ && _) eqn:Hg; [|done]. apply andb_true_iff in Hg as [Hm Hr%Z.ltb_lt].
    assert (Hm' : m = shared \/ m = exclusive).
    { apply orb_true_iff in Hm as [Hm|Hm]; apply bool_decide_eq_true_1 in Hm; auto. }
    destruct (lockEnter _ _ _ _ _) as [g' [| e |id]] eqn:E; intros [= <-].
    + by eapply StepAcquire.
    + pose proof (lockEnter_busy _ _ _ _ _ _ _ E) as (_ & _ & -> & _). by eapply StepBusy.
    + by eapply StepBlock.
  - destruct (pendingOf w l !! n) as [[id [m [] c]]|] eqn:E; try done.
    destruct (lockWake _ _ _) as [g'|] eqn:E2; [|done]. intros [= <-].
    eapply StepWake; [|exact E2]. by apply take_drop_middle in E.
  - destruct (holdersOf w l !! n) as [[c m]|] eqn:E; [|done].
    destruct (unlock _ _ _) as [g'|] eqn:E2; [|done]. intros [= <-].
    eapply StepUnlock; [|exact E2]. by apply take_drop_middle in E.
Qed.

Lemma drun_reachable acts : forall w w', dreachable w -> drun w acts = Some w' -> dreachable w'.
Proof.
  induction acts as [|a acts IH]; simpl; intros w w' Hw HE; [by injection HE as <-|].
  destruct (dexec w a) as [w1|] eqn:E; [|done]. eapply IH; [|exact HE].
  eapply dreach_step; [exact Hw|]. by apply dexec_dstep in E.
Qed.

(** Caller 1 holds the write lock, 2 and 3 queue for reading and 4 for writing. *)
Definition busySchedule : list action :=
  [ALock "a" 1 exclusive false; ALock "a" 2 shared false; ALock "a" 3 shared true;
   ALock "a" 3 shared false; ALock "a" 4 exclusive false].

Definition worldAfter (acts : list action) : world := default initWorld (drun initWorld acts).

Lemma worldAfter_reachable acts : dreachable (worldAfter acts).
Proof.
  unfold worldAfter. destruct (drun initWorld acts) as [w|] eqn:E; simpl; [|apply dreach_init].
  by apply (drun_reachable acts initWorld); [apply dreach_init|].
Qed.

Definition busyWorld : world := worldAfter busySchedule.

Lemma busyWorld_reachable : dreachable busyWorld.
Proof. apply worldAfter_reachable. Qed.

(** ** Safety *)

Lemma dinv_exclusive w l h1 c h2 :
  dinv w -> holdersOf w l = h1 ++ (c, exclusive) :: h2 -> h1 = [] /\ h2 = [].
Proof.
  intros Hd HH. pose proof (Hd l) as Hi. rewrite HH in Hi.
  destruct (locks w !! l) as [t|]; simpl in Hi; [|by destruct Hi, h1].
  destruct Hi as (W & Q & _ & Ht & _). pose proof (tp_held _ _ _ _ Ht) as Hh.
  rewrite Forall_app, Forall_cons in Hh. destruct Hh as (_ & Hx & _). simpl in Hx.
  pose proof (tp_state _ _ _ _ Ht) as Hst. rewrite <- Hx in Hst. destruct h1, h2; try done; exfalso; zlia.
Qed.

Lemma dinv_no_leak w l : dinv w -> (locks w !! l = None <-> holdersOf w l = [] /\ pendingOf w l = []).
Proof.
  intros Hd. pose proof (Hd l) as Hi. destruct (locks w !! l) as [t|]; simpl in Hi; [|done].
  split; [done|]. intros [HH HP]. exfalso. destruct Hi as (W & Q & HPp & Ht & _ & Hst). rewrite HP in HPp.
  symmetry in HPp. apply Permutation_nil_r, app_nil in HPp as [-> ->]. rewrite HH in Ht.
  pose proof (tp_state _ _ _ _ Ht) as Hs. destruct (state t); try done; zlia.
Qed.

(** The counters of a track are the numbers of its holders and waiters. *)
Lemma dinv_counts w l t :
  dinv w -> locks w !! l = Some t -> zlen (holdersOf w l) + zlen (pendingOf w l) <= owners t + waiters t.
Proof.
  intros Hd Ht. pose proof (Hd l) as Hi. rewrite Ht in Hi. destruct Hi as (W & Q & HP & Hp & _).
  rewrite (tp_owners _ _ _ _ Hp), (tp_waiters _ _ _ _ Hp). unfold zlen. rewrite HP, length_app. lia.
Qed.

(** C19. Mutual exclusion: in every state the lock manager can reach, whatever
    the interleaving of its callers, a caller that holds a lock exclusively is
    the only one that holds it. *)
Theorem dlm_mutual_exclusion w l h1 c h2 :
  dreachable w -> holdersOf w l = h1 ++ (c, exclusive) :: h2 -> h1 = [] /\ h2 = [].
Proof. intros Hw. by apply dinv_exclusive, dreachable_dinv. Qed.

Lemma dlm_mutual_exclusion_witness :
  holdersOf busyWorld "a" = [] ++ (1, exclusive) :: [] /\ @nil (Z * lockState) = [] /\ @nil (Z * lockState) = [].
Proof.
  split; [vm_compute; reflexivity|].
  apply (dlm_mutual_exclusion busyWorld "a" [] 1 []); [apply busyWorld_reachable | vm_compute; reflexivity].
Defined.

Lemma held_unlocks w l c m :
  dreachable w -> (c, m) ∈ holdersOf w l -> is_Some (unlock (locks w) l c).
Proof.
  intros Hw Hin. apply list_elem_of_split in Hin as (h1 & h2 & HH).
  destruct (unlock_ok _ _ _ _ _ _ _ _ (dreachable_dinv w Hw l) HH) as (g' & E & _). by exists g'.
Qed.

(** [unlock] by a caller that holds the lock never panics: the map has the
    lock and the list of owners has the caller. *)
Theorem unlock_holder_succeeds w l c m :
  dreachable w -> (c, m) ∈ holdersOf w l -> is_Some (Unlock (locks w) l c).
Proof. apply held_unlocks. Qed.

Lemma unlock_holder_succeeds_witness : is_Some (Unlock (locks busyWorld) "a" 1).
Proof.
  apply (unlock_holder_succeeds busyWorld "a" 1 exclusive); [apply busyWorld_reachable|].
  vm_compute. apply elem_of_cons. left. reflexivity.
Defined.

(** [IsReadHeld] and [IsWriteHeld] are true for every caller that holds the
    lock in that mode, and [IsLockHeld] with [ANYLOCK] for both. *)
Theorem isLockHeld_holder w l c m :
  dreachable w -> (c, m) ∈ holdersOf w l ->
  IsReadHeld (locks w) l c = bool_decide (m = shared)
  /\ IsWriteHeld (locks w) l c = bool_decide (m = exclusive)
  /\ IsLockHeld (locks w) l c ANYLOCK = true.
Proof.
  intros Hw Hin. pose proof (dreachable_dinv w Hw l) as Hi. unfold IsReadHeld, IsWriteHeld, IsLockHeld, isLockHeld.
  destruct (locks w !! l) as [t|]; simpl in Hi; [|destruct Hi as [Hn _]; by rewrite Hn in Hin; apply not_elem_of_nil in Hin].
  destruct Hi as (W & Q & _ & Ht & _). pose proof (tp_held _ _ _ _ Ht) as Hh. rewrite Forall_forall in Hh.
  specialize (Hh _ Hin). simpl in Hh. subst m.
  assert (callerInListOfOwners (listOfOwners t) c = true) as ->.
  { apply existsb_exists. exists c. split; [|apply Z.eqb_refl]. apply list_elem_of_In.
    eapply elem_of_submseteq; [|exact (tp_list _ _ _ _ Ht)]. apply elem_of_app. left.
    by apply (list_elem_of_fmap_2 fst) in Hin. }
  rewrite !andb_true_r. split_and!; try done. pose proof (tp_state _ _ _ _ Ht) as Hst.
  destruct (state t) eqn:E; try done. destruct Hst as [Hn _]. by rewrite Hn in Hin; apply not_elem_of_nil in Hin.
Qed.

Lemma isLockHeld_holder_witness :
  IsReadHeld (locks busyWorld) "a" 1 = bool_decide (exclusive = shared)
  /\ IsWriteHeld (locks busyWorld) "a" 1 = bool_decide (exclusive = exclusive)
  /\ IsLockHeld (locks busyWorld) "a" 1 ANYLOCK = true.
Proof.
  apply (isLockHeld_holder busyWorld "a" 1 exclusive); [apply busyWorld_reachable|].
  vm_compute. apply elem_of_cons. left. reflexivity.
Defined.

(** No leak: the map of locks has an entry exactly for the locks that a
    caller holds or waits for. *)
Theorem lockMap_no_leak w l :
  dreachable w -> (locks w !! l = None <-> holdersOf w l = [] /\ pendingOf w l = []).
Proof. intros Hw. by apply dinv_no_leak, dreachable_dinv. Qed.

Lemma lockMap_no_leak_witness :
  locks busyWorld !! "b" = None <-> holdersOf busyWorld "b" = [] /\ pendingOf busyWorld "b" = [].
Proof. apply (lockMap_no_leak busyWorld "b"), busyWorld_reachable. Defined.

(** [TryWriteLock] never blocks: it acquires a lock nobody holds or waits
    for, and otherwise returns [TryAgainError] and changes nothing. *)
Theorem TryWriteLock_result w l c :
  dreachable w ->
  match TryWriteLock (locks w) l c with
  | (_, Acquired) => holdersOf w l = [] /\ pendingOf w l = []
  | (g', Busy e) => (holdersOf w l <> [] \/ pendingOf w l <> []) /\ g' = locks w /\ Is (Some e) TryAgainError = true
  | (_, Blocked _) => False
  end.
Proof.
  intros Hw. pose proof (dreachable_dinv w Hw l) as Hi. unfold TryWriteLock, lockEnter.
  destruct (locks w !! l) as [t|] eqn:Hg; simpl in Hi; simpl.
  - destruct Hi as (W & Q & HPp & Ht & _ & Hst). rewrite bool_decide_eq_false_2 by done. simpl.
    split; [|by rewrite insert_id].
    pose proof (tp_state _ _ _ _ Ht) as Hs. destruct (holdersOf w l); [right|by left].
    intros HP. rewrite HP in HPp. symmetry in HPp. apply Permutation_nil_r, app_nil in HPp as [-> ->].
    destruct (state t); try done; zlia.
  - done.
Qed.

Lemma TryWriteLock_result_witness :
  match TryWriteLock (locks busyWorld) "a" 7 with
  | (_, Acquired) => holdersOf busyWorld "a" = [] /\ pendingOf busyWorld "a" = []
  | (g', Busy e) => (holdersOf busyWorld "a" <> [] \/ pendingOf busyWorld "a" <> []) /\ g' = locks busyWorld
                    /\ Is (Some e) TryAgainError = true
  | (_, Blocked _) => False
  end.
Proof. apply (TryWriteLock_result busyWorld "a" 7), busyWorld_reachable. Defined.

(** ** Progress *)

Definition load (w : world) (l : string) : Z := zlen (holdersOf w l) + 2 * zlen (pendingOf w l).

(** A step of a caller that wakes up or unlocks: nothing new is requested. *)
Definition drains (w w' : world) : Prop := dstep w w' /\ forall l, load w' l <= load w l.

(** A queued request has a caller before it that can run. *)
Lemma pending_progress w l :
  dreachable w -> load w l <> 0 -> exists w', drains w w' /\ load w' l < load w l.
Proof.
  intros Hw Hl. pose proof (dreachable_dinv w Hw l) as Hi.
  destruct (holdersOf w l) as [|[c m] H] eqn:HH.
  - destruct (locks w !! l) as [t|] eqn:Hg; simpl in Hi.
    2: { unfold load in Hl. destruct Hi as [_ HP]. by rewrite HH, HP in Hl. }
    destruct Hi as (W & Q & HPp & Ht & _ & Hst). pose proof (tp_state _ _ _ _ Ht) as Hs.
    destruct W as [|[id r] W]; [destruct (state t); try done; zlia|].
    pose proof (tp_woken _ _ _ _ Ht) as Hwk. apply Forall_cons in Hwk as [[Hr _] _]. simpl in Hr.
    pose proof (tp_asleep _ _ _ _ Ht) as Has. apply Forall_cons in Has as [[Hf _] _]. simpl in Hf.
    assert (Hin : (id, r) ∈ pendingOf w l) by (rewrite HPp; by apply elem_of_cons; left).
    apply list_elem_of_split in Hin as (p1 & p2 & HP). destruct r as [m f c]. simpl in Hf. subst f.
    assert (HW : lockWake (locks w) l id = Some (<[l := t <| waiters := waiters t -u 1 |>]> (locks w))).
    { unfold lockWake. by rewrite Hg, Hr. }
    pose proof (StepWake w l _ id m c p1 p2 HP HW) as Hstep.
    eexists. split; [split; [exact Hstep|]|]; [intros k|]; unfold load, holdersOf, pendingOf; simpl.
    + destruct (decide (k = l)) as [->|Hk]; [|by rewrite !lookup_insert_ne].
      rewrite !lookup_insert_eq. simpl. fold (pendingOf w l) (holdersOf w l). rewrite HP. zlia.
    + rewrite !lookup_insert_eq. simpl. fold (pendingOf w l) (holdersOf w l). rewrite HP. zlia.
  - destruct (unlock_ok _ _ _ m _ _ [] H (dreachable_dinv w Hw l) HH) as (g' & E & _).
    pose proof (StepUnlock w l g' c m [] H HH E) as Hstep.
    eexists. split; [split; [exact Hstep|]|]; [intros k|]; unfold load, holdersOf, pendingOf; simpl.
    + destruct (decide (k = l)) as [->|Hk]; [|by rewrite !lookup_insert_ne].
      rewrite lookup_insert_eq. simpl. fold (pendingOf w l) (holdersOf w l). rewrite HH. zlia.
    + rewrite lookup_insert_eq. simpl. fold (pendingOf w l) (holdersOf w l). rewrite HH. zlia.
Qed.

Lemma load_nonneg w l : 0 <= load w l.
Proof. unfold load. zlia. Qed.

(** C40. No request is lost and no lock deadlocks by itself: from every
    reachable state, if callers only wake up and unlock, every holder can
    leave and every request that waits for the lock is granted. *)
Theorem dlm_drains w l :
  dreachable w -> exists w', rtc drains w w' /\ holdersOf w' l = [] /\ pendingOf w' l = [].
Proof.
  remember (Z.to_nat (load w l)) as n eqn:Hn. revert w Hn.
  induction n as [n IH] using lt_wf_ind. intros w Hn Hw.
  destruct (decide (load w l = 0)) as [H0|H0].
  - exists w. split; [done|]. unfold load in H0. destruct (holdersOf w l), (pendingOf w l); try done; exfalso; zlia.
  - destruct (pending_progress w l Hw H0) as (w1 & Hd & Hlt).
    pose proof (load_nonneg w1 l). destruct (IH (Z.to_nat (load w1 l)) ltac:(lia) w1 eq_refl) as (w' & Hr & Hend).
    { eapply dreach_step; [exact Hw | apply Hd]. }
    exists w'. split; [|done]. by eapply rtc_l.
Qed.

Lemma dlm_drains_witness :
  exists w', rtc drains busyWorld w' /\ holdersOf w' "a" = [] /\ pendingOf w' "a" = [].
Proof. apply (dlm_drains busyWorld "a"), busyWorld_reachable. Defined.

(** ** Order *)

Definition queueOf (w : world) (l : string) : list Z := default [] (waitReqQ <$> (locks w !! l)).

Lemma processLoop_suffix q : forall t, exists G, q = G ++ waitReqQ (processLoop q t).
Proof.
  induction q as [|id q IH]; intros t; simpl; [by exists []|].
  destruct (requests t !! id) as [r|]; [|by exists []].
  case_match; [by exists [id]|]. case_match; [by exists []|].
  destruct (IH (grantAndSignal t id r)) as [G HG]. exists (id :: G). simpl. by f_equal.
Qed.

Lemma processLocalQ_suffix t : exists G, waitReqQ t = G ++ waitReqQ (processLocalQ t).
Proof.
  unfold processLocalQ. destruct (waitReqQ t) as [|a q] eqn:E; [exists []; by rewrite E|].
  case_bool_decide; [exists []; by rewrite E|]. apply processLoop_suffix.
Qed.

Lemma lockEnter_queue g l c m try g' r :
  lockEnter g l c m try = (g', r) ->
  exists G N, (length N <= 1)%nat /\ default [] (waitReqQ <$> g !! l) ++ N = G ++ default [] (waitReqQ <$> g' !! l).
Proof.
  unfold lockEnter. destruct (try && _).
  { intros [= <- <-]. exists [], []. rewrite lookup_insert_eq, app_nil_r. simpl. split; [lia|]. by destruct (g !! l). }
  set (t := default newTrack (g !! l)).
  assert (Hq : default [] (waitReqQ <$> g !! l) = waitReqQ t) by (subst t; by destruct (g !! l)).
  set (t1 := t <| requests := _ |> <| nextRequest := _ |> <| waitReqQ := _ |> <| waiters := _ |>).
  destruct (processLocalQ_suffix t1) as [G HG].
  intros HE. exists G, [nextRequest t]. split; [simpl; lia|]. rewrite Hq.
  change (waitReqQ t ++ [nextRequest t]) with (waitReqQ t1). rewrite HG. f_equal.
  destruct (requests (processLocalQ t1) !! nextRequest t) as [q|]; [destruct (wakeUp q)|];
    injection HE as <- _; by rewrite lookup_insert_eq.
Qed.

Lemma unlock_queue g l c g' :
  unlock g l c = Some g' ->
  g' = delete l g \/ exists G, default [] (waitReqQ <$> g !! l) = G ++ default [] (waitReqQ <$> g' !! l).
Proof.
  unfold unlock. destruct (g !! l) as [t|]; [|done]. simpl.
  destruct (removeFromListOfOwners _ _) as [lo|]; [|done]. intros [= <-].
  destruct (_ && _); [by left|]. right. rewrite lookup_insert_eq. simpl.
  match goal with |- context [processLocalQ ?u] => set (t1 := u) end.
  assert (E : waitReqQ t = waitReqQ t1) by (subst t1; by destruct (_ =? 0)). rewrite E. apply processLocalQ_suffix.
Qed.

(** Requests are granted in the order they were queued: a step takes a
    prefix off the queue of a lock and appends at most the request that it
    makes. *)
Theorem dlm_fifo w w' l :
  dstep w w' -> exists G N, (length N <= 1)%nat /\ queueOf w l ++ N = G ++ queueOf w' l.
Proof.
  intros Hs. unfold queueOf.
  assert (Hsame : forall q q' : list Z, q' = q -> exists G N, (length N <= 1)%nat /\ q ++ N = G ++ q').
  { intros q ? ->. exists [], []. rewrite app_nil_r. simpl. split; [lia|done]. }
  destruct Hs as [w k c m try g' Hm Hroom HE | w k c m try g' id Hm Hroom HE | w k c m g' e Hm HE
                 | w k g' id m c p1 p2 HPd HE | w k g' c m h1 h2 HH HE]; simpl in *.
  1-3: destruct (decide (l = k)) as [->|Hk]; [by eapply lockEnter_queue|];
       apply Hsame; erewrite <- (lockEnter_frame (locks w) k) by exact Hk; by rewrite HE.
  - apply Hsame. unfold lockWake in HE. repeat case_match; try done. injection HE as <-.
    destruct (decide (l = k)) as [->|Hk]; [|by rewrite lookup_insert_ne].
    rewrite lookup_insert_eq. by simplify_option_eq.
  - destruct (decide (l = k)) as [->|Hk].
    + destruct (unlock_queue _ _ _ _ HE) as [->|[G HG]].
      * exists (default [] (waitReqQ <$> locks w !! k)), []. rewrite lookup_delete_eq. simpl. split; [lia|done].
      * exists G, []. rewrite app_nil_r. simpl. split; [lia|done].
    + apply Hsame. unfold unlock in HE. repeat case_match; try done; injection HE as <-.
      all: by rewrite ?lookup_delete_ne, ?lookup_insert_ne.
Qed.

Lemma dlm_fifo_witness :
  exists G N, (length N <= 1)%nat /\ queueOf busyWorld "a" ++ N = G ++ queueOf (worldAfter (busySchedule ++ [AUnlock "a" 0])) "a".
Proof.
  apply (dlm_fifo busyWorld (worldAfter (busySchedule ++ [AUnlock "a" 0])) "a").
  apply (dexec_dstep busyWorld (AUnlock "a" 0)). vm_compute. reflexivity.
Defined.

(** ** Divergences from the documented behaviour *)

(** [IsWriteHeld] can be true for a caller that no longer holds the lock:
    [removeFromListOfOwners] shortens only its own copy of the slice, so the
    caller that unlocked stays in the list beside the next owner. *)
Theorem isLockHeld_stale_owner :
  exists w, dreachable w /\ holdersOf w "a" = [(2, exclusive)] /\ IsWriteHeld (locks w) "a" 1 = true.
Proof.
  exists (worldAfter [ALock "a" 1 exclusive false; ALock "a" 2 exclusive false; AUnlock "a" 0; AWake "a" 0]).
  split; [apply worldAfter_reachable|]. vm_compute. done.
Qed.

(** [TryReadLock] can block: a lock that is held shared while a writer is
    queued passes the check for an immediate [TryAgainError], and the request
    is queued behind the writer. *)
Theorem TryReadLock_can_block :
  exists w id, dreachable w /\ (TryReadLock (locks w) "a" 3).2 = Blocked id.
Proof.
  exists (worldAfter [ALock "a" 1 shared false; ALock "a" 2 exclusive false]), 2.
  split; [apply worldAfter_reachable|]. vm_compute. done.
Qed.
