(* ===== verification/HeadhunterCodec.v ===== *)
(** Package [headhunter]: what a checkpoint looks like in Swift.

    The checkpoint header is the value of a container header, eleven
    (version 1) or four (version 2) hexadecimal fields separated by blanks.
    The checkpoint trailer is at the end of the checkpoint object: twelve
    integers followed by the layout reports of the three B+Trees.  The keys
    and values of those B+Trees are packed by [bPlusTreeWrapperStruct]. *)

From S2P Require Import Prelude Blunder Utils.
From Stdlib Require Import Ascii.
Open Scope list_scope.

(** ** Structs of 64-bit integers ([cstruct.Pack] and [cstruct.Unpack]) *)

Definition packUint64s (vals : list Z) : bytes := concat (map Uint64ToByteSlice vals).

Fixpoint readUint64s (n : nat) (src : bytes) : list Z :=
  match n with
  | O => []
  | S n' => leGet (take 8 src) :: readUint64s n' (drop 8 src)
  end.

(** [Unpack] of a struct of [n] integers: the values and [bytesConsumed]. *)
Definition unpackUint64s (n : nat) (src : bytes) : res (list Z * Z) :=
  if zlen src <? 8 * Z.of_nat n then Err plain
  else Ret (readUint64s n src, 8 * Z.of_nat n).

(** ** The checkpoint header *)

Definition checkpointHeaderVersion1 : Z := 1.
Definition checkpointHeaderVersion2 : Z := 2.
Definition firstNonceToProvide : Z := 2.

Record checkpointHeaderV2Struct := mkHeader {
  CheckpointObjectTrailerV2StructObjectNumber : Z;
  CheckpointObjectTrailerV2StructObjectLength : Z;
  ReservedToNonce : Z
}.

#[export] Instance eta_header : Eta checkpointHeaderV2Struct := fun h =>
  mkHeader (CheckpointObjectTrailerV2StructObjectNumber h) (CheckpointObjectTrailerV2StructObjectLength h)
    (ReservedToNonce h).

Record checkpointObjectTrailerV2Struct := mkTrailer {
  InodeRecBPlusTreeObjectNumber : Z;
  InodeRecBPlusTreeObjectOffset : Z;
  InodeRecBPlusTreeObjectLength : Z;
  InodeRecBPlusTreeLayoutNumElements : Z;
  LogSegmentRecBPlusTreeObjectNumber : Z;
  LogSegmentRecBPlusTreeObjectOffset : Z;
  LogSegmentRecBPlusTreeObjectLength : Z;
  LogSegmentRecBPlusTreeLayoutNumElements : Z;
  BPlusTreeObjectBPlusTreeObjectNumber : Z;
  BPlusTreeObjectBPlusTreeObjectOffset : Z;
  BPlusTreeObjectBPlusTreeObjectLength : Z;
  BPlusTreeObjectBPlusTreeLayoutNumElements : Z
}.

#[export] Instance eta_trailer : Eta checkpointObjectTrailerV2Struct := fun t =>
  mkTrailer (InodeRecBPlusTreeObjectNumber t) (InodeRecBPlusTreeObjectOffset t)
    (InodeRecBPlusTreeObjectLength t) (InodeRecBPlusTreeLayoutNumElements t)
    (LogSegmentRecBPlusTreeObjectNumber t) (LogSegmentRecBPlusTreeObjectOffset t)
    (LogSegmentRecBPlusTreeObjectLength t) (LogSegmentRecBPlusTreeLayoutNumElements t)
    (BPlusTreeObjectBPlusTreeObjectNumber t) (BPlusTreeObjectBPlusTreeObjectOffset t)
    (BPlusTreeObjectBPlusTreeObjectLength t) (BPlusTreeObjectBPlusTreeLayoutNumElements t).

Definition emptyTrailer : checkpointObjectTrailerV2Struct := mkTrailer 0 0 0 0 0 0 0 0 0 0 0 0.

Definition blank : ascii := " "%char.

(** [fmt.Sprintf("%016X %016X ...", vals...)]. *)
Definition sprintHeader (vals : list Z) : string := String.concat (String blank EmptyString) (map Uint64ToHexStr vals).

(** The header value for version 1, as [fetchNonceWhileLocked] writes it. *)
Definition headerValueV1 (t : checkpointObjectTrailerV2Struct) (reservedToNonce : Z) : string :=
  sprintHeader
    [checkpointHeaderVersion1;
     InodeRecBPlusTreeObjectNumber t; InodeRecBPlusTreeObjectOffset t; InodeRecBPlusTreeObjectLength t;
     LogSegmentRecBPlusTreeObjectNumber t; LogSegmentRecBPlusTreeObjectOffset t; LogSegmentRecBPlusTreeObjectLength t;
     BPlusTreeObjectBPlusTreeObjectNumber t; BPlusTreeObjectBPlusTreeObjectOffset t; BPlusTreeObjectBPlusTreeObjectLength t;
     reservedToNonce].

(** The header value for version 2, as [getCheckpoint], [putCheckpoint] and
    [fetchNonceWhileLocked] write it. *)
Definition headerValueV2 (h : checkpointHeaderV2Struct) : string :=
  sprintHeader [checkpointHeaderVersion2; CheckpointObjectTrailerV2StructObjectNumber h;
                CheckpointObjectTrailerV2StructObjectLength h; ReservedToNonce h].

Inductive parsedHeader :=
| HeaderV1 (h : checkpointHeaderV2Struct) (t : checkpointObjectTrailerV2Struct)
| HeaderV2 (h : checkpointHeaderV2Struct).

Fixpoint parseFields (l : list string) : res (list Z) :=
  match l with
  | [] => Ret []
  | s :: l' => v <- HexStrToUint64 s ;; vs <- parseFields l' ;; Ret (v :: vs)
  end.

(** The part of [getCheckpoint] that parses the header value. *)
Definition parseHeader (checkpointHeaderValue : string) : res parsedHeader :=
  match Split blank checkpointHeaderValue with
  | [] => Err plain
  | versionField :: fields =>
      checkpointVersion <- HexStrToUint64 versionField ;;
      if checkpointVersion =? checkpointHeaderVersion1 then
        vs <- (if zlen fields =? 10 then parseFields fields else Err plain) ;;
        match vs with
        | [i1; i2; i3; l1; l2; l3; b1; b2; b3; n] =>
            Ret (HeaderV1 (mkHeader 0 0 n) (mkTrailer i1 i2 i3 0 l1 l2 l3 0 b1 b2 b3 0))
        | _ => Err plain
        end
      else if checkpointVersion =? checkpointHeaderVersion2 then
        vs <- (if zlen fields =? 3 then parseFields fields else Err plain) ;;
        match vs with
        | [num; len; n] => Ret (HeaderV2 (mkHeader num len n))
        | _ => Err plain
        end
      else Err plain
  end.

(** ** The checkpoint trailer *)

Definition elementOfBPlusTreeLayoutStructSize : Z := 16.
Definition checkpointObjectTrailerStructSize : Z := 96.

Abbreviation LayoutReport := (gmap Z Z).

Definition packTrailer (t : checkpointObjectTrailerV2Struct) : bytes :=
  packUint64s
    [InodeRecBPlusTreeObjectNumber t; InodeRecBPlusTreeObjectOffset t; InodeRecBPlusTreeObjectLength t;
     InodeRecBPlusTreeLayoutNumElements t;
     LogSegmentRecBPlusTreeObjectNumber t; LogSegmentRecBPlusTreeObjectOffset t; LogSegmentRecBPlusTreeObjectLength t;
     LogSegmentRecBPlusTreeLayoutNumElements t;
     BPlusTreeObjectBPlusTreeObjectNumber t; BPlusTreeObjectBPlusTreeObjectOffset t; BPlusTreeObjectBPlusTreeObjectLength t;
     BPlusTreeObjectBPlusTreeLayoutNumElements t].

(** The elements of a layout report in the order the map is ranged over. *)
Definition packLayout (elems : list (Z * Z)) : bytes := concat (map (fun e => packUint64s [e.1; e.2]) elems).

Definition unpackTrailer (src : bytes) : res (checkpointObjectTrailerV2Struct * Z) :=
  '(vs, consumed) <- unpackUint64s 12 src ;;
  match vs with
  | [i1; i2; i3; i4; l1; l2; l3; l4; b1; b2; b3; b4] => Ret (mkTrailer i1 i2 i3 i4 l1 l2 l3 l4 b1 b2 b3 b4, consumed)
  | _ => Err plain
  end.

(** One of the three loops over a layout report: each pass drops what the
    previous [Unpack] consumed and reads one element. *)
Fixpoint unpackLayout (n : nat) (buf : bytes) (bytesConsumed : Z) (layout : LayoutReport)
    : res (bytes * Z * LayoutReport) :=
  match n with
  | O => Ret (buf, bytesConsumed, layout)
  | S n' =>
      let buf := drop (Z.to_nat bytesConsumed) buf in
      '(vs, consumed) <- unpackUint64s 2 buf ;;
      match vs with
      | [objectNumber; objectBytes] => unpackLayout n' buf consumed (<[objectNumber := objectBytes]> layout)
      | _ => Err plain
      end
  end.

(** The part of [getCheckpoint] that reads the trailer object. *)
Definition readTrailer (buf : bytes)
    : res (checkpointObjectTrailerV2Struct * LayoutReport * LayoutReport * LayoutReport) :=
  '(t, consumed) <- unpackTrailer buf ;;
  let expected := (InodeRecBPlusTreeLayoutNumElements t +u LogSegmentRecBPlusTreeLayoutNumElements t
                   +u BPlusTreeObjectBPlusTreeLayoutNumElements t)
                  *u elementOfBPlusTreeLayoutStructSize +u consumed in
  if negb (zlen buf =? expected) then Err plain
  else
    '(buf, consumed, inodeRecLayout) <- unpackLayout (Z.to_nat (InodeRecBPlusTreeLayoutNumElements t)) buf consumed ∅ ;;
    '(buf, consumed, logSegmentRecLayout) <- unpackLayout (Z.to_nat (LogSegmentRecBPlusTreeLayoutNumElements t)) buf consumed ∅ ;;
    '(buf, consumed, bPlusTreeObjectLayout) <- unpackLayout (Z.to_nat (BPlusTreeObjectBPlusTreeLayoutNumElements t)) buf consumed ∅ ;;
    Ret (t, inodeRecLayout, logSegmentRecLayout, bPlusTreeObjectLayout).

(** ** Keys and values of the three B+Trees *)

Definition PackKey (key : Z) : bytes := Uint64ToByteSlice key.

Definition UnpackKey (payloadData : bytes) : res (Z * Z) :=
  if zlen payloadData <? 8 then Err plain
  else match ByteSliceToUint64 (take 8 payloadData) with
       | None => Err plain
       | Some key => Ret (key, 8)
       end.

Definition PackValue (value : bytes) : bytes := Uint64ToByteSlice (zlen value) ++ value.

(** Slicing past the end of the data panics. *)
Definition UnpackValue (payloadData : bytes) : res (bytes * Z) :=
  if zlen payloadData <? 8 then Err plain
  else match ByteSliceToUint64 (take 8 payloadData) with
       | None => Err plain
       | Some valueSize =>
           if (0 <? valueSize) && (zlen payloadData <? 8 + valueSize) then Panic
           else Ret (take (Z.to_nat valueSize) (drop 8 payloadData), 8 +u valueSize)
       end.

(** ** Facts: structs of integers *)

Lemma packUint64s_cons v vals : packUint64s (v :: vals) = Uint64ToByteSlice v ++ packUint64s vals.
Proof. done. Qed.

Lemma packUint64s_length vals : zlen (packUint64s vals) = 8 * zlen vals.
Proof.
  induction vals as [|v vals IH]; [done|]. rewrite packUint64s_cons, zlen_app, zlen_cons, IH.
  unfold zlen at 1, Uint64ToByteSlice. rewrite lePut_length. lia.
Qed.

Lemma readUint64s_pack vals rest :
  Forall is_u64 vals -> readUint64s (length vals) (packUint64s vals ++ rest) = vals.
Proof.
  induction 1 as [|v vals Hv _ IH]; [done|]. rewrite packUint64s_cons, <- app_assoc. cbn [length readUint64s].
  unfold Uint64ToByteSlice at 1. rewrite leGet_take by exact Hv. f_equal.
  rewrite (drop_app_length' (Uint64ToByteSlice v)); [exact IH|]. unfold Uint64ToByteSlice. by rewrite lePut_length.
Qed.

Lemma unpackUint64s_pack vals rest :
  Forall is_u64 vals -> unpackUint64s (length vals) (packUint64s vals ++ rest) = Ret (vals, 8 * zlen vals).
Proof.
  intros Hv. unfold unpackUint64s. rewrite zlen_app, packUint64s_length. unfold zlen at 1.
  destruct (Z.ltb_spec (8 * Z.of_nat (length vals) + zlen rest) (8 * Z.of_nat (length vals))) as [H|_]; [zlia|].
  by rewrite readUint64s_pack.
Qed.

Lemma drop_packUint64s vals rest n :
  n = 8 * zlen vals -> drop (Z.to_nat n) (packUint64s vals ++ rest) = rest.
Proof.
  intros ->. apply drop_app_length'. rewrite <- packUint64s_length. unfold zlen. lia.
Qed.

(** ** Facts: the header *)

Lemma lacks_cons sep c s : c <> sep -> lacks sep s -> lacks sep (String c s).
Proof.
  unfold lacks. intros Hc Hs. simpl. destruct (Ascii.eqb_spec c sep) as [?|_]; [done|]. by rewrite Hs.
Qed.

Lemma hexDigit_not_blank d : 0 <= d < 16 -> asciiOfByte (ByteToHexDigit d) <> blank.
Proof. intros Hd E. pose proof (hexValue_digit d Hd) as H. rewrite E in H. discriminate H. Qed.

Lemma hexDigits_lacks n : forall v tail, lacks blank tail -> lacks blank (hexDigits n v tail).
Proof.
  induction n as [|n IH]; intros v tail Ht; [done|]. cbn [hexDigits]. apply IH, lacks_cons; [|done].
  apply hexDigit_not_blank, Z.mod_pos_bound. lia.
Qed.

Lemma Split_sprintHeader vals : vals <> [] -> Split blank (sprintHeader vals) = map Uint64ToHexStr vals.
Proof.
  induction vals as [|v vals IH]; intros Hne; [done|]. unfold sprintHeader in *.
  assert (Hl : lacks blank (Uint64ToHexStr v)) by by apply hexDigits_lacks.
  destruct vals as [|w vals]; [by apply Split_lacks|].
  change (String.concat (String blank EmptyString) (map Uint64ToHexStr (v :: w :: vals)))
    with (Uint64ToHexStr v +:+ String blank (String.concat (String blank EmptyString) (map Uint64ToHexStr (w :: vals)))).
  rewrite Split_app by done. by rewrite IH.
Qed.

Lemma parseFields_hex vals : Forall is_u64 vals -> parseFields (map Uint64ToHexStr vals) = Ret vals.
Proof.
  induction 1 as [|v vals Hv _ IH]; [done|]. cbn [map parseFields].
  by rewrite HexStrToUint64_Uint64ToHexStr, IH.
Qed.

Definition header_in_range (h : checkpointHeaderV2Struct) : Prop :=
  is_u64 (CheckpointObjectTrailerV2StructObjectNumber h)
  /\ is_u64 (CheckpointObjectTrailerV2StructObjectLength h) /\ is_u64 (ReservedToNonce h).

Definition trailer_in_range (t : checkpointObjectTrailerV2Struct) : Prop :=
  Forall is_u64
    [InodeRecBPlusTreeObjectNumber t; InodeRecBPlusTreeObjectOffset t; InodeRecBPlusTreeObjectLength t;
     InodeRecBPlusTreeLayoutNumElements t;
     LogSegmentRecBPlusTreeObjectNumber t; LogSegmentRecBPlusTreeObjectOffset t; LogSegmentRecBPlusTreeObjectLength t;
     LogSegmentRecBPlusTreeLayoutNumElements t;
     BPlusTreeObjectBPlusTreeObjectNumber t; BPlusTreeObjectBPlusTreeObjectOffset t; BPlusTreeObjectBPlusTreeObjectLength t;
     BPlusTreeObjectBPlusTreeLayoutNumElements t].

Lemma parseHeader_V2 h : header_in_range h -> parseHeader (headerValueV2 h) = Ret (HeaderV2 h).
Proof.
  intros (H1 & H2 & H3). unfold parseHeader, headerValueV2. rewrite Split_sprintHeader by done. cbn [map].
  rewrite HexStrToUint64_Uint64ToHexStr by done. cbn [obind].
  change (map Uint64ToHexStr [CheckpointObjectTrailerV2StructObjectNumber h; CheckpointObjectTrailerV2StructObjectLength h;
                              ReservedToNonce h]) with
    [Uint64ToHexStr (CheckpointObjectTrailerV2StructObjectNumber h);
     Uint64ToHexStr (CheckpointObjectTrailerV2StructObjectLength h); Uint64ToHexStr (ReservedToNonce h)].
  cbn -[HexStrToUint64 Uint64ToHexStr]. rewrite !HexStrToUint64_Uint64ToHexStr by done. by destruct h.
Qed.

(** Forgets the counts of layout elements, which version 1 does not store. *)
Definition trailerRoots (t : checkpointObjectTrailerV2Struct) : checkpointObjectTrailerV2Struct :=
  t <| InodeRecBPlusTreeLayoutNumElements := 0 |> <| LogSegmentRecBPlusTreeLayoutNumElements := 0 |>
    <| BPlusTreeObjectBPlusTreeLayoutNumElements := 0 |>.

Lemma parseHeader_V1 t n :
  trailer_in_range t -> is_u64 n -> parseHeader (headerValueV1 t n) = Ret (HeaderV1 (mkHeader 0 0 n) (trailerRoots t)).
Proof.
  unfold trailer_in_range. rewrite !Forall_cons. intros Ht Hn. destruct_and! Ht.
  unfold parseHeader, headerValueV1. rewrite Split_sprintHeader by done. cbn [map].
  rewrite HexStrToUint64_Uint64ToHexStr by done.
  cbn -[HexStrToUint64 Uint64ToHexStr]. rewrite !HexStrToUint64_Uint64ToHexStr by done. done.
Qed.

(** The checkpoint header survives the trip through the container header
    in both versions, whatever its (64-bit) fields. *)
Theorem checkpointHeader_roundtrip h t n :
  header_in_range h -> trailer_in_range t -> is_u64 n ->
  parseHeader (headerValueV2 h) = Ret (HeaderV2 h)
  /\ parseHeader (headerValueV1 t n) = Ret (HeaderV1 (mkHeader 0 0 n) (trailerRoots t)).
Proof. intros Hh Ht Hn. split; [by apply parseHeader_V2 | by apply parseHeader_V1]. Qed.

Lemma checkpointHeader_roundtrip_witness :
  parseHeader "0000000000000002 000000000000002A 0000000000000070 0000000000000064"
    = Ret (HeaderV2 (mkHeader 42 112 100))
  /\ parseHeader (headerValueV1 (mkTrailer 3 0 10 0 3 10 20 0 4 0 7 0) 9)
    = Ret (HeaderV1 (mkHeader 0 0 9) (mkTrailer 3 0 10 0 3 10 20 0 4 0 7 0)).
Proof.
  apply (checkpointHeader_roundtrip (mkHeader 42 112 100) (mkTrailer 3 0 10 0 3 10 20 0 4 0 7 0) 9).
  - repeat split; vm_compute; congruence.
  - repeat constructor; vm_compute; congruence.
  - split; vm_compute; congruence.
Defined.

(** ** Facts: the trailer *)

Definition insertAll (layout : LayoutReport) (elems : list (Z * Z)) : LayoutReport :=
  foldl (fun m e => <[e.1 := e.2]> m) layout elems.

Lemma insertAll_range m elems : elems ≡ₚ map_to_list m -> insertAll ∅ elems = m.
Proof.
  intros HP. unfold insertAll. trans (list_to_map (M := LayoutReport) (reverse elems)).
  - clear HP. induction elems as [|[k v] l IH] using rev_ind; [done|]. rewrite foldl_app, reverse_snoc. simpl. by rewrite IH.
  - rewrite <- (list_to_map_to_list m). apply list_to_map_proper.
    + rewrite reverse_Permutation, HP. apply NoDup_fst_map_to_list.
    + by rewrite reverse_Permutation.
Qed.

Lemma packLayout_length elems : zlen (packLayout elems) = 16 * zlen elems.
Proof.
  induction elems as [|e elems IH]; [done|]. unfold packLayout in *. cbn [map concat].
  rewrite zlen_app, IH, packUint64s_length, !zlen_cons, zlen_nil. lia.
Qed.

Lemma unpackLayout_pack elems : forall buf consumed layout rest,
  Forall (fun e => is_u64 e.1 /\ is_u64 e.2) elems ->
  drop (Z.to_nat consumed) buf = packLayout elems ++ rest ->
  exists buf' consumed',
    unpackLayout (length elems) buf consumed layout = Ret (buf', consumed', insertAll layout elems)
    /\ drop (Z.to_nat consumed') buf' = rest.
Proof.
  induction elems as [|[k v] elems IH]; intros buf consumed layout rest Hr Hd.
  - exists buf, consumed. done.
  - apply Forall_cons in Hr as [[Hk Hv] Hr]. cbn [length unpackLayout]. rewrite Hd.
    unfold packLayout. cbn [map concat fst snd]. rewrite <- app_assoc.
    rewrite (unpackUint64s_pack [k; v]) by (repeat constructor; try apply Hk; apply Hv). cbn [obind].
    apply IH; [done|]. by apply (drop_packUint64s [k; v]).
Qed.

(** The trailer describes the layouts it is followed by. *)
Definition describes (t : checkpointObjectTrailerV2Struct) (li ll lb : list (Z * Z)) : Prop :=
  InodeRecBPlusTreeLayoutNumElements t = zlen li
  /\ LogSegmentRecBPlusTreeLayoutNumElements t = zlen ll
  /\ BPlusTreeObjectBPlusTreeLayoutNumElements t = zlen lb
  /\ (zlen li + zlen ll + zlen lb) * 16 + 96 < two64.

Lemma readTrailer_pack t li ll lb :
  trailer_in_range t -> describes t li ll lb ->
  Forall (fun e => is_u64 e.1 /\ is_u64 e.2) (li ++ ll ++ lb) ->
  readTrailer (packTrailer t ++ packLayout li ++ packLayout ll ++ packLayout lb)
  = Ret (t, insertAll ∅ li, insertAll ∅ ll, insertAll ∅ lb).
Proof.
  intros Ht (Ei & El & Eb & Hsz) Hr. rewrite !Forall_app in Hr. destruct Hr as (Hri & Hrl & Hrb).
  unfold readTrailer, unpackTrailer, packTrailer. rewrite (unpackUint64s_pack _ _ Ht : unpackUint64s 12 _ = _).
  cbn [obind]. change (8 * zlen _) with 96.
  rewrite !zlen_app, packUint64s_length, !packLayout_length. change (8 * zlen _) with 96.
  cbn [InodeRecBPlusTreeLayoutNumElements LogSegmentRecBPlusTreeLayoutNumElements BPlusTreeObjectBPlusTreeLayoutNumElements].
  rewrite Ei, El, Eb. unfold elementOfBPlusTreeLayoutStructSize.
  pose proof (zlen_nonneg li). pose proof (zlen_nonneg ll). pose proof (zlen_nonneg lb).
  unwrap_in_range. rewrite (proj2 (Z.eqb_eq _ _)) by lia. cbn [negb]. unfold zlen. rewrite !Nat2Z.id.
  edestruct (unpackLayout_pack li) as (b1 & c1 & -> & D1); [exact Hri | apply drop_packUint64s; reflexivity |].
  cbn [obind].
  edestruct (unpackLayout_pack ll) as (b2 & c2 & -> & D2); [exact Hrl | exact D1 |]. cbn [obind].
  rewrite <- (app_nil_r (packLayout lb)) in D2.
  edestruct (unpackLayout_pack lb) as (b3 & c3 & -> & D3); [exact Hrb | exact D2 |]. cbn [obind].
  fold (zlen li) (zlen ll) (zlen lb). rewrite <- Ei, <- El, <- Eb. by destruct t.
Qed.

(** Reading the checkpoint trailer recovers the trailer and the three
    layout reports, in whatever order the maps were ranged over when they were
    written. *)
Theorem checkpointTrailer_roundtrip t (mi ml mb : LayoutReport) li ll lb :
  trailer_in_range t -> describes t li ll lb ->
  li ≡ₚ map_to_list mi -> ll ≡ₚ map_to_list ml -> lb ≡ₚ map_to_list mb ->
  Forall (fun e => is_u64 e.1 /\ is_u64 e.2) (li ++ ll ++ lb) ->
  readTrailer (packTrailer t ++ packLayout li ++ packLayout ll ++ packLayout lb) = Ret (t, mi, ml, mb).
Proof.
  intros Ht Hd Hi Hl Hb Hr. rewrite (readTrailer_pack t li ll lb Ht Hd Hr).
  by rewrite (insertAll_range mi), (insertAll_range ml), (insertAll_range mb).
Qed.

Lemma checkpointTrailer_roundtrip_witness :
  let t := mkTrailer 5 0 30 2 5 30 40 1 6 0 9 0 in
  readTrailer (packTrailer t ++ packLayout [(7, 70); (5, 30)] ++ packLayout [(5, 40)] ++ packLayout [])
  = Ret (t, <[5 := 30]> (<[7 := 70]> ∅), <[5 := 40]> ∅, ∅).
Proof.
  apply (checkpointTrailer_roundtrip (mkTrailer 5 0 30 2 5 30 40 1 6 0 9 0)).
  - repeat constructor; vm_compute; congruence.
  - repeat split; vm_compute; congruence.
  - vm_compute. apply Permutation_refl || apply Permutation_swap.
  - vm_compute. apply Permutation_refl.
  - vm_compute. apply Permutation_refl.
  - repeat constructor; vm_compute; congruence.
Defined.

(** ** Facts: keys and values *)

(** A packed key or value is read back whatever follows it in the node, and
    the count of consumed bytes is the length that was packed; a buffer shorter
    than a length field is an error. *)
Theorem wrapper_pack_roundtrip key value rest :
  is_u64 key -> 8 + zlen value < two64 ->
  UnpackKey (PackKey key ++ rest) = Ret (key, zlen (PackKey key))
  /\ UnpackValue (PackValue value ++ rest) = Ret (value, zlen (PackValue value)).
Proof.
  intros Hk Hv. pose proof (zlen_nonneg value). pose proof (zlen_nonneg rest).
  assert (Hlen : forall v, zlen (Uint64ToByteSlice v) = 8).
  { intros v. unfold zlen, Uint64ToByteSlice. by rewrite lePut_length. }
  assert (Htake : forall v r, take 8 (Uint64ToByteSlice v ++ r) = Uint64ToByteSlice v).
  { intros v r. apply take_app_length'. unfold Uint64ToByteSlice. by rewrite lePut_length. }
  assert (HB : forall v, is_u64 v -> ByteSliceToUint64 (Uint64ToByteSlice v) = Some v).
  { intros v Hu. unfold ByteSliceToUint64. rewrite Hlen. simpl negb. cbn iota. f_equal. by apply leGet_lePut. }
  unfold UnpackKey, UnpackValue, PackKey, PackValue. rewrite <- app_assoc, !Htake, !HB, !zlen_app, !Hlen by (done || split; lia).
  split.
  - rewrite (proj2 (Z.ltb_ge _ _)) by lia. done.
  - rewrite (proj2 (Z.ltb_ge (8 + _) 8)) by lia.
    rewrite (proj2 (Z.ltb_ge (8 + (zlen value + zlen rest)) (8 + zlen value))) by lia. rewrite andb_false_r.
    rewrite (drop_app_length' (Uint64ToByteSlice _)) by (unfold Uint64ToByteSlice; by rewrite lePut_length).
    unwrap_in_range. do 2 f_equal. apply take_app_length'. unfold zlen. lia.
Qed.

Lemma wrapper_pack_roundtrip_witness :
  UnpackKey (PackKey 258 ++ [9]) = Ret (258, 8) /\ UnpackValue (PackValue [1; 2; 3] ++ [9]) = Ret ([1; 2; 3], 11).
Proof. apply (wrapper_pack_roundtrip 258 [1; 2; 3] [9]); vm_compute; split; congruence || reflexivity. Defined.
