(* ===== verification/Headhunter.v ===== *)
(** Package [headhunter]: the volume database and its checkpoints.

    A volume keeps three B+Trees (inode records, log segment records and
    nodes of the inodes' own B+Trees) and persists them as checkpoints.
    The Swift client and the B+Tree library are interfaces here:
    [SwiftContainer] is what the package calls of [swiftclient] for its own
    account and checkpoint container, and [BPlusTree] is what it calls of the
    vendored [sortedmap].  A B+Tree operation calls back into the package to
    get, put and discard nodes, so it is a program over those three calls.

    All operations run under the volume's mutex.  [nonceLog] is a history
    variable: every value [fetchNonceWhileLocked] returned, newest first. *)

From S2P Require Import Prelude Blunder NodeProgram Utils HeadhunterCodec.
Open Scope list_scope.

(** ** What the package uses of [swiftclient] *)

Abbreviation Headers := (gmap string (list string)).

Class SwiftContainer (S C : Type) := {
  ContainerHead : St S error Headers;
  ContainerPut : Headers -> St S error unit;
  ContainerPost : Headers -> St S error unit;
  AccountPost : Headers -> St S error unit;
  ObjectTail : string -> Z -> St S error bytes;
  ObjectGet : string -> Z -> Z -> St S error bytes;
  ObjectFetchChunkedPutContext : string -> St S error C;
  BytesPut : C -> St S error Z;
  SendChunk : C -> bytes -> St S error unit;
  CloseContext : C -> St S error unit;
  ObjectDeleteAsync : string -> Z -> St S error unit
}.

(** ** What the package uses of [sortedmap] *)

Class BPlusTree (T : Type) := {
  NewBPlusTree : Z -> T;
  OldBPlusTree : Z -> Z -> Z -> nodeProg (res T);
  FetchLayoutReport : T -> nodeProg (T * res LayoutReport);
  bptGetByKey : T -> Z -> nodeProg (T * res (option bytes));
  bptPatchByKey : T -> Z -> bytes -> nodeProg (T * res bool);
  bptPut : T -> Z -> bytes -> nodeProg (T * res bool);
  bptDeleteByKey : T -> Z -> nodeProg (T * res bool);
  bptFlush : T -> nodeProg (T * res (Z * Z * Z));
  bptPrune : T -> nodeProg (T * res unit)
}.

(** ** State *)

Inductive wrapperType := inodeRecBPlusTreeWrapperType | logSegmentRecBPlusTreeWrapperType | bPlusTreeObjectBPlusTreeWrapperType.

#[export] Instance wrapperType_eq_dec : EqDecision wrapperType.
Proof. solve_decision. Defined.

Record volumeStruct (C T : Type) := mkVolume {
  maxFlushSize : Z;
  nonceValuesToReserve : Z;
  maxInodesPerMetadataNode : Z;
  maxLogSegmentsPerMetadataNode : Z;
  maxDirFileNodesPerMetadataNode : Z;
  checkpointContainerStoragePolicy : string;
  checkpointFlushedData : bool;
  checkpointChunkedPutContext : option C;
  checkpointDoneWaitGroup : option Z;
  waitGroupsMade : Z;
  waitGroupsDone : list Z;
  nextNonce : Z;
  checkpointHeaderVersion : Z;
  checkpointHeader : checkpointHeaderV2Struct;
  checkpointObjectTrailer : checkpointObjectTrailerV2Struct;
  inodeRecTree : T;
  logSegmentRecTree : T;
  bPlusTreeObjectTree : T;
  inodeRecBPlusTreeLayout : LayoutReport;
  logSegmentRecBPlusTreeLayout : LayoutReport;
  bPlusTreeObjectBPlusTreeLayout : LayoutReport;
  nonceLog : list Z
}.
Arguments mkVolume {C T}.
Arguments maxFlushSize {C T}.
Arguments nonceValuesToReserve {C T}.
Arguments maxInodesPerMetadataNode {C T}.
Arguments maxLogSegmentsPerMetadataNode {C T}.
Arguments maxDirFileNodesPerMetadataNode {C T}.
Arguments checkpointContainerStoragePolicy {C T}.
Arguments checkpointFlushedData {C T}.
Arguments checkpointChunkedPutContext {C T}.
Arguments checkpointDoneWaitGroup {C T}.
Arguments waitGroupsMade {C T}.
Arguments waitGroupsDone {C T}.
Arguments nextNonce {C T}.
Arguments checkpointHeaderVersion {C T}.
Arguments checkpointHeader {C T}.
Arguments checkpointObjectTrailer {C T}.
Arguments inodeRecTree {C T}.
Arguments logSegmentRecTree {C T}.
Arguments bPlusTreeObjectTree {C T}.
Arguments inodeRecBPlusTreeLayout {C T}.
Arguments logSegmentRecBPlusTreeLayout {C T}.
Arguments bPlusTreeObjectBPlusTreeLayout {C T}.
Arguments nonceLog {C T}.

#[export] Instance eta_volume C T : Eta (volumeStruct C T) := fun v =>
  mkVolume (maxFlushSize v) (nonceValuesToReserve v) (maxInodesPerMetadataNode v)
    (maxLogSegmentsPerMetadataNode v) (maxDirFileNodesPerMetadataNode v) (checkpointContainerStoragePolicy v)
    (checkpointFlushedData v) (checkpointChunkedPutContext v) (checkpointDoneWaitGroup v) (waitGroupsMade v)
    (waitGroupsDone v) (nextNonce v) (checkpointHeaderVersion v) (checkpointHeader v) (checkpointObjectTrailer v)
    (inodeRecTree v) (logSegmentRecTree v) (bPlusTreeObjectTree v) (inodeRecBPlusTreeLayout v)
    (logSegmentRecBPlusTreeLayout v) (bPlusTreeObjectBPlusTreeLayout v) (nonceLog v).

Definition CheckpointHeaderName : string := "X-Container-Meta-Checkpoint".
Definition StoragePolicyHeaderName : string := "X-Storage-Policy".
Definition AccountHeaderName : string := "X-ProxyFS-BiModal".
Definition AccountHeaderValue : string := "true".

(** Projections of a pair of states into a setter-friendly form. *)
Definition liftSnd {V S E A} (m : St S E A) : St (V * S) E A :=
  fun w => let '(s', r) := m w.2 in ((w.1, s'), r).

Definition modFst {V S E} (f : V -> V) : St (V * S) E unit := smod (fun w => (f w.1, w.2)).

Definition getFst {V S E} : St (V * S) E V := fun w => (w, Ret w.1).

Section Headhunter.

Context {S C T : Type} `{!SwiftContainer S C} `{!BPlusTree T}.

Local Abbreviation vol := (volumeStruct C T).
Local Abbreviation HH A := (St (vol * S) error A).

(** ** Nonces *)

Definition fetchNonceWhileLocked : HH Z :=
  volume <~ getFst ;;
  (if nextNonce volume =? ReservedToNonce (checkpointHeader volume) then
     let newReservedToNonce := ReservedToNonce (checkpointHeader volume) +u nonceValuesToReserve volume in
     let checkpointHeaderValue :=
       if checkpointHeaderVersion1 =? checkpointHeaderVersion volume
       then headerValueV1 (checkpointObjectTrailer volume) newReservedToNonce
       else headerValueV2 ((checkpointHeader volume) <| ReservedToNonce := newReservedToNonce |>) in
     liftSnd (ContainerPost {[CheckpointHeaderName := [checkpointHeaderValue]]}) ;;~
     modFst (fun v => v <| checkpointHeader := (checkpointHeader v) <| ReservedToNonce := newReservedToNonce |> |>)
   else sret tt) ;;~
  volume <~ getFst ;;
  modFst (fun v => v <| nextNonce := nextNonce v +u 1 |> <| nonceLog := nextNonce v :: nonceLog v |>) ;;~
  sret (nextNonce volume).

Definition FetchNonce : HH Z := fetchNonceWhileLocked.

(** ** The chunked PUT of the checkpoint object *)

(** The assignment of the two results of [fetchNonceWhileLocked] stores 0 in
    the header when it fails. *)
Definition openCheckpointChunkedPutContextIfNecessary : HH unit :=
  volume <~ getFst ;;
  match checkpointChunkedPutContext volume with
  | Some _ => sret tt
  | None =>
      r <~ stry fetchNonceWhileLocked ;;
      let nonce := match r with inr nonce => nonce | inl _ => 0 end in
      modFst (fun v => v <| checkpointHeader :=
                             (checkpointHeader v) <| CheckpointObjectTrailerV2StructObjectNumber := nonce |> |>) ;;~
      match r with inl e => serr e | inr _ => sret tt end ;;~
      ctx <~ liftSnd (ObjectFetchChunkedPutContext (Uint64ToHexStr nonce)) ;;
      modFst (fun v => v <| checkpointChunkedPutContext := Some ctx |>)
  end.

Definition bytesPutToCheckpointChunkedPutContext : HH Z :=
  volume <~ getFst ;;
  match checkpointChunkedPutContext volume with
  | None => serr plain
  | Some ctx => liftSnd (BytesPut ctx)
  end.

Definition sendChunkToCheckpointChunkedPutContext (buf : bytes) : HH unit :=
  volume <~ getFst ;;
  match checkpointChunkedPutContext volume with
  | None => serr plain
  | Some ctx => liftSnd (SendChunk ctx buf)
  end.

(** [err = ctx.Close(); volume.checkpointChunkedPutContext = nil]: the context
    is dropped whatever [Close] returns. *)
Definition closeAndDrop (ctx : C) : HH unit :=
  r <~ stry (liftSnd (CloseContext ctx)) ;;
  modFst (fun v => v <| checkpointChunkedPutContext := None |>) ;;~
  match r with inl e => serr e | inr _ => sret tt end.

Definition closeCheckpointChunkedPutContextIfNecessary : HH unit :=
  volume <~ getFst ;;
  match checkpointChunkedPutContext volume with
  | None => sret tt
  | Some ctx =>
      bytesPut <~ liftSnd (BytesPut ctx) ;;
      if maxFlushSize volume <=? bytesPut then closeAndDrop ctx else sret tt
  end.

Definition closeCheckpointChunkedPutContext : HH unit :=
  volume <~ getFst ;;
  match checkpointChunkedPutContext volume with
  | None => serr plain
  | Some ctx => closeAndDrop ctx
  end.

(** ** Node callbacks of the B+Trees *)

Definition layoutOf (w : wrapperType) (v : vol) : LayoutReport :=
  match w with
  | inodeRecBPlusTreeWrapperType => inodeRecBPlusTreeLayout v
  | logSegmentRecBPlusTreeWrapperType => logSegmentRecBPlusTreeLayout v
  | bPlusTreeObjectBPlusTreeWrapperType => bPlusTreeObjectBPlusTreeLayout v
  end.

Definition setLayout (w : wrapperType) (l : LayoutReport) (v : vol) : vol :=
  match w with
  | inodeRecBPlusTreeWrapperType => v <| inodeRecBPlusTreeLayout := l |>
  | logSegmentRecBPlusTreeWrapperType => v <| logSegmentRecBPlusTreeLayout := l |>
  | bPlusTreeObjectBPlusTreeWrapperType => v <| bPlusTreeObjectBPlusTreeLayout := l |>
  end.

Definition GetNode (objectNumber objectOffset objectLength : Z) : HH bytes :=
  liftSnd (ObjectGet (Uint64ToHexStr objectNumber) objectOffset objectLength).

(** What [PutNode] records in the layout report of its B+Tree. *)
Definition chargeLayout (layout : LayoutReport) (objectNumber len : Z) : LayoutReport :=
  match layout !! objectNumber with
  | Some bytesUsed => <[objectNumber := bytesUsed +u len]> layout
  | None => <[objectNumber := len]> layout
  end.

Definition PutNode (w : wrapperType) (nodeByteSlice : bytes) : HH (Z * Z) :=
  openCheckpointChunkedPutContextIfNecessary ;;~
  volume <~ getFst ;;
  let objectNumber := CheckpointObjectTrailerV2StructObjectNumber (checkpointHeader volume) in
  objectOffset <~ bytesPutToCheckpointChunkedPutContext ;;
  sendChunkToCheckpointChunkedPutContext nodeByteSlice ;;~
  modFst (fun v => v <| checkpointFlushedData := true |>) ;;~
  modFst (fun v => setLayout w (chargeLayout (layoutOf w v) objectNumber (zlen nodeByteSlice)) v) ;;~
  closeCheckpointChunkedPutContextIfNecessary ;;~
  sret (objectNumber, objectOffset).

(** What [DiscardNode] records in the layout report; [None] is its error. *)
Definition creditLayout (layout : LayoutReport) (objectNumber objectLength : Z) : option LayoutReport :=
  match layout !! objectNumber with
  | Some bytesUsed => if bytesUsed <? objectLength then None
                      else Some (<[objectNumber := bytesUsed -u objectLength]> layout)
  | None => None
  end.

Definition DiscardNode (w : wrapperType) (objectNumber objectOffset objectLength : Z) : HH unit :=
  volume <~ getFst ;;
  match creditLayout (layoutOf w volume) objectNumber objectLength with
  | None => serr plain
  | Some l => modFst (setLayout w l)
  end.

(** A B+Tree operation, with its callbacks answered by the package. *)
Fixpoint runNode {A} (w : wrapperType) (p : nodeProg A) : HH A :=
  match p with
  | NDone a => sret a
  | NGet n o l k => r <~ stry (GetNode n o l) ;; runNode w (k r)
  | NPut b k => r <~ stry (PutNode w b) ;; runNode w (k r)
  | NDiscard n o l k => r <~ stry (DiscardNode w n o l) ;; runNode w (k r)
  end.

Definition treeOf (w : wrapperType) (v : vol) : T :=
  match w with
  | inodeRecBPlusTreeWrapperType => inodeRecTree v
  | logSegmentRecBPlusTreeWrapperType => logSegmentRecTree v
  | bPlusTreeObjectBPlusTreeWrapperType => bPlusTreeObjectTree v
  end.

Definition setTree (w : wrapperType) (t : T) (v : vol) : vol :=
  match w with
  | inodeRecBPlusTreeWrapperType => v <| inodeRecTree := t |>
  | logSegmentRecBPlusTreeWrapperType => v <| logSegmentRecTree := t |>
  | bPlusTreeObjectBPlusTreeWrapperType => v <| bPlusTreeObjectTree := t |>
  end.

(** [volume.<w>Wrapper.bPlusTree.<op>(...)]. *)
Definition onTree {A} (w : wrapperType) (op : T -> nodeProg (T * res A)) : HH A :=
  volume <~ getFst ;;
  '(t, r) <~ runNode w (op (treeOf w volume)) ;;
  modFst (setTree w t) ;;~
  slift r.

(** ** Records *)

Definition putRec (w : wrapperType) (key : Z) (value : bytes) : HH unit :=
  ok <~ onTree w (fun t => bptPatchByKey t key value) ;;
  if ok then sret tt
  else _ <~ onTree w (fun t => bptPut t key value) ;; sret tt.

Definition GetInodeRec (inodeNumber : Z) : HH (option bytes) :=
  onTree inodeRecBPlusTreeWrapperType (fun t => bptGetByKey t inodeNumber).

Definition PutInodeRec (inodeNumber : Z) (value : bytes) : HH unit :=
  putRec inodeRecBPlusTreeWrapperType inodeNumber value.

Definition PutInodeRecs (inodeNumbers : list Z) (values : list bytes) : HH unit :=
  if negb (zlen inodeNumbers =? zlen values) then serr plain
  else sfor (combine inodeNumbers values) (fun '(inodeNumber, value) =>
         putRec inodeRecBPlusTreeWrapperType inodeNumber value).

Definition DeleteInodeRec (inodeNumber : Z) : HH unit :=
  _ <~ onTree inodeRecBPlusTreeWrapperType (fun t => bptDeleteByKey t inodeNumber) ;; sret tt.

Definition GetLogSegmentRec (logSegmentNumber : Z) : HH bytes :=
  o <~ onTree logSegmentRecBPlusTreeWrapperType (fun t => bptGetByKey t logSegmentNumber) ;;
  match o with None => serr plain | Some value => sret value end.

Definition PutLogSegmentRec (logSegmentNumber : Z) (value : bytes) : HH unit :=
  putRec logSegmentRecBPlusTreeWrapperType logSegmentNumber value.

Definition DeleteLogSegmentRec (logSegmentNumber : Z) : HH unit :=
  _ <~ onTree logSegmentRecBPlusTreeWrapperType (fun t => bptDeleteByKey t logSegmentNumber) ;; sret tt.

Definition GetBPlusTreeObject (objectNumber : Z) : HH bytes :=
  o <~ onTree bPlusTreeObjectBPlusTreeWrapperType (fun t => bptGetByKey t objectNumber) ;;
  match o with None => serr plain | Some value => sret value end.

Definition PutBPlusTreeObject (objectNumber : Z) (value : bytes) : HH unit :=
  putRec bPlusTreeObjectBPlusTreeWrapperType objectNumber value.

Definition DeleteBPlusTreeObject (objectNumber : Z) : HH unit :=
  _ <~ onTree bPlusTreeObjectBPlusTreeWrapperType (fun t => bptDeleteByKey t objectNumber) ;; sret tt.

(** ** Checkpoints *)

Definition fetchNextCheckPointDoneWaitGroupWhileLocked : HH Z :=
  volume <~ getFst ;;
  match checkpointDoneWaitGroup volume with
  | Some wg => sret wg
  | None =>
      modFst (fun v => v <| checkpointDoneWaitGroup := Some (waitGroupsMade v) |>
                         <| waitGroupsMade := waitGroupsMade v + 1 |>) ;;~
      sret (waitGroupsMade volume)
  end.

Definition FetchNextCheckPointDoneWaitGroup : HH Z := fetchNextCheckPointDoneWaitGroupWhileLocked.

(** [combinedBPlusTreeLayout] after ranging over one layout report. *)
Definition addLayout (combined layout : LayoutReport) : LayoutReport :=
  map_fold (fun objectNumber bytesUsed acc => chargeLayout acc objectNumber bytesUsed) combined layout.

Definition combinedLayout (v : vol) : LayoutReport :=
  addLayout (addLayout (addLayout ∅ (inodeRecBPlusTreeLayout v)) (logSegmentRecBPlusTreeLayout v))
    (bPlusTreeObjectBPlusTreeLayout v).

(** The loop over [combinedBPlusTreeLayout]: objects no node uses any more. *)
Definition deleteIfUnused (objectNumber bytesUsedCumulative : Z) : HH unit :=
  if 0 =? bytesUsedCumulative then
    modFst (fun v => v <| inodeRecBPlusTreeLayout := delete objectNumber (inodeRecBPlusTreeLayout v) |>
                       <| logSegmentRecBPlusTreeLayout := delete objectNumber (logSegmentRecBPlusTreeLayout v) |>
                       <| bPlusTreeObjectBPlusTreeLayout := delete objectNumber (bPlusTreeObjectBPlusTreeLayout v) |>) ;;~
    wg <~ fetchNextCheckPointDoneWaitGroupWhileLocked ;;
    liftSnd (ObjectDeleteAsync (Uint64ToHexStr objectNumber) wg)
  else sret tt.

Definition deleteUnusedObjects : HH unit :=
  volume <~ getFst ;;
  sfor (map_to_list (combinedLayout volume)) (fun e => deleteIfUnused e.1 e.2).

Definition setRoot (w : wrapperType) (root : Z * Z * Z) (t : checkpointObjectTrailerV2Struct) : checkpointObjectTrailerV2Struct :=
  let '(n, o, l) := root in
  match w with
  | inodeRecBPlusTreeWrapperType =>
      t <| InodeRecBPlusTreeObjectNumber := n |> <| InodeRecBPlusTreeObjectOffset := o |> <| InodeRecBPlusTreeObjectLength := l |>
  | logSegmentRecBPlusTreeWrapperType =>
      t <| LogSegmentRecBPlusTreeObjectNumber := n |> <| LogSegmentRecBPlusTreeObjectOffset := o |>
        <| LogSegmentRecBPlusTreeObjectLength := l |>
  | bPlusTreeObjectBPlusTreeWrapperType =>
      t <| BPlusTreeObjectBPlusTreeObjectNumber := n |> <| BPlusTreeObjectBPlusTreeObjectOffset := o |>
        <| BPlusTreeObjectBPlusTreeObjectLength := l |>
  end.

(** A failing [Flush] ends the process (see [DoCheckpoint]), so what it leaves
    in the trailer does not matter. *)
Definition flushTree (w : wrapperType) : HH unit :=
  root <~ onTree w bptFlush ;;
  modFst (fun v => v <| checkpointObjectTrailer := setRoot w root (checkpointObjectTrailer v) |>).

Definition postHeader : HH unit :=
  volume <~ getFst ;;
  liftSnd (ContainerPost {[CheckpointHeaderName := [headerValueV2 (checkpointHeader volume)]]}).

Definition putCheckpoint : HH unit :=
  modFst (fun v => v <| checkpointFlushedData := false |>) ;;~
  flushTree inodeRecBPlusTreeWrapperType ;;~
  flushTree logSegmentRecBPlusTreeWrapperType ;;~
  flushTree bPlusTreeObjectBPlusTreeWrapperType ;;~
  volume <~ getFst ;;
  if negb (checkpointFlushedData volume) then sret tt
  else
    onTree inodeRecBPlusTreeWrapperType bptPrune ;;~
    onTree logSegmentRecBPlusTreeWrapperType bptPrune ;;~
    onTree bPlusTreeObjectBPlusTreeWrapperType bptPrune ;;~
    modFst (fun v => v <| checkpointObjectTrailer :=
      (checkpointObjectTrailer v)
        <| InodeRecBPlusTreeLayoutNumElements := zlen (map_to_list (inodeRecBPlusTreeLayout v)) |>
        <| LogSegmentRecBPlusTreeLayoutNumElements := zlen (map_to_list (logSegmentRecBPlusTreeLayout v)) |>
        <| BPlusTreeObjectBPlusTreeLayoutNumElements := zlen (map_to_list (bPlusTreeObjectBPlusTreeLayout v)) |> |>) ;;~
    volume <~ getFst ;;
    let checkpointTrailerBuf := packTrailer (checkpointObjectTrailer volume) in
    let treeLayoutBuf := packLayout (map_to_list (inodeRecBPlusTreeLayout volume))
                         ++ packLayout (map_to_list (logSegmentRecBPlusTreeLayout volume))
                         ++ packLayout (map_to_list (bPlusTreeObjectBPlusTreeLayout volume)) in
    openCheckpointChunkedPutContextIfNecessary ;;~
    beginningOffset <~ bytesPutToCheckpointChunkedPutContext ;;
    sendChunkToCheckpointChunkedPutContext checkpointTrailerBuf ;;~
    sendChunkToCheckpointChunkedPutContext treeLayoutBuf ;;~
    endingOffset <~ bytesPutToCheckpointChunkedPutContext ;;
    closeCheckpointChunkedPutContext ;;~
    modFst (fun v => v <| checkpointHeader :=
      (checkpointHeader v) <| CheckpointObjectTrailerV2StructObjectLength := endingOffset -u beginningOffset |> |>) ;;~
    postHeader ;;~
    modFst (fun v => v <| checkpointHeaderVersion := checkpointHeaderVersion2 |>) ;;~
    deleteUnusedObjects.

(** One pass of [checkpointDaemon] (and so [DoCheckpoint]): a failure of
    [putCheckpoint] is fatal, success releases those who wait for it. *)
Definition DoCheckpoint : HH unit :=
  r <~ stry putCheckpoint ;;
  match r with
  | inl _ => spanic
  | inr _ =>
      modFst (fun v => v <| waitGroupsDone := match checkpointDoneWaitGroup v with
                                              | Some wg => wg :: waitGroupsDone v
                                              | None => waitGroupsDone v
                                              end |>
                         <| checkpointDoneWaitGroup := None |>)
  end.

(** ** Mounting a volume *)

(** The header value, created with initial values if the container is missing
    and the volume is being formatted. *)
Definition fetchOrCreateHeader (autoFormat : bool) : HH string :=
  r <~ stry (liftSnd ContainerHead) ;;
  match r with
  | inr headers =>
      match headers !! CheckpointHeaderName with
      | Some [checkpointHeaderValue] => sret checkpointHeaderValue
      | _ => serr plain
      end
  | inl e =>
      if autoFormat && (404 =? HTTPCode (Some e)) then
        volume <~ getFst ;;
        let value := headerValueV2 (mkHeader 0 0 (firstNonceToProvide -u 1)) in
        liftSnd (ContainerPut (<[CheckpointHeaderName := [value]]>
                               {[StoragePolicyHeaderName := [checkpointContainerStoragePolicy volume]]})) ;;~
        liftSnd (AccountPost {[AccountHeaderName := [AccountHeaderValue]]}) ;;~
        sret value
      else serr e
  end.

(** [NewBPlusTree] or [OldBPlusTree], by the object number of the root. *)
Definition loadTree (w : wrapperType) (root : Z * Z * Z) (maxKeysPerNode : Z) : HH unit :=
  let '(n, o, l) := root in
  if 0 =? n then modFst (setTree w (NewBPlusTree maxKeysPerNode))
  else r <~ runNode w (OldBPlusTree n o l) ;;
       t <~ slift r ;;
       modFst (setTree w t).

Definition rootOf (w : wrapperType) (t : checkpointObjectTrailerV2Struct) : Z * Z * Z :=
  match w with
  | inodeRecBPlusTreeWrapperType =>
      (InodeRecBPlusTreeObjectNumber t, InodeRecBPlusTreeObjectOffset t, InodeRecBPlusTreeObjectLength t)
  | logSegmentRecBPlusTreeWrapperType =>
      (LogSegmentRecBPlusTreeObjectNumber t, LogSegmentRecBPlusTreeObjectOffset t, LogSegmentRecBPlusTreeObjectLength t)
  | bPlusTreeObjectBPlusTreeWrapperType =>
      (BPlusTreeObjectBPlusTreeObjectNumber t, BPlusTreeObjectBPlusTreeObjectOffset t, BPlusTreeObjectBPlusTreeObjectLength t)
  end.

Definition maxKeysOf (w : wrapperType) (v : vol) : Z :=
  match w with
  | inodeRecBPlusTreeWrapperType => maxInodesPerMetadataNode v
  | logSegmentRecBPlusTreeWrapperType => maxLogSegmentsPerMetadataNode v
  | bPlusTreeObjectBPlusTreeWrapperType => maxDirFileNodesPerMetadataNode v
  end.

Definition setNumElements (w : wrapperType) (n : Z) (t : checkpointObjectTrailerV2Struct) : checkpointObjectTrailerV2Struct :=
  match w with
  | inodeRecBPlusTreeWrapperType => t <| InodeRecBPlusTreeLayoutNumElements := n |>
  | logSegmentRecBPlusTreeWrapperType => t <| LogSegmentRecBPlusTreeLayoutNumElements := n |>
  | bPlusTreeObjectBPlusTreeWrapperType => t <| BPlusTreeObjectBPlusTreeLayoutNumElements := n |>
  end.

Definition loadTreeV2 (w : wrapperType) : HH unit :=
  volume <~ getFst ;;
  loadTree w (rootOf w (checkpointObjectTrailer volume)) (maxKeysOf w volume).

(** Version 1 stores no layout report: it is computed from the B+Tree. *)
Definition loadTreeV1 (w : wrapperType) : HH unit :=
  volume <~ getFst ;;
  loadTree w (rootOf w (checkpointObjectTrailer volume)) (maxKeysOf w volume) ;;~
  layout <~ (if 0 =? (rootOf w (checkpointObjectTrailer volume)).1.1 then sret ∅
             else onTree w FetchLayoutReport) ;;
  modFst (setLayout w layout) ;;~
  modFst (fun v => v <| checkpointObjectTrailer :=
                         setNumElements w (zlen (map_to_list layout)) (checkpointObjectTrailer v) |>).

Definition getCheckpoint (autoFormat : bool) : HH unit :=
  checkpointHeaderValue <~ fetchOrCreateHeader autoFormat ;;
  parsed <~ slift (parseHeader checkpointHeaderValue) ;;
  match parsed with
  | HeaderV1 h t =>
      modFst (fun v => v <| checkpointHeaderVersion := checkpointHeaderVersion1 |>
                         <| checkpointHeader := h |> <| checkpointObjectTrailer := t |>) ;;~
      loadTreeV1 inodeRecBPlusTreeWrapperType ;;~
      loadTreeV1 logSegmentRecBPlusTreeWrapperType ;;~
      loadTreeV1 bPlusTreeObjectBPlusTreeWrapperType
  | HeaderV2 h =>
      modFst (fun v => v <| checkpointHeaderVersion := checkpointHeaderVersion2 |> <| checkpointHeader := h |>) ;;~
      '(t, li, ll, lb) <~
        (if 0 =? CheckpointObjectTrailerV2StructObjectNumber h then sret (emptyTrailer, ∅, ∅, ∅)
         else buf <~ liftSnd (ObjectTail (Uint64ToHexStr (CheckpointObjectTrailerV2StructObjectNumber h))
                                (CheckpointObjectTrailerV2StructObjectLength h)) ;;
              slift (readTrailer buf)) ;;
      modFst (fun v => v <| checkpointObjectTrailer := t |> <| inodeRecBPlusTreeLayout := li |>
                         <| logSegmentRecBPlusTreeLayout := ll |> <| bPlusTreeObjectBPlusTreeLayout := lb |>) ;;~
      loadTreeV2 inodeRecBPlusTreeWrapperType ;;~
      loadTreeV2 logSegmentRecBPlusTreeWrapperType ;;~
      loadTreeV2 bPlusTreeObjectBPlusTreeWrapperType
  end ;;~
  modFst (fun v => v <| nextNonce := ReservedToNonce (checkpointHeader v) |>).

End Headhunter.
