(* ===== verification/HeadhunterConfig.v ===== *)
(** Package [headhunter]: starting and stopping volumes (config.go).

    The volumes of the process are in [hh_volumeMap]; [hv_daemon] says that the
    goroutine [checkpointDaemon] of a volume runs.  Swift is one world for all
    volumes; [swiftOf] gives the calls a volume makes of it, by the names of its
    account and container. *)

From S2P Require Import Prelude Blunder NodeProgram Utils GoStrings Conf ConfNumbers ConfSections HeadhunterCodec Headhunter.
Open Scope list_scope.

Record hhVolume (C T : Type) := mkHhVolume {
  hv_accountName : string;
  hv_checkpointContainerName : string;
  hv_checkpointInterval : Z;
  hv_volume : volumeStruct C T;
  hv_daemon : bool
}.
Arguments mkHhVolume {C T}.
Arguments hv_accountName {C T}.
Arguments hv_checkpointContainerName {C T}.
Arguments hv_checkpointInterval {C T}.
Arguments hv_volume {C T}.
Arguments hv_daemon {C T}.

#[export] Instance eta_hhVolume C T : Eta (hhVolume C T) := fun v =>
  mkHhVolume (hv_accountName v) (hv_checkpointContainerName v) (hv_checkpointInterval v) (hv_volume v) (hv_daemon v).

(** The limits of the caches of the three kinds of B+Trees. *)
Record hhGlobals (C T : Type) := mkHhGlobals {
  inodeRecCache : Z * Z;
  logSegmentRecCache : Z * Z;
  bPlusTreeObjectCache : Z * Z;
  hh_volumeMap : gmap string (hhVolume C T)
}.
Arguments mkHhGlobals {C T}.
Arguments inodeRecCache {C T}.
Arguments logSegmentRecCache {C T}.
Arguments bPlusTreeObjectCache {C T}.
Arguments hh_volumeMap {C T}.

#[export] Instance eta_hhGlobals C T : Eta (hhGlobals C T) := fun g =>
  mkHhGlobals (inodeRecCache g) (logSegmentRecCache g) (bPlusTreeObjectCache g) (hh_volumeMap g).

Definition limitOr (confMap : ConfMap) (optionName : string) (otherwise : Z) : Z :=
  match FetchOptionValueUint64 confMap "FSGlobals" optionName with Ret v => v | _ => otherwise end.

Section Config.
Context {S C T : Type} (swiftOf : string -> string -> SwiftContainer S C) `{!BPlusTree T} `{!MapRange}.

Local Abbreviation HHG A := (St (hhGlobals C T * S) error A).

(** Runs a method of a volume on the volume and Swift. *)
Definition onVolume {A} (volume : hhVolume C T) (m : SwiftContainer S C -> St (volumeStruct C T * S) error A)
    : St (hhVolume C T * S) error A :=
  fun w => let '((v, s), r) := m (swiftOf (hv_accountName volume) (hv_checkpointContainerName volume)) (hv_volume w.1, w.2) in
           ((w.1 <| hv_volume := v |>, s), r).

Definition modVolumes (f : gmap string (hhVolume C T) -> gmap string (hhVolume C T)) : HHG unit :=
  smod (fun w => (w.1 <| hh_volumeMap := f (hh_volumeMap w.1) |>, w.2)).

(** The struct of a volume as [upVolume] fills it from the configuration. *)
Definition readVolume (confMap : ConfMap) (namespaced : bool) (volumeName : string) : res (hhVolume C T) :=
  let volumeSectionName := VolumeNameConfSection namespaced volumeName in
  accountName <- FetchOptionValueString confMap volumeSectionName "AccountName" ;;
  flowControlName <- FetchOptionValueString confMap volumeSectionName "FlowControl" ;;
  let flowControlSectionName := FlowControlNameConfSection namespaced flowControlName in
  maxFlushSize <- FetchOptionValueUint64 confMap flowControlSectionName "MaxFlushSize" ;;
  nonceValuesToReserve <- FetchOptionValueUint16 confMap volumeSectionName "NonceValuesToReserve" ;;
  maxInodesPerMetadataNode <- FetchOptionValueUint64 confMap volumeSectionName "MaxInodesPerMetadataNode" ;;
  maxLogSegmentsPerMetadataNode <- FetchOptionValueUint64 confMap volumeSectionName "MaxLogSegmentsPerMetadataNode" ;;
  maxDirFileNodesPerMetadataNode <- FetchOptionValueUint64 confMap volumeSectionName "MaxDirFileNodesPerMetadataNode" ;;
  checkpointContainerName <- FetchOptionValueString confMap volumeSectionName "CheckpointContainerName" ;;
  checkpointContainerStoragePolicy <- FetchOptionValueString confMap volumeSectionName "CheckpointContainerStoragePolicy" ;;
  checkpointInterval <- FetchOptionValueDuration confMap volumeSectionName "CheckpointInterval" ;;
  Ret (mkHhVolume accountName checkpointContainerName checkpointInterval
         (mkVolume maxFlushSize nonceValuesToReserve maxInodesPerMetadataNode maxLogSegmentsPerMetadataNode
            maxDirFileNodesPerMetadataNode checkpointContainerStoragePolicy false None None 0 [] 0 0 (mkHeader 0 0 0) emptyTrailer
            (NewBPlusTree maxInodesPerMetadataNode) (NewBPlusTree maxLogSegmentsPerMetadataNode)
            (NewBPlusTree maxDirFileNodesPerMetadataNode) ∅ ∅ ∅ []) false).

(** The volume enters the map, and its daemon starts, when it could be mounted. *)
Definition upVolume (confMap : ConfMap) (namespaced : bool) (volumeName : string) (autoFormat : bool) : HHG unit :=
  volume <~ slift (readVolume confMap namespaced volumeName) ;;
  volume <~ (fun w => let '((volume', s), r) := onVolume volume (fun sw => getCheckpoint (SwiftContainer0 := sw) autoFormat) (volume, w.2) in
                      ((w.1, s), obind r (fun _ => Ret volume'))) ;;
  modVolumes <[volumeName := volume <| hv_daemon := true |>]>.

(** A last checkpoint, after which the daemon ends.  Without a daemon nobody
    takes the request, and the wait never ends; a checkpoint that fails ends
    the process. *)
Definition downVolume (volumeName : string) : HHG unit :=
  w <~ sget ;;
  match hh_volumeMap w.1 !! volumeName with
  | None => serr plain
  | Some volume =>
      if hv_daemon volume then
        (fun w => let '((volume', s), r) := onVolume volume (fun sw => DoCheckpoint (SwiftContainer0 := sw)) (volume, w.2) in
                  ((w.1 <| hh_volumeMap := <[volumeName := volume' <| hv_daemon := false |>]> (hh_volumeMap w.1) |>, s), r))
      else spanic
  end.

Definition readLimits (confMap : ConfMap) : HHG unit :=
  smod (fun w => (w.1 <| inodeRecCache := (limitOr confMap "InodeRecCacheEvictLowLimit" 10000,
                                           limitOr confMap "InodeRecCacheEvictHighLimit" 10010) |>
                      <| logSegmentRecCache := (limitOr confMap "LogSegmentRecCacheEvictLowLimit" 10000,
                                                limitOr confMap "LogSegmentRecCacheEvictHighLimit" 10010) |>
                      <| bPlusTreeObjectCache := (limitOr confMap "BPlusTreeObjectCacheEvictLowLimit" 10000,
                                                  limitOr confMap "BPlusTreeObjectCacheEvictHighLimit" 10010) |>, w.2)).

Definition Up (confMap : ConfMap) (namespaced : bool) : HHG unit :=
  whoAmI <~ slift (FetchOptionValueString confMap "Cluster" "WhoAmI") ;;
  volumeList <~ slift (volumeListOf confMap) ;;
  readLimits confMap ;;~
  modVolumes (fun _ => ∅) ;;~
  sfor volumeList (fun volumeName =>
    ifPrimary confMap namespaced whoAmI volumeName (upVolume confMap namespaced volumeName false)).

(** The names that stay in [deletedVolumeNames]. *)
Fixpoint notServed (confMap : ConfMap) (namespaced : bool) (whoAmI : string) (volumeList : list string) (deletedVolumeNames : gset string)
    : res (gset string) :=
  match volumeList with
  | [] => Ret deletedVolumeNames
  | volumeName :: rest =>
      primaryPeer <- primaryPeerOf confMap namespaced volumeName ;;
      notServed confMap namespaced whoAmI rest
        (if bool_decide (primaryPeer = Some whoAmI) then deletedVolumeNames ∖ {[volumeName]} else deletedVolumeNames)
  end.

Definition PauseAndContract (confMap : ConfMap) (namespaced : bool) : HHG unit :=
  w <~ sget ;;
  whoAmI <~ slift (FetchOptionValueString confMap "Cluster" "WhoAmI") ;;
  volumeList <~ slift (volumeListOf confMap) ;;
  deletedVolumeNames <~ slift (notServed confMap namespaced whoAmI volumeList (dom (hh_volumeMap w.1))) ;;
  sfor (rangeKeys deletedVolumeNames) (fun volumeName =>
    downVolume volumeName ;;~
    modVolumes (delete volumeName)).

Definition ExpandAndResume (confMap : ConfMap) (namespaced : bool) : HHG unit :=
  whoAmI <~ slift (FetchOptionValueString confMap "Cluster" "WhoAmI") ;;
  volumeList <~ slift (volumeListOf confMap) ;;
  sfor volumeList (fun volumeName =>
    ifPrimary confMap namespaced whoAmI volumeName
      (w <~ sget ;;
       match hh_volumeMap w.1 !! volumeName with
       | None => upVolume confMap namespaced volumeName false
       | Some _ => sret tt
       end)).

Definition Down : HHG unit :=
  w <~ sget ;;
  sfor (rangeKeys (dom (hh_volumeMap w.1))) downVolume.

Definition Format (confMap : ConfMap) (namespaced : bool) (volumeName : string) : HHG unit :=
  modVolumes (fun _ => ∅) ;;~
  upVolume confMap namespaced volumeName true ;;~
  downVolume volumeName.

(** The handle is the volume of that name. *)
Definition FetchVolumeHandle (g : hhGlobals C T) (volumeName : string) : res (option string) :=
  if bool_decide (is_Some (hh_volumeMap g !! volumeName)) then Ret (Some volumeName) else Err plain.
End Config.

(** Starting and stopping volumes of [headhunter]: the map has the volumes that
    the configuration gives to this peer, each with its daemon, and volumes that
    stay are left alone. *)

Section Facts.
Context {S C T : Type} (swiftOf : string -> string -> SwiftContainer S C) `{!BPlusTree T} `{!MapRange} `{!MapRangeOk}.

Abbreviation world := (hhGlobals C T * S)%type.

Definition volumes (w : world) : gmap string (hhVolume C T) := hh_volumeMap w.1.

(** Every volume has its daemon. *)
Definition daemonsRun (w : world) : Prop := map_Forall (fun _ v => hv_daemon v = true) (volumes w).

Lemma modVolumes_ret f (w w' : world) : modVolumes f w = (w', Ret tt) -> volumes w' = f (volumes w).
Proof. intros [= <-]. done. Qed.

Lemma upVolume_adds confMap namespaced volumeName autoFormat (w w' : world) :
  upVolume swiftOf confMap namespaced volumeName autoFormat w = (w', Ret tt) ->
  exists v, volumes w' = <[volumeName := v]> (volumes w) /\ hv_daemon v = true.
Proof.
  unfold upVolume. intros (w1 & v & Hv & Hr)%sbind_ret_inv. injection Hv as <- _.
  apply sbind_ret_inv in Hr as (w2 & v' & Hm & Hr). apply modVolumes_ret in Hr.
  exists (v' <| hv_daemon := true |>). split; [|done]. rewrite Hr. f_equal.
  destruct (onVolume swiftOf v _ (v, w.2)) as [[v1 s] r]. by injection Hm as <- _.
Qed.

(** A volume that goes had its last checkpoint. *)
Lemma downVolume_checkpoints volumeName (w w' : world) :
  downVolume swiftOf volumeName w = (w', Ret tt) ->
  exists v v' s', volumes w !! volumeName = Some v /\ hv_daemon v = true
    /\ DoCheckpoint (SwiftContainer0 := swiftOf (hv_accountName v) (hv_checkpointContainerName v)) (hv_volume v, w.2) = ((v', s'), Ret tt)
    /\ w'.2 = s' /\ volumes w' = <[volumeName := v <| hv_volume := v' |> <| hv_daemon := false |>]> (volumes w).
Proof.
  unfold downVolume. intros (w1 & w2 & Hw & Hr)%sbind_ret_inv. injection Hw as <- <-. unfold volumes.
  destruct (hh_volumeMap w.1 !! volumeName) as [v|]; [|done]. destruct (hv_daemon v) eqn:Hd; [|done].
  unfold onVolume in Hr. cbn [fst snd] in Hr.
  destruct (DoCheckpoint (hv_volume v, w.2)) as [[v' s'] r] eqn:Hc. injection Hr as <- ->.
  by exists v, v', s'.
Qed.

(** A last checkpoint that succeeded, of the volume as it was. *)
Definition checkpointed (v : hhVolume C T) : Prop :=
  exists s v' s', DoCheckpoint (SwiftContainer0 := swiftOf (hv_accountName v) (hv_checkpointContainerName v)) (hv_volume v, s)
                  = ((v', s'), Ret tt).

(** What is true of the map once the volumes [X] of this peer were started: it
    has them, and the ones of [before] as they were. *)
Definition grown (before : gmap string (hhVolume C T)) (X : gset string) (w : world) : Prop :=
  dom (volumes w) = dom before ∪ X /\ before ⊆ volumes w
  /\ (map_Forall (fun _ v => hv_daemon v = true) before -> daemonsRun w).

Lemma grown_start (w : world) : grown (volumes w) ∅ w.
Proof. split; [set_solver|done]. Qed.

Lemma grown_add before X name v (w w' : world) :
  grown before X w -> before !! name = None -> volumes w' = <[name := v]> (volumes w) -> hv_daemon v = true ->
  grown before ({[name]} ∪ X) w'.
Proof.
  intros (Hd & Hs & Hr) Hn Hw Hv. split; [|split].
  - rewrite Hw, dom_insert_L, Hd. set_solver.
  - rewrite Hw. by apply insert_subseteq_r.
  - intros Hb. unfold daemonsRun. rewrite Hw. by apply map_Forall_insert_2; [|apply Hr].
Qed.

(** ** PauseAndContract *)

Lemma notServed_elem confMap namespaced whoAmI volumeList : forall X Y,
  notServed confMap namespaced whoAmI volumeList X = Ret Y ->
  forall name, name ∈ Y <-> name ∈ X /\ ~ (name ∈ volumeList /\ primaryPeerOf confMap namespaced name = Ret (Some whoAmI)).
Proof.
  induction volumeList as [|x rest IH]; cbn [notServed]; intros X Y HE name.
  - injection HE as <-. split; [|tauto]. intros ?. split; [done|]. by intros [Hn%elem_of_nil _].
  - destruct (primaryPeerOf confMap namespaced x) as [p| |] eqn:Hp; cbn [obind] in HE; try done.
    rewrite (IH _ _ HE), elem_of_cons. case_bool_decide; subst.
    + rewrite elem_of_difference, elem_of_singleton. destruct (decide (name = x)); [subst; tauto|tauto].
    + split; [|tauto]. intros [? Hn]. split; [done|]. intros [[->|?] Hq]; [|tauto]. congruence.
Qed.

Lemma PauseAndContract_removes confMap namespaced whoAmI (w w' : world) :
  PauseAndContract swiftOf confMap namespaced w = (w', Ret tt) ->
  FetchOptionValueString confMap "Cluster" "WhoAmI" = Ret whoAmI ->
  volumes w' = filter (fun p => p.1 ∈ servedBy confMap namespaced whoAmI) (volumes w)
  /\ forall name v, volumes w !! name = Some v -> name ∉ servedBy confMap namespaced whoAmI -> checkpointed v.
Proof.
  unfold PauseAndContract. intros (w1 & w0 & Hw & Hr)%sbind_ret_inv Hwho. injection Hw as <- <-.
  apply sbind_ret_inv in Hr as (w1 & who & Hw & Hr). injection Hw as <- Hw. rewrite Hwho in Hw. injection Hw as <-.
  apply sbind_ret_inv in Hr as (w1 & volumeList & Hw & Hr). injection Hw as <- Hl.
  apply sbind_ret_inv in Hr as (w1 & gone & Hw & Hr). injection Hw as <- Hgone0.
  pose proof (notServed_elem _ _ _ _ _ _ Hgone0) as Hg.
  assert (Hall : volumes w' = filter (fun p => p.1 ∉ rangeKeys gone) (volumes w)
                 /\ forall x v, x ∈ rangeKeys gone -> volumes w !! x = Some v -> checkpointed v).
  { refine (sfor_ret_ind (fun done u => volumes u = filter (fun p => p.1 ∉ done) (volumes w)
                            /\ forall x v, x ∈ done -> volumes w !! x = Some v -> checkpointed v) _ _ _ _ _ _ Hr).
    - split; [symmetry; apply map_filter_id; intros; by apply not_elem_of_nil|by intros x v Hx%elem_of_nil].
    - intros don x s1 s2 Hx [Hs1 Hc] (s3 & [] & Hdown & Hmod)%sbind_ret_inv.
      apply downVolume_checkpoints in Hdown as (v & v' & s' & Hvx & _ & Hck & _ & Hv). apply modVolumes_ret in Hmod. split.
      + rewrite Hmod, Hv, Hs1, delete_insert_eq. apply map_eq. intros k. rewrite lookup_delete.
        case_decide; [subst; symmetry; apply map_lookup_filter_None; right; intros; cbn; set_solver|].
        apply option_eq. intros z. rewrite !map_lookup_filter_Some. cbn. set_solver.
      + intros y z [Hy| ->%list_elem_of_singleton]%elem_of_app Hz; [by eapply Hc|].
        rewrite Hs1 in Hvx. apply map_lookup_filter_Some in Hvx as [Hvx _]. rewrite Hz in Hvx. injection Hvx as ->. by eexists _, _, _. }
  destruct Hall as [Hall Hck]. assert (Hgone : forall name v, volumes w !! name = Some v ->
    name ∈ rangeKeys gone <-> name ∉ servedBy confMap namespaced whoAmI).
  { intros k z Hz. rewrite rangeKeys_elem, Hg, (servedBy_elem _ _ _ _ _ Hl), elem_of_dom. split; [tauto|].
    intros Hk. split; [by eexists|done]. }
  split; [|intros name v Hn Hs; eapply Hck; [by eapply Hgone|done]].
  rewrite Hall. apply map_eq. intros k. apply option_eq. intros z. rewrite !map_lookup_filter_Some. cbn.
  split; intros [Hz Hk]; (split; [done|]); specialize (Hgone k z Hz);
    (destruct (decide (k ∈ servedBy confMap namespaced whoAmI)); tauto).
Qed.

(** ** The packages after a change of configuration *)

Definition reconfigured (confMap : ConfMap) (namespaced : bool) (whoAmI : string) (before : gmap string (hhVolume C T)) (w : world) : Prop :=
  dom (volumes w) = servedBy confMap namespaced whoAmI /\ daemonsRun w
  /\ forall name v, before !! name = Some v ->
       if bool_decide (name ∈ servedBy confMap namespaced whoAmI) then volumes w !! name = Some v else checkpointed v.

Lemma ExpandAndResume_grows confMap namespaced whoAmI (w w' : world) :
  FetchOptionValueString confMap "Cluster" "WhoAmI" = Ret whoAmI ->
  ExpandAndResume swiftOf confMap namespaced w = (w', Ret tt) ->
  grown (volumes w) (servedBy confMap namespaced whoAmI) w'.
Proof.
  intros Hwho He. ret_step He. rewrite Hwho in E. injection E as <-. ret_step He.
  refine (servedLoop_ind (grown (volumes w)) _ _ _ _ _ _ _ E (grown_start w) _ He).
  intros X name u u' Hu Hb. ret_step Hb. destruct (hh_volumeMap u.1 !! name) as [v|] eqn:Hn.
  - injection Hb as <-. destruct Hu as (Hdom & ? & ?). split; [|done]. rewrite (union_comm_L _ X), (union_assoc_L _ X), <- Hdom.
    apply (elem_of_dom_2 (D := gset string)) in Hn. unfold volumes. set_solver.
  - apply upVolume_adds in Hb as (v & Hv' & Hdv). eapply grown_add; [done| |done..].
    destruct Hu as (_ & Hsub & _). by eapply lookup_weaken_None.
Qed.

(** The volumes that a change of configuration leaves, and those it adds. *)
Lemma grown_serves confMap namespaced whoAmI before (w : world) :
  dom before ⊆ servedBy confMap namespaced whoAmI -> map_Forall (fun _ v => hv_daemon v = true) before ->
  grown before (servedBy confMap namespaced whoAmI) w ->
  dom (volumes w) = servedBy confMap namespaced whoAmI /\ daemonsRun w.
Proof. intros Hb Hd (Hdom & _ & Hrun). split; [|by apply Hrun]. rewrite Hdom. by apply subseteq_union_1_L. Qed.

Lemma Reload_serves confMap namespaced whoAmI (w w1 w2 : world) :
  FetchOptionValueString confMap "Cluster" "WhoAmI" = Ret whoAmI ->
  daemonsRun w ->
  PauseAndContract swiftOf confMap namespaced w = (w1, Ret tt) ->
  ExpandAndResume swiftOf confMap namespaced w1 = (w2, Ret tt) ->
  reconfigured confMap namespaced whoAmI (volumes w) w2.
Proof.
  intros Hwho Hd Hp He. destruct (PauseAndContract_removes _ _ _ _ _ Hp Hwho) as [Hv Hck].
  pose proof (ExpandAndResume_grows _ _ _ _ _ Hwho He) as Hg. pose proof Hg as (_ & Hsub & _).
  apply grown_serves in Hg as [Hdom Hrun]; [|rewrite Hv..].
  - split; [done|]. split; [done|].
    intros name v Hn. case_bool_decide as Hs; [|by eapply Hck]. eapply lookup_weaken; [|exact Hsub]. rewrite Hv. by apply map_lookup_filter_Some.
  - intros name [v Hin]%elem_of_dom. by apply map_lookup_filter_Some in Hin as [_ Hin].
  - intros k v [Hk _]%map_lookup_filter_Some. by eapply Hd.
Qed.

(** A new configuration that headhunter takes without an error leaves it
    with exactly the volumes that the configuration gives to this peer, each
    with a running daemon; a volume it had already is the same as before, and
    one it gives up had a last checkpoint that succeeded. *)
Theorem headhunter_reconfigured confMap namespaced whoAmI (w w1 w2 : world) :
  FetchOptionValueString confMap "Cluster" "WhoAmI" = Ret whoAmI ->
  daemonsRun w ->
  PauseAndContract swiftOf confMap namespaced w = (w1, Ret tt) ->
  ExpandAndResume swiftOf confMap namespaced w1 = (w2, Ret tt) ->
  reconfigured confMap namespaced whoAmI (volumes w) w2.
Proof. apply Reload_serves. Qed.

Lemma Up_serves confMap namespaced whoAmI (w w' : world) :
  FetchOptionValueString confMap "Cluster" "WhoAmI" = Ret whoAmI ->
  Up swiftOf confMap namespaced w = (w', Ret tt) ->
  dom (volumes w') = servedBy confMap namespaced whoAmI /\ daemonsRun w'.
Proof.
  intros Hwho He. ret_step He. rewrite Hwho in E. injection E as <-. ret_step He. ret_step He. ret_step He. destruct a1.
  apply modVolumes_ret in E1.
  refine (servedLoop_ind (fun X u => dom (volumes u) = X /\ daemonsRun u) _ _ _ _ _ _ _ E _ _ He).
  - unfold daemonsRun. rewrite E1. split; [by rewrite dom_empty_L|apply map_Forall_empty].
  - intros X name u u' [<- Hrun] Hb. apply upVolume_adds in Hb as (v & Hv' & Hdv). unfold daemonsRun.
    rewrite Hv'. split; [by rewrite dom_insert_L|by apply map_Forall_insert_2].
Qed.
End Facts.
