(* ===== verification/VolumeHandle.v ===== *)
(** The interface [headhunter.VolumeHandle] that package [inode] uses.

    [VolumeHandle] has the operations and [VolumeHandleOk] what they promise:
    a handle denotes three finite maps (inode records, log segment records and
    nodes of the inodes' B+Trees), reading changes none of them, and an
    operation that returns without an error has read or updated exactly the key
    it was called with. *)

From S2P Require Import Prelude Blunder.

Class VolumeHandle (V : Type) := {
  vhFetchNonce : St V error Z;
  vhFetchNextCheckPointDoneWaitGroup : St V error Z;
  vhGetInodeRec : Z -> St V error (option bytes);
  vhPutInodeRec : Z -> bytes -> St V error unit;
  vhPutInodeRecs : list Z -> list bytes -> St V error unit;
  vhDeleteInodeRec : Z -> St V error unit;
  vhGetLogSegmentRec : Z -> St V error bytes;
  vhPutLogSegmentRec : Z -> bytes -> St V error unit;
  vhDeleteLogSegmentRec : Z -> St V error unit;
  vhGetBPlusTreeObject : Z -> St V error bytes;
  vhPutBPlusTreeObject : Z -> bytes -> St V error unit;
  vhDeleteBPlusTreeObject : Z -> St V error unit;
  vhDoCheckpoint : St V error unit
}.

Record recordMaps := mkMaps {
  inodeRecs : gmap Z bytes;
  logSegmentRecs : gmap Z bytes;
  bPlusTreeObjects : gmap Z bytes
}.

#[export] Instance eta_recordMaps : Eta recordMaps := fun m =>
  mkMaps (inodeRecs m) (logSegmentRecs m) (bPlusTreeObjects m).

Class VolumeHandleOk (V : Type) `{VolumeHandle V} := {
  vhMaps : V -> recordMaps;
  vh_nonce : keeps (fun v v' => vhMaps v' = vhMaps v) vhFetchNonce;
  vh_waitGroup : keeps (fun v v' => vhMaps v' = vhMaps v) vhFetchNextCheckPointDoneWaitGroup;
  vh_getInodeRec n v v' r : vhGetInodeRec n v = (v', r) ->
    vhMaps v' = vhMaps v /\ (forall o, r = Ret o -> o = inodeRecs (vhMaps v) !! n);
  vh_putInodeRec n b v v' : vhPutInodeRec n b v = (v', Ret tt) ->
    vhMaps v' = (vhMaps v) <| inodeRecs := <[n := b]> (inodeRecs (vhMaps v)) |>;
  vh_deleteInodeRec n v v' : vhDeleteInodeRec n v = (v', Ret tt) ->
    vhMaps v' = (vhMaps v) <| inodeRecs := delete n (inodeRecs (vhMaps v)) |>;
  vh_getLogSegmentRec n v v' r : vhGetLogSegmentRec n v = (v', r) ->
    vhMaps v' = vhMaps v /\ (forall b, r = Ret b -> logSegmentRecs (vhMaps v) !! n = Some b);
  vh_putLogSegmentRec n b v v' : vhPutLogSegmentRec n b v = (v', Ret tt) ->
    vhMaps v' = (vhMaps v) <| logSegmentRecs := <[n := b]> (logSegmentRecs (vhMaps v)) |>;
  vh_deleteLogSegmentRec n v v' : vhDeleteLogSegmentRec n v = (v', Ret tt) ->
    vhMaps v' = (vhMaps v) <| logSegmentRecs := delete n (logSegmentRecs (vhMaps v)) |>;
  vh_getBPlusTreeObject n v v' r : vhGetBPlusTreeObject n v = (v', r) ->
    vhMaps v' = vhMaps v /\ (forall b, r = Ret b -> bPlusTreeObjects (vhMaps v) !! n = Some b);
  vh_putBPlusTreeObject n b v v' : vhPutBPlusTreeObject n b v = (v', Ret tt) ->
    vhMaps v' = (vhMaps v) <| bPlusTreeObjects := <[n := b]> (bPlusTreeObjects (vhMaps v)) |>;
  vh_deleteBPlusTreeObject n v v' : vhDeleteBPlusTreeObject n v = (v', Ret tt) ->
    vhMaps v' = (vhMaps v) <| bPlusTreeObjects := delete n (bPlusTreeObjects (vhMaps v)) |>
}.
