(* ===== verification/InodeVolume.v ===== *)
(** Package [inode]: a volume, its inodes in memory and on disk (inode.go,
    symlink.go, the log segment records of file.go and the node callbacks of
    payload.go).

    A [*inMemoryInodeStruct] is an address into [inodeHeap]; [inodeCache] maps
    inode numbers to such addresses, so an inode that is purged or destroyed
    stays reachable through the pointers callers still hold, as in Go.  The
    operations are calls made one after the other: the volume's and the
    inode's mutexes are not modelled, and a goroutine that flushes a log
    segment is an entry of the inode's [flushing] list until it has run.

    [headhunter] is used through [VolumeHandle] and [swiftclient] through
    [SwiftData].  Two things are parameters because their code is not the
    program's: [PayloadTree], what the package calls of the B+Tree library, and
    [OnDiskCodec], the JSON encoding of an [onDiskInodeV1Struct].  The clock is
    a function from the number of earlier readings to a time. *)

From S2P Require Import Prelude SortedMap Blunder NodeProgram Utils InodeTypes ReadCache VolumeHandle.
Open Scope list_scope.

(** ** What the package uses of [swiftclient] *)

Class SwiftData (S : Type) := {
  ContainerPut : string -> string -> gmap string (list string) -> St S error unit;
  ObjectFetchChunkedPutContext : string -> string -> string -> St S error Z;
  BytesPut : Z -> St S error Z;
  SendChunk : Z -> bytes -> St S error unit;
  CtxRead : Z -> Z -> Z -> St S error bytes;
  CtxClose : Z -> St S error unit;
  ObjectGet : string -> string -> string -> Z -> Z -> St S error bytes;
  ObjectContentLength : string -> string -> string -> St S error Z;
  ObjectDeleteAsync : string -> string -> string -> option Z -> St S error unit
}.

(** ** What it uses of [sortedmap] and of [encoding/json]

    A tree in memory is its contents; where it was last persisted is in the
    inode ([PayloadObjectNumber], [PayloadObjectLength]), which a flush gets so
    that it can leave an unchanged tree alone. *)

Class PayloadTree := {
  treeOld : Z -> Z -> Z -> Z -> nodeProg (res payload_t);
  treeFlush : payload_t -> Z -> Z -> nodeProg (res (Z * Z * Z));
  treePrune : payload_t -> nodeProg (res unit);
  treeDiscard : payload_t -> Z -> Z -> nodeProg (res unit);
  treeValidate : payload_t -> nodeProg (res unit)
}.

Class OnDiskCodec := {
  jsonMarshal : onDiskInodeV1Struct -> res bytes;
  jsonUnmarshal : bytes -> res onDiskInodeV1Struct
}.

(** ** State *)

Record physicalContainerLayoutStruct := mkLayout {
  physicalContainerStoragePolicy : string;
  physicalContainerNamePrefix : string;
  physicalContainerNameSlice : list string;
  physicalContainerCountMax : Z;
  physicalObjectCountMax : Z;
  physicalContainerNameSliceNextIndex : Z;
  physicalContainerNameSliceLoopCount : Z
}.

#[export] Instance eta_physicalLayout : Eta physicalContainerLayoutStruct := fun l =>
  mkLayout (physicalContainerStoragePolicy l) (physicalContainerNamePrefix l)
    (physicalContainerNameSlice l) (physicalContainerCountMax l) (physicalObjectCountMax l)
    (physicalContainerNameSliceNextIndex l) (physicalContainerNameSliceLoopCount l).

Record volumeStruct (V W : Type) := mkInodeVolume {
  fsid : Z;
  volumeName : string;
  accountName : string;
  active : bool;
  defaultPhysicalContainerLayout : physicalContainerLayoutStruct;
  flowControl : flowControlStruct;
  headhunterVolumeHandle : V;
  swift : W;
  inodeCache : gmap Z Z;
  inodeHeap : gmap Z inMemoryInodeStruct;
  inodeNext : Z;
  clockReadings : nat
}.
Arguments mkInodeVolume {V W}.
Arguments fsid {V W}.
Arguments volumeName {V W}.
Arguments accountName {V W}.
Arguments active {V W}.
Arguments defaultPhysicalContainerLayout {V W}.
Arguments flowControl {V W}.
Arguments headhunterVolumeHandle {V W}.
Arguments swift {V W}.
Arguments inodeCache {V W}.
Arguments inodeHeap {V W}.
Arguments inodeNext {V W}.
Arguments clockReadings {V W}.

#[export] Instance eta_inodeVolume {V W} : Eta (volumeStruct V W) := fun v =>
  mkInodeVolume (fsid v) (volumeName v) (accountName v) (active v) (defaultPhysicalContainerLayout v)
    (flowControl v) (headhunterVolumeHandle v) (swift v) (inodeCache v) (inodeHeap v)
    (inodeNext v) (clockReadings v).

(** The serialized flags and version of config.go; together they precede an
    inode record. *)
Definition V1 : Z := 1.
Definition onDiskInodeV1PayloadObjectOffset : Z := 0.
Definition corruptionDetectedTrueBuf : bytes := [1].
Definition corruptionDetectedFalseBuf : bytes := [0].
Definition versionV1Buf : bytes := lePut 8 V1.
Definition inodeRecDefaultPreambleBuf : bytes := corruptionDetectedFalseBuf ++ versionV1Buf.

(** [cstruct.Unpack] into a bool and into a uint64. *)
Definition unpackBool (b : bytes) : res (bool * bytes) :=
  match b with [] => Err plain | x :: b' => Ret (negb (x =? 0), b') end.

Definition unpackUint64 (b : bytes) : res (Z * bytes) :=
  if zlen b <? 8 then Err plain else Ret (leGet (take 8 b), drop 8 b).

Section InodeVolume.
Context {V W : Type} `{!VolumeHandle V} `{!SwiftData W} `{!PayloadTree} `{!OnDiskCodec}.
Context (time_Now : nat -> Z).

Abbreviation M A := (St (volumeStruct V W) error A).

(** ** Primitive steps *)

Definition onHeadhunter {A} (m : St V error A) : M A := fun s =>
  let '(v, r) := m (headhunterVolumeHandle s) in (s <| headhunterVolumeHandle := v |>, r).

Definition onSwift {A} (m : St W error A) : M A := fun s =>
  let '(w, r) := m (swift s) in (s <| swift := w |>, r).

Definition timeNow : M Z := fun s =>
  (s <| clockReadings := S (clockReadings s) |>, Ret (time_Now (clockReadings s))).

(** [*p], [p.f = ...] and [&inMemoryInodeStruct{...}]. *)
Definition getInode (p : Z) : M inMemoryInodeStruct := fun s =>
  (s, match inodeHeap s !! p with Some inode => Ret inode | None => Panic end).

Definition modInode (p : Z) (f : inMemoryInodeStruct -> inMemoryInodeStruct) : M unit :=
  smod (fun s => s <| inodeHeap := alter f p (inodeHeap s) |>).

Definition modDisk (p : Z) (f : onDiskInodeV1Struct -> onDiskInodeV1Struct) : M unit :=
  modInode p (fun inode => inode <| onDisk := f (onDisk inode) |>).

Definition newInode (inode : inMemoryInodeStruct) : M Z := fun s =>
  (s <| inodeHeap := <[inodeNext s := inode]> (inodeHeap s) |> <| inodeNext := inodeNext s + 1 |>,
   Ret (inodeNext s)).

Definition cacheInode (inodeNumber p : Z) : M unit :=
  smod (fun s => s <| inodeCache := <[inodeNumber := p]> (inodeCache s) |>).

Definition uncacheInode (inodeNumber : Z) : M unit :=
  smod (fun s => s <| inodeCache := delete inodeNumber (inodeCache s) |>).

(** What the code makes of the error of a call before returning it. *)
Definition mapErr {A} (f : error -> error) (m : M A) : M A := fun s =>
  match m s with
  | (s', Err e) => (s', Err (f e))
  | r => r
  end.

(** [err = blunder.AddError(err, errValue)], and the same after
    [err = fmt.Errorf("...: %v", err)], which keeps only the text of [err]. *)
Definition annotate {A} (errValue : Z) : M A -> M A := mapErr (fun e => AddError (Some e) errValue).
Definition errorf {A} (errValue : Z) : M A -> M A := mapErr (fun _ => AddError (Some plain) errValue).

(** [if nil != err { panic(err) }] *)
Definition orPanic {A} (m : M A) : M A := fun s =>
  match m s with
  | (s', Err _) => (s', Panic)
  | r => r
  end.

(** [_ = f()] and [if nil != err { logger... }]: the error is dropped. *)
Definition ignoreErr {A} (m : M A) : M unit := _ <~ stry m ;; sret tt.

(** ** payload.go: the callbacks of an inode's B+Tree *)

Definition GetNode (objectNumber objectOffset objectLength : Z) : St V error bytes :=
  if negb (objectOffset =? 0) then serr plain
  else
    nodeByteSlice <~ vhGetBPlusTreeObject objectNumber ;;
    if negb (zlen nodeByteSlice =? objectLength) then serr plain else sret nodeByteSlice.

Definition PutNode (nodeByteSlice : bytes) : St V error (Z * Z) :=
  objectNumber <~ vhFetchNonce ;;
  vhPutBPlusTreeObject objectNumber nodeByteSlice ;;~
  sret (objectNumber, 0).

Definition DiscardNode (objectNumber objectOffset objectLength : Z) : St V error unit :=
  if negb (objectOffset =? 0) then serr plain else vhDeleteBPlusTreeObject objectNumber.

Definition onTree {A} (p : nodeProg (res A)) : M A :=
  r <~ onHeadhunter (runNodes GetNode PutNode DiscardNode p) ;; slift r.

(** ** Log segment records (file.go) *)

Definition getLogSegmentContainer (logSegmentNumber : Z) : M string :=
  containerNameAsByteSlice <~ onHeadhunter (vhGetLogSegmentRec logSegmentNumber) ;;
  sret (ByteSliceToString containerNameAsByteSlice).

Definition setLogSegmentContainer (logSegmentNumber : Z) (containerName : string) : M unit :=
  onHeadhunter (vhPutLogSegmentRec logSegmentNumber (StringToByteSlice containerName)).

Definition getObjectPathFromContainerNameAndLogSegmentNumber (containerName : string) (logSegmentNumber : Z) : M string :=
  s <~ sget ;;
  sret ("/v1/" +:+ accountName s +:+ "/" +:+ containerName +:+ "/" +:+ Uint64ToHexStr logSegmentNumber).

Definition getObjectLocationFromLogSegmentNumber (logSegmentNumber : Z) : M (string * string * string) :=
  containerName <~ getLogSegmentContainer logSegmentNumber ;;
  objectPath <~ getObjectPathFromContainerNameAndLogSegmentNumber containerName logSegmentNumber ;;
  sret (containerName, Uint64ToHexStr logSegmentNumber, objectPath).

Definition getObjectPathFromLogSegmentNumber (logSegmentNumber : Z) : M string :=
  containerName <~ getLogSegmentContainer logSegmentNumber ;;
  getObjectPathFromContainerNameAndLogSegmentNumber containerName logSegmentNumber.

Definition deleteLogSegmentAsync (logSegmentNumber : Z) (checkpointDoneWaitGroup : option Z) : M unit :=
  containerName <~ getLogSegmentContainer logSegmentNumber ;;
  onHeadhunter (vhDeleteLogSegmentRec logSegmentNumber) ;;~
  s <~ sget ;;
  onSwift (ObjectDeleteAsync (accountName s) containerName (Uint64ToHexStr logSegmentNumber) checkpointDoneWaitGroup).

(** ** Fetching inodes (inode.go) *)

Definition loadPayload (inode : onDiskInodeV1Struct) : M payload_t :=
  if (InodeType inode =? DirType) || (InodeType inode =? FileType) then
    if 0 =? PayloadObjectNumber inode then
      sret (if InodeType inode =? DirType then DirPayload [] else FilePayload [])
    else
      errorf CorruptInodeError
        (onTree (treeOld (InodeType inode) (PayloadObjectNumber inode) onDiskInodeV1PayloadObjectOffset
                   (PayloadObjectLength inode)))
  else if InodeType inode =? SymlinkType then sret NoPayload
  else errorf CorruptInodeError (serr plain).

(** The parsing of an inode record. *)
Definition unpackInodeRec (inodeRec : bytes) : res onDiskInodeV1Struct :=
  '(corruptionDetected, b) <- unpackBool inodeRec ;;
  if corruptionDetected : bool then Err plain
  else
    '(version, b) <- unpackUint64 b ;;
    if negb (V1 =? version) then Err plain else jsonUnmarshal b.

Definition fetchOnDiskInode (inodeNumber : Z) : M (option Z) :=
  inodeRec <~ errorf NotFoundError (onHeadhunter (vhGetInodeRec inodeNumber)) ;;
  match inodeRec with
  | None => sret None
  | Some inodeRec =>
      onDiskInodeV1 <~ errorf CorruptInodeError (slift (unpackInodeRec inodeRec)) ;;
      payload <~ loadPayload onDiskInodeV1 ;;
      p <~ newInode (mkInode true payload None ∅ ∅ [] onDiskInodeV1) ;;
      sret (Some p)
  end.

Definition fetchInode (inodeNumber : Z) : M (option Z) :=
  s <~ sget ;;
  match inodeCache s !! inodeNumber with
  | Some p => sret (Some p)
  | None =>
      inode <~ fetchOnDiskInode inodeNumber ;;
      match inode with
      | Some p => cacheInode inodeNumber p ;;~ sret (Some p)
      | None => sret None
      end
  end.

(** On an unallocated inode the code formats [inode.InodeNumber] of a nil
    pointer into its error. *)
Definition fetchInodeType (inodeNumber expectedType : Z) : M Z :=
  inode <~ fetchInode inodeNumber ;;
  match inode with
  | None => spanic
  | Some p =>
      inode <~ getInode p ;;
      if InodeType (onDisk inode) =? expectedType then sret p
      else if expectedType =? DirType then serr (AddError (Some plain) NotDirError)
      else if expectedType =? FileType then serr (AddError (Some plain) NotFileError)
      else if expectedType =? SymlinkType then serr (AddError (Some plain) NotSymlinkError)
      else spanic
  end.

(** The calls of [fetchInode] that turn an unallocated inode into an error. *)
Definition fetchAllocated (inodeNumber : Z) : M Z :=
  inode <~ fetchInode inodeNumber ;;
  match inode with
  | Some p => sret p
  | None => serr (AddError (Some plain) NotFoundError)
  end.

Definition makeInMemoryInodeWithThisInodeNumber (inodeType fileMode userID groupID inodeNumber : Z) : M Z :=
  birthTime <~ timeNow ;;
  newInode (mkInode true NoPayload None ∅ ∅ []
    (mkOnDisk inodeNumber inodeType 0 0 birthTime birthTime birthTime birthTime 0 fileMode userID groupID
       ∅ 0 0 "" ∅)).

Definition makeInMemoryInode (inodeType fileMode userID groupID : Z) : M Z :=
  inodeNumber <~ mapErr (fun _ => plain) (onHeadhunter vhFetchNonce) ;;
  makeInMemoryInodeWithThisInodeNumber inodeType fileMode userID groupID inodeNumber.

(** ** Writing inodes *)

(** [inode.payload.(sortedmap.BPlusTree)] *)
Definition payloadTree (inode : inMemoryInodeStruct) : M payload_t :=
  match payload inode with
  | NoPayload => spanic
  | tree => sret tree
  end.

(** The copies of the maps are the maps. *)
Definition convertToOnDiskInodeV1 (p : Z) : M onDiskInodeV1Struct :=
  inode <~ getInode p ;;
  let d := onDisk inode in
  if (InodeType d =? DirType) || (InodeType d =? FileType) then
    content <~ payloadTree inode ;;
    '(payloadObjectNumber, payloadObjectOffset, payloadObjectLength) <~
      orPanic (onTree (treeFlush content (PayloadObjectNumber d) (PayloadObjectLength d))) ;;
    orPanic (onTree (treePrune content)) ;;~
    if negb (onDiskInodeV1PayloadObjectOffset =? payloadObjectOffset) then spanic
    else sret (d <| PayloadObjectNumber := payloadObjectNumber |> <| PayloadObjectLength := payloadObjectLength |>)
  else sret d.

(** [inFlightLogSegmentFlusher]: closes the Chunked PUT of the log segment,
    which the model runs when the inode waits for its flushers.  A log segment
    whose context was never fetched has a nil interface. *)
Definition inFlightLogSegmentFlusher (p logSegmentNumber : Z) : M unit :=
  inode <~ getInode p ;;
  match inFlightLogSegmentMap inode !! logSegmentNumber with
  | Some (mkInFlight _ _ _ _ (Some context)) =>
      r <~ stry (onSwift (CtxClose context)) ;;
      match r with
      | inl err =>
          modInode p (fun inode => inode
            <| inFlightLogSegmentErrors :=
                 <[logSegmentNumber := AddError (Some err) InodeFlushError]> (inFlightLogSegmentErrors inode) |>)
      | inr _ => sret tt
      end ;;~
      modInode p (fun inode => inode
        <| inFlightLogSegmentMap := delete logSegmentNumber (inFlightLogSegmentMap inode) |>
        <| flushing := filter (fun n => n <> logSegmentNumber) (flushing inode) |>)
  | _ => spanic
  end.

(** [fileInode.Add(1); go inFlightLogSegmentFlusher(...); openLogSegment = nil] *)
Definition startFlusher (p logSegmentNumber : Z) : M unit :=
  modInode p (fun inode => inode <| flushing := flushing inode ++ [logSegmentNumber] |> <| openLogSegment := None |>).

(** [fileInode.Wait()]: every flusher that was started runs to its end. *)
Definition waitFlushers (p : Z) : M unit :=
  inode <~ getInode p ;;
  sfor (flushing inode) (inFlightLogSegmentFlusher p).

Definition doFileInodeDataFlush (p : Z) : M unit :=
  inode <~ getInode p ;;
  match openLogSegment inode with
  | Some logSegmentNumber => startFlusher p logSegmentNumber
  | None => sret tt
  end ;;~
  waitFlushers p ;;~
  inode <~ getInode p ;;
  if decide (inFlightLogSegmentErrors inode = ∅) then sret tt else serr plain.

Definition emptySegmentsOf (lsm : gmap Z Z) : list Z :=
  filter (fun n => bool_decide (lsm !! n = Some 0)) (map_to_list lsm).*1.

(** One inode of the loop of [flushInodes]; returns its record when it is
    dirty, and its empty log segments. *)
Definition flushOne (p : Z) : M (option (Z * bytes) * list Z) :=
  inode <~ getInode p ;;
  emptyLogSegments <~
    (if FileType =? InodeType (onDisk inode) then
       annotate InodeFlushError (doFileInodeDataFlush p) ;;~
       inode <~ getInode p ;;
       let empty := emptySegmentsOf (LogSegmentMap (onDisk inode)) in
       modDisk p (fun d => d <| LogSegmentMap := filter (fun kv => kv.2 <> 0) (LogSegmentMap d) |>) ;;~
       sret empty
     else sret []) ;;
  inode <~ getInode p ;;
  (if negb (SymlinkType =? InodeType (onDisk inode)) then
     tree <~ payloadTree inode ;;
     '(payloadObjectNumber, _, payloadObjectLength) <~
       annotate InodeFlushError
         (onTree (treeFlush tree (PayloadObjectNumber (onDisk inode)) (PayloadObjectLength (onDisk inode)))) ;;
     if PayloadObjectNumber (onDisk inode) <? payloadObjectNumber then
       if negb (dirty inode) then serr (AddError (Some plain) InodeFlushError)
       else modDisk p (fun d => d <| PayloadObjectNumber := payloadObjectNumber |>
                                  <| PayloadObjectLength := payloadObjectLength |>)
     else sret tt
   else sret tt) ;;~
  inode <~ getInode p ;;
  if dirty inode then
    onDiskInodeV1 <~ annotate InodeFlushError (convertToOnDiskInodeV1 p) ;;
    onDiskInodeV1Buf <~ annotate InodeFlushError (slift (jsonMarshal onDiskInodeV1)) ;;
    sret (Some (InodeNumber (onDisk inode), inodeRecDefaultPreambleBuf ++ onDiskInodeV1Buf), emptyLogSegments)
  else sret (None, emptyLogSegments).

Fixpoint flushEach (inodes : list Z) : M (list (Z * bytes) * list Z) :=
  match inodes with
  | [] => sret ([], [])
  | p :: inodes' =>
      '(rec, empty) <~ flushOne p ;;
      '(recs, empties) <~ flushEach inodes' ;;
      sret (option_list rec ++ recs, empty ++ empties)
  end.

Definition flushInodes (inodes : list Z) : M unit :=
  '(dirtyInodeRecs, emptyLogSegments) <~ flushEach inodes ;;
  checkpointDoneWaitGroup <~
    (if 0 <? zlen dirtyInodeRecs then
       annotate InodeFlushError (onHeadhunter (vhPutInodeRecs dirtyInodeRecs.*1 dirtyInodeRecs.*2)) ;;~
       sfor inodes (fun p => modInode p (fun inode => inode <| dirty := false |>)) ;;~
       wg <~ onHeadhunter vhFetchNextCheckPointDoneWaitGroup ;; sret (Some wg)
     else sret None) ;;
  sfor emptyLogSegments (fun logSegmentNumber =>
    ignoreErr (deleteLogSegmentAsync logSegmentNumber checkpointDoneWaitGroup)).

Definition flushInode (p : Z) : M unit := flushInodes [p].

(** [flushInodeNumbers] looks only at cached inodes. *)
Fixpoint fetchCached (inodeNumbers : list Z) : M (list Z) :=
  match inodeNumbers with
  | [] => sret []
  | inodeNumber :: inodeNumbers' =>
      s <~ sget ;;
      match inodeCache s !! inodeNumber with
      | Some _ =>
          inode <~ annotate InodeFlushError (fetchInode inodeNumber) ;;
          match inode with
          | Some p => ps <~ fetchCached inodeNumbers' ;; sret (p :: ps)
          | None => serr (AddError (Some plain) NotFoundError)
          end
      | None => fetchCached inodeNumbers'
      end
  end.

Definition flushInodeNumbers (inodeNumbers : list Z) : M unit :=
  inodes <~ fetchCached inodeNumbers ;; flushInodes inodes.

Definition flushInodeNumber (inodeNumber : Z) : M unit := flushInodeNumbers [inodeNumber].

(** ** Containers and objects *)

Definition modLayout (f : physicalContainerLayoutStruct -> physicalContainerLayoutStruct) : M unit :=
  smod (fun s => s <| defaultPhysicalContainerLayout := f (defaultPhysicalContainerLayout s) |>).

(** [slice[index] = v] and [slice[index]]. *)
Definition storeAt {A} (l : list A) (i : Z) (v : A) : res (list A) :=
  if (0 <=? i) && (i <? zlen l) then Ret (<[Z.to_nat i := v]> l) else Panic.

Definition loadAt {A} (l : list A) (i : Z) : res A :=
  if 0 <=? i then must (l !! Z.to_nat i) else Panic.

(** The error of [FetchNonce] has a name of its own, so the function returns
    nil when it fails. *)
Definition provisionPhysicalContainer : M unit :=
  s <~ sget ;;
  let layout := defaultPhysicalContainerLayout s in
  if physicalContainerCountMax layout +u 1 =? 0 then spanic else
  let existingObjectCount :=
    physicalContainerNameSliceLoopCount layout mod (physicalContainerCountMax layout +u 1) in
  if 0 =? existingObjectCount then
    r <~ stry (onHeadhunter vhFetchNonce) ;;
    match r with
    | inl _ => sret tt
    | inr physicalContainerNameSuffix =>
        let newContainerName := physicalContainerNamePrefix layout +:+ Uint64ToHexStr physicalContainerNameSuffix in
        onSwift (ContainerPut (accountName s) newContainerName
                   {[ "X-Storage-Policy"%string := [physicalContainerStoragePolicy layout] ]}) ;;~
        slice <~ slift (storeAt (physicalContainerNameSlice layout)
                          (physicalContainerNameSliceNextIndex layout) newContainerName) ;;
        modLayout (fun layout => layout <| physicalContainerNameSlice := slice |>)
    end
  else sret tt.

Definition advanceLayout (layout : physicalContainerLayoutStruct) : physicalContainerLayoutStruct :=
  let layout := layout <| physicalContainerNameSliceNextIndex := physicalContainerNameSliceNextIndex layout +u 1 |> in
  if physicalContainerNameSliceNextIndex layout =? physicalContainerCountMax layout
  then layout <| physicalContainerNameSliceNextIndex := 0 |>
              <| physicalContainerNameSliceLoopCount := physicalContainerNameSliceLoopCount layout +u 1 |>
  else layout.

Definition provisionObject : M (string * Z) :=
  objectNumber <~ onHeadhunter vhFetchNonce ;;
  provisionPhysicalContainer ;;~
  s <~ sget ;;
  let layout := defaultPhysicalContainerLayout s in
  containerName <~ slift (loadAt (physicalContainerNameSlice layout) (physicalContainerNameSliceNextIndex layout)) ;;
  modLayout advanceLayout ;;~
  sret (containerName, objectNumber).

Definition ProvisionObject : M string :=
  '(containerName, objectNumber) <~ provisionObject ;;
  getObjectPathFromContainerNameAndLogSegmentNumber containerName objectNumber.

(** ** Permissions *)

Definition InodeRootUserID : Z := 0.
Definition InodeRootGroupID : Z := 0.

Definition F_OK : Z := 0.
Definition X_OK : Z := 1.
Definition W_OK : Z := 2.
Definition R_OK : Z := 4.
Definition P_OK : Z := Z.lor (Z.lor R_OK W_OK) X_OK + 1.

Definition PosixModeDir : Z := 16384.
Definition PosixModeFile : Z := 32768.
Definition PosixModeSymlink : Z := 40960.
Definition PosixModePerm : Z := 511.

(** [(mode & accessMode) == accessMode] *)
Definition grants (mode accessMode : Z) : bool := Z.land mode accessMode =? accessMode.

(** The search through the other groups: [None] when one of them is root's
    group, else whether one of them is the inode's. *)
Fixpoint searchGroups (inodeGroupID : Z) (otherGroupIDs : list Z) : option bool :=
  match otherGroupIDs with
  | [] => Some false
  | otherGroupID :: otherGroupIDs' =>
      if InodeRootGroupID =? otherGroupID then None
      else if otherGroupID =? inodeGroupID then Some true
      else searchGroups inodeGroupID otherGroupIDs'
  end.

(** [Access] on the inode it fetched. *)
Definition accessInode (ourInode : onDiskInodeV1Struct) (userID groupID : Z) (otherGroupIDs : list Z) (accessMode : Z) : bool :=
  if F_OK =? accessMode then true
  else if P_OK =? accessMode then (InodeRootUserID =? userID) || (userID =? UserID ourInode)
  else if negb (accessMode =? Z.land accessMode (Z.lor (Z.lor R_OK W_OK) X_OK)) then false
  else if (InodeRootUserID =? userID) || (InodeRootGroupID =? groupID) then true
  else if (userID =? UserID ourInode) && grants (Z.shiftr (Mode ourInode) 6) accessMode then true
  else
    match (if groupID =? GroupID ourInode then Some true else searchGroups (GroupID ourInode) otherGroupIDs) with
    | None => true
    | Some groupIDCheck =>
        if groupIDCheck && grants (Z.land (Z.shiftr (Mode ourInode) 3) 7) accessMode then true
        else grants (Z.land (Z.shiftr (Mode ourInode) 0) 7) accessMode
    end.

Definition Access (inodeNumber userID groupID : Z) (otherGroupIDs : list Z) (accessMode : Z) : M bool :=
  r <~ stry (fetchInode inodeNumber) ;;
  match r with
  | inl _ => sret false
  | inr None => sret false
  | inr (Some p) =>
      ourInode <~ getInode p ;;
      sret (accessInode (onDisk ourInode) userID groupID otherGroupIDs accessMode)
  end.

Definition determineMode (filePerm inodeType : Z) : res Z :=
  let fileMode := Z.land filePerm PosixModePerm in
  if inodeType =? DirType then Ret (Z.lor fileMode PosixModeDir)
  else if inodeType =? FileType then Ret (Z.lor fileMode PosixModeFile)
  else if inodeType =? SymlinkType then Ret (Z.lor fileMode PosixModeSymlink)
  else Err (AddError (Some plain) InvalidInodeTypeError).

(** ** Life cycle *)

Definition Purge (inodeNumber : Z) : M unit :=
  s <~ sget ;;
  match inodeCache s !! inodeNumber with
  | None => sret tt
  | Some p =>
      inMemoryInode <~ getInode p ;;
      if dirty inMemoryInode then serr plain else uncacheInode inodeNumber
  end.

(** The loop of [Destroy] stops at the first log segment it cannot delete and
    then returns no error. *)
Fixpoint deleteSegments (logSegmentNumbers : list Z) (checkpointDoneWaitGroup : option Z) : M unit :=
  match logSegmentNumbers with
  | [] => sret tt
  | logSegmentNumber :: rest =>
      r <~ stry (deleteLogSegmentAsync logSegmentNumber checkpointDoneWaitGroup) ;;
      match r with
      | inl _ => sret tt
      | inr _ => deleteSegments rest checkpointDoneWaitGroup
      end
  end.

Definition Destroy (inodeNumber : Z) : M unit :=
  p <~ fetchAllocated inodeNumber ;;
  ourInode <~ getInode p ;;
  uncacheInode inodeNumber ;;~
  (if InodeType (onDisk ourInode) =? FileType then ignoreErr (doFileInodeDataFlush p) else sret tt) ;;~
  onHeadhunter (vhDeleteInodeRec inodeNumber) ;;~
  ourInode <~ getInode p ;;
  let d := onDisk ourInode in
  if DirType =? InodeType d then
    dirMapping <~ payloadTree ourInode ;;
    onTree (treeDiscard dirMapping (PayloadObjectNumber d) (PayloadObjectLength d))
  else if FileType =? InodeType d then
    extents <~ payloadTree ourInode ;;
    onTree (treeDiscard extents (PayloadObjectNumber d) (PayloadObjectLength d)) ;;~
    checkpointDoneWaitGroup <~ onHeadhunter vhFetchNextCheckPointDoneWaitGroup ;;
    deleteSegments (map_to_list (LogSegmentMap d)).*1 (Some checkpointDoneWaitGroup)
  else sret tt.

(** volume.go *)
Definition GetFSID : M Z := s <~ sget ;; sret (fsid s).

(** ** Metadata *)

Record MetadataStruct := mkMetadata {
  md_InodeType : Z;
  md_LinkCount : Z;
  md_Size : Z;
  md_CreationTime : Z;
  md_ModificationTime : Z;
  md_AccessTime : Z;
  md_AttrChangeTime : Z;
  md_NumWrites : Z;
  md_InodeStreamNameSlice : list string;
  md_Mode : Z;
  md_UserID : Z;
  md_GroupID : Z
}.

Definition metadataOf (d : onDiskInodeV1Struct) : MetadataStruct :=
  mkMetadata (InodeType d) (LinkCount d) (Size d) (CreationTime d) (ModificationTime d) (AccessTime d)
    (AttrChangeTime d) (NumWrites d) (map_to_list (StreamMap d)).*1 (Mode d) (UserID d) (GroupID d).

Definition GetMetadata (inodeNumber : Z) : M MetadataStruct :=
  p <~ fetchAllocated inodeNumber ;; inode <~ getInode p ;; sret (metadataOf (onDisk inode)).

Definition GetType (inodeNumber : Z) : M Z :=
  p <~ fetchAllocated inodeNumber ;; inode <~ getInode p ;; sret (InodeType (onDisk inode)).

Definition GetLinkCount (inodeNumber : Z) : M Z :=
  p <~ fetchAllocated inodeNumber ;; inode <~ getInode p ;; sret (LinkCount (onDisk inode)).

Definition setDirty (p : Z) : M unit := modInode p (fun inode => inode <| dirty := true |>).

Definition SetLinkCount (inodeNumber linkCount : Z) : M unit :=
  p <~ fetchAllocated inodeNumber ;;
  setDirty p ;;~
  modDisk p (fun d => d <| LinkCount := linkCount |>) ;;~
  flushInode p.

Definition SetCreationTime (inodeNumber creationTime : Z) : M unit :=
  p <~ fetchAllocated inodeNumber ;;
  setDirty p ;;~
  now <~ timeNow ;;
  modDisk p (fun d => d <| AttrChangeTime := now |> <| CreationTime := creationTime |>) ;;~
  flushInode p.

Definition SetModificationTime (inodeNumber modificationTime : Z) : M unit :=
  p <~ fetchAllocated inodeNumber ;;
  setDirty p ;;~
  now <~ timeNow ;;
  modDisk p (fun d => d <| AttrChangeTime := now |> <| ModificationTime := modificationTime |>) ;;~
  flushInode p.

Definition SetAccessTime (inodeNumber accessTime : Z) : M unit :=
  p <~ fetchAllocated inodeNumber ;;
  setDirty p ;;~
  now <~ timeNow ;;
  modDisk p (fun d => d <| AttrChangeTime := now |> <| AccessTime := accessTime |>) ;;~
  flushInode p.

Definition SetPermMode (inodeNumber filePerm : Z) : M unit :=
  p <~ fetchAllocated inodeNumber ;;
  inode <~ getInode p ;;
  fileMode <~ slift (determineMode filePerm (InodeType (onDisk inode))) ;;
  setDirty p ;;~
  modDisk p (fun d => d <| Mode := fileMode |>) ;;~
  updateTime <~ timeNow ;;
  modDisk p (fun d => d <| AttrChangeTime := updateTime |>) ;;~
  flushInode p.

Definition SetOwnerUserID (inodeNumber userID : Z) : M unit :=
  p <~ fetchAllocated inodeNumber ;;
  setDirty p ;;~
  modDisk p (fun d => d <| UserID := userID |>) ;;~
  updateTime <~ timeNow ;;
  modDisk p (fun d => d <| AttrChangeTime := updateTime |>) ;;~
  flushInode p.

Definition SetOwnerUserIDGroupID (inodeNumber userID groupID : Z) : M unit :=
  p <~ fetchAllocated inodeNumber ;;
  setDirty p ;;~
  modDisk p (fun d => d <| UserID := userID |> <| GroupID := groupID |>) ;;~
  updateTime <~ timeNow ;;
  modDisk p (fun d => d <| AttrChangeTime := updateTime |>) ;;~
  flushInode p.

Definition SetOwnerGroupID (inodeNumber groupID : Z) : M unit :=
  p <~ fetchAllocated inodeNumber ;;
  setDirty p ;;~
  modDisk p (fun d => d <| GroupID := groupID |>) ;;~
  updateTime <~ timeNow ;;
  modDisk p (fun d => d <| AttrChangeTime := updateTime |>) ;;~
  flushInode p.

Definition GetStream (inodeNumber : Z) (inodeStreamName : string) : M bytes :=
  p <~ fetchAllocated inodeNumber ;;
  inode <~ getInode p ;;
  match StreamMap (onDisk inode) !! inodeStreamName with
  | Some inodeStreamBuf => sret inodeStreamBuf
  | None => serr (AddError (Some plain) StreamNotFound)
  end.

Definition PutStream (inodeNumber : Z) (inodeStreamName : string) (buf : bytes) : M unit :=
  p <~ fetchAllocated inodeNumber ;;
  setDirty p ;;~
  modDisk p (fun d => d <| StreamMap := <[inodeStreamName := buf]> (StreamMap d) |>) ;;~
  updateTime <~ timeNow ;;
  modDisk p (fun d => d <| AttrChangeTime := updateTime |>) ;;~
  flushInode p.

Definition DeleteStream (inodeNumber : Z) (inodeStreamName : string) : M unit :=
  p <~ fetchAllocated inodeNumber ;;
  setDirty p ;;~
  modDisk p (fun d => d <| StreamMap := delete inodeStreamName (StreamMap d) |>) ;;~
  updateTime <~ timeNow ;;
  modDisk p (fun d => d <| AttrChangeTime := updateTime |>) ;;~
  flushInode p.

(** ** Symbolic links (symlink.go) *)

Definition CreateSymlink (target : string) (filePerm userID groupID : Z) : M Z :=
  fileMode <~ slift (determineMode filePerm SymlinkType) ;;
  symlinkInode <~ makeInMemoryInode SymlinkType fileMode userID groupID ;;
  setDirty symlinkInode ;;~
  modDisk symlinkInode (fun d => d <| SymlinkTarget := target |>) ;;~
  inode <~ getInode symlinkInode ;;
  let symlinkInodeNumber := InodeNumber (onDisk inode) in
  cacheInode symlinkInodeNumber symlinkInode ;;~
  flushInode symlinkInode ;;~
  sret symlinkInodeNumber.

Definition GetSymlink (symlinkInodeNumber : Z) : M string :=
  symlinkInode <~ fetchInodeType symlinkInodeNumber SymlinkType ;;
  inode <~ getInode symlinkInode ;;
  sret (SymlinkTarget (onDisk inode)).
End InodeVolume.
