(* ===== verification/InodeConfig.v ===== *)
(** Package [inode]: the volumes and flow controls of the process (config.go),
    and the lookups by account and volume of inode.go.

    A flow control is shared by the volumes that name it: [flowControlHeap] has
    the structs by address, [flowControlMap] and the volumes have addresses.  The
    default layout of a volume is an entry of its map of layouts.  A record of
    [accountMap] is only asked for the name of its volume, so the map keeps that
    name.  [headhunter] is the function [FetchVolumeHandle] of that package. *)

From S2P Require Import Prelude Blunder Utils GoStrings ConfNumbers Conf ConfSections InodeTypes ReadCache InodeVolume.
Open Scope list_scope.

Record flowControlConfig := mkFlowControl {
  flowControlName : string;
  refCount : Z;
  maxFlushTime : Z;
  readCacheWeight : Z;
  cacheOf : flowControlStruct
}.

#[export] Instance eta_flowControlConfig : Eta flowControlConfig := fun f =>
  mkFlowControl (flowControlName f) (refCount f) (maxFlushTime f) (readCacheWeight f) (cacheOf f).

Record inodeVolume := mkIVolume {
  iv_fsid : Z;
  iv_volumeName : string;
  iv_accountName : string;
  iv_active : bool;
  iv_activePeerPrivateIPAddr : string;
  iv_maxEntriesPerDirNode : Z;
  iv_maxExtentsPerFileNode : Z;
  physicalContainerLayoutSet : gset string;
  physicalContainerNamePrefixSet : gset string;
  physicalContainerLayoutMap : gmap string physicalContainerLayoutStruct;
  iv_defaultPhysicalContainerLayout : option string;
  iv_flowControl : option Z;
  iv_headhunterVolumeHandle : option string;
  iv_inodeCache : gmap Z inMemoryInodeStruct
}.

#[export] Instance eta_inodeConfigVolume : Eta inodeVolume := fun v =>
  mkIVolume (iv_fsid v) (iv_volumeName v) (iv_accountName v) (iv_active v) (iv_activePeerPrivateIPAddr v)
    (iv_maxEntriesPerDirNode v) (iv_maxExtentsPerFileNode v) (physicalContainerLayoutSet v) (physicalContainerNamePrefixSet v)
    (physicalContainerLayoutMap v) (iv_defaultPhysicalContainerLayout v) (iv_flowControl v) (iv_headhunterVolumeHandle v)
    (iv_inodeCache v).

Record inodeGlobals := mkInodeGlobals {
  ig_whoAmI : string;
  myPrivateIPAddr : string;
  dirEntryCache : Z * Z;
  fileExtentMapCache : Z * Z;
  volumeMap : gmap string inodeVolume;
  accountMap : gmap string string;
  flowControlMap : gmap string Z;
  flowControlHeap : gmap Z flowControlConfig;
  flowControlNext : Z
}.

#[export] Instance eta_inodeGlobals : Eta inodeGlobals := fun g =>
  mkInodeGlobals (ig_whoAmI g) (myPrivateIPAddr g) (dirEntryCache g) (fileExtentMapCache g) (volumeMap g) (accountMap g)
    (flowControlMap g) (flowControlHeap g) (flowControlNext g).

(** A volume before it is active. *)
Definition newVolume (fsid : Z) (volumeName accountName : string) (active : bool) (activePeerPrivateIPAddr : string) : inodeVolume :=
  mkIVolume fsid volumeName accountName active activePeerPrivateIPAddr 0 0 ∅ ∅ ∅ None None None ∅.

Abbreviation IG A := (St inodeGlobals error A).

Fixpoint readPeers (confMap : ConfMap) (namespaced : bool) (peerNames : list string) (peerPrivateIPAddrMap : gmap string string)
    : res (gmap string string) :=
  match peerNames with
  | [] => Ret peerPrivateIPAddrMap
  | peerName :: rest =>
      peerPrivateIPAddr <- FetchOptionValueString confMap (PeerNameConfSection namespaced peerName) "PrivateIPAddr" ;;
      readPeers confMap namespaced rest (<[peerName := peerPrivateIPAddr]> peerPrivateIPAddrMap)
  end.

Definition peersOf (confMap : ConfMap) (namespaced : bool) : res (gmap string string) :=
  peerNames <- FetchOptionValueStringSlice confMap "Cluster" "Peers" ;;
  readPeers confMap namespaced peerNames ∅.

(** The address of the peer that serves a volume; no address without a peer. *)
Definition peerAddress (peerPrivateIPAddrMap : gmap string string) (primaryPeer : option string) : res string :=
  match primaryPeer with
  | None => Ret EmptyString
  | Some peerName => match peerPrivateIPAddrMap !! peerName with Some address => Ret address | None => Err plain end
  end.

Section Config.
Context `{!Machine} `{!MapRange} (headhunter : string -> res (option string)) (maxStrings : Z).

(** ** Making a volume active *)

Definition onFlow (address : Z) (f : flowControlConfig -> flowControlConfig) (g : inodeGlobals) : inodeGlobals :=
  g <| flowControlHeap := alter f address (flowControlHeap g) |>.

(** The state is the globals and the volume, which is not in the map yet in [Up]. *)
Abbreviation AV A := (St (inodeGlobals * inodeVolume) error A).

Definition modG (f : inodeGlobals -> inodeGlobals) : AV unit := smod (fun w => (f w.1, w.2)).
Definition modV (f : inodeVolume -> inodeVolume) : AV unit := smod (fun w => (w.1, f w.2)).

(** The layout of the default name.  [make] panics on a slice that is too long. *)
Definition readLayout (confMap : ConfMap) (namespaced : bool) (physicalContainerLayoutName : string) : AV unit :=
  w <~ sget ;;
  if bool_decide (physicalContainerLayoutName ∈ physicalContainerLayoutSet w.2) then serr plain
  else
    let section := PhysicalContainerLayoutNameConfSection namespaced physicalContainerLayoutName in
    storagePolicy <~ slift (FetchOptionValueString confMap section "ContainerStoragePolicy") ;;
    namePrefix <~ slift (FetchOptionValueString confMap section "ContainerNamePrefix") ;;
    if bool_decide (namePrefix ∈ physicalContainerLayoutSet w.2) then serr plain
    else
      countMax <~ slift (FetchOptionValueUint64 confMap section "ContainersPerPeer") ;;
      objectCountMax <~ slift (FetchOptionValueUint64 confMap section "MaxObjectsPerContainer") ;;
      if maxStrings <? countMax then spanic
      else
        let layout := mkLayout storagePolicy namePrefix (replicate (Z.to_nat countMax) EmptyString) countMax objectCountMax 0 0 in
        modV (fun v => v <| physicalContainerLayoutMap := <[physicalContainerLayoutName := layout]> (physicalContainerLayoutMap v) |>
                         <| physicalContainerLayoutSet := {[physicalContainerLayoutName]} ∪ physicalContainerLayoutSet v |>
                         <| physicalContainerNamePrefixSet := {[namePrefix]} ∪ physicalContainerNamePrefixSet v |>).

(** The flow control of a name, made when no volume had it. *)
Definition fetchFlowControl (confMap : ConfMap) (namespaced : bool) (name : string) : AV Z :=
  w <~ sget ;;
  match flowControlMap w.1 !! name with
  | Some address => sret address
  | None =>
      let section := FlowControlNameConfSection namespaced name in
      maxFlushSize <~ slift (FetchOptionValueUint64 confMap section "MaxFlushSize") ;;
      maxFlushTime <~ slift (FetchOptionValueDuration confMap section "MaxFlushTime") ;;
      readCacheLineSize <~ slift (FetchOptionValueUint64 confMap section "ReadCacheLineSize") ;;
      readCacheWeight <~ slift (FetchOptionValueUint64 confMap section "ReadCacheWeight") ;;
      let address := flowControlNext w.1 in
      let flowControl := mkFlowControl name 0 maxFlushTime readCacheWeight (emptyFlow maxFlushSize readCacheLineSize 0) in
      modG (fun g => g <| flowControlMap := <[name := address]> (flowControlMap g) |>
                       <| flowControlHeap := <[address := flowControl]> (flowControlHeap g) |>
                       <| flowControlNext := address + 1 |>) ;;~
      sret address
  end.

Definition activate (confMap : ConfMap) (namespaced : bool) : AV unit :=
  w <~ sget ;;
  let volumeSectionName := VolumeNameConfSection namespaced (iv_volumeName w.2) in
  assign (FetchOptionValueUint64 confMap volumeSectionName "MaxEntriesPerDirNode") 0
    (fun n w => (w.1, w.2 <| iv_maxEntriesPerDirNode := n |>)) ;;~
  assign (FetchOptionValueUint64 confMap volumeSectionName "MaxExtentsPerFileNode") 0
    (fun n w => (w.1, w.2 <| iv_maxExtentsPerFileNode := n |>)) ;;~
  layoutName <~ slift (FetchOptionValueString confMap volumeSectionName "DefaultPhysicalContainerLayout") ;;
  readLayout confMap namespaced layoutName ;;~
  modV (fun v => v <| iv_defaultPhysicalContainerLayout := Some layoutName |>) ;;~
  flowControlName <~ slift (FetchOptionValueString confMap volumeSectionName "FlowControl") ;;
  address <~ fetchFlowControl confMap namespaced flowControlName ;;
  modV (fun v => v <| iv_flowControl := Some address |>) ;;~
  modG (onFlow address (fun f => f <| refCount := u32 (refCount f + 1) |>)) ;;~
  assign (headhunter (iv_volumeName w.2)) None (fun handle w => (w.1, w.2 <| iv_headhunterVolumeHandle := handle |>)).

(** ** The read caches share the memory by their weights *)

Definition flowsOf (g : inodeGlobals) : list Z :=
  omap (fun name => flowControlMap g !! name) (rangeKeys (dom (flowControlMap g))).

Definition weightSum (g : inodeGlobals) : Z :=
  foldl (fun sum address => sum +u match flowControlHeap g !! address with Some f => readCacheWeight f | None => 0 end) 0 (flowsOf g).

(** [a / b]: a division by zero panics. *)
Definition udiv (a b : Z) : res Z := if b =? 0 then Panic else Ret (a / b).

(** [cap] is [capReadCache] where it is called. *)
Definition setLineCount (cap : flowControlStruct -> res flowControlStruct) (readCacheMemSize flowControlWeightSum address : Z) : IG unit :=
  g <~ sget ;;
  flowControl <~ slift (must (flowControlHeap g !! address)) ;;
  readCacheTotalSize <~ slift (udiv (readCacheMemSize *u readCacheWeight flowControl) flowControlWeightSum) ;;
  lineCount <~ slift (udiv readCacheTotalSize (readCacheLineSize (cacheOf flowControl))) ;;
  smod (onFlow address (fun f => f <| cacheOf := (cacheOf f) <| readCacheLineCount := lineCount |> |>)) ;;~
  if 0 =? lineCount then serr plain
  else
    cache <~ slift (cap ((cacheOf flowControl) <| readCacheLineCount := lineCount |>)) ;;
    smod (onFlow address (fun f => f <| cacheOf := cache |>)).

Definition setLineCounts (confMap : ConfMap) (namespaced : bool) (cap : flowControlStruct -> res flowControlStruct) : IG unit :=
  g <~ sget ;;
  let flowControlWeightSum := weightSum g in
  readCacheQuotaPercentage <~
    slift (FetchOptionValueFloatScaledToUint64 confMap (PeerNameConfSection namespaced (ig_whoAmI g)) "ReadCacheQuotaFraction" 100) ;;
  if 100 <? readCacheQuotaPercentage then serr plain
  else
    let readCacheMemSize := MemSize *u readCacheQuotaPercentage / 100 in
    sfor (flowsOf g) (setLineCount cap readCacheMemSize flowControlWeightSum).

Definition uncapped (f : flowControlStruct) : res flowControlStruct := Ret f.

(** [capReadCache]; a walk over more elements than the map has ends in a panic
    before. *)
Definition capReadCache (f : flowControlStruct) : res flowControlStruct :=
  match capLoop (S (S (size (readCache f)))) f with Some r => r | None => Panic end.

(** ** Up *)

Definition duplicateFSID (g : inodeGlobals) (fsid : Z) : bool :=
  existsb (fun p => iv_fsid p.2 =? fsid) (map_to_list (volumeMap g)).

Definition limitOr (confMap : ConfMap) (optionName : string) (otherwise : Z) : Z :=
  match FetchOptionValueUint64 confMap "FSGlobals" optionName with Ret v => v | _ => otherwise end.

(** A volume of the list. *)
Definition upVolume (confMap : ConfMap) (namespaced : bool) (peers : gmap string string) (volumeName : string) : IG unit :=
  g <~ sget ;;
  let volumeSectionName := VolumeNameConfSection namespaced volumeName in
  fsid <~ slift (FetchOptionValueUint64 confMap volumeSectionName "FSID") ;;
  if duplicateFSID g fsid then serr plain
  else
    accountName <~ slift (FetchOptionValueString confMap volumeSectionName "AccountName") ;;
    if bool_decide (is_Some (volumeMap g !! volumeName)) then serr plain
    else if bool_decide (is_Some (accountMap g !! accountName)) then serr plain
    else
      primaryPeer <~ slift (primaryPeerOf confMap namespaced volumeName) ;;
      activePeerPrivateIPAddr <~ slift (peerAddress peers primaryPeer) ;;
      let active := bool_decide (primaryPeer = Some (ig_whoAmI g)) in
      volume <~ (fun g =>
        let '((g', volume), r) := (if active then activate confMap namespaced else sret tt)
                                    (g, newVolume fsid volumeName accountName active activePeerPrivateIPAddr) in
        (g', obind r (fun _ => Ret volume))) ;;
      smod (fun g => g <| volumeMap := <[volumeName := volume]> (volumeMap g) |>
                       <| accountMap := <[accountName := volumeName]> (accountMap g) |>).

Definition Up (confMap : ConfMap) (namespaced : bool) : IG unit :=
  peers <~ slift (peersOf confMap namespaced) ;;
  assign (FetchOptionValueString confMap "Cluster" "WhoAmI") EmptyString (fun whoAmI g => g <| ig_whoAmI := whoAmI |>) ;;~
  g <~ sget ;;
  smod (fun g => g <| myPrivateIPAddr := default EmptyString (peers !! ig_whoAmI g) |>) ;;~
  if negb (bool_decide (is_Some (peers !! ig_whoAmI g))) then serr plain
  else
    smod (fun g => g <| dirEntryCache := (limitOr confMap "DirEntryCacheEvictLowLimit" 10000,
                                          limitOr confMap "DirEntryCacheEvictHighLimit" 10010) |>
                     <| fileExtentMapCache := (limitOr confMap "FileExtentMapEvictLowLimit" 10000,
                                               limitOr confMap "FileExtentMapEvictHighLimit" 10010) |>
                     <| volumeMap := ∅ |> <| accountMap := ∅ |> <| flowControlMap := ∅ |>) ;;~
    volumeList <~ slift (volumeListOf confMap) ;;
    sfor volumeList (upVolume confMap namespaced peers) ;;~
    setLineCounts confMap namespaced uncapped.

(** ** PauseAndContract *)

(** The volumes that go, and those that another peer serves from now on. *)
Fixpoint sortVolumes (confMap : ConfMap) (namespaced : bool) (whoAmI : string) (newVolumeSet : gset string)
    (known : list (string * inodeVolume)) (deleted inactive : gset string) : res (gset string * gset string) :=
  match known with
  | [] => Ret (deleted, inactive)
  | (volumeName, volume) :: rest =>
      if bool_decide (volumeName ∈ newVolumeSet) then
        primaryPeer <- primaryPeerOf confMap namespaced volumeName ;;
        sortVolumes confMap namespaced whoAmI newVolumeSet rest deleted
          (if iv_active volume && negb (bool_decide (primaryPeer = Some whoAmI)) then {[volumeName]} ∪ inactive else inactive)
      else sortVolumes confMap namespaced whoAmI newVolumeSet rest ({[volumeName]} ∪ deleted) inactive
  end.

(** [refCount--], and the flow control leaves the map with its last volume.  A
    nil pointer panics. *)
Definition releaseFlowControl (flowControl : option Z) : IG unit :=
  address <~ slift (must flowControl) ;;
  smod (onFlow address (fun f => f <| refCount := u32 (refCount f - 1) |>)) ;;~
  g <~ sget ;;
  f <~ slift (must (flowControlHeap g !! address)) ;;
  if 0 =? refCount f then smod (fun g => g <| flowControlMap := delete (flowControlName f) (flowControlMap g) |>) else sret tt.

Definition deleteVolume (volumeName : string) : IG unit :=
  g <~ sget ;;
  volume <~ slift (must (volumeMap g !! volumeName)) ;;
  releaseFlowControl (iv_flowControl volume) ;;~
  smod (fun g => g <| volumeMap := delete volumeName (volumeMap g) |>).

Definition modVolume (volumeName : string) (f : inodeVolume -> inodeVolume) : IG unit :=
  smod (fun g => g <| volumeMap := alter f volumeName (volumeMap g) |>).

Definition deactivate (confMap : ConfMap) (namespaced : bool) (peers : gmap string string) (volumeName : string) : IG unit :=
  modVolume volumeName (fun v => v <| iv_active := false |>) ;;~
  primaryPeer <~ slift (primaryPeerOf confMap namespaced volumeName) ;;
  assign (peerAddress peers primaryPeer) EmptyString (fun address g =>
    g <| volumeMap := alter (fun v => v <| iv_activePeerPrivateIPAddr := address |>) volumeName (volumeMap g) |>) ;;~
  modVolume volumeName (fun v =>
    v <| physicalContainerLayoutSet := ∅ |>
      <| physicalContainerNamePrefixSet := ∅ |> <| physicalContainerLayoutMap := ∅ |> <| iv_defaultPhysicalContainerLayout := None |>) ;;~
  g <~ sget ;;
  volume <~ slift (must (volumeMap g !! volumeName)) ;;
  releaseFlowControl (iv_flowControl volume) ;;~
  modVolume volumeName (fun v => v <| iv_flowControl := None |> <| iv_inodeCache := ∅ |>).

Definition PauseAndContract (confMap : ConfMap) (namespaced : bool) : IG unit :=
  peers <~ slift (peersOf confMap namespaced) ;;
  whoAmI <~ slift (FetchOptionValueString confMap "Cluster" "WhoAmI") ;;
  g <~ sget ;;
  if negb (bool_decide (whoAmI = ig_whoAmI g)) then serr plain
  else match peers !! ig_whoAmI g with
  | None => serr plain
  | Some address =>
      if negb (bool_decide (address = myPrivateIPAddr g)) then serr plain
      else
        volumeList <~ slift (volumeListOf confMap) ;;
        '(deleted, inactive) <~
          slift (sortVolumes confMap namespaced whoAmI (list_to_set volumeList)
                   (omap (fun name => v ← volumeMap g !! name; Some (name, v)) (rangeKeys (dom (volumeMap g)))) ∅ ∅) ;;
        sfor (rangeKeys deleted) deleteVolume ;;~
        sfor (rangeKeys inactive) (deactivate confMap namespaced peers)
  end.

(** ** ExpandAndResume *)

(** A volume that stays active takes new flush parameters and a new weight. *)
Definition updateFlowControl (confMap : ConfMap) (namespaced : bool) (volumeName : string) (volume : inodeVolume) : IG unit :=
  name <~ slift (FetchOptionValueString confMap (VolumeNameConfSection namespaced volumeName) "FlowControl") ;;
  address <~ slift (must (iv_flowControl volume)) ;;
  g <~ sget ;;
  flowControl <~ slift (must (flowControlHeap g !! address)) ;;
  if bool_decide (name = flowControlName flowControl) then
    let section := FlowControlNameConfSection namespaced name in
    assign (FetchOptionValueUint64 confMap section "MaxFlushSize") 0
      (fun n => onFlow address (fun f => f <| cacheOf := (cacheOf f) <| maxFlushSize := n |> |>)) ;;~
    assign (FetchOptionValueDuration confMap section "MaxFlushTime") (durationValue confMap section "MaxFlushTime")
      (fun d => onFlow address (fun f => f <| maxFlushTime := d |>)) ;;~
    lineSize <~ slift (FetchOptionValueUint64 confMap section "ReadCacheLineSize") ;;
    if negb (lineSize =? readCacheLineSize (cacheOf flowControl)) then serr plain
    else
      assign (FetchOptionValueUint64 confMap section "ReadCacheWeight") 0
        (fun n => onFlow address (fun f => f <| readCacheWeight := n |>))
  else serr plain.

(** [activate] on a volume of the map: what it did before an error stays. *)
Definition activateInMap (confMap : ConfMap) (namespaced : bool) (volumeName : string) : IG unit :=
  fun g =>
    match volumeMap g !! volumeName with
    | None => (g, Panic)
    | Some volume =>
        let '((g', volume'), r) := activate confMap namespaced (g, volume) in
        (g' <| volumeMap := <[volumeName := volume']> (volumeMap g') |>, r)
    end.

Definition expandVolume (confMap : ConfMap) (namespaced : bool) (peers : gmap string string) (volumeName : string) : IG unit :=
  g <~ sget ;;
  let volumeSectionName := VolumeNameConfSection namespaced volumeName in
  fsid <~ slift (FetchOptionValueUint64 confMap volumeSectionName "FSID") ;;
  accountName <~ slift (FetchOptionValueString confMap volumeSectionName "AccountName") ;;
  primaryPeer <~ slift (primaryPeerOf confMap namespaced volumeName) ;;
  activePeerPrivateIPAddr <~ slift (peerAddress peers primaryPeer) ;;
  let active := bool_decide (primaryPeer = Some (ig_whoAmI g)) in
  match volumeMap g !! volumeName with
  | Some volume =>
      if negb (fsid =? iv_fsid volume) then serr plain
      else if negb (bool_decide (accountName = iv_accountName volume)) then serr plain
      else
        modVolume volumeName (fun v => v <| iv_activePeerPrivateIPAddr := activePeerPrivateIPAddr |>) ;;~
        if active then
          if iv_active volume then updateFlowControl confMap namespaced volumeName volume
          else modVolume volumeName (fun v => v <| iv_active := true |>) ;;~ activateInMap confMap namespaced volumeName
        else sret tt
  | None =>
      if duplicateFSID g fsid then serr plain
      else if bool_decide (is_Some (accountMap g !! volumeName)) then serr plain
      else
        smod (fun g => g <| volumeMap := <[volumeName := newVolume fsid volumeName accountName active activePeerPrivateIPAddr]> (volumeMap g) |>
                         <| accountMap := <[accountName := volumeName]> (accountMap g) |>) ;;~
        if active then activateInMap confMap namespaced volumeName else sret tt
  end.

Definition ExpandAndResume (confMap : ConfMap) (namespaced : bool) : IG unit :=
  peers <~ slift (peersOf confMap namespaced) ;;
  volumeList <~ slift (volumeListOf confMap) ;;
  sfor volumeList (expandVolume confMap namespaced peers) ;;~
  setLineCounts confMap namespaced capReadCache.

Definition Down : IG unit := sret tt.
End Config.

(** ** Lookups *)

Definition accountNameToVolumeName (g : inodeGlobals) (accountName : string) : option string := accountMap g !! accountName.

Definition volumeNameToActivePeerPrivateIPAddr (g : inodeGlobals) (volumeName : string) : option string :=
  volume ← volumeMap g !! volumeName; Some (iv_activePeerPrivateIPAddr volume).
