(* ===== verification/InodeConfigFacts.v ===== *)
(** The flow controls of [inode] are counted right: what activation and release
    of a volume do to them. *)

From S2P Require Import Prelude Blunder Utils GoStrings ConfNumbers Conf ConfSections InodeTypes ReadCache InodeVolume InodeConfig.
Open Scope list_scope.

(** ** Users of a flow control *)

Definition uses (a : Z) (v : inodeVolume) : Z := if bool_decide (iv_flowControl v = Some a) then 1 else 0.

Definition users (m : gmap string inodeVolume) (a : Z) : Z :=
  map_fold (fun _ v n => uses a v + n) 0 m.

Lemma users_insert m name v a : m !! name = None -> users (<[name := v]> m) a = uses a v + users m a.
Proof. intros Hn. unfold users. rewrite map_fold_insert_L; [done| |done]. intros. lia. Qed.

Lemma users_delete m name v a : m !! name = Some v -> users m a = uses a v + users (delete name m) a.
Proof. intros Hn. unfold users. rewrite (map_fold_delete_L _ _ name v m); [done| |done]. intros. lia. Qed.

Lemma users_replace m name v v' a : m !! name = Some v -> users (<[name := v']> m) a = users m a - uses a v + uses a v'.
Proof.
  intros Hn. rewrite <- insert_delete_eq, users_insert by apply lookup_delete_eq. rewrite (users_delete m name v a Hn). lia.
Qed.

Lemma users_same m name v v' a : m !! name = Some v -> iv_flowControl v' = iv_flowControl v -> users (<[name := v']> m) a = users m a.
Proof. intros Hn Hf. rewrite (users_replace _ _ v) by done. unfold uses. rewrite Hf. lia. Qed.

Lemma uses_range a v : 0 <= uses a v <= 1.
Proof. unfold uses. case_bool_decide; lia. Qed.

Lemma users_range m a : 0 <= users m a <= Z.of_nat (size m).
Proof.
  induction m as [|name v m Hn IH] using map_ind; [done|]. rewrite users_insert, map_size_insert_None by done.
  pose proof (uses_range a v). lia.
Qed.

Lemma users_some m name v a : m !! name = Some v -> iv_flowControl v = Some a -> 0 < users m a.
Proof.
  intros Hn Hf. rewrite (users_delete m name v) by done. pose proof (users_range (delete name m) a). unfold uses.
  rewrite bool_decide_true by done. lia.
Qed.

(** ** Flow controls that are counted right *)

(** [count]: how many volumes use the flow control at an address. *)
Definition flowsOk (g : inodeGlobals) (count : Z -> Z) : Prop :=
  (forall name a, flowControlMap g !! name = Some a ->
     exists f, flowControlHeap g !! a = Some f /\ flowControlName f = name /\ refCount f = count a
               /\ 0 < count a < two32 /\ a < flowControlNext g)
  /\ (forall a, count a <> 0 -> exists name, flowControlMap g !! name = Some a).

Lemma flowsOk_ext g count count' : (forall a, count a = count' a) -> flowsOk g count -> flowsOk g count'.
Proof.
  intros He [H1 H2]. split.
  - intros name a Ha. destruct (H1 name a Ha) as (f & Hf). exists f. by rewrite <- !He.
  - intros a Ha. apply H2. by rewrite He.
Qed.

(** Two names do not share an address. *)
Lemma flowsOk_name g count name name' a : flowsOk g count ->
  flowControlMap g !! name = Some a -> flowControlMap g !! name' = Some a -> name = name'.
Proof.
  intros [H1 _] Ha Ha'. destruct (H1 _ _ Ha) as (f & Hf & <- & _), (H1 _ _ Ha') as (f' & Hf' & <- & _). congruence.
Qed.

(** What the counts depend on. *)
Definition countView (g : inodeGlobals) : gmap string inodeVolume * gmap string string * gmap string Z * Z * gmap Z (string * Z) :=
  (volumeMap g, accountMap g, flowControlMap g, flowControlNext g, (fun f => (flowControlName f, refCount f)) <$> flowControlHeap g).

Definition sameCounts (g g' : inodeGlobals) : Prop :=
  countView g' = countView g /\ ig_whoAmI g' = ig_whoAmI g /\ myPrivateIPAddr g' = myPrivateIPAddr g.

#[export] Instance sameCounts_preorder : PreOrder sameCounts.
Proof. split; [by intros ?|]. intros ? ? ? (? & ? & ?) (? & ? & ?). repeat split; congruence. Qed.

Lemma sameCounts_onFlow address (f : flowControlConfig -> flowControlConfig) g :
  (forall c, flowControlName (f c) = flowControlName c /\ refCount (f c) = refCount c) -> sameCounts g (onFlow address f g).
Proof.
  intros Hf. split; [|done]. unfold countView. cbn. f_equal. apply map_eq. intros a. rewrite !lookup_fmap, lookup_alter.
  case_decide; [subst|done]. destruct (flowControlHeap g !! a) as [c|]; [|done]. cbn. by destruct (Hf c) as [-> ->].
Qed.

Lemma flowsOk_same g g' count : sameCounts g g' -> flowsOk g count -> flowsOk g' count.
Proof.
  intros (Hv & _) [H1 H2]. unfold countView in Hv. injection Hv as _ _ Hm Hn Hh. split; rewrite Hm; [|done].
  intros name a Ha. destruct (H1 name a Ha) as (f & Hf & Hname & Hcount & Hc). rewrite Hn.
  apply (f_equal (fun m => m !! a)) in Hh. rewrite !lookup_fmap, Hf in Hh. cbn in Hh.
  destruct (flowControlHeap g' !! a) as [f'|]; [|done]. cbn in Hh. injection Hh as Hname' Hcount'.
  exists f'. rewrite Hname', Hcount'. auto.
Qed.

Definition countWith (count : Z -> Z) (address : Z) (n : Z) (a : Z) : Z := if bool_decide (a = address) then count a + n else count a.

(** The same for the updates of the two halves of a state. *)
Ltac mod_step H := ret_step H; lazymatch goal with E : modG _ _ = _ |- _ => injection E as <- <- | E : modV _ _ = _ |- _ => injection E as <- <- end.

Section Facts.
Context `{!Machine} `{!MapRange} (headhunter : string -> res (option string)) (maxStrings : Z).

(** ** Activation *)

(** The rest of the globals, and of the volume, is not touched. *)
Definition sameVolumes (g g' : inodeGlobals) : Prop :=
  volumeMap g' = volumeMap g /\ accountMap g' = accountMap g /\ ig_whoAmI g' = ig_whoAmI g /\ myPrivateIPAddr g' = myPrivateIPAddr g.

Definition sameIdentity (v v' : inodeVolume) : Prop :=
  iv_fsid v' = iv_fsid v /\ iv_volumeName v' = iv_volumeName v /\ iv_accountName v' = iv_accountName v
  /\ iv_active v' = iv_active v /\ iv_activePeerPrivateIPAddr v' = iv_activePeerPrivateIPAddr v.

#[local] Instance sameVolumes_preorder : PreOrder sameVolumes.
Proof. split; [by intros ?|]. intros ? ? ? (? & ? & ? & ?) (? & ? & ? & ?). repeat split; congruence. Qed.

#[local] Instance sameIdentity_preorder : PreOrder sameIdentity.
Proof. split; [by intros ?|]. intros ? ? ? (? & ? & ? & ? & ?) (? & ? & ? & ? & ?). repeat split; congruence. Qed.

Lemma readLayout_ret confMap namespaced name g v w :
  readLayout maxStrings confMap namespaced name (g, v) = (w, Ret tt) ->
  w.1 = g /\ sameIdentity v w.2 /\ iv_flowControl w.2 = iv_flowControl v.
Proof.
  unfold readLayout. intros HR. ret_step HR. case_bool_decide; [done|]. ret_step HR. ret_step HR. case_bool_decide; [done|].
  ret_step HR. ret_step HR. destruct (maxStrings <? _); [done|]. by injection HR as <-.
Qed.

(** [refCount++] *)
Definition raised (a : Z) (g : inodeGlobals) : inodeGlobals := onFlow a (fun f => f <| refCount := u32 (refCount f + 1) |>) g.

Lemma u32_small n : 0 <= n < two32 -> u32 n = n.
Proof. apply Z.mod_small. Qed.

Lemma raised_ok g count name a : flowsOk g count -> flowControlMap g !! name = Some a -> count a + 1 < two32 ->
  flowsOk (raised a g) (countWith count a 1).
Proof.
  intros Hok Ha Hb. pose proof Hok as [H1 H2]. split; cbn.
  - intros name' a' Ha'. destruct (H1 name' a' Ha') as (f & Hf & Hname & Hcount & Hc & Hlt). rewrite lookup_alter. unfold countWith.
    case_decide as Heq.
    + subst a'. rewrite Hf. cbn. rewrite bool_decide_true by done. eexists. split; [done|]. cbn. rewrite Hcount, u32_small by lia. split; [done|]. lia.
    + rewrite bool_decide_false by done. exists f. auto.
  - intros a' Ha'. unfold countWith in Ha'. case_bool_decide; [subst; eauto|auto].
Qed.

Lemma flowsOk_next g count : flowsOk g count -> count (flowControlNext g) = 0.
Proof.
  intros [H1 H2]. destruct (Z.eq_dec (count (flowControlNext g)) 0) as [|Hn]; [done|]. destruct (H2 _ Hn) as [name Ha].
  destruct (H1 _ _ Ha) as (f & _ & _ & _ & _ & Hlt). lia.
Qed.

(** A flow control that is new, with its first user. *)
Lemma newFlow_ok g count name c : flowsOk g count -> flowControlMap g !! name = None -> flowControlName c = name -> refCount c = 0 ->
  let a := flowControlNext g in
  flowsOk (raised a (g <| flowControlMap := <[name := a]> (flowControlMap g) |> <| flowControlHeap := <[a := c]> (flowControlHeap g) |>
                       <| flowControlNext := a + 1 |>)) (countWith count a 1).
Proof.
  intros Hok Hn Hname Hc a. pose proof (flowsOk_next g count Hok) as Hz. destruct Hok as [H1 H2]. split; cbn.
  - intros name' a' Ha'. rewrite lookup_alter. apply lookup_insert_Some in Ha' as [[<- <-]|[Hne Ha']].
    + rewrite decide_True, lookup_insert_eq by done. eexists. split; [done|]. cbn. unfold countWith.
      rewrite bool_decide_true, Hc by done. fold a in Hz. rewrite Hz. split; [done|]. rewrite u32_small by (unfold two32; lia).
      unfold two32. lia.
    + destruct (H1 name' a' Ha') as (f & Hf & Hnm & Hcount & Hcc & Hlt). fold a in Hlt. rewrite decide_False by lia.
      rewrite lookup_insert_ne by lia. exists f. unfold countWith. rewrite bool_decide_false by lia. repeat split; try done; lia.
  - intros a' Ha'. unfold countWith in Ha'. case_bool_decide; [subst a'; exists name; by rewrite lookup_insert_eq|].
    destruct (H2 a' Ha') as [name' Hm]. exists name'. rewrite lookup_insert_ne; [done|]. congruence.
Qed.

Lemma fetchFlowControl_ret confMap namespaced name g v count w a :
  flowsOk g count -> (forall x, count x + 1 < two32) ->
  fetchFlowControl confMap namespaced name (g, v) = (w, Ret a) ->
  w.2 = v /\ sameVolumes g w.1 /\ flowsOk (raised a w.1) (countWith count a 1).
Proof.
  intros Hok Hb HR. unfold fetchFlowControl in HR. ret_step HR. cbn [fst snd] in HR.
  destruct (flowControlMap g !! name) as [a'|] eqn:Hm.
  - injection HR as <- <-. split; [done|]. split; [done|]. by eapply raised_ok.
  - do 4 ret_step HR. mod_step HR. injection HR as <- <-. cbn [fst snd].
    split; [done|]. split; [done|]. exact (newFlow_ok g count name (mkFlowControl name 0 _ _ (emptyFlow _ _ 0)) Hok Hm eq_refl eq_refl).
Qed.

Lemma activate_ret confMap namespaced g v count w :
  flowsOk g count -> (forall x, count x + 1 < two32) ->
  activate headhunter maxStrings confMap namespaced (g, v) = (w, Ret tt) ->
  sameVolumes g w.1 /\ sameIdentity v w.2
  /\ (exists a, iv_flowControl w.2 = Some a /\ flowsOk w.1 (countWith count a 1))
  /\ exists handle, headhunter (iv_volumeName v) = Ret handle /\ iv_headhunterVolumeHandle w.2 = handle.
Proof.
  intros Hok Hb HR. unfold activate in HR. do 4 ret_step HR.
  ret_step HR. match goal with E : readLayout _ _ _ _ _ = (_, Ret ?u) |- _ => destruct u; rename E into E2 end. apply readLayout_ret in E2 as (Hg & Hid & Hfl). destruct s as [g1 v1]. cbn [fst snd] in Hg, Hid, Hfl. subst g1.
  mod_step HR. ret_step HR. ret_step HR. match goal with E : fetchFlowControl _ _ _ _ = _ |- _ => rename E into E3 end. eapply fetchFlowControl_ret in E3 as (Hv & Hsv & Hf); [|done..].
  destruct s as [g2 v2]. cbn [fst snd] in *. subst v2. mod_step HR. mod_step HR. apply assign_ret in HR as (handle & Hh & ->). cbn [fst snd] in *.
  split; [|split; [|split]].
  - exact Hsv.
  - exact Hid.
  - eexists. split; [reflexivity|exact Hf].
  - by exists handle.
Qed.

(** ** Release *)

Definition lowered (a : Z) (g : inodeGlobals) : inodeGlobals := onFlow a (fun f => f <| refCount := u32 (refCount f - 1) |>) g.

Lemma releaseFlowControl_ret g g' count a :
  flowsOk g count -> count a <> 0 -> releaseFlowControl (Some a) g = (g', Ret tt) ->
  sameVolumes g g' /\ flowsOk g' (countWith count a (-1)).
Proof.
  intros Hok Ha HR. destruct (proj2 Hok a Ha) as [name Hname]. pose proof Hok as [H1 H2].
  destruct (H1 name a Hname) as (f & Hf & Hnm & Hc & Hr & Hlt).
  unfold releaseFlowControl in HR. apply sbind_ret_inv in HR as (? & ? & [= <- <-] & HR). do 3 ret_step HR.
  match goal with E : must _ = _ |- _ => cbn in E; rewrite lookup_alter_eq, Hf in E; injection E as <- end. cbn beta iota in HR. unfold set in HR. cbn [refCount flowControlName] in HR. rewrite Hc, u32_small in HR by lia.
  assert (Hother : forall name' a', flowControlMap g !! name' = Some a' -> name' <> name ->
    exists f', alter (fun f => f <| refCount := u32 (refCount f - 1) |>) a (flowControlHeap g) !! a' = Some f' /\ flowControlName f' = name'
      /\ refCount f' = countWith count a (-1) a' /\ 0 < countWith count a (-1) a' < two32 /\ a' < flowControlNext g).
  { intros name' a' Ha' Hne. assert (a' <> a) by (intros ->; apply Hne; by eapply flowsOk_name).
    destruct (H1 name' a' Ha') as (f' & Hf'). exists f'. rewrite lookup_alter_ne by done. unfold countWith. by rewrite bool_decide_false. }
  destruct (Z.eqb_spec 0 (count a - 1)).
  - injection HR as <-. split; [done|]. split; cbn.
    + intros name' a' Ha'. rewrite Hnm in Ha'. apply lookup_delete_Some in Ha' as [Hne Ha']. by apply Hother.
    + intros a' Ha'. unfold countWith in Ha'. case_bool_decide; [subst; lia|]. destruct (H2 a' Ha') as [name' Hm].
      exists name'. rewrite Hnm, lookup_delete_ne; [done|]. congruence.
  - injection HR as <-. split; [done|]. split; cbn.
    + intros name' a' Ha'. destruct (decide (name' = name)) as [->|]; [|by apply Hother].
      rewrite Hname in Ha'. injection Ha' as <-. rewrite lookup_alter_eq, Hf. eexists. split; [done|]. cbn.
      unfold countWith. rewrite bool_decide_true, Hc, u32_small by (done || lia). split; [done|]. lia.
    + intros a' Ha'. unfold countWith in Ha'. case_bool_decide; [subst; eauto|auto].
Qed.

(** ** Well-formed globals *)

Record inodeOk (g : inodeGlobals) : Prop := {
  ok_volumes : forall name v, volumeMap g !! name = Some v -> iv_volumeName v = name /\ iv_active v = bool_decide (is_Some (iv_flowControl v));
  ok_flows : flowsOk g (users (volumeMap g))
}.

Lemma inodeOk_same g g' : sameCounts g g' -> inodeOk g -> inodeOk g'.
Proof.
  intros Hs [Hv Hf]. pose proof Hs as (Hc & _). unfold countView in Hc. injection Hc as Hm _ _ _ _.
  split; rewrite Hm; [done|]. by eapply flowsOk_same.
Qed.

(** The globals with another map of volumes. *)
Lemma flowsOk_volumes g m count : flowsOk g count -> flowsOk (g <| volumeMap := m |>) count.
Proof. done. Qed.

Lemma deleteVolume_ret name g g' : inodeOk g -> deleteVolume name g = (g', Ret tt) ->
  inodeOk g' /\ volumeMap g' = delete name (volumeMap g) /\ ig_whoAmI g' = ig_whoAmI g /\ myPrivateIPAddr g' = myPrivateIPAddr g
  /\ accountMap g' = accountMap g.
Proof.
  intros [Hv Hf] HR. unfold deleteVolume in HR. do 2 ret_step HR. destruct (volumeMap g !! name) as [v|] eqn:Hn; [|done].
  cbn in E. injection E as <-. ret_step HR. destruct a.
  assert (Ha : exists a, iv_flowControl v = Some a) by (unfold releaseFlowControl in E; ret_step E; destruct (iv_flowControl v); [eauto|done]).
  destruct Ha as [a Ha]. rewrite Ha in E. pose proof (users_some _ _ _ _ Hn Ha) as Hpos.
  eapply releaseFlowControl_ret in E as ((Hm & Hacc & Hwho & Hip) & Hfl); [|done|lia]. injection HR as <-. split; [|by cbn; rewrite Hm, Hwho, Hip, Hacc].
  split; cbn; rewrite Hm.
  - intros name' v' [_ Hn']%lookup_delete_Some. by apply Hv.
  - apply (flowsOk_ext _ (countWith (users (volumeMap g)) a (-1))); [|done]. intros a'. pose proof (users_delete _ _ _ a' Hn) as Hu.
    unfold countWith. unfold uses in Hu. rewrite Ha in Hu. destruct (decide (a' = a)) as [->|]; [rewrite !bool_decide_true in * by done; lia|].
    rewrite !bool_decide_false in * by congruence. lia.
Qed.

(** A volume that was not active has no flow control: deleting it panics. *)
Theorem deleting_inactive_volume_panics name v g :
  inodeOk g -> volumeMap g !! name = Some v -> iv_active v = false -> (deleteVolume name g).2 = Panic.
Proof.
  intros [Hv _] Hn Hi. destruct (Hv name v Hn) as [_ Ha]. rewrite Hi in Ha. unfold deleteVolume, sbind, sget, slift. rewrite Hn. cbn.
  destruct (iv_flowControl v) as [a|]; [|done]. rewrite bool_decide_true in Ha; [done|by eexists].
Qed.
End Facts.
