(* ===== verification/InodeReload.v ===== *)
(** Package [inode] across changes of configuration: a change leaves it with
    the volumes of the configuration, and its flow controls counted right. *)

From S2P Require Import Prelude Blunder Utils GoStrings ConfNumbers Conf ConfSections InodeTypes ReadCache InodeVolume InodeConfig InodeConfigFacts.
Open Scope list_scope.

(** The globals that stay. *)
Definition sameSelf (g g' : inodeGlobals) : Prop := ig_whoAmI g' = ig_whoAmI g /\ myPrivateIPAddr g' = myPrivateIPAddr g.

#[export] Instance sameSelf_preorder : PreOrder sameSelf.
Proof. split; [by intros ?|]. intros ? ? ? [? ?] [? ?]. split; congruence. Qed.

(** Another state of the same volume. *)
Definition sameVolume (v v' : inodeVolume) : Prop :=
  iv_fsid v' = iv_fsid v /\ iv_volumeName v' = iv_volumeName v /\ iv_accountName v' = iv_accountName v.

#[export] Instance sameVolume_preorder : PreOrder sameVolume.
Proof. split; [by intros ?|]. intros ? ? ? (? & ? & ?) (? & ? & ?). repeat split; congruence. Qed.

Section Reload.
Context `{!Machine} `{!MapRange} `{!MapRangeOk} (headhunter : string -> res (option string)) (maxStrings : Z).

(** ** One volume *)

Lemma deactivate_ret confMap namespaced peers name g g' : inodeOk g ->
  deactivate confMap namespaced peers name g = (g', Ret tt) ->
  inodeOk g' /\ sameSelf g g'
  /\ exists v v', volumeMap g !! name = Some v /\ volumeMap g' = <[name := v']> (volumeMap g) /\ sameVolume v v' /\ iv_active v' = false.
Proof.
  intros [Hv Hf] HR. unfold deactivate, modVolume in HR. ret_step HR. ret_step HR. ret_step HR. ret_step HR. ret_step HR. ret_step HR.
  match goal with E : must _ = _ |- _ => cbn in E; rewrite !lookup_alter_eq in E; rename E into Hm end.
  destruct (volumeMap g !! name) as [v|] eqn:Hn; [|done]. cbn in Hm. injection Hm as <-. ret_step HR.
  match goal with E : releaseFlowControl _ _ = (_, Ret ?u) |- _ => destruct u; rename E into Hr end.
  match type of Hr with releaseFlowControl ?fc _ = _ => change fc with (iv_flowControl v) in Hr end.
  destruct (iv_flowControl v) as [fa|] eqn:Ha; [|by unfold releaseFlowControl in Hr; ret_step Hr].
  pose proof (users_some _ _ _ _ Hn Ha) as Hpos.
  eapply releaseFlowControl_ret in Hr as ((Hm & _ & Hwho & Hip) & Hfl); [|exact Hf|lia].
  injection HR as <-. unfold set in Hm, Hwho, Hip. cbn in Hm, Hwho, Hip.
  assert (Hvols : exists v', volumeMap (s <| volumeMap := alter (fun v => v <| iv_flowControl := None |> <| iv_inodeCache := ∅ |>) name (volumeMap s) |>)
      = <[name := v']> (volumeMap g) /\ sameVolume v v' /\ iv_active v' = false /\ iv_flowControl v' = None).
  { cbn. rewrite Hm. eexists. split.
    - apply map_eq. intros k. destruct (decide (name = k)) as [<-|].
      + rewrite !lookup_alter_eq, lookup_insert_eq, Hn. reflexivity.
      + by rewrite !lookup_alter_ne, lookup_insert_ne.
    - done. }
  destruct Hvols as (v' & Hvols & Hsame & Hact & Hnone). split; [|split; [done|by exists v, v']].
  split; rewrite Hvols.
  - intros k w [[<- <-]|[_ Hk]]%lookup_insert_Some; [|by apply Hv]. rewrite Hact, Hnone. split; [|done].
    destruct Hsame as (_ & -> & _). by apply Hv.
  - apply (flowsOk_ext _ (countWith (users (volumeMap g)) fa (-1))); [|done]. intros a'.
    rewrite (users_replace _ _ v) by done. unfold countWith, uses. rewrite Ha, Hnone.
    destruct (decide (a' = fa)) as [->|]; [rewrite !bool_decide_true by done; rewrite bool_decide_false by done; lia|].
    rewrite !bool_decide_false by congruence. lia.
Qed.

Lemma activateInMap_ret confMap namespaced name g g' v :
  flowsOk g (users (volumeMap g)) -> Z.of_nat (size (volumeMap g)) + 1 < two32 ->
  volumeMap g !! name = Some v -> iv_flowControl v = None ->
  activateInMap headhunter maxStrings confMap namespaced name g = (g', Ret tt) ->
  sameSelf g g' /\ exists v', volumeMap g' = <[name := v']> (volumeMap g) /\ sameIdentity v v' /\ is_Some (iv_flowControl v')
    /\ flowsOk g' (users (volumeMap g')).
Proof.
  intros Hf Hb Hn Hnone HR. unfold activateInMap in HR. rewrite Hn in HR.
  destruct (activate headhunter maxStrings confMap namespaced (g, v)) as [[g1 v1] r] eqn:Ha. injection HR as <- ->.
  eapply activate_ret in Ha as ((Hm & _ & Hwho & Hip) & Hid & (a & Hfl & Hok) & _); [|exact Hf|].
  - cbn [fst snd] in *. split; [done|]. exists v1. cbn. rewrite Hm. split; [done|]. split; [done|]. split; [by eexists|].
    apply flowsOk_volumes.
    eapply flowsOk_ext; [|exact Hok]. intros a'. rewrite (users_replace _ _ v) by done. unfold countWith, uses. rewrite Hnone, Hfl.
    repeat case_bool_decide; simplify_eq; lia.
  - intros x. pose proof (users_range (volumeMap g) x). lia.
Qed.

Lemma keeps_assign {S A} (R : S -> S -> Prop) `{!PreOrder R} (m : res A) zero f : (forall a s, R s (f a s)) -> keeps R (assign m zero f).
Proof. intros Hf s s' r. unfold assign. destruct m; intros [= <- <-]; (apply Hf || reflexivity). Qed.

Ltac counts_auto := repeat match goal with
  | |- keeps _ (sbind _ _) => apply keeps_bind; [apply _| |intros ?]
  | |- keeps _ sget => apply keeps_get, _
  | |- keeps _ (slift _) => apply keeps_lift, _
  | |- keeps _ (sret _) => apply keeps_ret, _
  | |- keeps _ (serr _) => apply keeps_err, _
  | |- keeps _ spanic => apply keeps_panic, _
  | |- keeps _ (sfor _ _) => apply keeps_for; [apply _|intros ?]
  | |- keeps _ (smod _) => apply keeps_mod; intros ?; apply sameCounts_onFlow; done
  | |- keeps _ (assign _ _ _) => apply keeps_assign; [apply _|]; intros ? ?; apply sameCounts_onFlow; done
  | |- keeps _ (if ?b then _ else _) => destruct b
  end.

Lemma updateFlowControl_counts confMap namespaced name v : keeps sameCounts (updateFlowControl confMap namespaced name v).
Proof. unfold updateFlowControl. counts_auto. Qed.

Lemma setLineCounts_counts confMap namespaced cap : keeps sameCounts (setLineCounts confMap namespaced cap).
Proof. unfold setLineCounts, setLineCount. counts_auto. Qed.

(** ** The specification of a volume *)

Definition agrees (confMap : ConfMap) (namespaced : bool) (peers : gmap string string) (whoAmI volumeName : string) (v : inodeVolume) : Prop :=
  FetchOptionValueUint64 confMap (VolumeNameConfSection namespaced volumeName) "FSID" = Ret (iv_fsid v)
  /\ FetchOptionValueString confMap (VolumeNameConfSection namespaced volumeName) "AccountName" = Ret (iv_accountName v)
  /\ exists primaryPeer, primaryPeerOf confMap namespaced volumeName = Ret primaryPeer
     /\ peerAddress peers primaryPeer = Ret (iv_activePeerPrivateIPAddr v)
     /\ iv_active v = bool_decide (primaryPeer = Some whoAmI).

(** No volume is active that the configuration gives to another peer. *)
Definition noneTooMany (confMap : ConfMap) (namespaced : bool) (g : inodeGlobals) : Prop :=
  forall name v, volumeMap g !! name = Some v -> iv_active v = true -> servedHere confMap namespaced (ig_whoAmI g) name = true.

Lemma inodeOk_replace g name v v' : inodeOk g -> volumeMap g !! name = Some v -> iv_volumeName v' = name ->
  iv_flowControl v' = iv_flowControl v -> iv_active v' = iv_active v -> inodeOk (g <| volumeMap := <[name := v']> (volumeMap g) |>).
Proof.
  intros [Hv Hf] Hn Hnm Hfl Ha. split; cbn.
  - intros k w [[<- <-]|[_ Hk]]%lookup_insert_Some; [|by apply Hv]. rewrite Hfl, Ha. split; [done|]. by apply (Hv name v).
  - apply flowsOk_volumes. eapply flowsOk_ext; [|exact Hf]. intros a. symmetry. by eapply users_same.
Qed.

Lemma alter_insert_Some {A} (f : A -> A) (m : gmap string A) k x : m !! k = Some x -> alter f k m = <[k := f x]> m.
Proof.
  intros Hk. apply map_eq. intros i. destruct (decide (k = i)) as [<-|].
  - by rewrite lookup_alter_eq, lookup_insert_eq, Hk.
  - by rewrite lookup_alter_ne, lookup_insert_ne.
Qed.

Lemma expandVolume_ret confMap namespaced peers name g g' :
  inodeOk g -> noneTooMany confMap namespaced g -> Z.of_nat (size (volumeMap g)) + 2 < two32 ->
  expandVolume headhunter maxStrings confMap namespaced peers name g = (g', Ret tt) ->
  inodeOk g' /\ sameSelf g g' /\ exists v, volumeMap g' = <[name := v]> (volumeMap g) /\ agrees confMap namespaced peers (ig_whoAmI g) name v.
Proof.
  intros Hok Hmany Hb HR. pose proof Hok as [Hv Hf]. unfold expandVolume in HR. do 5 ret_step HR.
  rename a into fsid, a0 into accountName, a1 into primaryPeer, a2 into address.
  destruct (volumeMap g !! name) as [v|] eqn:Hn.
  - destruct (Z.eqb_spec fsid (iv_fsid v)) as [->|]; [|done]. cbn [negb] in HR.
    destruct (bool_decide_reflect (accountName = iv_accountName v)) as [->|]; [|done]. cbn [negb] in HR.
    unfold modVolume in HR at 1. ret_step HR. set (v1 := v <| iv_activePeerPrivateIPAddr := address |>) in *.
    assert (Hag : forall v', iv_fsid v' = iv_fsid v -> iv_accountName v' = iv_accountName v -> iv_activePeerPrivateIPAddr v' = address ->
      iv_active v' = bool_decide (primaryPeer = Some (ig_whoAmI g)) -> agrees confMap namespaced peers (ig_whoAmI g) name v').
    { intros v' Q1 Q2 Q3 Q4. split; [by rewrite Q1|]. split; [by rewrite Q2|]. exists primaryPeer. by rewrite Q3, Q4. }
    rewrite (alter_insert_Some _ _ _ v Hn) in HR. fold v1 in HR.
    assert (Hok1 : inodeOk (g <| volumeMap := <[name := v1]> (volumeMap g) |>)) by (eapply inodeOk_replace; try done; by apply (Hv name v)).
    case_bool_decide as Hp.
    + destruct (iv_active v) eqn:Ha.
      * assert (Hs := updateFlowControl_counts confMap namespaced name v _ _ _ HR).
        split; [by eapply inodeOk_same|]. destruct Hs as (Hc & Hwho & Hip). split; [done|]. exists v1. injection Hc as Hm _ _ _ _.
        split; [done|]. apply Hag; try done; by rewrite bool_decide_true.
      * unfold modVolume in HR. ret_step HR.
        destruct (Hv name v Hn) as [Hnm Hact]. rewrite Ha in Hact. symmetry in Hact. apply bool_decide_eq_false in Hact.
        assert (Hnone : iv_flowControl v = None) by (destruct (iv_flowControl v); [exfalso; apply Hact; by eexists|done]).
        eapply (activateInMap_ret _ _ _ _ _ (v1 <| iv_active := true |>)) in HR as (Hself & v2 & Hm & Hid & Hsome & Hfl).
        -- cbn [volumeMap] in Hm. unfold set in Hm at 1 2. cbn [volumeMap] in Hm.
           rewrite (alter_insert_Some _ _ _ v1), !insert_insert_eq in Hm by apply lookup_insert_eq.
           split; [|split; [exact Hself|exists v2; split; [exact Hm|]]].
           ++ split; [|done]. rewrite Hm. intros k w [[<- <-]|[_ Hk]]%lookup_insert_Some; [|by apply Hv].
              destruct Hid as (_ & -> & _ & -> & _). split; [done|]. symmetry. by apply bool_decide_true.
           ++ destruct Hid as (Q1 & _ & Q2 & Q3 & Q4). apply Hag; [exact Q1|exact Q2|exact Q4|].
              by rewrite Q3.
        -- cbn. rewrite (alter_insert_Some _ _ _ v1), insert_insert_eq by apply lookup_insert_eq.
           apply flowsOk_volumes. eapply flowsOk_ext; [|exact Hf]. intros a. symmetry. by eapply users_same.
        -- cbn. rewrite (alter_insert_Some _ _ _ v1), insert_insert_eq, map_size_insert_Some by (apply lookup_insert_eq || by eexists). lia.
        -- cbn. by rewrite (alter_insert_Some _ _ _ v1), lookup_insert_eq by apply lookup_insert_eq.
        -- exact Hnone.
    + injection HR as <-. split; [done|]. split; [done|]. exists v1. split; [done|]. apply Hag; try done.
      destruct (iv_active v1) eqn:Ha; [exfalso|done].
      pose proof (Hmany name v Hn Ha) as Hs. apply servedHere_true in Hs. congruence.
  - destruct (duplicateFSID g fsid); [done|]. case_bool_decide; [done|]. ret_step HR.
    set (v := newVolume fsid name accountName (bool_decide (primaryPeer = Some (ig_whoAmI g))) address) in *.
    assert (Hag : forall v', sameIdentity v v' -> agrees confMap namespaced peers (ig_whoAmI g) name v').
    { intros v' (Q1 & Q2 & Q3 & Q4 & Q5). split; [by rewrite Q1|]. split; [by rewrite Q3|]. exists primaryPeer. by rewrite Q4, Q5. }
    assert (Hfl : forall a, users (volumeMap g) a = users (<[name := v]> (volumeMap g)) a) by (intros a; by rewrite users_insert).
    case_bool_decide as Hp.
    + eapply (activateInMap_ret _ _ _ _ _ v) in HR as (Hself & v2 & Hm & Hid & Hsome & Hfl2).
      * cbn in Hm. rewrite insert_insert_eq in Hm. split; [|split; [exact Hself|exists v2; split; [exact Hm|by apply Hag]]].
        split; [|done]. rewrite Hm. intros k w [[<- <-]|[_ Hk]]%lookup_insert_Some; [|by apply Hv].
        destruct Hid as (_ & -> & _ & -> & _). split; [done|]. unfold v, newVolume; cbn. rewrite !bool_decide_true; done.
      * cbn. by eapply flowsOk_ext.
      * cbn. rewrite map_size_insert_None by done. lia.
      * cbn. apply lookup_insert_eq.
      * done.
    + injection HR as <-. split; [|split; [done|exists v; split; [done|by apply Hag]]]. split; cbn.
      * intros k w [[<- <-]|[_ Hk]]%lookup_insert_Some; [|by apply Hv]. split; [done|]. unfold v, newVolume; cbn. done.
      * apply flowsOk_volumes. by eapply flowsOk_ext.
Qed.

(** ** PauseAndContract *)

Lemma sortVolumes_spec confMap namespaced whoAmI new known : forall deleted inactive deleted' inactive',
  sortVolumes confMap namespaced whoAmI new known deleted inactive = Ret (deleted', inactive') ->
  deleted ⊆ deleted' /\ inactive ⊆ inactive'
  /\ forall name v, (name, v) ∈ known ->
       (name ∉ new -> name ∈ deleted')
       /\ (name ∈ new -> iv_active v = true -> servedHere confMap namespaced whoAmI name = true \/ name ∈ inactive').
Proof.
  induction known as [|[x v] known IH]; cbn [sortVolumes]; intros deleted inactive deleted' inactive' HE.
  - injection HE as <- <-. split; [done|]. split; [done|]. by intros ? ? Hn%elem_of_nil.
  - case_bool_decide as Hx.
    + destruct (primaryPeerOf confMap namespaced x) as [p| |] eqn:Hp; cbn [obind] in HE; try done.
      apply IH in HE as (Hd & Hi & Hk). split; [done|]. split.
      { destruct (iv_active v && _); [|done]. intros y Hy. by apply Hi, elem_of_union_r. }
      intros name w [[= -> ->]|Hin]%elem_of_cons; [|by apply Hk]. split; [done|]. intros _ Ha. rewrite Ha in Hi. cbn [andb] in Hi.
      unfold servedHere. rewrite Hp. destruct (bool_decide (p = Some whoAmI)); [by left|]. cbn [negb] in Hi. right. by apply Hi, elem_of_union_l, elem_of_singleton_2.
    + apply IH in HE as (Hd & Hi & Hk). split; [intros y Hy; by apply Hd, elem_of_union_r|]. split; [done|].
      intros name w [[= -> ->]|Hin]%elem_of_cons; [|by apply Hk]. split; [intros _; by apply Hd, elem_of_union_l, elem_of_singleton_2|done].
Qed.

Lemma known_elem (g : inodeGlobals) name v : volumeMap g !! name = Some v ->
  (name, v) ∈ omap (fun name => v ← volumeMap g !! name; Some (name, v)) (rangeKeys (dom (volumeMap g))).
Proof.
  intros Hn. apply list_elem_of_omap. exists name. split; [apply rangeKeys_elem; by eapply elem_of_dom_2|]. by rewrite Hn.
Qed.

(** What a run of [deactivate] over a list leaves. *)
Lemma deactivate_all confMap namespaced peers l g g' : inodeOk g ->
  sfor l (deactivate confMap namespaced peers) g = (g', Ret tt) ->
  inodeOk g' /\ sameSelf g g'
  /\ forall name v', volumeMap g' !! name = Some v' -> exists v, volumeMap g !! name = Some v /\ sameVolume v v'
       /\ (iv_active v' = true -> iv_active v = true /\ name ∉ l).
Proof.
  intros Hok. refine (sfor_ret_ind (fun don u => inodeOk u /\ sameSelf g u /\ forall name v', volumeMap u !! name = Some v' ->
    exists v, volumeMap g !! name = Some v /\ sameVolume v v' /\ (iv_active v' = true -> iv_active v = true /\ name ∉ don)) l _ _ _ _ _).
  - split; [done|]. split; [done|]. intros name v Hn. exists v. split; [done|]. split; [done|]. intros ?. split; [done|]. by intros ?%elem_of_nil.
  - intros don x s1 s2 _ (Hok1 & Hs & Hk) HR. apply deactivate_ret in HR as (Hok2 & Hs2 & v & v' & Hn & Hm & Hsame & Hoff); [|done].
    split; [done|]. split; [by etransitivity|]. rewrite Hm. intros name w [[<- <-]|[Hne Hw]]%lookup_insert_Some.
    + destruct (Hk x v Hn) as (v0 & Hv0 & Hs0 & _). exists v0. split; [done|]. split; [by etransitivity|]. congruence.
    + destruct (Hk name w Hw) as (v0 & Hv0 & Hs0 & Ha). exists v0. split; [done|]. split; [done|]. intros Hw'. destruct (Ha Hw').
      split; [done|]. rewrite elem_of_app, list_elem_of_singleton. naive_solver.
Qed.

Lemma deleteVolume_all l g g' : inodeOk g -> sfor l deleteVolume g = (g', Ret tt) ->
  inodeOk g' /\ sameSelf g g' /\ forall name v, volumeMap g' !! name = Some v <-> volumeMap g !! name = Some v /\ name ∉ l.
Proof.
  intros Hok. refine (sfor_ret_ind (fun don u => inodeOk u /\ sameSelf g u /\ forall name v,
    volumeMap u !! name = Some v <-> volumeMap g !! name = Some v /\ name ∉ don) l _ _ _ _ _).
  - split; [done|]. split; [done|]. intros name v. split; [|by intros [? _]]. intros ?. split; [done|]. by intros ?%elem_of_nil.
  - intros don x s1 s2 _ (Hok1 & Hs & Hk) HR. apply deleteVolume_ret in HR as (Hok2 & Hm & Hw & Hip & _); [|done].
    split; [done|]. split; [by etransitivity|]. intros name v. rewrite Hm, lookup_delete_Some, Hk, elem_of_app, list_elem_of_singleton. naive_solver.
Qed.

Lemma PauseAndContract_ret confMap namespaced g g' : inodeOk g ->
  PauseAndContract confMap namespaced g = (g', Ret tt) ->
  FetchOptionValueString confMap "Cluster" "WhoAmI" = Ret (ig_whoAmI g)
  /\ inodeOk g' /\ sameSelf g g' /\ noneTooMany confMap namespaced g'
  /\ (exists volumeList, volumeListOf confMap = Ret volumeList /\ forall name, name ∈ dom (volumeMap g') -> name ∈ volumeList)
  /\ forall name v', volumeMap g' !! name = Some v' -> exists v, volumeMap g !! name = Some v /\ sameVolume v v'.
Proof.
  intros Hok HR. unfold PauseAndContract in HR. do 3 ret_step HR.
  destruct (bool_decide_reflect (a0 = ig_whoAmI g)) as [->|]; [|done]. cbn [negb] in HR.
  destruct (a !! ig_whoAmI g); [|done]. destruct (negb _); [done|]. ret_step HR. rename a0 into volumeList. ret_step HR.
  destruct a0 as [deleted inactive]. rename E2 into Hsort. apply sortVolumes_spec in Hsort as (_ & _ & Hsort).
  ret_step HR. destruct a0. rename E2 into Hdel. apply deleteVolume_all in Hdel as (Hok1 & Hs1 & Hdel); [|done].
  apply deactivate_all in HR as (Hok2 & Hs2 & Hina); [|done].
  split; [done|]. split; [done|]. split; [by etransitivity|]. split; [|split].
  - intros name v' Hn Ha. destruct (Hina name v' Hn) as (v1 & Hn1 & _ & Hact). destruct (Hact Ha) as [Ha1 Hni].
    apply Hdel in Hn1 as [Hn0 Hnd]. destruct (Hsort name v1 (known_elem _ _ _ Hn0)) as [Hd Hi].
    rewrite (proj1 Hs2), (proj1 Hs1). rewrite rangeKeys_elem in Hnd, Hni.
    destruct (decide (name ∈ (list_to_set volumeList : gset string))) as [Hin|Hin]; [|by apply Hd in Hin].
    destruct (Hi Hin Ha1); done.
  - exists volumeList. split; [done|]. intros name [v' Hn]%elem_of_dom. destruct (Hina name v' Hn) as (v1 & Hn1 & _).
    apply Hdel in Hn1 as [Hn0 Hnd]. destruct (Hsort name v1 (known_elem _ _ _ Hn0)) as [Hd _]. rewrite rangeKeys_elem in Hnd.
    destruct (decide (name ∈ (list_to_set volumeList : gset string))) as [Hin|Hin]; [by apply elem_of_list_to_set in Hin|by apply Hd in Hin].
  - intros name v' Hn. destruct (Hina name v' Hn) as (v1 & Hn1 & Hsame & _). apply Hdel in Hn1 as [Hn0 _]. eauto.
Qed.

(** ** ExpandAndResume and Up *)

Definition configured (confMap : ConfMap) (namespaced : bool) (g : inodeGlobals) : Prop :=
  exists peers volumeList, peersOf confMap namespaced = Ret peers /\ volumeListOf confMap = Ret volumeList
    /\ (forall name, name ∈ dom (volumeMap g) <-> name ∈ volumeList)
    /\ forall name v, volumeMap g !! name = Some v -> agrees confMap namespaced peers (ig_whoAmI g) name v.

Lemma agrees_served confMap namespaced peers whoAmI name v : agrees confMap namespaced peers whoAmI name v ->
  iv_active v = servedHere confMap namespaced whoAmI name.
Proof. intros (_ & _ & p & Hp & _ & Ha). unfold servedHere. by rewrite Hp. Qed.

Lemma size_list_to_set_le (l : list string) : (size (list_to_set l : gset string) <= length l)%nat.
Proof.
  induction l as [|x l IH]; [done|]. cbn [list_to_set length]. rewrite size_union_alt, size_singleton.
  pose proof (subseteq_size (list_to_set l ∖ {[x]} : gset string) (list_to_set l) ltac:(by intros y [? _]%elem_of_difference)). lia.
Qed.

Lemma size_within (m : gmap string inodeVolume) (l : list string) : (forall name, name ∈ dom m -> name ∈ l) ->
  Z.of_nat (size m) <= zlen l.
Proof.
  intros Hl. rewrite <- (size_dom (D := gset string) m). unfold zlen. apply inj_le. etransitivity; [|apply size_list_to_set_le].
  apply subseteq_size. intros x Hx. by apply elem_of_list_to_set, Hl.
Qed.

(** The volumes of the list that are done. *)
Definition partlyConfigured (confMap : ConfMap) (namespaced : bool) (peers : gmap string string) (volumeList : list string) (whoAmI : string)
    (don : list string) (u : inodeGlobals) : Prop :=
  inodeOk u /\ ig_whoAmI u = whoAmI /\ noneTooMany confMap namespaced u
  /\ (forall name, name ∈ dom (volumeMap u) -> name ∈ volumeList)
  /\ forall name, name ∈ don -> exists v, volumeMap u !! name = Some v /\ agrees confMap namespaced peers whoAmI name v.

Lemma partlyConfigured_add confMap namespaced peers volumeList whoAmI don u u' name v :
  partlyConfigured confMap namespaced peers volumeList whoAmI don u -> name ∈ volumeList ->
  inodeOk u' -> ig_whoAmI u' = whoAmI -> volumeMap u' = <[name := v]> (volumeMap u) -> agrees confMap namespaced peers whoAmI name v ->
  partlyConfigured confMap namespaced peers volumeList whoAmI (don ++ [name]) u'.
Proof.
  intros (Hok & Hw & Hmany & Hdom & Hdone) Hin Hok' Hw' Hm Ha. split; [done|]. split; [done|]. split; [|split].
  - intros k w Hk Hact. rewrite Hm in Hk. apply lookup_insert_Some in Hk as [[<- <-]|[_ Hk]].
    + rewrite Hw'. by rewrite <- (agrees_served _ _ _ _ _ _ Ha).
    + rewrite Hw', <- Hw. by eapply Hmany.
  - intros k. rewrite Hm, dom_insert, elem_of_union, elem_of_singleton. intros [->|?]; [done|auto].
  - intros k. rewrite elem_of_app, list_elem_of_singleton, Hm. intros Hk. destruct (decide (k = name)) as [->|Hne].
    + exists v. by rewrite lookup_insert_eq.
    + destruct Hk as [Hk|Hk]; [|done]. destruct (Hdone k Hk) as (w & Hw2 & Hag). exists w. by rewrite lookup_insert_ne.
Qed.

Lemma partlyConfigured_all confMap namespaced peers volumeList u :
  peersOf confMap namespaced = Ret peers -> volumeListOf confMap = Ret volumeList ->
  partlyConfigured confMap namespaced peers volumeList (ig_whoAmI u) volumeList u -> inodeOk u /\ configured confMap namespaced u.
Proof.
  intros Hp Hl (Hok & _ & _ & Hdom & Hdone). split; [done|]. exists peers, volumeList. split; [done|]. split; [done|]. split.
  - intros name. split; [auto|]. intros Hin. destruct (Hdone name Hin) as (v & Hv & _). by apply elem_of_dom_2 in Hv.
  - intros name v Hn. destruct (Hdone name (Hdom name (elem_of_dom_2 _ _ _ Hn))) as (w & Hw & Ha). congruence.
Qed.

Lemma configured_same confMap namespaced g g' : sameCounts g g' -> inodeOk g -> configured confMap namespaced g ->
  inodeOk g' /\ configured confMap namespaced g'.
Proof.
  intros Hs Hok (peers & l & Hp & Hl & Hd & Ha). split; [by eapply inodeOk_same|]. destruct Hs as (Hc & Hw & _).
  injection Hc as Hm _ _ _ _. exists peers, l. by rewrite Hm, Hw.
Qed.

Lemma ExpandAndResume_ret confMap namespaced volumeList g g' :
  inodeOk g -> noneTooMany confMap namespaced g -> volumeListOf confMap = Ret volumeList -> zlen volumeList + 2 < two32 ->
  (forall name, name ∈ dom (volumeMap g) -> name ∈ volumeList) ->
  ExpandAndResume headhunter maxStrings confMap namespaced g = (g', Ret tt) ->
  inodeOk g' /\ ig_whoAmI g' = ig_whoAmI g /\ configured confMap namespaced g'.
Proof.
  intros Hok Hmany Hl Hb Hdom HR. unfold ExpandAndResume in HR. ret_step HR. ret_step HR. rewrite Hl in E0. injection E0 as <-.
  ret_step HR. destruct a0. rename a into peers, s into u.
  assert (Hall : partlyConfigured confMap namespaced peers volumeList (ig_whoAmI g) volumeList u).
  { refine (sfor_ret_ind (partlyConfigured confMap namespaced peers volumeList (ig_whoAmI g)) _ _ _ _ _ _ E0).
    - repeat (split; [done|]). by intros ? ?%elem_of_nil.
    - intros don x s1 s2 Hx Hs1 Hex. pose proof Hs1 as (Hok1 & Hw1 & Hmany1 & Hdom1 & _).
      pose proof (size_within _ _ Hdom1). apply expandVolume_ret in Hex as (Hok2 & [Hw2 _] & v & Hm & Ha); [|done|done|lia].
      eapply partlyConfigured_add; [done|done|done|congruence|done|by rewrite <- Hw1]. }
  pose proof (setLineCounts_counts _ _ _ _ _ _ HR) as Hs. pose proof Hall as (_ & Hw & _). rewrite <- Hw in Hall.
  destruct (partlyConfigured_all _ _ _ _ _ E Hl Hall) as [Hoku Hcu].
  destruct (configured_same _ _ _ _ Hs Hoku Hcu) as [? ?]. split; [done|]. split; [|done]. destruct Hs as (_ & -> & _). done.
Qed.

(** What the configuration decides of a volume. *)
Definition configView (g : inodeGlobals) : gmap string (Z * string * bool * string) :=
  (fun v => (iv_fsid v, iv_accountName v, iv_active v, iv_activePeerPrivateIPAddr v)) <$> volumeMap g.

Lemma configured_view confMap namespaced g g' : configured confMap namespaced g -> configured confMap namespaced g' ->
  ig_whoAmI g = ig_whoAmI g' -> configView g = configView g'.
Proof.
  intros (peers & l & Hp & Hl & Hd & Ha) (peers' & l' & Hp' & Hl' & Hd' & Ha') Hw. rewrite Hp in Hp'. rewrite Hl in Hl'. simplify_eq.
  apply map_eq. intros name. unfold configView. rewrite !lookup_fmap.
  destruct (volumeMap g !! name) as [v|] eqn:Hv, (volumeMap g' !! name) as [v'|] eqn:Hv'; cbn; [| | |done].
  - destruct (Ha _ _ Hv) as (H2 & H3 & p & H4 & H5 & H6), (Ha' _ _ Hv') as (K2 & K3 & p' & K4 & K5 & K6).
    rewrite Hw in H6. rewrite H4 in K4. injection K4 as <-. congruence.
  - exfalso. apply (not_elem_of_dom_2 (D := gset string)) in Hv'. apply Hv', Hd', Hd. by eapply elem_of_dom_2.
  - exfalso. apply (not_elem_of_dom_2 (D := gset string)) in Hv. apply Hv, Hd, Hd'. by eapply elem_of_dom_2.
Qed.

Lemma upVolume_ret confMap namespaced peers name g g' : inodeOk g -> Z.of_nat (size (volumeMap g)) + 2 < two32 ->
  upVolume headhunter maxStrings confMap namespaced peers name g = (g', Ret tt) ->
  inodeOk g' /\ sameSelf g g' /\ exists v, volumeMap g' = <[name := v]> (volumeMap g) /\ agrees confMap namespaced peers (ig_whoAmI g) name v.
Proof.
  intros [Hv Hf] Hb HR. unfold upVolume in HR. ret_step HR. ret_step HR. destruct (duplicateFSID g a); [done|]. ret_step HR.
  destruct (bool_decide_reflect (is_Some (volumeMap g !! name))) as [|Hn]; [done|]. apply eq_None_not_Some in Hn.
  case_bool_decide; [done|]. ret_step HR. ret_step HR. apply sbind_ret_inv in HR as (g1 & v & Hact & HR). injection HR as <-.
  rename a into fsid, a0 into accountName, a1 into primaryPeer, a2 into address.
  set (v0 := newVolume fsid name accountName (bool_decide (primaryPeer = Some (ig_whoAmI g))) address) in *.
  assert (Hmain : sameVolumes g g1 /\ sameIdentity v0 v /\ iv_active v = bool_decide (is_Some (iv_flowControl v))
                  /\ flowsOk g1 (users (<[name := v]> (volumeMap g)))).
  { destruct (bool_decide_reflect (primaryPeer = Some (ig_whoAmI g))) as [Hp|Hp].
    - destruct (activate headhunter maxStrings confMap namespaced (g, v0)) as [[g2 v2] r] eqn:Ha. injection Hact as <- Hr.
      destruct r as [[]| |]; [|done..]. injection Hr as <-.
      eapply activate_ret in Ha as (Hsv & Hid & (fa & Hfl & Hok) & _); [|exact Hf|intros x; pose proof (users_range (volumeMap g) x); lia].
      cbn [fst snd] in *. split; [done|]. split; [done|]. split.
      { destruct Hid as (_ & _ & _ & -> & _). cbn. symmetry. apply bool_decide_true. by eexists. }
      eapply flowsOk_ext; [|exact Hok]. intros a'. rewrite users_insert by done. unfold countWith, uses. rewrite Hfl.
      repeat case_bool_decide; simplify_eq; lia.
    - injection Hact as <- <-. split; [done|]. split; [done|]. split; [done|].
      eapply flowsOk_ext; [|exact Hf]. intros a'. by rewrite users_insert. }
  destruct Hmain as ((Hm & _ & Hw & Hip) & (Q1 & Q2 & Q3 & Q4 & Q5) & Hact' & Hok). split; [|split; [done|]].
  - split; cbn; rewrite Hm; [|done]. intros k w [[<- <-]|[_ Hk]]%lookup_insert_Some; [|by apply Hv]. by rewrite Q2.
  - exists v. cbn. rewrite Hm. split; [done|]. split; [by rewrite Q1|]. split; [by rewrite Q3|]. exists primaryPeer. by rewrite Q4, Q5.
Qed.

Lemma Up_ret confMap namespaced volumeList g g' :
  volumeListOf confMap = Ret volumeList -> zlen volumeList + 2 < two32 ->
  Up headhunter maxStrings confMap namespaced g = (g', Ret tt) ->
  FetchOptionValueString confMap "Cluster" "WhoAmI" = Ret (ig_whoAmI g') /\ inodeOk g' /\ configured confMap namespaced g'.
Proof.
  intros Hl Hb HR. unfold Up in HR. ret_step HR. rename a into peers. ret_step HR. rename a into whoAmI. ret_step HR. ret_step HR.
  destruct (negb _); [done|]. ret_step HR. ret_step HR. rewrite Hl in E1. injection E1 as <-. ret_step HR. destruct a. rename s into u.
  assert (Hall : partlyConfigured confMap namespaced peers volumeList whoAmI volumeList u).
  { refine (sfor_ret_ind (partlyConfigured confMap namespaced peers volumeList whoAmI) _ _ _ _ _ _ E1).
    - split; [|split; [done|]].
      + split; [by intros ? ?; cbn; intros ?%lookup_empty_Some|]. split; [by intros ? ?; cbn; intros ?%lookup_empty_Some|by intros a ?].
      + split; [by intros ? ?; cbn; intros ?%lookup_empty_Some|]. split; [|by intros ? ?%elem_of_nil].
        intros name. cbn. rewrite dom_empty. by intros ?%elem_of_empty.
    - intros don x s1 s2 Hx Hs1 Hup. pose proof Hs1 as (Hok1 & Hw1 & _ & Hdom1 & _).
      pose proof (size_within _ _ Hdom1). apply upVolume_ret in Hup as (Hok2 & [Hw2 _] & v & Hm & Ha); [|done|lia].
      eapply partlyConfigured_add; [done|done|done|congruence|done|by rewrite <- Hw1]. }
  pose proof (setLineCounts_counts _ _ _ _ _ _ HR) as Hs. pose proof Hall as (_ & Hw & _). rewrite <- Hw in Hall.
  destruct (partlyConfigured_all _ _ _ _ _ E Hl Hall) as [Hoku Hcu].
  destruct (configured_same _ _ _ _ Hs Hoku Hcu) as [? ?]. split; [|done]. destruct Hs as (_ & -> & _). by rewrite Hw.
Qed.

(** The active volumes are those that the peer serves. *)
Lemma configured_active confMap namespaced g name : configured confMap namespaced g ->
  (exists v, volumeMap g !! name = Some v /\ iv_active v = true) <-> name ∈ servedBy confMap namespaced (ig_whoAmI g).
Proof.
  intros (peers & l & _ & Hl & Hd & Ha). rewrite (servedBy_elem _ _ _ _ _ Hl), <- servedHere_true. split.
  - intros (v & Hv & Hact). split; [apply Hd; by eapply elem_of_dom_2|]. by rewrite <- (agrees_served _ _ _ _ _ _ (Ha _ _ Hv)).
  - intros [Hin Hs]. apply Hd, elem_of_dom in Hin as [v Hv]. exists v. split; [done|]. by rewrite (agrees_served _ _ _ _ _ _ (Ha _ _ Hv)).
Qed.

(** C33. A new configuration that package inode takes without an error leaves it
    as a restart with that configuration would: with the same volumes, of the
    same identity, active or not alike; and every flow control is in the map
    exactly as long as an active volume uses it, and counts its volumes. *)
Theorem inode_reload_like_restart confMap namespaced volumeList g g1 g2 g0 g' :
  inodeOk g -> volumeListOf confMap = Ret volumeList -> zlen volumeList + 2 < two32 ->
  PauseAndContract confMap namespaced g = (g1, Ret tt) ->
  ExpandAndResume headhunter maxStrings confMap namespaced g1 = (g2, Ret tt) ->
  Up headhunter maxStrings confMap namespaced g0 = (g', Ret tt) ->
  inodeOk g2 /\ inodeOk g' /\ configView g2 = configView g'
  /\ forall name, (exists v, volumeMap g2 !! name = Some v /\ iv_active v = true) <-> name ∈ servedBy confMap namespaced (ig_whoAmI g).
Proof.
  intros Hok Hl Hb Hp He Hu. apply PauseAndContract_ret in Hp as (Hwho & Hok1 & [Hw1 _] & Hmany & (l & Hl' & Hdom) & _); [|done].
  rewrite Hl in Hl'. injection Hl' as <-. eapply ExpandAndResume_ret in He as (Hok2 & Hw2 & Hc2); [|done..].
  eapply Up_ret in Hu as (Hwho' & Hok' & Hc'); [|done..]. rewrite Hwho in Hwho'. injection Hwho' as Hw'.
  split; [done|]. split; [done|]. split; [eapply configured_view; [done|done|congruence]|].
  intros name. by rewrite (configured_active _ _ _ _ Hc2), Hw2, Hw1.
Qed.
End Reload.
