(* ===== verification/InodeDir.v ===== *)
(** Package [inode], dir.go: directories; and [fetchVolumeHandle] of inode.go.

    The B+Tree of a directory maps entry names to inode numbers.  [Link],
    [Unlink] and [Move] change two to four inodes in memory and flush them
    together. *)

From S2P Require Import Prelude SortedMap Blunder NodeProgram Utils InodeTypes ReadCache VolumeHandle InodeVolume.
Open Scope list_scope.

(** [unix.Sizeof] of the fields of a [DirEntry], the name and its null byte. *)
Record DirEntry := mkDirEntry {
  de_InodeNumber : Z;
  de_Basename : string;
  de_Type : Z;
  de_NextDirLocation : Z
}.

Definition DirEntrySize (de : DirEntry) : Z := 8 + 2 + 8 + Z.of_nat (String.length (de_Basename de)) + 1.

(** The optional argument of [ReadDir]. *)
Inductive prevReturned_t :=
| FromStart
| AfterLocation (prevReturnedAsInodeDirLocation : Z)
| AfterName (prevReturnedAsString : string)
| BadPrevReturned.

Section InodeDir.
Context {V W : Type} `{!VolumeHandle V} `{!SwiftData W} `{!PayloadTree} `{!OnDiskCodec}.
Context (time_Now : nat -> Z).

Abbreviation M A := (St (volumeStruct V W) error A).

(** [inode.payload.(sortedmap.BPlusTree)], then one method of it. *)
Definition dirGet (p : Z) (basename : string) : M (option Z) :=
  inode <~ getInode p ;;
  entries <~ slift (dirEntriesOf inode) ;;
  sret (GetByKey entries basename).

Definition dirUpdate (p : Z) (f : list (string * Z) -> option (list (string * Z))) : M bool :=
  inode <~ getInode p ;;
  entries <~ slift (dirEntriesOf inode) ;;
  match f entries with
  | Some entries' => modInode p (fun inode => inode <| payload := DirPayload entries' |>) ;;~ sret true
  | None => sret false
  end.

(** [if !ok { panic(err) }] *)
Definition mustOk (m : M bool) : M unit := ok <~ m ;; if ok : bool then sret tt else spanic.

Definition createRootOrSubDir (filePerm userID groupID : Z) (isRootDir : bool) : M Z :=
  fileMode <~ slift (determineMode filePerm DirType) ;;
  dirInode <~ (if isRootDir
               then makeInMemoryInodeWithThisInodeNumber time_Now DirType fileMode userID groupID RootDirInodeNumber
               else makeInMemoryInode time_Now DirType fileMode userID groupID) ;;
  inode <~ getInode dirInode ;;
  let dirInodeNumber := InodeNumber (onDisk inode) in
  setDirty dirInode ;;~
  dirMapping <~ slift (must (Put [] "."%string dirInodeNumber)) ;;
  dirMapping <~ slift (if isRootDir then must (Put dirMapping ".."%string dirInodeNumber) else Ret dirMapping) ;;
  modDisk dirInode (fun d => d <| LinkCount := if isRootDir then 2 else 1 |>) ;;~
  modInode dirInode (fun inode => inode <| payload := DirPayload dirMapping |>) ;;~
  cacheInode dirInodeNumber dirInode ;;~
  (if isRootDir then flushInode dirInode else sret tt) ;;~
  sret dirInodeNumber.

Definition CreateDir (filePerm userID groupID : Z) : M Z := createRootOrSubDir filePerm userID groupID false.

Definition addDirEntryInMemory (dirInode targetInode : Z) (basename : string) : M unit :=
  setDirty dirInode ;;~
  setDirty targetInode ;;~
  target <~ getInode targetInode ;;
  let targetInodeNumber := InodeNumber (onDisk target) in
  ok <~ dirUpdate dirInode (fun m => Put m basename targetInodeNumber) ;;
  if negb ok then serr (AddError (Some plain) FileExistsError)
  else
    updateTime <~ timeNow time_Now ;;
    modDisk targetInode (fun d => d <| LinkCount := LinkCount d +u 1 |> <| AttrChangeTime := updateTime |>) ;;~
    (if (InodeType (onDisk target) =? DirType) && negb (targetInodeNumber =? RootDirInodeNumber) then
       dir <~ getInode dirInode ;;
       dirUpdate targetInode (fun m => Put m ".."%string (InodeNumber (onDisk dir))) ;;~
       modDisk dirInode (fun d => d <| LinkCount := LinkCount d +u 1 |>)
     else sret tt) ;;~
    modDisk dirInode (fun d => d <| AttrChangeTime := updateTime |> <| ModificationTime := updateTime |>).

(** The target is dereferenced for the error text when it is unallocated. *)
Definition fetchOrPanic (inodeNumber : Z) : M Z :=
  inode <~ fetchInode inodeNumber ;;
  match inode with Some p => sret p | None => spanic end.

Definition flushIfFile (p : Z) : M unit :=
  inode <~ getInode p ;;
  if FileType =? InodeType (onDisk inode) then flushInode p else sret tt.

Definition Link (dirInodeNumber : Z) (basename : string) (targetInodeNumber : Z) : M unit :=
  dirInode <~ fetchInodeType dirInodeNumber DirType ;;
  targetInode <~ fetchOrPanic targetInodeNumber ;;
  flushIfFile targetInode ;;~
  addDirEntryInMemory dirInode targetInode basename ;;~
  flushInodes [dirInode; targetInode].

Definition removeDirEntryInMemory (dirInode untargetInode : Z) (basename : string) : M unit :=
  setDirty dirInode ;;~
  setDirty untargetInode ;;~
  mustOk (dirUpdate dirInode (fun m => DeleteByKey m basename)) ;;~
  modDisk untargetInode (fun d => d <| LinkCount := LinkCount d -u 1 |>) ;;~
  untarget <~ getInode untargetInode ;;
  (if DirType =? InodeType (onDisk untarget) then
     mustOk (dirUpdate untargetInode (fun m => DeleteByKey m ".."%string)) ;;~
     modDisk dirInode (fun d => d <| LinkCount := LinkCount d -u 1 |>)
   else sret tt) ;;~
  updateTime <~ timeNow time_Now ;;
  modDisk dirInode (fun d => d <| AttrChangeTime := updateTime |> <| ModificationTime := updateTime |>) ;;~
  modDisk untargetInode (fun d => d <| AttrChangeTime := updateTime |>).

Definition Lookup (dirInodeNumber : Z) (basename : string) : M Z :=
  dirInode <~ fetchInodeType dirInodeNumber DirType ;;
  value <~ dirGet dirInode basename ;;
  match value with
  | Some targetInodeNumber => sret targetInodeNumber
  | None => serr (AddError (Some plain) NotFoundError)
  end.

Definition Unlink (dirInodeNumber : Z) (basename : string) : M unit :=
  dirInode <~ fetchInodeType dirInodeNumber DirType ;;
  untargetInodeNumber <~ annotate NotFoundError (Lookup dirInodeNumber basename) ;;
  untargetInode <~ fetchOrPanic untargetInodeNumber ;;
  orPanic (flushInode untargetInode) ;;~
  removeDirEntryInMemory dirInode untargetInode basename ;;~
  flushInodes [dirInode; untargetInode].

(** [Move], from the point where everything has been looked up. *)
Definition moveEntries (srcDirInode dstDirInode : Z) (sameDir : bool) (srcBasename dstBasename : string)
    (dstDirInodeNumber srcInodeNumber : Z) (srcInode : Z) (dstInode : option Z) : M (list Z) :=
  updateTime <~ timeNow time_Now ;;
  setDirty srcDirInode ;;~
  modDisk srcDirInode (fun d => d <| AttrChangeTime := updateTime |> <| ModificationTime := updateTime |>) ;;~
  (if negb sameDir then
     setDirty dstDirInode ;;~
     modDisk dstDirInode (fun d => d <| AttrChangeTime := updateTime |> <| ModificationTime := updateTime |>) ;;~
     src <~ getInode srcInode ;;
     if DirType =? InodeType (onDisk src) then
       modDisk srcDirInode (fun d => d <| LinkCount := LinkCount d -u 1 |>) ;;~
       modDisk dstDirInode (fun d => d <| LinkCount := LinkCount d +u 1 |>) ;;~
       mustOk (dirUpdate srcInode (fun m => PatchByKey m ".."%string dstDirInodeNumber))
     else sret tt
   else sret tt) ;;~
  setDirty srcInode ;;~
  modDisk srcInode (fun d => d <| AttrChangeTime := updateTime |>) ;;~
  mustOk (dirUpdate srcDirInode (fun m => DeleteByKey m srcBasename)) ;;~
  let inodes := srcDirInode :: (if sameDir then [] else [dstDirInode]) ++ [srcInode] in
  match dstInode with
  | None =>
      mustOk (dirUpdate dstDirInode (fun m => Put m dstBasename srcInodeNumber)) ;;~
      sret inodes
  | Some dstInode =>
      setDirty dstInode ;;~
      modDisk dstInode (fun d => d <| AttrChangeTime := updateTime |> <| LinkCount := LinkCount d -u 1 |>) ;;~
      mustOk (dirUpdate dstDirInode (fun m => PatchByKey m dstBasename srcInodeNumber)) ;;~
      sret (inodes ++ [dstInode])
  end.

Definition Move (srcDirInodeNumber : Z) (srcBasename : string) (dstDirInodeNumber : Z) (dstBasename : string) : M unit :=
  srcDirInode <~ orPanic (fetchInodeType srcDirInodeNumber DirType) ;;
  srcDir <~ getInode srcDirInode ;;
  slift (dirEntriesOf srcDir) ;;~
  let sameDir := srcDirInodeNumber =? dstDirInodeNumber in
  if sameDir && String.eqb srcBasename dstBasename then serr (AddError (Some plain) FileExistsError)
  else
  dstDirInode <~
    (if sameDir then sret srcDirInode
     else
       dstDirInode <~ orPanic (fetchInodeType dstDirInodeNumber DirType) ;;
       dstDir <~ getInode dstDirInode ;;
       slift (dirEntriesOf dstDir) ;;~
       sret dstDirInode) ;;
  srcInodeNumber <~ dirGet srcDirInode srcBasename ;;
  match srcInodeNumber with
  | None => serr (AddError (Some plain) NotFoundError)
  | Some srcInodeNumber =>
      srcInode <~ fetchOrPanic srcInodeNumber ;;
      dstInodeNumber <~ dirGet dstDirInode dstBasename ;;
      dstInode <~
        match dstInodeNumber with
        | Some dstInodeNumber =>
            dstInode <~ orPanic (fetchOrPanic dstInodeNumber) ;;
            sret (Some dstInode)
        | None => sret None
        end ;;
      dstIsDir <~
        match dstInode with
        | Some p => inode <~ getInode p ;; sret (DirType =? InodeType (onDisk inode))
        | None => sret false
        end ;;
      if dstIsDir : bool then serr (AddError (Some plain) FileExistsError)
      else
        orPanic (flushIfFile srcInode) ;;~
        match dstInode with Some p => orPanic (flushIfFile p) | None => sret tt end ;;~
        inodes <~ moveEntries srcDirInode dstDirInode sameDir srcBasename dstBasename dstDirInodeNumber
                    srcInodeNumber srcInode dstInode ;;
        orPanic (flushInodes inodes)
  end.

Definition NumDirEntries (dirInodeNumber : Z) : M Z :=
  p <~ fetchInodeType dirInodeNumber DirType ;;
  inode <~ getInode p ;;
  entries <~ slift (dirEntriesOf inode) ;;
  sret (Len entries).

(** The loop of [ReadDir]; every entry it appends is one iteration, so the
    number of entries bounds it. *)
Fixpoint readDirLoop (fuel : nat) (dirMapping : list (string * Z)) (maxEntries maxBufSize : Z)
    (dirIndex : Z) (dirEntries : list DirEntry) (bufSize : Z) (atLeastOneEntryFound : bool)
    : res (list DirEntry * Z * bool) :=
  match fuel with
  | O => Panic
  | S fuel' =>
      match GetByIndex dirMapping dirIndex with
      | None => Ret (dirEntries, dirIndex, atLeastOneEntryFound)
      | Some (key, value) =>
          let nextEntry := mkDirEntry value key 0 (dirIndex + 1) in
          if negb (maxEntries =? 0) && (maxEntries <? zlen dirEntries + 1) then Ret (dirEntries, dirIndex, true)
          else if negb (maxBufSize =? 0) && (maxBufSize <? bufSize +u DirEntrySize nextEntry)
          then Ret (dirEntries, dirIndex, true)
          else readDirLoop fuel' dirMapping maxEntries maxBufSize (dirIndex + 1) (dirEntries ++ [nextEntry])
                 (bufSize +u DirEntrySize nextEntry) true
      end
  end.

(** [ReadDir] on the entries of the directory it fetched. *)
Definition readDirEntries (dirMapping : list (string * Z)) (maxEntries maxBufSize : Z) (prevReturned : prevReturned_t)
    : res (list DirEntry * bool) :=
  dirIndex <-
    match prevReturned with
    | FromStart => Ret 0
    | AfterLocation loc => Ret (if loc <? 0 then 0 else loc + 1)
    | AfterName name =>
        let '(dirIndex, foundDoingBisectRight) := BisectRight dirMapping name in
        Ret (if foundDoingBisectRight then dirIndex + 1 else dirIndex)
    | BadPrevReturned => Err (AddError (Some plain) NotSupportedError)
    end ;;
  '(dirEntries, dirIndex, atLeastOneEntryFound) <-
    readDirLoop (S (length dirMapping)) dirMapping maxEntries maxBufSize dirIndex [] 0 false ;;
  if (zlen dirEntries =? 0) && negb atLeastOneEntryFound then Err (AddError (Some plain) NotFoundError)
  else Ret (dirEntries, dirIndex <? Len dirMapping).

(** [make([]DirEntry, 0, int(maxEntries))] panics on a capacity that is
    negative as an int or needs more than the address space of a 64-bit
    runtime (40 bytes per element, 48-bit addresses). *)
Definition capacityOk (maxEntries : Z) : bool := maxEntries * 40 <=? 2 ^ 48.

Definition ReadDir (dirInodeNumber maxEntries maxBufSize : Z) (prevReturned : prevReturned_t) : M (list DirEntry * bool) :=
  if negb (capacityOk maxEntries) then spanic else
  p <~ fetchInodeType dirInodeNumber DirType ;;
  inode <~ getInode p ;;
  match payload inode with
  | DirPayload dirMapping => slift (readDirEntries dirMapping maxEntries maxBufSize prevReturned)
  | _ => serr (AddError (Some plain) IOError)
  end.

(** [fetchVolumeHandle] of a volume in [globals.volumeMap]: whatever happens
    to the root directory, the error it returns is nil. *)
Definition fetchVolumeHandle : M unit :=
  s <~ sget ;;
  if negb (active s) then serr (AddError (Some plain) NotActiveError)
  else
    r <~ stry (onHeadhunter (vhGetInodeRec RootDirInodeNumber)) ;;
    match r with
    | inr (Some _) => sret tt
    | _ => ignoreErr (createRootOrSubDir PosixModePerm 0 0 true)
    end.
End InodeDir.

(** Reading directories: the pages [ReadDir] returns make up the directory. *)

(** The entry [ReadDir] makes of a key and a value at an index, and of all the
    entries from an index on. *)
Definition entryAt (dirIndex : Z) (kv : string * Z) : DirEntry := mkDirEntry kv.2 kv.1 0 (dirIndex + 1).

Fixpoint entriesFrom (dirIndex : Z) (m : list (string * Z)) : list DirEntry :=
  match m with
  | [] => []
  | kv :: m' => entryAt dirIndex kv :: entriesFrom (dirIndex + 1) m'
  end.

(** An entry fits in the buffer of a client that gives one. *)
Definition fits (maxBufSize : Z) (kv : string * Z) : Prop := maxBufSize = 0 \/ DirEntrySize (entryAt 0 kv) <= maxBufSize < two64.

Lemma entriesFrom_app i m1 m2 : entriesFrom i (m1 ++ m2) = entriesFrom i m1 ++ entriesFrom (i + zlen m1) m2.
Proof.
  revert i. induction m1 as [|kv m1 IH]; intros i; simpl; [by rewrite Z.add_0_r|]. rewrite IH. do 3 f_equal.
  unfold zlen. simpl. lia.
Qed.

Lemma length_entriesFrom i m : length (entriesFrom i m) = length m.
Proof. revert i. induction m as [|kv m IH]; intros i; simpl; [done|]. by rewrite IH. Qed.

Lemma map_entriesFrom i m : map (fun e => (de_Basename e, de_InodeNumber e)) (entriesFrom i m) = m.
Proof. revert i. induction m as [|[k v] m IH]; intros i; simpl; [done|]. by rewrite IH. Qed.

Lemma DirEntrySize_pos de : 0 < DirEntrySize de.
Proof. unfold DirEntrySize. lia. Qed.

(** What the loop makes of the entries [post] that are left, behind [pre]. *)
Definition readsPage (maxEntries maxBufSize : Z) (pre post : list (string * Z)) (acc : list DirEntry) (bufSize : Z)
    (flag : bool) (r : res (list DirEntry * Z * bool)) : Prop :=
  exists page rest flag',
    post = page ++ rest
    /\ r = Ret (acc ++ entriesFrom (zlen pre) page, zlen pre + zlen page, flag')
    /\ flag' = flag || bool_decide (post <> [])
    /\ (0 < maxEntries -> zlen acc <= maxEntries -> zlen acc + zlen page <= maxEntries)
    /\ (maxEntries = 0 -> maxBufSize = 0 -> rest = [])
    /\ (acc = [] -> bufSize = 0 -> Forall (fits maxBufSize) post -> page = [] -> rest = []).

(** The loop reads on from its index until the directory ends or a limit is
    met; a page that starts with an entry that fits is not empty. *)
Lemma readDirLoop_reads maxEntries maxBufSize post : forall fuel pre acc bufSize flag,
  (length post < fuel)%nat -> 0 <= maxEntries ->
  readsPage maxEntries maxBufSize pre post acc bufSize flag
    (readDirLoop fuel (pre ++ post) maxEntries maxBufSize (zlen pre) acc bufSize flag).
Proof.
  induction post as [|kv post IH]; intros fuel pre acc bufSize flag Hf Hm.
  { destruct fuel as [|fuel]; [simpl in Hf; lia|]. exists [], [], flag. split_and!; try done.
    - simpl. rewrite app_nil_r, GetByIndex_end, app_nil_r. unfold zlen. simpl. by rewrite Z.add_0_r.
    - by rewrite orb_false_r.
    - unfold zlen. simpl. lia. }
  destruct fuel as [|fuel]; [simpl in Hf; lia|]. simpl in Hf. cbn [readDirLoop].
  rewrite GetByIndex_mid. destruct kv as [k v]. set (e := mkDirEntry v k 0 (zlen pre + 1)).
  pose proof (zlen_nonneg acc) as Ha.
  assert (Hstop : (maxEntries = 0 -> maxBufSize = 0 -> False) -> (acc = [] -> bufSize = 0 -> Forall (fits maxBufSize) ((k, v) :: post) -> False) ->
    readsPage maxEntries maxBufSize pre ((k, v) :: post) acc bufSize flag (Ret (acc, zlen pre, true))).
  { intros H00 Hn. exists [], ((k, v) :: post), true. split_and!; try done.
    - simpl. by rewrite app_nil_r, Z.add_0_r.
    - by rewrite orb_true_r.
    - intros _ Hle. change (zlen (@nil (string * Z))) with 0. lia.
    - intros H1 H2. destruct (H00 H1 H2).
    - intros Ha0 Hb0 Hfit _. destruct (Hn Ha0 Hb0 Hfit). }
  destruct (negb (maxEntries =? 0) && (maxEntries <? zlen acc + 1)) eqn:E1.
  { apply Hstop; [by intros ->|]. intros -> _ _. apply andb_true_iff in E1 as [E0 E1]. change (zlen (@nil DirEntry)) with 0 in E1.
    apply negb_true_iff in E0. lia. }
  destruct (negb (maxBufSize =? 0) && (maxBufSize <? bufSize +u DirEntrySize e)) eqn:E2.
  { apply Hstop; [by intros _ ->|]. intros _ -> Hfit. apply Forall_cons in Hfit as [Hfit _].
    pose proof (DirEntrySize_pos (entryAt 0 (k, v))). unfold fits in Hfit.
    change (DirEntrySize e) with (DirEntrySize (entryAt 0 (k, v))) in E2.
    destruct Hfit as [->|Hfit]; [done|]. apply andb_true_iff in E2 as [_ E2]. rewrite uadd_small in E2 by lia. lia. }
  destruct (IH fuel (pre ++ [(k, v)]) (acc ++ [e]) (bufSize +u DirEntrySize e) true) as (page & rest & flag' & -> & Hl & Hfl & Hb & H00 & _);
    [lia|done|].
  rewrite <- app_assoc in Hl. simpl in Hl. replace (zlen (pre ++ [(k, v)])) with (zlen pre + 1) in Hl by (rewrite zlen_app; unfold zlen; simpl; lia).
  rewrite Hl. exists ((k, v) :: page), rest, flag'. split_and!; try done.
  - rewrite <- app_assoc. simpl. do 2 f_equal. f_equal. unfold zlen. simpl. lia.
  - rewrite Hfl. by rewrite orb_true_r.
  - intros H0 H1. rewrite zlen_cons. rewrite zlen_app in Hb. replace (zlen [e]) with 1 in Hb by done. lia.
Qed.

(** [ReadDir] after [name] goes on behind [pre]. *)
Definition resumesAt (name : string) (pre post : list (string * Z)) : Prop :=
  (exists pre' v, pre = pre' ++ [(name, v)] /\ Forall (below name) pre')
  \/ (Forall (below name) pre /\ Forall (above name) post).

Lemma resumesAt_index name pre post :
  resumesAt name pre post ->
  (let '(dirIndex, found) := BisectRight (pre ++ post) name in
   Ret (E := error) (if found : bool then dirIndex + 1 else dirIndex)) = Ret (zlen pre).
Proof.
  intros [(pre' & v & -> & Hp)|[Hb Ha]].
  - rewrite <- app_assoc. cbn [app]. rewrite BisectRight_hit by done. by rewrite zlen_app.
  - by rewrite BisectRight_miss.
Qed.

(** Every directory can be resumed after every name. *)
Lemma resumesAt_total name m : sorted m -> exists pre post, m = pre ++ post /\ resumesAt name pre post.
Proof.
  intros Hs. destruct (sorted_split m name Hs) as [(pre & v & post & -> & Hb & Ha)|(pre & post & -> & Hb & Ha)].
  - exists (pre ++ [(name, v)]), post. rewrite <- app_assoc. split; [done|]. left. eauto.
  - exists pre, post. split; [done|]. by right.
Qed.

(** ... and after the last entry of a page. *)
Lemma resumesAt_last pre k v post :
  sorted (pre ++ (k, v) :: post) -> resumesAt k (pre ++ [(k, v)]) post.
Proof.
  intros Hs. left. exists pre, v. split; [done|]. apply sorted_app in Hs as (_ & _ & Hp).
  rewrite Forall_forall in Hp |- *. intros p Hin. specialize (Hp p Hin). apply Forall_cons in Hp as [Hp _]. exact Hp.
Qed.

(** One page: behind the last entry [NotFoundError], else the next entries, at
    least one when it fits and at most [maxEntries], and whether there are
    more. *)
Lemma readDirEntries_page name pre post maxEntries maxBufSize :
  resumesAt name pre post -> 0 <= maxEntries ->
  match post with
  | [] => readDirEntries (pre ++ post) maxEntries maxBufSize (AfterName name) = Err (AddError (Some plain) NotFoundError)
  | _ =>
      exists page rest, post = page ++ rest
        /\ readDirEntries (pre ++ post) maxEntries maxBufSize (AfterName name)
           = Ret (entriesFrom (zlen pre) page, bool_decide (rest <> []))
        /\ (0 < maxEntries -> zlen page <= maxEntries)
        /\ (maxEntries = 0 -> maxBufSize = 0 -> rest = [])
        /\ (Forall (fits maxBufSize) post -> page <> [])
  end.
Proof.
  intros Hr Hm. unfold readDirEntries. rewrite (resumesAt_index _ _ _ Hr). cbn [obind].
  destruct (readDirLoop_reads maxEntries maxBufSize post (S (length (pre ++ post))) pre [] 0 false)
    as (page & rest & flag' & -> & -> & Hfl & Hb & H00 & Hp); [rewrite length_app; lia|done|]. cbn [obind app].
  assert (Hmore : (zlen pre + zlen page <? Len (pre ++ page ++ rest)) = bool_decide (rest <> [])).
  { unfold Len. rewrite !zlen_app. destruct rest as [|kv rest]; [change (zlen (@nil (string * Z))) with 0; rewrite bool_decide_false by (by intros []); lia|]. rewrite zlen_cons.
    pose proof (zlen_nonneg rest). rewrite bool_decide_true by done. lia. }
  rewrite Hmore. destruct (page ++ rest) as [|kv l] eqn:E.
  { apply app_nil in E as [-> ->]. by subst flag'. }
  rewrite bool_decide_true in Hfl by done. simpl in Hfl. subst flag'. rewrite andb_false_r. exists page, rest. split_and!; try done.
  - intros H0. specialize (Hb H0). change (zlen (@nil DirEntry)) with 0 in Hb. lia.
  - intros Hfit Hn. rewrite Hn, (Hp eq_refl eq_refl Hfit Hn) in E. done.
Qed.

(** ** Page after page *)

(** A client that reads a directory from [prevReturned] on, each time after the
    last name it got. *)
Fixpoint listDir (fuel : nat) (dirMapping : list (string * Z)) (maxEntries maxBufSize : Z) (prevReturned : string)
    : res (list DirEntry) :=
  match fuel with
  | O => Panic
  | S fuel' =>
      '(page, moreEntries) <- readDirEntries dirMapping maxEntries maxBufSize (AfterName prevReturned) ;;
      if moreEntries : bool then
        rest <- listDir fuel' dirMapping maxEntries maxBufSize (default prevReturned (de_Basename <$> last page)) ;;
        Ret (page ++ rest)
      else Ret page
  end.

Lemma last_entriesFrom i page kv : last (entriesFrom i (page ++ [kv])) = Some (entryAt (i + zlen page) kv).
Proof. rewrite entriesFrom_app. apply last_snoc. Qed.

Lemma listDir_rest maxEntries maxBufSize fuel : forall name pre post,
  sorted (pre ++ post) -> resumesAt name pre post -> 0 <= maxEntries -> Forall (fits maxBufSize) post ->
  post <> [] -> (length post <= fuel)%nat ->
  listDir fuel (pre ++ post) maxEntries maxBufSize name = Ret (entriesFrom (zlen pre) post).
Proof.
  induction fuel as [|fuel IH]; intros name pre post Hs Hr Hm Hfit Hne Hf; [destruct post; simpl in Hf; [done|lia]|].
  pose proof (readDirEntries_page name pre post maxEntries maxBufSize Hr Hm) as Hp.
  destruct post as [|kv0 post0]; [done|]. set (post := kv0 :: post0) in *.
  destruct Hp as (page & rest & Hpost & Hpage & _ & _ & Hprog). specialize (Hprog Hfit). cbn [listDir]. rewrite Hpage. cbn [obind].
  destruct rest as [|kv rest]; [rewrite bool_decide_false by (by intros []); by rewrite Hpost, app_nil_r|].
  rewrite bool_decide_true by done. destruct page as [|[k v] page _] using rev_ind; [done|]. rewrite last_entriesFrom. cbn [fmap option_fmap option_map default entryAt de_Basename fst].
  assert (Em : pre ++ post = ((pre ++ page) ++ [(k, v)]) ++ kv :: rest) by (by rewrite Hpost, <- !app_assoc).
  rewrite Em in Hs |- *. rewrite (IH k); [|done| |done| |done|].
  - cbn [obind]. rewrite Hpost, (entriesFrom_app _ (page ++ [(k, v)])), !zlen_app, Z.add_assoc. done.
  - apply (resumesAt_last (pre ++ page) k v (kv :: rest)). by rewrite <- app_assoc in Hs.
  - rewrite Hpost in Hfit. by apply Forall_app in Hfit as [_ Hfit].
  - rewrite Hpost, !length_app in Hf. simpl in Hf |- *. lia.
Qed.

(** C17. Paging loses and repeats nothing: a client that reads a directory page
    after page, resuming after the last name it got, with any limits under which
    each entry fits, gets what one [ReadDir] without limits returns, and needs no
    more calls than the directory has entries. *)
Theorem ReadDir_pages m maxEntries maxBufSize prevReturned fuel :
  sorted m -> 0 <= maxEntries -> Forall (fits maxBufSize) m -> (length m < fuel)%nat ->
  listDir fuel m maxEntries maxBufSize prevReturned
  = ('(entries, _) <- readDirEntries m 0 0 (AfterName prevReturned) ;; Ret entries).
Proof.
  intros Hs Hm Hfit Hf. destruct (resumesAt_total prevReturned m Hs) as (pre & post & -> & Hr).
  pose proof (readDirEntries_page prevReturned pre post maxEntries maxBufSize Hr Hm) as Hp.
  pose proof (readDirEntries_page prevReturned pre post 0 0 Hr ltac:(lia)) as H0.
  rewrite length_app in Hf. apply Forall_app in Hfit as [_ Hfit].
  destruct post as [|kv post]; [destruct fuel as [|fuel]; [lia|]; cbn [listDir]; by rewrite Hp, H0|].
  rewrite listDir_rest; [|done|done|done|done|done|lia].
  destruct H0 as (page & rest & Hpost & -> & _ & H00 & _). rewrite (H00 eq_refl eq_refl), app_nil_r in Hpost. by rewrite Hpost.
Qed.

Lemma ReadDir_pages_witness :
  listDir 4 [("."%string, 1); (".."%string, 1); ("a"%string, 9)] 1 30 "" =
  ('(entries, _) <- readDirEntries [("."%string, 1); (".."%string, 1); ("a"%string, 9)] 0 0 (AfterName "") ;; Ret entries).
Proof.
  apply ReadDir_pages; [cbn; repeat constructor|lia| |simpl; lia].
  repeat (apply Forall_cons_2; [right; unfold DirEntrySize, two64; simpl; lia|]). apply Forall_nil_2.
Defined.
