(* ===== verification/InodeFile.v ===== *)
(** Package [inode], file.go and file_flusher.go: file data.

    A write sends its bytes to the open log segment of the inode and records
    the extent; a read computes a plan and executes it on the write-back
    buffers, the read cache and the Swift objects.  [Validate] of inode.go,
    which re-reads a file's plan, is here too. *)

From S2P Require Import Prelude SortedMap Blunder NodeProgram Utils InodeTypes Extents ReadCache VolumeHandle InodeVolume InodeDir.
Open Scope list_scope.

Section InodeFile.
Context {V W : Type} `{!VolumeHandle V} `{!SwiftData W} `{!PayloadTree} `{!OnDiskCodec}.
Context (time_Now : nat -> Z).

Abbreviation M A := (St (volumeStruct V W) error A).

Definition createFileInode (filePerm userID groupID : Z) : M Z :=
  fileMode <~ slift (determineMode filePerm FileType) ;;
  fileInode <~ makeInMemoryInode time_Now FileType fileMode userID groupID ;;
  setDirty fileInode ;;~
  modInode fileInode (fun inode => inode <| payload := FilePayload [] |>) ;;~
  inode <~ getInode fileInode ;;
  cacheInode (InodeNumber (onDisk inode)) fileInode ;;~
  sret fileInode.

Definition CreateFile (filePerm userID groupID : Z) : M Z :=
  fileInode <~ createFileInode filePerm userID groupID ;;
  inode <~ getInode fileInode ;;
  sret (InodeNumber (onDisk inode)).

(** ** The read cache and the write-back buffers (file_flusher.go) *)

Definition onFlow {A} (f : flowControlStruct -> res (flowControlStruct * A)) : M A := fun s =>
  match f (flowControl s) with
  | Ret (f', a) => (s <| flowControl := f' |>, Ret a)
  | Err e => (s, Err e)
  | Panic => (s, Panic)
  end.

(** The cache line of a log segment: from the cache, else fetched with a
    ranged GET and cached. *)
Definition fetchCacheLine (step : ReadPlanStep) (cacheLineTag : Z) : M bytes :=
  s <~ sget ;;
  let readCacheKey := mkKey (volumeName s) (rps_LogSegmentNumber step) cacheLineTag in
  let lineSize := readCacheLineSize (flowControl s) in
  hit <~ onFlow (fun f => lookupLine f readCacheKey) ;;
  match hit with
  | Some cacheLine => sret cacheLine
  | None =>
      cacheLine <~ annotate SegReadError
        (onSwift (ObjectGet (rps_AccountName step) (rps_ContainerName step) (rps_ObjectName step)
                    (cacheLineTag *u lineSize) lineSize)) ;;
      onFlow (fun f => f <- insertLine f readCacheKey cacheLine ;; Ret (f, tt)) ;;~
      sret cacheLine
  end.

Definition sliceOf (b : bytes) (off len : Z) : bytes := take (Z.to_nat len) (drop (Z.to_nat off) b).

(** The bytes of the cache line, or an error when the line is too short. *)
Definition cutLine (cacheLine : bytes) (cacheLineHitOffset len : Z) : M bytes :=
  if zlen cacheLine <? cacheLineHitOffset +u len then serr (AddError (Some plain) SegReadError)
  else if cacheLineHitOffset +u len <? cacheLineHitOffset then spanic
  else sret (sliceOf cacheLine cacheLineHitOffset len).

(** One step through the cache, line by line; the remaining length decreases
    with every line, so [fuel] bounds the number of lines. *)
Fixpoint readLines (fuel : nat) (step : ReadPlanStep) (chunkOffset remainingLength : Z) : M bytes :=
  if 0 <? remainingLength then
    match fuel with
    | O => spanic
    | S fuel' =>
        s <~ sget ;;
        let lineSize := readCacheLineSize (flowControl s) in
        if lineSize =? 0 then spanic else
        let cacheLineHitOffset := chunkOffset mod lineSize in
        let cacheLineHitLength :=
          if lineSize <? cacheLineHitOffset +u remainingLength then lineSize -u cacheLineHitOffset
          else remainingLength in
        cacheLine <~ fetchCacheLine step (chunkOffset / lineSize) ;;
        chunk <~ cutLine cacheLine cacheLineHitOffset cacheLineHitLength ;;
        rest <~ readLines fuel' step (chunkOffset +u cacheLineHitLength) (remainingLength -u cacheLineHitLength) ;;
        sret (chunk ++ rest)
    end
  else sret [].

(** [inFlightLogSegment.Read] when the log segment is still in flight. *)
Definition readInFlight (p : Z) (step : ReadPlanStep) : M (option bytes) :=
  inode <~ getInode p ;;
  match inFlightLogSegmentMap inode !! rps_LogSegmentNumber step with
  | Some inFlightLogSegment =>
      match ifl_context inFlightLogSegment with
      | Some context =>
          buf <~ annotate SegReadError (onSwift (CtxRead context (rps_Offset step) (rps_Length step))) ;;
          sret (Some buf)
      | None => spanic
      end
  | None => sret None
  end.

(** [make([]byte, n)]: a size beyond a 48-bit address space panics. *)
Definition makeOk (n : Z) : M unit := if 2 ^ 48 <? n then spanic else sret tt.

Definition zeros (n : Z) : M bytes := makeOk n ;;~ sret (repeat 0 (Z.to_nat n)).

(** A step of the general case. *)
Definition doStep (p : Z) (step : ReadPlanStep) : M bytes :=
  if 0 =? rps_LogSegmentNumber step then zeros (rps_Length step)
  else
    hit <~ readInFlight p step ;;
    match hit with
    | Some buf => sret buf
    | None => readLines (Z.to_nat (rps_Length step)) step (rps_Offset step) (rps_Length step)
    end.

Fixpoint doSteps (p : Z) (readPlan : list ReadPlanStep) : M bytes :=
  match readPlan with
  | [] => sret []
  | step :: readPlan' =>
      buf <~ doStep p step ;;
      rest <~ doSteps p readPlan' ;;
      sret (buf ++ rest)
  end.

(** A lone step that lies in one cache line is the third special case; one
    that does not goes on to the general case. *)
Definition doReadPlan (p : Z) (readPlan : list ReadPlanStep) (readPlanBytes : Z) : M bytes :=
  let general := makeOk readPlanBytes ;;~ doSteps p readPlan in
  match readPlan with
  | [step] =>
      if 0 =? rps_LogSegmentNumber step then zeros (rps_Length step)
      else
        hit <~ readInFlight p step ;;
        match hit with
        | Some buf => sret buf
        | None =>
            s <~ sget ;;
            let lineSize := readCacheLineSize (flowControl s) in
            if lineSize =? 0 then spanic else
            let cacheLineHitOffset := rps_Offset step mod lineSize in
            if cacheLineHitOffset +u rps_Length step <=? lineSize then
              cacheLine <~ fetchCacheLine step (rps_Offset step / lineSize) ;;
              cutLine cacheLine cacheLineHitOffset (rps_Length step)
            else general
        end
  | _ => general
  end.

Definition Read (fileInodeNumber offset length_ : Z) : M bytes :=
  fileInode <~ fetchInodeType fileInodeNumber FileType ;;
  inode <~ getInode fileInode ;;
  s <~ sget ;;
  '(readPlan, readPlanBytes) <~
    getReadPlanHelper (accountName s) getObjectLocationFromLogSegmentNumber inode (Some offset) (Some length_) ;;
  doReadPlan fileInode readPlan readPlanBytes.

(** ** Writes *)

Definition modContext (p logSegmentNumber : Z) (context : Z) : M unit :=
  modInode p (fun inode => inode
    <| inFlightLogSegmentMap :=
         alter (fun i => i <| ifl_context := Some context |>) logSegmentNumber (inFlightLogSegmentMap inode) |>).

(** Opens a log segment: the new struct is in [openLogSegment] and in the map
    before its context is fetched, and stays there when that fails. *)
Definition openSegment (p : Z) : M Z :=
  '(openLogSegmentContainerName, openLogSegmentObjectNumber) <~ provisionObject ;;
  setLogSegmentContainer openLogSegmentObjectNumber openLogSegmentContainerName ;;~
  s <~ sget ;;
  let objectName := Uint64ToHexStr openLogSegmentObjectNumber in
  modInode p (fun inode => inode
    <| openLogSegment := Some openLogSegmentObjectNumber |>
    <| inFlightLogSegmentMap :=
         <[openLogSegmentObjectNumber :=
             mkInFlight openLogSegmentObjectNumber (accountName s) openLogSegmentContainerName objectName None]>
         (inFlightLogSegmentMap inode) |>) ;;~
  context <~ onSwift (ObjectFetchChunkedPutContext (accountName s) openLogSegmentContainerName objectName) ;;
  modContext p openLogSegmentObjectNumber context ;;~
  sret openLogSegmentObjectNumber.

(** A log segment that has reached [maxFlushSize] is handed to a flusher. *)
Definition doSendChunk (p : Z) (buf : bytes) : M (Z * Z) :=
  inode <~ getInode p ;;
  logSegmentNumber <~
    match openLogSegment inode with
    | Some logSegmentNumber => sret logSegmentNumber
    | None => openSegment p
    end ;;
  inode <~ getInode p ;;
  match inFlightLogSegmentMap inode !! logSegmentNumber with
  | Some (mkInFlight _ _ _ _ (Some context)) =>
      logSegmentOffset <~ onSwift (BytesPut context) ;;
      onSwift (SendChunk context buf) ;;~
      s <~ sget ;;
      (if maxFlushSize (flowControl s) <=? logSegmentOffset +u zlen buf
       then startFlusher p logSegmentNumber else sret tt) ;;~
      sret (logSegmentNumber, logSegmentOffset)
  | _ => spanic
  end.

(** An update of the inode by one of the pure routines of [Extents]. *)
Definition onInode (p : Z) (f : inMemoryInodeStruct -> res inMemoryInodeStruct) : M unit :=
  inode <~ getInode p ;;
  inode <~ slift (f inode) ;;
  modInode p (fun _ => inode).

Definition Write (fileInodeNumber offset : Z) (buf : bytes) : M unit :=
  fileInode <~ fetchInodeType fileInodeNumber FileType ;;
  setDirty fileInode ;;~
  '(logSegmentNumber, logSegmentOffset) <~ doSendChunk fileInode buf ;;
  onInode fileInode (fun inode => recordWrite inode offset (zlen buf) logSegmentNumber logSegmentOffset) ;;~
  let offsetJustAfter := offset +u zlen buf in
  modDisk fileInode (fun d => if Size d <? offsetJustAfter then d <| Size := offsetJustAfter |> else d) ;;~
  updateTime <~ timeNow time_Now ;;
  modDisk fileInode (fun d => d <| AttrChangeTime := updateTime |> <| ModificationTime := updateTime |>
                               <| NumWrites := NumWrites d +u 1 |>).

(** [flush] returns the error of [flushInode] after a purge that does not
    look at it. *)
Definition flush (p : Z) (andPurge : bool) : M unit :=
  inode <~ getInode p ;;
  r <~ stry (flushInode p) ;;
  (if andPurge then uncacheInode (InodeNumber (onDisk inode)) else sret tt) ;;~
  match r with inl err => serr err | inr _ => sret tt end.

Definition flushIfDirty (p : Z) (andPurge : bool) : M unit :=
  inode <~ getInode p ;;
  if dirty inode then flush p andPurge else sret tt.

Definition Flush (fileInodeNumber : Z) (andPurge : bool) : M unit :=
  fileInode <~ fetchInode fileInodeNumber ;;
  match fileInode with
  | None => sret tt
  | Some p =>
      inode <~ getInode p ;;
      if negb (InodeType (onDisk inode) =? FileType) then sret tt
      else flushIfDirty p andPurge
  end.

Definition GetReadPlan (fileInodeNumber : Z) (offset length_ : option Z) : M (list ReadPlanStep) :=
  fileInode <~ fetchInodeType fileInodeNumber FileType ;;
  flushIfDirty fileInode false ;;~
  inode <~ getInode fileInode ;;
  s <~ sget ;;
  '(readPlan, _) <~ getReadPlanHelper (accountName s) getObjectLocationFromLogSegmentNumber inode offset length_ ;;
  sret readPlan.

(** [strconv.ParseUint(s, 16, 64)] is what [HexStrToUint64] calls. *)
Definition Wrote (fileInodeNumber fileOffset : Z) (objectPath : string) (objectOffset length_ : Z) (patchOnly : bool) : M unit :=
  fileInode <~ fetchInodeType fileInodeNumber FileType ;;
  flushIfDirty fileInode false ;;~
  if negb patchOnly && (negb (0 =? fileOffset) || negb (0 =? objectOffset)) then serr plain
  else
  '(account, containerName, logSegmentNumeral) <~ slift (PathToAcctContObj objectPath) ;;
  s <~ sget ;;
  if negb (String.eqb account (accountName s)) then serr plain
  else
  logSegmentNumber <~ slift (HexStrToUint64 logSegmentNumeral) ;;
  setLogSegmentContainer logSegmentNumber containerName ;;~
  setDirty fileInode ;;~
  onInode fileInode (fun inode => recordWrite inode fileOffset length_ logSegmentNumber objectOffset) ;;~
  (if patchOnly then
     modDisk fileInode (fun d => if Size d <? fileOffset +u length_ then d <| Size := fileOffset +u length_ |> else d) ;;~
     updateTime <~ timeNow time_Now ;;
     modDisk fileInode (fun d => d <| ModificationTime := updateTime |> <| AttrChangeTime := updateTime |>)
   else
     updateTime <~ timeNow time_Now ;;
     onInode fileInode (fun inode => setSizeInMemory updateTime inode length_)) ;;~
  setDirty fileInode ;;~
  flushInode fileInode ;;~
  modDisk fileInode (fun d => d <| NumWrites := NumWrites d +u 1 |>).

Definition SetSize (fileInodeNumber size : Z) : M unit :=
  fileInode <~ fetchInodeType fileInodeNumber FileType ;;
  setDirty fileInode ;;~
  updateTime <~ timeNow time_Now ;;
  onInode fileInode (fun inode => setSizeInMemory updateTime inode size) ;;~
  flushInode fileInode.

(** ** Coalesce *)

Record CoalesceElement := mkElementToCoalesce {
  ContainingDirectoryInodeNumber : Z;
  ElementInodeNumber : Z;
  ElementName : string
}.

Fixpoint hasDuplicate (seenInode : gset Z) (elements : list CoalesceElement) : bool :=
  match elements with
  | [] => false
  | e :: elements' =>
      bool_decide (ElementInodeNumber e ∈ seenInode)
      || hasDuplicate ({[ElementInodeNumber e]} ∪ seenInode) elements'
  end.

(** The file and the directory of every element. *)
Fixpoint fetchElements (elements : list CoalesceElement) : M (list (Z * Z)) :=
  match elements with
  | [] => sret []
  | e :: elements' =>
      elementInode <~ fetchInodeType (ElementInodeNumber e) FileType ;;
      inode <~ getInode elementInode ;;
      if 1 <? LinkCount (onDisk inode) then serr (NewError TooManyLinksError)
      else
        elementDirInode <~ fetchInodeType (ContainingDirectoryInodeNumber e) DirType ;;
        rest <~ fetchElements elements' ;;
        sret ((elementInode, elementDirInode) :: rest)
  end.

(** Records the steps of an element's plan in the combined file from [base]
    on; returns the length of the plan. *)
Fixpoint stealSteps (combinationInode base fileOffset : Z) (readPlanSteps : list ReadPlanStep) : M Z :=
  match readPlanSteps with
  | [] => sret fileOffset
  | step :: steps' =>
      (if negb (rps_LogSegmentNumber step =? 0) then
         onInode combinationInode (fun inode =>
           recordWrite inode (base +u fileOffset) (rps_Length step) (rps_LogSegmentNumber step) (rps_Offset step)) ;;~
         modDisk combinationInode (fun d => d <| NumWrites := NumWrites d +u 1 |>)
       else sret tt) ;;~
      stealSteps combinationInode base (fileOffset +u rps_Length step) steps'
  end.

Fixpoint stealElements (combinationInode sumOfElementSizes : Z) (elementInodes : list Z) : M Z :=
  match elementInodes with
  | [] => sret sumOfElementSizes
  | p :: elementInodes' =>
      inode <~ getInode p ;;
      readPlanSteps <~ GetReadPlan (InodeNumber (onDisk inode)) (Some 0) (Some (Size (onDisk inode))) ;;
      fileOffset <~ stealSteps combinationInode sumOfElementSizes 0 readPlanSteps ;;
      stealElements combinationInode (sumOfElementSizes +u fileOffset) elementInodes'
  end.

(** Adds an inode to the list to flush unless its number is in the set. *)
Definition addToFlush (toFlush : list Z) (alreadyFlushing : gset Z) (p inodeNumber : Z) : list Z * gset Z :=
  if bool_decide (inodeNumber ∈ alreadyFlushing) then (toFlush, alreadyFlushing)
  else (toFlush ++ [p], {[inodeNumber]} ∪ alreadyFlushing).

Fixpoint unlinkElements (fetched : list (Z * Z)) (elements : list CoalesceElement)
    (toFlush : list Z) (alreadyFlushing : gset Z) : M (list Z * gset Z) :=
  match fetched, elements with
  | (fileInode, dirInode) :: fetched', e :: elements' =>
      removeDirEntryInMemory time_Now dirInode fileInode (ElementName e) ;;~
      dir <~ getInode dirInode ;;
      let '(toFlush, alreadyFlushing) := addToFlush toFlush alreadyFlushing dirInode (InodeNumber (onDisk dir)) in
      unlinkElements fetched' elements' toFlush alreadyFlushing
  | _, _ => sret (toFlush, alreadyFlushing)
  end.

(** The old entry of the combined file's name, if any, goes.  [fetchInode]
    returns [ok] with the error of a corrupt inode but not with the error of a
    failed lookup (the one annotated [NotFoundError]), and [ok] is tested
    first. *)
Definition removeObstacle (containingDirInode : Z) (combinationName : string) : M unit :=
  obstacle <~ dirGet containingDirInode combinationName ;;
  match obstacle with
  | None => sret tt
  | Some obstacleInodeNumber =>
      r <~ stry (fetchInode obstacleInodeNumber) ;;
      match r with
      | inr (Some obstacleInode) =>
          inode <~ getInode obstacleInode ;;
          if (InodeType (onDisk inode) =? DirType) && (2 <? LinkCount (onDisk inode))
          then serr (NewError NotEmptyError)
          else removeDirEntryInMemory time_Now containingDirInode obstacleInode combinationName
      | inr None => serr plain
      | inl err => if Is (Some err) NotFoundError then serr plain else serr err
      end
  end.

Definition Coalesce (containingDirInodeNumber : Z) (combinationName : string) (elements : list CoalesceElement)
    : M (Z * Z * Z) :=
  if hasDuplicate ∅ elements then serr (NewError InvalidArgError) else
  fetched <~ fetchElements elements ;;
  containingDirInode <~ fetchInodeType containingDirInodeNumber DirType ;;
  combinationInode <~ createFileInode PosixModePerm 0 0 ;;
  sumOfElementSizes <~ stealElements combinationInode 0 fetched.*1 ;;
  modDisk combinationInode (fun d => d <| Size := sumOfElementSizes |>) ;;~
  '(toFlush, alreadyFlushing) <~ unlinkElements fetched elements [combinationInode] ∅ ;;
  removeObstacle containingDirInode combinationName ;;~
  addDirEntryInMemory time_Now containingDirInode combinationInode combinationName ;;~
  dir <~ getInode containingDirInode ;;
  let '(toFlush, _) := addToFlush toFlush alreadyFlushing containingDirInode (InodeNumber (onDisk dir)) in
  sfor fetched.*1 (fun p => modDisk p (fun d => d <| Size := 0 |> <| LogSegmentMap := ∅ |>)) ;;~
  flushInodes (toFlush ++ fetched.*1) ;;~
  sfor fetched.*1 (fun p => inode <~ getInode p ;; ignoreErr (Destroy (InodeNumber (onDisk inode)))) ;;~
  updateTime <~ timeNow time_Now ;;
  modDisk combinationInode (fun d => d <| AttrChangeTime := updateTime |> <| ModificationTime := updateTime |>) ;;~
  inode <~ getInode combinationInode ;;
  sret (InodeNumber (onDisk inode), updateTime, NumWrites (onDisk inode)).

(** ** Validation (inode.go) *)

(** What is left of the byte counts of the log segments after the plan. *)
Fixpoint subtractSteps (remainingExpectedBytes : gmap Z Z) (readPlan : list ReadPlanStep) : res (gmap Z Z) :=
  match readPlan with
  | [] => Ret remainingExpectedBytes
  | step :: readPlan' =>
      let logSegmentRepresentation := List.last (Split slash (rps_ObjectPath step)) EmptyString in
      match HexStrToUint64 logSegmentRepresentation with
      | Ret logSegmentNumber =>
          let remaining := default 0 (remainingExpectedBytes !! logSegmentNumber) in
          subtractSteps (<[logSegmentNumber := remaining -u rps_Length step]> remainingExpectedBytes) readPlan'
      | _ => Err (NewError CorruptInodeError)
      end
  end.

Definition endOffsets (readPlan : list ReadPlanStep) : gmap string Z :=
  foldl (fun m step =>
    let stepEndOffset := rps_Offset step +u rps_Length step in
    match m !! rps_ObjectPath step with
    | Some endOffset => if endOffset <? stepEndOffset then <[rps_ObjectPath step := stepEndOffset]> m else m
    | None => <[rps_ObjectPath step := stepEndOffset]> m
    end) ∅ readPlan.

Definition checkObject (objectPath : string) (endOffset : Z) : M unit :=
  '(account, containerName, objectName) <~ slift (PathToAcctContObj objectPath) ;;
  contentLength <~ onSwift (ObjectContentLength account containerName objectName) ;;
  if contentLength <? endOffset then serr plain else sret tt.

Definition validateFileExtents (p : Z) : M unit :=
  ourInode <~ getInode p ;;
  s <~ sget ;;
  '(readPlan, readPlanBytes) <~
    getReadPlanHelper (accountName s) getObjectLocationFromLogSegmentNumber ourInode (Some 0) None ;;
  if negb (readPlanBytes =? Size (onDisk ourInode)) then serr (NewError CorruptInodeError)
  else
  remainingExpectedBytes <~ slift (subtractSteps (LogSegmentMap (onDisk ourInode)) readPlan) ;;
  if negb (bool_decide (map_Forall (fun _ n => n = 0) remainingExpectedBytes))
  then serr (AddError (Some plain) CorruptInodeError)
  else sfor (map_to_list (endOffsets readPlan)) (fun kv => checkObject kv.1 kv.2).

Definition markCorrupted (inodeNumber : Z) : M unit :=
  r <~ stry (onHeadhunter (vhGetInodeRec inodeNumber)) ;;
  let inodeRec :=
    match r with
    | inr (Some inodeRec) =>
        if zlen corruptionDetectedTrueBuf <=? zlen inodeRec
        then corruptionDetectedTrueBuf ++ drop (length corruptionDetectedTrueBuf) inodeRec
        else corruptionDetectedTrueBuf
    | _ => corruptionDetectedTrueBuf
    end in
  onHeadhunter (vhPutInodeRec inodeNumber inodeRec).

Definition checkInode (p : Z) : M unit :=
  ourInode <~ getInode p ;;
  let t := InodeType (onDisk ourInode) in
  if (t =? DirType) || (t =? FileType) then
    match payload ourInode with
    | NoPayload => serr (AddError (Some plain) CorruptInodeError)
    | tree =>
        annotate CorruptInodeError (onTree (treeValidate tree)) ;;~
        (if FileType =? t then annotate CorruptInodeError (validateFileExtents p) else sret tt)
    end
  else if t =? SymlinkType then sret tt
  else serr (AddError (Some plain) CorruptInodeError).

Definition Validate (inodeNumber : Z) : M unit :=
  flushInodeNumber inodeNumber ;;~
  Purge inodeNumber ;;~
  p <~ fetchAllocated inodeNumber ;;
  r <~ stry (checkInode p) ;;
  match r with
  | inl err => ignoreErr (markCorrupted inodeNumber) ;;~ serr err
  | inr _ => sret tt
  end.
End InodeFile.
