(* ===== verification/InodeFileFacts.v ===== *)
(** What a file reads back.

    Below a file are the log segment records of the volume, the Swift objects
    of its closed log segments and the Chunked PUT contexts of the open ones.
    [VolumeHandleLive] and [SwiftDataOk] say what the layers below promise
    while they answer: a volume handle returns the record it holds, a Swift
    cluster returns the bytes that were sent.  Against these interfaces
    [content] gives every file position a byte, [Read] returns it, and [Write],
    [SetSize] and [Flush] change it the way their names say. *)

From S2P Require Import Prelude SortedMap Blunder NodeProgram Utils InodeTypes Extents ExtentsFacts ReadPlanFacts.
From S2P Require Import ReadCache ReadCacheFacts VolumeHandle InodeVolume InodeDir InodeFile.
Open Scope list_scope.

(** ** The promises of the layers below *)

(** The contexts of Chunked PUTs (account, container and object name, and the
    bytes sent so far) and the objects. *)
Record swiftView := mkView {
  ctxs : gmap Z (string * string * string * bytes);
  objs : gmap (string * string * string) bytes
}.

#[export] Instance eta_swiftView : Eta swiftView := fun v => mkView (ctxs v) (objs v).

Class SwiftDataOk (W : Type) `{SwiftData W} := {
  swView : W -> swiftView;
  sd_ctxRead c off len t (b : bytes) w : ctxs (swView w) !! c = Some (t, b) -> 0 <= off -> 0 <= len -> off + len <= zlen b ->
    exists w', CtxRead c off len w = (w', Ret (sliceOf b off len)) /\ swView w' = swView w;
  sd_bytesPut c t (b : bytes) w : ctxs (swView w) !! c = Some (t, b) ->
    exists w', BytesPut c w = (w', Ret (zlen b)) /\ swView w' = swView w;
  sd_sendChunk c t (b buf : bytes) w : ctxs (swView w) !! c = Some (t, b) ->
    exists w', SendChunk c buf w = (w', Ret tt) /\
      swView w' = (swView w) <| ctxs := <[c := (t, b ++ buf)]> (ctxs (swView w)) |>;
  sd_close c t (b : bytes) w : ctxs (swView w) !! c = Some (t, b) ->
    exists w', CtxClose c w = (w', Ret tt) /\
      swView w' = (swView w) <| ctxs := delete c (ctxs (swView w)) |> <| objs := <[t := b]> (objs (swView w)) |>;
  sd_fetchContext account container object w :
    exists w' c, ObjectFetchChunkedPutContext account container object w = (w', Ret c) /\
      ctxs (swView w) !! c = None /\
      swView w' = (swView w) <| ctxs := <[c := ((account, container, object), [])]> (ctxs (swView w)) |>;
  sd_objectGet account container object off len (b : bytes) w :
    objs (swView w) !! (account, container, object) = Some b -> 0 <= off < zlen b -> 0 < len ->
    exists w', ObjectGet account container object off len w = (w', Ret (sliceOf b off len)) /\ swView w' = swView w;
  sd_containerPut account container headers w :
    exists w', ContainerPut account container headers w = (w', Ret tt) /\ swView w' = swView w
}.

(** A volume handle that answers; [freshNonce] is what the uniqueness of
    nonces gives a client: a new one names no log segment yet. *)
Class VolumeHandleLive (V : Type) `{VolumeHandleOk V} := {
  vh_getLogSegmentRec_live n b v : logSegmentRecs (vhMaps v) !! n = Some b ->
    exists v', vhGetLogSegmentRec n v = (v', Ret b) /\ vhMaps v' = vhMaps v;
  vh_putLogSegmentRec_live n b v : exists v', vhPutLogSegmentRec n b v = (v', Ret tt);
  vh_fetchNonce_live v : exists v' n, vhFetchNonce v = (v', Ret n) /\ 0 < n /\
    logSegmentRecs (vhMaps v) !! n = None
}.

(** ** Slices *)

Lemma zlen_sliceOf b off len :
  0 <= off -> 0 <= len -> off + len <= zlen b -> zlen (sliceOf b off len) = len.
Proof. intros Ho Hl Hle. unfold sliceOf, zlen in *. rewrite length_take, length_drop. lia. Qed.

Lemma lookup_sliceOf b off len i :
  0 <= off -> 0 <= i < len -> sliceOf b off len !! Z.to_nat i = b !! Z.to_nat (off + i).
Proof.
  intros Ho Hi. unfold sliceOf, bytes in *. rewrite lookup_take_lt by lia. rewrite lookup_drop. f_equal. lia.
Qed.

Lemma sliceOf_sliceOf b off len off' len' :
  0 <= off -> 0 <= off' -> 0 <= len' -> off' + len' <= len ->
  sliceOf (sliceOf b off len) off' len' = sliceOf b (off + off') len'.
Proof.
  intros Ho Ho' Hl Hle. unfold sliceOf. rewrite skipn_firstn_comm, firstn_firstn, skipn_skipn.
  f_equal; [lia|]. f_equal. lia.
Qed.

Lemma sliceOf_app b off n m :
  0 <= off -> 0 <= n -> 0 <= m -> off + n + m <= zlen b ->
  sliceOf b off n ++ sliceOf b (off + n) m = sliceOf b off (n + m).
Proof.
  intros Ho Hn Hm Hle. unfold sliceOf. rewrite !Z2Nat.inj_add by lia.
  rewrite <- (firstn_skipn (Z.to_nat n) (take (Z.to_nat n + Z.to_nat m) (drop (Z.to_nat off) b))).
  f_equal; [rewrite firstn_firstn; f_equal; lia|].
  rewrite skipn_firstn_comm, skipn_skipn. f_equal; [lia|]. f_equal. lia.
Qed.

Lemma zlen_sliceOf_line b off len :
  0 <= off -> off <= zlen b -> 0 <= len -> zlen (sliceOf b off len) = Z.min len (zlen b - off).
Proof. intros Ho Hle Hl. unfold sliceOf, zlen in *. rewrite length_take, length_drop. lia. Qed.

(** Running the pieces of a stateful call. *)
Lemma srun_bind {S E A B} (m : St S E A) (k : A -> St S E B) s s1 a r :
  m s = (s1, Ret a) -> k a s1 = r -> sbind m k s = r.
Proof. intros H <-. by apply sbind_ret. Qed.

Section FileFacts.
Context {V W : Type} `{VolumeHandleLive V} `{SwiftDataOk W} `{!PayloadTree} `{!OnDiskCodec}.
Context (time_Now : nat -> Z).

Abbreviation vol := (volumeStruct V W).

(** ** The bytes of a file *)

(** The object of a closed log segment. *)
Definition objectOf (s : vol) (n : Z) : option bytes :=
  rec ← logSegmentRecs (vhMaps (headhunterVolumeHandle s)) !! n;
  objs (swView (swift s)) !! (accountName s, ByteSliceToString rec, Uint64ToHexStr n).

(** The bytes of a log segment: of its context while it is in flight, else of
    its object. *)
Definition segmentOf (s : vol) (inode : inMemoryInodeStruct) (n : Z) : option bytes :=
  match inFlightLogSegmentMap inode !! n with
  | Some i => c ← ifl_context i; snd <$> ctxs (swView (swift s)) !! c
  | None => objectOf s n
  end.

(** The byte at a file position; holes read as zero. *)
Definition content (s : vol) (inode : inMemoryInodeStruct) (pos : Z) : Z :=
  match file_cell inode pos with
  | None => 0
  | Some (n, o) => default 0 (b ← segmentOf s inode n; b !! Z.to_nat o)
  end.

(** Objects and cache lines are far smaller than the integer range. *)
Definition maxObject : Z := 2 ^ 62.

(** Every byte the extents refer to exists, and the log segment is recorded. *)
Definition backed (s : vol) (inode : inMemoryInodeStruct) : Prop :=
  forall pos n o, file_cell inode pos = Some (n, o) ->
    n <> 0 /\ is_Some (logSegmentRecs (vhMaps (headhunterVolumeHandle s)) !! n) /\
    exists b, segmentOf s inode n = Some b /\ 0 <= o < zlen b /\ zlen b <= maxObject.

(** The cached lines of this volume are slices of the objects. *)
Definition coherent (s : vol) : Prop :=
  exists c, holds (flowControl s) c /\ 0 < readCacheLineSize (flowControl s) <= maxObject /\
    forall k line, (k, line) ∈ c -> rk_volumeName k = volumeName s ->
      exists b, objectOf s (rk_logSegmentNumber k) = Some b /\
        line = sliceOf b (rk_cacheLineTag k * readCacheLineSize (flowControl s)) (readCacheLineSize (flowControl s)).

(** Reading may load nodes and cache lines; it changes nothing a file's bytes
    depend on. *)
Record reads (s s' : vol) : Prop := {
  rd_volumeName : volumeName s' = volumeName s;
  rd_accountName : accountName s' = accountName s;
  rd_heap : inodeHeap s' = inodeHeap s;
  rd_cache : inodeCache s' = inodeCache s;
  rd_maps : vhMaps (headhunterVolumeHandle s') = vhMaps (headhunterVolumeHandle s);
  rd_view : swView (swift s') = swView (swift s);
  rd_lineSize : readCacheLineSize (flowControl s') = readCacheLineSize (flowControl s);
  rd_flushSize : maxFlushSize (flowControl s') = maxFlushSize (flowControl s);
  rd_layout : defaultPhysicalContainerLayout s' = defaultPhysicalContainerLayout s
}.

#[local] Instance reads_preorder : PreOrder reads.
Proof. split; [by constructor|]. intros s1 s2 s3 [] []. constructor; congruence. Qed.

Lemma objectOf_reads s s' n : reads s s' -> objectOf s' n = objectOf s n.
Proof. intros Hr. unfold objectOf. by rewrite (rd_maps _ _ Hr), (rd_view _ _ Hr), (rd_accountName _ _ Hr). Qed.

Lemma segmentOf_reads s s' inode n : reads s s' -> segmentOf s' inode n = segmentOf s inode n.
Proof. intros Hr. unfold segmentOf. rewrite (objectOf_reads _ _ _ Hr). destruct Hr. by rewrite rd_view0. Qed.

Lemma content_reads s s' inode pos : reads s s' -> content s' inode pos = content s inode pos.
Proof.
  intros Hr. unfold content. destruct (file_cell inode pos) as [[n o]|]; [|done].
  by rewrite (segmentOf_reads _ _ _ _ Hr).
Qed.

Lemma backed_reads s s' inode : reads s s' -> backed s inode -> backed s' inode.
Proof.
  intros Hr Hb pos n o Hc. rewrite (segmentOf_reads _ _ _ _ Hr), (rd_maps _ _ Hr). by eapply Hb.
Qed.

(** ** The read cache *)

Lemma onFlow_ret {A} (f : flowControlStruct -> res (flowControlStruct * A)) (s : vol) f' a :
  f (flowControl s) = Ret (f', a) -> onFlow f s = (s <| flowControl := f' |>, Ret a).
Proof. intros Hf. unfold onFlow. by rewrite Hf. Qed.

Lemma lruRemove_incl k c b c' : lruRemove k c = Some (b, c') -> (k, b) ∈ c /\ c' ⊆ c.
Proof.
  intros (c1 & c2 & -> & ->)%lruRemove_Some. split.
  - apply elem_of_app. right. by apply elem_of_cons; left.
  - intros y. rewrite !elem_of_app, elem_of_cons. tauto.
Qed.

Definition lineOf (s : vol) (b : bytes) (tag : Z) : bytes :=
  sliceOf b (tag * readCacheLineSize (flowControl s)) (readCacheLineSize (flowControl s)).

(** The step names the object of its log segment. *)
Definition step_of (s : vol) (step : ReadPlanStep) (b : bytes) : Prop :=
  exists rec, logSegmentRecs (vhMaps (headhunterVolumeHandle s)) !! rps_LogSegmentNumber step = Some rec /\
    rps_AccountName step = accountName s /\ rps_ContainerName step = ByteSliceToString rec /\
    rps_ObjectName step = Uint64ToHexStr (rps_LogSegmentNumber step) /\
    objectOf s (rps_LogSegmentNumber step) = Some b.

Lemma step_of_reads s s' step b : reads s s' -> step_of s step b -> step_of s' step b.
Proof.
  intros Hr (rec & Hrec & Hrest). exists rec.
  by rewrite (rd_maps _ _ Hr), (rd_accountName _ _ Hr), (objectOf_reads _ _ _ Hr).
Qed.

Lemma reads_flow (s : vol) f :
  readCacheLineSize f = readCacheLineSize (flowControl s) -> maxFlushSize f = maxFlushSize (flowControl s) ->
  reads s (s <| flowControl := f |>).
Proof. intros Hl Hm. by constructor. Qed.

(** The lines of an abstract cache are slices of objects of [s]. *)
Definition linesOk (s : vol) (c : lru) : Prop :=
  forall k line, (k, line) ∈ c -> rk_volumeName k = volumeName s ->
    exists b, objectOf s (rk_logSegmentNumber k) = Some b /\ line = lineOf s b (rk_cacheLineTag k).

Lemma linesOk_reads s s' c : reads s s' -> linesOk s c -> linesOk s' c.
Proof.
  intros Hr Hok k line Hin Hv. rewrite (rd_volumeName _ _ Hr) in Hv.
  destruct (Hok k line Hin Hv) as (b & Hb & ->). exists b. rewrite (objectOf_reads _ _ _ Hr).
  unfold lineOf. by rewrite (rd_lineSize _ _ Hr).
Qed.

Lemma coherent_flow s s' f c :
  s' = s <| flowControl := f |> -> reads s s' -> holds f c -> linesOk s c ->
  0 < readCacheLineSize (flowControl s) <= maxObject -> coherent s'.
Proof.
  intros -> Hr Hh Hok Hls. exists c. split; [done|]. split.
  - pose proof (rd_lineSize _ _ Hr) as Hl. cbn in *. by rewrite Hl.
  - exact (linesOk_reads _ _ _ Hr Hok).
Qed.

Lemma lookupLine_flushSize f k f' o : lookupLine f k = Ret (f', o) -> maxFlushSize f' = maxFlushSize f.
Proof.
  unfold lookupLine, touch, unlink, linkFront, setNext, setPrev, deref.
  intros HE. repeat (case_match; simplify_eq/=; try done).
Qed.

Lemma insertLine_flushSize f k b f' : insertLine f k b = Ret f' -> maxFlushSize f' = maxFlushSize f.
Proof.
  unfold insertLine, evictIfFull, setNext, setPrev, deref.
  intros HE. repeat (case_match; simplify_eq/=; try done).
Qed.

Lemma fetchCacheLine_ok s step tag b :
  coherent s -> step_of s step b -> 0 <= tag -> tag * readCacheLineSize (flowControl s) < zlen b -> zlen b <= maxObject ->
  exists s', fetchCacheLine step tag s = (s', Ret (lineOf s b tag)) /\ reads s s' /\ coherent s'.
Proof.
  intros (c & Hh & Hls & Hok) (rec & Hrec & Ha & Hc & Ho & Hobj) Ht Hlt Hb.
  set (ls := readCacheLineSize (flowControl s)) in *.
  set (key := mkKey (volumeName s) (rps_LogSegmentNumber step) tag).
  pose proof (lookupLine_holds (flowControl s) c key Hh) as Hlk.
  unfold fetchCacheLine. fold ls key. cbn [sget sbind]. fold key ls.
  destruct (lruGet key c) as [[line c']|] eqn:Eg.
  - unfold lruGet in Eg. destruct (lruRemove key c) as [[line' c1]|] eqn:Er; [|done]. simplify_eq.
    destruct (lruRemove_incl _ _ _ _ Er) as [Hin Hsub].
    destruct (Hok _ _ Hin eq_refl) as (b' & Hb' & ->). cbn in Hb'.
    assert (b' = b) as -> by congruence.
    destruct Hlk as (f' & Hlk & Hh' & _ & Hl').
    set (s' := s <| flowControl := f' |>).
    assert (Hr : reads s s') by (apply reads_flow; [done | by eapply lookupLine_flushSize]).
    exists s'. split; [|split; [done|]].
    + by rewrite (sbind_ret _ _ _ _ _ (onFlow_ret _ s f' _ Hlk)).
    + apply (coherent_flow s s' f' ((key, lineOf s b tag) :: c1)); try done.
      intros k l [[= -> ->]|Hin2]%elem_of_cons Hv; [by apply Hok | by apply Hok; [apply Hsub|]].
  - rewrite (sbind_ret _ _ _ _ _ (onFlow_ret _ s (flowControl s) None Hlk)).
    replace (s <| flowControl := flowControl s |>) with s by (by destruct s).
    assert (Hobj' : objs (swView (swift s)) !! (rps_AccountName step, rps_ContainerName step, rps_ObjectName step) = Some b).
    { rewrite Ha, Hc, Ho. unfold objectOf in Hobj. by rewrite Hrec in Hobj. }
    assert (Hz : 0 <= zlen b) by apply zlen_nonneg.
    destruct (sd_objectGet _ _ _ (tag * ls) ls b (swift s) Hobj') as (w' & Hget & Hview); [nia|lia|].
    rewrite (umul_small tag ls) by (unfold maxObject, two64 in *; nia).
    set (s1 := s <| swift := w' |>).
    assert (Hr1 : reads s s1) by (constructor; done).
    rewrite (sbind_ret _ _ s s1 (sliceOf b (tag * ls) ls)).
    2: { unfold annotate, mapErr, onSwift. by rewrite Hget. }
    destruct (insertLine_holds (flowControl s) c key (sliceOf b (tag * ls) ls) Hh Eg) as (f' & Hins & Hh' & Hcnt & Hl').
    set (s2 := s1 <| flowControl := f' |>).
    assert (Hr2 : reads s1 s2) by (apply reads_flow; [done | by eapply insertLine_flushSize]).
    exists s2. split; [|split; [by transitivity s1|]].
    + assert (Hfl : onFlow (fun f => f0 <- insertLine f key (sliceOf b (tag * ls) ls) ;; Ret (f0, tt)) s1 = (s2, Ret tt)).
      { apply onFlow_ret. change (flowControl s1) with (flowControl s). by rewrite Hins. }
      by rewrite (sbind_ret _ _ _ _ _ Hfl).
    + eapply (coherent_flow s1 s2 f'); try done. apply (linesOk_reads s s1); [done|].
      intros k l [[= -> ->]|Hin]%elem_of_cons Hv; [by exists b|].
      apply Hok; [|done]. eapply subseteq_take. exact Hin.
Qed.

Lemma cutLine_ok (s : vol) line off len :
  0 <= off -> 0 <= len -> off + len <= zlen line -> zlen line < two64 ->
  cutLine line off len s = (s, Ret (sliceOf line off len)).
Proof.
  intros Ho Hl Hle Hb. unfold cutLine. rewrite uadd_small by lia.
  by rewrite !(proj2 (Z.ltb_ge _ _)) by lia.
Qed.

(** The line-by-line reading of a step returns the bytes of the object. *)
Lemma readLines_ok fuel : forall s step b off len,
  coherent s -> step_of s step b -> 0 <= off -> 0 <= len -> off + len <= zlen b -> zlen b <= maxObject ->
  (Z.to_nat len <= fuel)%nat ->
  exists s', readLines fuel step off len s = (s', Ret (sliceOf b off len)) /\ reads s s' /\ coherent s'.
Proof.
  induction fuel as [|fuel IH]; intros s step b off len Hc Hst Ho Hl Hle Hb Hf; cbn [readLines];
    destruct (Z.ltb_spec 0 len); try lia;
    try (exists s; split; [|by split]; assert (len = 0) as -> by lia; unfold sliceOf; done).
  pose proof Hc as (c0 & _ & Hls & _). unfold sget, sbind at 1.
  set (ls := readCacheLineSize (flowControl s)) in *.
  rewrite (proj2 (Z.eqb_neq ls 0)) by lia.
  pose proof (Z.mod_pos_bound off ls ltac:(lia)) as Hmod. pose proof (Z.div_mod off ls ltac:(lia)) as Hdm.
  pose proof (Z.div_pos off ls Ho ltac:(lia)) as Hq.
  set (tag := off / ls) in *. set (ho := off mod ls) in *. unfold maxObject in *.
  rewrite (uadd_small ho len) by (unfold two64; lia). rewrite (usub_small ls ho) by (unfold two64; lia).
  set (n := if ls <? ho + len then ls - ho else len).
  assert (Hn : 0 < n <= len /\ ho + n <= ls) by (unfold n; destruct (Z.ltb_spec ls (ho + len)); lia).
  destruct (fetchCacheLine_ok s step tag b) as (s1 & Hf1 & Hr1 & Hc1); try done; [fold ls; nia|].
  rewrite (sbind_ret _ _ _ _ _ Hf1).
  assert (Hll : zlen (lineOf s b tag) = Z.min ls (zlen b - tag * ls))
    by (unfold lineOf; apply zlen_sliceOf_line; fold ls; nia).
  rewrite (sbind_ret _ _ _ _ _ (cutLine_ok s1 (lineOf s b tag) ho n ltac:(lia) ltac:(lia) ltac:(nia)
             ltac:(unfold two64; lia))).
  rewrite (uadd_small off n), (usub_small len n) by (unfold two64; lia).
  destruct (IH s1 step b (off + n) (len - n)) as (s2 & Hrl & Hr2 & Hc2); try done; try lia.
  { by eapply step_of_reads. }
  rewrite (sbind_ret _ _ _ _ _ Hrl). exists s2. split; [|split; [by transitivity s1|done]].
  unfold sret. do 2 f_equal. unfold lineOf. fold ls.
  rewrite sliceOf_sliceOf by (nia || lia). replace (tag * ls + ho) with off by lia.
  rewrite sliceOf_app by lia. f_equal. lia.
Qed.

(** ** Executing a plan *)

(** The bytes a step stands for. *)
Definition step_bytes (s : vol) (inode : inMemoryInodeStruct) (step : ReadPlanStep) : bytes :=
  if rps_LogSegmentNumber step =? 0 then repeat 0 (Z.to_nat (rps_Length step))
  else sliceOf (default [] (segmentOf s inode (rps_LogSegmentNumber step))) (rps_Offset step) (rps_Length step).

(** A step whose bytes exist. *)
Definition step_ok (s : vol) (inode : inMemoryInodeStruct) (step : ReadPlanStep) : Prop :=
  0 < rps_Length step <= 2 ^ 48 /\
  (rps_LogSegmentNumber step <> 0 ->
   exists b, segmentOf s inode (rps_LogSegmentNumber step) = Some b /\ 0 <= rps_Offset step /\
     rps_Offset step + rps_Length step <= zlen b /\ zlen b <= maxObject /\
     (inFlightLogSegmentMap inode !! rps_LogSegmentNumber step = None -> step_of s step b)).

Lemma step_ok_reads s s' inode step : reads s s' -> step_ok s inode step -> step_ok s' inode step.
Proof.
  intros Hr [Hl Hb]. split; [done|]. intros Hn. destruct (Hb Hn) as (b & Hs & Ho & Hle & Hm & Hst).
  exists b. rewrite (segmentOf_reads _ _ _ _ Hr). split_and!; try done.
  intros Hi. by eapply step_of_reads; [|apply Hst].
Qed.

Lemma step_bytes_reads s s' inode step : reads s s' -> step_bytes s' inode step = step_bytes s inode step.
Proof. intros Hr. unfold step_bytes. by rewrite (segmentOf_reads _ _ _ _ Hr). Qed.

Lemma getInode_ok (s : vol) p inode : inodeHeap s !! p = Some inode -> getInode p s = (s, Ret inode).
Proof. intros Hp. unfold getInode. by rewrite Hp. Qed.

(** A step of a log segment that is in flight. *)
Lemma readInFlight_ok s p inode step :
  inodeHeap s !! p = Some inode -> step_ok s inode step -> rps_LogSegmentNumber step <> 0 ->
  exists s', reads s s' /\ (coherent s -> coherent s') /\
    match inFlightLogSegmentMap inode !! rps_LogSegmentNumber step with
    | Some _ => readInFlight p step s = (s', Ret (Some (step_bytes s inode step)))
    | None => s' = s /\ readInFlight p step s = (s, Ret None)
    end.
Proof.
  intros Hp [Hl Hb] Hn. destruct (Hb Hn) as (b & Hs & Ho & Hle & Hm & Hst).
  unfold readInFlight. rewrite (sbind_ret _ _ _ _ _ (getInode_ok s p inode Hp)).
  destruct (inFlightLogSegmentMap inode !! rps_LogSegmentNumber step) as [i|] eqn:Ei; [|by exists s].
  unfold segmentOf in Hs. rewrite Ei in Hs. destruct (ifl_context i) as [c|] eqn:Ec; [|done]. cbn in Hs.
  destruct (ctxs (swView (swift s)) !! c) as [[t b']|] eqn:Ectx; [|done]. cbn in Hs. injection Hs as ->.
  destruct (sd_ctxRead c (rps_Offset step) (rps_Length step) t b (swift s) Ectx) as (w' & Hcr & Hv); [lia..|].
  exists (s <| swift := w' |>).
  assert (Hr : reads s (s <| swift := w' |>)) by by constructor.
  split; [done|]. split.
  - intros (c0 & Hh & Hls & Hok). exists c0. split; [done|]. split; [done|]. exact (linesOk_reads _ _ _ Hr Hok).
  - rewrite (sbind_ret _ _ s (s <| swift := w' |>) (sliceOf b (rps_Offset step) (rps_Length step)))
      by (unfold annotate, mapErr, onSwift; by rewrite Hcr).
    unfold step_bytes, segmentOf. rewrite Ei, Ec. cbn. rewrite Ectx. cbn.
    by rewrite (proj2 (Z.eqb_neq _ _)) by done.
Qed.

Lemma zeros_ok (s : vol) n : n <= 2 ^ 48 -> zeros n s = (s, Ret (repeat 0 (Z.to_nat n))).
Proof. intros Hn. unfold zeros, makeOk. by rewrite (proj2 (Z.ltb_ge _ _)) by lia. Qed.

Lemma doStep_ok s p inode step :
  inodeHeap s !! p = Some inode -> coherent s -> step_ok s inode step ->
  exists s', doStep p step s = (s', Ret (step_bytes s inode step)) /\ reads s s' /\ coherent s'.
Proof.
  intros Hp Hc Hok. unfold doStep, step_bytes. rewrite (Z.eqb_sym 0).
  destruct (Z.eqb_spec (rps_LogSegmentNumber step) 0) as [Hz|Hz].
  { exists s. split; [|by split]. destruct Hok as [Hl _]. by rewrite zeros_ok by lia. }
  destruct (readInFlight_ok s p inode step Hp Hok Hz) as (s1 & Hr1 & Hc1 & Hri).
  destruct (inFlightLogSegmentMap inode !! rps_LogSegmentNumber step) as [i|] eqn:Ei.
  { rewrite (sbind_ret _ _ _ _ _ Hri). exists s1. split; [|by split; [|apply Hc1]].
    unfold step_bytes. by rewrite (proj2 (Z.eqb_neq _ _)) by done. }
  destruct Hri as [-> Hri]. rewrite (sbind_ret _ _ _ _ _ Hri).
  destruct Hok as [Hl Hb]. destruct (Hb Hz) as (b & Hs & Ho & Hle & Hm & Hst).
  rewrite Hs. cbn [default]. apply readLines_ok; try done; [by apply Hst | lia].
Qed.

Lemma doSteps_ok p inode plan : forall s,
  inodeHeap s !! p = Some inode -> coherent s -> Forall (step_ok s inode) plan ->
  exists s', doSteps p plan s = (s', Ret (concat (step_bytes s inode <$> plan))) /\ reads s s' /\ coherent s'.
Proof.
  induction plan as [|step plan IH]; intros s Hp Hc Hok; cbn [doSteps]; [by exists s|].
  inversion Hok as [|? ? Hstep Hrest]; subst.
  destruct (doStep_ok s p inode step Hp Hc Hstep) as (s1 & Hs1 & Hr1 & Hc1).
  rewrite (sbind_ret _ _ _ _ _ Hs1).
  destruct (IH s1) as (s2 & Hs2 & Hr2 & Hc2); try done.
  { by rewrite (rd_heap _ _ Hr1). }
  { eapply Forall_impl; [exact Hrest|]. intros st. by apply step_ok_reads. }
  rewrite (sbind_ret _ _ _ _ _ Hs2). exists s2. split; [|split; [by transitivity s1|done]].
  assert (Heq : step_bytes s1 inode <$> plan = step_bytes s inode <$> plan)
    by (apply list_fmap_ext; intros i st _; by apply step_bytes_reads).
  by rewrite Heq.
Qed.

(** The special cases of [doReadPlan] return what the general case would. *)
Lemma doReadPlan_ok s p inode plan :
  inodeHeap s !! p = Some inode -> coherent s -> Forall (step_ok s inode) plan -> plan_len plan <= 2 ^ 48 ->
  exists s', doReadPlan p plan (plan_len plan) s = (s', Ret (concat (step_bytes s inode <$> plan))) /\
    reads s s' /\ coherent s'.
Proof.
  intros Hp Hc Hok Hlen. pose proof Hc as (c0 & _ & Hls & _).
  assert (Hgen : exists s', (makeOk (plan_len plan) ;;~ doSteps p plan) s
            = (s', Ret (concat (step_bytes s inode <$> plan))) /\ reads s s' /\ coherent s').
  { unfold makeOk. rewrite (proj2 (Z.ltb_ge _ _)) by lia. unfold sret, sbind at 1. by apply doSteps_ok. }
  destruct plan as [|step [|step2 plan]]; [exact Hgen| |exact Hgen].
  inversion Hok as [|? ? Hstep _]; subst. cbn [fmap list_fmap concat] in *. rewrite app_nil_r in *.
  cbn [doReadPlan]. rewrite (Z.eqb_sym 0).
  destruct (Z.eqb_spec (rps_LogSegmentNumber step) 0) as [Hz|Hz].
  { exists s. split; [|by split]. destruct Hstep as [Hl _]. unfold step_bytes. rewrite Hz. by rewrite zeros_ok by lia. }
  destruct (readInFlight_ok s p inode step Hp Hstep Hz) as (s1 & Hr1 & Hc1 & Hri).
  destruct (inFlightLogSegmentMap inode !! rps_LogSegmentNumber step) as [i|] eqn:Ei.
  { rewrite (sbind_ret _ _ _ _ _ Hri). exists s1. by split; [|split; [|apply Hc1]]. }
  destruct Hri as [-> Hri]. rewrite (sbind_ret _ _ _ _ _ Hri). unfold sget, sbind at 1.
  set (ls := readCacheLineSize (flowControl s)) in *. rewrite (proj2 (Z.eqb_neq ls 0)) by lia.
  destruct Hstep as [Hl Hb]. destruct (Hb Hz) as (b & Hs & Ho & Hle & Hm & Hst). specialize (Hst Ei).
  set (off := rps_Offset step) in *. set (len := rps_Length step) in *. unfold maxObject in *.
  pose proof (Z.mod_pos_bound off ls ltac:(lia)) as Hmod. pose proof (Z.div_mod off ls ltac:(lia)) as Hdm.
  pose proof (Z.div_pos off ls Ho ltac:(lia)) as Hq.
  rewrite uadd_small by (unfold two64; lia).
  destruct (Z.leb_spec (off mod ls + len) ls); [|exact Hgen].
  destruct (fetchCacheLine_ok s step (off / ls) b) as (s1 & Hf1 & Hr1' & Hc1'); try done; [fold ls; nia|].
  rewrite (sbind_ret _ _ _ _ _ Hf1). exists s1. split; [|done].
  assert (Hll : zlen (lineOf s b (off / ls)) = Z.min ls (zlen b - off / ls * ls))
    by (unfold lineOf; apply zlen_sliceOf_line; fold ls; nia).
  rewrite cutLine_ok by (nia || (unfold two64; lia)). do 2 f_equal.
  unfold step_bytes. rewrite (proj2 (Z.eqb_neq _ _)), Hs by done. cbn [default].
  unfold lineOf. fold ls. rewrite sliceOf_sliceOf by (nia || lia). f_equal. lia.
Qed.

(** ** From the plan to the file *)

Lemma cell_at_own exts : forall lo hi k e,
  ext_chain lo exts hi -> (k, e) ∈ exts -> cell_at exts (FileOffset e) = Some (LogSegmentNumber e, LogSegmentOffset e).
Proof.
  induction exts as [|[k' e'] exts IH]; intros lo hi k e Hc Hin; [by apply not_elem_of_nil in Hin|].
  destruct Hc as (-> & Hlo & (Hl & _) & Hc). cbn [cell_at].
  apply elem_of_cons in Hin as [[= -> ->]|Hin].
  - rewrite (proj2 (Z.leb_le _ _)), (proj2 (Z.ltb_lt _ _)) by (unfold extEnd; lia). cbn. do 2 f_equal. lia.
  - assert (Hge : extEnd e' <= FileOffset e).
    { pose proof (IH _ _ _ _ Hc Hin) as Hcell. by destruct (cell_at_range _ _ _ _ _ Hc Hcell). }
    rewrite (proj2 (Z.ltb_ge _ _)) by lia. rewrite andb_false_r. by eapply IH.
Qed.

Lemma step_content s inode step off :
  0 <= rps_Length step ->
  (forall i, 0 <= i < rps_Length step -> file_cell inode (off + i) =
     if rps_LogSegmentNumber step =? 0 then None else Some (rps_LogSegmentNumber step, rps_Offset step + i)) ->
  (rps_LogSegmentNumber step <> 0 -> exists b, segmentOf s inode (rps_LogSegmentNumber step) = Some b /\
     0 <= rps_Offset step /\ rps_Offset step + rps_Length step <= zlen b) ->
  step_bytes s inode step = content s inode <$> seqZ off (rps_Length step).
Proof.
  intros Hl Hcell Hseg. set (n := rps_LogSegmentNumber step) in *. set (len := rps_Length step) in *.
  apply list_eq_same_length with (Z.to_nat len).
  { by rewrite length_fmap, length_seqZ. }
  { unfold step_bytes. fold n len. destruct (Z.eqb_spec n 0); [apply repeat_length|].
    destruct (Hseg n0) as (b & -> & Ho & Hle). change (default [] (Some b)) with b.
    pose proof (zlen_sliceOf b _ len Ho Hl Hle). unfold zlen in *. lia. }
  intros i x y Hi Hx Hy. rewrite list_lookup_fmap, lookup_seqZ_lt in Hy by lia. cbn in Hy. injection Hy as <-.
  unfold content. rewrite Hcell by lia. unfold step_bytes in Hx. fold n len in Hx.
  destruct (Z.eqb_spec n 0) as [Hz|Hz].
  - apply nth_lookup_Some with (d := 0) in Hx. by rewrite nth_repeat in Hx.
  - destruct (Hseg Hz) as (b & Hb & Ho & Hle). rewrite Hb in Hx |- *. change (default [] (Some b)) with b in Hx. cbn [mbind option_bind].
    rewrite <- (Nat2Z.id i) in Hx. rewrite lookup_sliceOf in Hx by lia. by rewrite Hx.
Qed.

Lemma plan_content s inode plan : forall off,
  steps_nonempty plan ->
  (forall i, 0 <= i < plan_len plan -> plan_cell plan i = file_cell inode (off + i)) ->
  Forall (fun st => rps_LogSegmentNumber st <> 0 -> exists b, segmentOf s inode (rps_LogSegmentNumber st) = Some b /\
     0 <= rps_Offset st /\ rps_Offset st + rps_Length st <= zlen b) plan ->
  concat (step_bytes s inode <$> plan) = content s inode <$> seqZ off (plan_len plan).
Proof.
  induction plan as [|st plan IH]; intros off Hne Hcell Hseg; [done|].
  inversion Hne as [|? ? Hl Hne']; inversion Hseg as [|? ? Hst Hseg']; subst.
  pose proof (plan_len_nonneg _ Hne') as Hp. rewrite plan_len_cons in *.
  rewrite seqZ_app, fmap_app, fmap_cons by lia. cbn [concat]. f_equal.
  - apply step_content; [lia| |done]. intros i Hi. rewrite <- Hcell by lia. cbn [plan_cell].
    by rewrite (proj2 (Z.ltb_lt _ _)) by lia.
  - apply IH; [done| |done]. intros i Hi. replace (off + rps_Length st + i) with (off + (rps_Length st + i)) by lia.
    rewrite <- Hcell by lia. cbn [plan_cell]. rewrite (proj2 (Z.ltb_ge _ _)) by lia. f_equal. lia.
Qed.

Lemma plan_cell_step plan st :
  steps_nonempty plan -> st ∈ plan ->
  exists base, 0 <= base /\ base + rps_Length st <= plan_len plan /\
    forall i, 0 <= i < rps_Length st -> plan_cell plan (base + i) =
      if rps_LogSegmentNumber st =? 0 then None else Some (rps_LogSegmentNumber st, rps_Offset st + i).
Proof.
  intros Hne (p1 & p2 & ->)%list_elem_of_split.
  apply Forall_app in Hne as [Hne1 Hne2]. pose proof (plan_len_nonneg _ Hne1).
  inversion Hne2 as [|? ? Hl Hne3]; subst. pose proof (plan_len_nonneg _ Hne3).
  exists (plan_len p1). rewrite plan_len_app, plan_len_cons. split; [done|]. split; [lia|].
  intros i Hi. rewrite plan_cell_app by (done || lia).
  rewrite (proj2 (Z.ltb_ge _ _)) by lia. replace (plan_len p1 + i - plan_len p1) with i by lia.
  cbn [plan_cell]. by rewrite (proj2 (Z.ltb_lt _ _)) by lia.
Qed.

Lemma coherent_reads s s' : reads s s' -> flowControl s' = flowControl s -> coherent s -> coherent s'.
Proof.
  intros Hr Hf (c & Hh & Hls & Hok). exists c. rewrite Hf. split; [done|]. split; [done|].
  rewrite <- Hf. exact (linesOk_reads _ _ _ Hr Hok).
Qed.

(** The location [getObjectLocationFromLogSegmentNumber] returns. *)
Definition locationOf (s : vol) (n : Z) : string * string * string :=
  let containerName :=
    match logSegmentRecs (vhMaps (headhunterVolumeHandle s)) !! n with
    | Some rec => ByteSliceToString rec
    | None => EmptyString
    end in
  (containerName, Uint64ToHexStr n,
   "/v1/" +:+ accountName s +:+ "/" +:+ containerName +:+ "/" +:+ Uint64ToHexStr n)%string.

Lemma getObjectLocation_ok s n rec :
  logSegmentRecs (vhMaps (headhunterVolumeHandle s)) !! n = Some rec ->
  exists s', getObjectLocationFromLogSegmentNumber n s = (s', Ret (locationOf s n)) /\ reads s s' /\
    flowControl s' = flowControl s.
Proof.
  intros Hrec. destruct (vh_getLogSegmentRec_live n rec _ Hrec) as (v' & Hget & Hmaps).
  exists (s <| headhunterVolumeHandle := v' |>). split; [|split; [by constructor|done]].
  unfold locationOf. rewrite Hrec. unfold getObjectLocationFromLogSegmentNumber, getLogSegmentContainer, onHeadhunter.
  unfold sbind at 1 2. by rewrite Hget.
Qed.

Lemma locationOf_reads s s' n : reads s s' -> locationOf s' n = locationOf s n.
Proof. intros Hr. unfold locationOf. by rewrite (rd_maps _ _ Hr), (rd_accountName _ _ Hr). Qed.

(** Every segment of a backed file is located and not segment 0. *)
Lemma backed_located s inode exts :
  payload inode = FilePayload exts -> ext_wf exts -> backed s inode ->
  segs_nonzero exts /\
  located getObjectLocationFromLogSegmentNumber (fun w => reads s w /\ (coherent s -> coherent w)) (locationOf s) exts.
Proof.
  intros Hpl Hwf Hb.
  assert (Hown : forall k e, (k, e) ∈ exts -> file_cell inode (FileOffset e) = Some (LogSegmentNumber e, LogSegmentOffset e)).
  { intros k e Hin. unfold file_cell. rewrite Hpl. by eapply cell_at_own. }
  split; apply Forall_forall; intros [k e] Hin; destruct (Hb _ _ _ (Hown k e Hin)) as (Hnz & [rec Hrec] & _); [done|].
  cbn [snd]. intros w [Hr Hc]. pose proof Hrec as Hrec'. rewrite <- (rd_maps _ _ Hr) in Hrec'.
  destruct (getObjectLocation_ok w _ rec Hrec') as (w' & Hg & Hr' & Hf). exists w'.
  rewrite (locationOf_reads _ _ _ Hr) in Hg. split; [exact Hg|]. split; [by transitivity w|].
  intros Hcs. by eapply coherent_reads; [exact Hr'|done|apply Hc].
Qed.

(** The steps of a plan that covers a range of a backed file can be read. *)
Lemma plan_steps_ok s inode plan off :
  backed s inode -> steps_nonempty plan -> Forall (step_named (accountName s) (locationOf s)) plan ->
  plan_len plan <= 2 ^ 48 ->
  (forall i, 0 <= i < plan_len plan -> plan_cell plan i = file_cell inode (off + i)) ->
  Forall (step_ok s inode) plan.
Proof.
  intros Hb Hne Hnm Hlen Hcell. apply Forall_forall. intros st Hin.
  destruct (plan_cell_step plan st Hne Hin) as (base & Hbase & Hle & Hc).
  pose proof (proj1 (Forall_forall _ _) Hne st Hin) as Hl. cbn in Hl. split; [lia|]. intros Hnz.
  assert (Hcell' : forall i, 0 <= i < rps_Length st ->
            file_cell inode (off + (base + i)) = Some (rps_LogSegmentNumber st, rps_Offset st + i)).
  { intros i Hi. rewrite <- Hcell, Hc by lia. by rewrite (proj2 (Z.eqb_neq _ _)) by done. }
  destruct (Hb _ _ _ (Hcell' 0 ltac:(lia))) as (_ & [rec Hrec] & b & Hs & Hfirst & Hm).
  destruct (Hb _ _ _ (Hcell' (rps_Length st - 1) ltac:(lia))) as (_ & _ & b' & Hs' & Hlast & _).
  assert (b' = b) as -> by congruence.
  exists b. split; [done|]. split; [lia|]. split; [lia|]. split; [done|]. intros Hno.
  destruct (proj1 (Forall_forall _ _) Hnm st Hin Hnz) as [Ha Hloc]. unfold locationOf in Hloc. rewrite Hrec in Hloc.
  injection Hloc as Hcn Hon _. exists rec. split_and!; try done.
  unfold segmentOf in Hs. by rewrite Hno in Hs.
Qed.

Lemma fetchInodeType_cached (s : vol) n p inode t :
  inodeCache s !! n = Some p -> inodeHeap s !! p = Some inode -> InodeType (onDisk inode) = t ->
  fetchInodeType n t s = (s, Ret p).
Proof.
  intros Hc Hp <-. unfold fetchInodeType, fetchInode. unfold sget, sbind at 1 2. rewrite Hc. cbn [sret].
  rewrite (sbind_ret _ _ _ _ _ (getInode_ok s p inode Hp)). by rewrite Z.eqb_refl.
Qed.

Lemma Read_ok s n p inode off len :
  inodeCache s !! n = Some p -> inodeHeap s !! p = Some inode -> InodeType (onDisk inode) = FileType ->
  file_wf inode -> backed s inode -> coherent s -> 0 <= Size (onDisk inode) <= maxOffset ->
  0 <= off -> 0 <= len -> off + len < two64 -> clip (Size (onDisk inode)) off len <= 2 ^ 48 ->
  exists s', Read n off len s = (s', Ret (content s inode <$> seqZ off (clip (Size (onDisk inode)) off len))) /\
    reads s s' /\ coherent s'.
Proof.
  intros Hca Hp Ht (exts & Hpl & Hwf & _) Hb Hc Hsz Ho Hl Hol Hclip.
  destruct (backed_located s inode exts Hpl Hwf Hb) as [Hnz Hloc].
  unfold Read. rewrite (sbind_ret _ _ _ _ _ (fetchInodeType_cached s n p inode FileType Hca Hp Ht)).
  rewrite (sbind_ret _ _ _ _ _ (getInode_ok s p inode Hp)). unfold sget, sbind at 1.
  destruct (getReadPlanHelper_ok (accountName s) getObjectLocationFromLogSegmentNumber
              (fun w => reads s w /\ (coherent s -> coherent w)) (locationOf s) inode exts (Some off) (Some len) off len s)
    as (s1 & plan & Hplan & [Hr1 Hc1] & Hlen & [Hne Hnm] & Hcell); try done.
  rewrite (sbind_ret _ _ _ _ _ Hplan). rewrite <- Hlen in *.
  assert (Hsteps : Forall (step_ok s inode) plan) by (by eapply plan_steps_ok).
  destruct (doReadPlan_ok s1 p inode plan) as (s2 & Hs2 & Hr2 & Hc2); try done.
  { by rewrite (rd_heap _ _ Hr1). }
  { by apply Hc1. }
  { eapply Forall_impl; [exact Hsteps|]. intros st. by apply step_ok_reads. }
  exists s2. split; [|split; [by transitivity s1|done]]. rewrite Hs2. do 2 f_equal.
  rewrite <- (plan_content s inode plan off); try done.
  - f_equal. apply list_fmap_ext. intros i st _. by apply step_bytes_reads.
  - eapply Forall_impl; [exact Hsteps|]. intros st [_ Hst] Hz. destruct (Hst Hz) as (b & ? & ? & ? & _). by exists b.
Qed.

(** ** Writing *)

(** The in-flight log segments of an inode: each has a context of its own,
    started for the object its record names, and the open one is among them. *)
Definition flights (s : vol) (inode : inMemoryInodeStruct) : Prop :=
  (forall n i, inFlightLogSegmentMap inode !! n = Some i -> exists c (b rec : bytes),
     ifl_context i = Some c /\ n <> 0 /\ zlen b <= maxObject /\
     logSegmentRecs (vhMaps (headhunterVolumeHandle s)) !! n = Some rec /\
     ctxs (swView (swift s)) !! c = Some ((accountName s, ByteSliceToString rec, Uint64ToHexStr n), b)) /\
  (forall n n' i i', inFlightLogSegmentMap inode !! n = Some i -> inFlightLogSegmentMap inode !! n' = Some i' ->
     ifl_context i = ifl_context i' -> n = n') /\
  (forall n, openLogSegment inode = Some n -> is_Some (inFlightLogSegmentMap inode !! n)).

(** Where the log segments of an inode are: those in flight are the open one
    and those being flushed, and only recorded log segments that are not in
    flight have objects. *)
Record tracked (s : vol) (inode : inMemoryInodeStruct) : Prop := {
  tk_u64 n rec : logSegmentRecs (vhMaps (headhunterVolumeHandle s)) !! n = Some rec -> is_u64 n;
  tk_objs c n b : is_u64 n -> objs (swView (swift s)) !! (accountName s, c, Uint64ToHexStr n) = Some b ->
    is_Some (logSegmentRecs (vhMaps (headhunterVolumeHandle s)) !! n);
  tk_new c n : is_Some (inFlightLogSegmentMap inode !! n) ->
    objs (swView (swift s)) !! (accountName s, c, Uint64ToHexStr n) = None;
  tk_nodup : NoDup (flushing inode);
  tk_flushing n : n ∈ flushing inode -> is_Some (inFlightLogSegmentMap inode !! n);
  tk_open n : openLogSegment inode = Some n -> n ∉ flushing inode;
  tk_all n : is_Some (inFlightLogSegmentMap inode !! n) -> openLogSegment inode = Some n \/ n ∈ flushing inode
}.

(** Recorded log segments keep their records and their bytes; they may grow. *)
Record grows (s : vol) (inode : inMemoryInodeStruct) (s' : vol) (inode' : inMemoryInodeStruct) : Prop := {
  gr_recs n rec : logSegmentRecs (vhMaps (headhunterVolumeHandle s)) !! n = Some rec ->
    logSegmentRecs (vhMaps (headhunterVolumeHandle s')) !! n = Some rec;
  gr_segs n b : is_Some (logSegmentRecs (vhMaps (headhunterVolumeHandle s)) !! n) ->
    segmentOf s inode n = Some b -> exists d, segmentOf s' inode' n = Some (b ++ d) /\
    (zlen b <= maxObject -> zlen (b ++ d) <= maxObject)
}.

Lemma grows_refl s inode : grows s inode s inode.
Proof. constructor; [done|]. intros n b _ Hb. exists []. by rewrite app_nil_r. Qed.

Lemma grows_trans s1 i1 s2 i2 s3 i3 : grows s1 i1 s2 i2 -> grows s2 i2 s3 i3 -> grows s1 i1 s3 i3.
Proof.
  intros [Hr1 Hs1] [Hr2 Hs2]. constructor; [by eauto|]. intros n b Hrec Hb.
  destruct (Hs1 n b Hrec Hb) as (d1 & Hd1 & Hm1).
  destruct (Hs2 n (b ++ d1)) as (d2 & Hd2 & Hm2); [destruct Hrec as [rec Hrec]; eauto|done|].
  exists (d1 ++ d2). rewrite app_assoc. auto.
Qed.

Lemma backed_grows s inode s' inode' :
  grows s inode s' inode' -> (forall pos, file_cell inode' pos = file_cell inode pos) -> backed s inode -> backed s' inode'.
Proof.
  intros [Hr Hs] Hcell Hb pos n o Hc. rewrite Hcell in Hc.
  destruct (Hb _ _ _ Hc) as (Hn & Hrec & b & Hseg & Ho & Hm). split; [done|].
  split; [destruct Hrec as [rec Hrec]; eauto|].
  destruct (Hs n b Hrec Hseg) as (d & Hd & Hm'). exists (b ++ d). split; [done|]. split; [|auto].
  rewrite zlen_app. pose proof (zlen_nonneg d). lia.
Qed.

(** Bytes that exist are not changed by growing. *)
Lemma byte_grows s inode s' inode' n o b :
  grows s inode s' inode' -> is_Some (logSegmentRecs (vhMaps (headhunterVolumeHandle s)) !! n) ->
  segmentOf s inode n = Some b -> 0 <= o < zlen b ->
  (b' ← segmentOf s' inode' n; b' !! Z.to_nat o) = b !! Z.to_nat o.
Proof.
  intros [_ Hs] Hrec Hseg Ho. destruct (Hs n b Hrec Hseg) as (d & -> & _). cbn.
  unfold bytes in *. rewrite lookup_app_l; [done|]. unfold zlen in Ho. lia.
Qed.

Lemma content_grows s inode s' inode' pos :
  grows s inode s' inode' -> backed s inode -> file_cell inode' pos = file_cell inode pos ->
  content s' inode' pos = content s inode pos.
Proof.
  intros Hg Hb Hcell. unfold content. rewrite Hcell. destruct (file_cell inode pos) as [[n o]|] eqn:E; [|done].
  destruct (Hb _ _ _ E) as (_ & Hrec & b & Hseg & Ho & _).
  rewrite (byte_grows _ _ _ _ _ _ _ Hg Hrec Hseg Ho). by rewrite Hseg.
Qed.

(** *** Provisioning *)

Definition layout_ok (l : physicalContainerLayoutStruct) : Prop :=
  0 <= physicalContainerNameSliceNextIndex l < physicalContainerCountMax l /\
  physicalContainerCountMax l < two64 - 1 /\
  zlen (physicalContainerNameSlice l) = physicalContainerCountMax l.

(** The state after a call that used the volume handle, Swift and the layout
    but changed no record and no byte. *)
Record sameData (s s' : vol) : Prop := {
  sm_volumeName : volumeName s' = volumeName s;
  sm_accountName : accountName s' = accountName s;
  sm_heap : inodeHeap s' = inodeHeap s;
  sm_cache : inodeCache s' = inodeCache s;
  sm_maps : vhMaps (headhunterVolumeHandle s') = vhMaps (headhunterVolumeHandle s);
  sm_view : swView (swift s') = swView (swift s);
  sm_flow : flowControl s' = flowControl s
}.

#[local] Instance sameData_preorder : PreOrder sameData.
Proof. split; [by constructor|]. intros s1 s2 s3 [] []. constructor; congruence. Qed.

(** The next nonce still fits in 64 bits. *)
Definition nonceInRange (s : vol) : Prop :=
  forall v' n, vhFetchNonce (headhunterVolumeHandle s) = (v', Ret n) -> n < two64.

Lemma fetchNonce_ok (s : vol) :
  exists s' n, onHeadhunter vhFetchNonce s = (s', Ret n) /\ sameData s s' /\
    defaultPhysicalContainerLayout s' = defaultPhysicalContainerLayout s /\
    (0 < n /\ (nonceInRange s -> n < two64)) /\ logSegmentRecs (vhMaps (headhunterVolumeHandle s')) !! n = None.
Proof.
  destruct (vh_fetchNonce_live (headhunterVolumeHandle s)) as (v' & n & Hn & Hpos & Hfresh).
  exists (s <| headhunterVolumeHandle := v' |>), n. unfold onHeadhunter. rewrite Hn.
  pose proof (vh_nonce _ _ _ Hn) as Hm. cbn in Hm.
  split; [done|]. split; [by constructor|]. cbn. rewrite Hm. split_and!; try done.
  intros Hr. by eapply Hr.
Qed.

Lemma storeAt_ok {A} (l : list A) i v : 0 <= i < zlen l -> storeAt l i v = Ret (<[Z.to_nat i := v]> l).
Proof. intros Hi. unfold storeAt. by rewrite (proj2 (Z.leb_le _ _)), (proj2 (Z.ltb_lt _ _)) by lia. Qed.

Lemma loadAt_ok {A} (l : list A) i : 0 <= i < zlen l -> exists v, loadAt l i = Ret v.
Proof.
  intros Hi. unfold loadAt. rewrite (proj2 (Z.leb_le _ _)) by lia.
  destruct (lookup_lt_is_Some_2 l (Z.to_nat i)) as [v Hv]; [unfold zlen in Hi; lia|]. exists v. by rewrite Hv.
Qed.

Lemma provisionPhysicalContainer_ok (s : vol) :
  layout_ok (defaultPhysicalContainerLayout s) ->
  exists s', provisionPhysicalContainer s = (s', Ret tt) /\ sameData s s' /\
    layout_ok (defaultPhysicalContainerLayout s').
Proof.
  intros Hl. pose proof Hl as (Hi & Hm & Hz). unfold provisionPhysicalContainer, sget, sbind at 1.
  set (l := defaultPhysicalContainerLayout s) in *.
  rewrite (uadd_small _ 1) by lia. rewrite (proj2 (Z.eqb_neq (_ + 1) 0)) by lia.
  destruct (0 =? _ mod _); [|by exists s].
  destruct (fetchNonce_ok s) as (s1 & n & Hn & Hr1 & Hl1 & _).
  unfold stry, sbind at 1. rewrite Hn.
  set (name := (physicalContainerNamePrefix l +:+ Uint64ToHexStr n)%string).
  set (headers := {[ "X-Storage-Policy"%string := _ ]}).
  destruct (sd_containerPut (accountName s) name headers (swift s1)) as (w' & Hp & Hv).
  unfold onSwift, sbind at 1. rewrite Hp.
  rewrite storeAt_ok by lia. unfold slift, sbind at 1.
  eexists. split; [done|]. split.
  - destruct Hr1. by constructor; cbn; try congruence.
  - cbn. rewrite Hl1. fold l. split; [done|]. split; [done|]. cbn. unfold zlen. rewrite length_insert. done.
Qed.

Lemma advanceLayout_ok l : layout_ok l -> layout_ok (advanceLayout l).
Proof.
  intros (Hi & Hm & Hz). unfold advanceLayout. cbn. rewrite uadd_small by lia.
  destruct (Z.eqb_spec (physicalContainerNameSliceNextIndex l + 1) (physicalContainerCountMax l));
    unfold layout_ok; cbn; lia.
Qed.

Lemma provisionObject_ok (s : vol) :
  layout_ok (defaultPhysicalContainerLayout s) ->
  exists s' c n, provisionObject s = (s', Ret (c, n)) /\ sameData s s' /\
    layout_ok (defaultPhysicalContainerLayout s') /\
    (0 < n /\ (nonceInRange s -> n < two64)) /\ logSegmentRecs (vhMaps (headhunterVolumeHandle s')) !! n = None.
Proof.
  intros Hl. destruct (fetchNonce_ok s) as (s1 & n & Hn & Hsd1 & Hl1 & Hpos & Hfresh).
  unfold provisionObject. rewrite (sbind_ret _ _ _ _ _ Hn).
  destruct (provisionPhysicalContainer_ok s1) as (s2 & Hp & Hsd2 & Hl2); [by rewrite Hl1|].
  rewrite (sbind_ret _ _ _ _ _ Hp). unfold sget, sbind at 1.
  pose proof Hl2 as (Hi & Hm & Hz). destruct (loadAt_ok (physicalContainerNameSlice (defaultPhysicalContainerLayout s2))
    (physicalContainerNameSliceNextIndex (defaultPhysicalContainerLayout s2))) as [c Hc]; [lia|].
  rewrite Hc. unfold slift, sbind at 1. eexists _, c, n. split; [done|].
  split; [|split; [by apply advanceLayout_ok|]].
  - destruct Hsd1, Hsd2. by constructor; cbn; congruence.
  - split; [done|]. cbn. by rewrite (sm_maps _ _ Hsd2).
Qed.

(** What every step of a write keeps. *)
Record frame (s s' : vol) : Prop := {
  fr_volumeName : volumeName s' = volumeName s;
  fr_accountName : accountName s' = accountName s;
  fr_inodeCache : inodeCache s' = inodeCache s;
  fr_flow : flowControl s' = flowControl s
}.

#[local] Instance frame_preorder : PreOrder frame.
Proof. split; [by constructor|]. intros s1 s2 s3 [] []. constructor; congruence. Qed.

(** The state after the record and the context of a new log segment are in
    place. *)
Lemma new_segment_grows s s' inode n c ctx :
  frame s s' ->
  vhMaps (headhunterVolumeHandle s') = (vhMaps (headhunterVolumeHandle s))
    <| logSegmentRecs := <[n := StringToByteSlice c]> (logSegmentRecs (vhMaps (headhunterVolumeHandle s))) |> ->
  swView (swift s') = (swView (swift s))
    <| ctxs := <[ctx := ((accountName s, c, Uint64ToHexStr n), [])]> (ctxs (swView (swift s))) |> ->
  logSegmentRecs (vhMaps (headhunterVolumeHandle s)) !! n = None -> ctxs (swView (swift s)) !! ctx = None -> n <> 0 ->
  flights s inode -> coherent s ->
  let inode' := inode <| openLogSegment := Some n |>
    <| inFlightLogSegmentMap := <[n := mkInFlight n (accountName s) c (Uint64ToHexStr n) (Some ctx)]>
                                  (inFlightLogSegmentMap inode) |> in
  grows s inode s' inode' /\ flights s' inode' /\ coherent s' /\ segmentOf s' inode' n = Some [].
Proof.
  intros Hfr Hmaps Hview Hn Hctx Hnz (Hf1 & Hf2 & Hf3) (c0 & Hh & Hls & Hlines) inode'.
  assert (Hobj : forall m, m <> n -> objectOf s' m = objectOf s m).
  { intros m Hm. unfold objectOf. rewrite Hmaps, Hview, (fr_accountName _ _ Hfr). cbn. by rewrite lookup_insert_ne. }
  assert (Hrecne : forall m rec, logSegmentRecs (vhMaps (headhunterVolumeHandle s)) !! m = Some rec -> m <> n)
    by (intros m rec Hrec ->; congruence).
  assert (Hseg : forall m, m <> n -> segmentOf s' inode' m = segmentOf s inode m).
  { intros m Hm. unfold segmentOf, inode'. cbn. rewrite lookup_insert_ne by done. rewrite Hobj by done.
    destruct (inFlightLogSegmentMap inode !! m) as [i|] eqn:Ei; [|done].
    destruct (Hf1 m i Ei) as (c' & b & rec & Hc' & _ & _ & _ & Hcx). rewrite Hc', Hview. cbn.
    rewrite lookup_insert_ne; [done|]. intros ->. congruence. }
  split; [|split; [|split]].
  - constructor.
    + intros m rec Hrec. rewrite Hmaps. cbn. by rewrite lookup_insert_ne by (intros ->; congruence).
    + intros m b [rec Hrec] Hb. exists []. rewrite app_nil_r. split; [|done]. by rewrite Hseg by eauto.
  - split; [|split].
    + intros m i. unfold inode'. cbn. rewrite Hmaps, Hview, (fr_accountName _ _ Hfr). cbn.
      intros [[<- <-]|[Hne Hi]]%lookup_insert_Some.
      * exists ctx, [], (StringToByteSlice c). rewrite !lookup_insert_eq, ByteSliceToString_StringToByteSlice.
        split_and!; try done.
      * destruct (Hf1 m i Hi) as (c' & b & rec & Hc' & Hm0 & Hb & Hrec & Hcx). exists c', b, rec.
        rewrite !lookup_insert_ne by (done || (intros ->; congruence)). by split_and!.
    + intros m m' i i'. unfold inode'. cbn.
      intros [[<- <-]|[Hne Hi]]%lookup_insert_Some [[<- <-]|[Hne' Hi']]%lookup_insert_Some Heq; try done.
      * destruct (Hf1 _ _ Hi') as (c' & b & rec & Hc' & _ & _ & _ & Hcx). cbn in Heq. congruence.
      * destruct (Hf1 _ _ Hi) as (c' & b & rec & Hc' & _ & _ & _ & Hcx). cbn in Heq. congruence.
      * by eapply Hf2.
    + intros m [= <-]. unfold inode'. cbn. by rewrite lookup_insert_eq.
  - exists c0. rewrite (fr_flow _ _ Hfr). split; [done|]. split; [done|]. intros k line Hin Hv.
    rewrite (fr_volumeName _ _ Hfr) in Hv. destruct (Hlines k line Hin Hv) as (b & Hb & ->). exists b.
    split; [|done]. rewrite Hobj; [done|]. unfold objectOf in Hb.
    destruct (logSegmentRecs (vhMaps (headhunterVolumeHandle s)) !! rk_logSegmentNumber k) as [rec|] eqn:Erec;
      [by eapply Hrecne | discriminate Hb].
  - unfold segmentOf, inode'. cbn. rewrite lookup_insert_eq. cbn. rewrite Hview. cbn. by rewrite lookup_insert_eq.
Qed.

Lemma new_segment_tracked s s' inode n c ctx :
  frame s s' ->
  vhMaps (headhunterVolumeHandle s') = (vhMaps (headhunterVolumeHandle s))
    <| logSegmentRecs := <[n := StringToByteSlice c]> (logSegmentRecs (vhMaps (headhunterVolumeHandle s))) |> ->
  swView (swift s') = (swView (swift s))
    <| ctxs := <[ctx := ((accountName s, c, Uint64ToHexStr n), [])]> (ctxs (swView (swift s))) |> ->
  logSegmentRecs (vhMaps (headhunterVolumeHandle s)) !! n = None -> is_u64 n ->
  openLogSegment inode = None -> flights s inode -> tracked s inode ->
  tracked s' (inode <| openLogSegment := Some n |>
    <| inFlightLogSegmentMap := <[n := mkInFlight n (accountName s) c (Uint64ToHexStr n) (Some ctx)]>
                                  (inFlightLogSegmentMap inode) |>).
Proof.
  intros Hfr Hmaps Hview Hn Hu Ho (Hf1 & _) [T1 T2 T3 T4 T5 T6 T7].
  assert (Hnot : inFlightLogSegmentMap inode !! n = None).
  { destruct (inFlightLogSegmentMap inode !! n) as [i|] eqn:Ei; [|done].
    destruct (Hf1 n i Ei) as (? & ? & ? & _ & _ & _ & ? & _). congruence. }
  constructor; rewrite ?Hmaps, ?Hview, ?(fr_accountName _ _ Hfr); cbn; try done.
  - intros m rec [[<- _]|[_ Hrec]]%lookup_insert_Some; [done|by eapply T1].
  - intros c' m b Hm Hb. destruct (T2 c' m b Hm Hb) as [rec Hrec].
    rewrite lookup_insert_ne by (intros ->; congruence). by exists rec.
  - intros c' m [i [[<- _]|[Hne Hi]]%lookup_insert_Some].
    + destruct (objs (swView (swift s)) !! _) as [b|] eqn:E; [|done].
      destruct (T2 c' n b Hu E) as [rec Hrec]. congruence.
    + by apply T3; exists i.
  - intros m Hm. destruct (T5 m Hm) as [i Hi]. rewrite lookup_insert_ne by (intros ->; congruence). by exists i.
  - intros m [= <-] Hin. destruct (T5 n Hin) as [i Hi]. congruence.
  - intros m [i [[<- _]|[Hne Hi]]%lookup_insert_Some]; [by left|]. right.
    destruct (T7 m) as [Hopen|Hin]; [by exists i|congruence|done].
Qed.

Lemma alter_as_insert {A} (f : A -> A) (p : Z) (m : gmap Z A) x : m !! p = Some x -> alter f p m = <[p := f x]> m.
Proof.
  intros Hx. apply map_eq. intros q. destruct (decide (q = p)) as [->|Hne].
  - by rewrite lookup_alter_eq, lookup_insert_eq, Hx.
  - by rewrite lookup_alter_ne, lookup_insert_ne by done.
Qed.

Lemma modInode_ok (s : vol) p f inode :
  inodeHeap s !! p = Some inode ->
  modInode p f s = (s <| inodeHeap := <[p := f inode]> (inodeHeap s) |>, Ret tt).
Proof. intros Hp. unfold modInode, smod. by rewrite (alter_as_insert _ _ _ _ Hp). Qed.

Lemma modDisk_ok (s : vol) p f inode :
  inodeHeap s !! p = Some inode ->
  modDisk p f s = (s <| inodeHeap := <[p := inode <| onDisk := f (onDisk inode) |>]> (inodeHeap s) |>, Ret tt).
Proof. intros Hp. unfold modDisk. by rewrite (modInode_ok s p _ inode Hp). Qed.

Lemma openSegment_ok (s : vol) p inode :
  inodeHeap s !! p = Some inode -> layout_ok (defaultPhysicalContainerLayout s) -> flights s inode -> coherent s ->
  openLogSegment inode = None -> tracked s inode -> nonceInRange s ->
  exists s' n inode', openSegment p s = (s', Ret n) /\ frame s s' /\ layout_ok (defaultPhysicalContainerLayout s') /\
    inodeHeap s' = <[p := inode']> (inodeHeap s) /\ payload inode' = payload inode /\ onDisk inode' = onDisk inode /\
    openLogSegment inode' = Some n /\ n <> 0 /\ tracked s' inode' /\
    inFlightLogSegmentErrors inode' = inFlightLogSegmentErrors inode /\
    grows s inode s' inode' /\ flights s' inode' /\ coherent s' /\ segmentOf s' inode' n = Some [].
Proof.
  intros Hp Hl Hfl Hc Hopen Htk Hnr. destruct (provisionObject_ok s Hl) as (s1 & c & n & Hpo & Hr1 & Hl1 & [Hn Hn64] & Hfresh).
  specialize (Hn64 Hnr).
  unfold openSegment. rewrite (sbind_ret _ _ _ _ _ Hpo).
  destruct (vh_putLogSegmentRec_live n (StringToByteSlice c) (headhunterVolumeHandle s1)) as (v2 & Hput).
  pose proof (vh_putLogSegmentRec _ _ _ _ Hput) as Hmaps.
  set (s2 := s1 <| headhunterVolumeHandle := v2 |>).
  assert (Hset : setLogSegmentContainer n c s1 = (s2, Ret tt)).
  { unfold setLogSegmentContainer, onHeadhunter. by rewrite Hput. }
  rewrite (sbind_ret _ _ _ _ _ Hset). unfold sget, sbind at 1.
  assert (Hp2 : inodeHeap s2 !! p = Some inode) by (cbn; by rewrite (sm_heap _ _ Hr1)).
  rewrite (sbind_ret _ _ _ _ _ (modInode_ok s2 p _ inode Hp2)).
  set (s3 := s2 <| inodeHeap := _ |>).
  destruct (sd_fetchContext (accountName s2) c (Uint64ToHexStr n) (swift s3)) as (w4 & ctx & Hctx & Hnew & Hview).
  set (s4 := s3 <| swift := w4 |>).
  assert (Hsw : onSwift (ObjectFetchChunkedPutContext (accountName s2) c (Uint64ToHexStr n)) s3 = (s4, Ret ctx)).
  { unfold onSwift. by rewrite Hctx. }
  rewrite (sbind_ret _ _ _ _ _ Hsw).
  assert (Hp4 : inodeHeap s4 !! p = Some (inode <| openLogSegment := Some n |>
     <| inFlightLogSegmentMap := <[n := mkInFlight n (accountName s2) c (Uint64ToHexStr n) None]>
          (inFlightLogSegmentMap inode) |>)) by (cbn; by rewrite lookup_insert_eq).
  unfold modContext. rewrite (sbind_ret _ _ _ _ _ (modInode_ok s4 p _ _ Hp4)). cbn [inFlightLogSegmentMap openLogSegment].
  set (s5 := s4 <| inodeHeap := _ |>).
  assert (Hfr : frame s s5) by (destruct Hr1; by constructor).
  set (inode' := inode <| openLogSegment := Some n |>
    <| inFlightLogSegmentMap := <[n := mkInFlight n (accountName s) c (Uint64ToHexStr n) (Some ctx)]>
                                  (inFlightLogSegmentMap inode) |>).
  assert (Hheap : inodeHeap s5 = <[p := inode']> (inodeHeap s)).
  { unfold s5. cbn. rewrite insert_insert_eq, (sm_heap _ _ Hr1). f_equal. unfold inode'.
    rewrite (alter_as_insert _ _ _ _ (lookup_insert_eq _ _ _)), insert_insert_eq.
    by rewrite (sm_accountName _ _ Hr1). }
  assert (Hacc : accountName s2 = accountName s) by (cbn; by rewrite (sm_accountName _ _ Hr1)).
  assert (Hmaps5 : vhMaps (headhunterVolumeHandle s5) = (vhMaps (headhunterVolumeHandle s))
    <| logSegmentRecs := <[n := StringToByteSlice c]> (logSegmentRecs (vhMaps (headhunterVolumeHandle s))) |>)
    by (cbn; by rewrite Hmaps, (sm_maps _ _ Hr1)).
  assert (Hview5 : swView (swift s5) = (swView (swift s))
    <| ctxs := <[ctx := ((accountName s, c, Uint64ToHexStr n), [])]> (ctxs (swView (swift s))) |>)
    by (cbn; rewrite Hview; cbn; by rewrite (sm_view _ _ Hr1), <- Hacc).
  assert (Hfresh5 : logSegmentRecs (vhMaps (headhunterVolumeHandle s)) !! n = None)
    by (by rewrite <- (sm_maps _ _ Hr1)).
  destruct (new_segment_grows s s5 inode n c ctx) as (Hg & Hfl' & Hc' & Hseg); try done; try lia.
  - rewrite <- (sm_view _ _ Hr1). exact Hnew.
  - exists s5, n, inode'. split_and!; try done; [lia|].
    apply new_segment_tracked; try done. unfold is_u64. lia.
Qed.

(** Bytes sent on the context of segment [n]. *)
Lemma sent_grows s s' inode n i ctx t (b buf : bytes) :
  frame s s' -> vhMaps (headhunterVolumeHandle s') = vhMaps (headhunterVolumeHandle s) ->
  inFlightLogSegmentMap inode !! n = Some i -> ifl_context i = Some ctx ->
  ctxs (swView (swift s)) !! ctx = Some (t, b) ->
  swView (swift s') = (swView (swift s)) <| ctxs := <[ctx := (t, b ++ buf)]> (ctxs (swView (swift s))) |> ->
  zlen b + zlen buf <= maxObject -> flights s inode -> coherent s ->
  grows s inode s' inode /\ flights s' inode /\ coherent s' /\ segmentOf s' inode n = Some (b ++ buf).
Proof.
  intros Hfr Hmaps Hi Hc Hcx Hview Hbound (Hf1 & Hf2 & Hf3) (c0 & Hh & Hls & Hlines).
  assert (Hobj : forall m, objectOf s' m = objectOf s m).
  { intros m. unfold objectOf. by rewrite Hmaps, Hview, (fr_accountName _ _ Hfr). }
  assert (Hn : segmentOf s' inode n = Some (b ++ buf)).
  { unfold segmentOf. rewrite Hi, Hc, Hview. cbn. by rewrite lookup_insert_eq. }
  assert (Hseg : forall m, m <> n -> segmentOf s' inode m = segmentOf s inode m).
  { intros m Hm. unfold segmentOf. rewrite Hobj. destruct (inFlightLogSegmentMap inode !! m) as [j|] eqn:Ej; [|done].
    destruct (ifl_context j) as [cj|] eqn:Ecj; [|done]. cbn. rewrite Hview. cbn.
    rewrite lookup_insert_ne; [done|]. intros ->. apply Hm. eapply Hf2; [done..|congruence]. }
  split; [|split; [|split; [|done]]].
  - constructor; [by rewrite Hmaps|]. intros m d _ Hd. destruct (decide (m = n)) as [->|Hne].
    + exists buf. assert (d = b) as ->.
      { unfold segmentOf in Hd. rewrite Hi, Hc in Hd. cbn in Hd. rewrite Hcx in Hd. by injection Hd as <-. }
      split; [done|]. intros _. by rewrite zlen_app.
    + exists []. rewrite app_nil_r. split; [|done]. by rewrite Hseg.
  - split; [|by split]. intros m j Hj. rewrite Hmaps, (fr_accountName _ _ Hfr), Hview. cbn.
    destruct (Hf1 m j Hj) as (c' & b' & rec & Hc' & Hm0 & Hb & Hrec & Hcx').
    destruct (decide (c' = ctx)) as [->|Hne].
    + exists ctx, (b ++ buf), rec. rewrite lookup_insert_eq, zlen_app.
      assert (t = (accountName s, ByteSliceToString rec, Uint64ToHexStr m)) as -> by congruence. by split_and!.
    + exists c', b', rec. by rewrite lookup_insert_ne.
  - exists c0. rewrite (fr_flow _ _ Hfr), (fr_volumeName _ _ Hfr). split; [done|]. split; [done|].
    intros k line. rewrite Hobj. apply Hlines.
Qed.

(** The segment a write goes to has room for it. *)
Definition roomFor (s : vol) (inode : inMemoryInodeStruct) (buf : bytes) : Prop :=
  zlen buf <= maxObject /\ (openLogSegment inode = None -> nonceInRange s) /\
  forall n b, openLogSegment inode = Some n -> segmentOf s inode n = Some b -> zlen b + zlen buf <= maxObject.

(** What [doSendChunk] establishes. *)
Record sent (s : vol) (p : Z) (inode : inMemoryInodeStruct) (buf : bytes) (s' : vol) (inode' : inMemoryInodeStruct)
    (n lso : Z) : Prop := {
  sn_frame : frame s s';
  sn_layout : layout_ok (defaultPhysicalContainerLayout s');
  sn_heap : inodeHeap s' = <[p := inode']> (inodeHeap s);
  sn_payload : payload inode' = payload inode;
  sn_onDisk : onDisk inode' = onDisk inode;
  sn_grows : grows s inode s' inode';
  sn_flights : flights s' inode';
  sn_tracked : tracked s' inode';
  sn_errors : inFlightLogSegmentErrors inode' = inFlightLogSegmentErrors inode;
  sn_coherent : coherent s';
  sn_segment : n <> 0 /\ is_Some (logSegmentRecs (vhMaps (headhunterVolumeHandle s')) !! n) /\
    exists b, zlen b = lso /\ segmentOf s' inode' n = Some (b ++ buf) /\ zlen (b ++ buf) <= maxObject
}.

(** The part of [doSendChunk] that sends on the open segment. *)
Lemma sendOpen_ok (s : vol) p inode n (b buf : bytes) :
  inodeHeap s !! p = Some inode -> layout_ok (defaultPhysicalContainerLayout s) -> flights s inode -> coherent s ->
  tracked s inode ->
  openLogSegment inode = Some n -> segmentOf s inode n = Some b -> zlen b + zlen buf <= maxObject ->
  exists s' inode',
    (inode <~ getInode p ;;
     match inFlightLogSegmentMap inode !! n with
     | Some (mkInFlight _ _ _ _ (Some context)) =>
         logSegmentOffset <~ onSwift (BytesPut context) ;;
         onSwift (SendChunk context buf) ;;~
         s <~ sget ;;
         (if maxFlushSize (flowControl s) <=? logSegmentOffset +u zlen buf
          then startFlusher p n else sret tt) ;;~
         sret (n, logSegmentOffset)
     | _ => spanic
     end) s = (s', Ret (n, zlen b)) /\ sent s p inode buf s' inode' n (zlen b).
Proof.
  intros Hp Hl Hfl Hc Htk Hopen Hseg Hbound. pose proof Hfl as (Hf1 & _ & Hf3).
  rewrite (sbind_ret _ _ _ _ _ (getInode_ok s p inode Hp)).
  destruct (Hf3 n Hopen) as [i Hi]. rewrite Hi.
  destruct (Hf1 n i Hi) as (ctx & b' & rec & Hctx & Hn0 & _ & Hrec & Hcx).
  assert (b' = b) as ->.
  { unfold segmentOf in Hseg. rewrite Hi, Hctx in Hseg. cbn in Hseg. rewrite Hcx in Hseg. by injection Hseg as ->. }
  destruct i as [i1 i2 i3 i4 i5]. cbn in Hctx. subst i5.
  destruct (sd_bytesPut ctx _ b (swift s) Hcx) as (w1 & Hbp & Hv1).
  rewrite (sbind_ret _ _ s (s <| swift := w1 |>) (zlen b)) by (unfold onSwift; by rewrite Hbp).
  set (s1 := s <| swift := w1 |>).
  assert (Hcx1 : ctxs (swView w1) !! ctx = Some (accountName s, ByteSliceToString rec, Uint64ToHexStr n, b))
    by (by rewrite Hv1).
  destruct (sd_sendChunk ctx _ b buf w1 Hcx1) as (w2 & Hsc & Hv2).
  set (s2 := s1 <| swift := w2 |>).
  rewrite (sbind_ret _ _ s1 s2 tt) by (unfold onSwift; cbn; by rewrite Hsc). unfold sget, sbind at 1.
  assert (Hg : grows s inode s2 inode /\ flights s2 inode /\ coherent s2 /\ segmentOf s2 inode n = Some (b ++ buf)).
  { eapply (sent_grows s s2 inode n _ ctx _ b buf); try done. cbn. by rewrite Hv2, Hv1. }
  destruct Hg as (Hg & Hfl2 & Hc2 & Hseg2).
  assert (Hsn : n <> 0 /\ is_Some (logSegmentRecs (vhMaps (headhunterVolumeHandle s2)) !! n) /\
            exists b0, zlen b0 = zlen b /\ segmentOf s2 inode n = Some (b0 ++ buf) /\ zlen (b0 ++ buf) <= maxObject).
  { split; [done|]. split; [by exists rec|]. exists b. by rewrite zlen_app. }
  assert (Htk2 : tracked s2 inode).
  { destruct Htk as [T1 T2 T3 T4 T5 T6 T7].
    assert (Hob : objs (swView (swift s2)) = objs (swView (swift s))) by (cbn; by rewrite Hv2, Hv1).
    constructor; rewrite ?Hob; try done. }
  destruct (maxFlushSize (flowControl s2) <=? zlen b +u zlen buf).
  - unfold startFlusher. rewrite (sbind_ret _ _ _ _ _ (modInode_ok s2 p _ inode Hp)).
    eexists _, _. split; [done|]. constructor; try done.
    + destruct Hg as [Hg1 Hg2]. constructor; [exact Hg1 | exact Hg2].
    + destruct Hfl2 as (F1 & F2 & _). by split; [|split].
    + destruct Htk2 as [T1 T2 T3 T4 T5 T6 T7]. constructor; cbn; try done.
      * apply NoDup_app. split; [done|]. split; [|by apply NoDup_singleton].
        intros m Hm ->%list_elem_of_singleton. by apply (T6 n).
      * intros m [Hm| ->%list_elem_of_singleton]%elem_of_app; [by apply T5 | by exists (mkInFlight i1 i2 i3 i4 (Some ctx))].
      * intros m Hm. right. apply elem_of_app. destruct (T7 m Hm) as [Hom|Hin]; [|by left].
        right. apply list_elem_of_singleton. congruence.
  - exists s2, inode. split; [done|]. constructor; try done. cbn. by rewrite insert_id.
Qed.

Lemma doSendChunk_ok (s : vol) p inode buf :
  inodeHeap s !! p = Some inode -> layout_ok (defaultPhysicalContainerLayout s) -> flights s inode -> coherent s ->
  tracked s inode -> roomFor s inode buf ->
  exists s' inode' n lso, doSendChunk p buf s = (s', Ret (n, lso)) /\ sent s p inode buf s' inode' n lso.
Proof.
  intros Hp Hl Hfl Hc Htk (Hroom0 & Hnr & Hroom). unfold doSendChunk. rewrite (sbind_ret _ _ _ _ _ (getInode_ok s p inode Hp)).
  destruct (openLogSegment inode) as [n|] eqn:Eo.
  - unfold sret, sbind at 1. pose proof Hfl as (Hf1 & _ & Hf3). destruct (Hf3 n Eo) as [i Hi].
    destruct (Hf1 n i Hi) as (ctx & b & rec & Hctx & _ & _ & _ & Hcx).
    assert (Hseg : segmentOf s inode n = Some b) by (unfold segmentOf; rewrite Hi, Hctx; cbn; by rewrite Hcx).
    destruct (sendOpen_ok s p inode n b buf) as (s' & inode' & Hs' & Hsent); try done; [by apply (Hroom n)|].
    by exists s', inode', n, (zlen b).
  - destruct (openSegment_ok s p inode Hp Hl Hfl Hc Eo Htk (Hnr eq_refl))
      as (s1 & n & inode1 & Hs1 & Hfr1 & Hl1 & Hheap1 & Hpl1 & Hd1 & Ho1 & Hn & Htk1 & He1 & Hg1 & Hfl1 & Hc1 & Hseg1).
    rewrite (sbind_ret _ _ _ _ _ Hs1).
    destruct (sendOpen_ok s1 p inode1 n [] buf) as (s' & inode' & Hs' & [? ? Hheap' ? ? ? ? ? ? ? ?]); try done.
    { rewrite Hheap1. apply lookup_insert_eq. }
    exists s', inode', n, (zlen (@nil Z)). split; [exact Hs'|]. constructor; try done; try congruence.
    + by transitivity s1.
    + by rewrite Hheap', Hheap1, insert_insert_eq.
    + by eapply grows_trans.
Qed.

(** *** [Write] *)

(** A cached file inode in a state where its bytes can be read and written. *)
Record fileReady (s : vol) (inodeNumber p : Z) (inode : inMemoryInodeStruct) : Prop := {
  fy_cache : inodeCache s !! inodeNumber = Some p;
  fy_heap : inodeHeap s !! p = Some inode;
  fy_type : InodeType (onDisk inode) = FileType;
  fy_wf : file_wf inode;
  fy_backed : backed s inode;
  fy_coherent : coherent s;
  fy_flights : flights s inode;
  fy_tracked : tracked s inode;
  fy_layout : layout_ok (defaultPhysicalContainerLayout s);
  fy_size : 0 <= Size (onDisk inode) <= maxOffset
}.

(** The parts of the state and of the inode that [segmentOf] looks at. *)
Lemma segmentOf_same s s' inode inode' n :
  accountName s' = accountName s -> vhMaps (headhunterVolumeHandle s') = vhMaps (headhunterVolumeHandle s) ->
  swView (swift s') = swView (swift s) -> inFlightLogSegmentMap inode' = inFlightLogSegmentMap inode ->
  segmentOf s' inode' n = segmentOf s inode n.
Proof. intros Ha Hm Hv Hi. unfold segmentOf, objectOf. by rewrite Ha, Hm, Hv, Hi. Qed.

(** Contents after the extent of a write has been recorded. *)
Lemma written_content s inode s' inode' off buf n (b : bytes) pos :
  backed s inode -> grows s inode s' inode' -> segmentOf s' inode' n = Some (b ++ buf) ->
  (forall q, file_cell inode' q = written off (zlen buf) n (zlen b) (file_cell inode) q) ->
  content s' inode' pos =
    if (off <=? pos) && (pos <? off + zlen buf) then default 0 (buf !! Z.to_nat (pos - off)) else content s inode pos.
Proof.
  intros Hb Hg Hseg Hcell. destruct (_ && _) eqn:E.
  - unfold content. rewrite Hcell. unfold written. rewrite E, Hseg. cbn.
    apply andb_prop in E as [E1%Z.leb_le E2%Z.ltb_lt]. unfold bytes in *. pose proof (zlen_nonneg b).
    rewrite lookup_app_r by (unfold zlen in *; lia). do 2 f_equal. unfold zlen in *. lia.
  - apply content_grows; try done. rewrite Hcell. unfold written. by rewrite E.
Qed.

Lemma written_backed s inode s' inode' off buf n (b : bytes) :
  backed s inode -> grows s inode s' inode' -> n <> 0 ->
  is_Some (logSegmentRecs (vhMaps (headhunterVolumeHandle s')) !! n) ->
  segmentOf s' inode' n = Some (b ++ buf) -> zlen (b ++ buf) <= maxObject ->
  (forall q, file_cell inode' q = written off (zlen buf) n (zlen b) (file_cell inode) q) ->
  backed s' inode'.
Proof.
  intros Hb Hg Hn Hrec Hseg Hm Hcell pos m o Hc. rewrite Hcell in Hc. unfold written in Hc.
  destruct (_ && _) eqn:E.
  - injection Hc as <- <-. split; [done|]. split; [done|]. exists (b ++ buf). split; [done|]. split; [|done].
    apply andb_prop in E as [E1%Z.leb_le E2%Z.ltb_lt]. pose proof (zlen_nonneg b). rewrite zlen_app. lia.
  - destruct (Hb _ _ _ Hc) as (Hm0 & [rec Hr] & d & Hd & Ho & Hdm). destruct Hg as [Hg1 Hg2].
    split; [done|]. split; [exists rec; by apply Hg1|].
    destruct (Hg2 m d ltac:(by exists rec) Hd) as (e & He & Hem). exists (d ++ e). split; [done|].
    rewrite zlen_app. pose proof (zlen_nonneg e). split; [lia|]. rewrite <- zlen_app. auto.
Qed.

Lemma onInode_ok (s : vol) p f inode inode' :
  inodeHeap s !! p = Some inode -> f inode = Ret inode' ->
  onInode p f s = (s <| inodeHeap := <[p := inode']> (inodeHeap s) |>, Ret tt).
Proof.
  intros Hp Hf. unfold onInode. rewrite (sbind_ret _ _ _ _ _ (getInode_ok s p inode Hp)). rewrite Hf.
  unfold slift, sbind at 1. by rewrite (modInode_ok s p _ inode Hp).
Qed.

(** Changes to the attributes of an inode leave its bytes alone. *)
Lemma fileReady_update s s' inodeNumber p inode inode' :
  fileReady s inodeNumber p inode -> frame s s' ->
  defaultPhysicalContainerLayout s' = defaultPhysicalContainerLayout s ->
  vhMaps (headhunterVolumeHandle s') = vhMaps (headhunterVolumeHandle s) -> swView (swift s') = swView (swift s) ->
  inodeHeap s' !! p = Some inode' -> payload inode' = payload inode ->
  inFlightLogSegmentMap inode' = inFlightLogSegmentMap inode -> openLogSegment inode' = openLogSegment inode ->
  flushing inode' = flushing inode ->
  InodeType (onDisk inode') = InodeType (onDisk inode) -> LogSegmentMap (onDisk inode') = LogSegmentMap (onDisk inode) ->
  0 <= Size (onDisk inode') <= maxOffset ->
  fileReady s' inodeNumber p inode' /\ forall pos, content s' inode' pos = content s inode pos.
Proof.
  intros [Hca Hp Ht Hwf Hb Hc Hfl Htk Hl Hsz] Hfr Hlay Hm Hv Hp' Hpl Hi Ho Hfi Hty Hls Hs.
  assert (Hcell : forall q, file_cell inode' q = file_cell inode q) by (intros q; unfold file_cell; by rewrite Hpl).
  assert (Hseg : forall n, segmentOf s' inode' n = segmentOf s inode n)
    by (intros n; apply segmentOf_same; [by apply fr_accountName|done..]).
  assert (Hobj : forall n, objectOf s' n = objectOf s n)
    by (intros n; unfold objectOf; by rewrite Hm, Hv, (fr_accountName _ _ Hfr)).
  split; [constructor; try done|].
  - by rewrite (fr_inodeCache _ _ Hfr).
  - by rewrite Hty.
  - unfold file_wf. by rewrite Hpl, Hls.
  - intros q n o Hq. rewrite Hcell in Hq. rewrite Hm, Hseg. by eapply Hb.
  - destruct Hc as (c & Hh & Hln & Hlines). exists c. rewrite (fr_flow _ _ Hfr). split; [done|]. split; [done|].
    intros k line. rewrite (fr_volumeName _ _ Hfr), Hobj. apply Hlines.
  - unfold flights. by rewrite Hm, Hv, (fr_accountName _ _ Hfr), Hi, Ho.
  - destruct Htk. by constructor; rewrite ?Hm, ?Hv, ?(fr_accountName _ _ Hfr), ?Hi, ?Ho, ?Hfi.
  - by rewrite Hlay.
  - intros pos. unfold content. rewrite Hcell. destruct (file_cell inode pos) as [[n o]|]; [|done]. by rewrite Hseg.
Qed.

(** What decides who may access an inode. *)
Definition permsOf (d : onDiskInodeV1Struct) : Z * Z * Z := (Mode d, UserID d, GroupID d).

Lemma Write_ok s inodeNumber p inode off buf :
  fileReady s inodeNumber p inode -> roomFor s inode buf ->
  0 <= off -> 0 < zlen buf -> off + zlen buf <= maxOffset ->
  exists s' inode', Write time_Now inodeNumber off buf s = (s', Ret tt) /\
    fileReady s' inodeNumber p inode' /\
    Size (onDisk inode') = Z.max (Size (onDisk inode)) (off + zlen buf) /\
    permsOf (onDisk inode') = permsOf (onDisk inode) /\
    forall pos, content s' inode' pos =
      if (off <=? pos) && (pos <? off + zlen buf) then default 0 (buf !! Z.to_nat (pos - off)) else content s inode pos.
Proof.
  intros [Hca Hp Ht Hwf Hb Hc Hfl Htk Hl Hsz] Hroom Ho Hlen Hend.
  unfold Write. rewrite (sbind_ret _ _ _ _ _ (fetchInodeType_cached s inodeNumber p inode FileType Hca Hp Ht)).
  unfold setDirty. rewrite (sbind_ret _ _ _ _ _ (modInode_ok s p _ inode Hp)).
  set (inode1 := inode <| dirty := true |>). set (s1 := s <| inodeHeap := _ |>).
  destruct (doSendChunk_ok s1 p inode1 buf) as (s2 & inode2 & n & lso & Hs2 & Hsent); try done.
  { apply lookup_insert_eq. }
  { by destruct Htk; constructor. }
  destruct Hsent as [Hfr2 Hl2 Hh2 Hpl2 Hd2 Hg2 Hfl2 Htk2 He2 Hc2 (Hn & Hrec & b & <- & Hseg & Hmax)].
  rewrite (sbind_ret _ _ _ _ _ Hs2).
  assert (Hwf2 : file_wf inode2) by (unfold file_wf; rewrite Hpl2, Hd2; exact Hwf).
  assert (Hcell2 : forall q, file_cell inode2 q = file_cell inode q) by (intros q; unfold file_cell; by rewrite Hpl2).
  pose proof (zlen_nonneg b) as Hbz. rewrite zlen_app in Hmax.
  destruct (recordWrite_ok inode2 off (zlen buf) n (zlen b) Hwf2) as (inode3 & Hrw & Hwf3 & Hcell3 & Hd3 & _ & Ho3 & Hi3 & He3 & Hf3).
  { unfold write_in_range, maxObject, two64 in *. lia. }
  assert (Hp2 : inodeHeap s2 !! p = Some inode2) by (rewrite Hh2; apply lookup_insert_eq).
  rewrite (sbind_ret _ _ _ _ _ (onInode_ok s2 p _ inode2 inode3 Hp2 Hrw)).
  set (s3 := s2 <| inodeHeap := _ |>). cbv zeta.
  assert (Hp3 : inodeHeap s3 !! p = Some inode3) by apply lookup_insert_eq.
  rewrite uadd_small by (unfold maxOffset in *; lia).
  assert (Hg3 : grows s inode s3 inode3).
  { destruct Hg2 as [Hgr Hgs]. constructor; [exact Hgr|]. intros m d Hm Hd.
    destruct (Hgs m d Hm Hd) as (e & He & Hme). exists e. split; [|done]. rewrite <- He. by apply segmentOf_same. }
  assert (Hseg3 : segmentOf s3 inode3 n = Some (b ++ buf)) by (rewrite <- Hseg; by apply segmentOf_same).
  assert (Hcw : forall q, file_cell inode3 q = written off (zlen buf) n (zlen b) (file_cell inode) q).
  { intros q. rewrite Hcell3. unfold written. by rewrite Hcell2. }
  assert (Hsize3 : Size (onDisk inode3) = Size (onDisk inode)) by (by rewrite Hd3, Hd2).
  assert (Hready3 : fileReady s3 inodeNumber p inode3).
  { constructor; try done.
    - change (inodeCache s3) with (inodeCache s2). by rewrite (fr_inodeCache _ _ Hfr2).
    - by rewrite Hd3, Hd2.
    - eapply (written_backed s inode s3 inode3 off buf n b); try done. by rewrite zlen_app.
    - unfold flights. by rewrite Hi3, Ho3.
    - by destruct Htk2; constructor; rewrite ?Hi3, ?Ho3, ?Hf3.
    - by rewrite Hsize3. }
  rewrite (sbind_ret _ _ _ _ _ (modDisk_ok s3 p _ inode3 Hp3)).
  set (s4 := s3 <| inodeHeap := _ |>). unfold timeNow, sbind at 1.
  set (s5 := s4 <| clockReadings := _ |>).
  assert (Hp5 : inodeHeap s5 !! p = Some (inode3 <| onDisk := if Size (onDisk inode3) <? off + zlen buf
     then (onDisk inode3) <| Size := off + zlen buf |> else onDisk inode3 |>)) by apply lookup_insert_eq.
  rewrite (modDisk_ok s5 p _ _ Hp5).
  match goal with |- context [<[p := ?i]> (inodeHeap s5)] => set (inode6 := i) end.
  assert (Hm6 : InodeType (onDisk inode6) = InodeType (onDisk inode3) /\
                LogSegmentMap (onDisk inode6) = LogSegmentMap (onDisk inode3) /\
                Size (onDisk inode6) = Z.max (Size (onDisk inode)) (off + zlen buf) /\
                permsOf (onDisk inode6) = permsOf (onDisk inode)).
  { unfold inode6. cbn. rewrite <- Hsize3.
    replace (permsOf (onDisk inode)) with (permsOf (onDisk inode3)) by (by rewrite Hd3, Hd2).
    destruct (Z.ltb_spec (Size (onDisk inode3)) (off + zlen buf)); cbn; split_and!; try done; lia. }
  destruct Hm6 as (Hty6 & Hls6 & Hs6 & Hperm6).
  eexists _, inode6. split; [done|].
  match goal with |- fileReady ?s6 _ _ _ /\ _ =>
    destruct (fileReady_update s3 s6 inodeNumber p inode3 inode6) as [Hr6 Hc6]; try done end.
  - apply lookup_insert_eq.
  - lia.
  - split_and!; [done..|]. intros pos. rewrite Hc6. by eapply written_content.
Qed.

(** ** Flushing the data of a file *)

Lemma hex_inj n m : is_u64 n -> is_u64 m -> Uint64ToHexStr n = Uint64ToHexStr m -> n = m.
Proof.
  intros Hn Hm Heq. pose proof (HexStrToUint64_Uint64ToHexStr n Hn) as H6. rewrite Heq in H6.
  rewrite (HexStrToUint64_Uint64ToHexStr m Hm) in H6. by injection H6.
Qed.

(** The inode after its in-flight segment [n] has been closed. *)
Definition closed (inode : inMemoryInodeStruct) (n : Z) : inMemoryInodeStruct :=
  inode <| inFlightLogSegmentMap := delete n (inFlightLogSegmentMap inode) |>
        <| flushing := filter (fun m => m <> n) (flushing inode) |>.

Lemma closed_grows s s' inode n i ctx rec (b : bytes) :
  frame s s' -> vhMaps (headhunterVolumeHandle s') = vhMaps (headhunterVolumeHandle s) ->
  n ∈ flushing inode -> inFlightLogSegmentMap inode !! n = Some i -> ifl_context i = Some ctx ->
  logSegmentRecs (vhMaps (headhunterVolumeHandle s)) !! n = Some rec ->
  ctxs (swView (swift s)) !! ctx = Some ((accountName s, ByteSliceToString rec, Uint64ToHexStr n), b) ->
  swView (swift s') = (swView (swift s)) <| ctxs := delete ctx (ctxs (swView (swift s))) |>
    <| objs := <[(accountName s, ByteSliceToString rec, Uint64ToHexStr n) := b]> (objs (swView (swift s))) |> ->
  flights s inode -> tracked s inode -> coherent s ->
  grows s inode s' (closed inode n) /\ flights s' (closed inode n) /\ tracked s' (closed inode n) /\ coherent s' /\
  objectOf s' n = Some b.
Proof.
  intros Hfr Hmaps Hin Hi Hc Hrec Hcx Hview (Hf1 & Hf2 & Hf3) [T1 T2 T3 T4 T5 T6 T7] (c0 & Hh & Hls & Hlines).
  assert (Hkey : forall m c, is_u64 m -> m <> n ->
            (accountName s, ByteSliceToString rec, Uint64ToHexStr n) <> (accountName s, c, Uint64ToHexStr m)).
  { intros m c Hm Hne Heq. apply Hne. symmetry. eapply hex_inj; [by eapply T1|done|exact (f_equal snd Heq)]. }
  assert (Hobjn : objectOf s' n = Some b).
  { unfold objectOf. rewrite Hmaps, Hrec, Hview, (fr_accountName _ _ Hfr). cbn. by rewrite lookup_insert_eq. }
  assert (Hobj : forall m, m <> n -> objectOf s' m = objectOf s m).
  { intros m Hm. unfold objectOf. rewrite Hmaps, Hview, (fr_accountName _ _ Hfr). cbn.
    destruct (logSegmentRecs _ !! m) as [r|] eqn:Er; [|done]. cbn. apply lookup_insert_ne.
    apply Hkey; [by eapply T1|done]. }
  assert (Hseg : forall m d, segmentOf s inode m = Some d -> segmentOf s' (closed inode n) m = Some d).
  { intros m d Hd. unfold segmentOf, closed in *. cbn. destruct (decide (m = n)) as [->|Hne].
    - rewrite lookup_delete_eq, Hobjn. rewrite Hi, Hc in Hd. cbn in Hd. by rewrite Hcx in Hd.
    - rewrite lookup_delete_ne by done. destruct (inFlightLogSegmentMap inode !! m) as [j|] eqn:Ej; [|by rewrite Hobj].
      destruct (ifl_context j) as [cj|] eqn:Ecj; [|done]. cbn in *. rewrite Hview. cbn.
      rewrite lookup_delete_ne; [done|]. intros ->. apply Hne. eapply Hf2; [done..|congruence]. }
  split_and!; [..|done].
  - constructor; [by rewrite Hmaps|]. intros m d _ Hd. exists []. rewrite app_nil_r. split; [by apply Hseg|done].
  - split; [|split].
    + unfold closed. cbn. intros m j [Hne Hj]%lookup_delete_Some. rewrite Hmaps, Hview, (fr_accountName _ _ Hfr). cbn.
      destruct (Hf1 m j Hj) as (c' & b' & rec' & Hc' & Hm0 & Hb & Hrec' & Hcx'). exists c', b', rec'.
      split_and!; try done. rewrite lookup_delete_ne; [done|]. intros ->. apply Hne. eapply Hf2; [done..|congruence].
    + unfold closed. cbn. intros m m' j j' [_ Hj]%lookup_delete_Some [_ Hj']%lookup_delete_Some. by eapply Hf2.
    + unfold closed. cbn. intros m Hm. rewrite lookup_delete_ne; [by apply Hf3|]. intros ->. by apply (T6 m).
  - unfold closed. constructor; rewrite ?Hmaps, ?Hview, ?(fr_accountName _ _ Hfr); cbn; try done.
    + intros c m d Hm [[Heq _]|[_ Hd]]%lookup_insert_Some; [|by eapply T2].
      assert (n = m) as <- by (eapply hex_inj; [by eapply T1|done|exact (f_equal snd Heq)]). by exists rec.
    + intros c m [j [Hne Hj]%lookup_delete_Some]. rewrite lookup_insert_ne; [apply T3; by exists j|].
      apply Hkey; [|done]. destruct (Hf1 m j Hj) as (_ & _ & rec' & _ & _ & _ & Hrec' & _). by eapply T1.
    + by apply NoDup_filter.
    + intros m [Hne Hm]%list_elem_of_filter. rewrite lookup_delete_ne by done. by apply T5.
    + intros m Hm [_ Hin']%list_elem_of_filter. by apply (T6 m).
    + intros m [j [Hne Hj]%lookup_delete_Some]. destruct (T7 m) as [Ho|Hf]; [by exists j|by left|right].
      by apply list_elem_of_filter.
  - exists c0. rewrite (fr_flow _ _ Hfr). split; [done|]. split; [done|]. intros k line Hk Hv.
    rewrite (fr_volumeName _ _ Hfr) in Hv. destruct (Hlines k line Hk Hv) as (d & Hd & ->). exists d. split; [|done].
    destruct (decide (rk_logSegmentNumber k = n)) as [Heq|Hne]; [|by rewrite Hobj].
    unfold objectOf in Hd. rewrite Heq, Hrec in Hd. cbn in Hd. rewrite (T3 _ n) in Hd by (by exists i). done.
Qed.

(** What closing log segments establishes. *)
Record flushed (s : vol) (p : Z) (inode : inMemoryInodeStruct) (s' : vol) (inode' : inMemoryInodeStruct) : Prop := {
  fd_frame : frame s s';
  fd_layout : defaultPhysicalContainerLayout s' = defaultPhysicalContainerLayout s;
  fd_heap : inodeHeap s' = <[p := inode']> (inodeHeap s);
  fd_maps : vhMaps (headhunterVolumeHandle s') = vhMaps (headhunterVolumeHandle s);
  fd_inode : payload inode' = payload inode /\ onDisk inode' = onDisk inode /\
    openLogSegment inode' = openLogSegment inode /\ dirty inode' = dirty inode /\
    inFlightLogSegmentErrors inode' = inFlightLogSegmentErrors inode;
  fd_grows : grows s inode s' inode';
  fd_flights : flights s' inode';
  fd_tracked : tracked s' inode';
  fd_coherent : coherent s'
}.

Lemma flusher_ok (s : vol) p inode n :
  inodeHeap s !! p = Some inode -> n ∈ flushing inode -> flights s inode -> tracked s inode -> coherent s ->
  exists s', inFlightLogSegmentFlusher p n s = (s', Ret tt) /\ flushed s p inode s' (closed inode n).
Proof.
  intros Hp Hin Hfl Htk Hc. pose proof Hfl as (Hf1 & _). destruct (tk_flushing _ _ Htk n Hin) as [i Hi].
  destruct (Hf1 n i Hi) as (ctx & b & rec & Hctx & _ & _ & Hrec & Hcx).
  unfold inFlightLogSegmentFlusher. rewrite (sbind_ret _ _ _ _ _ (getInode_ok s p inode Hp)). rewrite Hi.
  destruct i as [i1 i2 i3 i4 i5]. cbn in Hctx. subst i5.
  destruct (sd_close ctx _ b (swift s) Hcx) as (w1 & Hcl & Hv).
  set (s1 := s <| swift := w1 |>).
  rewrite (sbind_ret _ _ s s1 (inr tt)) by (unfold stry, onSwift; by rewrite Hcl).
  unfold sret, sbind at 1. rewrite (modInode_ok s1 p _ inode Hp). eexists. split; [done|].
  destruct (closed_grows s s1 inode n (mkInFlight i1 i2 i3 i4 (Some ctx)) ctx rec b) as (G1 & G2 & G3 & G4 & _); try done.
  constructor; try done; [by destruct G1; constructor | by destruct G3; constructor].
Qed.

Lemma flushed_refl s p inode :
  inodeHeap s !! p = Some inode -> flights s inode -> tracked s inode -> coherent s -> flushed s p inode s inode.
Proof. intros Hp Hf Ht Hc. constructor; try done. by rewrite insert_id. apply grows_refl. Qed.

Lemma flushed_trans s p i s1 i1 s2 i2 : flushed s p i s1 i1 -> flushed s1 p i1 s2 i2 -> flushed s p i s2 i2.
Proof.
  intros [? ? Hh ? (? & ? & ? & ? & ?) ? ? ? ?] [? ? Hh' ? (? & ? & ? & ? & ?) ? ? ? ?].
  constructor; try done; try congruence.
  - by transitivity s1.
  - by rewrite Hh', Hh, insert_insert_eq.
  - split_and!; congruence.
  - by eapply grows_trans.
Qed.

(** Running every flusher that was started. *)
Lemma flushers_ok p l : forall (s : vol) inode,
  inodeHeap s !! p = Some inode -> NoDup l -> (forall n, n ∈ l -> n ∈ flushing inode) ->
  flights s inode -> tracked s inode -> coherent s ->
  exists s', sfor l (inFlightLogSegmentFlusher p) s = (s', Ret tt) /\ flushed s p inode s' (foldl closed inode l).
Proof.
  induction l as [|n l IH]; intros s inode Hp Hnd Hin Hfl Htk Hc; cbn [sfor foldl].
  { exists s. split; [done|]. by apply flushed_refl. }
  apply NoDup_cons in Hnd as [Hn Hnd].
  destruct (flusher_ok s p inode n) as (s1 & Hs1 & Hf1); try done; [apply Hin; by apply elem_of_cons; left|].
  rewrite (sbind_ret _ _ _ _ _ Hs1). pose proof Hf1 as [_ _ Hh1 _ _ _ Hfl1 Htk1 Hc1].
  destruct (IH s1 (closed inode n)) as (s2 & Hs2 & Hf2); try done.
  { rewrite Hh1. apply lookup_insert_eq. }
  { intros m Hm. apply list_elem_of_filter. split; [by intros ->|]. apply Hin. by apply elem_of_cons; right. }
  exists s2. split; [done|]. by eapply flushed_trans.
Qed.

Lemma foldl_closed_flushing l : forall inode n,
  n ∈ flushing (foldl closed inode l) -> n ∈ flushing inode /\ n ∉ l.
Proof.
  induction l as [|m l IH]; intros inode n Hn; cbn [foldl] in Hn; [split; [done|by apply not_elem_of_nil]|].
  destruct (IH _ _ Hn) as [[Hne Hin]%list_elem_of_filter Hl]. by rewrite not_elem_of_cons.
Qed.

(** Handing the open segment to a flusher changes no byte. *)
Lemma startFlusher_ok (s : vol) p inode :
  inodeHeap s !! p = Some inode -> flights s inode -> tracked s inode -> coherent s ->
  exists s' inode', (match openLogSegment inode with
                     | Some n => startFlusher p n | None => sret tt end) s = (s', Ret tt) /\
    frame s s' /\ defaultPhysicalContainerLayout s' = defaultPhysicalContainerLayout s /\
    headhunterVolumeHandle s' = headhunterVolumeHandle s /\ inodeHeap s' = <[p := inode']> (inodeHeap s) /\
    payload inode' = payload inode /\ onDisk inode' = onDisk inode /\ openLogSegment inode' = None /\
    dirty inode' = dirty inode /\ inFlightLogSegmentErrors inode' = inFlightLogSegmentErrors inode /\
    grows s inode s' inode' /\ flights s' inode' /\ tracked s' inode' /\ coherent s'.
Proof.
  intros Hp Hfl Htk Hc. destruct (openLogSegment inode) as [n|] eqn:Eo.
  2: { exists s, inode. split_and!; try done; [by rewrite insert_id | apply grows_refl]. }
  unfold startFlusher. rewrite (modInode_ok s p _ inode Hp). eexists _, _. split; [done|].
  split_and!; try done.
  - destruct (grows_refl s inode). by constructor.
  - destruct Hfl as (F1 & F2 & _). by split; [|split].
  - destruct Hfl as (_ & _ & F3). destruct Htk as [T1 T2 T3 T4 T5 T6 T7]. constructor; cbn; try done.
    + apply NoDup_app. split; [done|]. split; [|by apply NoDup_singleton].
      intros m Hm ->%list_elem_of_singleton. by apply (T6 n).
    + intros m [Hm| ->%list_elem_of_singleton]%elem_of_app; [by apply T5 | by apply F3].
    + intros m Hm. right. apply elem_of_app. destruct (T7 m Hm) as [Hom|Hin]; [|by left].
      right. apply list_elem_of_singleton. congruence.
Qed.

Lemma doFileInodeDataFlush_ok s inodeNumber p inode :
  fileReady s inodeNumber p inode -> inFlightLogSegmentErrors inode = ∅ ->
  exists s' inode', doFileInodeDataFlush p s = (s', Ret tt) /\ fileReady s' inodeNumber p inode' /\
    inFlightLogSegmentMap inode' = ∅ /\ onDisk inode' = onDisk inode /\ payload inode' = payload inode /\
    dirty inode' = dirty inode /\
    forall pos, content s' inode' pos = content s inode pos.
Proof.
  intros [Hca Hp Ht Hwf Hb Hc Hfl Htk Hl Hsz] He. unfold doFileInodeDataFlush.
  rewrite (sbind_ret _ _ _ _ _ (getInode_ok s p inode Hp)).
  destruct (startFlusher_ok s p inode Hp Hfl Htk Hc)
    as (s1 & inode1 & Hs1 & Hfr1 & Hl1 & Hhh1 & Hh1 & Hpl1 & Hd1 & Ho1 & Hdi1 & He1 & Hg1 & Hfl1 & Htk1 & Hc1).
  rewrite (sbind_ret _ _ _ _ _ Hs1).
  assert (Hp1 : inodeHeap s1 !! p = Some inode1) by (rewrite Hh1; apply lookup_insert_eq).
  destruct (flushers_ok p (flushing inode1) s1 inode1) as (s2 & Hs2 & Hf2); try done.
  { by destruct Htk1. }
  set (inode2 := foldl closed inode1 (flushing inode1)) in *.
  assert (Hw : waitFlushers p s1 = (s2, Ret tt))
    by (unfold waitFlushers; by rewrite (sbind_ret _ _ _ _ _ (getInode_ok s1 p inode1 Hp1))).
  rewrite (sbind_ret _ _ _ _ _ Hw).
  destruct Hf2 as [Hfr2 Hl2 Hh2 Hm2 (Hpl2 & Hd2 & Ho2 & Hdi2 & He2) Hg2 Hfl2 Htk2 Hc2].
  assert (Hp2 : inodeHeap s2 !! p = Some inode2) by (rewrite Hh2; apply lookup_insert_eq).
  rewrite (sbind_ret _ _ _ _ _ (getInode_ok s2 p inode2 Hp2)).
  rewrite decide_True by congruence.
  assert (Hg : grows s inode s2 inode2) by (by eapply grows_trans).
  assert (Hcell : forall q, file_cell inode2 q = file_cell inode q) by (intros q; unfold file_cell; by rewrite Hpl2, Hpl1).
  exists s2, inode2. split; [done|]. split; [constructor; try done|].
  - by rewrite (fr_inodeCache _ _ Hfr2), (fr_inodeCache _ _ Hfr1).
  - by rewrite Hd2, Hd1.
  - unfold file_wf. by rewrite Hpl2, Hpl1, Hd2, Hd1.
  - by eapply backed_grows.
  - by rewrite Hl2, Hl1.
  - by rewrite Hd2, Hd1.
  - split_and!; try congruence.
    + apply map_eq. intros n. rewrite lookup_empty. destruct (inFlightLogSegmentMap inode2 !! n) as [i|] eqn:Ei; [|done].
      destruct (tk_all _ _ Htk2 n) as [Ho|Hin]; [by exists i|congruence|].
      by destruct (foldl_closed_flushing _ _ _ Hin).
    + intros pos. by apply content_grows.
Qed.
End FileFacts.

(** ** Properties *)

Section FileProperties.
Context {V W : Type} `{VolumeHandleLive V} `{SwiftDataOk W} `{!PayloadTree} `{!OnDiskCodec}.
Context (time_Now : nat -> Z).

(** C8. [Read] returns the file: for every range that does not wrap, the bytes
    at the positions of the range up to the end of the file, wherever they are
    (a write-back buffer, a cached line, a Swift object or a hole), without a
    panic, and it changes neither a byte of the file nor the coherence of the
    read cache. *)
Theorem Read_content (s : volumeStruct V W) inodeNumber p inode off len :
  fileReady s inodeNumber p inode -> 0 <= off -> 0 <= len -> off + len < two64 ->
  Z.max 0 (Z.min len (Size (onDisk inode) - off)) <= 2 ^ 48 ->
  exists s', Read inodeNumber off len s
      = (s', Ret (content s inode <$> seqZ off (Z.max 0 (Z.min len (Size (onDisk inode) - off))))) /\
    fileReady s' inodeNumber p inode /\ forall pos, content s' inode pos = content s inode pos.
Proof.
  intros [Hca Hp Ht Hwf Hb Hc Hfl Htk Hl Hsz] Ho Hlen Hol Hclip.
  destruct (Read_ok s inodeNumber p inode off len) as (s' & Hr & Hrd & Hc'); try done.
  exists s'. split; [done|]. split; [|by intros pos; apply content_reads].
  constructor; try done.
  - by rewrite (rd_cache _ _ Hrd).
  - by rewrite (rd_heap _ _ Hrd).
  - by eapply backed_reads.
  - unfold flights. by rewrite (rd_maps _ _ Hrd), (rd_view _ _ Hrd), (rd_accountName _ _ Hrd).
  - destruct Htk as [T1 T2 T3 T4 T5 T6 T7].
    constructor; rewrite ?(rd_maps _ _ Hrd), ?(rd_view _ _ Hrd), ?(rd_accountName _ _ Hrd); done.
  - by rewrite (rd_layout _ _ Hrd).
Qed.

(** C7. [Write] overwrites: after it, the positions of the write hold the
    bytes written and every other position holds what it held, the size is the
    larger of the old size and the end of the write, and the file is again in
    a state that can be read and written.  The write may go to an open log
    segment or open a new one, and may hand a full one to a flusher. *)
Theorem Write_content (s : volumeStruct V W) inodeNumber p inode off (buf : bytes) :
  fileReady s inodeNumber p inode -> roomFor s inode buf ->
  0 <= off -> 0 < zlen buf -> off + zlen buf <= maxOffset ->
  exists s' inode', Write time_Now inodeNumber off buf s = (s', Ret tt) /\
    fileReady s' inodeNumber p inode' /\
    Size (onDisk inode') = Z.max (Size (onDisk inode)) (off + zlen buf) /\
    forall pos, content s' inode' pos =
      if (off <=? pos) && (pos <? off + zlen buf) then default 0 (buf !! Z.to_nat (pos - off)) else content s inode pos.
Proof.
  intros Hr Hroom Ho Hl He.
  destruct (Write_ok time_Now s inodeNumber p inode off buf Hr Hroom Ho Hl He) as (s' & inode' & Hw & Hr' & Hs & _ & Hc). eauto 6.
Qed.

Lemma Write_Read_ok (s : volumeStruct V W) inodeNumber p inode off (buf : bytes) :
  fileReady s inodeNumber p inode -> roomFor s inode buf ->
  0 <= off -> 0 < zlen buf <= 2 ^ 48 -> off + zlen buf <= maxOffset ->
  exists s1 inode1 s2, Write time_Now inodeNumber off buf s = (s1, Ret tt) /\
    fileReady s1 inodeNumber p inode1 /\ permsOf (onDisk inode1) = permsOf (onDisk inode) /\
    Read inodeNumber off (zlen buf) s1 = (s2, Ret buf).
Proof.
  intros Hr Hroom Ho Hl He. destruct (Write_ok time_Now s inodeNumber p inode off buf Hr Hroom Ho) as (s1 & inode1 & Hw & Hr1 & Hs & Hpm & Hc);
    [lia..|]. pose proof Hr1 as [Hca Hp Ht Hwf Hb Hco Hfl Htk Hla Hsz]. unfold maxOffset in *.
  assert (Hclip : clip (Size (onDisk inode1)) off (zlen buf) = zlen buf) by (unfold clip; lia).
  destruct (Read_ok s1 inodeNumber p inode1 off (zlen buf)) as (s2 & Hrd & _); try done; unfold maxOffset; try lia.
  exists s1, inode1, s2. split_and!; [done..|]. rewrite Hrd, Hclip. do 2 f_equal.
  apply list_eq_same_length with (length buf); [done | rewrite length_fmap, length_seqZ; unfold zlen; lia |].
  intros i x y Hi Hx Hy. rewrite list_lookup_fmap, lookup_seqZ_lt in Hx by (unfold zlen; lia). cbn in Hx.
  injection Hx as <-. rewrite Hc, (proj2 (Z.leb_le _ _)), (proj2 (Z.ltb_lt _ _)) by (unfold zlen in *; lia). cbn.
  replace (Z.to_nat (off + Z.of_nat i - off)) with i by lia. unfold bytes in *. by rewrite Hy.
Qed.

(** C1. What is written is read back: a [Read] of the range of a [Write] that
    has returned returns exactly the bytes written. *)
Theorem Write_then_Read (s : volumeStruct V W) inodeNumber p inode off (buf : bytes) :
  fileReady s inodeNumber p inode -> roomFor s inode buf ->
  0 <= off -> 0 < zlen buf <= 2 ^ 48 -> off + zlen buf <= maxOffset ->
  exists s1 s2, Write time_Now inodeNumber off buf s = (s1, Ret tt) /\
    Read inodeNumber off (zlen buf) s1 = (s2, Ret buf).
Proof.
  intros Hr Hroom Ho Hl He.
  destruct (Write_Read_ok s inodeNumber p inode off buf Hr Hroom Ho Hl He) as (s1 & _ & s2 & Hw & _ & _ & Hrd). eauto.
Qed.

(** C9. Flushing the data of a file makes it durable: [doFileInodeDataFlush]
    waits until every log segment in flight is closed, after which each byte
    of the file is a byte of an object in Swift, and no byte has changed. *)
Theorem dataFlush_durable (s : volumeStruct V W) inodeNumber p inode :
  fileReady s inodeNumber p inode -> inFlightLogSegmentErrors inode = ∅ ->
  exists s' inode', doFileInodeDataFlush p s = (s', Ret tt) /\ fileReady s' inodeNumber p inode' /\
    (forall pos, content s' inode' pos = content s inode pos) /\
    forall pos n o, file_cell inode' pos = Some (n, o) ->
      exists b, objectOf s' n = Some b /\ b !! Z.to_nat o = Some (content s inode pos).
Proof.
  intros Hr He. destruct (doFileInodeDataFlush_ok s inodeNumber p inode Hr He)
    as (s' & inode' & Hf & Hr' & Hi & Hd & Hpl & _ & Hc).
  exists s', inode'. split; [done|]. split; [done|]. split; [done|]. intros pos n o Hcell.
  destruct (fy_backed _ _ _ _ Hr' pos n o Hcell) as (_ & _ & b & Hseg & Ho & _). exists b.
  rewrite <- Hc. unfold content. rewrite Hcell, Hseg. cbn. unfold segmentOf in Hseg. rewrite Hi, lookup_empty in Hseg.
  split; [done|]. unfold bytes in *. destruct (lookup_lt_is_Some_2 b (Z.to_nat o)) as [x Hx]; [unfold zlen in Ho; lia|]. by rewrite Hx.
Qed.

(** When the Chunked PUT of a new log segment cannot be started, the write
    returns the error but leaves the log segment open without a context, and
    the next write to the file dereferences that nil context. *)
Theorem failed_open_poisons_writes (s : volumeStruct V W) p inode buf c n s1 v2 w3 e :
  inodeHeap s !! p = Some inode -> openLogSegment inode = None ->
  provisionObject s = (s1, Ret (c, n)) -> inodeHeap s1 = inodeHeap s ->
  vhPutLogSegmentRec n (StringToByteSlice c) (headhunterVolumeHandle s1) = (v2, Ret tt) ->
  ObjectFetchChunkedPutContext (accountName s1) c (Uint64ToHexStr n) (swift s1) = (w3, Err e) ->
  exists s', doSendChunk p buf s = (s', Err e) /\ forall buf', (doSendChunk p buf' s').2 = Panic.
Proof.
  intros Hp Ho Hpo Hh Hput Hfetch. unfold doSendChunk at 1. rewrite (sbind_ret _ _ _ _ _ (getInode_ok s p inode Hp)).
  rewrite Ho. unfold openSegment.
  set (s2 := s1 <| headhunterVolumeHandle := v2 |>).
  assert (Hset : setLogSegmentContainer n c s1 = (s2, Ret tt))
    by (unfold setLogSegmentContainer, onHeadhunter; by rewrite Hput).
  assert (Hp2 : inodeHeap s2 !! p = Some inode) by (cbn; by rewrite Hh).
  set (inode3 := inode <| openLogSegment := Some n |>
    <| inFlightLogSegmentMap := <[n := mkInFlight n (accountName s2) c (Uint64ToHexStr n) None]>
         (inFlightLogSegmentMap inode) |>).
  set (s3 := s2 <| inodeHeap := <[p := inode3]> (inodeHeap s2) |> <| swift := w3 |>).
  exists s3. split.
  - unfold sbind at 1. rewrite (sbind_ret _ _ _ _ _ Hpo), (sbind_ret _ _ _ _ _ Hset). unfold sget, sbind at 1.
    rewrite (sbind_ret _ _ _ _ _ (modInode_ok s2 p _ inode Hp2)). unfold onSwift, sbind at 1. cbn.
    cbn in Hfetch. by rewrite Hfetch.
  - intros buf'. unfold doSendChunk.
    assert (Hp3 : inodeHeap s3 !! p = Some inode3) by apply lookup_insert_eq.
    rewrite (sbind_ret _ _ _ _ _ (getInode_ok s3 p inode3 Hp3)). cbn [openLogSegment inode3 set]. unfold sret, sbind at 1.
    rewrite (sbind_ret _ _ _ _ _ (getInode_ok s3 p inode3 Hp3)). cbn. by rewrite lookup_insert_eq.
Qed.
End FileProperties.
