(* ===== verification/InodeInstance.v ===== *)
(** A volume in memory: implementations of what package [inode] uses, that
    satisfy the promises its theorems rely on, and a sample file on them. *)

From S2P Require Import Prelude SortedMap Blunder NodeProgram Utils InodeTypes Extents ExtentsFacts ReadPlanFacts.
From S2P Require Import ReadCache ReadCacheFacts VolumeHandle InodeVolume InodeDir InodeFile InodeFileFacts.
Open Scope list_scope.

(** A number that is not a key of the map. *)
Definition zfresh {A} (m : gmap Z A) : Z := 1 + foldr Z.max 0 (map_to_list m).*1.

Lemma foldr_max_ge l (k : Z) : k ∈ l -> k <= foldr Z.max 0 l.
Proof. induction l as [|x l IH]; intros Hk; [by apply not_elem_of_nil in Hk|]. apply elem_of_cons in Hk as [->|Hk]; cbn; [lia|].
  specialize (IH Hk). lia.
Qed.

Lemma zfresh_pos {A} (m : gmap Z A) : 0 < zfresh m.
Proof. unfold zfresh. assert (0 <= foldr Z.max 0 (map_to_list m).*1) by (induction (map_to_list m).*1; cbn; lia). lia. Qed.

Lemma zfresh_above {A} (m : gmap Z A) n : zfresh m <= n -> m !! n = None.
Proof.
  intros Hn. destruct (m !! n) as [x|] eqn:E; [|done]. exfalso. apply elem_of_map_to_list in E.
  assert (Hk : n ∈ (map_to_list m).*1) by (by apply (list_elem_of_fmap_2' _ _ (n, x))).
  apply foldr_max_ge in Hk. unfold zfresh in Hn. lia.
Qed.

(** ** The volume handle *)

Definition memHandle : Type := recordMaps * Z.

Definition memNonce : St memHandle error Z := fun v =>
  let n := Z.max (zfresh (logSegmentRecs v.1)) (v.2 + 1) in ((v.1, n), Ret n).

Definition onMaps {A} (f : recordMaps -> recordMaps) (r : recordMaps -> res A) : St memHandle error A :=
  fun v => ((f v.1, v.2), r v.1).

Definition found (o : option bytes) : res bytes := match o with Some b => Ret b | None => Err plain end.

#[export] Instance memHandle_VolumeHandle : VolumeHandle memHandle := {
  vhFetchNonce := memNonce;
  vhFetchNextCheckPointDoneWaitGroup := sret 0;
  vhGetInodeRec n := onMaps id (fun m => Ret (inodeRecs m !! n));
  vhPutInodeRec n b := onMaps (fun m => m <| inodeRecs := <[n := b]> (inodeRecs m) |>) (fun _ => Ret tt);
  vhPutInodeRecs ns bs :=
    onMaps (fun m => m <| inodeRecs := foldl (fun r nb => <[nb.1 := nb.2]> r) (inodeRecs m) (zip ns bs) |>) (fun _ => Ret tt);
  vhDeleteInodeRec n := onMaps (fun m => m <| inodeRecs := delete n (inodeRecs m) |>) (fun _ => Ret tt);
  vhGetLogSegmentRec n := onMaps id (fun m => found (logSegmentRecs m !! n));
  vhPutLogSegmentRec n b := onMaps (fun m => m <| logSegmentRecs := <[n := b]> (logSegmentRecs m) |>) (fun _ => Ret tt);
  vhDeleteLogSegmentRec n := onMaps (fun m => m <| logSegmentRecs := delete n (logSegmentRecs m) |>) (fun _ => Ret tt);
  vhGetBPlusTreeObject n := onMaps id (fun m => found (bPlusTreeObjects m !! n));
  vhPutBPlusTreeObject n b := onMaps (fun m => m <| bPlusTreeObjects := <[n := b]> (bPlusTreeObjects m) |>) (fun _ => Ret tt);
  vhDeleteBPlusTreeObject n := onMaps (fun m => m <| bPlusTreeObjects := delete n (bPlusTreeObjects m) |>) (fun _ => Ret tt);
  vhDoCheckpoint := sret tt
}.

Lemma found_Ret o b : found o = Ret b -> o = Some b.
Proof. by destruct o as [x|]; [intros [= ->]|]. Qed.

#[export] Program Instance memHandle_VolumeHandleOk : VolumeHandleOk memHandle := { vhMaps := fst }.
Solve Obligations with
  (try (intros; match goal with HE : _ = (_, _) |- _ => by injection HE as <- end)).
Next Obligation. intros v v' r [= <- _]. done. Qed.
Next Obligation. intros v v' r [= <- _]. done. Qed.
Next Obligation. intros n v v' r [= <- <-]. split; [done|]. by intros o [= <-]. Qed.
Next Obligation. intros n v v' r [= <- <-]. split; [done|]. intros b ->%found_Ret. done. Qed.
Next Obligation. intros n v v' r [= <- <-]. split; [done|]. intros b ->%found_Ret. done. Qed.

#[export] Instance memHandle_Live : VolumeHandleLive memHandle.
Proof.
  split.
  - intros n b v Hb. exists (v.1, v.2). cbn. unfold onMaps. cbn in *. by rewrite Hb.
  - intros n b v. by eexists.
  - intros v. eexists _, (Z.max (zfresh (logSegmentRecs v.1)) (v.2 + 1)). split; [done|]. pose proof (zfresh_pos (logSegmentRecs v.1)). split; [lia|].
    change (vhMaps v) with v.1. apply zfresh_above. lia.
Qed.

(** ** Swift *)

Definition ctxOp {A} (c : Z) (f : string * string * string -> bytes -> swiftView -> swiftView * res A)
    : St swiftView error A := fun w =>
  match ctxs w !! c with
  | Some (t, b) => f t b w
  | None => (w, Err plain)
  end.

#[export] Instance memSwift_SwiftData : SwiftData swiftView := {
  ContainerPut _ _ _ := sret tt;
  ObjectFetchChunkedPutContext account container object := fun w =>
    let c := zfresh (ctxs w) in
    (w <| ctxs := <[c := ((account, container, object), [])]> (ctxs w) |>, Ret c);
  BytesPut c := ctxOp c (fun _ b w => (w, Ret (zlen b)));
  SendChunk c buf := ctxOp c (fun t b w => (w <| ctxs := <[c := (t, b ++ buf)]> (ctxs w) |>, Ret tt));
  CtxRead c off len := ctxOp c (fun _ b w => (w, if zlen b <? off + len then Err plain else Ret (sliceOf b off len)));
  CtxClose c := ctxOp c (fun t b w =>
    (w <| ctxs := delete c (ctxs w) |> <| objs := <[t := b]> (objs w) |>, Ret tt));
  ObjectGet account container object off len := fun w =>
    match objs w !! (account, container, object) with
    | Some b => (w, Ret (sliceOf b off len))
    | None => (w, Err plain)
    end;
  ObjectContentLength account container object := fun w =>
    match objs w !! (account, container, object) with
    | Some b => (w, Ret (zlen b))
    | None => (w, Err plain)
    end;
  ObjectDeleteAsync account container object _ := fun w =>
    (w <| objs := delete (account, container, object) (objs w) |>, Ret tt)
}.

#[export] Program Instance memSwift_Ok : SwiftDataOk swiftView := { swView := id }.
Next Obligation.
  intros c off len t b w Hc Ho Hl Hle. change (ctxs w !! c = Some (t, b)) in Hc. exists w. split; [|done].
  unfold CtxRead, memSwift_SwiftData, ctxOp. rewrite Hc.
  by rewrite (proj2 (Z.ltb_ge _ _)) by lia.
Qed.
Next Obligation.
  intros c t b w Hc. change (ctxs w !! c = Some (t, b)) in Hc. exists w. split; [|done].
  unfold BytesPut, memSwift_SwiftData, ctxOp. by rewrite Hc.
Qed.
Next Obligation.
  intros c t b buf w Hc. change (ctxs w !! c = Some (t, b)) in Hc.
  exists (w <| ctxs := <[c := (t, b ++ buf)]> (ctxs w) |>). split; [|done].
  unfold SendChunk, memSwift_SwiftData, ctxOp. by rewrite Hc.
Qed.
Next Obligation.
  intros c t b w Hc. change (ctxs w !! c = Some (t, b)) in Hc.
  exists (w <| ctxs := delete c (ctxs w) |> <| objs := <[t := b]> (objs w) |>). split; [|done].
  unfold CtxClose, memSwift_SwiftData, ctxOp. by rewrite Hc.
Qed.
Next Obligation.
  intros account container object w. eexists _, _. split; [done|]. split; [|done]. by apply zfresh_above.
Qed.
Next Obligation. intros account container object off len b w Ho _ _. exists w. cbn in *. by rewrite Ho. Qed.
Next Obligation. intros. by eexists. Qed.

(** ** B+Trees and records

    A tree is one node, and the node is the number that encodes it. *)

#[export] Instance fileExtentStruct_eq_dec : EqDecision fileExtentStruct.
Proof. solve_decision. Defined.

#[export] Instance fileExtentStruct_countable : Countable fileExtentStruct.
Proof.
  apply (inj_countable' (fun e => (FileOffset e, Length e, LogSegmentNumber e, LogSegmentOffset e))
           (fun p => mkExtent p.1.1.1 p.1.1.2 p.1.2 p.2)). by intros [].
Defined.

#[export] Instance payload_eq_dec : EqDecision payload_t.
Proof. solve_decision. Defined.

#[export] Instance payload_countable : Countable payload_t.
Proof.
  apply (inj_countable'
    (fun t => match t with NoPayload => inl () | DirPayload l => inr (inl l) | FilePayload l => inr (inr l) end)
    (fun s => match s with inl _ => NoPayload | inr (inl l) => DirPayload l | inr (inr l) => FilePayload l end)).
  by intros [].
Defined.

Definition encodeBytes {A} `{Countable A} (a : A) : bytes := [Zpos (encode a)].

Definition decodeBytes {A} `{Countable A} (b : bytes) : res A :=
  match b with
  | [Zpos p] => match decode p with Some a => Ret a | None => Err plain end
  | _ => Err plain
  end.

Lemma decode_encodeBytes {A} `{Countable A} (a : A) : decodeBytes (encodeBytes a) = Ret a.
Proof. unfold decodeBytes, encodeBytes. by rewrite decode_encode. Qed.

(** An inode record has a number per field. *)
Definition packOnDisk (o : onDiskInodeV1Struct) : bytes :=
  [InodeNumber o; InodeType o; LinkCount o; Size o; CreationTime o; ModificationTime o; AccessTime o; AttrChangeTime o;
   NumWrites o; Mode o; UserID o; GroupID o; Zpos (encode (StreamMap o)); PayloadObjectNumber o; PayloadObjectLength o;
   Zpos (encode (SymlinkTarget o)); Zpos (encode (LogSegmentMap o))].

Definition unpackOnDisk (b : bytes) : res onDiskInodeV1Struct :=
  match b with
  | [a; b; c; d; e; f; g; h; i; j; k; l; m; n; o; p; q] =>
      m <- decodeBytes [m] ;; p <- decodeBytes [p] ;; q <- decodeBytes [q] ;;
      Ret (mkOnDisk a b c d e f g h i j k l m n o p q)
  | _ => Err plain
  end.

Lemma unpack_packOnDisk o : unpackOnDisk (packOnDisk o) = Ret o.
Proof.
  unfold packOnDisk, unpackOnDisk. rewrite !(decode_encodeBytes _ : decodeBytes [Zpos (encode _)] = Ret _). by destruct o.
Qed.

#[export] Instance memCodec : OnDiskCodec := {
  jsonMarshal o := Ret (packOnDisk o);
  jsonUnmarshal := unpackOnDisk
}.

Definition ofSum {A} (r : error + A) : res A := match r with inl e => Err e | inr a => Ret a end.

#[export] Instance memTree : PayloadTree := {
  treeOld _ n off len := NGet n off len (fun r => NDone (b <- ofSum r ;; decodeBytes b));
  treeFlush t n len := NGet n 0 len (fun old =>
    match old with
    | inr b => if decide (b = encodeBytes t) then NDone (Ret (n, 0, len))
               else NPut (encodeBytes t) (fun r => NDone ('(m, off) <- ofSum r ;; Ret (m, off, 1)))
    | inl _ => NPut (encodeBytes t) (fun r => NDone ('(m, off) <- ofSum r ;; Ret (m, off, 1)))
    end);
  treePrune _ := NDone (Ret tt);
  treeDiscard _ n len := NDiscard n 0 len (fun r => NDone (ofSum r));
  treeValidate _ := NDone (Ret tt)
}.

(** ** A volume with one empty file *)

Definition emptyFile : inMemoryInodeStruct := sampleInode [] 0.

Definition sampleVolume : volumeStruct memHandle swiftView :=
  mkInodeVolume 1 "v" "a" true (mkLayout "gold" "c_" ["x"; "y"]%string 2 10 0 0) (emptyFlow 100 4 2)
    (mkMaps ∅ ∅ ∅, 0) (mkView ∅ ∅) {[7 := 0]} {[0 := emptyFile]} 1 0.

Lemma sampleVolume_ready : fileReady sampleVolume 7 0 emptyFile.
Proof.
  constructor; try reflexivity.
  - exists []. split; [done|]. split; [unfold ext_wf, maxOffset; cbn; unfold two64; lia|]. intros n. reflexivity.
  - intros pos n o [=].
  - exists []. split; [apply emptyFlow_holds; lia|]. split; [cbn; unfold maxObject; lia|].
    intros k line Hin. by apply not_elem_of_nil in Hin.
  - split; [intros n i Hi; discriminate Hi|]. split; [|done].
    intros n n' i i' Hi. discriminate Hi.
  - constructor; cbn.
    + intros n rec Hr. discriminate Hr.
    + intros c n b _ Hr. discriminate Hr.
    + done.
    + by apply NoDup_nil.
    + intros n Hn. by apply not_elem_of_nil in Hn.
    + done.
    + intros n [i Hi]. discriminate Hi.
  - unfold layout_ok, two64; cbn. unfold zlen; cbn. lia.
  - cbn. unfold maxOffset, two64. lia.
Qed.

Lemma sampleVolume_room buf : zlen buf <= 100 -> roomFor sampleVolume emptyFile buf.
Proof.
  intros Hb. split; [unfold maxObject; lia|]. split; [|done]. intros _ v' n Hn. vm_compute in Hn.
  injection Hn as _ <-. done.
Qed.

Definition noClock (n : nat) : Z := Z.of_nat n.

Lemma Read_content_witness :
  exists s', Read 7 0 10 sampleVolume = (s', Ret []) /\ fileReady s' 7 0 emptyFile /\
    forall pos, content s' emptyFile pos = content sampleVolume emptyFile pos.
Proof.
  apply (Read_content sampleVolume 7 0 emptyFile 0 10 sampleVolume_ready); unfold two64; cbn; lia.
Defined.

Lemma Write_content_witness :
  exists s' inode', Write noClock 7 3 [1; 2] sampleVolume = (s', Ret tt) /\ fileReady s' 7 0 inode' /\
    Size (onDisk inode') = 5 /\
    forall pos, content s' inode' pos =
      if (3 <=? pos) && (pos <? 5) then default 0 ([1; 2] !! Z.to_nat (pos - 3)) else content sampleVolume emptyFile pos.
Proof.
  apply (Write_content noClock sampleVolume 7 0 emptyFile 3 [1; 2] sampleVolume_ready);
    [apply sampleVolume_room| | |]; unfold zlen, maxOffset, two64; cbn; lia.
Defined.

Lemma Write_then_Read_witness :
  exists s1 s2, Write noClock 7 3 [1; 2] sampleVolume = (s1, Ret tt) /\ Read 7 3 2 s1 = (s2, Ret [1; 2]).
Proof.
  apply (Write_then_Read noClock sampleVolume 7 0 emptyFile 3 [1; 2] sampleVolume_ready);
    [apply sampleVolume_room| | |]; unfold zlen, maxOffset, two64; cbn; lia.
Defined.

Lemma dataFlush_durable_witness :
  exists s' inode', doFileInodeDataFlush 0 sampleVolume = (s', Ret tt) /\ fileReady s' 7 0 inode' /\
    (forall pos, content s' inode' pos = content sampleVolume emptyFile pos) /\
    forall pos n o, file_cell inode' pos = Some (n, o) ->
      exists b, objectOf s' n = Some b /\ b !! Z.to_nat o = Some (content sampleVolume emptyFile pos).
Proof. apply (dataFlush_durable sampleVolume 7 0 emptyFile sampleVolume_ready). reflexivity. Defined.

(** A Swift that refuses to start a Chunked PUT. *)
Definition downSwift : SwiftData swiftView := {|
  ContainerPut := ContainerPut;
  ObjectFetchChunkedPutContext _ _ _ := serr plain;
  BytesPut := BytesPut; SendChunk := SendChunk; CtxRead := CtxRead; CtxClose := CtxClose;
  ObjectGet := ObjectGet; ObjectContentLength := ObjectContentLength; ObjectDeleteAsync := ObjectDeleteAsync
|}.

Lemma failed_open_poisons_writes_witness :
  exists s', @doSendChunk memHandle swiftView _ downSwift 0 [1] sampleVolume = (s', Err plain) /\
    forall buf', (@doSendChunk memHandle swiftView _ downSwift 0 buf' s').2 = Panic.
Proof.
  eapply (@failed_open_poisons_writes memHandle swiftView _ downSwift sampleVolume 0 emptyFile [1]);
    [reflexivity | reflexivity | vm_compute; reflexivity | reflexivity..].
Defined.
