(* ===== verification/HeadhunterNonce.v ===== *)
(** Nonces are never handed out twice, across crashes and restarts.

    The laws [SwiftHeaderOk] say what is relied on of Swift: a container
    header reads as it was last posted, a failed POST may or may not have taken
    effect, and no other request changes the header.  A Swift call may also
    end in [Panic], which stands for a crash of the process at that call. *)

From S2P Require Import Prelude Blunder NodeProgram Utils HeadhunterCodec Headhunter.
Open Scope list_scope.

Class SwiftHeaderOk (S C : Type) `{SwiftContainer S C} := {
  headerOf : S -> option string;
  head_law s s' r : ContainerHead s = (s', r) ->
    headerOf s' = headerOf s /\ (forall hs v, r = Ret hs -> hs !! CheckpointHeaderName = Some [v] -> headerOf s = Some v);
  post_law hs v s s' r : ContainerPost hs s = (s', r) -> hs !! CheckpointHeaderName = Some [v] ->
    headerOf s' = Some v \/ (headerOf s' = headerOf s /\ r <> Ret tt);
  accountPost_frame hs : keeps (fun s s' => headerOf s' = headerOf s) (AccountPost hs);
  objectTail_frame n l : keeps (fun s s' => headerOf s' = headerOf s) (ObjectTail n l);
  objectGet_frame n o l : keeps (fun s s' => headerOf s' = headerOf s) (ObjectGet n o l);
  fetchContext_frame n : keeps (fun s s' => headerOf s' = headerOf s) (ObjectFetchChunkedPutContext n);
  bytesPut_frame c : keeps (fun s s' => headerOf s' = headerOf s) (BytesPut c);
  sendChunk_frame c b : keeps (fun s s' => headerOf s' = headerOf s) (SendChunk c b);
  close_frame c : keeps (fun s s' => headerOf s' = headerOf s) (CloseContext c);
  delete_frame n wg : keeps (fun s s' => headerOf s' = headerOf s) (ObjectDeleteAsync n wg)
}.

(** A B+Tree program that only reads nodes. *)
Inductive readOnly {A} : nodeProg A -> Prop :=
| ReadDone a : readOnly (NDone a)
| ReadGet n o l k : (forall r, readOnly (k r)) -> readOnly (NGet n o l k).

Class BPlusTreeReadOk (T : Type) `{BPlusTree T} := {
  old_reads n o l : readOnly (OldBPlusTree n o l)
}.

(** A nonce that leaves room for one more reservation below 2^64. *)
Definition small (n : Z) : Prop := n < two64 - 65536.

Section Nonces.

Context {S C T : Type} `{!SwiftContainer S C} `{!SwiftHeaderOk S C} `{!BPlusTree T} `{!BPlusTreeReadOk T}.

Local Abbreviation vol := (volumeStruct C T).
Local Abbreviation HH A := (St (vol * S) error A).

(** The reserved range in memory is within the reserved range in Swift, and
    every nonce handed out so far is below the next one. *)
Record ninv (w : vol * S) : Prop := {
  n_version : checkpointHeaderVersion w.1 = checkpointHeaderVersion2;
  n_reserve : 0 < nonceValuesToReserve w.1 < 65536;
  n_header : header_in_range (checkpointHeader w.1);
  n_stored : exists ph, headerOf w.2 = Some (headerValueV2 ph) /\ header_in_range ph
                        /\ ReservedToNonce (checkpointHeader w.1) <= ReservedToNonce ph;
  n_next : 0 <= nextNonce w.1 <= ReservedToNonce (checkpointHeader w.1);
  n_room : nextNonce w.1 <= two64 - 65536;
  n_nodup : NoDup (nonceLog w.1);
  n_log : Forall (fun n => 0 <= n < nextNonce w.1) (nonceLog w.1)
}.

(** The log only grows, and the invariant survives while nonces are small. *)
Definition nrel (w w' : vol * S) : Prop :=
  exists new, nonceLog w'.1 = new ++ nonceLog w.1
              /\ (ninv w -> Forall small (nonceLog w'.1) -> ninv w').

#[local] Instance nrel_preorder : PreOrder nrel.
Proof.
  split.
  - intros w. by exists [].
  - intros w1 w2 w3 (n1 & E1 & H1) (n2 & E2 & H2). exists (n2 ++ n1).
    split; [by rewrite E2, E1, app_assoc|]. intros Hw Hs. apply H2; [|done]. apply H1; [done|].
    rewrite E2, Forall_app in Hs. apply Hs.
Qed.

(** What the invariant depends on. *)
Definition nonceView (v : vol) :=
  (checkpointHeaderVersion v, nonceValuesToReserve v, checkpointHeader v, nextNonce v, nonceLog v).

Lemma nrel_frame w w' : nonceView w'.1 = nonceView w.1 -> headerOf w'.2 = headerOf w.2 -> nrel w w'.
Proof.
  intros Hv Hh. unfold nonceView in Hv. injection Hv as E1 E2 E3 E4 E5. exists []. split; [done|].
  intros [H1 H2 H3 H4 H5 Hr H6 H7] _. split; rewrite ?E1, ?E2, ?E3, ?E4, ?E5, ?Hh; done.
Qed.

Lemma nrel_modFst f : (forall v, nonceView (f v) = nonceView v) -> keeps nrel (modFst (E := error) f).
Proof. intros Hf. apply keeps_mod. intros w. apply nrel_frame; [apply Hf | done]. Qed.

Lemma nrel_liftSnd {A} (m : St S error A) :
  keeps (fun s s' => headerOf s' = headerOf s) m -> keeps nrel (liftSnd (V := vol) m).
Proof.
  intros Hm [v s] [v' s'] r. unfold liftSnd. simpl. destruct (m s) as [s1 o] eqn:E. intros [= <- <- <-].
  apply nrel_frame; [done|]. by apply (Hm s s1 o).
Qed.

Lemma nrel_getFst : keeps nrel (getFst (E := error)).
Proof. intros w w' r [= <- <-]. reflexivity. Qed.

(** Posting a header whose reserved range covers the nonces handed out. *)
Lemma post_header (w w' : vol * S) r h :
  liftSnd (ContainerPost {[CheckpointHeaderName := [headerValueV2 h]]}) w = (w', r) ->
  w'.1 = w.1 /\ (headerOf w'.2 = Some (headerValueV2 h) \/ (headerOf w'.2 = headerOf w.2 /\ r <> Ret tt)).
Proof.
  unfold liftSnd. destruct w as [v s]. simpl. destruct (ContainerPost _ s) as [s1 o] eqn:E. intros [= <- <-].
  split; [done|]. simpl. apply (post_law _ _ _ _ _ E). apply lookup_singleton_eq.
Qed.

Lemma ninv_next w n' :
  ninv w -> nextNonce w.1 = ReservedToNonce (checkpointHeader w.1) ->
  n' = ReservedToNonce (checkpointHeader w.1) +u nonceValuesToReserve w.1 ->
  n' = nextNonce w.1 + nonceValuesToReserve w.1
  /\ header_in_range ((checkpointHeader w.1) <| ReservedToNonce := n' |>).
Proof.
  intros [H1 H2 (H3 & H3' & H3'') H4 H5 Hr H6 H7] Heq ->. rewrite <- Heq, uadd_small by lia.
  unfold header_in_range, is_u64 in *. simpl. lia.
Qed.

(** One nonce, handed out from a range that is reserved in Swift. *)
Lemma ninv_take v s :
  ninv (v, s) -> nextNonce v < ReservedToNonce (checkpointHeader v) -> small (nextNonce v) ->
  ninv (v <| nextNonce := nextNonce v +u 1 |> <| nonceLog := nextNonce v :: nonceLog v |>, s).
Proof.
  unfold small. intros [H1 H2 H3 H4 H5 Hr H6 H7] Hlt Hs. simpl in *.
  split; simpl; try done; rewrite ?(uadd_small (nextNonce v)) by lia; try lia.
  - apply NoDup_cons. split; [|done]. intros Hin. rewrite Forall_forall in H7. specialize (H7 _ Hin). simpl in H7. lia.
  - constructor; [lia|]. eapply Forall_impl; [exact H7|]. simpl. lia.
Qed.

Lemma fetchNonce_cases w w' r :
  fetchNonceWhileLocked w = (w', r) ->
  exists w1 : vol * S,
    nrel w w1 /\ nonceLog w1.1 = nonceLog w.1
    /\ ((w' = w1 /\ forall n, r <> Ret n) \/
        (r = Ret (nextNonce w.1) /\ (ninv w -> nextNonce w.1 < ReservedToNonce (checkpointHeader w1.1))
         /\ nextNonce w1.1 = nextNonce w.1
         /\ w' = (w1.1 <| nextNonce := nextNonce w1.1 +u 1 |> <| nonceLog := nextNonce w1.1 :: nonceLog w1.1 |>, w1.2))).
Proof.
  unfold fetchNonceWhileLocked, sbind at 1, getFst at 1. cbn [fst snd].
  destruct (Z.eqb_spec (nextNonce w.1) (ReservedToNonce (checkpointHeader w.1))) as [Heq|Hne].
  2: { intros [= <- <-]. exists w. split; [reflexivity|]. split; [done|]. right. split; [done|].
       split; [|done]. intros [_ _ _ _ H5 _ _ _]. lia. }
  set (n' := _ +u _). intros HE. unfold sbind at 1, sbind at 1 in HE.
  match type of HE with context [liftSnd ?m w] => destruct (liftSnd m w) as [w1 o] eqn:E1 end.
  set (w2 := (w1.1 <| checkpointHeader := (checkpointHeader w1.1) <| ReservedToNonce := n' |> |>, w1.2)).
  assert (Hw1 : w1.1 = w.1).
  { unfold liftSnd in E1. destruct (ContainerPost _ w.2) as [s1 o1]. by injection E1 as <- _. }
  assert (Hpost : ninv w -> headerOf w1.2 = Some (headerValueV2 ((checkpointHeader w.1) <| ReservedToNonce := n' |>))
                            \/ (headerOf w1.2 = headerOf w.2 /\ o <> Ret tt)).
  { intros Hi. rewrite (n_version w Hi) in E1. by apply post_header in E1 as [_ Hp]. }
  assert (Hrel1 : nrel w w1).
  { exists []. rewrite Hw1. split; [done|]. intros Hi _. destruct (ninv_next w n' Hi Heq eq_refl) as [En Hr].
    destruct (Hpost Hi) as [Hp|[Hp _]]; destruct Hi as [H1 H2 H3 H4 H5 Hr' H6 H7]; split; rewrite ?Hw1, ?Hp; try done.
    eexists. split; [reflexivity|]. split; [done|]. simpl. lia. }
  destruct o as [[]|e|]; injection HE as <- <-.
  2,3: exists w1; split; [done|]; split; [by rewrite Hw1|]; by left.
  exists w2. split.
  - exists []. subst w2. simpl. rewrite Hw1. split; [done|]. intros Hi _.
    destruct (ninv_next w n' Hi Heq eq_refl) as [En Hr]. destruct (Hpost Hi) as [Hp|[_ Hp]]; [|done].
    destruct Hi as [H1 H2 H3 H4 H5 Hr' H6 H7]. split; simpl; rewrite ?Hw1, ?Hp; try done; try lia.
    by eexists.
  - subst w2. simpl. rewrite Hw1. split; [done|]. right. split; [done|]. split; [|done].
    intros Hi. destruct (ninv_next w n' Hi Heq eq_refl) as [En _]. pose proof (n_reserve w Hi). lia.
Qed.

Lemma nrel_fetchNonce : keeps nrel fetchNonceWhileLocked.
Proof.
  intros w w' r HE. apply fetchNonce_cases in HE as ([v1 s1] & Hrel & Hlog & [[-> _]|(-> & Hlt & Hn & ->)]); [done|].
  destruct Hrel as (new & Enew & Hrel). simpl in *. exists [nextNonce v1]. simpl. rewrite Hlog. split; [done|].
  intros Hi Hs. apply Forall_cons in Hs as [Hs1 Hs2]. rewrite Hlog in Hrel. rewrite <- Hlog.
  apply ninv_take; [by apply Hrel | rewrite Hn; by apply Hlt | done].
Qed.

Lemma fetchNonce_logged (w w' : vol * S) n :
  fetchNonceWhileLocked w = (w', Ret n) -> exists l, nonceLog w'.1 = n :: l.
Proof.
  intros HE. apply fetchNonce_cases in HE as (w1 & _ & _ & [[_ Hbad]|(E & _ & Hn & ->)]).
  - by destruct (Hbad n).
  - injection E as ->. rewrite <- Hn. simpl. eauto.
Qed.

(** ** Every operation keeps [nrel] *)

Ltac nrel_step :=
  lazymatch goal with
  | |- keeps nrel (sbind _ _) => apply keeps_bind; [apply _ | | intros ?]
  | |- keeps nrel (stry _) => apply keeps_try
  | |- keeps nrel (sret _) => apply keeps_ret; apply _
  | |- keeps nrel (serr _) => apply keeps_err; apply _
  | |- keeps nrel spanic => apply keeps_panic; apply _
  | |- keeps nrel (slift _) => apply keeps_lift; apply _
  | |- keeps nrel getFst => apply nrel_getFst
  | |- keeps nrel (sfor _ _) => apply keeps_for; [apply _ | intros ?]
  | |- keeps nrel (modFst _) => apply nrel_modFst; intros ?; done
  | |- keeps nrel (match ?x with _ => _ end) => destruct x
  end.

Create HintDb nonce.
#[local] Hint Resolve accountPost_frame objectTail_frame objectGet_frame fetchContext_frame bytesPut_frame
  sendChunk_frame close_frame delete_frame nrel_liftSnd nrel_fetchNonce : nonce.
#[local] Hint Extern 5 (keeps nrel _) => nrel_step : nonce.

Ltac nrel_auto := repeat (nrel_step || solve [auto with nonce]).

(** The number of the checkpoint object is a nonce, or 0 after a failure. *)
Lemma nrel_open : keeps nrel openCheckpointChunkedPutContextIfNecessary.
Proof.
  unfold openCheckpointChunkedPutContextIfNecessary.
  apply keeps_bind; [apply _ | apply nrel_getFst | intros volume]. destruct (checkpointChunkedPutContext volume); [nrel_auto|].
  intros w w' r HE. unfold sbind at 1, stry at 1 in HE.
  destruct (fetchNonceWhileLocked w) as [w1 o] eqn:E1.
  pose proof (nrel_fetchNonce w w1 o E1) as Hrel.
  assert (Hset : forall n, (ninv w1 -> is_u64 n) ->
    nrel w1 (w1.1 <| checkpointHeader := (checkpointHeader w1.1) <| CheckpointObjectTrailerV2StructObjectNumber := n |> |>, w1.2)).
  { intros n Hn. exists []. split; [done|]. intros Hi _. specialize (Hn Hi). destruct Hi as [H1 H2 (H3 & H3' & H3'') H4 H5 Hr H6 H7].
    by split. }
  transitivity w1; [done|]. destruct o as [n|e|].
  - assert (Hn : ninv w1 -> is_u64 n).
    { intros Hi. destruct (fetchNonce_logged w w1 n E1) as [l El]. destruct Hi as [H1 H2 H3 H4 H5 Hr H6 H7].
      rewrite El, Forall_cons in H7. destruct H7 as [H7 _]. unfold is_u64. lia. }
    specialize (Hset n Hn). unfold sbind at 1, modFst at 1, smod in HE. cbn [fst snd] in HE.
    etransitivity; [exact Hset|]. 
    match type of HE with ?m _ = _ => assert (Hk : keeps nrel m) by nrel_auto; exact (Hk _ _ _ HE) end.
  - injection HE as <- <-. apply Hset. by intros.
  - injection HE as <- <-. reflexivity.
Qed.

#[local] Hint Resolve nrel_open : nonce.

Lemma nrel_setLayout w (f : vol -> LayoutReport) : keeps nrel (modFst (E := error) (fun v => setLayout w (f v) v)).
Proof. apply nrel_modFst. intros v. by destruct w. Qed.

Lemma nrel_setTree w t : keeps nrel (modFst (E := error) (setTree w t)).
Proof. apply nrel_modFst. intros v. by destruct w. Qed.

#[local] Hint Resolve nrel_setLayout nrel_setTree : nonce.

Lemma nrel_closeAndDrop c : keeps nrel (closeAndDrop c).
Proof. unfold closeAndDrop. nrel_auto. Qed.

#[local] Hint Resolve nrel_closeAndDrop : nonce.

Lemma nrel_PutNode w b : keeps nrel (PutNode w b).
Proof.
  unfold PutNode, bytesPutToCheckpointChunkedPutContext, sendChunkToCheckpointChunkedPutContext,
    closeCheckpointChunkedPutContextIfNecessary. nrel_auto.
Qed.

Lemma nrel_DiscardNode w n o l : keeps nrel (DiscardNode w n o l).
Proof. unfold DiscardNode. nrel_auto. Qed.

#[local] Hint Resolve nrel_PutNode nrel_DiscardNode : nonce.

Lemma nrel_runNode {A} w (p : nodeProg A) : keeps nrel (runNode w p).
Proof. induction p; simpl; unfold GetNode; nrel_auto. Qed.

#[local] Hint Resolve nrel_runNode : nonce.

Lemma nrel_onTree {A} w (op : T -> nodeProg (T * res A)) : keeps nrel (onTree w op).
Proof. unfold onTree. nrel_auto. Qed.

#[local] Hint Resolve nrel_onTree : nonce.

(** The header that a checkpoint posts has the reserved range in memory. *)
Lemma nrel_postHeader : keeps nrel postHeader.
Proof.
  intros w w' r HE. unfold postHeader, sbind, getFst in HE. cbn [fst snd] in HE.
  assert (HP : liftSnd (ContainerPost {[CheckpointHeaderName := [headerValueV2 (checkpointHeader w.1)]]}) w = (w', r)).
  { destruct (liftSnd _ w) as [w1 [[]|e|]] in *; done. }
  apply post_header in HP as [Hw Hp]. exists []. rewrite Hw. split; [done|].
  intros [H1 H2 H3 H4 H5 Hr H6 H7] _. split; rewrite ?Hw; try done. destruct Hp as [Hp|[Hp _]]; rewrite Hp; [|done].
  eexists. split; [reflexivity|]. split; [done|lia].
Qed.

Lemma nrel_setLength n : is_u64 n ->
  keeps nrel (modFst (E := error) (fun v : vol => v <| checkpointHeader :=
    (checkpointHeader v) <| CheckpointObjectTrailerV2StructObjectLength := n |> |>)).
Proof.
  intros Hn. apply keeps_mod. intros w. exists []. split; [done|].
  intros [H1 H2 (H3 & H3' & H3'') H4 H5 Hr H6 H7] _. by split.
Qed.

Lemma nrel_setVersion2 :
  keeps nrel (modFst (E := error) (fun v : vol => v <| checkpointHeaderVersion := checkpointHeaderVersion2 |>)).
Proof.
  apply keeps_mod. intros w. exists []. split; [done|].
  intros [H1 H2 H3 H4 H5 Hr H6 H7] _. by split.
Qed.

Lemma nrel_deleteUnusedObjects : keeps nrel deleteUnusedObjects.
Proof. unfold deleteUnusedObjects, deleteIfUnused, fetchNextCheckPointDoneWaitGroupWhileLocked. nrel_auto. Qed.

Lemma nrel_flushTree w : keeps nrel (flushTree w).
Proof. unfold flushTree. nrel_auto. Qed.

#[local] Hint Resolve nrel_deleteUnusedObjects nrel_flushTree nrel_setVersion2 : nonce.

#[local] Hint Resolve nrel_postHeader : nonce.

Lemma nrel_putCheckpoint : keeps nrel putCheckpoint.
Proof.
  unfold putCheckpoint, bytesPutToCheckpointChunkedPutContext, sendChunkToCheckpointChunkedPutContext,
    closeCheckpointChunkedPutContext.
  nrel_auto. apply nrel_setLength, u64_range.
Qed.

#[local] Hint Resolve nrel_putCheckpoint : nonce.

(** ** Histories with restarts *)

Inductive apiCall :=
| CFetchNonce
| CGetInodeRec (n : Z)
| CPutInodeRec (n : Z) (b : bytes)
| CPutInodeRecs (ns : list Z) (bs : list bytes)
| CDeleteInodeRec (n : Z)
| CGetLogSegmentRec (n : Z)
| CPutLogSegmentRec (n : Z) (b : bytes)
| CDeleteLogSegmentRec (n : Z)
| CGetBPlusTreeObject (n : Z)
| CPutBPlusTreeObject (n : Z) (b : bytes)
| CDeleteBPlusTreeObject (n : Z)
| CDoCheckpoint.

Definition discard {A} (m : HH A) : HH unit := _ <~ m ;; sret tt.

Definition runCall (c : apiCall) : HH unit :=
  match c with
  | CFetchNonce => discard FetchNonce
  | CGetInodeRec n => discard (GetInodeRec n)
  | CPutInodeRec n b => PutInodeRec n b
  | CPutInodeRecs ns bs => PutInodeRecs ns bs
  | CDeleteInodeRec n => DeleteInodeRec n
  | CGetLogSegmentRec n => discard (GetLogSegmentRec n)
  | CPutLogSegmentRec n b => PutLogSegmentRec n b
  | CDeleteLogSegmentRec n => DeleteLogSegmentRec n
  | CGetBPlusTreeObject n => discard (GetBPlusTreeObject n)
  | CPutBPlusTreeObject n b => PutBPlusTreeObject n b
  | CDeleteBPlusTreeObject n => DeleteBPlusTreeObject n
  | CDoCheckpoint => DoCheckpoint
  end.

Lemma nrel_runCall c : keeps nrel (runCall c).
Proof.
  destruct c; simpl; unfold discard, FetchNonce, GetInodeRec, PutInodeRec, PutInodeRecs, DeleteInodeRec, GetLogSegmentRec,
    PutLogSegmentRec, DeleteLogSegmentRec, GetBPlusTreeObject, PutBPlusTreeObject, DeleteBPlusTreeObject, DoCheckpoint,
    putRec; nrel_auto.
Qed.

(** A volume as [upVolume] makes it before [getCheckpoint], from the
    configuration of [v]; the history of nonces is carried over. *)
Definition unmounted (v : vol) : vol :=
  v <| checkpointFlushedData := false |> <| checkpointChunkedPutContext := None |>
    <| checkpointDoneWaitGroup := None |> <| nextNonce := 0 |> <| checkpointHeaderVersion := 0 |>
    <| checkpointHeader := mkHeader 0 0 0 |> <| checkpointObjectTrailer := emptyTrailer |>
    <| inodeRecBPlusTreeLayout := ∅ |> <| logSegmentRecBPlusTreeLayout := ∅ |> <| bPlusTreeObjectBPlusTreeLayout := ∅ |>.

(** Any sequence of calls, with any result including a crash, and restarts
    that mount the volume again from what is in Swift. *)
Inductive hhistory (w0 : vol * S) : vol * S -> Prop :=
| HStart : hhistory w0 w0
| HCall w c w' r : hhistory w0 w -> runCall c w = (w', r) -> hhistory w0 w'
| HRestart w w' : hhistory w0 w ->
    getCheckpoint false (unmounted w.1, w.2) = (w', Ret tt) ->
    nextNonce w'.1 <= two64 - 65536 -> hhistory w0 w'.

(** ** Mounting *)

Definition frame (w w' : vol * S) : Prop := nonceView w'.1 = nonceView w.1 /\ headerOf w'.2 = headerOf w.2.

#[local] Instance frame_preorder : PreOrder frame.
Proof. split; [done|]. intros w1 w2 w3 [E1 E2] [E3 E4]. split; congruence. Qed.

Lemma frame_modFst f : (forall v, nonceView (f v) = nonceView v) -> keeps frame (modFst (E := error) f).
Proof. intros Hf. apply keeps_mod. intros w. split; [apply Hf | done]. Qed.

Lemma frame_liftSnd {A} (m : St S error A) :
  keeps (fun s s' => headerOf s' = headerOf s) m -> keeps frame (liftSnd (V := vol) m).
Proof.
  intros Hm [v s] [v' s'] r. unfold liftSnd. simpl. destruct (m s) as [s1 o] eqn:E. intros [= <- <- <-].
  split; [done|]. by apply (Hm s s1 o).
Qed.

Lemma frame_setTree w t : keeps frame (modFst (E := error) (setTree w t)).
Proof. apply frame_modFst. intros v. by destruct w. Qed.

Lemma frame_runNode {A} w (p : nodeProg A) : readOnly p -> keeps frame (runNode w p).
Proof.
  induction 1 as [a|n o l k _ IH]; simpl; [apply keeps_ret; apply _|].
  apply keeps_bind; [apply _| |exact IH]. apply keeps_try, frame_liftSnd, objectGet_frame.
Qed.

Lemma frame_loadTreeV2 w : keeps frame (loadTreeV2 w).
Proof.
  unfold loadTreeV2. apply keeps_bind; [apply _|by intros ? ? ? [= <- <-]|intros v].
  unfold loadTree. destruct (rootOf w _) as [[n o] l]. destruct (0 =? n); [apply frame_setTree|].
  apply keeps_bind; [apply _|apply frame_runNode, old_reads|intros r].
  apply keeps_bind; [apply _|apply keeps_lift, _|intros t]. apply frame_setTree.
Qed.

Lemma fetchHeader_ok w w' v :
  fetchOrCreateHeader false w = (w', Ret v) -> headerOf w.2 = Some v /\ frame w w'.
Proof.
  unfold fetchOrCreateHeader, sbind, stry, liftSnd. destruct (ContainerHead w.2) as [s1 o] eqn:E.
  apply head_law in E as [Hf Hl]. destruct o as [hs|e|]; try done.
  destruct (hs !! CheckpointHeaderName) as [[|x [|y l]]|] eqn:E2; try done. intros [= <- <-].
  split; [by eapply Hl | done].
Qed.

Lemma mount_parsed b (w w1 w' : vol * S) v ph :
  fetchOrCreateHeader b w = (w1, Ret v) -> parseHeader v = Ret (HeaderV2 ph) ->
  getCheckpoint b w = (w', Ret tt) ->
  exists wm, frame (w1.1 <| checkpointHeaderVersion := checkpointHeaderVersion2 |> <| checkpointHeader := ph |>, w1.2) wm
             /\ w' = (wm.1 <| nextNonce := ReservedToNonce (checkpointHeader wm.1) |>, wm.2).
Proof.
  intros E1 Hp. unfold getCheckpoint, sbind at 1. rewrite E1.
  unfold sbind at 1, slift at 1. rewrite Hp. unfold sbind at 1. set (m := modFst _ ;;~ _). intros HE.
  destruct (m w1) as [wm [[]|e|]] eqn:E2; try done. injection HE as <-. exists wm. split; [|done].
  subst m. unfold sbind at 1, modFst at 1, smod in E2.
  match type of E2 with ?m _ = _ => assert (Hk : keeps frame m) end; [|exact (Hk _ _ _ E2)].
  apply keeps_bind; [apply _| |intros [[[t li] ll] lb]].
  - destruct (0 =? _); [apply keeps_ret, _|].
    apply keeps_bind; [apply _|apply frame_liftSnd, objectTail_frame|intros buf]. apply keeps_lift, _.
  - repeat (apply keeps_bind; [apply _|by apply frame_modFst || apply frame_loadTreeV2|intros []]). apply frame_loadTreeV2.
Qed.

Lemma mount_ok w w' ph :
  headerOf w.2 = Some (headerValueV2 ph) -> header_in_range ph ->
  getCheckpoint false w = (w', Ret tt) ->
  checkpointHeader w'.1 = ph /\ nextNonce w'.1 = ReservedToNonce ph
  /\ checkpointHeaderVersion w'.1 = checkpointHeaderVersion2
  /\ nonceValuesToReserve w'.1 = nonceValuesToReserve w.1 /\ nonceLog w'.1 = nonceLog w.1
  /\ headerOf w'.2 = headerOf w.2.
Proof.
  intros Hs Hr HG. destruct (fetchOrCreateHeader false w) as [w1 [v|e|]] eqn:E1;
    [|unfold getCheckpoint, sbind at 1 in HG; by rewrite E1 in HG..].
  pose proof (fetchHeader_ok _ _ _ E1) as [Hv [F1 F2]]. rewrite Hs in Hv. injection Hv as <-.
  destruct (mount_parsed false w w1 w' _ ph E1 (parseHeader_V2 ph Hr) HG) as (wm & [Hvw Hh] & ->).
  unfold nonceView in *. simpl in *. injection Hvw as G1 G2 G3 G4 G5. injection F1 as K1 K2 K3 K4 K5. simpl.
  split_and!; congruence.
Qed.

Lemma restart_ninv w w' :
  ninv w -> getCheckpoint false (unmounted w.1, w.2) = (w', Ret tt) -> nextNonce w'.1 <= two64 - 65536 -> ninv w'.
Proof.
  intros [H1 H2 H3 (ph & Hph & Hin & Hle) H5 Hr H6 H7] HE Hroom.
  apply (mount_ok _ _ ph) in HE as (E1 & E2 & E3 & E4 & E5 & E6); [|done..]. simpl in *.
  split; rewrite ?E1, ?E2, ?E3, ?E4, ?E5, ?E6 in *; try done.
  - by exists ph.
  - destruct Hin as (_ & _ & Hin). unfold is_u64 in Hin. lia.
  - eapply Forall_impl; [exact H7|]. simpl. lia.
Qed.

(** Whatever a mount reads, the history of nonces only grows. *)
Definition lrel (w w' : vol * S) : Prop := exists new, nonceLog w'.1 = new ++ nonceLog w.1.

#[local] Instance lrel_preorder : PreOrder lrel.
Proof.
  split; [by exists []|]. intros w1 w2 w3 [n1 E1] [n2 E2]. exists (n2 ++ n1). by rewrite E2, E1, app_assoc.
Qed.

Lemma lrel_nrel {A} (m : HH A) : keeps nrel m -> keeps lrel m.
Proof. intros Hm w w' r HE. destruct (Hm _ _ _ HE) as (new & E & _). by exists new. Qed.

Lemma lrel_modFst f : (forall v : vol, nonceLog (f v) = nonceLog v) -> keeps lrel (modFst (E := error) f).
Proof. intros Hf. apply keeps_mod. intros w. exists []. apply Hf. Qed.

Lemma lrel_liftSnd {A} (m : St S error A) : keeps lrel (liftSnd (V := vol) m).
Proof.
  intros w w' r. unfold liftSnd. destruct (m w.2). intros [= <- <-]. by exists [].
Qed.

Lemma lrel_loadTree w root k : keeps lrel (loadTree w root k).
Proof.
  unfold loadTree. destruct root as [[n o] l]. destruct (0 =? n); [apply lrel_nrel, nrel_setTree|].
  apply keeps_bind; [apply _|apply lrel_nrel, nrel_runNode|intros r].
  apply keeps_bind; [apply _|apply keeps_lift, _|intros t]. apply lrel_nrel, nrel_setTree.
Qed.

Ltac lrel_auto :=
  repeat lazymatch goal with
  | |- keeps lrel (sbind _ _) => apply keeps_bind; [apply _ | | intros ?]
  | |- keeps lrel (stry _) => apply keeps_try
  | |- keeps lrel (sret _) => apply keeps_ret; apply _
  | |- keeps lrel (serr _) => apply keeps_err; apply _
  | |- keeps lrel (slift _) => apply keeps_lift; apply _
  | |- keeps lrel (liftSnd _) => apply lrel_liftSnd
  | |- keeps lrel (loadTree _ _ _) => apply lrel_loadTree
  | |- keeps lrel (modFst (setLayout _ _)) => apply lrel_nrel, nrel_setLayout
  | |- keeps lrel (modFst _) => apply lrel_modFst; intros ?; reflexivity
  | |- keeps lrel getFst => apply lrel_nrel, nrel_getFst
  | |- keeps lrel (onTree _ _) => apply lrel_nrel, nrel_onTree
  | |- keeps lrel (match ?x with _ => _ end) => destruct x
  end.

Lemma lrel_getCheckpoint b : keeps lrel (getCheckpoint b).
Proof. unfold getCheckpoint, fetchOrCreateHeader, loadTreeV1, loadTreeV2. lrel_auto. Qed.

(** C32. No nonce (so no inode number, log segment number or object number) is
    handed out twice: over any history of calls, failures, crashes and
    restarts from the header stored in Swift, the values [FetchNonce] and the
    checkpoint code obtained are pairwise different, as long as they leave room
    for a reservation below 2^64 and the configuration reserves at least one
    value at a time. *)
Theorem nonces_unique w0 w :
  ninv w0 -> hhistory w0 w -> Forall small (nonceLog w.1) -> NoDup (nonceLog w.1).
Proof.
  intros H0 Hh Hs. apply n_nodup.
  induction Hh as [|w c w' r Hh IH HE|w w' Hh IH HE Hroom]; [done| |].
  - apply nrel_runCall in HE as (new & El & Hinv). apply Hinv; [apply IH|done].
    rewrite El, Forall_app in Hs. apply Hs.
  - destruct (lrel_getCheckpoint false _ _ _ HE) as [new El]. simpl in El.
    eapply restart_ninv; [apply IH|done|done]. rewrite El, Forall_app in Hs. apply Hs.
Qed.

(** ** The first nonce *)

Lemma format_header (w w1 : vol * S) s1 e v :
  ContainerHead w.2 = (s1, Err e) -> HTTPCode (Some e) = 404 -> fetchOrCreateHeader true w = (w1, Ret v) ->
  v = headerValueV2 (mkHeader 0 0 1).
Proof.
  intros Hh H4 HE. unfold fetchOrCreateHeader, sbind at 1, stry at 1, liftSnd at 1 in HE. rewrite Hh in HE.
  cbn [fst snd] in HE. rewrite H4 in HE. cbn [andb Z.eqb Pos.eqb] in HE.
  unfold sbind, getFst, liftSnd, sret in HE. cbn [fst snd] in HE.
  destruct (ContainerPut _ s1) as [s2 [[]|e2|]]; try done. cbn [fst snd] in HE.
  destruct (AccountPost _ s2) as [s3 [[]|e3|]]; try done. injection HE as _ <-. reflexivity.
Qed.

Lemma parse_formatted : parseHeader (headerValueV2 (mkHeader 0 0 1)) = Ret (HeaderV2 (mkHeader 0 0 1)).
Proof. vm_compute. reflexivity. Qed.

(** The first nonce that a newly formatted volume provides is 1, the number
    of the root directory's inode, and not [firstNonceToProvide]: formatting
    stores [firstNonceToProvide - 1] as the reserved nonce, and mounting starts
    at the reserved nonce itself. *)
Theorem formatted_first_nonce (w : vol * S) s1 e w' w'' n :
  ContainerHead w.2 = (s1, Err e) -> HTTPCode (Some e) = 404 ->
  getCheckpoint true w = (w', Ret tt) -> FetchNonce w' = (w'', Ret n) ->
  n = firstNonceToProvide - 1.
Proof.
  intros Hh H4 HG HF.
  assert (Hn : nextNonce w'.1 = 1).
  { destruct (fetchOrCreateHeader true w) as [w1 [v|e1|]] eqn:E1.
    - pose proof (format_header _ _ _ _ _ Hh H4 E1) as Hv.
      assert (Hp : parseHeader v = Ret (HeaderV2 (mkHeader 0 0 1))) by (rewrite Hv; apply parse_formatted).
      destruct (mount_parsed true w w1 w' v _ E1 Hp HG) as (wm & [Hvw _] & ->). unfold nonceView in Hvw. simpl in *.
      injection Hvw as _ _ G3 _ _. by rewrite G3.
    - unfold getCheckpoint, sbind at 1 in HG. by rewrite E1 in HG.
    - unfold getCheckpoint, sbind at 1 in HG. by rewrite E1 in HG. }
  apply fetchNonce_cases in HF as (w3 & _ & _ & [[_ Hbad]|(E & _)]); [by destruct (Hbad n)|]. injection E as ->. by rewrite Hn.
Qed.

End Nonces.
