(* ===== verification/HeadhunterLayout.v ===== *)
(** The layout reports account for the bytes of the live B+Tree nodes, so that
    a checkpoint deletes only objects without live nodes.

    [live] is the list of nodes put and not yet discarded, each with its
    B+Tree, the object it is in and its length. *)

From S2P Require Import Prelude Blunder Utils HeadhunterCodec Headhunter.
Open Scope list_scope.

Definition liveNode : Type := wrapperType * Z * Z.

Definition liveBytes (live : list liveNode) (w : wrapperType) (n : Z) : Z :=
  zsum (map snd (filter (fun p : liveNode => p.1 = (w, n)) live)).

Definition objectBytes (live : list liveNode) (n : Z) : Z :=
  liveBytes live inodeRecBPlusTreeWrapperType n + liveBytes live logSegmentRecBPlusTreeWrapperType n
  + liveBytes live bPlusTreeObjectBPlusTreeWrapperType n.

(** Nodes are not empty and an object is shorter than 2^64 bytes. *)
Definition sized (live : list liveNode) : Prop :=
  Forall (fun p => 0 < p.2) live /\ forall n, objectBytes live n < two64.

Lemma liveBytes_cons w' n' len live w n :
  liveBytes ((w', n', len) :: live) w n = (if bool_decide ((w', n') = (w, n)) then len else 0) + liveBytes live w n.
Proof.
  unfold liveBytes. rewrite filter_cons. simpl. destruct (decide ((w', n') = (w, n))) as [E|E].
  - rewrite bool_decide_eq_true_2 by done. done.
  - rewrite bool_decide_eq_false_2 by done. lia.
Qed.

Lemma liveBytes_perm live live' w n : live ≡ₚ live' -> liveBytes live w n = liveBytes live' w n.
Proof.
  induction 1 as [|[[w1 n1] l1] l l' _ IH|[[w1 n1] l1] [[w2 n2] l2] l|l l' l'' _ IH1 _ IH2];
    rewrite ?liveBytes_cons; lia || done || congruence.
Qed.

Lemma liveBytes_nonneg live w n : Forall (fun p => 0 < p.2) live -> 0 <= liveBytes live w n.
Proof.
  induction 1 as [|[[w1 n1] l1] live H _ IH]; [done|]. rewrite liveBytes_cons. simpl in H. case_bool_decide; lia.
Qed.

Lemma liveBytes_in w n len live :
  Forall (fun p => 0 < p.2) live -> (w, n, len) ∈ live -> 0 < len <= liveBytes live w n.
Proof.
  induction 1 as [|[[w1 n1] l1] live H Hall IH]; intros Hin; [by apply not_elem_of_nil in Hin|].
  rewrite liveBytes_cons. simpl in H. apply elem_of_cons in Hin as [[= <- <- <-]|Hin].
  - rewrite bool_decide_eq_true_2 by done. pose proof (liveBytes_nonneg live w n Hall). lia.
  - specialize (IH Hin). case_bool_decide; lia.
Qed.

Lemma liveBytes_le_object live w n : Forall (fun p => 0 < p.2) live -> liveBytes live w n <= objectBytes live n.
Proof.
  intros H. unfold objectBytes.
  pose proof (liveBytes_nonneg live inodeRecBPlusTreeWrapperType n H).
  pose proof (liveBytes_nonneg live logSegmentRecBPlusTreeWrapperType n H).
  pose proof (liveBytes_nonneg live bPlusTreeObjectBPlusTreeWrapperType n H). destruct w; lia.
Qed.

Lemma objectBytes_cons w k len live n :
  objectBytes ((w, k, len) :: live) n = (if bool_decide (k = n) then len else 0) + objectBytes live n.
Proof.
  unfold objectBytes. rewrite !liveBytes_cons. destruct (decide (k = n)) as [->|Hne].
  - rewrite (bool_decide_eq_true_2 (n = n)) by done. destruct w; simpl; rewrite !bool_decide_eq_true_2 by done;
      rewrite ?bool_decide_eq_false_2 by done; lia.
  - rewrite !bool_decide_eq_false_2 by congruence. lia.
Qed.

Lemma sized_total live : Forall (fun p : liveNode => 0 < p.2) live -> zsum (map snd live) < two64 -> sized live.
Proof.
  intros Hpos Hsum. split; [done|]. intros n. assert (objectBytes live n <= zsum (map snd live)); [|lia]. clear Hsum.
  induction Hpos as [|[[w k] l] live Hl _ IH]; [done|]. rewrite objectBytes_cons. simpl in *. unfold zsum in *. simpl.
  case_bool_decide; lia.
Qed.

(** ** Charging, crediting and adding up layouts *)

Lemma chargeLayout_lookup (l : LayoutReport) n len m :
  (0 <= default 0 (l !! n) + len < two64) ->
  default 0 (chargeLayout l n len !! m) = default 0 (l !! m) + (if bool_decide (m = n) then len else 0).
Proof.
  intros Hb. unfold chargeLayout. destruct (l !! n) as [u|] eqn:E; simpl in Hb;
    (destruct (decide (m = n)) as [->|Hne];
     [rewrite lookup_insert_eq, bool_decide_eq_true_2, E by done | rewrite lookup_insert_ne, bool_decide_eq_false_2 by done]);
    simpl; rewrite ?uadd_small by lia; lia.
Qed.

Lemma creditLayout_lookup (l : LayoutReport) n len :
  0 < len <= default 0 (l !! n) -> default 0 (l !! n) < two64 ->
  exists l', creditLayout l n len = Some l'
             /\ forall m, default 0 (l' !! m) = default 0 (l !! m) - (if bool_decide (m = n) then len else 0).
Proof.
  intros Hl Hb. unfold creditLayout. destruct (l !! n) as [u|] eqn:E; simpl in *; [|lia].
  destruct (Z.ltb_spec u len); [lia|]. eexists. split; [done|]. intros m.
  destruct (decide (m = n)) as [->|Hne].
  - rewrite lookup_insert_eq, bool_decide_eq_true_2, E by done. simpl. apply usub_small. lia.
  - rewrite lookup_insert_ne, bool_decide_eq_false_2 by done. lia.
Qed.

Lemma addLayout_lookup (c l : LayoutReport) :
  (forall n, 0 <= default 0 (c !! n)) -> (forall n, 0 <= default 0 (l !! n)) ->
  (forall n, default 0 (c !! n) + default 0 (l !! n) < two64) ->
  forall n, default 0 (addLayout c l !! n) = default 0 (c !! n) + default 0 (l !! n).
Proof.
  intros Hc. unfold addLayout. revert l.
  apply (map_fold_weak_ind (fun (r l : LayoutReport) =>
    (forall n, 0 <= default 0 (l !! n)) -> (forall n, default 0 (c !! n) + default 0 (l !! n) < two64) ->
    forall n, default 0 (r !! n) = default 0 (c !! n) + default 0 (l !! n))).
  - intros _ _ n. rewrite lookup_empty. simpl. lia.
  - intros k u l r Hk IH Hnn Hb n.
    assert (Hl : forall m, default 0 (l !! m) = default 0 (<[k := u]> l !! m) - (if bool_decide (m = k) then u else 0)).
    { intros m. destruct (decide (m = k)) as [->|Hne].
      - rewrite lookup_insert_eq, Hk, bool_decide_eq_true_2 by done. simpl. lia.
      - rewrite lookup_insert_ne, bool_decide_eq_false_2 by done. lia. }
    assert (Hu : 0 <= u) by (specialize (Hnn k); by rewrite lookup_insert_eq in Hnn).
    assert (IH' : forall m, default 0 (r !! m) = default 0 (c !! m) + default 0 (l !! m)).
    { apply IH; intros m.
      - destruct (decide (m = k)) as [->|Hne]; [by rewrite Hk|]. specialize (Hnn m). by rewrite lookup_insert_ne in Hnn.
      - specialize (Hb m). rewrite Hl. case_bool_decide; lia. }
    rewrite chargeLayout_lookup.
    + rewrite IH', Hl. case_bool_decide; lia.
    + rewrite IH', Hk. simpl. specialize (Hb k). rewrite lookup_insert_eq in Hb. simpl in Hb. specialize (Hc k). lia.
Qed.

Section Layout.

Context {S C T : Type} `{!SwiftContainer S C} `{!BPlusTree T}.

Local Abbreviation vol := (volumeStruct C T).

Definition accounts (v : vol) (live : list liveNode) : Prop :=
  forall w n, default 0 (layoutOf w v !! n) = liveBytes live w n.

Lemma combined_total v live n :
  accounts v live -> sized live -> default 0 (combinedLayout v !! n) = objectBytes live n.
Proof.
  intros Ha [Hpos Hb]. unfold combinedLayout.
  pose proof (Ha inodeRecBPlusTreeWrapperType) as Hi. pose proof (Ha logSegmentRecBPlusTreeWrapperType) as Hl.
  pose proof (Ha bPlusTreeObjectBPlusTreeWrapperType) as Ho. simpl in Hi, Hl, Ho.
  assert (Hnn : forall w m, 0 <= liveBytes live w m) by (intros; by apply liveBytes_nonneg).
  assert (H1 : forall m, default 0 (addLayout ∅ (inodeRecBPlusTreeLayout v) !! m) = liveBytes live inodeRecBPlusTreeWrapperType m).
  { intros m. rewrite addLayout_lookup; intros; rewrite ?lookup_empty; simpl; rewrite ?Hi; try apply Hnn; try lia.
    pose proof (liveBytes_le_object live inodeRecBPlusTreeWrapperType n0 Hpos). specialize (Hb n0). lia. }
  assert (H2 : forall m, default 0 (addLayout (addLayout ∅ (inodeRecBPlusTreeLayout v)) (logSegmentRecBPlusTreeLayout v) !! m)
                         = liveBytes live inodeRecBPlusTreeWrapperType m + liveBytes live logSegmentRecBPlusTreeWrapperType m).
  { intros m. rewrite addLayout_lookup; intros; rewrite ?H1, ?Hl; try apply Hnn; try lia.
    specialize (Hb n0). unfold objectBytes in Hb. specialize (Hnn bPlusTreeObjectBPlusTreeWrapperType n0). lia. }
  rewrite addLayout_lookup; intros; rewrite ?H2, ?Ho; try apply Hnn; try done.
  - pose proof (Hnn inodeRecBPlusTreeWrapperType n0). pose proof (Hnn logSegmentRecBPlusTreeWrapperType n0). lia.
  - apply Hb.
Qed.

(** ** The operations *)

Definition layouts (v : vol) := (inodeRecBPlusTreeLayout v, logSegmentRecBPlusTreeLayout v, bPlusTreeObjectBPlusTreeLayout v).

Definition sameLayouts (w w' : vol * S) : Prop := layouts w'.1 = layouts w.1.

#[local] Instance sameLayouts_preorder : PreOrder sameLayouts.
Proof. split; [done|]. intros w1 w2 w3 E1 E2. unfold sameLayouts in *. congruence. Qed.

Lemma sameLayouts_modFst f : (forall v : vol, layouts (f v) = layouts v) -> keeps sameLayouts (modFst (E := error) f).
Proof. intros Hf. apply keeps_mod. intros w. apply Hf. Qed.

Lemma sameLayouts_liftSnd {A} (m : St S error A) : keeps sameLayouts (liftSnd (V := vol) m).
Proof. intros w w' r. unfold liftSnd. destruct (m w.2). by intros [= <- <-]. Qed.

Ltac layouts_auto :=
  repeat lazymatch goal with
  | |- keeps sameLayouts (sbind _ _) => apply keeps_bind; [apply _ | | intros ?]
  | |- keeps sameLayouts (stry _) => apply keeps_try
  | |- keeps sameLayouts (sret _) => apply keeps_ret; apply _
  | |- keeps sameLayouts (serr _) => apply keeps_err; apply _
  | |- keeps sameLayouts (liftSnd _) => apply sameLayouts_liftSnd
  | |- keeps sameLayouts (modFst _) => apply sameLayouts_modFst; intros ?; reflexivity
  | |- keeps sameLayouts getFst => by intros ? ? ? [= <- <-]
  | |- keeps sameLayouts (match ?x with _ => _ end) => destruct x
  end.

Lemma sameLayouts_open : keeps sameLayouts openCheckpointChunkedPutContextIfNecessary.
Proof. unfold openCheckpointChunkedPutContextIfNecessary, fetchNonceWhileLocked. layouts_auto. Qed.

Lemma sameLayouts_close : keeps sameLayouts closeCheckpointChunkedPutContextIfNecessary.
Proof. unfold closeCheckpointChunkedPutContextIfNecessary, closeAndDrop. layouts_auto. Qed.

Lemma sameLayouts_bytesPut : keeps sameLayouts bytesPutToCheckpointChunkedPutContext.
Proof. unfold bytesPutToCheckpointChunkedPutContext. layouts_auto. Qed.

Lemma sameLayouts_sendChunk b : keeps sameLayouts (sendChunkToCheckpointChunkedPutContext b).
Proof. unfold sendChunkToCheckpointChunkedPutContext. layouts_auto. Qed.

Lemma layoutOf_same w (v v' : vol) : layouts v' = layouts v -> layoutOf w v' = layoutOf w v.
Proof. intros [= H1 H2 H3]. by destruct w. Qed.

Lemma layoutOf_set w w' l (v : vol) : layoutOf w (setLayout w' l v) = if bool_decide (w' = w) then l else layoutOf w v.
Proof. by destruct w, w'. Qed.

Lemma PutNode_charges w b (W W' : vol * S) n o :
  PutNode w b W = (W', Ret (n, o)) ->
  forall u, layoutOf u W'.1 = if bool_decide (w = u) then chargeLayout (layoutOf w W.1) n (zlen b) else layoutOf u W.1.
Proof.
  unfold PutNode, sbind at 1. intros HE. destruct (openCheckpointChunkedPutContextIfNecessary W) as [W1 [[]|e|]] eqn:E1; try done.
  apply sameLayouts_open in E1. unfold sbind at 1, getFst in HE. cbn [fst snd] in HE.
  set (n' := CheckpointObjectTrailerV2StructObjectNumber _) in HE. unfold sbind at 1 in HE.
  destruct (bytesPutToCheckpointChunkedPutContext W1) as [W2 [o'|e|]] eqn:E2; try done.
  apply sameLayouts_bytesPut in E2.
  unfold sbind at 1 in HE. destruct (sendChunkToCheckpointChunkedPutContext b W2) as [W3 [[]|e|]] eqn:E3; try done.
  apply sameLayouts_sendChunk in E3.
  unfold sbind, modFst, smod in HE. cbn [fst snd] in HE.
  destruct (closeCheckpointChunkedPutContextIfNecessary _) as [W4 [[]|e|]] eqn:E4; try done.
  apply sameLayouts_close in E4. injection HE as <- <- <-. intros u.
  unfold sameLayouts in *. simpl in E4. rewrite (layoutOf_same u _ _ E4), layoutOf_set.
  assert (HL : forall x, layoutOf x W3.1 = layoutOf x W.1) by (intros x; apply layoutOf_same; congruence).
  assert (HL' : forall x, layoutOf x (W3.1 <| checkpointFlushedData := true |>) = layoutOf x W3.1) by by intros [].
  rewrite !HL', !HL. done.
Qed.

Lemma put_accounts w b (W W' : vol * S) n o live :
  PutNode w b W = (W', Ret (n, o)) -> accounts W.1 live -> sized ((w, n, zlen b) :: live) ->
  accounts W'.1 ((w, n, zlen b) :: live).
Proof.
  intros HE Ha [Hpos Hb] u m. rewrite (PutNode_charges _ _ _ _ _ _ HE u), liveBytes_cons.
  assert (Hroom : 0 <= default 0 (layoutOf w W.1 !! n) + zlen b < two64).
  { rewrite Ha. pose proof (liveBytes_le_object _ w n Hpos) as Hle. rewrite liveBytes_cons in Hle.
    rewrite bool_decide_eq_true_2 in Hle by done. specialize (Hb n). apply Forall_cons in Hpos as [Hp Hpos].
    pose proof (liveBytes_nonneg live w n Hpos). simpl in Hp. lia. }
  destruct (decide (w = u)) as [<-|Hne].
  - rewrite bool_decide_eq_true_2, chargeLayout_lookup, Ha by done.
    destruct (decide (m = n)) as [->|Hm]; [rewrite !bool_decide_eq_true_2 by done | rewrite !bool_decide_eq_false_2 by congruence]; lia.
  - rewrite !bool_decide_eq_false_2 by congruence. apply Ha.
Qed.

(** Discarding a live node succeeds. *)
Lemma discard_accounts w n o len (W : vol * S) live live' :
  accounts W.1 live -> sized live -> live ≡ₚ (w, n, len) :: live' ->
  exists W', DiscardNode w n o len W = (W', Ret tt) /\ accounts W'.1 live'.
Proof.
  intros Ha [Hpos Hb] HP.
  assert (Hin : (w, n, len) ∈ live) by (rewrite HP; by apply elem_of_cons; left).
  pose proof (liveBytes_in _ _ _ _ Hpos Hin) as Hlen. pose proof (liveBytes_le_object live w n Hpos) as Hle. specialize (Hb n).
  destruct (creditLayout_lookup (layoutOf w W.1) n len) as (l' & E & Hl'); [rewrite Ha; lia | rewrite Ha; lia |].
  unfold DiscardNode, sbind, getFst. cbn [fst snd]. rewrite E. eexists. split; [done|]. intros u m. simpl.
  rewrite layoutOf_set. pose proof (liveBytes_perm _ _ u m HP) as Hp. rewrite liveBytes_cons in Hp.
  destruct (decide (w = u)) as [<-|Hne].
  - rewrite bool_decide_eq_true_2, Hl', Ha by done.
    destruct (decide (m = n)) as [->|Hm]; [rewrite !bool_decide_eq_true_2 in * by done | rewrite !bool_decide_eq_false_2 in * by congruence]; lia.
  - rewrite !bool_decide_eq_false_2 in * by congruence. rewrite Ha. lia.
Qed.

Lemma objectBytes_zero live n w len : sized live -> objectBytes live n = 0 -> (w, n, len) ∉ live.
Proof.
  intros [Hpos _] H0 Hin. pose proof (liveBytes_in _ _ _ _ Hpos Hin). pose proof (liveBytes_le_object live w n Hpos). lia.
Qed.

Lemma liveBytes_zero live n w : sized live -> objectBytes live n = 0 -> liveBytes live w n = 0.
Proof.
  intros [Hpos _] H0. pose proof (liveBytes_le_object live w n Hpos). pose proof (liveBytes_nonneg live w n Hpos). lia.
Qed.

Lemma deleteIfUnused_accounts n u (W W' : vol * S) r live :
  (u = 0 -> objectBytes live n = 0) -> sized live -> accounts W.1 live ->
  deleteIfUnused n u W = (W', r) -> accounts W'.1 live.
Proof.
  intros Hz Hs Ha. unfold deleteIfUnused. destruct (Z.eqb_spec 0 u) as [<-|_]; [|by intros [= <- _]].
  set (v1 := (W.1 <| inodeRecBPlusTreeLayout := delete n (inodeRecBPlusTreeLayout W.1) |>
                  <| logSegmentRecBPlusTreeLayout := delete n (logSegmentRecBPlusTreeLayout W.1) |>
                  <| bPlusTreeObjectBPlusTreeLayout := delete n (bPlusTreeObjectBPlusTreeLayout W.1) |>)).
  intros E1. assert (F : sameLayouts (v1, W.2) W').
  { unfold sbind at 1, modFst at 1, smod in E1.
    match type of E1 with ?m _ = _ => assert (Hk : keeps sameLayouts m); [|exact (Hk _ _ _ E1)] end.
    unfold fetchNextCheckPointDoneWaitGroupWhileLocked. layouts_auto. }
  intros w m. rewrite (layoutOf_same w _ _ F).
  assert (HL : layoutOf w v1 = delete n (layoutOf w W.1)) by by destruct w.
  cbn [fst]. rewrite HL. destruct (decide (m = n)) as [->|Hm].
  - rewrite lookup_delete_eq. symmetry. apply liveBytes_zero; auto.
  - rewrite lookup_delete_ne by done. apply Ha.
Qed.

Lemma cleanup_accounts (W W' : vol * S) r live :
  accounts W.1 live -> sized live -> deleteUnusedObjects W = (W', r) -> accounts W'.1 live.
Proof.
  intros Ha Hs. unfold deleteUnusedObjects, sbind at 1, getFst at 1. cbn [fst snd].
  apply (sfor_inv (fun W => accounts W.1 live)); [|done].
  intros [n u] W1 W2 r' Hin Ha1. cbn [fst snd]. apply deleteIfUnused_accounts; try done. intros ->.
  apply elem_of_map_to_list in Hin. rewrite <- (combined_total W.1 live n Ha Hs). simpl in *. by rewrite Hin.
Qed.

(** Node operations of any of the three B+Trees, in any order: a put node is
    live, and a B+Tree discards nodes it put. *)
Inductive nodeHistory : vol * S -> list liveNode -> Prop :=
| NHStart v s : accounts v [] -> nodeHistory (v, s) []
| NHPut W live w b W' n o : nodeHistory W live ->
    PutNode w b W = (W', Ret (n, o)) -> sized ((w, n, zlen b) :: live) -> nodeHistory W' ((w, n, zlen b) :: live)
| NHDiscard W live live' w n o len W' r : nodeHistory W live ->
    live ≡ₚ (w, n, len) :: live' -> DiscardNode w n o len W = (W', r) -> nodeHistory W' live'
| NHCleanup W live W' r : nodeHistory W live -> deleteUnusedObjects W = (W', r) -> nodeHistory W' live.

Lemma sized_sub live x live' : live ≡ₚ x :: live' -> sized live -> sized live'.
Proof.
  intros HP [Hpos Hb]. destruct x as [[w n] len]. rewrite HP in Hpos. apply Forall_cons in Hpos as [Hx Hpos]. split; [done|].
  intros m. specialize (Hb m). unfold objectBytes in *. rewrite !(liveBytes_perm _ _ _ _ HP), !liveBytes_cons in Hb.
  simpl in Hx. repeat case_bool_decide; lia.
Qed.

Lemma nodeHistory_inv W live : nodeHistory W live -> accounts W.1 live /\ sized live.
Proof.
  induction 1 as [v s Ha|W live w b W' n o _ [Ha Hs] HE Hs'|W live live' w n o len W' r _ [Ha Hs] HP HE|W live W' r _ [Ha Hs] HE].
  - done.
  - split; [|done]. by eapply put_accounts.
  - destruct (discard_accounts w n o len W live live' Ha Hs HP) as (W2 & E2 & Ha2). rewrite HE in E2. injection E2 as -> _.
    split; [done|]. by eapply sized_sub.
  - split; [|done]. by eapply cleanup_accounts.
Qed.

(** C37. Checkpoints delete only dead objects.  Over any sequence of node puts,
    discards and clean-ups by the three B+Trees, the combined layout report
    gives for every object exactly the bytes of the live nodes in it, so an
    object whose count is zero (the ones [putCheckpoint] deletes) has no live
    node; and discarding a live node never fails. *)
Theorem layout_accounting W live :
  nodeHistory W live ->
  (forall n, default 0 (combinedLayout W.1 !! n) = objectBytes live n)
  /\ (forall n w len, combinedLayout W.1 !! n = Some 0 -> (w, n, len) ∉ live)
  /\ (forall w n o len, (w, n, len) ∈ live -> exists W', DiscardNode w n o len W = (W', Ret tt)).
Proof.
  intros HH. apply nodeHistory_inv in HH as [Ha Hs]. split_and!.
  - intros n. by apply combined_total.
  - intros n w len H0. apply objectBytes_zero; [done|]. rewrite <- (combined_total W.1 live n Ha Hs). by rewrite H0.
  - intros w n o len Hin. apply list_elem_of_split in Hin as (l1 & l2 & ->).
    destruct (discard_accounts w n o len W _ (l1 ++ l2) Ha Hs) as (W' & E & _); [by rewrite Permutation_middle|]. eauto.
Qed.

End Layout.
