(* ===== verification/HeadhunterRecords.v ===== *)
(** The record operations of [headhunter] behave as three finite maps: the
    package implements the interface [VolumeHandle].

    [BPlusTreeRecOk] is what is relied on of a B+Tree whose nodes are kept in
    Swift: it denotes a finite map, looking up a key leaves that map as it is,
    and [Put], [PatchByKey] and [DeleteByKey] report whether the key was
    there, and update it accordingly. *)

From S2P Require Import Prelude Blunder NodeProgram Utils HeadhunterCodec Headhunter VolumeHandle.
Open Scope list_scope.

Class BPlusTreeRecOk (S C T : Type) `{SwiftContainer S C} `{BPlusTree T} := {
  denote : T -> gmap Z bytes;
  bpt_get w t k W W' t' r : runNode (S := S) (C := C) (T := T) w (bptGetByKey t k) W = (W', Ret (t', r)) ->
    denote t' = denote t /\ (forall o, r = Ret o -> o = denote t !! k);
  bpt_patch w t k b W W' t' r : runNode (S := S) (C := C) (T := T) w (bptPatchByKey t k b) W = (W', Ret (t', r)) ->
    (forall ok, r = Ret ok -> ok = bool_decide (is_Some (denote t !! k))
                           /\ denote t' = if ok then <[k := b]> (denote t) else denote t);
  bpt_put w t k b W W' t' r : runNode (S := S) (C := C) (T := T) w (bptPut t k b) W = (W', Ret (t', r)) ->
    (forall ok, r = Ret ok -> ok = negb (bool_decide (is_Some (denote t !! k)))
                           /\ denote t' = if ok then <[k := b]> (denote t) else denote t);
  bpt_delete w t k W W' t' r : runNode (S := S) (C := C) (T := T) w (bptDeleteByKey t k) W = (W', Ret (t', r)) ->
    (forall ok, r = Ret ok -> denote t' = delete k (denote t))
}.

Section Records.

Context {S C T : Type} `{!SwiftContainer S C} `{!BPlusTree T} `{!BPlusTreeRecOk S C T}.

Local Abbreviation vol := (volumeStruct C T).
Local Abbreviation HH A := (St (vol * S) error A).

Definition trees (v : vol) := (inodeRecTree v, logSegmentRecTree v, bPlusTreeObjectTree v).

Definition sameTrees (W W' : vol * S) : Prop := trees W'.1 = trees W.1.

#[local] Instance sameTrees_preorder : PreOrder sameTrees.
Proof. split; [done|]. intros w1 w2 w3 E1 E2. unfold sameTrees in *. congruence. Qed.

Lemma sameTrees_modFst f : (forall v : vol, trees (f v) = trees v) -> keeps sameTrees (modFst (E := error) f).
Proof. intros Hf. apply keeps_mod. intros w. apply Hf. Qed.

Lemma sameTrees_liftSnd {A} (m : St S error A) : keeps sameTrees (liftSnd (V := vol) m).
Proof. intros w w' r. unfold liftSnd. destruct (m w.2). by intros [= <- <-]. Qed.

Ltac trees_auto :=
  repeat lazymatch goal with
  | |- keeps sameTrees (sbind _ _) => apply keeps_bind; [apply _ | | intros ?]
  | |- keeps sameTrees (stry _) => apply keeps_try
  | |- keeps sameTrees (sret _) => apply keeps_ret; apply _
  | |- keeps sameTrees (serr _) => apply keeps_err; apply _
  | |- keeps sameTrees (liftSnd _) => apply sameTrees_liftSnd
  | |- keeps sameTrees (modFst _) => apply sameTrees_modFst; intros ?; first [reflexivity | match goal with u : wrapperType |- _ => by destruct u end]
  | |- keeps sameTrees getFst => by intros ? ? ? [= <- <-]
  | |- keeps sameTrees (match ?x with _ => _ end) => destruct x
  end.

(** The node callbacks do not touch the B+Trees themselves. *)
Lemma sameTrees_fetchNonce : keeps sameTrees fetchNonceWhileLocked.
Proof. unfold fetchNonceWhileLocked. trees_auto. Qed.

Lemma sameTrees_PutNode w b : keeps sameTrees (PutNode w b).
Proof.
  unfold PutNode, openCheckpointChunkedPutContextIfNecessary, bytesPutToCheckpointChunkedPutContext,
    sendChunkToCheckpointChunkedPutContext, closeCheckpointChunkedPutContextIfNecessary, closeAndDrop, fetchNonceWhileLocked.
  trees_auto.
Qed.

Lemma sameTrees_runNode {A} w (p : nodeProg A) : keeps sameTrees (runNode w p).
Proof.
  induction p as [a|n o l k IH|b k IH|n o l k IH]; simpl.
  - trees_auto.
  - apply keeps_bind; [apply _| |exact IH]. unfold GetNode. trees_auto.
  - apply keeps_bind; [apply _| |exact IH]. apply keeps_try, sameTrees_PutNode.
  - apply keeps_bind; [apply _| |exact IH]. unfold DiscardNode. trees_auto.
Qed.

Lemma treeOf_same w (v v' : vol) : trees v' = trees v -> treeOf w v' = treeOf w v.
Proof. intros [= H1 H2 H3]. by destruct w. Qed.

Lemma treeOf_set w w' t (v : vol) : treeOf w (setTree w' t v) = if bool_decide (w' = w) then t else treeOf w v.
Proof. by destruct w, w'. Qed.

(** [onTree] runs the operation on its tree and leaves the other two. *)
Lemma onTree_inv {A} w (op : T -> nodeProg (T * res A)) (W W' : vol * S) r :
  onTree w op W = (W', r) ->
  (exists W1 t' r', runNode w (op (treeOf w W.1)) W = (W1, Ret (t', r')) /\ r = r'
                    /\ forall u, treeOf u W'.1 = if bool_decide (w = u) then t' else treeOf u W.1)
  \/ ((forall u, treeOf u W'.1 = treeOf u W.1) /\ forall a, r <> Ret a).
Proof.
  unfold onTree, sbind at 1, getFst. cbn [fst snd]. unfold sbind at 1.
  destruct (runNode w _ W) as [W1 [[t' r']|e|]] eqn:E.
  - intros HE. left. exists W1, t', r'. split; [done|]. unfold sbind, modFst, smod, slift in HE. cbn [fst snd] in HE.
    injection HE as <- <-. split; [done|]. intros u. cbn [fst]. rewrite treeOf_set.
    apply sameTrees_runNode in E. by rewrite (treeOf_same u _ _ E).
  - intros [= <- <-]. right. split; [|done]. intros u. apply treeOf_same. by apply sameTrees_runNode in E.
  - intros [= <- <-]. right. split; [|done]. intros u. apply treeOf_same. by apply sameTrees_runNode in E.
Qed.

Definition mapsOf (W : vol * S) : recordMaps :=
  mkMaps (denote (inodeRecTree W.1)) (denote (logSegmentRecTree W.1)) (denote (bPlusTreeObjectTree W.1)).

Definition mapOf (w : wrapperType) (m : recordMaps) : gmap Z bytes :=
  match w with
  | inodeRecBPlusTreeWrapperType => inodeRecs m
  | logSegmentRecBPlusTreeWrapperType => logSegmentRecs m
  | bPlusTreeObjectBPlusTreeWrapperType => bPlusTreeObjects m
  end.

Definition setMap (w : wrapperType) (f : gmap Z bytes) (m : recordMaps) : recordMaps :=
  match w with
  | inodeRecBPlusTreeWrapperType => m <| inodeRecs := f |>
  | logSegmentRecBPlusTreeWrapperType => m <| logSegmentRecs := f |>
  | bPlusTreeObjectBPlusTreeWrapperType => m <| bPlusTreeObjects := f |>
  end.

Lemma mapsOf_set w (W W' : vol * S) t f :
  (forall u, treeOf u W'.1 = if bool_decide (w = u) then t else treeOf u W.1) -> denote t = f ->
  mapsOf W' = setMap w f (mapsOf W).
Proof.
  intros Ht <-. unfold mapsOf.
  pose proof (Ht inodeRecBPlusTreeWrapperType) as H1. pose proof (Ht logSegmentRecBPlusTreeWrapperType) as H2.
  pose proof (Ht bPlusTreeObjectBPlusTreeWrapperType) as H3. simpl in H1, H2, H3. rewrite H1, H2, H3. by destruct w.
Qed.

Lemma mapsOf_same (W W' : vol * S) : (forall u, treeOf u W'.1 = treeOf u W.1) -> mapsOf W' = mapsOf W.
Proof.
  intros Ht. unfold mapsOf. pose proof (Ht inodeRecBPlusTreeWrapperType) as H1.
  pose proof (Ht logSegmentRecBPlusTreeWrapperType) as H2. pose proof (Ht bPlusTreeObjectBPlusTreeWrapperType) as H3.
  simpl in *. by rewrite H1, H2, H3.
Qed.

Lemma mapOf_tree w (W : vol * S) : mapOf w (mapsOf W) = denote (treeOf w W.1).
Proof. by destruct w. Qed.

Lemma setMap_id w m : setMap w (mapOf w m) m = m.
Proof. by destruct w, m. Qed.

Lemma setMap_twice w f g m : setMap w f (setMap w g m) = setMap w f m.
Proof. by destruct w. Qed.

Lemma mapOf_set w f m : mapOf w (setMap w f m) = f.
Proof. by destruct w. Qed.

Lemma get_refines w k W W' r :
  onTree w (fun t => bptGetByKey t k) W = (W', r) ->
  mapsOf W' = mapsOf W /\ (forall o, r = Ret o -> o = mapOf w (mapsOf W) !! k).
Proof.
  intros HE. apply onTree_inv in HE as [(W1 & t' & r' & E & -> & Ht)|[Ht Hr]].
  - apply bpt_get in E as [Hd Ho]. rewrite mapOf_tree. split; [|done].
    rewrite (mapsOf_set _ _ _ _ _ Ht Hd). rewrite <- mapOf_tree. apply setMap_id.
  - split; [by apply mapsOf_same|]. intros o ->. by destruct (Hr o).
Qed.

Lemma putRec_refines w k b W W' :
  putRec w k b W = (W', Ret tt) -> mapsOf W' = setMap w (<[k := b]> (mapOf w (mapsOf W))) (mapsOf W).
Proof.
  unfold putRec, sbind at 1. destruct (onTree w _ W) as [W1 [ok|e|]] eqn:E1; try done.
  apply onTree_inv in E1 as [(W2 & t' & r' & E2 & <- & Ht)|[_ Hr]]; [|by destruct (Hr ok)].
  destruct (bpt_patch _ _ _ _ _ _ _ _ E2 ok eq_refl) as [Hok Hd].
  pose proof (mapsOf_set _ _ _ _ _ Ht Hd) as Hm. rewrite <- mapOf_tree in Hm, Hok. destruct ok.
  - intros [= <-]. exact Hm.
  - rewrite setMap_id in Hm. unfold sbind. destruct (onTree w _ W1) as [W3 [ok2|e|]] eqn:E3; try done. intros [= <-].
    apply onTree_inv in E3 as [(W4 & t2 & r2 & E4 & <- & Ht2)|[_ Hr]]; [|by destruct (Hr ok2)].
    destruct (bpt_put _ _ _ _ _ _ _ _ E4 ok2 eq_refl) as [Hok2 Hd2].
    rewrite <- mapOf_tree, Hm in Hok2, Hd2. rewrite <- Hok in Hok2. subst ok2. simpl in Hd2.
    rewrite (mapsOf_set _ _ _ _ _ Ht2 Hd2), Hm. done.
Qed.

Lemma delete_refines w k W W' :
  (_ <~ onTree w (fun t => bptDeleteByKey t k) ;; sret tt) W = (W', Ret tt) ->
  mapsOf W' = setMap w (delete k (mapOf w (mapsOf W))) (mapsOf W).
Proof.
  unfold sbind. destruct (onTree w _ W) as [W1 [ok|e|]] eqn:E1; try done. intros [= <-].
  apply onTree_inv in E1 as [(W2 & t' & r' & E2 & <- & Ht)|[_ Hr]]; [|by destruct (Hr ok)].
  pose proof (bpt_delete _ _ _ _ _ _ _ E2 ok eq_refl) as Hd.
  rewrite (mapsOf_set _ _ _ _ _ Ht Hd). by rewrite <- mapOf_tree.
Qed.

(** ** The implementation of the interface *)

#[export] Instance headhunter_VolumeHandle : VolumeHandle (vol * S) := {|
  vhFetchNonce := FetchNonce;
  vhFetchNextCheckPointDoneWaitGroup := FetchNextCheckPointDoneWaitGroup;
  vhGetInodeRec := GetInodeRec;
  vhPutInodeRec := PutInodeRec;
  vhPutInodeRecs := PutInodeRecs;
  vhDeleteInodeRec := DeleteInodeRec;
  vhGetLogSegmentRec := GetLogSegmentRec;
  vhPutLogSegmentRec := PutLogSegmentRec;
  vhDeleteLogSegmentRec := DeleteLogSegmentRec;
  vhGetBPlusTreeObject := GetBPlusTreeObject;
  vhPutBPlusTreeObject := PutBPlusTreeObject;
  vhDeleteBPlusTreeObject := DeleteBPlusTreeObject;
  vhDoCheckpoint := DoCheckpoint
|}.

Lemma getOrFail_refines w k W W' r :
  (o <~ onTree w (fun t => bptGetByKey t k) ;; match o with None => serr plain | Some value => sret value end) W = (W', r) ->
  mapsOf W' = mapsOf W /\ (forall b, r = Ret b -> mapOf w (mapsOf W) !! k = Some b).
Proof.
  unfold sbind. destruct (onTree w _ W) as [W1 o] eqn:E. apply get_refines in E as [Hm Ho].
  destruct o as [[b|]|e|]; intros [= <- <-]; split; try done. intros b' [= <-]. by rewrite <- (Ho (Some b) eq_refl).
Qed.

#[export] Instance headhunter_VolumeHandleOk : VolumeHandleOk (vol * S).
Proof.
  refine {| vhMaps := mapsOf |}; simpl.
  - intros W W' r HE. apply sameTrees_fetchNonce in HE. apply mapsOf_same. intros u. by apply treeOf_same.
  - intros W W' r HE. apply mapsOf_same. intros u. apply treeOf_same.
    match type of HE with ?m _ = _ => assert (Hk : keeps sameTrees m); [|exact (Hk _ _ _ HE)] end.
    unfold FetchNextCheckPointDoneWaitGroup, fetchNextCheckPointDoneWaitGroupWhileLocked. trees_auto.
  - intros n W W' r. apply get_refines.
  - intros n b W W'. apply putRec_refines.
  - intros n W W'. apply delete_refines.
  - intros n W W' r. apply getOrFail_refines.
  - intros n b W W'. apply putRec_refines.
  - intros n W W'. apply delete_refines.
  - intros n W W' r. apply getOrFail_refines.
  - intros n b W W'. apply putRec_refines.
  - intros n W W'. apply delete_refines.
Defined.

Lemma putRecs_refines l : forall (W W' : vol * S),
  sfor l (fun '(n, b) => putRec inodeRecBPlusTreeWrapperType n b) W = (W', Ret tt) ->
  mapsOf W' = (mapsOf W) <| inodeRecs := foldl (fun m '(n, b) => <[n := b]> m) (inodeRecs (mapsOf W)) l |>.
Proof.
  induction l as [|[n b] l IH]; intros W W' HE; [by injection HE as <-|].
  cbn [sfor] in HE. unfold sbind in HE. destruct (putRec _ n b W) as [W1 [[]|e|]] eqn:E; try done.
  apply putRec_refines in E. by rewrite (IH _ _ HE), E.
Qed.

(** The records of a volume are three finite maps: a successful put of an
    inode, log segment or B+Tree object record changes exactly its key in
    exactly its map, [PutInodeRecs] is the sequence of its puts and succeeds
    only with as many values as keys, a delete removes its key, and a get
    changes nothing and returns what the map holds. *)
Theorem headhunter_records (W W' : vol * S) :
  (forall n b, PutInodeRec n b W = (W', Ret tt) ->
     mapsOf W' = (mapsOf W) <| inodeRecs := <[n := b]> (inodeRecs (mapsOf W)) |>)
  /\ (forall ns bs, PutInodeRecs ns bs W = (W', Ret tt) ->
     length ns = length bs /\
     mapsOf W' = (mapsOf W) <| inodeRecs := foldl (fun m '(n, b) => <[n := b]> m) (inodeRecs (mapsOf W)) (combine ns bs) |>)
  /\ (forall n, DeleteInodeRec n W = (W', Ret tt) ->
     mapsOf W' = (mapsOf W) <| inodeRecs := delete n (inodeRecs (mapsOf W)) |>)
  /\ (forall n b, PutLogSegmentRec n b W = (W', Ret tt) ->
     mapsOf W' = (mapsOf W) <| logSegmentRecs := <[n := b]> (logSegmentRecs (mapsOf W)) |>)
  /\ (forall n b, PutBPlusTreeObject n b W = (W', Ret tt) ->
     mapsOf W' = (mapsOf W) <| bPlusTreeObjects := <[n := b]> (bPlusTreeObjects (mapsOf W)) |>)
  /\ (forall n o, GetInodeRec n W = (W', Ret o) -> mapsOf W' = mapsOf W /\ o = inodeRecs (mapsOf W) !! n)
  /\ (forall n b, GetLogSegmentRec n W = (W', Ret b) -> mapsOf W' = mapsOf W /\ logSegmentRecs (mapsOf W) !! n = Some b)
  /\ (forall n b, GetBPlusTreeObject n W = (W', Ret b) -> mapsOf W' = mapsOf W /\ bPlusTreeObjects (mapsOf W) !! n = Some b).
Proof.
  split_and!.
  - intros n b. apply (putRec_refines inodeRecBPlusTreeWrapperType).
  - intros ns bs. unfold PutInodeRecs. destruct (Z.eqb_spec (zlen ns) (zlen bs)) as [E|E]; [|done]. cbn [negb].
    intros HE. split; [unfold zlen in E; lia|]. by apply putRecs_refines.
  - intros n. apply (delete_refines inodeRecBPlusTreeWrapperType).
  - intros n b. apply (putRec_refines logSegmentRecBPlusTreeWrapperType).
  - intros n b. apply (putRec_refines bPlusTreeObjectBPlusTreeWrapperType).
  - intros n o HE. apply get_refines in HE as [Hm Ho]. split; [done|]. by apply Ho.
  - intros n b HE. apply (getOrFail_refines logSegmentRecBPlusTreeWrapperType) in HE as [Hm Ho]. split; [done|]. by apply Ho.
  - intros n b HE. apply (getOrFail_refines bPlusTreeObjectBPlusTreeWrapperType) in HE as [Hm Ho]. split; [done|]. by apply Ho.
Qed.

End Records.
