(* ===== verification/HeadhunterInstance.v ===== *)
(** A concrete Swift container and a concrete one-node B+Tree.

    They instantiate the interfaces [SwiftContainer] and [BPlusTree], satisfy
    the laws the theorems rely on, and make the definitions of [Headhunter]
    run, so that the hypotheses of the theorems are met by actual states. *)

From S2P Require Import Prelude Blunder NodeProgram Utils HeadhunterCodec Headhunter VolumeHandle HeadhunterNonce HeadhunterLayout HeadhunterRecords.
Open Scope list_scope.

(** ** A container in memory *)

Record memSwift := mkMem {
  memHeaders : option Headers;
  memObjects : gmap string bytes;
  memContexts : gmap Z (string * bytes);
  memNext : Z;
  memCrashAt : option Z;
  memDeletes : list (string * Z)
}.

#[export] Instance eta_mem : Eta memSwift := fun m =>
  mkMem (memHeaders m) (memObjects m) (memContexts m) (memNext m) (memCrashAt m) (memDeletes m).

Definition notFound : error := AddHTTPCode (Some plain) 404.

Definition memContainerHead : St memSwift error Headers := fun m =>
  (m, match memHeaders m with Some hs => Ret hs | None => Err notFound end).

Definition memContainerPut (hs : Headers) : St memSwift error unit := fun m => (m <| memHeaders := Some hs |>, Ret tt).

Definition memContainerPost (hs : Headers) : St memSwift error unit := fun m =>
  match memHeaders m with
  | Some old => (m <| memHeaders := Some (hs ∪ old) |>, Ret tt)
  | None => (m, Err notFound)
  end.

Definition memObjectGet (n : string) (o l : Z) : St memSwift error bytes := fun m =>
  (m, match memObjects m !! n with
      | Some b => Ret (take (Z.to_nat l) (drop (Z.to_nat o) b))
      | None => Err notFound
      end).

Definition memObjectTail (n : string) (l : Z) : St memSwift error bytes := fun m =>
  (m, match memObjects m !! n with
      | Some b => Ret (drop (length b - Z.to_nat l) b)
      | None => Err notFound
      end).

(** The process crashes when it opens the context numbered [memCrashAt]. *)
Definition memFetchContext (n : string) : St memSwift error Z := fun m =>
  if bool_decide (memCrashAt m = Some (memNext m)) then (m, Panic) else
  (m <| memContexts := <[memNext m := (n, [])]> (memContexts m) |> <| memNext := memNext m + 1 |>, Ret (memNext m)).

Definition memBytesPut (c : Z) : St memSwift error Z := fun m =>
  (m, match memContexts m !! c with Some (_, b) => Ret (zlen b) | None => Err plain end).

Definition memSendChunk (c : Z) (buf : bytes) : St memSwift error unit := fun m =>
  match memContexts m !! c with
  | Some (n, b) => (m <| memContexts := <[c := (n, b ++ buf)]> (memContexts m) |>, Ret tt)
  | None => (m, Err plain)
  end.

Definition memClose (c : Z) : St memSwift error unit := fun m =>
  match memContexts m !! c with
  | Some (n, b) => (m <| memObjects := <[n := b]> (memObjects m) |> <| memContexts := delete c (memContexts m) |>, Ret tt)
  | None => (m, Err plain)
  end.

Definition memDelete (n : string) (wg : Z) : St memSwift error unit := fun m =>
  (m <| memDeletes := (n, wg) :: memDeletes m |>, Ret tt).

#[export] Instance memSwift_container : SwiftContainer memSwift Z := {|
  ContainerHead := memContainerHead;
  ContainerPut := memContainerPut;
  ContainerPost := memContainerPost;
  AccountPost := fun _ => sret tt;
  ObjectTail := memObjectTail;
  ObjectGet := memObjectGet;
  ObjectFetchChunkedPutContext := memFetchContext;
  BytesPut := memBytesPut;
  SendChunk := memSendChunk;
  CloseContext := memClose;
  ObjectDeleteAsync := memDelete
|}.

Definition memHeaderOf (m : memSwift) : option string :=
  match memHeaders m with
  | Some hs => match hs !! CheckpointHeaderName with Some [v] => Some v | _ => None end
  | None => None
  end.

#[export] Instance memSwift_headerOk : SwiftHeaderOk memSwift Z.
Proof.
  refine {| headerOf := memHeaderOf |}.
  - intros s s' r [= <- <-]. split; [done|]. intros hs v Hr Hv. unfold memHeaderOf.
    destruct (memHeaders s); [|done]. injection Hr as ->. by rewrite Hv.
  - intros hs v s s' r. simpl. unfold memContainerPost, memHeaderOf. destruct (memHeaders s) as [old|] eqn:E.
    + intros [= <- <-] Hv. left. simpl. by rewrite (lookup_union_Some_l _ _ _ _ Hv).
    + intros [= <- <-] _. right. by rewrite E.
  - by intros hs s s' r [= <- <-].
  - by intros n l s s' r [= <- <-].
  - by intros n o l s s' r [= <- <-].
  - intros n s s' r. simpl. unfold memFetchContext. by destruct (bool_decide _); intros [= <- <-].
  - by intros c s s' r [= <- <-].
  - intros c b s s' r. simpl. unfold memSendChunk. by destruct (memContexts s !! c) as [[? ?]|]; intros [= <- <-].
  - intros c s s' r. simpl. unfold memClose. by destruct (memContexts s !! c) as [[? ?]|]; intros [= <- <-].
  - by intros n wg s s' r [= <- <-].
Defined.

(** ** A B+Tree of one node *)

Record listTree := mkListTree {
  entries : gmap Z bytes;
  treeDirty : bool;
  treeRoot : Z * Z * Z
}.

#[export] Instance eta_listTree : Eta listTree := fun t => mkListTree (entries t) (treeDirty t) (treeRoot t).

Definition packEntries (m : gmap Z bytes) : bytes :=
  concat (map (fun e => PackKey e.1 ++ PackValue e.2) (map_to_list m)).

Fixpoint unpackEntries (fuel : nat) (b : bytes) : res (list (Z * bytes)) :=
  match b, fuel with
  | [], _ => Ret []
  | _, O => Err plain
  | _, S fuel' =>
      '(k, kc) <- UnpackKey b ;;
      '(v, vc) <- UnpackValue (drop (Z.to_nat kc) b) ;;
      rest <- unpackEntries fuel' (drop (Z.to_nat vc) (drop (Z.to_nat kc) b)) ;;
      Ret ((k, v) :: rest)
  end.

Definition fromResponse {A} (r : error + A) : res A := match r with inl e => Err e | inr a => Ret a end.

Definition listFlush (t : listTree) : nodeProg (listTree * res (Z * Z * Z)) :=
  if negb (treeDirty t) then NDone (t, Ret (treeRoot t))
  else NPut (packEntries (entries t)) (fun r =>
    match r with
    | inl e => NDone (t, Err e)
    | inr (n, o) =>
        let root := (n, o, zlen (packEntries (entries t))) in
        let t' := t <| treeDirty := false |> <| treeRoot := root |> in
        let '(n0, o0, l0) := treeRoot t in
        if n0 =? 0 then NDone (t', Ret root)
        else NDiscard n0 o0 l0 (fun r => NDone (t', match r with inl e => Err e | inr _ => Ret root end))
    end).

#[export] Instance listTree_BPlusTree : BPlusTree listTree := {|
  NewBPlusTree := fun _ => mkListTree ∅ false (0, 0, 0);
  OldBPlusTree := fun n o l => NGet n o l (fun r => NDone (
    b <- fromResponse r ;; es <- unpackEntries (length b) b ;; Ret (mkListTree (list_to_map es) false (n, o, l))));
  FetchLayoutReport := fun t => NDone (t, Ret (if (treeRoot t).1.1 =? 0 then ∅ else {[(treeRoot t).1.1 := (treeRoot t).2]}));
  bptGetByKey := fun t k => NDone (t, Ret (entries t !! k));
  bptPatchByKey := fun t k v => NDone (
    if bool_decide (is_Some (entries t !! k))
    then (t <| entries := <[k := v]> (entries t) |> <| treeDirty := true |>, Ret true) else (t, Ret false));
  bptPut := fun t k v => NDone (
    if bool_decide (is_Some (entries t !! k))
    then (t, Ret false) else (t <| entries := <[k := v]> (entries t) |> <| treeDirty := true |>, Ret true));
  bptDeleteByKey := fun t k => NDone (
    if bool_decide (is_Some (entries t !! k))
    then (t <| entries := delete k (entries t) |> <| treeDirty := true |>, Ret true) else (t, Ret false));
  bptFlush := listFlush;
  bptPrune := fun t => NDone (t, Ret tt)
|}.

#[export] Instance listTree_readOk : BPlusTreeReadOk listTree.
Proof. constructor. intros n o l. constructor. intros r. constructor. Defined.

#[export] Instance listTree_recOk : BPlusTreeRecOk memSwift Z listTree.
Proof.
  refine {| denote := entries |}.
  - intros w t k W W' t' r [= <- <- <-]. split; [done|]. by intros o [= <-].
  - intros w t k b W W' t' r HE ok ->. simpl in HE. case_bool_decide as Hs; injection HE as <- <- <-; done.
  - intros w t k b W W' t' r HE ok ->. simpl in HE. case_bool_decide as Hs; injection HE as <- <- <-; done.
  - intros w t k W W' t' r HE ok ->. simpl in HE. case_bool_decide as Hs; injection HE as <- <- <-; [done|].
    rewrite delete_id; [done|]. by apply eq_None_not_Some.
Defined.

(** ** Sample volumes *)

Definition emptySwift : memSwift := mkMem None ∅ ∅ 0 None [].

(** The configuration of a volume that reserves [reserve] nonces at a time and
    closes a checkpoint object after [flush] bytes. *)
Definition configured (reserve flush : Z) : volumeStruct Z listTree :=
  mkVolume flush reserve 32 32 32 "silver" false None None 0 [] 0 0 (mkHeader 0 0 0) emptyTrailer
    (NewBPlusTree 32) (NewBPlusTree 32) (NewBPlusTree 32) ∅ ∅ ∅ [].

(** A newly formatted and mounted volume. *)
Definition formatted (reserve flush : Z) : volumeStruct Z listTree * memSwift :=
  (getCheckpoint true (configured reserve flush, emptySwift)).1.

(** The same, with a crash when the context numbered [k] is opened. *)
Definition formattedCrashing (reserve flush k : Z) : volumeStruct Z listTree * memSwift :=
  ((formatted reserve flush).1, (formatted reserve flush).2 <| memCrashAt := Some k |>).

Fixpoint runCalls (cs : list apiCall) (w : volumeStruct Z listTree * memSwift) : volumeStruct Z listTree * memSwift :=
  match cs with
  | [] => w
  | c :: cs' => runCalls cs' (runCall c w).1
  end.

Lemma runCalls_history w0 cs : forall w, hhistory w0 w -> hhistory w0 (runCalls cs w).
Proof.
  induction cs as [|c cs IH]; intros w Hw; [done|]. cbn [runCalls]. apply IH.
  eapply (HCall w0 w c _ _ Hw). apply surjective_pairing.
Qed.

Lemma formatted_ninv : ninv (formatted 3 1000).
Proof.
  split.
  - vm_compute. reflexivity.
  - vm_compute. split; reflexivity.
  - vm_compute. repeat split; congruence.
  - exists (mkHeader 0 0 1). split; [vm_compute; reflexivity|]. vm_compute. repeat split; congruence.
  - vm_compute. repeat split; congruence.
  - vm_compute. congruence.
  - vm_compute. constructor.
  - vm_compute. constructor.
Qed.

(** Two nonces, a checkpoint, a restart and two more nonces. *)
Definition beforeRestart := runCalls [CFetchNonce; CFetchNonce; CPutInodeRec 7 [1; 2; 3]; CDoCheckpoint] (formatted 3 1000).
Definition afterRestart := (getCheckpoint false (unmounted beforeRestart.1, beforeRestart.2)).1.
Definition lastWorld := runCalls [CFetchNonce; CFetchNonce] afterRestart.

Lemma beforeRestart_history : hhistory (formatted 3 1000) beforeRestart.
Proof. unfold beforeRestart. apply runCalls_history, HStart. Qed.

Lemma lastWorld_history : hhistory (formatted 3 1000) lastWorld.
Proof.
  unfold lastWorld. apply runCalls_history. apply (HRestart _ _ _ beforeRestart_history).
  - vm_compute. reflexivity.
  - vm_compute. congruence.
Qed.

Lemma nonces_unique_witness : nonceLog lastWorld.1 = [5; 4; 3; 2; 1] /\ NoDup (nonceLog lastWorld.1).
Proof.
  split; [vm_compute; reflexivity|].
  apply (nonces_unique (formatted 3 1000) lastWorld).
  - apply formatted_ninv.
  - apply lastWorld_history.
  - assert (E : nonceLog lastWorld.1 = [5; 4; 3; 2; 1]) by (vm_compute; reflexivity). rewrite E.
    repeat (constructor; [reflexivity|]). constructor.
Defined.

Lemma layout_accounting_witness :
  exists (W : volumeStruct Z listTree * memSwift) live,
    live <> [] /\
    (forall n, default 0 (combinedLayout W.1 !! n) = objectBytes live n)
    /\ (forall n w len, combinedLayout W.1 !! n = Some 0 -> (w, n, len) ∉ live)
    /\ (forall w n o len, (w, n, len) ∈ live -> exists W', DiscardNode w n o len W = (W', Ret tt)).
Proof.
  exists (PutNode logSegmentRecBPlusTreeWrapperType [8; 9] (PutNode inodeRecBPlusTreeWrapperType [1; 2; 3] (formatted 3 1000)).1).1,
    [(logSegmentRecBPlusTreeWrapperType, 1, 2); (inodeRecBPlusTreeWrapperType, 1, 3)].
  split; [done|]. apply layout_accounting.
  refine (NHPut _ _ logSegmentRecBPlusTreeWrapperType [8; 9] _ 1 3 _ _ _).
  - refine (NHPut _ _ inodeRecBPlusTreeWrapperType [1; 2; 3] _ 1 0 (NHStart (formatted 3 1000).1 (formatted 3 1000).2 _) _ _).
    + intros [] n; vm_compute; by destruct n.
    + vm_compute. reflexivity.
    + apply sized_total; [by repeat constructor | done].
  - vm_compute. reflexivity.
  - apply sized_total; [by repeat constructor | done].
Defined.

(** A crash in the middle of a checkpoint can make the volume unmountable:
    when a checkpoint needs a second object and its nonce exhausts the reserved
    range, [fetchNonceWhileLocked] posts a header that already names the new,
    unfinished object with the trailer length of the previous checkpoint.  Here
    the volume mounts before the second checkpoint, the process crashes during
    it, and then the volume does not mount any more. *)
Theorem crash_in_checkpoint_breaks_mount :
  exists w w' e,
    hhistory (formattedCrashing 2 10 4) w
    /\ (getCheckpoint false (unmounted w.1, w.2)).2 = Ret tt
    /\ DoCheckpoint w = (w', Panic)
    /\ (getCheckpoint false (unmounted w'.1, w'.2)).2 = Err e.
Proof.
  set (w := runCalls [CPutInodeRec 7 [1; 2; 3]; CDoCheckpoint; CPutInodeRec 7 [4; 5; 6]; CPutLogSegmentRec 9 [1]]
              (formattedCrashing 2 10 4)).
  exists w, (DoCheckpoint w).1, plain. split; [apply runCalls_history, HStart|].
  split; [vm_compute; reflexivity|]. split; vm_compute; reflexivity.
Qed.

(** The first nonce of a volume formatted with any reservation, by evaluation. *)
Lemma formatted_first_nonce_witness : (FetchNonce (formatted 100 1000)).2 = Ret (firstNonceToProvide - 1).
Proof.
  assert (E : FetchNonce (formatted 100 1000) = ((FetchNonce (formatted 100 1000)).1, Ret 1)) by (vm_compute; reflexivity).
  rewrite E. cbn [snd]. apply (f_equal Ret).
  apply (formatted_first_nonce (configured 100 1000, emptySwift) emptySwift notFound (formatted 100 1000)
           (FetchNonce (formatted 100 1000)).1 1).
  - reflexivity.
  - reflexivity.
  - vm_compute. reflexivity.
  - exact E.
Defined.

Lemma headhunter_records_witness :
  let W := formatted 3 1000 in
  let W' := (PutInodeRec 7 [1; 2] W).1 in
  mapsOf W' = (mapsOf W) <| inodeRecs := <[7 := [1; 2]]> (inodeRecs (mapsOf W)) |>.
Proof.
  cbv zeta. apply (headhunter_records (formatted 3 1000) (PutInodeRec 7 [1; 2] (formatted 3 1000)).1).
  vm_compute. reflexivity.
Defined.
