(* ===== verification/ConfigInstance.v ===== *)
(** Two configurations of a peer with three volumes, and the packages taken
    from one to the other by evaluation. *)

From S2P Require Import Prelude Blunder NodeProgram Utils GoStrings ConfNumbers Conf ConfSections InodeTypes ReadCache InodeVolume InodeConfig InodeConfigFacts InodeReload HeadhunterCodec Headhunter HeadhunterConfig HeadhunterInstance.
Open Scope list_scope.

#[export] Instance sampleMachine : Machine := {| nanToUint32 := 0; nanToUint64 := 2 ^ 63; MemSize := 1048576 |}.

Definition volumeSection (name peer flow : string) (fsid : string) : string * list (string * ConfMapOption) :=
  (("Volume:" ++ name)%string,
   [("FSID", [fsid]); ("AccountName", [("AUTH_" ++ name)%string]); ("PrimaryPeer", [peer]); ("FlowControl", [flow]);
    ("MaxEntriesPerDirNode", ["32"]); ("MaxExtentsPerFileNode", ["32"]); ("DefaultPhysicalContainerLayout", ["L"]);
    ("NonceValuesToReserve", ["3"]); ("MaxInodesPerMetadataNode", ["32"]); ("MaxLogSegmentsPerMetadataNode", ["32"]);
    ("MaxDirFileNodesPerMetadataNode", ["32"]); ("CheckpointContainerName", [".checkpoint"]);
    ("CheckpointContainerStoragePolicy", ["silver"]); ("CheckpointInterval", ["10s"]);
    ("FUSEMountPointName", [("/mnt/" ++ name)%string])])%string.

Definition flowSection (name weight : string) : string * list (string * ConfMapOption) :=
  (("FlowControl:" ++ name)%string,
   [("MaxFlushSize", ["1000"]); ("MaxFlushTime", ["10s"]); ("ReadCacheLineSize", ["1024"]); ("ReadCacheWeight", [weight])])%string.

(** A serves V1 and V2, then V1 and V3; the flow control F is used by both, and
    G comes with V3. *)
Definition confSections (volumes : list string) (sections : list (string * list (string * ConfMapOption)))
    : list (string * list (string * ConfMapOption)) :=
    (([("Cluster", [("WhoAmI", ["A"]); ("Peers", ["A"; "B"])]);
       ("Peer:A", [("PrivateIPAddr", ["10.0.0.1"]); ("ReadCacheQuotaFraction", ["0.20"])]);
       ("Peer:B", [("PrivateIPAddr", ["10.0.0.2"])]);
       ("FSGlobals", [("VolumeList", volumes)]);
       ("HTTPServer", [("TCPPort", ["15346"])]);
       ("JSONRPCServer", [("TCPPort", ["12345"]); ("FastTCPPort", ["32345"]); ("DataPathLogging", ["false"])]);
       ("PhysicalContainerLayout:L",
        [("ContainerStoragePolicy", ["silver"]); ("ContainerNamePrefix", ["Prefix_"]); ("ContainersPerPeer", ["2"]);
         ("MaxObjectsPerContainer", ["1000"])]);
       flowSection "F" "100"; flowSection "G" "50"] ++ sections)%list)%string.

Definition sections1 : list (string * list (string * ConfMapOption)) := confSections ["V1"; "V2"]%string
  [volumeSection "V1" "A" "F" "1"; volumeSection "V2" "A" "F" "2"]%string.

Definition sections2 : list (string * list (string * ConfMapOption)) := confSections ["V1"; "V2"; "V3"]%string
  [volumeSection "V1" "A" "F" "1"; volumeSection "V2" "B" "F" "2"; volumeSection "V3" "A" "G" "3"]%string.

Definition confMap1 : ConfMap := confMapOf sections1.
Definition confMap2 : ConfMap := confMapOf sections2.

(** Package headhunter is asked for the handle of a volume by its name. *)
Definition sampleHandle (volumeName : string) : res (option string) := Ret (Some volumeName).

Definition blankInode : inodeGlobals := mkInodeGlobals EmptyString EmptyString (0, 0) (0, 0) ∅ ∅ ∅ ∅ 0.

Definition inodeUp1 : inodeGlobals := (InodeConfig.Up sampleHandle 1000 confMap1 true blankInode).1.
Definition inodePaused : inodeGlobals := (InodeConfig.PauseAndContract confMap2 true inodeUp1).1.
Definition inodeUp2 : inodeGlobals := (InodeConfig.ExpandAndResume sampleHandle 1000 confMap2 true inodePaused).1.
Definition inodeRestarted : inodeGlobals := (InodeConfig.Up sampleHandle 1000 confMap2 true blankInode).1.

(** ** Package headhunter, on a Swift with a container for each account *)

Abbreviation memCluster := (gmap string memSwift).

Definition inAccount {A} (accountName : string) (m : St memSwift error A) : St memCluster error A := fun s =>
  let '(c, r) := m (default emptySwift (s !! accountName)) in (<[accountName := c]> s, r).

Definition clusterContainer (accountName : string) : SwiftContainer memCluster Z := {|
  ContainerHead := inAccount accountName memContainerHead;
  ContainerPut := fun hs => inAccount accountName (memContainerPut hs);
  ContainerPost := fun hs => inAccount accountName (memContainerPost hs);
  AccountPost := fun _ => sret tt;
  ObjectTail := fun n l => inAccount accountName (memObjectTail n l);
  ObjectGet := fun n o l => inAccount accountName (memObjectGet n o l);
  ObjectFetchChunkedPutContext := fun n => inAccount accountName (memFetchContext n);
  BytesPut := fun c => inAccount accountName (memBytesPut c);
  SendChunk := fun c b => inAccount accountName (memSendChunk c b);
  CloseContext := fun c => inAccount accountName (memClose c);
  ObjectDeleteAsync := fun n wg => inAccount accountName (memDelete n wg)
|}.

(** The checkpoint container is the only one of its account. *)
Definition sampleSwift (accountName containerName : string) : SwiftContainer memCluster Z := clusterContainer accountName.

Abbreviation hhWorld := (hhGlobals Z listTree * memCluster)%type.

Definition blankHeadhunter : hhWorld := (mkHhGlobals (0, 0) (0, 0) (0, 0) ∅, ∅).

(** The three volumes are formatted, and then the process starts. *)
Definition formatAll (w : hhWorld) : hhWorld :=
  foldl (fun w name => (HeadhunterConfig.Format sampleSwift confMap2 true name w).1) w ["V1"; "V2"; "V3"]%string.

Definition headhunterUp1 : hhWorld := (HeadhunterConfig.Up sampleSwift confMap1 true (formatAll blankHeadhunter)).1.
Definition headhunterPaused : hhWorld := (HeadhunterConfig.PauseAndContract sampleSwift confMap2 true headhunterUp1).1.
Definition headhunterUp2 : hhWorld := (HeadhunterConfig.ExpandAndResume sampleSwift confMap2 true headhunterPaused).1.

(** ** The runs *)

Lemma inodeUp1_run : InodeConfig.Up sampleHandle 1000 confMap1 true blankInode = (inodeUp1, Ret tt).
Proof. vm_compute. reflexivity. Qed.

Lemma inodePaused_run : InodeConfig.PauseAndContract confMap2 true inodeUp1 = (inodePaused, Ret tt).
Proof. vm_compute. reflexivity. Qed.

Lemma inodeUp2_run : InodeConfig.ExpandAndResume sampleHandle 1000 confMap2 true inodePaused = (inodeUp2, Ret tt).
Proof. vm_compute. reflexivity. Qed.

Lemma inodeRestarted_run : InodeConfig.Up sampleHandle 1000 confMap2 true blankInode = (inodeRestarted, Ret tt).
Proof. vm_compute. reflexivity. Qed.

Lemma volumeList1 : volumeListOf confMap1 = Ret ["V1"; "V2"]%string.
Proof. vm_compute. reflexivity. Qed.

Lemma volumeList2 : volumeListOf confMap2 = Ret ["V1"; "V2"; "V3"]%string.
Proof. vm_compute. reflexivity. Qed.

Lemma inodeUp1_ok : inodeOk inodeUp1.
Proof. exact (proj1 (proj2 (Up_ret _ _ _ _ _ _ _ volumeList1 ltac:(vm_compute; reflexivity) inodeUp1_run))). Qed.

(** Both configurations give the first volume the flow control F; G is new. *)
Lemma flows_after : (fun f => (flowControlName f, refCount f)) <$> (omap (fun name => a ← flowControlMap inodeUp2 !! name; flowControlHeap inodeUp2 !! a) ["F"; "G"]%string)
                    = [("F"%string, 1); ("G"%string, 1)].
Proof. vm_compute. reflexivity. Qed.

Lemma inode_reload_like_restart_witness :
  inodeOk inodeUp1 /\ configView inodeUp2 = configView inodeRestarted
  /\ exists v, volumeMap inodeUp2 !! "V3"%string = Some v /\ iv_active v = true.
Proof.
  pose proof (inode_reload_like_restart sampleHandle 1000 confMap2 true _ _ _ _ _ _ inodeUp1_ok volumeList2
                ltac:(vm_compute; reflexivity) inodePaused_run inodeUp2_run inodeRestarted_run) as (_ & _ & Hview & Hserved).
  split; [exact inodeUp1_ok|]. split; [exact Hview|]. apply Hserved. vm_compute. reflexivity.
Defined.

Lemma headhunterUp1_run : HeadhunterConfig.Up sampleSwift confMap1 true (formatAll blankHeadhunter) = (headhunterUp1, Ret tt).
Proof. vm_compute. reflexivity. Qed.

Lemma headhunterPaused_run : HeadhunterConfig.PauseAndContract sampleSwift confMap2 true headhunterUp1 = (headhunterPaused, Ret tt).
Proof. vm_compute. reflexivity. Qed.

Lemma headhunterUp2_run : HeadhunterConfig.ExpandAndResume sampleSwift confMap2 true headhunterPaused = (headhunterUp2, Ret tt).
Proof. vm_compute. reflexivity. Qed.

Lemma headhunterUp1_daemons : daemonsRun headhunterUp1.
Proof. exact (proj2 (Up_serves sampleSwift confMap1 true "A" _ _ ltac:(vm_compute; reflexivity) headhunterUp1_run)). Qed.

Lemma headhunter_reconfigured_witness :
  daemonsRun headhunterUp1 /\ reconfigured sampleSwift confMap2 true "A" (volumes headhunterUp1) headhunterUp2.
Proof.
  split; [exact headhunterUp1_daemons|].
  exact (headhunter_reconfigured sampleSwift confMap2 true "A" _ _ _ ltac:(vm_compute; reflexivity) headhunterUp1_daemons
           headhunterPaused_run headhunterUp2_run).
Defined.
