(* ===== verification/FsProgram.v ===== *)
(** Programs of package [fs].

    An operation of [fs] is a goroutine that takes and releases inode locks
    of the lock manager ([Dlm]), calls the inode volume and updates the
    variables of its own volume.  Between two of these effects other
    goroutines run, so an operation is a tree of effects, [fsProg]: it can be
    run alone ([runFs]) or interleaved with others ([stepThread], [sstep]). *)

From S2P Require Import Prelude Blunder Dlm.
Open Scope list_scope.

(** [inFlightFileInodeDataStruct]; the channel holds the values sent and not
    received yet, [wgDone] is the state of the wait group and [listed] says
    whether [globalsListElement] is set. *)
Record inFlightFileInodeDataStruct := mkTracked {
  tr_InodeNumber : Z;
  control : list bool;
  wgDone : bool;
  listed : bool
}.

#[export] Instance eta_tracked : Eta inFlightFileInodeDataStruct := fun t =>
  mkTracked (tr_InodeNumber t) (control t) (wgDone t) (listed t).

Record FlockStruct := mkFlock {
  fl_Type : Z;
  fl_Whence : Z;
  fl_Start : Z;
  fl_Len : Z;
  fl_Pid : Z
}.

#[export] Instance eta_flock : Eta FlockStruct := fun f =>
  mkFlock (fl_Type f) (fl_Whence f) (fl_Start f) (fl_Len f) (fl_Pid f).

(** A [container/list] of structs: its elements with their identities. *)
Abbreviation flockList := (list (Z * FlockStruct)).

(** The variables of a volume and the list of [globals], which the tracker
    structs of the volume are in by address. *)
Record fsVolumeStruct := mkFsVolume {
  FLockMap : gmap Z flockList;
  nextElement : Z;
  inFlightFileInodeDataMap : gmap Z Z;
  inFlightHeap : gmap Z inFlightFileInodeDataStruct;
  inFlightNext : Z;
  inFlightFileInodeDataList : list Z
}.

#[export] Instance eta_fsVolume : Eta fsVolumeStruct := fun v =>
  mkFsVolume (FLockMap v) (nextElement v) (inFlightFileInodeDataMap v) (inFlightHeap v) (inFlightNext v)
    (inFlightFileInodeDataList v).

Definition newFsVolume : fsVolumeStruct := mkFsVolume ∅ 0 ∅ ∅ 0 [].

(** ** Effects *)

Inductive fsProg (I A : Type) : Type :=
| PRet (a : A)
| PPanic
| PLoop
| PLock (lockID : string) (callerID : Z) (mode : lockState) (k : fsProg I A)
| PTry (lockID : string) (callerID : Z) (mode : lockState) (k : option error -> fsProg I A)
| PUnlock (lockID : string) (callerID : Z) (k : fsProg I A)
| PHeld (lockID : string) (callerID : Z) (t : LockHeldType) (k : bool -> fsProg I A)
| PCaller (k : Z -> fsProg I A)
| PVol {X : Type} (f : St I error X) (k : error + X -> fsProg I A)
| PVars {X : Type} (f : fsVolumeStruct -> fsVolumeStruct * X) (k : X -> fsProg I A)
| PSpawn (addr : Z) (k : fsProg I A)
| PSelect (addr : Z) (k : bool -> fsProg I A)
| PWait (addr : Z) (k : fsProg I A).
Arguments PRet {I A} a.
Arguments PPanic {I A}.
Arguments PLoop {I A}.
Arguments PLock {I A} lockID callerID mode k.
Arguments PTry {I A} lockID callerID mode k.
Arguments PUnlock {I A} lockID callerID k.
Arguments PHeld {I A} lockID callerID t k.
Arguments PCaller {I A} k.
Arguments PVol {I A X} f k.
Arguments PVars {I A X} f k.
Arguments PSpawn {I A} addr k.
Arguments PSelect {I A} addr k.
Arguments PWait {I A} addr k.

Fixpoint pbind {I A B} (p : fsProg I A) (f : A -> fsProg I B) : fsProg I B :=
  match p with
  | PRet a => f a
  | PPanic => PPanic
  | PLoop => PLoop
  | PLock l c m k => PLock l c m (pbind k f)
  | PTry l c m k => PTry l c m (fun r => pbind (k r) f)
  | PUnlock l c k => PUnlock l c (pbind k f)
  | PHeld l c t k => PHeld l c t (fun r => pbind (k r) f)
  | PCaller k => PCaller (fun r => pbind (k r) f)
  | PVol g k => PVol g (fun r => pbind (k r) f)
  | PVars g k => PVars g (fun r => pbind (k r) f)
  | PSpawn a k => PSpawn a (pbind k f)
  | PSelect a k => PSelect a (fun r => pbind (k r) f)
  | PWait a k => PWait a (pbind k f)
  end.

Notation "x <+ m ;; k" := (pbind m (fun x => k))
  (at level 100, m at next level, right associativity) : go_scope.
Notation "' p <+ m ;; k" := (pbind m (fun x => match x with p => k end))
  (at level 20, p pattern, m at level 99, k at level 200) : go_scope.
Notation "m ;;+ k" := (pbind m (fun _ => k))
  (at level 100, right associativity) : go_scope.

(** A function with an error result; [x <! m ;; k] returns the error of [m]
    ([if nil != err { return }]). *)
Abbreviation FS I A := (fsProg I (error + A)).

Definition fret {I A} (a : A) : FS I A := PRet (inr a).
Definition ferr {I A} (e : error) : FS I A := PRet (inl e).

Definition fbind {I A B} (m : FS I A) (k : A -> FS I B) : FS I B :=
  pbind m (fun r => match r with inl e => PRet (inl e) | inr a => k a end).

Notation "x <! m ;; k" := (fbind m (fun x => k))
  (at level 100, m at next level, right associativity) : go_scope.
Notation "' p <! m ;; k" := (fbind m (fun x => match x with p => k end))
  (at level 20, p pattern, m at level 99, k at level 200) : go_scope.
Notation "m ;;! k" := (fbind m (fun _ => k))
  (at level 100, right associativity) : go_scope.

(** A call of the inode volume, a critical section on the variables. *)
Definition vol {I X} (f : St I error X) : FS I X := PVol f (fun r => PRet r).
Definition vars {I X} (f : fsVolumeStruct -> fsVolumeStruct * X) : fsProg I X := PVars f (fun x => PRet x).
Definition fheld {I} (l : string) (c : Z) (t : LockHeldType) : fsProg I bool := PHeld l c t (fun b => PRet b).
Definition fcaller {I} : fsProg I Z := PCaller (fun c => PRet c).

(** [defer lock.Unlock()] *)
Definition deferUnlock {I A} (l : string) (c : Z) (m : fsProg I A) : fsProg I A :=
  r <+ m ;; PUnlock l c (PRet r).

(** ** Running *)

Record fsState (I : Type) := mkFsState {
  fsLocks : lockMap;
  nextCallerID : Z;
  inodeVolume : I;
  fsVars : fsVolumeStruct
}.
Arguments mkFsState {I}.
Arguments fsLocks {I}.
Arguments nextCallerID {I}.
Arguments inodeVolume {I}.
Arguments fsVars {I}.

#[export] Instance eta_fsState I : Eta (fsState I) := fun s =>
  mkFsState (fsLocks s) (nextCallerID s) (inodeVolume s) (fsVars s).

Inductive fsOutcome (A : Type) : Type :=
| FsRet (a : A)
| FsPanic
| FsBlocked
| FsLoop.
Arguments FsRet {A} a.
Arguments FsPanic {A}.
Arguments FsBlocked {A}.
Arguments FsLoop {A}.

(** The next value for the tracker at [addr]: one that was sent, else the
    timeout. *)
Definition receive (addr : Z) (v : fsVolumeStruct) : option (bool * fsVolumeStruct) :=
  match inFlightHeap v !! addr with
  | Some t =>
      match control t with
      | b :: rest => Some (b, v <| inFlightHeap := <[addr := t <| control := rest |>]> (inFlightHeap v) |>)
      | [] => None
      end
  | None => None
  end.

Definition finished (addr : Z) (v : fsVolumeStruct) : bool :=
  match inFlightHeap v !! addr with Some t => wgDone t | None => false end.

(** One goroutine alone: a lock it does not get blocks it for good.  The
    goroutines it starts do not run. *)
Fixpoint runFs {I A} (p : fsProg I A) (s : fsState I) : fsState I * fsOutcome A :=
  match p with
  | PRet a => (s, FsRet a)
  | PPanic => (s, FsPanic)
  | PLoop => (s, FsLoop)
  | PLock l c m k =>
      match lockEnter (fsLocks s) l c m false with
      | (g, Acquired) => runFs k (s <| fsLocks := g |>)
      | (g, _) => (s <| fsLocks := g |>, FsBlocked)
      end
  | PTry l c m k =>
      match lockEnter (fsLocks s) l c m true with
      | (g, Acquired) => runFs (k None) (s <| fsLocks := g |>)
      | (g, Busy e) => runFs (k (Some e)) (s <| fsLocks := g |>)
      | (g, Blocked _) => (s <| fsLocks := g |>, FsBlocked)
      end
  | PUnlock l c k =>
      match unlock (fsLocks s) l c with
      | Some g => runFs k (s <| fsLocks := g |>)
      | None => (s, FsPanic)
      end
  | PHeld l c t k => runFs (k (isLockHeld (fsLocks s) l c t)) s
  | PCaller k =>
      let '(c, next) := GenerateCallerID (nextCallerID s) in
      runFs (k c) (s <| nextCallerID := next |>)
  | PVol f k =>
      match f (inodeVolume s) with
      | (i, Ret x) => runFs (k (inr x)) (s <| inodeVolume := i |>)
      | (i, Err e) => runFs (k (inl e)) (s <| inodeVolume := i |>)
      | (i, Panic) => (s <| inodeVolume := i |>, FsPanic)
      end
  | PVars f k => let '(v, x) := f (fsVars s) in runFs (k x) (s <| fsVars := v |>)
  | PSpawn _ k => runFs k s
  | PSelect addr k =>
      match receive addr (fsVars s) with
      | Some (b, v) => runFs (k b) (s <| fsVars := v |>)
      | None => runFs (k true) s
      end
  | PWait addr k => if finished addr (fsVars s) then runFs k s else (s, FsBlocked)
  end.

(** ** Goroutines

    A goroutine runs, or waits in [commonLock] for its request to be
    granted.  [tracker] is the body of the goroutines started by [PSpawn]. *)

Inductive thread (I : Type) : Type :=
| Running (p : fsProg I unit)
| Waiting (lockID : string) (id : Z) (callerID : Z) (mode : lockState) (k : fsProg I unit).
Arguments Running {I} p.
Arguments Waiting {I} lockID id callerID mode k.

Section Threads.
Context {I : Type} (tracker : Z -> fsProg I unit).

(** One step of a goroutine; [None] when it cannot move.  [timeout] chooses
    the timer in a [select] that can also receive.  A goroutine that ends or
    panics stays as it is. *)
Definition stepThread (timeout : bool) (s : fsState I) (t : thread I)
    : option (fsState I * thread I * list (thread I)) :=
  match t with
  | Waiting l id c m k =>
      match lockWake (fsLocks s) l id with
      | Some g => Some (s <| fsLocks := g |>, Running k, [])
      | None => None
      end
  | Running p =>
      match p with
      | PRet _ | PPanic | PLoop => None
      | PLock l c m k =>
          match lockEnter (fsLocks s) l c m false with
          | (g, Acquired) => Some (s <| fsLocks := g |>, Running k, [])
          | (g, Blocked id) => Some (s <| fsLocks := g |>, Waiting l id c m k, [])
          | (g, Busy _) => None
          end
      | PTry l c m k =>
          match lockEnter (fsLocks s) l c m true with
          | (g, Acquired) => Some (s <| fsLocks := g |>, Running (k None), [])
          | (g, Busy e) => Some (s <| fsLocks := g |>, Running (k (Some e)), [])
          | (g, Blocked id) => Some (s <| fsLocks := g |>, Waiting l id c m (k None), [])
          end
      | PUnlock l c k =>
          match unlock (fsLocks s) l c with
          | Some g => Some (s <| fsLocks := g |>, Running k, [])
          | None => Some (s, Running PPanic, [])
          end
      | PHeld l c ty k => Some (s, Running (k (isLockHeld (fsLocks s) l c ty)), [])
      | PCaller k =>
          let '(c, next) := GenerateCallerID (nextCallerID s) in
          Some (s <| nextCallerID := next |>, Running (k c), [])
      | PVol f k =>
          match f (inodeVolume s) with
          | (i, Ret x) => Some (s <| inodeVolume := i |>, Running (k (inr x)), [])
          | (i, Err e) => Some (s <| inodeVolume := i |>, Running (k (inl e)), [])
          | (i, Panic) => Some (s <| inodeVolume := i |>, Running PPanic, [])
          end
      | PVars f k => let '(v, x) := f (fsVars s) in Some (s <| fsVars := v |>, Running (k x), [])
      | PSpawn addr k => Some (s, Running k, [Running (tracker addr)])
      | PSelect addr k =>
          match receive addr (fsVars s) with
          | Some (b, v) => if timeout then Some (s, Running (k true), [])
                           else Some (s <| fsVars := v |>, Running (k b), [])
          | None => if timeout then Some (s, Running (k true), []) else None
          end
      | PWait addr k => if finished addr (fsVars s) then Some (s, Running k, []) else None
      end
  end.

(** A system steps when one of its goroutines does. *)
Definition system : Type := (fsState I * list (thread I))%type.

Definition stepSystem (sys : system) (choice : nat * bool) : option system :=
  let '(s, ts) := sys in
  match ts !! choice.1 with
  | Some t =>
      match stepThread choice.2 s t with
      | Some (s', t', new) => Some (s', <[choice.1 := t']> ts ++ new)
      | None => None
      end
  | None => None
  end.

(** A schedule: which goroutine moves at each step.  A choice that cannot
    move is skipped. *)
Fixpoint runSchedule (schedule : list (nat * bool)) (sys : system) : system :=
  match schedule with
  | [] => sys
  | c :: rest => runSchedule rest (match stepSystem sys c with Some sys' => sys' | None => sys end)
  end.

(** No goroutine can move although one has not ended. *)
Definition ended (t : thread I) : bool :=
  match t with Running (PRet _) => true | _ => false end.

Definition stuck (sys : system) : bool :=
  forallb (fun t => match stepThread false sys.1 t, stepThread true sys.1 t with None, None => true | _, _ => false end) sys.2
  && negb (forallb ended sys.2).
End Threads.
