(* ===== verification/FsLocks.v ===== *)
(** Package [fs]: what it needs of the inode volume, its lock wrappers
    (locker.go), its constants (api.go) and the tracking of unflushed files
    (api_internal.go). *)

From stdpp Require Import pretty.
From S2P Require Import Prelude Blunder Dlm InodeTypes InodeVolume InodeDir InodeFile FsProgram.
Open Scope list_scope.
Open Scope Z_scope.
Open Scope go_scope.

(** The methods of [inode.VolumeHandle] that [fs] calls.  Times are in
    nanoseconds. *)
Class InodeHandle (I : Type) := {
  hAccess : Z -> Z -> Z -> list Z -> Z -> St I error bool;
  hProvisionObject : St I error string;
  hCreateFile : Z -> Z -> Z -> St I error Z;
  hCreateDir : Z -> Z -> Z -> St I error Z;
  hCreateSymlink : string -> Z -> Z -> Z -> St I error Z;
  hLink : Z -> string -> Z -> St I error unit;
  hUnlink : Z -> string -> St I error unit;
  hMove : Z -> string -> Z -> string -> St I error unit;
  hLookup : Z -> string -> St I error Z;
  hNumDirEntries : Z -> St I error Z;
  hReadDir : Z -> Z -> Z -> prevReturned_t -> St I error (list DirEntry * bool);
  hDestroy : Z -> St I error unit;
  hFlush : Z -> bool -> St I error unit;
  hGetMetadata : Z -> St I error MetadataStruct;
  hGetType : Z -> St I error Z;
  hGetLinkCount : Z -> St I error Z;
  hSetLinkCount : Z -> Z -> St I error unit;
  hGetSymlink : Z -> St I error string;
  hGetStream : Z -> string -> St I error bytes;
  hPutStream : Z -> string -> bytes -> St I error unit;
  hDeleteStream : Z -> string -> St I error unit;
  hRead : Z -> Z -> Z -> St I error bytes;
  hWrite : Z -> Z -> bytes -> St I error unit;
  hSetSize : Z -> Z -> St I error unit;
  hGetReadPlan : Z -> option Z -> option Z -> St I error (list ReadPlanStep);
  hWrote : Z -> Z -> string -> Z -> Z -> bool -> St I error unit;
  hCoalesce : Z -> string -> list CoalesceElement -> St I error (Z * Z * Z);
  hSetCreationTime : Z -> Z -> St I error unit;
  hSetModificationTime : Z -> Z -> St I error unit;
  hSetAccessTime : Z -> Z -> St I error unit;
  hSetPermMode : Z -> Z -> St I error unit;
  hSetOwnerUserID : Z -> Z -> St I error unit;
  hSetOwnerUserIDGroupID : Z -> Z -> Z -> St I error unit;
  hSetOwnerGroupID : Z -> Z -> St I error unit;
  hValidate : Z -> St I error unit;
  hGetFSID : St I error Z;
  hFetchVolumeHandle : St I error unit
}.

(** The inode package provides it. *)
#[export] Instance inodeHandle {V W : Type} `{!VolumeHandle.VolumeHandle V} `{!SwiftData W} `{!PayloadTree} `{!OnDiskCodec}
    (time_Now : nat -> Z) : InodeHandle (volumeStruct V W) := {|
  hAccess := Access;
  hProvisionObject := ProvisionObject;
  hCreateFile := CreateFile time_Now;
  hCreateDir := CreateDir time_Now;
  hCreateSymlink := CreateSymlink time_Now;
  hLink := Link time_Now;
  hUnlink := Unlink time_Now;
  hMove := Move time_Now;
  hLookup := InodeDir.Lookup;
  hNumDirEntries := NumDirEntries;
  hReadDir := ReadDir;
  hDestroy := Destroy;
  hFlush := Flush;
  hGetMetadata := GetMetadata;
  hGetType := GetType;
  hGetLinkCount := GetLinkCount;
  hSetLinkCount := SetLinkCount;
  hGetSymlink := GetSymlink;
  hGetStream := GetStream;
  hPutStream := PutStream time_Now;
  hDeleteStream := DeleteStream time_Now;
  hRead := Read;
  hWrite := Write time_Now;
  hSetSize := SetSize time_Now;
  hGetReadPlan := GetReadPlan;
  hWrote := Wrote time_Now;
  hCoalesce := Coalesce time_Now;
  hSetCreationTime := SetCreationTime time_Now;
  hSetModificationTime := SetModificationTime time_Now;
  hSetAccessTime := SetAccessTime time_Now;
  hSetPermMode := SetPermMode time_Now;
  hSetOwnerUserID := SetOwnerUserID time_Now;
  hSetOwnerUserIDGroupID := SetOwnerUserIDGroupID time_Now;
  hSetOwnerGroupID := SetOwnerGroupID time_Now;
  hValidate := Validate;
  hGetFSID := GetFSID;
  hFetchVolumeHandle := fetchVolumeHandle time_Now
|}.

(** ** Constants (api.go) *)

Definition FilePathMax : Z := 4096.
Definition FileNameMax : Z := 255.
Definition MaxSymlinks : nat := 8.
Definition MiddlewareStream : string := "middleware".
Definition FsBlockSize : Z := 64 * 1024.
Definition FsOptimalTransferSize : Z := 64 * 1024.
Definition TeraByte : Z := 1024 * 1024 * 1024 * 1024.
Definition VolFakeTotalBlocks : Z := TeraByte / FsBlockSize.
Definition VolFakeFreeBlocks : Z := TeraByte / FsBlockSize.
Definition VolFakeAvailBlocks : Z := TeraByte / FsBlockSize.
Definition VolFakeTotalInodes : Z := TeraByte.
Definition VolFakeAvailInodes : Z := TeraByte.

Definition StatCTime : Z := 1.
Definition StatCRTime : Z := 2.
Definition StatMTime : Z := 3.
Definition StatATime : Z := 4.
Definition StatSize : Z := 5.
Definition StatNLink : Z := 6.
Definition StatFType : Z := 7.
Definition StatINum : Z := 8.
Definition StatMode : Z := 9.
Definition StatUserID : Z := 10.
Definition StatGroupID : Z := 11.
Definition StatNumWrites : Z := 12.

Abbreviation Stat := (gmap Z Z).

(** ** Locks *)

Definition makeLockID (volumeName : string) (inodeNumber : Z) : string :=
  (("vol." +:+ volumeName) +:+ ":ino." +:+ pretty (Z.to_N inodeNumber))%string.

(** [dlm.RWLockStruct]. *)
Record RWLockStruct := mkLock { LockID : string; lk_CallerID : Z }.

Section Locks.
Context {I : Type} (volumeName : string).

Abbreviation P A := (fsProg I A).

Definition callerOf (callerID : option Z) : P Z :=
  match callerID with Some c => PRet c | None => fcaller end.

Definition initInodeLock (inodeNumber : Z) (callerID : option Z) : P RWLockStruct :=
  c <+ callerOf callerID ;;
  PRet (mkLock (makeLockID volumeName inodeNumber) c).

Definition lockRead (lock : RWLockStruct) : P unit := PLock (LockID lock) (lk_CallerID lock) shared (PRet tt).
Definition lockWrite (lock : RWLockStruct) : P unit := PLock (LockID lock) (lk_CallerID lock) exclusive (PRet tt).
Definition lockTryWrite (lock : RWLockStruct) : P (option error) :=
  PTry (LockID lock) (lk_CallerID lock) exclusive (fun r => PRet r).
Definition lockUnlock (lock : RWLockStruct) : P unit := PUnlock (LockID lock) (lk_CallerID lock) (PRet tt).
Definition lockIsReadHeld (lock : RWLockStruct) : P bool := fheld (LockID lock) (lk_CallerID lock) READLOCK.
Definition lockIsWriteHeld (lock : RWLockStruct) : P bool := fheld (LockID lock) (lk_CallerID lock) WRITELOCK.

(** [defer lock.Unlock()] and [if nil != lock { lock.Unlock() }]. *)
Definition releasing {A} (lock : RWLockStruct) (m : P A) : P A := deferUnlock (LockID lock) (lk_CallerID lock) m.
Definition unlockIf (lock : option RWLockStruct) : P unit :=
  match lock with Some lock => lockUnlock lock | None => PRet tt end.

Definition getReadLock (inodeNumber : Z) (callerID : option Z) : P RWLockStruct :=
  lock <+ initInodeLock inodeNumber callerID ;;
  lockRead lock ;;+ PRet lock.

Definition getWriteLock (inodeNumber : Z) (callerID : option Z) : P RWLockStruct :=
  lock <+ initInodeLock inodeNumber callerID ;;
  lockWrite lock ;;+ PRet lock.

Definition ensureReadLock (inodeNumber : Z) (callerID : option Z) : P (option RWLockStruct) :=
  lock <+ initInodeLock inodeNumber callerID ;;
  held <+ lockIsReadHeld lock ;;
  if held : bool then PRet None else lockRead lock ;;+ PRet (Some lock).

Definition ensureWriteLock (inodeNumber : Z) (callerID : option Z) : P (option RWLockStruct) :=
  lock <+ initInodeLock inodeNumber callerID ;;
  held <+ lockIsWriteHeld lock ;;
  if held : bool then PRet None else lockWrite lock ;;+ PRet (Some lock).

(** The operations start by locking their inode for a caller of their own. *)
Definition withReadLock {A} (inodeNumber : Z) (m : RWLockStruct -> P A) : P A :=
  lock <+ getReadLock inodeNumber None ;; releasing lock (m lock).

Definition withWriteLock {A} (inodeNumber : Z) (m : RWLockStruct -> P A) : P A :=
  lock <+ getWriteLock inodeNumber None ;; releasing lock (m lock).

(** ** Unflushed files *)

Definition trackInFlightFileInodeData (inodeNumber : Z) : P unit :=
  started <+ vars (fun v =>
    match inFlightFileInodeDataMap v !! inodeNumber with
    | Some _ => (v, None)
    | None =>
        let a := inFlightNext v in
        (v <| inFlightFileInodeDataMap := <[inodeNumber := a]> (inFlightFileInodeDataMap v) |>
           <| inFlightHeap := <[a := mkTracked inodeNumber [] false true]> (inFlightHeap v) |>
           <| inFlightNext := a + 1 |>
           <| inFlightFileInodeDataList := inFlightFileInodeDataList v ++ [a] |>, Some a)
    end) ;;
  match started with Some a => PSpawn a (PRet tt) | None => PRet tt end.

(** The critical section of [untrackInFlightFileInodeData]. *)
Definition untrackVars (inodeNumber : Z) (flushFirst : bool) (v : fsVolumeStruct) : fsVolumeStruct * option Z :=
  match inFlightFileInodeDataMap v !! inodeNumber with
  | None => (v, None)
  | Some a =>
      (v <| inFlightFileInodeDataMap := delete inodeNumber (inFlightFileInodeDataMap v) |>
         <| inFlightFileInodeDataList := filter (fun b => b <> a) (inFlightFileInodeDataList v) |>
         <| inFlightHeap := alter (fun t => t <| listed := false |> <| control := control t ++ [flushFirst] |>) a (inFlightHeap v) |>,
       Some a)
  end.

Definition untrackInFlightFileInodeData (inodeNumber : Z) (flushFirst : bool) : P unit :=
  found <+ vars (untrackVars inodeNumber flushFirst) ;;
  match found with
  | Some a => if flushFirst then PWait a (PRet tt) else PRet tt
  | None => PRet tt
  end.

Fixpoint pfor {A} (l : list A) (body : A -> P unit) : P unit :=
  match l with
  | [] => PRet tt
  | x :: l' => body x ;;+ pfor l' body
  end.

Definition untrackInFlightFileInodeDataAll : P unit :=
  inFlightFileInodeNumbers <+ vars (fun v => (v, (map_to_list (inFlightFileInodeDataMap v)).*1)) ;;
  pfor inFlightFileInodeNumbers (fun inodeNumber => untrackInFlightFileInodeData inodeNumber true).

Context `{!InodeHandle I}.

(** [Access] returns a bool only. *)
Definition access (inodeNumber userID groupID : Z) (otherGroupIDs : list Z) (accessMode : Z) : FS I bool :=
  vol (hAccess inodeNumber userID groupID otherGroupIDs accessMode).

Definition inFlightFileInodeDataFlusher (inodeNumber : Z) : P unit :=
  lock <+ initInodeLock inodeNumber None ;;
  lockWrite lock ;;+
  stillExists <+ access inodeNumber InodeRootUserID InodeRootGroupID [] F_OK ;;
  (if decide (stillExists = inr true) then vol (hFlush inodeNumber false) ;;+ PRet tt else PRet tt) ;;+
  lockUnlock lock.

(** The goroutine of the tracker at [addr]. *)
Definition inFlightFileInodeDataTracker (addr : Z) : P unit :=
  PSelect addr (fun flushFirst =>
    inodeNumber <+ vars (fun v => (v, default 0 (tr_InodeNumber <$> inFlightHeap v !! addr))) ;;
    (if flushFirst then inFlightFileInodeDataFlusher inodeNumber else PRet tt) ;;+
    vars (fun v => (v <| inFlightHeap := alter (fun t => t <| wgDone := true |>) addr (inFlightHeap v) |>, tt))).

Definition chunkedPutConnectionPoolStarvationCallback : P unit :=
  front <+ vars (fun v =>
    match inFlightFileInodeDataList v with
    | [] => (v, None)
    | a :: rest =>
        (v <| inFlightFileInodeDataList := rest |>
           <| inFlightHeap := alter (fun t => t <| listed := false |>) a (inFlightHeap v) |>,
         Some (default 0 (tr_InodeNumber <$> inFlightHeap v !! a)))
    end) ;;
  match front with
  | None => PRet tt
  | Some inodeNumber => inFlightFileInodeDataFlusher inodeNumber
  end.
End Locks.
