(* ===== verification/FsConfig.v ===== *)
(** Package [fs]: the volumes and mounts of the process (config.go, and [mount]
    of api_internal.go).

    A volume has the variables of [FsProgram]; its [VolumeHandle] is the volume
    of package [inode] with the same name, which is part of the rest of the
    world [W] and reached with [inodeFetchVolumeHandle].  [waitFlushed] is what
    the goroutine that flushes a file, and the others, do to the variables until
    it is done. *)

From S2P Require Import Prelude Blunder Utils GoStrings Conf ConfNumbers ConfSections FsProgram FsLocks.
Open Scope list_scope.

Record mountStruct := mkMount {
  mount_id : Z;
  mount_options : Z;
  mount_volume : string
}.

Record fsVolume := mkFsVol {
  fv_volumeName : string;
  fv_maxFlushTime : Z;
  fv_vars : fsVolumeStruct;
  mountList : list Z
}.

#[export] Instance eta_fsVol : Eta fsVolume := fun v => mkFsVol (fv_volumeName v) (fv_maxFlushTime v) (fv_vars v) (mountList v).

(** [starvationCallback]: whether package [swiftclient] has the callback. *)
Record fsGlobals := mkFsGlobals {
  fg_whoAmI : string;
  fs_volumeMap : gmap string fsVolume;
  mountMap : gmap Z mountStruct;
  lastMountID : Z;
  starvationCallback : bool
}.

#[export] Instance eta_fsGlobals : Eta fsGlobals := fun g =>
  mkFsGlobals (fg_whoAmI g) (fs_volumeMap g) (mountMap g) (lastMountID g) (starvationCallback g).

Section Config.
Context `{!MapRange} {W : Type} (inodeFetchVolumeHandle : string -> St W error unit)
  (waitFlushed : string -> Z -> fsVolumeStruct -> fsVolumeStruct).

Local Abbreviation FG A := (St (fsGlobals * W) error A).

Definition modGlobals (f : fsGlobals -> fsGlobals) : FG unit := smod (fun w => (f w.1, w.2)).

Definition onWorld {A} (m : St W error A) : FG A := fun w => let '(s, r) := m w.2 in ((w.1, s), r).

Definition SetStarvationCallbackFunc (on : bool) : FG unit := modGlobals (fun g => g <| starvationCallback := on |>).

(** A volume this peer serves. *)
Definition startVolume (confMap : ConfMap) (namespaced : bool) (volumeName : string) : FG unit :=
  flowControlName <~ slift (FetchOptionValueString confMap (VolumeNameConfSection namespaced volumeName) "FlowControl") ;;
  maxFlushTime <~ slift (FetchOptionValueDuration confMap (FlowControlNameConfSection namespaced flowControlName) "MaxFlushTime") ;;
  onWorld (inodeFetchVolumeHandle volumeName) ;;~
  modGlobals (fun g => g <| fs_volumeMap := <[volumeName := mkFsVol volumeName maxFlushTime newFsVolume []]> (fs_volumeMap g) |>).

Definition Up (confMap : ConfMap) (namespaced : bool) : FG unit :=
  assign (FetchOptionValueString confMap "Cluster" "WhoAmI") EmptyString (fun whoAmI w => (w.1 <| fg_whoAmI := whoAmI |>, w.2)) ;;~
  volumeList <~ slift (volumeListOf confMap) ;;
  modGlobals (fun g => g <| fs_volumeMap := ∅ |>) ;;~
  w <~ sget ;;
  sfor volumeList (fun volumeName =>
    ifPrimary confMap namespaced (fg_whoAmI w.1) volumeName (startVolume confMap namespaced volumeName)) ;;~
  modGlobals (fun g => g <| mountMap := ∅ |> <| lastMountID := 0 |>) ;;~
  SetStarvationCallbackFunc true.

(** [mount] *)
Definition mount (volumeName : string) (mountOptions : Z) : FG Z :=
  w <~ sget ;;
  match fs_volumeMap w.1 !! volumeName with
  | None => serr (AddError (Some plain) NotFoundError)
  | Some volStruct =>
      let id := lastMountID w.1 +u 1 in
      modGlobals (fun g =>
        g <| lastMountID := id |>
          <| mountMap := <[id := mkMount id mountOptions volumeName]> (mountMap g) |>
          <| fs_volumeMap := <[volumeName := volStruct <| mountList := mountList volStruct ++ [id] |>]> (fs_volumeMap g) |>) ;;~
      sret id
  end.

(** [untrackInFlightFileInodeDataAll]: each file is flushed and waited for. *)
Definition untrackAll (volumeName : string) (vars : fsVolumeStruct) : fsVolumeStruct :=
  foldl (fun vars inodeNumber =>
           match untrackVars inodeNumber true vars with
           | (vars', Some _) => waitFlushed volumeName inodeNumber vars'
           | (vars', None) => vars'
           end) vars (map_to_list (inFlightFileInodeDataMap vars)).*1.

Definition untrackVolume (volumeName : string) : FG unit :=
  modGlobals (fun g => g <| fs_volumeMap := alter (fun v => v <| fv_vars := untrackAll volumeName (fv_vars v) |>) volumeName (fs_volumeMap g) |>).

Definition removeVolume (volumeName : string) : FG unit :=
  w <~ sget ;;
  match fs_volumeMap w.1 !! volumeName with
  | None => spanic
  | Some volume =>
      modGlobals (fun g => g <| mountMap := foldl (fun m id => delete id m) (mountMap g) (mountList volume) |>) ;;~
      untrackVolume volumeName ;;~
      modGlobals (fun g => g <| fs_volumeMap := delete volumeName (fs_volumeMap g) |>)
  end.

Definition checkWhoAmI (confMap : ConfMap) : FG string :=
  whoAmI <~ slift (FetchOptionValueString confMap "Cluster" "WhoAmI") ;;
  w <~ sget ;;
  if bool_decide (whoAmI = fg_whoAmI w.1) then sret whoAmI else serr plain.

Definition PauseAndContract (confMap : ConfMap) (namespaced : bool) : FG unit :=
  SetStarvationCallbackFunc false ;;~
  whoAmI <~ checkWhoAmI confMap ;;
  volumeList <~ slift (volumeListOf confMap) ;;
  updatedVolumeMap <~ slift (servedVolumes confMap namespaced whoAmI volumeList) ;;
  w <~ sget ;;
  let removedVolumeList := filter (fun volumeName => volumeName ∉ updatedVolumeMap) (rangeKeys (dom (fs_volumeMap w.1))) in
  sfor removedVolumeList removeVolume.

Definition ExpandAndResume (confMap : ConfMap) (namespaced : bool) : FG unit :=
  whoAmI <~ checkWhoAmI confMap ;;
  volumeList <~ slift (volumeListOf confMap) ;;
  sfor volumeList (fun volumeName =>
    ifPrimary confMap namespaced whoAmI volumeName
      (w <~ sget ;;
       match fs_volumeMap w.1 !! volumeName with
       | None => startVolume confMap namespaced volumeName
       | Some _ => sret tt
       end)) ;;~
  SetStarvationCallbackFunc true.

(** The process ends when a file is left in the list of unflushed files. *)
Definition Down : FG unit :=
  SetStarvationCallbackFunc false ;;~
  w <~ sget ;;
  sfor (rangeKeys (dom (fs_volumeMap w.1))) untrackVolume ;;~
  w <~ sget ;;
  if forallb (fun p => bool_decide (inFlightFileInodeDataList (fv_vars p.2) = [])) (map_to_list (fs_volumeMap w.1)) then sret tt
  else spanic.
End Config.

(** The volumes and mounts of package [fs]: every mount is on a volume that the
    peer serves, and a change of configuration takes the mounts of the volumes
    that go. *)

(** The mount of an id and the list of its volume agree. *)
Record mountsOk (g : fsGlobals) : Prop := {
  mo_mounts : forall id m, mountMap g !! id = Some m ->
    mount_id m = id /\ 0 < id <= lastMountID g
    /\ exists v, fs_volumeMap g !! mount_volume m = Some v /\ id ∈ mountList v;
  mo_lists : forall name v id, fs_volumeMap g !! name = Some v -> id ∈ mountList v ->
    exists m, mountMap g !! id = Some m /\ mount_volume m = name;
  mo_last : 0 <= lastMountID g < two64
}.

Section Facts.
Context `{!MapRange} `{!MapRangeOk} {W : Type} (inodeFetchVolumeHandle : string -> St W error unit)
  (waitFlushed : string -> Z -> fsVolumeStruct -> fsVolumeStruct).

Abbreviation world := (fsGlobals * W)%type.

(** ** Mounting *)

Lemma fsMount_ret volumeName mountOptions (w w' : world) id :
  mount volumeName mountOptions w = (w', Ret id) ->
  id = lastMountID w.1 +u 1 /\ w'.2 = w.2 /\ fg_whoAmI w'.1 = fg_whoAmI w.1
  /\ exists v, fs_volumeMap w.1 !! volumeName = Some v
    /\ w'.1 = w.1 <| lastMountID := id |> <| mountMap := <[id := mkMount id mountOptions volumeName]> (mountMap w.1) |>
                  <| fs_volumeMap := <[volumeName := v <| mountList := mountList v ++ [id] |>]> (fs_volumeMap w.1) |>.
Proof.
  unfold mount. intros (w1 & w2 & Hw & Hr)%sbind_ret_inv. injection Hw as <- <-.
  destruct (fs_volumeMap w.1 !! volumeName) as [v|]; [|done].
  apply sbind_ret_inv in Hr as (w1 & [] & Hw & Hr). injection Hw as <-. injection Hr as <- <-. cbn.
  split; [done|]. split; [done|]. split; [done|]. by exists v.
Qed.

Lemma fsMount_ok volumeName mountOptions (w w' : world) id :
  mountsOk w.1 -> lastMountID w.1 + 1 < two64 -> mount volumeName mountOptions w = (w', Ret id) ->
  mountsOk w'.1 /\ mountMap w.1 !! id = None /\ mountMap w'.1 = <[id := mkMount id mountOptions volumeName]> (mountMap w.1)
  /\ dom (fs_volumeMap w'.1) = dom (fs_volumeMap w.1).
Proof.
  intros [Hm Hl Hb] Hroom (Hid & _ & _ & v & Hv & Hw)%fsMount_ret. unfold uadd in Hid. rewrite u64_small in Hid by (unfold is_u64; lia).
  assert (Hnew : mountMap w.1 !! id = None).
  { destruct (mountMap w.1 !! id) as [m|] eqn:Hi; [|done]. destruct (Hm _ _ Hi) as (_ & ? & _). lia. }
  rewrite Hw. cbn. split; [|split; [done|split; [done|]]]; [|by rewrite dom_insert_lookup_L by (by eexists)].
  split; cbn.
  - intros id' m [[<- <-]|[Hne Hi]]%lookup_insert_Some.
    + cbn. split; [done|]. split; [lia|]. eexists. rewrite lookup_insert_eq. split; [done|]. cbn. apply elem_of_app. right. by apply list_elem_of_singleton.
    + destruct (Hm _ _ Hi) as (? & ? & v' & Hv' & Hin). split; [done|]. split; [lia|].
      destruct (decide (volumeName = mount_volume m)) as [Heq|].
      * rewrite <- Heq in Hv' |- *. rewrite lookup_insert_eq. eexists. split; [done|]. cbn. apply elem_of_app. left. congruence.
      * rewrite lookup_insert_ne by done. eauto.
  - intros name v' id' [[<- <-]|[Hne Hi]]%lookup_insert_Some Hin.
    + cbn in Hin. apply elem_of_app in Hin as [Hin| ->%list_elem_of_singleton].
      * destruct (Hl _ _ _ Hv Hin) as (m & Hm' & Hn). exists m. rewrite lookup_insert_ne; [done|]. intros <-. congruence.
      * eexists. rewrite lookup_insert_eq. done.
    + destruct (Hl _ _ _ Hi Hin) as (m & Hm' & Hn). exists m. rewrite lookup_insert_ne; [done|]. intros <-. congruence.
  - lia.
Qed.

(** ** Starting volumes *)

Lemma startVolume_ret confMap namespaced volumeName (w w' : world) :
  startVolume inodeFetchVolumeHandle confMap namespaced volumeName w = (w', Ret tt) ->
  exists t, w'.1 = w.1 <| fs_volumeMap := <[volumeName := mkFsVol volumeName t newFsVolume []]> (fs_volumeMap w.1) |>
    /\ inodeFetchVolumeHandle volumeName w.2 = (w'.2, Ret tt).
Proof.
  unfold startVolume. intros HR. ret_step HR. ret_step HR. ret_step HR. destruct a1.
  unfold onWorld in E1. destruct (inodeFetchVolumeHandle volumeName w.2) as [s' r] eqn:Hf. injection E1 as <- ->.
  injection HR as <-. cbn. by eexists.
Qed.

Lemma startVolume_ok confMap namespaced volumeName (w w' : world) :
  mountsOk w.1 -> fs_volumeMap w.1 !! volumeName = None ->
  startVolume inodeFetchVolumeHandle confMap namespaced volumeName w = (w', Ret tt) ->
  mountsOk w'.1 /\ mountMap w'.1 = mountMap w.1 /\ dom (fs_volumeMap w'.1) = {[volumeName]} ∪ dom (fs_volumeMap w.1)
  /\ fg_whoAmI w'.1 = fg_whoAmI w.1 /\ lastMountID w'.1 = lastMountID w.1.
Proof.
  intros [Hm Hl Hb] Hn (t & Hw & _)%startVolume_ret. rewrite Hw. cbn. split; [|by rewrite dom_insert_L].
  split; cbn.
  - intros id m Hi. destruct (Hm _ _ Hi) as (? & ? & v & Hv & Hin). split; [done|]. split; [done|]. exists v.
    rewrite lookup_insert_ne; [done|]. intros Heq. rewrite <- Heq in Hv. congruence.
  - intros name v id [[<- <-]|[Hne Hi]]%lookup_insert_Some Hin; [by apply elem_of_nil in Hin|by eapply Hl].
  - done.
Qed.


(** ** Removing volumes *)

Lemma lookup_foldl_delete {A} (ids : list Z) : forall (m : gmap Z A) id,
  foldl (fun m id => delete id m) m ids !! id = if bool_decide (id ∈ ids) then None else m !! id.
Proof.
  induction ids as [|i ids IH]; intros m id; cbn [foldl]; [done|]. rewrite IH, lookup_delete.
  destruct (decide (id ∈ ids)) as [Hi|Hi].
  - rewrite !bool_decide_true; [done|by right|done].
  - rewrite (bool_decide_false (id ∈ ids)) by done. case_decide as Heq; [subst; rewrite bool_decide_true; [done|by left]|].
    rewrite bool_decide_false; [done|]. intros [->|?]%elem_of_cons; done.
Qed.

(** The globals without some volumes and their mounts. *)
Definition without (gone : string -> Prop) `{!forall name, Decision (gone name)} (g : fsGlobals) : fsGlobals :=
  g <| fs_volumeMap := filter (fun p => ~ gone p.1) (fs_volumeMap g) |>
    <| mountMap := filter (fun p => ~ gone (mount_volume p.2)) (mountMap g) |>.

Lemma without_ok (gone : string -> Prop) `{!forall name, Decision (gone name)} g : mountsOk g -> mountsOk (without gone g).
Proof.
  intros [Hm Hl Hb]. split; cbn; [| |done].
  - intros id m [Hi Hg]%map_lookup_filter_Some. destruct (Hm _ _ Hi) as (? & ? & v & Hv & Hin). split; [done|]. split; [done|].
    exists v. by rewrite map_lookup_filter_Some.
  - intros name v id [Hv Hg]%map_lookup_filter_Some Hin. destruct (Hl _ _ _ Hv Hin) as (m & Hi & <-). exists m.
    by rewrite map_lookup_filter_Some.
Qed.

(** Deleting the ids of the volume's list takes exactly its mounts. *)
Lemma mounts_of_list g name v : mountsOk g -> fs_volumeMap g !! name = Some v ->
  foldl (fun m id => delete id m) (mountMap g) (mountList v) = filter (fun p => mount_volume p.2 <> name) (mountMap g).
Proof.
  intros [Hm Hl _] Hv. apply map_eq. intros id. rewrite lookup_foldl_delete. symmetry. case_bool_decide as Hin.
  - destruct (Hl _ _ _ Hv Hin) as (m & Hi & Hn). apply map_lookup_filter_None. right. intros m' Hi' Hne. cbn in Hne. congruence.
  - apply option_eq. intros m. rewrite map_lookup_filter_Some. cbn. split; [by intros [? _]|]. intros Hi. split; [done|].
    intros Hn. destruct (Hm _ _ Hi) as (_ & _ & v' & Hv' & Hin'). rewrite Hn in Hv'. congruence.
Qed.

Lemma removeVolume_ret volumeName (w w' : world) : mountsOk w.1 ->
  removeVolume waitFlushed volumeName w = (w', Ret tt) -> w' = (without (fun name => name = volumeName) w.1, w.2).
Proof.
  intros Hok HR. unfold removeVolume in HR. ret_step HR. destruct (fs_volumeMap w.1 !! volumeName) as [v|] eqn:Hv; [|done].
  pose proof (mounts_of_list _ _ _ Hok Hv) as Hd. destruct w as [g x]. cbn [fst snd] in *. injection HR as <-.
  unfold without, set. cbn. f_equal. rewrite Hd. f_equal.
  apply map_eq. intros k. apply option_eq. intros z. rewrite lookup_delete, map_lookup_filter_Some. cbn.
  case_decide as Hk; [subst; split; [done|by intros [_ []]]|]. rewrite lookup_alter_ne by done. naive_solver.
Qed.

Lemma without_none g : without (fun _ => False) g = g.
Proof. unfold without, set. destruct g. cbn. f_equal; apply map_filter_id; naive_solver. Qed.

Lemma removeVolumes_ret volumeNames (w w' : world) : mountsOk w.1 ->
  sfor volumeNames (removeVolume waitFlushed) w = (w', Ret tt) -> w' = (without (fun name => name ∈ volumeNames) w.1, w.2).
Proof.
  intros Hok HR.
  refine (sfor_ret_ind (fun don u => u = (without (fun name => name ∈ don) w.1, w.2)) _ _ _ _ _ _ HR).
  - destruct w as [[] x]. unfold without, set. cbn. do 2 f_equal; symmetry; apply map_filter_id; intros; apply not_elem_of_nil.
  - intros don x s1 s2 Hx -> Hs. apply removeVolume_ret in Hs as ->; [|by apply without_ok]. cbn. f_equal.
    unfold without, set. destruct w as [[] y]. cbn. f_equal; apply map_eq; intros k; apply option_eq; intros z;
      rewrite !map_lookup_filter_Some, elem_of_app, list_elem_of_singleton; cbn; naive_solver.
Qed.

(** ** Across a change of configuration *)

Lemma checkWhoAmI_ret confMap (w w' : world) who : checkWhoAmI confMap w = (w', Ret who) ->
  FetchOptionValueString confMap "Cluster" "WhoAmI" = Ret who /\ who = fg_whoAmI w.1 /\ w' = w.
Proof. unfold checkWhoAmI. intros HR. ret_step HR. ret_step HR. case_bool_decide; [|done]. by injection HR as <- <-. Qed.

Lemma fsPause_ret confMap namespaced (w w' : world) : mountsOk w.1 ->
  PauseAndContract waitFlushed confMap namespaced w = (w', Ret tt) ->
  FetchOptionValueString confMap "Cluster" "WhoAmI" = Ret (fg_whoAmI w.1)
  /\ mountsOk w'.1 /\ w'.2 = w.2 /\ fg_whoAmI w'.1 = fg_whoAmI w.1 /\ lastMountID w'.1 = lastMountID w.1
  /\ dom (fs_volumeMap w'.1) = dom (fs_volumeMap w.1) ∩ servedBy confMap namespaced (fg_whoAmI w.1)
  /\ forall id m, mountMap w'.1 !! id = Some m <->
       mountMap w.1 !! id = Some m /\ mount_volume m ∈ servedBy confMap namespaced (fg_whoAmI w.1).
Proof.
  intros Hok HR. unfold PauseAndContract in HR. ret_step HR. destruct a. injection E as <-. ret_step HR.
  apply checkWhoAmI_ret in E as (Hwho & -> & ->). cbn in Hwho. split; [done|].
  ret_step HR. ret_step HR. ret_step HR. cbn [fst snd set] in *.
  assert (Hx : forall name, name ∈ a0 <-> name ∈ servedBy confMap namespaced (fg_whoAmI w.1)).
  { intros name. rewrite (servedBy_elem _ _ _ _ _ E). by apply servedVolumes_elem. }
  destruct w as [g x]. cbn [fst snd] in *.
  match type of HR with sfor ?l _ _ = _ => set (gone := l) in * end.
  assert (Hok' : mountsOk (g <| starvationCallback := false |>)) by (by destruct Hok; split).
  apply removeVolumes_ret in HR as ->; [|exact Hok']. cbn [fst snd]. split; [by apply without_ok|]. split; [done|]. split; [done|]. split; [done|].
  assert (Hgone : forall name, name ∈ dom (fs_volumeMap g) -> name ∈ gone <-> name ∉ servedBy confMap namespaced (fg_whoAmI g)).
  { intros name Hn. unfold gone. rewrite list_elem_of_filter, rangeKeys_elem, Hx. cbn. tauto. }
  split.
  - apply set_eq. intros name. rewrite elem_of_intersection. cbn. rewrite !elem_of_dom. split.
    + intros [v [Hv Hng]%map_lookup_filter_Some]. cbn in Hng. split; [by eexists|].
      destruct (decide (name ∈ servedBy confMap namespaced (fg_whoAmI g))) as [|Hs]; [done|]. exfalso. apply Hng, Hgone; [|done].
      by eapply elem_of_dom_2.
    + intros [[v Hv] Hs]. exists v. apply map_lookup_filter_Some. split; [done|]. cbn. intros Hg. apply Hgone in Hg; [done|].
      by eapply elem_of_dom_2.
  - intros id m. cbn. rewrite map_lookup_filter_Some. cbn. destruct Hok as [Hm _ _]. split; intros [Hi Hs]; (split; [done|]);
      destruct (Hm _ _ Hi) as (_ & _ & v & Hv & _); (apply (elem_of_dom_2 (D := gset string)) in Hv).
    + destruct (decide (mount_volume m ∈ servedBy confMap namespaced (fg_whoAmI g))) as [|Hn]; [done|]. exfalso. by apply Hs, Hgone.
    + intros Hg. by apply Hgone in Hg.
Qed.

(** The mounts are those of before; the volumes are those and [X]. *)
Definition fsGrown (g : fsGlobals) (X : gset string) (w : world) : Prop :=
  mountsOk w.1 /\ mountMap w.1 = mountMap g /\ dom (fs_volumeMap w.1) = dom (fs_volumeMap g) ∪ X /\ fg_whoAmI w.1 = fg_whoAmI g
  /\ lastMountID w.1 = lastMountID g.

Lemma fsExpand_ret confMap namespaced (w w' : world) : mountsOk w.1 ->
  ExpandAndResume inodeFetchVolumeHandle confMap namespaced w = (w', Ret tt) ->
  fsGrown w.1 (servedBy confMap namespaced (fg_whoAmI w.1)) w'.
Proof.
  intros Hok HR. unfold ExpandAndResume in HR. ret_step HR. apply checkWhoAmI_ret in E as (_ & -> & ->). ret_step HR. ret_step HR.
  destruct a0. enough (Hg : fsGrown w.1 (servedBy confMap namespaced (fg_whoAmI w.1)) s).
  { injection HR as <-. destruct Hg as ([] & Hg). split; [by split|exact Hg]. }
  refine (servedLoop_ind (fsGrown w.1) _ _ _ _ _ _ _ E _ _ E0).
  - split; [done|]. split; [done|]. split; [set_solver|done].
  - intros X name u u' (Huok & Hm & Hd & Hw & Hlast) Hb. ret_step Hb. destruct (fs_volumeMap u.1 !! name) as [v|] eqn:Hn.
    + injection Hb as <-. split; [done|]. split; [done|]. split; [|done]. apply (elem_of_dom_2 (D := gset string)) in Hn. set_solver.
    + eapply startVolume_ok in Hb as (Hok' & Hm' & Hd' & Hw' & Hl'); [|done|done]. split; [done|]. split; [congruence|].
      split; [set_solver|]. split; congruence.
Qed.

Lemma fsUp_ret confMap namespaced (w w' : world) :
  Up inodeFetchVolumeHandle confMap namespaced w = (w', Ret tt) ->
  FetchOptionValueString confMap "Cluster" "WhoAmI" = Ret (fg_whoAmI w'.1)
  /\ mountsOk w'.1 /\ mountMap w'.1 = ∅ /\ lastMountID w'.1 = 0
  /\ dom (fs_volumeMap w'.1) = servedBy confMap namespaced (fg_whoAmI w'.1).
Proof.
  intros HR. unfold Up in HR. ret_step HR. ret_step HR. ret_step HR. destruct a1. injection E1 as <-. ret_step HR. ret_step HR.
  destruct a1. ret_step HR. destruct a1. injection E2 as <-. injection HR as <-. cbn [fst snd set fg_whoAmI mountMap fs_volumeMap] in *.
  enough (Hg : dom (fs_volumeMap s.1) = servedBy confMap namespaced a /\ map_Forall (fun _ v => mountList v = []) (fs_volumeMap s.1)
               /\ fg_whoAmI s.1 = a).
  { destruct Hg as (Hd & Hl & <-). split; [done|]. split; [|split; [done|split; [done|by rewrite Hd]]]. split; cbn; [by intros ? ? ?%lookup_empty_Some| |done].
    intros name v id Hv Hin. rewrite (Hl _ _ Hv) in Hin. by apply elem_of_nil in Hin. }
  refine (servedLoop_ind (fun X u => dom (fs_volumeMap u.1) = X /\ map_Forall (fun _ v => mountList v = []) (fs_volumeMap u.1)
                                     /\ fg_whoAmI u.1 = a) _ _ _ _ _ _ _ E0 _ _ E1).
  - cbn. split; [apply dom_empty_L|]. split; [apply map_Forall_empty|done].
  - intros X name u u' (<- & Hl & <-) (t & Hw & _)%startVolume_ret. rewrite Hw. cbn. split; [by rewrite dom_insert_L|].
    split; [by apply map_Forall_insert_2|done].
Qed.

(** ** The rest of the world *)

(** What the calls of package [inode] keep, the calls of this package keep. *)
Section Rest.
Context (R : W -> W -> Prop) `{!PreOrder R} (Hfetch : forall name, keeps R (inodeFetchVolumeHandle name)).

Definition onRest (w w' : world) : Prop := R w.2 w'.2.

#[local] Instance onRest_preorder : PreOrder onRest.
Proof. split; [intros w; unfold onRest; reflexivity|intros a b c; unfold onRest; intros H1 H2; etransitivity; eauto]. Qed.

Lemma modGlobals_rest f : keeps onRest (modGlobals f).
Proof. apply keeps_mod. intros w. unfold onRest. reflexivity. Qed.

Lemma onWorld_rest {A} (m : St W error A) : keeps R m -> keeps onRest (onWorld m).
Proof. intros Hm w w' r. unfold onWorld, onRest. destruct (m w.2) as [s o] eqn:E. intros [= <- _]. by eapply Hm. Qed.

Lemma assign_rest {A} (m : res A) zero (f : A -> world -> world) : (forall a w, (f a w).2 = w.2) -> keeps onRest (assign m zero f).
Proof. intros Hf w w' r. unfold assign, onRest. destruct m; intros [= <- _]; rewrite ?Hf; reflexivity. Qed.

Ltac rest_step := first
  [ apply modGlobals_rest | apply onWorld_rest, Hfetch | apply assign_rest; done
  | apply keeps_bind; [apply _| |intros] | apply keeps_lift; apply _ | apply keeps_get; apply _ | apply keeps_ret; apply _
  | apply keeps_err; apply _ | apply keeps_panic; apply _ | apply keeps_for; [apply _|intros]
  | match goal with |- keeps _ (match ?x with _ => _ end) => destruct x end ].

Lemma fsUp_rest confMap namespaced : keeps onRest (Up inodeFetchVolumeHandle confMap namespaced).
Proof. unfold Up, ifPrimary, startVolume, SetStarvationCallbackFunc. repeat rest_step. Qed.

Lemma fsExpand_rest confMap namespaced : keeps onRest (ExpandAndResume inodeFetchVolumeHandle confMap namespaced).
Proof. unfold ExpandAndResume, checkWhoAmI, ifPrimary, startVolume, SetStarvationCallbackFunc. repeat rest_step. Qed.

Lemma fsPause_rest confMap namespaced : keeps onRest (PauseAndContract waitFlushed confMap namespaced).
Proof. unfold PauseAndContract, checkWhoAmI, removeVolume, untrackVolume, SetStarvationCallbackFunc. repeat rest_step. Qed.

Lemma mount_rest volumeName mountOptions : keeps onRest (mount (W := W) volumeName mountOptions).
Proof. unfold mount. repeat rest_step. Qed.
End Rest.

(** ** More mounts *)

(** At most [n] mounts were added. *)
Definition mountedMore (n : Z) (g g' : fsGlobals) : Prop :=
  mountsOk g -> lastMountID g + n < two64 ->
  mountsOk g' /\ mountMap g ⊆ mountMap g' /\ dom (fs_volumeMap g') = dom (fs_volumeMap g) /\ fg_whoAmI g' = fg_whoAmI g
  /\ lastMountID g <= lastMountID g' <= lastMountID g + n.

Lemma mountedMore_refl n g : 0 <= n -> mountedMore n g g.
Proof. intros Hn Hok _. split; [done|]. split; [done|]. split; [done|]. split; [done|lia]. Qed.

Lemma mountedMore_trans n k g1 g2 g3 : 0 <= k -> mountedMore n g1 g2 -> mountedMore k g2 g3 -> mountedMore (n + k) g1 g3.
Proof.
  intros Hk H1 H2 Hok Hroom. destruct H1 as (Hok2 & Hm2 & Hd2 & Hw2 & Hl2); [done|lia|].
  destruct H2 as (Hok3 & Hm3 & Hd3 & Hw3 & Hl3); [done|lia|]. split; [done|]. split; [by etrans|]. split; [congruence|]. split; [congruence|lia].
Qed.

Lemma mount_more volumeName mountOptions (w w' : world) r : mount volumeName mountOptions w = (w', r) -> mountedMore 1 w.1 w'.1.
Proof.
  intros HR. destruct r as [id|e|].
  - intros Hok Hroom. pose proof HR as (Hid & _ & Hw & v & _ & Hg)%fsMount_ret. eapply fsMount_ok in HR as (Hok' & Hnew & Hmap & Hdom); [|done..].
    split; [done|]. split; [rewrite Hmap; by apply insert_subseteq|]. split; [done|]. split; [done|].
    assert (Hl : lastMountID w'.1 = id) by (by rewrite Hg). destruct Hok as [_ _ Hb]. unfold uadd in Hid. rewrite u64_small in Hid by (unfold is_u64; lia). lia.
  - unfold mount, sbind in HR. cbn in HR. destruct (fs_volumeMap w.1 !! volumeName); [done|]. injection HR as <- _. by apply mountedMore_refl.
  - unfold mount, sbind in HR. cbn in HR. by destruct (fs_volumeMap w.1 !! volumeName).
Qed.
End Facts.
