(* ===== verification/FsFlock.v ===== *)
(** Package [fs]: byte-range locks (the [Flock] part of api_internal.go).

    The list of an inode is a [container/list] whose elements are pointers to
    lock structs: the functions below work on its elements by identity, as
    the loops of the source do while the list changes under them.  Every
    routine runs with the inode's lock held shared and without a mutex on the
    list; the model takes each of them as one step. *)

From S2P Require Import Prelude Blunder FsProgram.
Open Scope list_scope.

Definition F_RDLCK : Z := 0.
Definition F_WRLCK : Z := 1.
Definition F_UNLCK : Z := 2.
Definition F_GETLK : Z := 5.
Definition F_SETLK : Z := 6.
Definition F_SETLKW : Z := 7.

(** [Start + Len] of the source wraps around. *)
Definition fl_End (f : FlockStruct) : Z := fl_Start f +u fl_Len f.

Definition checkConflict (elm flock : FlockStruct) : bool :=
  if fl_Pid flock =? fl_Pid elm then false
  else if (fl_End elm <=? fl_Start flock) || (fl_End flock <=? fl_Start elm) then false
  else (fl_Type flock =? F_WRLCK) || (fl_Type elm =? F_WRLCK).

(** [verifyLock]: the first conflicting lock. *)
Definition verifyLock (l : flockList) (flock : FlockStruct) : option FlockStruct :=
  snd <$> List.find (fun e => checkConflict e.2 flock) l.

(** ** [container/list] *)

Fixpoint InsertBefore (e : Z * FlockStruct) (mark : Z) (l : flockList) : flockList :=
  match l with
  | [] => []
  | x :: l' => if x.1 =? mark then e :: x :: l' else x :: InsertBefore e mark l'
  end.

Fixpoint InsertAfter (e : Z * FlockStruct) (mark : Z) (l : flockList) : flockList :=
  match l with
  | [] => []
  | x :: l' => if x.1 =? mark then x :: e :: l' else x :: InsertAfter e mark l'
  end.

Definition RemoveAll (marks : list Z) (l : flockList) : flockList :=
  filter (fun x => x.1 ∉ marks) l.

(** [e.Value.Len = ...] through the element's pointer. *)
Definition updateValue (mark : Z) (f : FlockStruct -> FlockStruct) (l : flockList) : flockList :=
  map (fun x => if x.1 =? mark then (x.1, f x.2) else x) l.

(** ** [fileLockInsert] *)

Record flockScan := mkScan {
  beforeElm : option (Z * FlockStruct);
  afterElm : option (Z * FlockStruct);
  overlapList : list (Z * FlockStruct)
}.

(** The loop: [inl true] when an element conflicts, [inl false] when the range
    goes right before [afterElm] and the function returns. *)
Fixpoint scanLocks (l : flockList) (inFlock : FlockStruct) (scan : flockScan) : bool * flockScan + flockScan :=
  match l with
  | [] => inr scan
  | e :: l' =>
      let elm := e.2 in
      if fl_End elm <=? fl_Start inFlock then
        scanLocks l' inFlock (mkScan (Some e) (afterElm scan) (overlapList scan))
      else if fl_End inFlock <? fl_Start elm then
        let scan := mkScan (beforeElm scan) (Some e) (overlapList scan) in
        match overlapList scan with
        | [] => inl (false, scan)
        | _ => inr scan
        end
      else if checkConflict elm inFlock then inl (true, scan)
      else if fl_Pid elm =? fl_Pid inFlock then
        scanLocks l' inFlock (mkScan (beforeElm scan) (afterElm scan) (overlapList scan ++ [e]))
      else scanLocks l' inFlock scan
  end.

(** What happens to the list when nothing of the process overlaps. *)
Definition insertAlone (l : flockList) (newElement : Z) (inFlock : FlockStruct) (scan : flockScan) : flockList :=
  match beforeElm scan with
  | Some (mark, elm) =>
      if (fl_Pid elm =? fl_Pid inFlock) && (fl_Type elm =? fl_Type inFlock) && (fl_End elm =? fl_Start inFlock)
      then updateValue mark (fun elm => elm <| fl_Len := (fl_Start inFlock +u fl_Len inFlock) -u fl_Len elm |>) l
      else InsertAfter (newElement, inFlock) mark l
  | None => l ++ [(newElement, inFlock)]
  end.

(** ... and when something does: the overlapping elements are gone from [l]. *)
Definition insertMerged (l : flockList) (newElement : Z) (inFlock : FlockStruct) (scan : flockScan) : flockList :=
  let joins (elm : FlockStruct) (other : FlockStruct) :=
    (fl_Pid elm =? fl_Pid other) && (fl_Type elm =? fl_Type other) in
  match afterElm scan with
  | Some (mark, elm) =>
      if joins elm inFlock && (fl_End inFlock =? fl_Start elm) then
        let elm' := elm <| fl_Len := (fl_Start elm +u fl_Len elm) -u fl_Start inFlock |>
                        <| fl_Start := fl_Start inFlock |> in
        let l := updateValue mark (fun _ => elm') l in
        match beforeElm scan with
        | Some (bmark, belm) =>
            if joins belm elm' && (fl_End belm =? fl_Start elm')
            then RemoveAll [mark]
                   (updateValue bmark (fun b => b <| fl_Len := (fl_Start elm' +u fl_Len elm') -u fl_Start b |>) l)
            else l
        | None => l
        end
      else
        match beforeElm scan with
        | Some (bmark, belm) =>
            let l := if joins belm inFlock && (fl_End belm =? fl_Start inFlock)
                     then updateValue bmark (fun b => b <| fl_Len := (fl_Start inFlock +u fl_Len inFlock) -u fl_Start b |>) l
                     else l in
            InsertAfter (newElement, inFlock) bmark l
        | None => InsertBefore (newElement, inFlock) mark l
        end
  | None =>
      match beforeElm scan with
      | Some (bmark, belm) =>
          let l := if joins belm inFlock && (fl_End belm =? fl_Start inFlock)
                   then updateValue bmark (fun b => b <| fl_Len := (fl_Start inFlock +u fl_Len inFlock) -u fl_Start b |>) l
                   else l in
          InsertAfter (newElement, inFlock) bmark l
      | None => l ++ [(newElement, inFlock)]
      end
  end.

(** The list after the call and the struct of the caller, which the call may
    lengthen; or the error. *)
Definition fileLockInsert (l : flockList) (newElement : Z) (inFlock : FlockStruct) : error + flockList * FlockStruct :=
  match scanLocks l inFlock (mkScan None None []) with
  | inl (true, _) => inl (AddError None TryAgainError)
  | inl (false, scan) =>
      match afterElm scan with
      | Some (mark, _) => inr (InsertBefore (newElement, inFlock) mark l, inFlock)
      | None => inr (l, inFlock)
      end
  | inr scan =>
      match last (overlapList scan) with
      | None => inr (insertAlone l newElement inFlock scan, inFlock)
      | Some (_, elm) =>
          let inFlock := if fl_End inFlock <? fl_End elm
                         then inFlock <| fl_Len := fl_End elm -u fl_Start inFlock |> else inFlock in
          inr (insertMerged (RemoveAll (overlapList scan).*1 l) newElement inFlock scan, inFlock)
      end
  end.

(** ** [fileUnlock]

    The loop: what becomes of the elements, the tail record (if one is
    needed) and the elements to remove. *)
Fixpoint unlockLoop (l : flockList) (newElement : Z) (inFlock : FlockStruct) : flockList * list Z :=
  match l with
  | [] => ([], [])
  | (id, elm) :: l' =>
      let continue (x : Z * FlockStruct) := let '(r, rm) := unlockLoop l' newElement inFlock in (x :: r, rm) in
      let start := fl_Start inFlock in
      let stop := fl_End inFlock in
      if negb (fl_Pid elm =? fl_Pid inFlock) then continue (id, elm)
      else if fl_End elm <? start then continue (id, elm)
      else if stop <=? fl_Start elm then (l, [])
      else if (start <=? fl_Start elm) && (fl_End elm <=? stop) then
        let '(r, rm) := unlockLoop l' newElement inFlock in ((id, elm) :: r, id :: rm)
      else
        let elmLen := fl_End elm in
        let elm := if fl_Start elm <? start then elm <| fl_Len := start -u fl_Start elm |> else elm in
        if stop <? elmLen then
          if start <? fl_Start elm then
            ((id, elm <| fl_Start := stop |> <| fl_Len := elmLen -u stop |>) :: l', [])
          else
            ((id, elm) :: (newElement, mkFlock (fl_Type elm) (fl_Whence elm) stop (elmLen -u fl_Start elm) (fl_Pid elm)) :: l', [])
        else continue (id, elm)
  end.

Definition fileUnlock (l : flockList) (newElement : Z) (inFlock : FlockStruct) : flockList :=
  let '(l, removeList) := unlockLoop l newElement inFlock in RemoveAll removeList l.

(** ** The lists of a volume *)

Definition getFileLockList (v : fsVolumeStruct) (inodeNumber : Z) : flockList :=
  default [] (FLockMap v !! inodeNumber).

Definition putFileLockList (inodeNumber : Z) (l : flockList) (v : fsVolumeStruct) : fsVolumeStruct :=
  v <| FLockMap := <[inodeNumber := l]> (FLockMap v) |> <| nextElement := nextElement v + 1 |>.

(** The [switch] of [Flock] on the variables of the volume; a length of zero
    stands for the whole file.  The struct is returned with an error too. *)
Definition flockCommand (lockCmd inodeNumber : Z) (inFlock : FlockStruct) (v : fsVolumeStruct)
    : fsVolumeStruct * (FlockStruct * option error) :=
  let inFlock := if fl_Len inFlock =? 0 then inFlock <| fl_Len := two64 - 1 |> else inFlock in
  let l := getFileLockList v inodeNumber in
  if lockCmd =? F_GETLK then
    (putFileLockList inodeNumber l v,
     match verifyLock l inFlock with
     | Some conflictLock => (conflictLock, Some (AddError None TryAgainError))
     | None => (inFlock <| fl_Type := F_UNLCK |>, None)
     end)
  else if lockCmd =? F_SETLK then
    if fl_Type inFlock =? F_UNLCK then
      (putFileLockList inodeNumber (fileUnlock l (nextElement v) inFlock) v, (inFlock, None))
    else if (fl_Type inFlock =? F_WRLCK) || (fl_Type inFlock =? F_RDLCK) then
      match fileLockInsert l (nextElement v) inFlock with
      | inr (l', inFlock) => (putFileLockList inodeNumber l' v, (inFlock, None))
      | inl e => (putFileLockList inodeNumber l v, (inFlock, Some e))
      end
    else (v, (inFlock, Some (NewError InvalidArgError)))
  else (v, (inFlock, Some (NewError InvalidArgError))).

From Stdlib Require Import Sorted.

(** Byte-range locks: what [Flock] decides, on the ranges as sets of
    positions. *)

(** ** Ranges *)

Definition covers (f : FlockStruct) (pos : Z) : Prop := fl_Start f <= pos < fl_Start f + fl_Len f.

(** A range that is not empty and ends below 2^64. *)
Definition rangeOk (f : FlockStruct) : Prop := 0 <= fl_Start f /\ 0 < fl_Len f /\ fl_Start f + fl_Len f < two64.

(** Two processes, a common position and at least one write lock. *)
Definition conflicting (a b : FlockStruct) : Prop :=
  fl_Pid a <> fl_Pid b /\ (exists pos, covers a pos /\ covers b pos) /\ (fl_Type a = F_WRLCK \/ fl_Type b = F_WRLCK).

Lemma fl_End_ok f : rangeOk f -> fl_End f = fl_Start f + fl_Len f.
Proof. intros (H1 & H2 & H3). unfold fl_End. apply uadd_small. lia. Qed.

Lemma checkConflict_exact elm flock :
  rangeOk elm -> rangeOk flock -> checkConflict elm flock = true <-> conflicting elm flock.
Proof.
  intros He Hf. unfold checkConflict, conflicting, covers. rewrite !fl_End_ok by done. destruct He as (He1 & He2 & He3), Hf as (Hf1 & Hf2 & Hf3).
  destruct (Z.eqb_spec (fl_Pid flock) (fl_Pid elm)) as [Hp|Hp].
  { split; [done|]. intros [Hn _]. by rewrite Hp in Hn. }
  destruct (Z.leb_spec (fl_Start elm + fl_Len elm) (fl_Start flock)); simpl.
  { split; [done|]. intros (_ & (pos & ? & ?) & _). lia. }
  destruct (Z.leb_spec (fl_Start flock + fl_Len flock) (fl_Start elm)); simpl.
  { split; [done|]. intros (_ & (pos & ? & ?) & _). lia. }
  rewrite orb_true_iff, !Z.eqb_eq. split.
  - intros Ht. split_and!; [lia| |tauto]. exists (Z.max (fl_Start elm) (fl_Start flock)). lia.
  - intros (_ & _ & Ht). tauto.
Qed.

Lemma checkConflict_false elm flock : rangeOk elm -> rangeOk flock -> checkConflict elm flock = false -> ~ conflicting elm flock.
Proof. intros He Hf Hc Hx. apply checkConflict_exact in Hx; [|done|done]. by rewrite Hc in Hx. Qed.

(** ** Granting a lock *)

Abbreviation sortedByStart l := (StronglySorted (fun a b : Z * FlockStruct => fl_Start a.2 <= fl_Start b.2) l).

Lemma scanLocks_exact inFlock l : forall scan,
  rangeOk inFlock -> Forall (fun x => rangeOk x.2) l -> sortedByStart l ->
  match scanLocks l inFlock scan with
  | inl (true, _) => Exists (fun x => conflicting x.2 inFlock) l
  | inl (false, _) | inr _ => Forall (fun x => ~ conflicting x.2 inFlock) l
  end.
Proof.
  induction l as [|e l IH]; intros scan Hi Hr Hs; simpl; [done|].
  apply Forall_cons in Hr as [He Hr]. apply StronglySorted_inv in Hs as [Hs Hle].
  rewrite (fl_End_ok _ He), (fl_End_ok _ Hi).
  assert (Hskip : forall scan', ~ conflicting e.2 inFlock ->
    match scanLocks l inFlock scan' with
    | inl (true, _) => Exists (fun x => conflicting x.2 inFlock) (e :: l)
    | inl (false, _) | inr _ => Forall (fun x => ~ conflicting x.2 inFlock) (e :: l)
    end).
  { intros scan' Hn. specialize (IH scan' Hi Hr Hs). destruct (scanLocks l inFlock scan') as [[[] ?]|?].
    - by apply Exists_cons_tl.
    - by constructor.
    - by constructor. }
  destruct (Z.leb_spec (fl_Start e.2 + fl_Len e.2) (fl_Start inFlock)) as [H1|H1].
  { apply Hskip. intros (_ & (pos & Hp1 & Hp2) & _). unfold covers in *. lia. }
  destruct (Z.ltb_spec (fl_Start inFlock + fl_Len inFlock) (fl_Start e.2)) as [H2|H2].
  { assert (Hall : Forall (fun x => ~ conflicting x.2 inFlock) (e :: l)).
    { constructor; [intros (_ & (pos & Hp1 & Hp2) & _); unfold covers in *; lia|].
      eapply Forall_impl; [exact Hle|]. intros x Hx (_ & (pos & Hp1 & Hp2) & _). unfold covers in *. simpl in Hx. lia. }
    by destruct (overlapList scan). }
  destruct (checkConflict e.2 inFlock) eqn:Hc; [by apply Exists_cons_hd, checkConflict_exact|].
  apply checkConflict_false in Hc; [|done|done]. destruct (fl_Pid e.2 =? fl_Pid inFlock); by apply Hskip.
Qed.

(** C31. [fileLockInsert] decides exactly: on a list sorted by start, as its
    comment says it is, a lock is refused with [TryAgainError] when a lock of
    another process shares a position with it and one of the two is a write
    lock, and granted when there is no such lock. *)
Theorem fileLockInsert_decides l newElement inFlock :
  rangeOk inFlock -> Forall (fun x => rangeOk x.2) l -> sortedByStart l ->
  match fileLockInsert l newElement inFlock with
  | inl e => e = AddError None TryAgainError /\ Exists (fun x => conflicting x.2 inFlock) l
  | inr _ => Forall (fun x => ~ conflicting x.2 inFlock) l
  end.
Proof.
  intros Hi Hr Hs. pose proof (scanLocks_exact inFlock l (mkScan None None []) Hi Hr Hs) as H. unfold fileLockInsert.
  destruct (scanLocks l inFlock (mkScan None None [])) as [[[] sc]|sc]; [done| |].
  - by destruct (afterElm sc) as [[mark ?]|].
  - by destruct (last (overlapList sc)) as [[? elm]|].
Qed.

Lemma fileLockInsert_decides_witness :
  match fileLockInsert [(0, mkFlock F_RDLCK 0 0 10 1); (1, mkFlock F_WRLCK 0 20 5 2)] 2 (mkFlock F_RDLCK 0 22 9 3) with
  | inl e => e = AddError None TryAgainError
             /\ Exists (fun x => conflicting x.2 (mkFlock F_RDLCK 0 22 9 3)) [(0, mkFlock F_RDLCK 0 0 10 1); (1, mkFlock F_WRLCK 0 20 5 2)]
  | inr _ => Forall (fun x => ~ conflicting x.2 (mkFlock F_RDLCK 0 22 9 3)) [(0, mkFlock F_RDLCK 0 0 10 1); (1, mkFlock F_WRLCK 0 20 5 2)]
  end.
Proof.
  apply fileLockInsert_decides; [unfold rangeOk, two64; simpl; lia| |].
  - repeat constructor; unfold rangeOk, two64; simpl; lia.
  - repeat constructor; simpl; lia.
Defined.

(** ** Histories that go wrong *)

(** [F_SETLK] of a range. *)
Definition setLock (type start len pid : Z) (v : fsVolumeStruct) : fsVolumeStruct * (FlockStruct * option error) :=
  flockCommand F_SETLK 7 (mkFlock type 0 start len pid) v.

(** The list does not stay sorted, and then conflicting locks are granted:
    a range that starts before every other and overlaps one of them is put at the
    back of the list.  Three processes can ask for a read lock, a read lock and a
    write lock in turn and be granted all three although the write lock shares
    positions with the second read lock. *)
Theorem Flock_grants_conflicting_locks :
  let '(v1, (_, err1)) := setLock F_RDLCK 10 10 1 newFsVolume in
  let '(v2, (f2, err2)) := setLock F_RDLCK 5 10 2 v1 in
  let '(v3, (f3, err3)) := setLock F_WRLCK 5 3 3 v2 in
  err1 = None /\ err2 = None /\ err3 = None
  /\ (exists i j, (i, f2) ∈ getFileLockList v3 7 /\ (j, f3) ∈ getFileLockList v3 7) /\ conflicting f2 f3.
Proof.
  destruct (setLock F_RDLCK 10 10 1 newFsVolume) as [v1 [f1 err1]] eqn:E1. vm_compute in E1. injection E1 as <- <- <-.
  match goal with |- let '(_, _) := ?t in _ => destruct t as [v2 [f2 err2]] eqn:E2 end.
  vm_compute in E2. injection E2 as <- <- <-.
  match goal with |- let '(_, _) := ?t in _ => destruct t as [v3 [f3 err3]] eqn:E3 end.
  vm_compute in E3. injection E3 as <- <- <-. split_and!; [done..| |].
  - exists 1, 2. unfold getFileLockList. simpl. rewrite !elem_of_cons. naive_solver.
  - split_and!; [done| |by right]. exists 6. unfold covers. simpl. lia.
Qed.

(** Unlocking the first part of a lock releases nothing: the lock keeps all
    of its positions, and the record added for its tail is as long as the whole
    lock, so it reaches past the lock's end. *)
Theorem fileUnlock_prefix_releases_nothing id newElement elm f :
  rangeOk elm -> rangeOk f -> fl_Pid f = fl_Pid elm -> fl_Start f = fl_Start elm -> fl_Len f < fl_Len elm ->
  exists tail, fileUnlock [(id, elm)] newElement f = [(id, elm); (newElement, tail)]
    /\ fl_Start tail = fl_Start elm + fl_Len f /\ fl_Len tail = fl_Len elm
    /\ forall pos, covers f pos -> covers elm pos.
Proof.
  intros He Hf Hp Hs Hl. pose proof He as (He1 & He2 & He3). pose proof Hf as (Hf1 & Hf2 & Hf3).
  unfold fileUnlock, unlockLoop. rewrite (fl_End_ok _ He), (fl_End_ok _ Hf), Hp, Hs, Z.eqb_refl. simpl.
  rewrite (proj2 (Z.ltb_ge (fl_Start elm + fl_Len elm) (fl_Start elm))) by lia.
  rewrite (proj2 (Z.leb_gt (fl_Start elm + fl_Len f) (fl_Start elm))) by lia.
  rewrite (proj2 (Z.leb_gt (fl_Start elm + fl_Len elm) (fl_Start elm + fl_Len f))) by lia.
  rewrite andb_false_r, Z.ltb_irrefl, (proj2 (Z.ltb_lt (fl_Start elm + fl_Len f) (fl_Start elm + fl_Len elm))) by lia.
  rewrite Z.ltb_irrefl. eexists. split; [reflexivity|]. simpl. split_and!; [done| |].
  - rewrite usub_small by lia. lia.
  - intros pos. unfold covers. lia.
Qed.

Lemma fileUnlock_prefix_releases_nothing_witness :
  exists tail, fileUnlock [(0, mkFlock F_WRLCK 0 100 50 1)] 1 (mkFlock F_UNLCK 0 100 20 1)
      = [(0, mkFlock F_WRLCK 0 100 50 1); (1, tail)]
    /\ fl_Start tail = 120 /\ fl_Len tail = 50
    /\ forall pos, covers (mkFlock F_UNLCK 0 100 20 1) pos -> covers (mkFlock F_WRLCK 0 100 50 1) pos.
Proof.
  apply (fileUnlock_prefix_releases_nothing 0 1 (mkFlock F_WRLCK 0 100 50 1) (mkFlock F_UNLCK 0 100 20 1));
    unfold rangeOk, two64; simpl; lia.
Defined.
