(* ===== verification/FsPath.v ===== *)
(** Package [fs]: paths, the operations of the Go library on them, and the
    resolution of paths in a volume.

    [path.Clean], [filepath.Split], [strings.TrimPrefix] and
    [strings.HasPrefix] are Go's; [revSplitPath] and the two validations are
    helpers of api_internal.go. *)

From S2P Require Import Prelude Blunder Utils FsProgram FsLocks.
Open Scope list_scope.
Open Scope string_scope.
Open Scope Z_scope.
Open Scope go_scope.

Definition TrimPrefixSlash (s : string) : string :=
  match s with String c s' => if Ascii.eqb c slash then s' else s | EmptyString => s end.

Definition HasPrefix (s prefix : string) : bool := String.prefix prefix s.

Definition rootedPath (path : string) : bool := HasPrefix path "/".

(** One component of [path.Clean]; [out] is the output so far, last component
    first. *)
Definition cleanStep (rooted : bool) (out : list string) (component : string) : list string :=
  if String.eqb component "" || String.eqb component "." then out
  else if String.eqb component ".." then
    match out with
    | x :: out' => if String.eqb x ".." then component :: out else out'
    | [] => if rooted then [] else [component]
    end
  else component :: out.

Definition cleanComponents (path : string) : list string :=
  rev (foldl (cleanStep (rootedPath path)) [] (Split slash path)).

Definition Clean (path : string) : string :=
  match rootedPath path, cleanComponents path with
  | true, out => "/" +:+ String.concat "/" out
  | false, [] => "."
  | false, out => String.concat "/" out
  end.

(** The part up to and including the last slash, and the rest. *)
Definition SplitFile (path : string) : string * string :=
  match rev (Split slash path) with
  | [] => ("", "")
  | file :: dirs => (String.concat "" (map (fun d => d +:+ "/") (rev dirs)), file)
  end.

(** [dirName[0 : len(dirName)-1]] of a name that ends in a slash. *)
Definition chop (dirName : string) : string := String.substring 0 (String.length dirName - 1) dirName.

Definition revSplitPath (fullpath : string) : list string :=
  let trimmed := TrimPrefixSlash fullpath in
  if String.eqb trimmed "" then [] else rev (Split slash (Clean trimmed)).

Definition validateBaseName {I} (baseName : string) : FS I unit :=
  if FileNameMax <? Z.of_nat (String.length baseName) then ferr (AddError (Some plain) NameTooLongError) else fret tt.

Definition validateFullPath {I} (fullPath : string) : FS I unit :=
  if FilePathMax <? Z.of_nat (String.length fullPath) then ferr (AddError (Some plain) NameTooLongError) else fret tt.

Example clean_examples :
  map Clean ["a/b"; "a//b/./c/"; "../a"; "a/../../b"; "/../a"; "/"; ""; "a/.."]
  = ["a/b"; "a/b/c"; "../a"; "../b"; "/a"; "/"; "."; "."].
Proof. reflexivity. Qed.

Example revSplitPath_examples :
  map revSplitPath ["/etc/thing/default.conf"; "/"; ""; "//a"] = [["default.conf"; "thing"; "etc"]; []; []; ["a"; ""]].
Proof. reflexivity. Qed.

Example SplitFile_examples :
  map SplitFile ["c/d/file"; "file"; "c/"] = [("c/d/", "file"); ("", "file"); ("c/", "")].
Proof. reflexivity. Qed.

From S2P Require Import Dlm InodeTypes InodeVolume InodeDir.

(** Package [fs]: path resolution (the end of api_internal.go).

    [resolvePath] walks a path from a starting directory, holding the lock of
    the current directory while it locks the next inode, and follows at most
    [MaxSymlinks] symbolic links.  The slice of path segments, which the
    source keeps back to front, is the list of the segments in order. *)

Section Resolve.
Context {I : Type} `{!InodeHandle I} (volumeName : string).

Abbreviation P A := (fsProg I A).
Abbreviation F A := (FS I A).

Section Walk.
Context (getLock : Z -> option Z -> P (option RWLockStruct)) (callerID : option Z).

(** The deferred cleanup: the lock of the cursor, then that of the
    directory. *)
Definition failWith {A} (cursorInodeLock dirInodeLock : option RWLockStruct) (e : error) : F A :=
  unlockIf cursorInodeLock ;;+ unlockIf dirInodeLock ;;+ ferr e.

Fixpoint resolveLoop (followsRemaining : nat) : list string -> Z -> option RWLockStruct -> F (Z * Z * option RWLockStruct) :=
  fix walk (pathSegments : list string) (dirInodeNumber : Z) (dirInodeLock : option RWLockStruct) :=
  match pathSegments with
  | [] => fret (dirInodeNumber, DirType, dirInodeLock)
  | segment :: pathSegments =>
      if String.eqb segment "." then walk pathSegments dirInodeNumber dirInodeLock
      else
        r <+ vol (hLookup dirInodeNumber segment) ;;
        match r with
        | inl e => failWith None dirInodeLock e
        | inr cursorInodeNumber =>
            cursorInodeLock <+ getLock cursorInodeNumber callerID ;;
            r <+ vol (hGetType cursorInodeNumber) ;;
            match r with
            | inl e => failWith cursorInodeLock dirInodeLock e
            | inr cursorInodeType =>
                if cursorInodeType =? SymlinkType then
                  match followsRemaining with
                  | O => failWith cursorInodeLock dirInodeLock (NewError TooManySymlinksError)
                  | S followsRemaining =>
                      r <+ vol (hGetSymlink cursorInodeNumber) ;;
                      unlockIf cursorInodeLock ;;+
                      match r with
                      | inl e => failWith None dirInodeLock e
                      | inr target =>
                          let pathSegments := rev (revSplitPath target) ++ pathSegments in
                          if HasPrefix target "/" then
                            unlockIf dirInodeLock ;;+
                            dirInodeLock <+ getLock RootDirInodeNumber callerID ;;
                            resolveLoop followsRemaining pathSegments RootDirInodeNumber dirInodeLock
                          else resolveLoop followsRemaining pathSegments dirInodeNumber dirInodeLock
                      end
                  end
                else
                  match pathSegments with
                  | [] => unlockIf dirInodeLock ;;+ fret (cursorInodeNumber, cursorInodeType, cursorInodeLock)
                  | _ =>
                      if cursorInodeType =? FileType then failWith cursorInodeLock dirInodeLock (NewError NotDirError)
                      else unlockIf dirInodeLock ;;+ walk pathSegments cursorInodeNumber cursorInodeLock
                  end
            end
        end
  end.

Definition resolvePath (fullpath : string) (startingInode : Z) : F (Z * Z * option RWLockStruct) :=
  dirInodeLock <+ getLock startingInode callerID ;;
  resolveLoop MaxSymlinks (rev (revSplitPath fullpath)) startingInode dirInodeLock.
End Walk.

Definition resolvePathForRead (fullpath : string) (callerID : option Z) : F (Z * Z * option RWLockStruct) :=
  resolvePath (ensureReadLock volumeName) callerID fullpath RootDirInodeNumber.

Definition resolvePathForWrite (fullpath : string) (callerID : option Z) : F (Z * Z * option RWLockStruct) :=
  resolvePath (ensureWriteLock volumeName) callerID fullpath RootDirInodeNumber.
End Resolve.
