(* ===== verification/Fs.v ===== *)
(** Package [fs]: the operations of a mount that a POSIX client uses
    (api_internal.go).

    Every operation locks the inodes it works on, checks the caller's
    permissions, calls the inode volume and releases its locks; the values a
    Go function returns next to an error are dropped unless a caller reads
    them.  The receiver's volume is [volumeName]. *)

From stdpp Require Import pretty.
From S2P Require Import Prelude Blunder Utils Dlm InodeTypes InodeVolume InodeDir InodeFile FsProgram FsLocks FsFlock FsPath.
Open Scope list_scope.
Open Scope Z_scope.
Open Scope go_scope.

Section Fs.
Context {I : Type} `{!InodeHandle I} (volumeName : string).

Abbreviation P A := (fsProg I A).
Abbreviation F A := (FS I A).

(** [if !Access(...) { return blunder.NewError(errValue, ...) }] *)
Definition demand (inodeNumber userID groupID : Z) (otherGroupIDs : list Z) (accessMode errValue : Z) : F unit :=
  ok <! access inodeNumber userID groupID otherGroupIDs accessMode ;;
  if ok : bool then fret tt else ferr (NewError errValue).

Definition checkAccess (inodeNumber userID groupID : Z) (otherGroupIDs : list Z) (accessMode : Z) : F unit :=
  demand inodeNumber userID groupID otherGroupIDs F_OK NotFoundError ;;!
  demand inodeNumber userID groupID otherGroupIDs accessMode PermDeniedError.

Definition WX_OK : Z := Z.lor W_OK X_OK.

(** [Destroy] of an inode that could not be used; its error is only logged. *)
Definition discardInode (inodeNumber : Z) (e : error) {A} : F A :=
  vol (hDestroy inodeNumber) ;;+ ferr e.

Definition linkOrDestroy (dirInodeNumber : Z) (basename : string) (inodeNumber : Z) : F Z :=
  r <+ vol (hLink dirInodeNumber basename inodeNumber) ;;
  match r with
  | inl e => discardInode inodeNumber e
  | inr _ => fret inodeNumber
  end.

(** [uint64(t.UnixNano())] and [time.Unix(0, int64(n))]. *)
Definition toInt64 (n : Z) : Z := if n <? 2 ^ 63 then n else n - two64.

Section Caller.
Context (userID groupID : Z) (otherGroupIDs : list Z).

Definition Access (inodeNumber accessMode : Z) : F bool := access inodeNumber userID groupID otherGroupIDs accessMode.

Definition CallInodeToProvisionObject : F string := vol hProvisionObject.

Definition Create (dirInodeNumber : Z) (basename : string) (filePerm : Z) : F Z :=
  validateBaseName basename ;;!
  withWriteLock volumeName dirInodeNumber (fun _ =>
    checkAccess dirInodeNumber userID groupID otherGroupIDs WX_OK ;;!
    fileInodeNumber <! vol (hCreateFile filePerm userID groupID) ;;
    linkOrDestroy dirInodeNumber basename fileInodeNumber).

Definition Flush (inodeNumber : Z) : F unit :=
  withWriteLock volumeName inodeNumber (fun _ =>
    checkAccess inodeNumber userID groupID otherGroupIDs W_OK ;;!
    r <+ vol (hFlush inodeNumber false) ;;
    untrackInFlightFileInodeData inodeNumber false ;;+
    PRet r).

(** [Flock] returns the struct with its error. *)
Definition Flock (inodeNumber lockCmd : Z) (inFlock : FlockStruct) : P (FlockStruct * option error) :=
  if lockCmd =? F_SETLKW then PRet (inFlock, Some (AddError None NotSupportedError))
  else
    withReadLock volumeName inodeNumber (fun _ =>
      r <+ checkAccess inodeNumber userID groupID otherGroupIDs R_OK ;;
      match r with
      | inl e => PRet (inFlock, Some e)
      | inr _ => vars (flockCommand lockCmd inodeNumber inFlock)
      end).

Definition statOf (inodeNumber : Z) (metadata : MetadataStruct) : Stat :=
  list_to_map
    [(StatCRTime, u64 (md_CreationTime metadata)); (StatMTime, u64 (md_ModificationTime metadata));
     (StatCTime, u64 (md_AttrChangeTime metadata)); (StatATime, u64 (md_AccessTime metadata));
     (StatSize, md_Size metadata); (StatNLink, md_LinkCount metadata); (StatFType, md_InodeType metadata);
     (StatINum, inodeNumber); (StatMode, md_Mode metadata); (StatUserID, md_UserID metadata);
     (StatGroupID, md_GroupID metadata); (StatNumWrites, md_NumWrites metadata)].

(** The helpers refuse to work for a caller that does not hold the lock. *)
Definition demandLock (inodeNumber callerID : Z) : F unit :=
  held <+ fheld (makeLockID volumeName inodeNumber) callerID ANYLOCK ;;
  if held : bool then fret tt else ferr (AddError (Some plain) NotFoundError).

Definition getstatHelper (inodeNumber callerID : Z) : F Stat :=
  demandLock inodeNumber callerID ;;!
  metadata <! vol (hGetMetadata inodeNumber) ;;
  fret (statOf inodeNumber metadata).

Definition Getstat (inodeNumber : Z) : F Stat :=
  withReadLock volumeName inodeNumber (fun lock => getstatHelper inodeNumber (lk_CallerID lock)).

Definition getTypeHelper (inodeNumber callerID : Z) : F Z :=
  demandLock inodeNumber callerID ;;!
  vol (hGetType inodeNumber).

Definition GetType (inodeNumber : Z) : F Z :=
  withReadLock volumeName inodeNumber (fun lock => getTypeHelper inodeNumber (lk_CallerID lock)).

Definition GetXAttr (inodeNumber : Z) (streamName : string) : F bytes :=
  withReadLock volumeName inodeNumber (fun _ =>
    checkAccess inodeNumber userID groupID otherGroupIDs R_OK ;;!
    vol (hGetStream inodeNumber streamName)).

Definition IsDir (inodeNumber : Z) : F bool :=
  withReadLock volumeName inodeNumber (fun lock =>
    demandLock inodeNumber (lk_CallerID lock) ;;!
    inodeType <! vol (hGetType inodeNumber) ;;
    fret (inodeType =? DirType)).

Definition IsFile (inodeNumber : Z) : F bool :=
  withReadLock volumeName inodeNumber (fun _ =>
    inodeType <! vol (hGetType inodeNumber) ;; fret (inodeType =? FileType)).

Definition IsSymlink (inodeNumber : Z) : F bool :=
  withReadLock volumeName inodeNumber (fun _ =>
    inodeType <! vol (hGetType inodeNumber) ;; fret (inodeType =? SymlinkType)).

(** The target is locked to check its type, released, and locked again after
    the directory. *)
Definition Link (dirInodeNumber : Z) (basename : string) (targetInodeNumber : Z) : F unit :=
  validateBaseName basename ;;!
  callerID <+ fcaller ;;
  dirInodeLock <+ initInodeLock volumeName dirInodeNumber (Some callerID) ;;
  targetInodeLock <+ initInodeLock volumeName targetInodeNumber (Some callerID) ;;
  lockWrite targetInodeLock ;;+
  inodeType <!
    releasing targetInodeLock
      (inodeType <! vol (hGetType targetInodeNumber) ;;
       if inodeType =? DirType then ferr (AddError (Some plain) LinkDirError) else fret inodeType) ;;
  lockWrite dirInodeLock ;;+
  releasing dirInodeLock
    (lockWrite targetInodeLock ;;+
     releasing targetInodeLock
       (demand dirInodeNumber userID groupID otherGroupIDs F_OK NotFoundError ;;!
        demand targetInodeNumber userID groupID otherGroupIDs F_OK NotFoundError ;;!
        demand dirInodeNumber userID groupID otherGroupIDs WX_OK PermDeniedError ;;!
        vol (hLink dirInodeNumber basename targetInodeNumber) ;;!
        (if inodeType =? FileType then untrackInFlightFileInodeData targetInodeNumber false else PRet tt) ;;+
        fret tt)).

Definition ListXAttr (inodeNumber : Z) : F (list string) :=
  withReadLock volumeName inodeNumber (fun _ =>
    checkAccess inodeNumber userID groupID otherGroupIDs R_OK ;;!
    metadata <! vol (hGetMetadata inodeNumber) ;;
    fret (md_InodeStreamNameSlice metadata)).

Definition Lookup (dirInodeNumber : Z) (basename : string) : F Z :=
  withReadLock volumeName dirInodeNumber (fun _ =>
    checkAccess dirInodeNumber userID groupID otherGroupIDs X_OK ;;!
    vol (hLookup dirInodeNumber basename)).

Fixpoint lookupSegments (cursorInodeNumber : Z) (pathSegments : list string) : F Z :=
  match pathSegments with
  | [] => fret cursorInodeNumber
  | segment :: rest =>
      cursorInodeNumber <!
        withReadLock volumeName cursorInodeNumber (fun _ =>
          demand cursorInodeNumber userID groupID otherGroupIDs X_OK PermDeniedError ;;!
          vol (hLookup cursorInodeNumber segment)) ;;
      lookupSegments cursorInodeNumber rest
  end.

Definition LookupPath (fullpath : string) : F Z :=
  lookupSegments RootDirInodeNumber (Split slash (Clean (TrimPrefixSlash fullpath))).

Definition Mkdir (inodeNumber : Z) (basename : string) (filePerm : Z) : F Z :=
  validateBaseName basename ;;!
  newDirInodeNumber <! vol (hCreateDir filePerm userID groupID) ;;
  withWriteLock volumeName inodeNumber (fun _ =>
    r <+ checkAccess inodeNumber userID groupID otherGroupIDs WX_OK ;;
    match r with
    | inl e => discardInode newDirInodeNumber e
    | inr _ => linkOrDestroy inodeNumber basename newDirInodeNumber
    end).

Definition RemoveXAttr (inodeNumber : Z) (streamName : string) : F unit :=
  withWriteLock volumeName inodeNumber (fun _ =>
    checkAccess inodeNumber userID groupID otherGroupIDs W_OK ;;!
    r <+ vol (hDeleteStream inodeNumber streamName) ;;
    untrackInFlightFileInodeData inodeNumber false ;;+
    PRet r).

(** [retryLock:] the locks are tried until both are granted; [fuel] bounds
    the number of tries. *)
Fixpoint renameRetry (fuel : nat) (srcDirLock dstDirLock : RWLockStruct) (srcDirInodeNumber : Z) (srcBasename : string)
    (dstDirInodeNumber : Z) (dstBasename : string) : F unit :=
  match fuel with
  | O => PLoop
  | S fuel' =>
      let move := vol (hMove srcDirInodeNumber srcBasename dstDirInodeNumber dstBasename) in
      lockWrite srcDirLock ;;+
      r <+ checkAccess srcDirInodeNumber userID groupID otherGroupIDs WX_OK ;;
      match r with
      | inl e => lockUnlock srcDirLock ;;+ ferr e
      | inr _ =>
          if srcDirInodeNumber =? dstDirInodeNumber then
            r <+ move ;; lockUnlock srcDirLock ;;+ PRet r
          else
            err <+ lockTryWrite dstDirLock ;;
            if Is err TryAgainError then
              lockUnlock srcDirLock ;;+
              renameRetry fuel' srcDirLock dstDirLock srcDirInodeNumber srcBasename dstDirInodeNumber dstBasename
            else if IsNotSuccess err then
              lockUnlock srcDirLock ;;+ match err with Some e => ferr e | None => fret tt end
            else
              r <+ checkAccess dstDirInodeNumber userID groupID otherGroupIDs WX_OK ;;
              match r with
              | inl e => lockUnlock srcDirLock ;;+ lockUnlock dstDirLock ;;+ ferr e
              | inr _ => r <+ move ;; lockUnlock dstDirLock ;;+ lockUnlock srcDirLock ;;+ PRet r
              end
      end
  end.

Definition Rename (fuel : nat) (srcDirInodeNumber : Z) (srcBasename : string) (dstDirInodeNumber : Z) (dstBasename : string) : F unit :=
  validateBaseName srcBasename ;;!
  validateBaseName dstBasename ;;!
  callerID <+ fcaller ;;
  srcDirLock <+ initInodeLock volumeName srcDirInodeNumber (Some callerID) ;;
  dstDirLock <+ initInodeLock volumeName dstDirInodeNumber (Some callerID) ;;
  renameRetry fuel srcDirLock dstDirLock srcDirInodeNumber srcBasename dstDirInodeNumber dstBasename.

Definition Read (inodeNumber offset length_ : Z) : F bytes :=
  withReadLock volumeName inodeNumber (fun _ =>
    checkAccess inodeNumber userID groupID otherGroupIDs R_OK ;;!
    inodeType <! vol (hGetType inodeNumber) ;;
    if negb (inodeType =? FileType) then ferr (AddError (Some plain) NotFileError)
    else
      buf <! vol (hRead inodeNumber offset length_) ;;
      if length_ <? zlen buf then ferr (AddError (Some plain) IOError) else fret buf).

(** The type of an entry, 0 when it cannot be had. *)
Definition entryType (inodeNumber entryInodeNumber callerID : Z) : P Z :=
  r <+ (if inodeNumber =? entryInodeNumber then getTypeHelper entryInodeNumber callerID
        else
          entryInodeLock <+ getReadLock volumeName entryInodeNumber (Some callerID) ;;
          releasing entryInodeLock (getTypeHelper entryInodeNumber callerID)) ;;
  PRet (match r with inl _ => 0 | inr t => t end).

Fixpoint fillTypes (inodeNumber callerID : Z) (entries : list DirEntry) : P (list DirEntry) :=
  match entries with
  | [] => PRet []
  | e :: rest =>
      t <+ entryType inodeNumber (de_InodeNumber e) callerID ;;
      rest <+ fillTypes inodeNumber callerID rest ;;
      PRet (mkDirEntry (de_InodeNumber e) (de_Basename e) t (de_NextDirLocation e) :: rest)
  end.

Definition readdirHelper (inodeNumber : Z) (prevBasenameReturned : string) (maxEntries maxBufSize callerID : Z)
    : F (list DirEntry * Z * bool) :=
  demandLock inodeNumber callerID ;;!
  '(entries, areMoreEntries) <! vol (hReadDir inodeNumber maxEntries maxBufSize (AfterName prevBasenameReturned)) ;;
  entries <+ fillTypes inodeNumber callerID entries ;;
  fret (entries, zlen entries, areMoreEntries).

Definition readdirOneHelper (inodeNumber prevDirLocation callerID : Z) : F (list DirEntry) :=
  demandLock inodeNumber callerID ;;!
  '(entries, _) <! vol (hReadDir inodeNumber 1 0 (AfterLocation prevDirLocation)) ;;
  entries <+ fillTypes inodeNumber callerID entries ;;
  fret entries.

Definition Readdir (inodeNumber : Z) (prevBasenameReturned : string) (maxEntries maxBufSize : Z)
    : F (list DirEntry * Z * bool) :=
  withReadLock volumeName inodeNumber (fun lock =>
    checkAccess inodeNumber userID groupID otherGroupIDs X_OK ;;!
    readdirHelper inodeNumber prevBasenameReturned maxEntries maxBufSize (lk_CallerID lock)).

Definition ReaddirOne (inodeNumber prevDirLocation : Z) : F (list DirEntry) :=
  withReadLock volumeName inodeNumber (fun lock =>
    checkAccess inodeNumber userID groupID otherGroupIDs X_OK ;;!
    readdirOneHelper inodeNumber prevDirLocation (lk_CallerID lock)).

(** The loop of [ReaddirPlus] that stats the entries. *)
Fixpoint statEntries (entries : list DirEntry) : F (list Stat) :=
  match entries with
  | [] => fret []
  | e :: rest =>
      stat <! withReadLock volumeName (de_InodeNumber e) (fun lock => getstatHelper (de_InodeNumber e) (lk_CallerID lock)) ;;
      rest <! statEntries rest ;;
      fret (stat :: rest)
  end.

Definition ReaddirPlus (inodeNumber : Z) (prevBasenameReturned : string) (maxEntries maxBufSize : Z)
    : F (list DirEntry * list Stat * Z * bool) :=
  '(dirEntries, numEntries, areMoreEntries) <! Readdir inodeNumber prevBasenameReturned maxEntries maxBufSize ;;
  stats <! statEntries dirEntries ;;
  fret (dirEntries, stats, numEntries, areMoreEntries).

Definition ReaddirOnePlus (inodeNumber prevDirLocation : Z) : F (list DirEntry * list Stat) :=
  dirEntries <! ReaddirOne inodeNumber prevDirLocation ;;
  stats <! statEntries dirEntries ;;
  fret (dirEntries, stats).

Definition Readsymlink (inodeNumber : Z) : F string :=
  withReadLock volumeName inodeNumber (fun _ =>
    checkAccess inodeNumber userID groupID otherGroupIDs R_OK ;;!
    vol (hGetSymlink inodeNumber)).

Definition Resize (inodeNumber newSize : Z) : F unit :=
  withWriteLock volumeName inodeNumber (fun _ =>
    checkAccess inodeNumber userID groupID otherGroupIDs W_OK ;;!
    r <+ vol (hSetSize inodeNumber newSize) ;;
    untrackInFlightFileInodeData inodeNumber false ;;+
    PRet r).

Definition Rmdir (inodeNumber : Z) (basename : string) : F unit :=
  callerID <+ fcaller ;;
  inodeLock <+ getWriteLock volumeName inodeNumber (Some callerID) ;;
  releasing inodeLock
    (checkAccess inodeNumber userID groupID otherGroupIDs WX_OK ;;!
     basenameInodeNumber <! vol (hLookup inodeNumber basename) ;;
     basenameInodeLock <+ getWriteLock volumeName basenameInodeNumber (Some callerID) ;;
     releasing basenameInodeLock
       (demand inodeNumber userID groupID otherGroupIDs WX_OK PermDeniedError ;;!
        basenameInodeType <! vol (hGetType basenameInodeNumber) ;;
        if negb (DirType =? basenameInodeType) then ferr (AddError (Some plain) NotDirError)
        else
          dirEntries <! vol (hNumDirEntries basenameInodeNumber) ;;
          if negb (2 =? dirEntries) then ferr (AddError (Some plain) NotEmptyError)
          else
            vol (hUnlink inodeNumber basename) ;;!
            vol (hDestroy basenameInodeNumber))).

(** The fields of [Setstat], in the order of the source. *)
Definition whenSet (stat : Stat) (key : Z) (f : Z -> F unit) : F unit :=
  match stat !! key with Some v => f v | None => fret tt end.

Definition demandUint32 (o : option Z) (errValue : Z) : F unit :=
  match o with
  | Some v => if two32 - 1 <? v then ferr (AddError (Some plain) errValue) else fret tt
  | None => fret tt
  end.

Definition Setstat (inodeNumber : Z) (stat : Stat) : F unit :=
  withWriteLock volumeName inodeNumber (fun _ =>
    demand inodeNumber userID groupID otherGroupIDs P_OK NotPermError ;;!
    whenSet stat StatSize (fun _ => demand inodeNumber userID groupID otherGroupIDs W_OK NotPermError) ;;!
    whenSet stat StatCRTime (fun crtime => vol (hSetCreationTime inodeNumber (toInt64 crtime))) ;;!
    whenSet stat StatMTime (fun mtime => vol (hSetModificationTime inodeNumber (toInt64 mtime))) ;;!
    whenSet stat StatATime (fun atime => vol (hSetAccessTime inodeNumber (toInt64 atime))) ;;!
    whenSet stat StatSize (fun size => vol (hSetSize inodeNumber size)) ;;!
    demandUint32 (stat !! StatUserID) InvalidUserIDError ;;!
    demandUint32 (stat !! StatGroupID) InvalidGroupIDError ;;!
    match stat !! StatUserID, stat !! StatGroupID with
    | Some newUserID, Some newGroupID => vol (hSetOwnerUserIDGroupID inodeNumber newUserID newGroupID)
    | Some newUserID, None => vol (hSetOwnerUserID inodeNumber newUserID)
    | None, Some newGroupID => vol (hSetOwnerGroupID inodeNumber newGroupID)
    | None, None => fret tt
    end ;;!
    whenSet stat StatMode (fun filePerm =>
      demandUint32 (Some filePerm) InvalidFileModeError ;;!
      vol (hSetPermMode inodeNumber filePerm))).

Definition xattr_create : Z := 1.
Definition xattr_replace : Z := 2.

(** [GetXAttr] locks the inode again, for another caller. *)
Definition checkFlags (inodeNumber : Z) (streamName : string) (flags : Z) : F unit :=
  if flags =? 0 then fret tt
  else if flags =? xattr_create then
    r <+ GetXAttr inodeNumber streamName ;;
    match r with inr _ => ferr (AddError None FileExistsError) | inl _ => fret tt end
  else if flags =? xattr_replace then
    r <+ GetXAttr inodeNumber streamName ;;
    match r with inl e => ferr (AddError (Some e) StreamNotFound) | inr _ => fret tt end
  else ferr (AddError None InvalidArgError).

Definition SetXAttr (inodeNumber : Z) (streamName : string) (value : bytes) (flags : Z) : F unit :=
  withWriteLock volumeName inodeNumber (fun _ =>
    checkAccess inodeNumber userID groupID otherGroupIDs W_OK ;;!
    checkFlags inodeNumber streamName flags ;;!
    r <+ vol (hPutStream inodeNumber streamName value) ;;
    untrackInFlightFileInodeData inodeNumber false ;;+
    PRet r).

(** The keys are those of [StatVFSKey]; the number of free inodes is the
    number of available ones. *)
Definition StatVfs : F (gmap Z Z) :=
  fsid <! vol hGetFSID ;;
  fret (list_to_map
    [(9, fsid); (1, FsBlockSize); (2, FsOptimalTransferSize); (3, VolFakeTotalBlocks); (4, VolFakeFreeBlocks);
     (5, VolFakeAvailBlocks); (6, VolFakeTotalInodes); (7, VolFakeAvailInodes); (8, VolFakeAvailInodes);
     (10, 0); (11, FileNameMax)]).

Definition Symlink (inodeNumber : Z) (basename target : string) : F Z :=
  validateBaseName basename ;;!
  validateFullPath target ;;!
  symlinkInodeNumber <! vol (hCreateSymlink target PosixModePerm userID groupID) ;;
  withWriteLock volumeName inodeNumber (fun _ =>
    r <+ checkAccess inodeNumber userID groupID otherGroupIDs WX_OK ;;
    match r with
    | inl e => discardInode symlinkInodeNumber e
    | inr _ => linkOrDestroy inodeNumber basename symlinkInodeNumber
    end).

Definition Unlink (inodeNumber : Z) (basename : string) : F unit :=
  callerID <+ fcaller ;;
  inodeLock <+ getWriteLock volumeName inodeNumber (Some callerID) ;;
  releasing inodeLock
    (checkAccess inodeNumber userID groupID otherGroupIDs WX_OK ;;!
     basenameInodeNumber <! vol (hLookup inodeNumber basename) ;;
     basenameInodeLock <+ getWriteLock volumeName basenameInodeNumber (Some callerID) ;;
     releasing basenameInodeLock
       (basenameInodeType <! vol (hGetType basenameInodeNumber) ;;
        if DirType =? basenameInodeType then ferr (AddError (Some plain) IsDirError)
        else
          vol (hUnlink inodeNumber basename) ;;!
          basenameLinkCount <! vol (hGetLinkCount basenameInodeNumber) ;;
          if 0 =? basenameLinkCount then
            untrackInFlightFileInodeData basenameInodeNumber false ;;+
            vol (hDestroy basenameInodeNumber)
          else fret tt)).

(** [Validate] calls itself; [fuel] bounds the stack. *)
Fixpoint Validate (fuel : nat) (inodeNumber : Z) : F unit :=
  match fuel with
  | O => PLoop
  | S fuel' => Validate fuel' inodeNumber ;;! fret tt
  end.

Definition Write (inodeNumber offset : Z) (buf : bytes) : F Z :=
  withWriteLock volumeName inodeNumber (fun _ =>
    checkAccess inodeNumber userID groupID otherGroupIDs W_OK ;;!
    vol (hWrite inodeNumber offset buf) ;;!
    trackInFlightFileInodeData inodeNumber ;;+
    fret (zlen buf)).
End Caller.
End Fs.
