(* ===== verification/FsMiddleware.v ===== *)
(** Package [fs]: the operations of a mount that the Swift middleware uses
    (the [Middleware*] functions of api_internal.go).

    They work on paths, with the permissions of root; [Coalesce], [PutComplete]
    and [Mkdir] hold the locks of several inodes at once. *)

From S2P Require Import Prelude Blunder Utils Dlm InodeTypes InodeVolume InodeDir InodeFile FsProgram FsLocks FsPath Fs.
Open Scope list_scope.
Open Scope Z_scope.
Open Scope go_scope.

Record AccountEntry := mkAccountEntry { ae_Basename : string }.

Record ContainerEntry := mkContainerEntry {
  ce_Basename : string;
  ce_FileSize : Z;
  ce_ModificationTime : Z;
  ce_IsDir : bool;
  ce_NumWrites : Z;
  ce_InodeNumber : Z;
  ce_Metadata : bytes
}.

Record HeadResponse := mkHeadResponse {
  hr_Metadata : bytes;
  hr_FileSize : Z;
  hr_ModificationTime : Z;
  hr_IsDir : bool;
  hr_InodeNumber : Z;
  hr_NumWrites : Z
}.

Record dirToDescend := mkDescend { dtd_name : string; dtd_path : string; dtd_ino : Z }.

(** [appendReadPlanEntries] *)
Definition appendReadPlanEntries (readPlan readRangeOut : list ReadPlanStep) : list ReadPlanStep :=
  readRangeOut ++ map (fun s => mkStep 0 (rps_Offset s) (rps_Length s) "" "" "" (rps_ObjectPath s)) readPlan.

Section FsMiddleware.
Context {I : Type} `{!InodeHandle I} (volumeName : string).

Abbreviation P A := (fsProg I A).
Abbreviation F A := (FS I A).

(** [lock.Unlock()] and [lock.GetCallerID()] of a pointer that may be nil. *)
Definition mustLock (lock : option RWLockStruct) : P RWLockStruct :=
  match lock with Some lock => PRet lock | None => PPanic end.

(** ** Deletion *)

Definition MiddlewareDelete (parentDir baseName : string) : F unit :=
  '(parentInodeNumber, _, parentDirLock) <! resolvePathForWrite volumeName parentDir None ;;
  parentDirLock <+ mustLock parentDirLock ;;
  releasing parentDirLock
    (baseNameInodeNumber <! vol (hLookup parentInodeNumber baseName) ;;
     baseInodeLock <+ getWriteLock volumeName baseNameInodeNumber (Some (lk_CallerID parentDirLock)) ;;
     releasing baseInodeLock
       (inodeType <! vol (hGetType baseNameInodeNumber) ;;
        doDestroy <!
          (if inodeType =? DirType then
             dirEntries <! vol (hNumDirEntries baseNameInodeNumber) ;;
             if negb (2 =? dirEntries) then ferr (AddError (Some plain) NotEmptyError) else fret true
           else
             basenameLinkCount <! vol (hGetLinkCount baseNameInodeNumber) ;;
             fret (1 =? basenameLinkCount)) ;;
        vol (hUnlink parentInodeNumber baseName) ;;!
        if doDestroy : bool then
          vol (hDestroy baseNameInodeNumber) ;;!
          untrackInFlightFileInodeData baseNameInodeNumber false ;;+
          fret tt
        else fret tt)).

(** ** Listings *)

Definition isDot (name : string) : bool := String.eqb name "." || String.eqb name "..".

(** The directories among the entries of one page. *)
Fixpoint accountEntries (dirEnts : list DirEntry) : F (list AccountEntry) :=
  match dirEnts with
  | [] => fret []
  | dirEnt :: rest =>
      if isDot (de_Basename dirEnt) then accountEntries rest
      else
        isItADir <! IsDir volumeName (de_InodeNumber dirEnt) ;;
        rest <! accountEntries rest ;;
        fret (if isItADir : bool then mkAccountEntry (de_Basename dirEnt) :: rest else rest)
  end.

(** [fuel] bounds the number of pages. *)
Fixpoint getAccountLoop (fuel : nat) (maxEntries : Z) (lastBasename : string) (accountEnts : list AccountEntry)
    (areMoreEntries : bool) : F (list AccountEntry) :=
  if areMoreEntries && (zlen accountEnts <? maxEntries) then
    match fuel with
    | O => PLoop
    | S fuel' =>
        r <+ Readdir volumeName InodeRootUserID InodeRootGroupID [] RootDirInodeNumber lastBasename
               (maxEntries -u zlen accountEnts) 0 ;;
        match r with
        | inl e => if Is (Some e) NotFoundError then fret accountEnts else ferr e
        | inr (dirEnts, _, areMoreEntries) =>
            more <! accountEntries dirEnts ;;
            match last dirEnts with
            | None => fret (accountEnts ++ more)
            | Some dirEnt => getAccountLoop fuel' maxEntries (de_Basename dirEnt) (accountEnts ++ more) areMoreEntries
            end
        end
    end
  else fret accountEnts.

Definition MiddlewareGetAccount (fuel : nat) (maxEntries : Z) (marker : string) : F (list AccountEntry) :=
  getAccountLoop fuel maxEntries marker [] true.

Definition strLe (a b : string) : bool := negb (String.ltb b a).

Definition statField (stat : Stat) (key : Z) : Z := default 0 (stat !! key).

Section GetContainer.
Context (maxEntries : Z) (marker prefix : string).

(** An entry that is not skipped: what it adds to the listing, and the
    directory to descend into later. *)
Definition listEntry (fileName : string) (dirEnt : DirEntry) : F (list ContainerEntry * list dirToDescend) :=
  statResult <! Getstat volumeName (de_InodeNumber dirEnt) ;;
  let fileType := statField statResult StatFType in
  if (fileType =? FileType) || (fileType =? SymlinkType) then
    if strLe fileName marker || negb (HasPrefix fileName prefix) then fret ([], [])
    else
      r <+ vol (hGetStream (de_InodeNumber dirEnt) MiddlewareStream) ;;
      match r with
      | inl e =>
          if IsNot (Some e) StreamNotFound then ferr e
          else fret ([mkContainerEntry fileName (statField statResult StatSize) (statField statResult StatMTime) false
                        (statField statResult StatNumWrites) (statField statResult StatINum) []], [])
      | inr serializedMetadata =>
          fret ([mkContainerEntry fileName (statField statResult StatSize) (statField statResult StatMTime) false
                   (statField statResult StatNumWrites) (statField statResult StatINum) serializedMetadata], [])
      end
  else if negb (HasPrefix fileName prefix) && negb (HasPrefix prefix fileName) then fret ([], [])
  else
    fret ((if negb (strLe fileName marker) && HasPrefix fileName prefix
           then [mkContainerEntry fileName 0 (statField statResult StatMTime) true
                   (statField statResult StatNumWrites) (statField statResult StatINum) []]
           else []),
          [mkDescend (de_Basename dirEnt +:+ "/") (fileName +:+ "/") (de_InodeNumber dirEnt)]).

(** [recursiveReaddirPlus]: the state of its loop is [dirEnts],
    [recursiveDescents], [areMoreEntries] and [lastBasename]; [containerEnts]
    is the variable the closures share.  [fuel] bounds the iterations of the
    loops and the recursion together. *)
Fixpoint recursiveReaddirPlus (fuel : nat) (dirName : string) (dirInode : Z) (dirEnts : list DirEntry)
    (recursiveDescents : list dirToDescend) (areMoreEntries : bool) (lastBasename : string)
    (containerEnts : list ContainerEntry) : F (list ContainerEntry) :=
  match fuel with
  | O => PLoop
  | S fuel' =>
      if negb ((areMoreEntries || negb (zlen dirEnts =? 0) || negb (zlen recursiveDescents =? 0))
               && (zlen containerEnts <? maxEntries)) then fret containerEnts
      else
        '(dirEnts, areMoreEntries, lastBasename) <!
          (if areMoreEntries && (zlen dirEnts =? 0) then
             '(dirEnts, _, areMoreEntries) <!
               Readdir volumeName InodeRootUserID InodeRootGroupID [] dirInode lastBasename
                 (maxEntries -u zlen containerEnts) 0 ;;
             fret (dirEnts, areMoreEntries, match last dirEnts with Some d => de_Basename d | None => lastBasename end)
           else fret (dirEnts, areMoreEntries, lastBasename)) ;;
        if match dirEnts with d :: _ => isDot (de_Basename d) | [] => false end then
          recursiveReaddirPlus fuel' dirName dirInode (tail dirEnts) recursiveDescents areMoreEntries lastBasename containerEnts
        else
          (fix drain (recursiveDescents : list dirToDescend) (containerEnts : list ContainerEntry) :=
             let handleOne :=
               match dirEnts with
               | [] => recursiveReaddirPlus fuel' dirName dirInode dirEnts recursiveDescents areMoreEntries lastBasename containerEnts
               | dirEnt :: dirEnts =>
                   let fileName := dirName +:+ de_Basename dirEnt in
                   if String.ltb prefix fileName && negb (HasPrefix fileName prefix) then fret containerEnts
                   else if strLe fileName marker && negb (HasPrefix marker fileName) then
                     recursiveReaddirPlus fuel' dirName dirInode dirEnts recursiveDescents areMoreEntries lastBasename containerEnts
                   else
                     '(more, descents) <! listEntry fileName dirEnt ;;
                     recursiveReaddirPlus fuel' dirName dirInode dirEnts (recursiveDescents ++ descents) areMoreEntries
                       lastBasename (containerEnts ++ more)
               end in
             match recursiveDescents with
             | [] => handleOne
             | d :: rest =>
                 if match dirEnts with [] => true | dirEnt :: _ => String.ltb (dtd_name d) (de_Basename dirEnt) end then
                   containerEnts <! recursiveReaddirPlus fuel' (dtd_path d) (dtd_ino d) [] [] true "" containerEnts ;;
                   if maxEntries <=? zlen containerEnts then fret containerEnts
                   else drain rest containerEnts
                 else handleOne
             end) recursiveDescents containerEnts
  end.

Definition MiddlewareGetContainer (fuel : nat) (vContainerName : string) : F (list ContainerEntry) :=
  '(ino, _, inoLock) <! resolvePathForRead volumeName vContainerName None ;;
  inoLock <+ mustLock inoLock ;;
  lockUnlock inoLock ;;+
  recursiveReaddirPlus fuel "" ino [] [] true "" [].
End GetContainer.

(** ** Objects *)

Record ReadRangeIn := mkRange { rr_Offset : option Z; rr_Len : option Z }.

Fixpoint rangePlans (inodeNumber : Z) (readRangeIn : list ReadRangeIn) (readRangeOut : list ReadPlanStep)
    : F (list ReadPlanStep) :=
  match readRangeIn with
  | [] => fret readRangeOut
  | r :: rest =>
      tmpReadEnt <! vol (hGetReadPlan inodeNumber (rr_Offset r) (rr_Len r)) ;;
      rangePlans inodeNumber rest (appendReadPlanEntries tmpReadEnt readRangeOut)
  end.

(** The metadata stream of an inode; a missing one is empty. *)
Definition streamOrEmpty (inodeNumber : Z) : F bytes :=
  r <+ vol (hGetStream inodeNumber MiddlewareStream) ;;
  match r with
  | inr b => fret b
  | inl e => if negb (Is (Some e) StreamNotFound) then ferr e else fret []
  end.

(** Every caller passes the name of the mount's volume, which [inode] looks
    up. *)
Definition MiddlewareGetObject (containerObjectPath : string) (readRangeIn : list ReadRangeIn) (readRangeOut : list ReadPlanStep)
    : F (Z * Z * Z * Z * bytes * list ReadPlanStep) :=
  '(inodeNumber, inodeType, inodeLock) <! resolvePathForRead volumeName containerObjectPath None ;;
  inodeLock <+ mustLock inodeLock ;;
  releasing inodeLock
    (if DirType =? inodeType then ferr (NewError IsDirError)
     else
       metadata <! vol (hGetMetadata inodeNumber) ;;
       vol hFetchVolumeHandle ;;!
       readRangeOut <!
         rangePlans inodeNumber
           (match readRangeIn with [] => [mkRange (Some 0) (Some (md_Size metadata))] | _ => readRangeIn end)
           readRangeOut ;;
       serializedMetadata <! streamOrEmpty inodeNumber ;;
       fret (md_Size metadata, u64 (md_ModificationTime metadata), inodeNumber, md_NumWrites metadata,
             serializedMetadata, readRangeOut)).

Definition MiddlewareHeadResponse (entityPath : string) : F HeadResponse :=
  '(ino, inoType, inoLock) <! resolvePathForRead volumeName entityPath None ;;
  inoLock <+ mustLock inoLock ;;
  releasing inoLock
    (statResult <! getstatHelper volumeName ino (lk_CallerID inoLock) ;;
     metadata <! streamOrEmpty ino ;;
     fret (mkHeadResponse metadata (statField statResult StatSize) (statField statResult StatMTime)
             (inoType =? DirType) ino (statField statResult StatNumWrites))).

(** Compare and set of the metadata stream. *)
Definition MiddlewarePost (parentDir baseName : string) (newMetaData oldMetaData : bytes) : F unit :=
  '(baseNameInodeNumber, _, baseInodeLock) <! resolvePathForWrite volumeName (parentDir +:+ "/" +:+ baseName) None ;;
  baseInodeLock <+ mustLock baseInodeLock ;;
  releasing baseInodeLock
    (r <+ vol (hGetStream baseNameInodeNumber MiddlewareStream) ;;
     match r with
     | inl e => if IsNot (Some e) StreamNotFound then ferr e else fret tt
     | inr existingStreamData =>
         if decide (existingStreamData = oldMetaData) then fret tt else ferr (NewError TryAgainError)
     end ;;!
     r <+ vol (hPutStream baseNameInodeNumber MiddlewareStream newMetaData) ;;
     untrackInFlightFileInodeData baseNameInodeNumber false ;;+
     PRet r).

Definition removeObstacleToObjectPut (callerID dirInodeNumber : Z) (obstacleName : string) (obstacleInodeNumber : Z) : F unit :=
  statResult <! getstatHelper volumeName obstacleInodeNumber callerID ;;
  let fileType := statField statResult StatFType in
  if (fileType =? FileType) || (fileType =? SymlinkType) then vol (hUnlink dirInodeNumber obstacleName)
  else if fileType =? DirType then
    numEntries <! vol (hNumDirEntries obstacleInodeNumber) ;;
    if 3 <=? numEntries then ferr (NewError IsDirError) else vol (hUnlink dirInodeNumber obstacleName)
  else fret tt.

(** ** PUT *)

Section Put.
Context (makeInodeFunc : F Z) (callerID : Z).

(** The first loop of [putObjectHelper]: down to the lowest existing
    directory.  [dirs] are the directories still to find, in order; the
    lock of the directory reached stays held.  An error of [Lookup] other
    than not found is recorded and the loop goes on; [fuel] bounds it. *)
Fixpoint findDirs (fuel : nat) (dirs : list string) (dirInodeNumber : Z) (dirInodeLock : RWLockStruct)
    : F (list string * Z * RWLockStruct) :=
  match fuel with
  | O => PLoop
  | S fuel' =>
      match dirs with
      | [] => fret (dirs, dirInodeNumber, dirInodeLock)
      | thisDir :: rest =>
          if String.eqb thisDir "." then findDirs fuel' rest dirInodeNumber dirInodeLock
          else
            r <+ vol (hLookup dirInodeNumber thisDir) ;;
            match r with
            | inl e =>
                if Errno (Some e) =? NotFoundError then fret (dirs, dirInodeNumber, dirInodeLock)
                else findDirs fuel' dirs dirInodeNumber dirInodeLock
            | inr dirEntInodeNumber =>
                dirEntInodeLock <+ getWriteLock volumeName dirEntInodeNumber (Some callerID) ;;
                r <+ vol (hGetType dirEntInodeNumber) ;;
                match r with
                | inl e => lockUnlock dirInodeLock ;;+ lockUnlock dirEntInodeLock ;;+ ferr e
                | inr dirEntInodeType =>
                    if dirEntInodeType =? FileType then
                      lockUnlock dirInodeLock ;;+ lockUnlock dirEntInodeLock ;;+ ferr (NewError NotDirError)
                    else if dirEntInodeType =? SymlinkType then
                      r <+ vol (hGetSymlink dirEntInodeNumber) ;;
                      lockUnlock dirEntInodeLock ;;+
                      match r with
                      | inl e => lockUnlock dirInodeLock ;;+ ferr e
                      | inr target =>
                          let dirs := rev (revSplitPath target) ++ rest in
                          if HasPrefix target "/" then
                            lockUnlock dirInodeLock ;;+
                            dirInodeLock <+ getWriteLock volumeName RootDirInodeNumber None ;;
                            findDirs fuel' dirs RootDirInodeNumber dirInodeLock
                          else findDirs fuel' dirs dirInodeNumber dirInodeLock
                      end
                    else
                      lockUnlock dirInodeLock ;;+
                      findDirs fuel' rest dirEntInodeNumber dirEntInodeLock
                end
            end
      end
  end.

(** The second loop: new directories around the new inode, the deepest
    first. *)
Fixpoint makeDirs (dirs : list string) (highestUnlinkedInodeNumber : Z) (highestUnlinkedName : string) : F (Z * string) :=
  match dirs with
  | [] => fret (highestUnlinkedInodeNumber, highestUnlinkedName)
  | dir :: rest =>
      newDirInodeNumber <! vol (hCreateDir PosixModePerm 0 0) ;;
      vol (hLink newDirInodeNumber highestUnlinkedName highestUnlinkedInodeNumber) ;;!
      untrackInFlightFileInodeData highestUnlinkedInodeNumber false ;;+
      makeDirs rest newDirInodeNumber dir
  end.

(** The final [Link] and what follows.  [obstacleInodeNumber] is declared a
    second time in the block that looks the obstacle up: the variable used
    here is the outer one, which stays 0. *)
Definition linkFinal (haveObstacle : bool) (dirInodeNumber : Z) (vObjectBaseName highestUnlinkedName : string)
    (highestUnlinkedInodeNumber fileInodeNumber : Z) : F (Z * Z * Z) :=
  let obstacleInodeNumber := 0 in
  r <+ vol (hLink dirInodeNumber highestUnlinkedName highestUnlinkedInodeNumber) ;;
  match r with
  | inl e =>
      (if haveObstacle then vol (hLink dirInodeNumber vObjectBaseName obstacleInodeNumber) ;;+ PRet tt else PRet tt) ;;+
      ferr e
  | inr _ =>
      (if haveObstacle then vol (hDestroy obstacleInodeNumber) ;;+ PRet tt else PRet tt) ;;+
      metadata <! vol (hGetMetadata fileInodeNumber) ;;
      fret (u64 (md_ModificationTime metadata), fileInodeNumber, md_NumWrites metadata)
  end.

(** The part of [putObjectHelper] below the lowest existing directory. *)
Definition putUnder (dirs : list string) (dirInodeNumber : Z) (vObjectBaseName : string) : F (Z * Z * Z) :=
  fileInodeNumber <! makeInodeFunc ;;
  '(highestUnlinkedInodeNumber, highestUnlinkedName) <! makeDirs (rev dirs) fileInodeNumber vObjectBaseName ;;
  let finish (haveObstacle : bool) :=
    linkFinal haveObstacle dirInodeNumber vObjectBaseName highestUnlinkedName highestUnlinkedInodeNumber fileInodeNumber in
  match dirs with
  | [] =>
      r <+ vol (hLookup dirInodeNumber vObjectBaseName) ;;
      match r with
      | inl e => if Errno (Some e) =? NotFoundError then finish false else ferr e
      | inr obstacleInodeNumber =>
          obstacleInodeLock <+ getWriteLock volumeName obstacleInodeNumber (Some callerID) ;;
          releasing obstacleInodeLock
            (removeObstacleToObjectPut callerID dirInodeNumber vObjectBaseName obstacleInodeNumber ;;! finish true)
      end
  | _ => finish false
  end.
End Put.

(** [vObjectPathSegments[0]] panics on an empty path. *)
Definition putObjectHelper (fuel : nat) (vContainerName vObjectPath : string) (makeInodeFunc : F Z) : F (Z * Z * Z) :=
  dirInodeNumber <! Lookup volumeName InodeRootUserID InodeRootGroupID [] RootDirInodeNumber vContainerName ;;
  match revSplitPath vObjectPath with
  | [] => PPanic
  | vObjectBaseName :: dirs =>
      callerID <+ fcaller ;;
      dirInodeLock <+ getWriteLock volumeName dirInodeNumber (Some callerID) ;;
      '(dirs, dirInodeNumber, dirInodeLock) <! findDirs callerID fuel (rev dirs) dirInodeNumber dirInodeLock ;;
      releasing dirInodeLock (putUnder makeInodeFunc callerID dirs dirInodeNumber vObjectBaseName)
  end.

(** [pObjectLengths[i]] panics when the slices differ in length. *)
Fixpoint wroteAll (fileInodeNumber fileOffset : Z) (first : bool) (pObjectPaths : list string) (pObjectLengths : list Z) : F unit :=
  match pObjectPaths, pObjectLengths with
  | [], _ => fret tt
  | pObjectPath :: paths, pObjectLength :: lengths =>
      vol (hWrote fileInodeNumber fileOffset pObjectPath 0 pObjectLength (negb first)) ;;!
      wroteAll fileInodeNumber (fileOffset +u pObjectLength) false paths lengths
  | _ :: _, [] => PPanic
  end.

Definition reifyTheFile (pObjectPaths : list string) (pObjectLengths : list Z) (pObjectMetadata : bytes) : F Z :=
  fileInodeNumber <! vol (hCreateFile PosixModePerm 0 0) ;;
  wroteAll fileInodeNumber 0 true pObjectPaths pObjectLengths ;;!
  vol (hPutStream fileInodeNumber MiddlewareStream pObjectMetadata) ;;!
  fret fileInodeNumber.

Definition MiddlewarePutComplete (fuel : nat) (vContainerName vObjectPath : string) (pObjectPaths : list string)
    (pObjectLengths : list Z) (pObjectMetadata : bytes) : F (Z * Z * Z) :=
  putObjectHelper fuel vContainerName vObjectPath (reifyTheFile pObjectPaths pObjectLengths pObjectMetadata).

Definition createTheDirectory (metadata : bytes) : F Z :=
  dirInodeNumber <! vol (hCreateDir PosixModePerm 0 0) ;;
  (if 0 <? zlen metadata then vol (hPutStream dirInodeNumber MiddlewareStream metadata) else fret tt) ;;!
  fret dirInodeNumber.

Definition MiddlewareMkdir (fuel : nat) (vContainerName vObjectPath : string) (metadata : bytes) : F (Z * Z * Z) :=
  putObjectHelper fuel vContainerName vObjectPath (createTheDirectory metadata).

Definition MiddlewarePutContainer (containerName : string) (oldMetadata newMetadata : bytes) : F unit :=
  rootInodeLock <+ getWriteLock volumeName RootDirInodeNumber None ;;
  releasing rootInodeLock
    (r <+ vol (hLookup RootDirInodeNumber containerName) ;;
     match r with
     | inl e =>
         if IsNot (Some e) NotFoundError then ferr e
         else
           newDirInodeNumber <! vol (hCreateDir PosixModePerm 0 0) ;;
           newDirInodeLock <+ getWriteLock volumeName newDirInodeNumber None ;;
           releasing newDirInodeLock
             (vol (hPutStream newDirInodeNumber MiddlewareStream newMetadata) ;;!
              vol (hLink RootDirInodeNumber containerName newDirInodeNumber))
     | inr containerInodeNumber =>
         containerInodeLock <+ getWriteLock volumeName containerInodeNumber None ;;
         releasing containerInodeLock
           (existingMetadata <! streamOrEmpty containerInodeNumber ;;
            if decide (existingMetadata = oldMetadata)
            then vol (hPutStream containerInodeNumber MiddlewareStream newMetadata)
            else ferr (NewError TryAgainError))
     end).

(** ** Coalesce *)

(** The directory and file names of a path; [None] in the root directory. *)
Definition dirAndFile (path : string) : option (string * string) :=
  let '(dirName, fileName) := SplitFile path in
  if String.eqb dirName "" then None else Some (chop dirName, fileName).

Section Coalesce.
Context (callerID : Z).

(** The loops return, next to their result, the lock of the cursor and the
    locks held for the elements, which the deferred functions release. *)
Fixpoint walkDest (destDirPathComponents : list string) (cursorInodeNumber : Z) (cursorInodeLock : option RWLockStruct)
    : P ((error + list string * Z) * option RWLockStruct) :=
  match destDirPathComponents with
  | [] => PRet (inr ([], cursorInodeNumber), cursorInodeLock)
  | pathComponent :: rest =>
      r <+ vol (hLookup cursorInodeNumber pathComponent) ;;
      match r with
      | inl e =>
          if Is (Some e) NotFoundError then PRet (inr (destDirPathComponents, cursorInodeNumber), cursorInodeLock)
          else PRet (inl e, cursorInodeLock)
      | inr _ =>
          r <+ resolvePath (ensureWriteLock volumeName) (Some callerID) pathComponent cursorInodeNumber ;;
          match r with
          | inl e => PRet (inl e, cursorInodeLock)
          | inr (nextCursorInodeNumber, nextCursorInodeType, nextCursorInodeLock) =>
              if negb (nextCursorInodeType =? DirType) then
                unlockIf nextCursorInodeLock ;;+ PRet (inl (NewError NotDirError), cursorInodeLock)
              else
                unlockIf cursorInodeLock ;;+
                walkDest rest nextCursorInodeNumber nextCursorInodeLock
          end
      end
  end.

Fixpoint makeDest (destDirPathComponents : list string) (cursorInodeNumber : Z) (cursorInodeLock : option RWLockStruct)
    : P ((error + Z) * option RWLockStruct) :=
  match destDirPathComponents with
  | [] => PRet (inr cursorInodeNumber, cursorInodeLock)
  | pathComponent :: rest =>
      r <+ vol (hCreateDir 493 InodeRootUserID InodeRootGroupID) ;;
      match r with
      | inl e => PRet (inl e, cursorInodeLock)
      | inr newDirInodeNumber =>
          r <+ vol (hLink cursorInodeNumber pathComponent newDirInodeNumber) ;;
          match r with
          | inl e => vol (hDestroy newDirInodeNumber) ;;+ PRet (inl e, cursorInodeLock)
          | inr _ =>
              unlockIf cursorInodeLock ;;+
              cursorInodeLock <+ ensureWriteLock volumeName newDirInodeNumber (Some callerID) ;;
              makeDest rest newDirInodeNumber cursorInodeLock
          end
      end
  end.

Definition optLock (lock : option RWLockStruct) : list RWLockStruct := match lock with Some l => [l] | None => [] end.

(** Looks an element up and locks it. *)
Definition lockElement (entry : string * string) (heldLocks : list RWLockStruct)
    : P ((error + CoalesceElement) * list RWLockStruct) :=
  r <+ resolvePathForWrite volumeName entry.1 (Some callerID) ;;
  match r with
  | inl e => PRet (inl e, heldLocks)
  | inr (dirInodeNumber, dirInodeType, dirInodeLock) =>
      let heldLocks := heldLocks ++ optLock dirInodeLock in
      if negb (dirInodeType =? DirType) then PRet (inl (NewError NotDirError), heldLocks)
      else
        r <+ vol (hLookup dirInodeNumber entry.2) ;;
        match r with
        | inl e => PRet (inl e, heldLocks)
        | inr fileInodeNumber =>
            fileInodeLock <+ ensureWriteLock volumeName fileInodeNumber (Some callerID) ;;
            let heldLocks := heldLocks ++ optLock fileInodeLock in
            r <+ vol (hGetMetadata fileInodeNumber) ;;
            match r with
            | inl e => PRet (inl e, heldLocks)
            | inr fileMetadata =>
                if negb (md_InodeType fileMetadata =? FileType) then PRet (inl (NewError NotFileError), heldLocks)
                else PRet (inr (mkElementToCoalesce dirInodeNumber fileInodeNumber entry.2), heldLocks)
            end
        end
  end.

Fixpoint lockElements (entries : list (string * string)) (coalesceElements : list CoalesceElement)
    (heldLocks : list RWLockStruct) : P ((error + list CoalesceElement) * list RWLockStruct) :=
  match entries with
  | [] => PRet (inr coalesceElements, heldLocks)
  | entry :: rest =>
      '(r, heldLocks) <+ lockElement entry heldLocks ;;
      match r with
      | inl e => PRet (inl e, heldLocks)
      | inr element => lockElements rest (coalesceElements ++ [element]) heldLocks
      end
  end.

(** Everything between the locking of the root directory and the deferred
    functions. *)
Definition coalesceLocked (elementNames : list (string * string)) (destDirName destFileName : string)
    (rootDirInodeLock : RWLockStruct)
    : P ((error + Z * Z * Z) * option RWLockStruct * list RWLockStruct) :=
  let heldLocks := [rootDirInodeLock] in
  '(r, cursorInodeLock) <+ walkDest (Split slash destDirName) RootDirInodeNumber None ;;
  match r with
  | inl e => PRet (inl e, cursorInodeLock, heldLocks)
  | inr (destDirPathComponents, cursorInodeNumber) =>
      '(r, cursorInodeLock) <+ makeDest destDirPathComponents cursorInodeNumber cursorInodeLock ;;
      match r with
      | inl e => PRet (inl e, cursorInodeLock, heldLocks)
      | inr cursorInodeNumber =>
          '(r, heldLocks) <+ lockElements elementNames [] heldLocks ;;
          match r with
          | inl e => PRet (inl e, cursorInodeLock, heldLocks)
          | inr coalesceElements =>
              r <+ vol (hCoalesce cursorInodeNumber destFileName coalesceElements) ;;
              match r with
              | inl e => PRet (inl e, cursorInodeLock, heldLocks)
              | inr (destInodeNumber, mtime, numWrites) =>
                  PRet (inr (destInodeNumber, numWrites, u64 mtime), cursorInodeLock, heldLocks)
              end
          end
      end
  end.
End Coalesce.

Definition MiddlewareCoalesce (destPath : string) (elementPaths : list string) : F (Z * Z * Z) :=
  match mapM dirAndFile elementPaths, dirAndFile destPath with
  | Some elementNames, Some (destDirName, destFileName) =>
      callerID <+ fcaller ;;
      rootDirInodeLock <+ getWriteLock volumeName RootDirInodeNumber (Some callerID) ;;
      '(r, cursorInodeLock, heldLocks) <+ coalesceLocked callerID elementNames destDirName destFileName rootDirInodeLock ;;
      unlockIf cursorInodeLock ;;+
      pfor heldLocks lockUnlock ;;+
      PRet r
  | _, _ => ferr plain
  end.
End FsMiddleware.
