(* ===== verification/FsTreeWalk.v ===== *)
(** Package [fs]: validation of a whole volume (treewalk.go).

    The walk counts the directory entries that refer to each inode, then
    corrects the link counts that differ.  It takes no locks.  [stop n] says
    whether the [n]-th look at the stop channel finds a value. *)

From S2P Require Import Prelude Blunder InodeTypes InodeVolume InodeDir FsProgram FsLocks.
Open Scope list_scope.

Section TreeWalk.
Context {I : Type} `{!InodeHandle I} (stop : nat -> bool).

Abbreviation F A := (FS I A).

Record treeWalkStruct := mkTreeWalk {
  polls : nat;
  inodeRefCountMap : gmap Z Z
}.

Definition polled (tWS : treeWalkStruct) : treeWalkStruct := mkTreeWalk (S (polls tWS)) (inodeRefCountMap tWS).

Definition countRef (tWS : treeWalkStruct) (inodeNumber : Z) : treeWalkStruct :=
  mkTreeWalk (polls tWS)
    (<[inodeNumber := match inodeRefCountMap tWS !! inodeNumber with
                      | Some prevInodeRefCount => 1 +u prevInodeRefCount
                      | None => 1
                      end]> (inodeRefCountMap tWS)).

Definition relabel {A} (m : F A) : F A :=
  r <+ m ;; match r with inl _ => ferr plain | inr a => fret a end.

Definition validateNonDirInode (nonDirInodeNumber : Z) : F unit := relabel (vol (hValidate nonDirInodeNumber)).

(** [validateDirInode]; [fuel] bounds the depth of the tree.  The error of a
    failed [GetType] is formatted from a variable that is nil. *)
Fixpoint validateDirInode (fuel : nat) (dirInodeNumber : Z) (tWS : treeWalkStruct) : F (bool * treeWalkStruct) :=
  match fuel with
  | O => PLoop
  | S fuel' =>
      relabel (vol (hValidate dirInodeNumber)) ;;!
      '(dirEntrySlice, _) <! relabel (vol (hReadDir dirInodeNumber 0 0 FromStart)) ;;
      (fix entries (dirEntrySlice : list DirEntry) (tWS : treeWalkStruct) : F (bool * treeWalkStruct) :=
         match dirEntrySlice with
         | [] => fret (false, tWS)
         | dirEntry :: rest =>
             if stop (polls tWS) then fret (true, polled tWS)
             else
               let tWS := countRef (polled tWS) (de_InodeNumber dirEntry) in
               if String.eqb "." (de_Basename dirEntry) || String.eqb ".." (de_Basename dirEntry) then entries rest tWS
               else
                 inodeType <! relabel (vol (hGetType (de_InodeNumber dirEntry))) ;;
                 if DirType =? inodeType then
                   '(stopped, tWS) <! validateDirInode fuel' (de_InodeNumber dirEntry) tWS ;;
                   if stopped : bool then fret (true, tWS) else entries rest tWS
                 else
                   validateNonDirInode (de_InodeNumber dirEntry) ;;!
                   entries rest tWS
         end) dirEntrySlice tWS
  end.

(** The second loop; the number of corrections. *)
Fixpoint fixLinkCounts (counts : list (Z * Z)) (poll : nat) (linkCountsFixed : Z) : F (option Z) :=
  match counts with
  | [] => fret (Some linkCountsFixed)
  | (inodeNumber, inodeRefCount) :: rest =>
      if stop poll then fret None
      else
        inodeLinkCount <! relabel (vol (hGetLinkCount inodeNumber)) ;;
        if negb (inodeLinkCount =? inodeRefCount) then
          relabel (vol (hSetLinkCount inodeNumber inodeRefCount)) ;;!
          fixLinkCounts rest (S poll) (linkCountsFixed +u 1)
        else fixLinkCounts rest (S poll) linkCountsFixed
  end.

(** A volume that needed corrections is reported by an error. *)
Definition validateVolume (fuel : nat) : F unit :=
  vol hFetchVolumeHandle ;;!
  '(stopped, tWS) <! validateDirInode fuel RootDirInodeNumber (mkTreeWalk 0 ∅) ;;
  if stopped : bool then fret tt
  else
    linkCountsFixed <! fixLinkCounts (map_to_list (inodeRefCountMap tWS)) (polls tWS) 0 ;;
    match linkCountsFixed with
    | None => fret tt
    | Some n => if n =? 0 then fret tt else ferr plain
    end.
End TreeWalk.
