(* ===== verification/FsLockFacts.v ===== *)
(** The lock discipline of package [fs], composed with the lock manager.

    [disciplined] follows the locks a program holds through every branch it
    can take; a [neutral] program holds at its end what it held at its start.
    Goroutines that follow the discipline are clients of the lock manager in
    the sense of [Dlm.dstep] ([sreach_clients]), so what is proved there holds
    for them. *)

From S2P Require Import Prelude Blunder Dlm DlmFacts FsProgram FsLocks.
Open Scope list_scope.

(** ** Lock accounting of one program *)

Definition heldLock : Type := (string * Z * lockState)%type.

Fixpoint disciplined {I A} (Q : A -> list heldLock -> Prop) (held : list heldLock) (p : fsProg I A) : Prop :=
  match p with
  | PRet a => exists h, held ≡ₚ h /\ Q a h
  | PPanic | PLoop => True
  | PLock l c m k => grantable m /\ disciplined Q ((l, c, m) :: held) k
  | PTry l c m k => grantable m /\ disciplined Q ((l, c, m) :: held) (k None) /\ disciplined Q held (k (Some busyError))
  | PUnlock l c k => exists m h, held ≡ₚ (l, c, m) :: h /\ disciplined Q h k
  | PHeld _ _ _ k => forall b, disciplined Q held (k b)
  | PCaller k => forall c, disciplined Q held (k c)
  | PVol _ k => forall r, disciplined Q held (k r)
  | PVars _ k => forall x, disciplined Q held (k x)
  | PSpawn _ k => disciplined Q held k
  | PSelect _ k => forall b, disciplined Q held (k b)
  | PWait _ k => disciplined Q held k
  end.

Section Discipline.
Context {I : Type}.

Lemma disciplined_perm {A} (Q : A -> list heldLock -> Prop) (p : fsProg I A) :
  forall h h', h ≡ₚ h' -> disciplined Q h p -> disciplined Q h' p.
Proof.
  induction p as [a| | |l c m k IH|l c m k IH|l c k IH|l c t k IH|k IH|X f k IH|X f k IH|ad k IH|ad k IH|ad k IH];
    simpl; intros h h' Hp; try done.
  - intros (x & Hx & HQ). exists x. split; [by rewrite <- Hp|done].
  - intros [Hm H]. split; [done|]. eapply IH; [|exact H]. by rewrite Hp.
  - intros (Hm & H1 & H2). split_and!; [done| |]; (eapply IH; [|eassumption]); [by rewrite Hp|done].
  - intros (m & x & Hx & H). exists m, x. split; [by rewrite <- Hp|done].
  - intros H b. eapply IH; [exact Hp|apply H].
  - intros H b. eapply IH; [exact Hp|apply H].
  - intros H b. eapply IH; [exact Hp|apply H].
  - intros H b. eapply IH; [exact Hp|apply H].
  - by apply IH.
  - intros H b. eapply IH; [exact Hp|apply H].
  - by apply IH.
Qed.

Lemma disciplined_bind {A B} (Q : B -> list heldLock -> Prop) (p : fsProg I A) (f : A -> fsProg I B) :
  forall h, disciplined (fun a h => disciplined Q h (f a)) h p -> disciplined Q h (pbind p f).
Proof.
  induction p as [a| | |l c m k IH|l c m k IH|l c k IH|l c t k IH|k IH|X g k IH|X g k IH|ad k IH|ad k IH|ad k IH];
    simpl; intros h; try done.
  - intros (x & Hx & HQ). by eapply disciplined_perm.
  - intros [Hm H]. auto.
  - intros (Hm & H1 & H2). auto.
  - intros (m & x & Hx & H). eauto.
  - intros H b. apply IH, H.
  - intros H b. apply IH, H.
  - intros H b. apply IH, H.
  - intros H b. apply IH, H.
  - by apply IH.
  - intros H b. apply IH, H.
  - by apply IH.
Qed.

Lemma disciplined_mono {A} (Q Q' : A -> list heldLock -> Prop) (p : fsProg I A) :
  (forall a h, Q a h -> Q' a h) -> forall h, disciplined Q h p -> disciplined Q' h p.
Proof.
  intros HQQ.
  induction p as [a| | |l c m k IH|l c m k IH|l c k IH|l c t k IH|k IH|X g k IH|X g k IH|ad k IH|ad k IH|ad k IH];
    simpl; intros h; try done.
  - intros (x & Hx & HQ). eauto.
  - intros [Hm H]. auto.
  - intros (Hm & H1 & H2). auto.
  - intros (m & x & Hx & H). eauto.
  - intros H b. apply IH, H.
  - intros H b. apply IH, H.
  - intros H b. apply IH, H.
  - intros H b. apply IH, H.
  - by apply IH.
  - intros H b. apply IH, H.
  - by apply IH.
Qed.

(** A program that ends with the locks it started with. *)
Definition neutral {A} (p : fsProg I A) : Prop := forall held, disciplined (fun _ h => h = held) held p.

(** Sequencing after a neutral program. *)
Lemma neutral_then {A B} (Q : B -> list heldLock -> Prop) (m : fsProg I A) (k : A -> fsProg I B) held :
  neutral m -> (forall a, disciplined Q held (k a)) -> disciplined Q held (pbind m k).
Proof.
  intros Hm Hk. apply disciplined_bind. eapply disciplined_mono; [|apply Hm]. by intros a h ->.
Qed.

Lemma neutral_ret {A} (a : A) : neutral (PRet a).
Proof. intros held. by exists held. Qed.

Lemma neutral_fret {A} (a : A) : neutral (fret (I := I) a).
Proof. apply neutral_ret. Qed.

Lemma neutral_ferr {A} (e : error) : neutral (ferr (I := I) (A := A) e).
Proof. apply neutral_ret. Qed.

Lemma neutral_panic {A} : neutral (A := A) PPanic.
Proof. done. Qed.

Lemma neutral_loop {A} : neutral (A := A) PLoop.
Proof. done. Qed.

Lemma neutral_bind {A B} (m : fsProg I A) (k : A -> fsProg I B) :
  neutral m -> (forall a, neutral (k a)) -> neutral (pbind m k).
Proof. intros Hm Hk held. apply neutral_then; [done|]. intros a. apply Hk. Qed.

Lemma neutral_fbind {A B} (m : FS I A) (k : A -> FS I B) :
  neutral m -> (forall a, neutral (k a)) -> neutral (fbind m k).
Proof. intros Hm Hk. apply neutral_bind; [done|]. intros [e|a]; [apply neutral_ret|apply Hk]. Qed.

Lemma neutral_vol {X} (f : St I error X) : neutral (vol f).
Proof. intros held r. by exists held. Qed.

Lemma neutral_vars {X} (f : fsVolumeStruct -> fsVolumeStruct * X) : neutral (vars f).
Proof. intros held r. by exists held. Qed.

Lemma neutral_held l c t : neutral (fheld l c t).
Proof. intros held r. by exists held. Qed.

Lemma neutral_caller : neutral fcaller.
Proof. intros held r. by exists held. Qed.

Lemma neutral_for {A} (l : list A) (body : A -> fsProg I unit) :
  (forall a, neutral (body a)) -> neutral (pfor l body).
Proof. intros Hb. induction l as [|x l IH]; simpl; [apply neutral_ret|]. by apply neutral_bind. Qed.

(** A lock that is taken and released when the program under it is done,
    whatever its result. *)
Lemma neutral_releasing {A} (lock : RWLockStruct) (m : fsProg I A) mode held :
  neutral m -> disciplined (fun _ h => h = held) ((LockID lock, lk_CallerID lock, mode) :: held) (releasing lock m).
Proof.
  intros Hm. unfold releasing, deferUnlock. apply neutral_then; [done|]. intros a. simpl.
  exists mode, held. split; [done|]. by exists held.
Qed.

Lemma neutral_read {A} (lock : RWLockStruct) (m : fsProg I A) :
  neutral m -> neutral (lockRead lock ;;+ releasing lock m).
Proof. intros Hm held. split; [by left|]. by apply neutral_releasing. Qed.

Lemma neutral_write {A} (lock : RWLockStruct) (m : fsProg I A) :
  neutral m -> neutral (lockWrite lock ;;+ releasing lock m).
Proof. intros Hm held. split; [by right|]. by apply neutral_releasing. Qed.

Lemma neutral_write_then {A B} (lock : RWLockStruct) (m : FS I A) (k : A -> FS I B) :
  neutral m -> (forall a, neutral (k a)) -> neutral (lockWrite lock ;;+ fbind (releasing lock m) k).
Proof.
  intros Hm Hk held. split; [by right|]. cbn [pbind lockWrite]. unfold fbind. apply disciplined_bind.
  eapply disciplined_mono; [|by apply neutral_releasing]. intros [e|a] h ->; [by exists held|apply Hk].
Qed.

(** Steps of programs that release their locks by hand. *)
Lemma disc_ret {A} (Q : A -> list heldLock -> Prop) held (a : A) : Q a held -> disciplined (I := I) Q held (PRet a).
Proof. intros H. by exists held. Qed.

Lemma disc_write {A} (Q : A -> list heldLock -> Prop) held lock (k : fsProg I A) :
  disciplined Q ((LockID lock, lk_CallerID lock, exclusive) :: held) k -> disciplined Q held (lockWrite lock ;;+ k).
Proof. intros H. split; [by right|exact H]. Qed.

Lemma disc_tryWrite {A} (Q : A -> list heldLock -> Prop) held lock (k : option error -> fsProg I A) :
  disciplined Q ((LockID lock, lk_CallerID lock, exclusive) :: held) (k None) ->
  disciplined Q held (k (Some busyError)) ->
  disciplined Q held (err <+ lockTryWrite lock ;; k err).
Proof. intros H1 H2. split; [by right|]. by split. Qed.

Lemma disc_unlock {A} (Q : A -> list heldLock -> Prop) held h lock mode (k : fsProg I A) :
  held ≡ₚ (LockID lock, lk_CallerID lock, mode) :: h -> disciplined Q h k ->
  disciplined Q held (lockUnlock lock ;;+ k).
Proof. intros Hp H. exists mode, h. by split. Qed.

(** Locks that may not have been taken. *)
Definition optHeld (lock : option RWLockStruct) (mode : lockState) : list heldLock :=
  match lock with Some l => [(LockID l, lk_CallerID l, mode)] | None => [] end.

Lemma disc_unlockIf {A} (Q : A -> list heldLock -> Prop) held h lock mode (k : fsProg I A) :
  held ≡ₚ optHeld lock mode ++ h -> disciplined Q h k -> disciplined Q held (unlockIf lock ;;+ k).
Proof.
  destruct lock as [l|]; simpl; intros Hp H; [by eapply disc_unlock|].
  eapply disciplined_perm; [symmetry; exact Hp|exact H].
Qed.

Definition acquires (mode : lockState) (p : fsProg I (option RWLockStruct)) : Prop :=
  forall held, disciplined (fun lock h => h = optHeld lock mode ++ held) held p.

Lemma acquires_then {B} (Q : B -> list heldLock -> Prop) mode (m : fsProg I (option RWLockStruct)) k held :
  acquires mode m -> (forall lock, disciplined Q (optHeld lock mode ++ held) (k lock)) -> disciplined Q held (pbind m k).
Proof.
  intros Hm Hk. apply disciplined_bind. eapply disciplined_mono; [|apply Hm]. by intros a h ->.
Qed.

Context (volumeName : string).

Lemma neutral_callerOf callerID : neutral (callerOf callerID).
Proof. destruct callerID; [apply neutral_ret|apply neutral_caller]. Qed.

Lemma neutral_init inodeNumber callerID : neutral (initInodeLock volumeName inodeNumber callerID).
Proof. apply neutral_bind; [apply neutral_callerOf|]. intros c. apply neutral_ret. Qed.

Lemma neutral_getRead {A} inodeNumber callerID (m : RWLockStruct -> fsProg I A) :
  (forall lock, neutral (m lock)) ->
  neutral (lock <+ getReadLock volumeName inodeNumber callerID ;; releasing lock (m lock)).
Proof.
  intros Hm held. unfold getReadLock. apply disciplined_bind. apply neutral_then; [apply neutral_init|].
  intros lock. simpl. split; [by left|]. eexists. split; [done|]. by apply neutral_releasing.
Qed.

Lemma neutral_getWrite {A} inodeNumber callerID (m : RWLockStruct -> fsProg I A) :
  (forall lock, neutral (m lock)) ->
  neutral (lock <+ getWriteLock volumeName inodeNumber callerID ;; releasing lock (m lock)).
Proof.
  intros Hm held. unfold getWriteLock. apply disciplined_bind. apply neutral_then; [apply neutral_init|].
  intros lock. simpl. split; [by right|]. eexists. split; [done|]. by apply neutral_releasing.
Qed.

Lemma neutral_withRead {A} inodeNumber (m : RWLockStruct -> fsProg I A) :
  (forall lock, neutral (m lock)) -> neutral (withReadLock volumeName inodeNumber m).
Proof. apply neutral_getRead. Qed.

Lemma neutral_withWrite {A} inodeNumber (m : RWLockStruct -> fsProg I A) :
  (forall lock, neutral (m lock)) -> neutral (withWriteLock volumeName inodeNumber m).
Proof. apply neutral_getWrite. Qed.

Lemma neutral_untrack inodeNumber flushFirst : neutral (untrackInFlightFileInodeData inodeNumber flushFirst).
Proof.
  apply neutral_bind; [apply neutral_vars|]. intros [a|]; [|apply neutral_ret].
  destruct flushFirst; [|apply neutral_ret]. intros held. by exists held.
Qed.

Lemma neutral_track inodeNumber : neutral (trackInFlightFileInodeData inodeNumber).
Proof.
  apply neutral_bind; [apply neutral_vars|]. intros [a|]; [|apply neutral_ret]. intros held. by exists held.
Qed.

Lemma ensureReadLock_acquires inodeNumber callerID :
  acquires shared (ensureReadLock (I := I) volumeName inodeNumber callerID).
Proof.
  intros held. apply neutral_then; [apply neutral_init|]. intros lock. apply neutral_then; [apply neutral_held|].
  intros [|]; [by apply disc_ret|]. split; [by left|]. by apply disc_ret.
Qed.

Lemma ensureWriteLock_acquires inodeNumber callerID :
  acquires exclusive (ensureWriteLock (I := I) volumeName inodeNumber callerID).
Proof.
  intros held. apply neutral_then; [apply neutral_init|]. intros lock. apply neutral_then; [apply neutral_held|].
  intros [|]; [by apply disc_ret|]. apply disc_write. by apply disc_ret.
Qed.

Lemma getWriteLock_then {B} (Q : B -> list heldLock -> Prop) inodeNumber callerID k held :
  (forall lock, disciplined Q ((LockID lock, lk_CallerID lock, exclusive) :: held) (k lock)) ->
  disciplined (I := I) Q held (lock <+ getWriteLock volumeName inodeNumber callerID ;; k lock).
Proof.
  intros Hk. unfold getWriteLock. apply disciplined_bind, neutral_then; [apply neutral_init|]. intros lock.
  split; [by right|]. by apply disc_ret.
Qed.
End Discipline.

Create HintDb fsneutral.
#[export] Hint Resolve neutral_ret neutral_fret neutral_ferr neutral_panic neutral_loop neutral_vol neutral_vars neutral_held neutral_caller
  neutral_callerOf neutral_init neutral_untrack neutral_track : fsneutral.

(** Proves [neutral] of an operation by its structure. *)
Ltac neutral_step :=
  intros;
  first
  [ solve [auto with fsneutral]
  | apply neutral_withRead | apply neutral_withWrite | apply neutral_getRead | apply neutral_getWrite
  | apply neutral_write_then | apply neutral_write | apply neutral_read
  | apply neutral_fbind | apply neutral_bind | apply neutral_for
  | match goal with
    | |- neutral (match ?x with _ => _ end) => destruct x
    | |- neutral (let '_ := ?x in _) => destruct x
    end ].
Ltac neutral_tac := repeat neutral_step.
