(* ===== verification/FsNeutral.v ===== *)
(** Every operation of package [fs] releases the locks it takes.

    [neutral] of each operation of a mount, of the tracker goroutines and of
    the walk of a volume: the lock discipline holds on every path, whatever
    the inode volume and the other goroutines do. *)

From S2P Require Import Prelude Blunder Dlm DlmFacts InodeTypes InodeVolume InodeDir InodeFile.
From S2P Require Import FsProgram FsLocks FsFlock FsPath Fs FsMiddleware FsTreeWalk FsLockFacts.
Open Scope list_scope.

Section Neutral.
Context {I : Type} `{!InodeHandle I} (volumeName : string).

Lemma neutral_access i u g gs m : neutral (I := I) (access i u g gs m).
Proof. apply neutral_vol. Qed.
#[local] Hint Resolve neutral_access : fsneutral.

Lemma neutral_demand i u g gs m e : neutral (I := I) (demand i u g gs m e).
Proof. unfold demand. neutral_tac. Qed.
#[local] Hint Resolve neutral_demand : fsneutral.

Lemma neutral_checkAccess i u g gs m : neutral (I := I) (checkAccess i u g gs m).
Proof. unfold checkAccess. neutral_tac. Qed.

Lemma neutral_demandLock i c : neutral (I := I) (demandLock volumeName i c).
Proof. unfold demandLock. neutral_tac. Qed.

Lemma neutral_baseName s : neutral (I := I) (validateBaseName s).
Proof. unfold validateBaseName. neutral_tac. Qed.

Lemma neutral_fullPath s : neutral (I := I) (validateFullPath s).
Proof. unfold validateFullPath. neutral_tac. Qed.

Lemma neutral_discardInode i e A : neutral (I := I) (discardInode i e (A := A)).
Proof. unfold discardInode. neutral_tac. Qed.

#[local] Hint Resolve neutral_checkAccess neutral_demandLock neutral_baseName neutral_fullPath neutral_discardInode : fsneutral.

Lemma neutral_linkOrDestroy d b i : neutral (I := I) (linkOrDestroy d b i).
Proof. unfold linkOrDestroy. neutral_tac. Qed.

Lemma neutral_getstatHelper i c : neutral (I := I) (getstatHelper volumeName i c).
Proof. unfold getstatHelper. neutral_tac. Qed.

Lemma neutral_getTypeHelper i c : neutral (I := I) (getTypeHelper volumeName i c).
Proof. unfold getTypeHelper. neutral_tac. Qed.
#[local] Hint Resolve neutral_linkOrDestroy neutral_getstatHelper neutral_getTypeHelper : fsneutral.

Lemma neutral_Getstat i : neutral (I := I) (Getstat volumeName i).
Proof. unfold Getstat. neutral_tac. Qed.

Lemma neutral_IsDir i : neutral (I := I) (IsDir volumeName i).
Proof. unfold IsDir. neutral_tac. Qed.
#[local] Hint Resolve neutral_Getstat neutral_IsDir : fsneutral.

Lemma neutral_entryType i e c : neutral (I := I) (entryType volumeName i e c).
Proof. unfold entryType. neutral_tac. Qed.
#[local] Hint Resolve neutral_entryType : fsneutral.

Lemma neutral_fillTypes i c entries : neutral (I := I) (fillTypes volumeName i c entries).
Proof. induction entries; simpl; neutral_tac. Qed.
#[local] Hint Resolve neutral_fillTypes : fsneutral.

Lemma neutral_statEntries entries : neutral (I := I) (statEntries volumeName entries).
Proof. induction entries; simpl; neutral_tac. Qed.
#[local] Hint Resolve neutral_statEntries : fsneutral.

Section Caller.
Context (u g : Z) (gs : list Z).

Lemma neutral_GetXAttr i s : neutral (I := I) (GetXAttr volumeName u g gs i s).
Proof. unfold GetXAttr. neutral_tac. Qed.
#[local] Hint Resolve neutral_GetXAttr : fsneutral.

Lemma neutral_checkFlags i s f : neutral (I := I) (checkFlags volumeName u g gs i s f).
Proof. unfold checkFlags. neutral_tac. Qed.
#[local] Hint Resolve neutral_checkFlags : fsneutral.

Lemma neutral_Readdir i s n b : neutral (I := I) (Readdir volumeName u g gs i s n b).
Proof. unfold Readdir, readdirHelper. neutral_tac. Qed.

Lemma neutral_ReaddirOne i d : neutral (I := I) (ReaddirOne volumeName u g gs i d).
Proof. unfold ReaddirOne, readdirOneHelper. neutral_tac. Qed.
#[local] Hint Resolve neutral_Readdir neutral_ReaddirOne : fsneutral.

Lemma neutral_Lookup d b : neutral (I := I) (Lookup volumeName u g gs d b).
Proof. unfold Lookup. neutral_tac. Qed.

Lemma neutral_lookupSegments segs : forall i, neutral (I := I) (lookupSegments volumeName u g gs i segs).
Proof. induction segs; simpl; neutral_tac. Qed.
#[local] Hint Resolve neutral_lookupSegments : fsneutral.

Lemma neutral_whenSet st k (f : Z -> FS I unit) : (forall v, neutral (f v)) -> neutral (whenSet st k f).
Proof. intros Hf. unfold whenSet. neutral_tac. Qed.

Lemma neutral_demandUint32 o e : neutral (I := I) (demandUint32 o e).
Proof. unfold demandUint32. neutral_tac. Qed.
#[local] Hint Resolve neutral_demandUint32 : fsneutral.

Lemma neutral_Setstat i st : neutral (I := I) (Setstat volumeName u g gs i st).
Proof.
  unfold Setstat. repeat first [progress neutral_tac | intros; apply neutral_whenSet; intros].
Qed.

Lemma neutral_Link d b t : neutral (I := I) (Link volumeName u g gs d b t).
Proof.
  unfold Link. apply neutral_fbind; [auto with fsneutral|intros _].
  apply neutral_bind; [auto with fsneutral|intros c]. apply neutral_bind; [auto with fsneutral|intros dl].
  apply neutral_bind; [auto with fsneutral|intros tl]. neutral_tac.
Qed.

(** [Rename] holds one or two locks and releases them by hand. *)
Lemma neutral_renameRetry fuel sl dl sd sb dd db :
  neutral (I := I) (renameRetry u g gs fuel sl dl sd sb dd db).
Proof.
  induction fuel as [|fuel IH]; cbn [renameRetry]; [apply neutral_loop|]. intros held. cbv zeta.
  apply disc_write, neutral_then; [auto with fsneutral|]. intros [e|_].
  { eapply disc_unlock; [done|]. by apply disc_ret. }
  case_match.
  - apply neutral_then; [apply neutral_vol|]. intros r. eapply disc_unlock; [done|]. by apply disc_ret.
  - apply disc_tryWrite.
    + cbn [Is IsNotSuccess]. apply neutral_then; [auto with fsneutral|]. intros [e|_].
      * eapply disc_unlock; [by rewrite Permutation_swap|]. eapply disc_unlock; [done|]. by apply disc_ret.
      * apply neutral_then; [apply neutral_vol|]. intros r. eapply disc_unlock; [done|].
        eapply disc_unlock; [done|]. by apply disc_ret.
    + change (Is (Some busyError) TryAgainError) with true. eapply disc_unlock; [done|]. apply IH.
Qed.

End Caller.

(** ** Path resolution *)

(** The result of a resolution: with an error nothing more is held, else the
    lock that is returned. *)
Definition resolved (mode : lockState) (held : list heldLock) (r : error + Z * Z * option RWLockStruct) (h : list heldLock) : Prop :=
  match r with
  | inl _ => h = held
  | inr (_, _, lock) => h = optHeld lock mode ++ held
  end.

Section Resolve.
Context (getLock : Z -> option Z -> fsProg I (option RWLockStruct)) (callerID : option Z) (mode : lockState).
Hypothesis getLock_acquires : forall i c, acquires mode (getLock i c).

Lemma disc_failWith {A} (Q : error + A -> list heldLock -> Prop) cursorLock dirLock e held h :
  h ≡ₚ optHeld cursorLock mode ++ optHeld dirLock mode ++ held -> Q (inl e) held ->
  disciplined Q h (failWith (I := I) cursorLock dirLock e).
Proof.
  intros Hp HQ. unfold failWith. eapply disc_unlockIf; [exact Hp|]. eapply disc_unlockIf; [done|]. by apply disc_ret.
Qed.

Lemma resolveLoop_disciplined follows : forall pathSegments dirInodeNumber dirLock held,
  disciplined (resolved mode held) (optHeld dirLock mode ++ held)
    (resolveLoop getLock callerID follows pathSegments dirInodeNumber dirLock).
Proof.
  induction follows as [|follows IHf];
    induction pathSegments as [|segment pathSegments IH]; intros dirInodeNumber dirLock held;
    cbn [resolveLoop]; try (by apply disc_ret).
  all: case_match; [apply IH|]; apply neutral_then; [apply neutral_vol|]; intros [e|cursor];
    [by apply (disc_failWith _ _ _ _ held)|].
  all: eapply acquires_then; [apply getLock_acquires|]; intros cursorLock.
  all: apply neutral_then; [apply neutral_vol|]; intros [e|t]; [by eapply disc_failWith|].
  all: destruct (t =? SymlinkType).
  - by eapply disc_failWith.
  - destruct pathSegments; [eapply disc_unlockIf; [by rewrite Permutation_app_swap_app|by apply disc_ret]|].
    destruct (t =? FileType); [by eapply disc_failWith|].
    eapply disc_unlockIf; [by rewrite Permutation_app_swap_app|apply IH].
  - apply neutral_then; [apply neutral_vol|]. intros r. eapply disc_unlockIf; [done|].
    destruct r as [e|target]; [by apply (disc_failWith _ _ _ _ held)|]. cbv zeta. destruct (HasPrefix target "/"); [|apply IHf].
    eapply disc_unlockIf; [done|]. eapply acquires_then; [apply getLock_acquires|]. intros lock. apply IHf.
  - destruct pathSegments; [eapply disc_unlockIf; [by rewrite Permutation_app_swap_app|by apply disc_ret]|].
    destruct (t =? FileType); [by eapply disc_failWith|].
    eapply disc_unlockIf; [by rewrite Permutation_app_swap_app|apply IH].
Qed.

Lemma resolvePath_then {B} (Q : B -> list heldLock -> Prop) fullpath start k held :
  (forall e, disciplined Q held (k (inl e))) ->
  (forall i t lock, disciplined Q (optHeld lock mode ++ held) (k (inr (i, t, lock)))) ->
  disciplined Q held (pbind (resolvePath getLock callerID fullpath start) k).
Proof.
  intros He Hr. apply disciplined_bind. eapply disciplined_mono; [|].
  2: { unfold resolvePath. eapply acquires_then; [apply getLock_acquires|]. intros lock. apply resolveLoop_disciplined. }
  intros [e|[[i t] lock]] h; simpl; intros ->; [apply He|apply Hr].
Qed.
End Resolve.

(** A resolution whose lock is released when the rest is done. *)
Lemma neutral_mustLock_releasing {A} lock mode (m : RWLockStruct -> FS I A) held :
  (forall l, neutral (m l)) ->
  disciplined (fun _ h => h = held) (optHeld lock mode ++ held) (l <+ mustLock lock ;; releasing l (m l)).
Proof. intros Hm. destruct lock as [l|]; simpl; [by apply neutral_releasing|done]. Qed.

Lemma neutral_resolveForWrite {A} p c (k : Z -> Z -> RWLockStruct -> FS I A) :
  (forall i t l, neutral (k i t l)) ->
  neutral ('(i, t, lock) <! resolvePathForWrite volumeName p c ;; l <+ mustLock lock ;; releasing l (k i t l)).
Proof.
  intros Hk held. unfold resolvePathForWrite, fbind. eapply resolvePath_then; [apply ensureWriteLock_acquires| |].
  - intros e. by apply disc_ret.
  - intros i t lock. by apply neutral_mustLock_releasing.
Qed.

Lemma neutral_resolveForRead {A} p c (k : Z -> Z -> RWLockStruct -> FS I A) :
  (forall i t l, neutral (k i t l)) ->
  neutral ('(i, t, lock) <! resolvePathForRead volumeName p c ;; l <+ mustLock lock ;; releasing l (k i t l)).
Proof.
  intros Hk held. unfold resolvePathForRead, fbind. eapply resolvePath_then; [apply ensureReadLock_acquires| |].
  - intros e. by apply disc_ret.
  - intros i t lock. by apply neutral_mustLock_releasing.
Qed.

(** ** The middleware's operations *)

Lemma neutral_MiddlewareDelete p b : neutral (I := I) (MiddlewareDelete volumeName p b).
Proof. unfold MiddlewareDelete. apply neutral_resolveForWrite. neutral_tac. Qed.

Lemma neutral_streamOrEmpty i : neutral (I := I) (streamOrEmpty i).
Proof. unfold streamOrEmpty. neutral_tac. Qed.
#[local] Hint Resolve neutral_streamOrEmpty : fsneutral.

Lemma neutral_accountEntries es : neutral (I := I) (accountEntries volumeName es).
Proof. induction es; simpl; neutral_tac. Qed.
#[local] Hint Resolve neutral_accountEntries neutral_Readdir neutral_Lookup : fsneutral.

Lemma neutral_getAccountLoop fuel : forall n b acc more, neutral (I := I) (getAccountLoop volumeName fuel n b acc more).
Proof. induction fuel; intros; cbn [getAccountLoop]; neutral_tac. Qed.

Lemma neutral_listEntry marker prefix f e : neutral (I := I) (listEntry volumeName marker prefix f e).
Proof. unfold listEntry. neutral_tac. Qed.
#[local] Hint Resolve neutral_listEntry : fsneutral.

Lemma neutral_recursiveReaddirPlus n marker prefix fuel : forall d i es ds more lb acc,
  neutral (I := I) (recursiveReaddirPlus volumeName n marker prefix fuel d i es ds more lb acc).
Proof.
  induction fuel as [|fuel IH]; intros; cbn [recursiveReaddirPlus]; [apply neutral_loop|].
  match goal with |- neutral (if ?b then _ else _) => destruct b end; [apply neutral_fret|].
  apply neutral_fbind; [neutral_tac|]. intros [[es' more'] lb'].
  match goal with |- neutral (if ?b then _ else _) => destruct b end; [apply IH|].
  revert acc. induction ds as [|dd ds IHd]; intros acc.
  - destruct es' as [|e es']; [apply IH|]. neutral_tac.
  - match goal with |- neutral (if ?b then _ else _) => destruct b end.
    + apply neutral_fbind; [apply IH|]. intros acc'.
      match goal with |- neutral (if ?b then _ else _) => destruct b end; [apply neutral_fret|apply IHd].
    + destruct es' as [|e es']; [apply IH|]. neutral_tac.
Qed.

Lemma neutral_MiddlewareGetContainer n marker prefix fuel c :
  neutral (I := I) (MiddlewareGetContainer volumeName n marker prefix fuel c).
Proof.
  intros held. unfold MiddlewareGetContainer, resolvePathForRead. unfold fbind at 1. eapply resolvePath_then;
    [apply ensureReadLock_acquires| |].
  - intros e. by apply disc_ret.
  - intros i t [lock|]; [|done]. cbv beta iota. unfold mustLock.
    match goal with |- context [pbind (PRet ?x) ?f] => change (pbind (PRet x) f) with (f x) end.
    cbn [optHeld app]. eapply disc_unlock; [done|]. apply neutral_recursiveReaddirPlus.
Qed.

Lemma neutral_rangePlans i rs : forall out, neutral (I := I) (rangePlans i rs out).
Proof. induction rs; intros; cbn [rangePlans]; neutral_tac. Qed.
#[local] Hint Resolve neutral_rangePlans : fsneutral.

Lemma neutral_MiddlewareGetObject p rs out : neutral (I := I) (MiddlewareGetObject volumeName p rs out).
Proof. unfold MiddlewareGetObject. apply neutral_resolveForRead. neutral_tac. Qed.

Lemma neutral_MiddlewareHeadResponse p : neutral (I := I) (MiddlewareHeadResponse volumeName p).
Proof. unfold MiddlewareHeadResponse. apply neutral_resolveForRead. neutral_tac. Qed.

Lemma neutral_MiddlewarePost p b n o : neutral (I := I) (MiddlewarePost volumeName p b n o).
Proof. unfold MiddlewarePost. apply neutral_resolveForWrite. neutral_tac. Qed.

Lemma neutral_removeObstacle c d b o : neutral (I := I) (removeObstacleToObjectPut volumeName c d b o).
Proof. unfold removeObstacleToObjectPut. neutral_tac. Qed.

Lemma neutral_makeDirs ds : forall i b, neutral (I := I) (makeDirs ds i b).
Proof. induction ds; intros; cbn [makeDirs]; neutral_tac. Qed.

Lemma neutral_linkFinal h d b n i f : neutral (I := I) (linkFinal h d b n i f).
Proof. unfold linkFinal. neutral_tac. Qed.
#[local] Hint Resolve neutral_removeObstacle neutral_makeDirs neutral_linkFinal : fsneutral.

Lemma neutral_putUnder (mk : FS I Z) c ds d b : neutral mk -> neutral (putUnder volumeName mk c ds d b).
Proof. intros Hmk. unfold putUnder. neutral_tac. Qed.

(** The search for the lowest directory ends with that directory's lock. *)
Lemma findDirs_disciplined c fuel : forall dirs d lock held,
  disciplined (fun r h => match r with
                          | inl _ => h = held
                          | inr (_, _, l) => h = (LockID l, lk_CallerID l, exclusive) :: held
                          end)
    ((LockID lock, lk_CallerID lock, exclusive) :: held) (findDirs (I := I) volumeName c fuel dirs d lock).
Proof.
  induction fuel as [|fuel IH]; intros dirs d lock held; cbn [findDirs]; [done|].
  destruct dirs as [|dir dirs]; [by apply disc_ret|]. case_match; [apply IH|].
  apply neutral_then; [apply neutral_vol|]. intros [e|i]; [case_match; [by apply disc_ret|apply IH]|].
  apply getWriteLock_then. intros l2. apply neutral_then; [apply neutral_vol|].
  assert (Hboth : forall e, disciplined (I := I) (fun (r : error + list string * Z * RWLockStruct) h => match r with
                          | inl _ => h = held
                          | inr (_, _, l) => h = (LockID l, lk_CallerID l, exclusive) :: held
                          end)
     ((LockID l2, lk_CallerID l2, exclusive) :: (LockID lock, lk_CallerID lock, exclusive) :: held)
     (lockUnlock lock ;;+ lockUnlock l2 ;;+ ferr e)).
  { intros e. eapply disc_unlock; [by rewrite Permutation_swap|]. eapply disc_unlock; [done|]. by apply disc_ret. }
  intros [e|t]; [apply Hboth|]. destruct (t =? FileType); [apply Hboth|].
  destruct (t =? SymlinkType).
  - apply neutral_then; [apply neutral_vol|]. intros r. eapply disc_unlock; [done|].
    destruct r as [e|target]; [eapply disc_unlock; [done|]; by apply disc_ret|].
    cbv zeta. case_match; [|apply IH]. eapply disc_unlock; [done|]. apply getWriteLock_then. intros l3. apply IH.
  - eapply disc_unlock; [by rewrite Permutation_swap|]. apply IH.
Qed.

Lemma neutral_putObjectHelper fuel c p (mk : FS I Z) : neutral mk -> neutral (putObjectHelper volumeName fuel c p mk).
Proof.
  intros Hmk. unfold putObjectHelper. apply neutral_fbind; [auto with fsneutral|]. intros d.
  destruct (revSplitPath p) as [|b dirs]; [apply neutral_panic|]. intros held.
  apply neutral_then; [auto with fsneutral|]. intros cid. apply getWriteLock_then. intros lock.
  unfold fbind at 1. apply disciplined_bind. eapply disciplined_mono; [|apply findDirs_disciplined].
  intros [e|[[ds d'] l]] h Hh; cbn beta iota in Hh; subst h; [by apply disc_ret|].
  by apply neutral_releasing, neutral_putUnder.
Qed.

Lemma neutral_wroteAll ps : forall i off f ls, neutral (I := I) (wroteAll i off f ps ls).
Proof. induction ps; intros i off f [|l ls]; cbn [wroteAll]; neutral_tac. Qed.
#[local] Hint Resolve neutral_wroteAll : fsneutral.

Lemma neutral_MiddlewarePutComplete fuel c p ps ls m :
  neutral (I := I) (MiddlewarePutComplete volumeName fuel c p ps ls m).
Proof. apply neutral_putObjectHelper. unfold reifyTheFile. neutral_tac. Qed.

Lemma neutral_MiddlewareMkdir fuel c p m : neutral (I := I) (MiddlewareMkdir volumeName fuel c p m).
Proof. apply neutral_putObjectHelper. unfold createTheDirectory. neutral_tac. Qed.

Lemma neutral_MiddlewarePutContainer c o n : neutral (I := I) (MiddlewarePutContainer volumeName c o n).
Proof. unfold MiddlewarePutContainer. neutral_tac. Qed.

Section Coalesce.
Context (c : Z).

Definition heldOf (locks : list RWLockStruct) : list heldLock :=
  map (fun l => (LockID l, lk_CallerID l, exclusive)) locks.

Lemma heldOf_optLock lock locks : heldOf (locks ++ optLock lock) = heldOf locks ++ optHeld lock exclusive.
Proof. unfold heldOf. rewrite map_app. by destruct lock. Qed.

Lemma walkDest_disciplined comps : forall cursor lock held,
  disciplined (fun r h => h = optHeld r.2 exclusive ++ held) (optHeld lock exclusive ++ held)
    (walkDest (I := I) volumeName c comps cursor lock).
Proof.
  induction comps as [|comp comps IH]; intros cursor lock held; cbn [walkDest]; [by apply disc_ret|].
  apply neutral_then; [apply neutral_vol|]. intros [e|n]; [case_match; by apply disc_ret|].
  eapply resolvePath_then; [apply ensureWriteLock_acquires|intros e; by apply disc_ret|].
  intros i t l2. cbn beta iota. case_match.
  - eapply disc_unlockIf; [done|]. by apply disc_ret.
  - eapply disc_unlockIf; [by rewrite Permutation_app_swap_app|]. apply IH.
Qed.

Lemma makeDest_disciplined comps : forall cursor lock held,
  disciplined (fun r h => h = optHeld r.2 exclusive ++ held) (optHeld lock exclusive ++ held)
    (makeDest (I := I) volumeName c comps cursor lock).
Proof.
  induction comps as [|comp comps IH]; intros cursor lock held; cbn [makeDest]; [by apply disc_ret|].
  apply neutral_then; [apply neutral_vol|]. intros [e|n]; [by apply disc_ret|].
  apply neutral_then; [apply neutral_vol|]. intros [e|u].
  - apply neutral_then; [apply neutral_vol|]. intros r. by apply disc_ret.
  - eapply disc_unlockIf; [done|]. eapply acquires_then; [apply ensureWriteLock_acquires|]. intros l2. apply IH.
Qed.

Lemma lockElement_disciplined entry locks held :
  disciplined (fun r h => h ≡ₚ heldOf r.2 ++ held) (heldOf locks ++ held) (lockElement (I := I) volumeName c entry locks).
Proof.
  unfold lockElement, resolvePathForWrite. eapply resolvePath_then; [apply ensureWriteLock_acquires|intros e; by apply disc_ret|].
  intros i t l2. cbn beta iota.
  assert (Hp : forall ls l, heldOf (ls ++ optLock l) ++ held ≡ₚ optHeld l exclusive ++ heldOf ls ++ held).
  { intros ls l. rewrite heldOf_optLock, (Permutation_app_comm (heldOf ls)). by rewrite app_assoc. }
  case_match; [apply disc_ret; cbn [snd]; by rewrite Hp|].
  apply neutral_then; [apply neutral_vol|]. intros [e|f]; [apply disc_ret; cbn [snd]; by rewrite Hp|].
  eapply acquires_then; [apply ensureWriteLock_acquires|]. intros l3.
  apply neutral_then; [apply neutral_vol|]. intros [e|md]; [|case_match].
  all: apply disc_ret; cbn [snd]; by rewrite !Hp.
Qed.

Lemma lockElements_disciplined entries : forall acc locks held,
  disciplined (fun r h => h ≡ₚ heldOf r.2 ++ held) (heldOf locks ++ held)
    (lockElements (I := I) volumeName c entries acc locks).
Proof.
  induction entries as [|entry entries IH]; intros acc locks held; cbn [lockElements]; [by apply disc_ret|].
  apply disciplined_bind. eapply disciplined_mono; [|apply lockElement_disciplined].
  intros [[e|el] locks'] h Hh; cbn in Hh.
  - by apply disc_ret.
  - eapply disciplined_perm; [symmetry; exact Hh|]. apply IH.
Qed.

Lemma coalesceLocked_disciplined els dd df lock held :
  disciplined (fun r h => h ≡ₚ optHeld r.1.2 exclusive ++ heldOf r.2 ++ held)
    ((LockID lock, lk_CallerID lock, exclusive) :: held) (coalesceLocked (I := I) volumeName c els dd df lock).
Proof.
  unfold coalesceLocked. apply disciplined_bind. eapply disciplined_mono;
    [|apply (walkDest_disciplined _ _ None)]. intros [[e|[comps i]] cl] h Hh; cbn in Hh; subst h; [by apply disc_ret|].
  apply disciplined_bind. eapply disciplined_mono; [|apply makeDest_disciplined].
  intros [[e|i2] cl2] h Hh; cbn in Hh; subst h; [by apply disc_ret|].
  apply disciplined_bind. eapply disciplined_perm.
  { change ((LockID lock, lk_CallerID lock, exclusive) :: held) with (heldOf [lock] ++ held). by rewrite Permutation_app_swap_app. }
  eapply disciplined_mono; [|apply lockElements_disciplined].
  intros [[e|els'] locks] h Hh; cbn in Hh.
  - apply disc_ret. by rewrite Hh, Permutation_app_swap_app.
  - apply neutral_then; [apply neutral_vol|]. intros [e|[[di mt] nw]]; apply disc_ret; by rewrite Hh, Permutation_app_swap_app.
Qed.

Lemma unlockAll_then {A} (Q : A -> list heldLock -> Prop) locks (k : fsProg I A) held :
  disciplined Q held k -> disciplined Q (heldOf locks ++ held) (pfor locks lockUnlock ;;+ k).
Proof.
  intros Hk. induction locks as [|l locks IH]; [exact Hk|]. cbn [pfor].
  exists exclusive, (heldOf locks ++ held). split; [done|]. exact IH.
Qed.
End Coalesce.

Lemma neutral_MiddlewareCoalesce d es : neutral (I := I) (MiddlewareCoalesce volumeName d es).
Proof.
  unfold MiddlewareCoalesce. destruct (mapM dirAndFile es) as [els|]; [|apply neutral_ferr].
  destruct (dirAndFile d) as [[dd df]|]; [|apply neutral_ferr]. intros held.
  apply neutral_then; [auto with fsneutral|]. intros c. apply getWriteLock_then. intros lock.
  apply disciplined_bind. eapply disciplined_mono; [|apply coalesceLocked_disciplined].
  intros [[r cl] locks] h Hh; cbn in Hh. eapply disc_unlockIf; [exact Hh|]. apply unlockAll_then. by apply disc_ret.
Qed.

(** ** The walk of a volume, and the goroutines that flush *)

Lemma neutral_relabel A (m : FS I A) : neutral m -> neutral (relabel m).
Proof. intros Hm. unfold relabel. neutral_tac. Qed.

Lemma neutral_validateDirInode stop fuel : forall i t, neutral (I := I) (validateDirInode stop fuel i t).
Proof.
  induction fuel as [|fuel IH]; intros i t; cbn [validateDirInode]; [apply neutral_loop|].
  apply neutral_fbind; [apply neutral_relabel, neutral_vol|intros _].
  apply neutral_fbind; [apply neutral_relabel, neutral_vol|intros [es more]].
  revert t. induction es as [|e es IHes]; intros t; [apply neutral_fret|].
  destruct (stop (polls t)); [apply neutral_fret|]. cbv zeta. destruct (_ || _); [apply IHes|].
  apply neutral_fbind; [apply neutral_relabel, neutral_vol|intros ty]. destruct (DirType =? ty).
  - apply neutral_fbind; [apply IH|]. intros [[|] t']; [apply neutral_fret|apply IHes].
  - apply neutral_fbind; [apply neutral_relabel, neutral_vol|intros _]. apply IHes.
Qed.

Lemma neutral_fixLinkCounts stop cs : forall p n, neutral (I := I) (fixLinkCounts stop cs p n).
Proof.
  induction cs as [|[i r] cs IH]; intros p n; cbn [fixLinkCounts]; [apply neutral_fret|].
  destruct (stop p); [apply neutral_fret|]. apply neutral_fbind; [apply neutral_relabel, neutral_vol|intros k].
  case_match; [|apply IH]. apply neutral_fbind; [apply neutral_relabel, neutral_vol|intros _]. apply IH.
Qed.

Lemma neutral_validateVolume stop fuel : neutral (I := I) (validateVolume stop fuel).
Proof.
  unfold validateVolume. apply neutral_fbind; [apply neutral_vol|intros _].
  apply neutral_fbind; [apply neutral_validateDirInode|intros [[|] t]]; [apply neutral_fret|].
  apply neutral_fbind; [apply neutral_fixLinkCounts|intros [n|]]; neutral_tac.
Qed.

Lemma neutral_flusher i : neutral (I := I) (inFlightFileInodeDataFlusher volumeName i).
Proof.
  intros held. unfold inFlightFileInodeDataFlusher. apply neutral_then; [auto with fsneutral|]. intros lock.
  apply disc_write, neutral_then; [apply neutral_access|]. intros ok.
  apply neutral_then; [neutral_tac|]. intros _. eexists _, _. split; [done|]. by apply disc_ret.
Qed.

Lemma neutral_tracker a : neutral (I := I) (inFlightFileInodeDataTracker volumeName a).
Proof.
  intros held b. revert held. apply neutral_bind; [apply neutral_vars|]. intros i. pose proof (neutral_flusher i).
  neutral_tac.
Qed.

Lemma neutral_starvation : neutral (I := I) (chunkedPutConnectionPoolStarvationCallback volumeName).
Proof.
  unfold chunkedPutConnectionPoolStarvationCallback. apply neutral_bind; [apply neutral_vars|].
  intros [i|]; [apply neutral_flusher|apply neutral_ret].
Qed.

Lemma neutral_untrackAll : neutral (I := I) untrackInFlightFileInodeDataAll.
Proof. unfold untrackInFlightFileInodeDataAll. neutral_tac. Qed.
End Neutral.

#[export] Hint Resolve neutral_access neutral_demand neutral_checkAccess neutral_demandLock neutral_baseName neutral_fullPath
  neutral_discardInode neutral_linkOrDestroy neutral_getstatHelper neutral_getTypeHelper neutral_Getstat neutral_IsDir
  neutral_GetXAttr neutral_checkFlags neutral_Readdir neutral_ReaddirOne neutral_statEntries neutral_lookupSegments
  neutral_renameRetry neutral_Setstat neutral_Link neutral_Lookup neutral_MiddlewareDelete neutral_getAccountLoop
  neutral_MiddlewareGetContainer neutral_MiddlewareGetObject neutral_MiddlewareHeadResponse neutral_MiddlewarePost
  neutral_MiddlewarePutComplete neutral_MiddlewareMkdir neutral_MiddlewarePutContainer neutral_MiddlewareCoalesce
  neutral_validateVolume neutral_untrackAll neutral_starvation : fsneutral.

(** Proves [neutral] of a call of a mount. *)
Ltac neutral_call :=
  solve [auto with fsneutral |
         (unfold Access, CallInodeToProvisionObject, Create, Flush, Flock, GetType, IsFile, IsSymlink, ListXAttr,
            LookupPath, Mkdir, RemoveXAttr, Rename, Read, ReaddirPlus, ReaddirOnePlus, Readsymlink, Resize, Rmdir,
            SetXAttr, StatVfs, Symlink, Unlink, Write, MiddlewareGetAccount; neutral_tac)].
