(* ===== verification/FsClients.v ===== *)
(** Goroutines of package [fs] as clients of the lock manager.

    Any number of operations run at the same time, with the tracker
    goroutines they start.  Every reachable state of such a system is a
    reachable world of [Dlm] in which the goroutines are the holders and the
    waiters ([sreach_clients]); so exclusive locks exclude, no release
    panics, and no lock is left behind. *)

From S2P Require Import Prelude Blunder Dlm DlmFacts InodeTypes InodeVolume InodeDir InodeFile.
From S2P Require Import FsProgram FsLocks FsFlock Fs FsPath FsMiddleware FsTreeWalk FsLockFacts FsNeutral.
Open Scope list_scope.

(** The calls a mount serves, and the starvation callback of the Swift
    client. *)
Record caller := mkCaller { cl_userID : Z; cl_groupID : Z; cl_otherGroupIDs : list Z }.

Inductive fsCall :=
| CAccess (w : caller) (inodeNumber accessMode : Z)
| CProvisionObject
| CCreate (w : caller) (dirInodeNumber : Z) (basename : string) (filePerm : Z)
| CFlush (w : caller) (inodeNumber : Z)
| CFlock (w : caller) (inodeNumber lockCmd : Z) (inFlock : FlockStruct)
| CGetstat (inodeNumber : Z)
| CGetType (inodeNumber : Z)
| CGetXAttr (w : caller) (inodeNumber : Z) (streamName : string)
| CIsDir (inodeNumber : Z)
| CIsFile (inodeNumber : Z)
| CIsSymlink (inodeNumber : Z)
| CLink (w : caller) (dirInodeNumber : Z) (basename : string) (targetInodeNumber : Z)
| CListXAttr (w : caller) (inodeNumber : Z)
| CLookup (w : caller) (dirInodeNumber : Z) (basename : string)
| CLookupPath (w : caller) (fullpath : string)
| CMkdir (w : caller) (inodeNumber : Z) (basename : string) (filePerm : Z)
| CRemoveXAttr (w : caller) (inodeNumber : Z) (streamName : string)
| CRename (w : caller) (fuel : nat) (srcDir : Z) (srcBasename : string) (dstDir : Z) (dstBasename : string)
| CRead (w : caller) (inodeNumber offset length_ : Z)
| CReaddir (w : caller) (inodeNumber : Z) (prev : string) (maxEntries maxBufSize : Z)
| CReaddirOne (w : caller) (inodeNumber prevDirLocation : Z)
| CReaddirPlus (w : caller) (inodeNumber : Z) (prev : string) (maxEntries maxBufSize : Z)
| CReaddirOnePlus (w : caller) (inodeNumber prevDirLocation : Z)
| CReadsymlink (w : caller) (inodeNumber : Z)
| CResize (w : caller) (inodeNumber newSize : Z)
| CRmdir (w : caller) (inodeNumber : Z) (basename : string)
| CSetstat (w : caller) (inodeNumber : Z) (stat : Stat)
| CSetXAttr (w : caller) (inodeNumber : Z) (streamName : string) (value : bytes) (flags : Z)
| CStatVfs
| CSymlink (w : caller) (inodeNumber : Z) (basename target : string)
| CUnlink (w : caller) (inodeNumber : Z) (basename : string)
| CWrite (w : caller) (inodeNumber offset : Z) (buf : bytes)
| CMiddlewareCoalesce (destPath : string) (elementPaths : list string)
| CMiddlewareDelete (parentDir baseName : string)
| CMiddlewareGetAccount (fuel : nat) (maxEntries : Z) (marker : string)
| CMiddlewareGetContainer (fuel : nat) (vContainerName : string) (maxEntries : Z) (marker prefix : string)
| CMiddlewareGetObject (path : string) (readRangeIn : list ReadRangeIn)
| CMiddlewareHeadResponse (entityPath : string)
| CMiddlewarePost (parentDir baseName : string) (newMetaData oldMetaData : bytes)
| CMiddlewarePutComplete (fuel : nat) (vContainerName vObjectPath : string) (pObjectPaths : list string)
    (pObjectLengths : list Z) (pObjectMetadata : bytes)
| CMiddlewareMkdir (fuel : nat) (vContainerName vObjectPath : string) (metadata : bytes)
| CMiddlewarePutContainer (containerName : string) (oldMetadata newMetadata : bytes)
| CValidateVolume (stop : nat -> bool) (fuel : nat)
| CUntrackAll
| CStarvation.

Section Clients.
Context {I : Type} `{!InodeHandle I} (volumeName : string).

Definition quietly {A} (p : fsProg I A) : fsProg I unit := _ <+ p ;; PRet tt.

Definition runFsCall (c : fsCall) : fsProg I unit :=
  match c with
  | CAccess (mkCaller u g gs) i m => quietly (Access u g gs i m)
  | CProvisionObject => quietly CallInodeToProvisionObject
  | CCreate (mkCaller u g gs) d b p => quietly (Create volumeName u g gs d b p)
  | CFlush (mkCaller u g gs) i => quietly (Flush volumeName u g gs i)
  | CFlock (mkCaller u g gs) i c f => quietly (Flock volumeName u g gs i c f)
  | CGetstat i => quietly (Getstat volumeName i)
  | CGetType i => quietly (GetType volumeName i)
  | CGetXAttr (mkCaller u g gs) i s => quietly (GetXAttr volumeName u g gs i s)
  | CIsDir i => quietly (IsDir volumeName i)
  | CIsFile i => quietly (IsFile volumeName i)
  | CIsSymlink i => quietly (IsSymlink volumeName i)
  | CLink (mkCaller u g gs) d b t => quietly (Link volumeName u g gs d b t)
  | CListXAttr (mkCaller u g gs) i => quietly (ListXAttr volumeName u g gs i)
  | CLookup (mkCaller u g gs) d b => quietly (Lookup volumeName u g gs d b)
  | CLookupPath (mkCaller u g gs) p => quietly (LookupPath volumeName u g gs p)
  | CMkdir (mkCaller u g gs) i b p => quietly (Mkdir volumeName u g gs i b p)
  | CRemoveXAttr (mkCaller u g gs) i s => quietly (RemoveXAttr volumeName u g gs i s)
  | CRename (mkCaller u g gs) n sd sb dd db => quietly (Rename volumeName u g gs n sd sb dd db)
  | CRead (mkCaller u g gs) i o l => quietly (Read volumeName u g gs i o l)
  | CReaddir (mkCaller u g gs) i p n b => quietly (Readdir volumeName u g gs i p n b)
  | CReaddirOne (mkCaller u g gs) i d => quietly (ReaddirOne volumeName u g gs i d)
  | CReaddirPlus (mkCaller u g gs) i p n b => quietly (ReaddirPlus volumeName u g gs i p n b)
  | CReaddirOnePlus (mkCaller u g gs) i d => quietly (ReaddirOnePlus volumeName u g gs i d)
  | CReadsymlink (mkCaller u g gs) i => quietly (Readsymlink volumeName u g gs i)
  | CResize (mkCaller u g gs) i n => quietly (Resize volumeName u g gs i n)
  | CRmdir (mkCaller u g gs) i b => quietly (Rmdir volumeName u g gs i b)
  | CSetstat (mkCaller u g gs) i st => quietly (Setstat volumeName u g gs i st)
  | CSetXAttr (mkCaller u g gs) i s v f => quietly (SetXAttr volumeName u g gs i s v f)
  | CStatVfs => quietly StatVfs
  | CSymlink (mkCaller u g gs) i b t => quietly (Symlink volumeName u g gs i b t)
  | CUnlink (mkCaller u g gs) i b => quietly (Unlink volumeName u g gs i b)
  | CWrite (mkCaller u g gs) i o buf => quietly (Write volumeName u g gs i o buf)
  | CMiddlewareCoalesce d es => quietly (MiddlewareCoalesce volumeName d es)
  | CMiddlewareDelete p b => quietly (MiddlewareDelete volumeName p b)
  | CMiddlewareGetAccount n m k => quietly (MiddlewareGetAccount volumeName n m k)
  | CMiddlewareGetContainer n c m k p => quietly (MiddlewareGetContainer volumeName m k p n c)
  | CMiddlewareGetObject p rs => quietly (MiddlewareGetObject volumeName p rs [])
  | CMiddlewareHeadResponse p => quietly (MiddlewareHeadResponse volumeName p)
  | CMiddlewarePost p b n o => quietly (MiddlewarePost volumeName p b n o)
  | CMiddlewarePutComplete n c p ps ls m => quietly (MiddlewarePutComplete volumeName n c p ps ls m)
  | CMiddlewareMkdir n c p m => quietly (MiddlewareMkdir volumeName n c p m)
  | CMiddlewarePutContainer c o n => quietly (MiddlewarePutContainer volumeName c o n)
  | CValidateVolume stop n => quietly (validateVolume stop n)
  | CUntrackAll => quietly untrackInFlightFileInodeDataAll
  | CStarvation => quietly (chunkedPutConnectionPoolStarvationCallback volumeName)
  end.

Lemma neutral_quietly {A} (p : fsProg I A) : neutral p -> neutral (quietly p).
Proof. intros Hp. apply neutral_bind; [done|]. intros _. apply neutral_ret. Qed.

Lemma runFsCall_neutral c : neutral (runFsCall c).
Proof.
  destruct c; try match goal with w : caller |- _ => destruct w end; cbn [runFsCall]; apply neutral_quietly; neutral_call.
Qed.

(** ** Systems *)

Abbreviation tracker := (inFlightFileInodeDataTracker volumeName).

(** Fewer than 2^64 requests on a lock at a time: its counters have room. *)
Definition roomy (s : fsState I) : Prop :=
  forall l t, fsLocks s !! l = Some t -> owners t + waiters t + 1 < two64.

(** Calls arrive at any time; the goroutines run in any order. *)
Inductive sreach : system (I := I) -> Prop :=
| sreach_start s : fsLocks s = ∅ -> sreach (s, [])
| sreach_call s ts c : sreach (s, ts) -> sreach (s, ts ++ [Running (runFsCall c)])
| sreach_step sys sys' choice : sreach sys -> roomy sys.1 -> stepSystem tracker sys choice = Some sys' -> sreach sys'.

(** A goroutine that holds the locks [h] and follows the discipline. *)
Definition follows (h : list heldLock) (t : thread I) : Prop :=
  match t with
  | Running p => disciplined (fun _ h => h = []) h p
  | Waiting l _ c m k => grantable m /\ disciplined (fun _ h => h = []) ((l, c, m) :: h) k
  end.

(** What the lists of the goroutines' locks and the goroutines that wait say
    about a lock. *)
Definition holdsOn (l : string) (h : list heldLock) : list (Z * lockState) :=
  omap (fun x => if decide (x.1.1 = l) then Some (x.1.2, x.2) else None) h.

Definition waitsOn (l : string) (t : thread I) : list (Z * localLockRequest) :=
  match t with
  | Waiting l' id c m _ => if decide (l' = l) then [(id, mkRequest m false c)] else []
  | Running _ => []
  end.

Record clients (w : world) (s : fsState I) (ts : list (thread I)) (hs : list (list heldLock)) : Prop := {
  cl_reach : dreachable w;
  cl_locks : locks w = fsLocks s;
  cl_follow : Forall2 follows hs ts;
  cl_holders : forall l, holdersOf w l ≡ₚ concat (map (holdsOn l) hs);
  cl_pending : forall l, pendingOf w l ≡ₚ concat (map (waitsOn l) ts)
}.

Lemma holdsOn_perm l h h' : h ≡ₚ h' -> holdsOn l h ≡ₚ holdsOn l h'.
Proof. intros Hp. unfold holdsOn. by rewrite Hp. Qed.

#[local] Instance holdsOn_proper l : Proper (Permutation ==> Permutation) (holdsOn l).
Proof. intros h h'. apply holdsOn_perm. Qed.

Lemma holdsOn_cons l c m h k : holdsOn k ((l, c, m) :: h) = (if decide (l = k) then [(c, m)] else []) ++ holdsOn k h.
Proof. unfold holdsOn. cbn [omap list_omap fst snd]. by destruct (decide (l = k)). Qed.

(** Replacing one element of a list that is flattened. *)
Lemma roomy_roomFor w (s : fsState I) l : dreachable w -> locks w = fsLocks s -> roomy s -> roomFor w l.
Proof.
  intros Hw HL Hr. pose proof (dreachable_dinv w Hw) as Hd. unfold roomFor.
  destruct (locks w !! l) as [t|] eqn:Ht.
  - pose proof (dinv_counts w l t Hd Ht). rewrite HL in Ht. specialize (Hr l t Ht). lia.
  - apply (dinv_no_leak w l Hd) in Ht as [-> ->]. done.
Qed.

(** What a step of a goroutine means for the lock manager: a world that
    follows, in which the goroutine holds [h'] instead of [h]. *)
Record thread_steps (w : world) (s' : fsState I) (h : list heldLock) (t t' : thread I) (w' : world) (h' : list heldLock) : Prop := {
  ts_reach : dreachable w';
  ts_locks : locks w' = fsLocks s';
  ts_follow : follows h' t';
  ts_holders : forall l R, holdersOf w l ≡ₚ holdsOn l h ++ R -> holdersOf w' l ≡ₚ holdsOn l h' ++ R;
  ts_pending : forall l R, pendingOf w l ≡ₚ waitsOn l t ++ R -> pendingOf w' l ≡ₚ waitsOn l t' ++ R
}.

(** Steps that do not touch the locks. *)
Lemma quiet_steps w (s s' : fsState I) h (p q : fsProg I unit) :
  dreachable w -> locks w = fsLocks s -> fsLocks s' = fsLocks s -> follows h (Running q) ->
  thread_steps w s' h (Running p) (Running q) w h.
Proof. intros Hw HL HL' Hf. split; auto; congruence. Qed.

Lemma acquired_steps w (s : fsState I) h l c m try g k p :
  dreachable w -> locks w = fsLocks s -> roomy s -> grantable m -> lockEnter (fsLocks s) l c m try = (g, Acquired) ->
  follows ((l, c, m) :: h) (Running k) ->
  exists w', thread_steps w (s <| fsLocks := g |>) h (Running p) (Running k) w' ((l, c, m) :: h).
Proof.
  intros Hw HL Hr Hm HE Hf. rewrite <- HL in HE.
  exists (mkWorld g (<[l := (c, m) :: holdersOf w l]> (holders w)) (pending w)).
  split; [| done | done | | done].
  - eapply dreach_step; [exact Hw|]. eapply StepAcquire; [exact Hm | by eapply roomy_roomFor | exact HE].
  - intros k' R HR. rewrite holdsOn_cons. unfold holdersOf at 1. simpl. destruct (decide (l = k')) as [->|Hn].
    + rewrite lookup_insert_eq. simpl. by rewrite HR.
    + rewrite lookup_insert_ne by done. exact HR.
Qed.

Lemma blocked_steps w (s : fsState I) h l c m try g id k p :
  dreachable w -> locks w = fsLocks s -> roomy s -> grantable m -> lockEnter (fsLocks s) l c m try = (g, Blocked id) ->
  disciplined (fun _ h => h = []) ((l, c, m) :: h) k ->
  exists w', thread_steps w (s <| fsLocks := g |>) h (Running p) (Waiting l id c m k) w' h.
Proof.
  intros Hw HL Hr Hm HE Hf. rewrite <- HL in HE.
  exists (mkWorld g (holders w) (<[l := (id, mkRequest m false c) :: pendingOf w l]> (pending w))).
  split; [| done | done | done |].
  - eapply dreach_step; [exact Hw|]. eapply StepBlock; [exact Hm | by eapply roomy_roomFor | exact HE].
  - intros k' R HR. simpl in HR |- *. unfold pendingOf at 1. simpl. destruct (decide (l = k')) as [->|Hn].
    + rewrite lookup_insert_eq. simpl. by rewrite HR.
    + rewrite lookup_insert_ne by done. exact HR.
Qed.

Lemma busy_steps w (s : fsState I) h l c m g e k p :
  dreachable w -> locks w = fsLocks s -> grantable m -> lockEnter (fsLocks s) l c m true = (g, Busy e) ->
  follows h (Running k) ->
  exists w', thread_steps w (s <| fsLocks := g |>) h (Running p) (Running k) w' h.
Proof.
  intros Hw HL Hm HE Hf. rewrite <- HL in HE. exists (mkWorld g (holders w) (pending w)). split; [|done..].
  eapply dreach_step; [exact Hw|]. by eapply StepBusy.
Qed.

(** A goroutine releases a lock it holds: the release succeeds. *)
Lemma unlock_steps w (s : fsState I) h l c m h' k p R :
  dreachable w -> locks w = fsLocks s -> h ≡ₚ (l, c, m) :: h' -> holdersOf w l ≡ₚ holdsOn l h ++ R ->
  disciplined (fun _ h => h = []) h' k ->
  exists g w', unlock (fsLocks s) l c = Some g /\
    thread_steps w (s <| fsLocks := g |>) h (Running p) (Running k) w' h'.
Proof.
  intros Hw HL Hh HR Hf.
  assert (Hin : (c, m) ∈ holdersOf w l).
  { rewrite HR, (holdsOn_perm l _ _ Hh), holdsOn_cons, decide_True by done. by apply elem_of_cons; left. }
  apply list_elem_of_split in Hin as (h1 & h2 & HH).
  destruct (unlock_ok _ _ _ _ _ _ _ _ (dreachable_dinv w Hw l) HH) as (g & E & _).
  exists g, (mkWorld g (<[l := h1 ++ h2]> (holders w)) (pending w)). rewrite <- HL. split; [exact E|].
  split; [| done | done | | done].
  - eapply dreach_step; [exact Hw|]. by eapply StepUnlock.
  - intros k' R' HR'. unfold holdersOf at 1. simpl.
    rewrite (holdsOn_perm k' _ _ Hh), holdsOn_cons in HR'. destruct (decide (l = k')) as [<-|Hn].
    + rewrite lookup_insert_eq. simpl. rewrite HH in HR'. rewrite <- Permutation_middle in HR'.
      simpl in HR'. by apply Permutation_cons_inv in HR'.
    + rewrite lookup_insert_ne by done. exact HR'.
Qed.

Lemma wake_steps w (s : fsState I) h l id c m g k R :
  dreachable w -> locks w = fsLocks s -> lockWake (fsLocks s) l id = Some g ->
  pendingOf w l ≡ₚ (id, mkRequest m false c) :: R ->
  disciplined (fun _ h => h = []) ((l, c, m) :: h) k ->
  exists w', thread_steps w (s <| fsLocks := g |>) h (Waiting l id c m k) (Running k) w' ((l, c, m) :: h).
Proof.
  intros Hw HL HE HR Hf. rewrite <- HL in HE.
  assert (Hin : (id, mkRequest m false c) ∈ pendingOf w l) by (rewrite HR; by apply elem_of_cons; left).
  apply list_elem_of_split in Hin as (p1 & p2 & HP).
  exists (mkWorld g (<[l := (c, m) :: holdersOf w l]> (holders w)) (<[l := p1 ++ p2]> (pending w))).
  split; [| done | done | |].
  - eapply dreach_step; [exact Hw|]. by eapply StepWake.
  - intros k' R' HR'. rewrite holdsOn_cons. unfold holdersOf at 1. simpl. destruct (decide (l = k')) as [->|Hn].
    + rewrite lookup_insert_eq. simpl. by rewrite HR'.
    + rewrite lookup_insert_ne by done. exact HR'.
  - intros k' R' HR'. simpl in HR' |- *. unfold pendingOf at 1. simpl. destruct (decide (l = k')) as [<-|Hn].
    + rewrite lookup_insert_eq. simpl. rewrite HP, <- Permutation_middle in HR'. by apply Permutation_cons_inv in HR'.
    + rewrite lookup_insert_ne by done. exact HR'.
Qed.

Definition fresh (t : thread I) : Prop := follows [] t /\ forall l, waitsOn l t = [].

Lemma fresh_neutral p : neutral p -> fresh (Running p).
Proof. intros Hp. split; [apply Hp|done]. Qed.

Lemma thread_step w (s : fsState I) t h b s' t' new :
  dreachable w -> locks w = fsLocks s -> roomy s -> follows h t ->
  (forall l, exists R, holdersOf w l ≡ₚ holdsOn l h ++ R) ->
  (forall l, exists R, pendingOf w l ≡ₚ waitsOn l t ++ R) ->
  stepThread tracker b s t = Some (s', t', new) ->
  (exists w' h', thread_steps w s' h t t' w' h') /\ Forall fresh new.
Proof.
  intros Hw HL Hr Hf HH HP HE. destruct t as [p|l id c m k]; simpl in HE.
  2: { destruct Hf as [Hm Hf]. destruct (lockWake (fsLocks s) l id) as [g|] eqn:E; [|done]. injection HE as <- <- <-.
       destruct (HP l) as [R HR]. simpl in HR. rewrite decide_True in HR by done.
       destruct (wake_steps w s h l id c m g k R Hw HL E HR Hf) as [w' Hs]. split; [by exists w', ((l, c, m) :: h)|done]. }
  assert (Hq : forall s2 q, fsLocks s2 = fsLocks s -> follows h (Running q) ->
    exists w' h', thread_steps w s2 h (Running p) (Running q) w' h').
  { intros s2 q Hs2 Hfq. exists w, h. by apply (quiet_steps w s s2). }
  destruct p as [u| | |l c m k|l c m k|l c k|l c ty k|k|X f k|X f k|ad k|ad k|ad k]; try done; simpl in Hf.
  - destruct Hf as [Hm Hf]. destruct (lockEnter (fsLocks s) l c m false) as [g [|e|id]] eqn:E; try done; injection HE as <- <- <-.
    + destruct (acquired_steps w s h l c m false g k (PLock l c m k) Hw HL Hr Hm E Hf) as [w' Hs]. split; [by exists w', ((l, c, m) :: h)|done].
    + destruct (blocked_steps w s h l c m false g id k (PLock l c m k) Hw HL Hr Hm E Hf) as [w' Hs]. split; [by exists w', h|done].
  - destruct Hf as (Hm & Hf1 & Hf2). destruct (lockEnter (fsLocks s) l c m true) as [g [|e|id]] eqn:E; injection HE as <- <- <-.
    + destruct (acquired_steps w s h l c m true g (k None) (PTry l c m k) Hw HL Hr Hm E Hf1) as [w' Hs]. split; [by exists w', ((l, c, m) :: h)|done].
    + pose proof (lockEnter_busy _ _ _ _ _ _ _ E) as (_ & -> & _).
      destruct (busy_steps w s h l c m g busyError (k (Some busyError)) (PTry l c m k) Hw HL Hm E Hf2) as [w' Hs]. split; [by exists w', h|done].
    + destruct (blocked_steps w s h l c m true g id (k None) (PTry l c m k) Hw HL Hr Hm E Hf1) as [w' Hs]. split; [by exists w', h|done].
  - destruct Hf as (m & h' & Hh & Hf). destruct (HH l) as [R HR].
    destruct (unlock_steps w s h l c m h' k (PUnlock l c k) R Hw HL Hh HR Hf) as (g & w' & E & Hs).
    rewrite E in HE. injection HE as <- <- <-. split; [by exists w', h'|done].
  - injection HE as <- <- <-. split; [|done]. apply Hq; [done|apply Hf].
  - injection HE as <- <- <-. split; [|done]. apply Hq; [done|apply Hf].
  - destruct (f (inodeVolume s)) as [i [x|e|]]; injection HE as <- <- <-; (split; [|done]); apply Hq; try done; apply Hf.
  - destruct (f (fsVars s)) as [v x]. injection HE as <- <- <-. split; [|done]. apply Hq; [done|apply Hf].
  - injection HE as <- <- <-. split; [by apply Hq|]. apply Forall_singleton, fresh_neutral, neutral_tracker.
  - destruct (receive ad (fsVars s)) as [[rb v]|]; destruct b; try done; injection HE as <- <- <-;
      (split; [|done]); apply Hq; try done; apply Hf.
  - destruct (finished ad (fsVars s)); [|done]. injection HE as <- <- <-. split; [by apply Hq|done].
Qed.

(** Every reachable system is a reachable world of the lock manager. *)
Lemma sreach_clients sys : sreach sys -> exists w hs, clients w sys.1 sys.2 hs.
Proof.
  induction 1 as [s Hs|s ts c _ IH|[s ts] sys' [n b] _ IH Hr HE].
  - exists initWorld, []. split; simpl; [constructor|by rewrite Hs|constructor|done|done].
  - destruct IH as (w & hs & [Hw HL HF HH HP]). exists w, (hs ++ [[]]). split; try done; simpl.
    + apply Forall2_app; [done|]. apply Forall2_cons. split; [|constructor]. apply runFsCall_neutral.
    + intros l. rewrite HH, map_app, concat_app. simpl. by rewrite !app_nil_r.
    + intros l. rewrite HP, map_app, concat_app. simpl. by rewrite !app_nil_r.
  - destruct IH as (w & hs & [Hw HL HF HH HP]). simpl in *.
    destruct (ts !! n) as [t|] eqn:Ht; [|done].
    destruct (stepThread tracker b s t) as [[[s' t'] new]|] eqn:E; [|done]. injection HE as <-.
    destruct (Forall2_lookup_r _ _ _ _ _ HF Ht) as (h & Hh & Hf).
    destruct (thread_step w s t h b s' t' new Hw HL Hr Hf) as [(w' & h' & [Hw' HL' Hf' HH' HP']) Hnew]; [| |exact E|].
    { intros l. destruct (concat_insert (holdsOn l) hs n h h Hh) as (R & HR & _). exists R. by rewrite HH. }
    { intros l. destruct (concat_insert (waitsOn l) ts n t t Ht) as (R & HR & _). exists R. by rewrite HP. }
    exists w', (<[n := h']> hs ++ map (fun _ => []) new). split; [done|done| | |]; simpl.
    + apply Forall2_insert_snoc; [done|done|]. clear -Hnew. induction Hnew as [|x new [Hx _] _ IH]; simpl; by constructor.
    + intros l. destruct (concat_insert (holdsOn l) hs n h h' Hh) as (R & HR1 & HR2).
      rewrite map_app, concat_app, HR2. replace (concat (map (holdsOn l) (map (fun _ => []) new))) with (@nil (Z * lockState)).
      * rewrite app_nil_r. apply HH'. by rewrite HH.
      * clear. by induction new.
    + intros l. destruct (concat_insert (waitsOn l) ts n t t' Ht) as (R & HR1 & HR2).
      rewrite map_app, concat_app, HR2. replace (concat (map (waitsOn l) new)) with (@nil (Z * localLockRequest)).
      * rewrite app_nil_r. apply HP'. by rewrite HP.
      * clear -Hnew. induction Hnew as [|x new [_ Hx] _ IH]; simpl; [done|]. by rewrite Hx.
Qed.


(** C22. No operation of the file system panics on a lock or leaves one behind:
    a goroutine about to release a lock finds it held, and when every goroutine
    has returned the lock manager has no lock left. *)
Theorem fs_releases_all sys :
  sreach sys ->
  (forall i l c k, sys.2 !! i = Some (Running (PUnlock l c k)) -> is_Some (unlock (fsLocks sys.1) l c))
  /\ (forallb ended sys.2 = true -> fsLocks sys.1 = ∅).
Proof.
  intros Hs. destruct (sreach_clients sys Hs) as (w & hs & [Hw HL HF HH HP]). split.
  - intros i l c k Hi. destruct (Forall2_lookup_r _ _ _ _ _ HF Hi) as (h & Hh & m & h' & Hp & _).
    destruct (concat_insert (holdsOn l) hs i h h Hh) as (R & HR & _).
    rewrite Hp, holdsOn_cons, decide_True in HR by done. simpl in HR.
    assert (Hin : (c, m) ∈ holdersOf w l) by (rewrite HH, HR; set_solver).
    rewrite <- HL. by eapply held_unlocks.
  - intros He. apply map_eq. intros l. rewrite lookup_empty, <- HL.
    assert (Hx : forall t h, ended t = true -> follows h t -> h = [] /\ waitsOn l t = []).
    { intros [p|] h; [|done]. destruct p; try done. intros _ (x & Hx & ->). split; [|done].
      by apply Permutation_nil_r in Hx. }
    assert (concat (map (holdsOn l) hs) = [] /\ concat (map (waitsOn l) sys.2) = []) as [E1 E2].
    { clear -HF He Hx. induction HF as [|h t hs ts Hf _ IH]; [done|]. simpl in He |- *.
      apply andb_true_iff in He as [He1 He2]. destruct (IH He2) as [-> ->]. destruct (Hx t h He1 Hf) as [-> ->]. done. }
    apply (dinv_no_leak w l (dreachable_dinv w Hw)). split; apply Permutation_nil_r; [by rewrite HH, E1|by rewrite HP, E2].
Qed.
End Clients.
