(* ===== verification/FsFacts.v ===== *)
(** Operations of package [fs] run alone: how a program runs through its
    locks, and what follows for single calls.

    A lock nobody holds is granted at once and is gone after its release, so a
    call that finds its locks free runs like the calls of the inode volume it
    makes.  The facts about whole calls compose this with the theorems of
    [InodeFileFacts]. *)

From stdpp Require Import pretty.
From S2P Require Import Prelude Blunder Utils Dlm DlmFacts InodeTypes Extents ExtentsFacts VolumeHandle InodeVolume.
From S2P Require Import InodeDir InodeFile InodeFileFacts FsProgram FsLocks FsFlock FsPath Fs FsMiddleware.
Open Scope list_scope.
Open Scope Z_scope.
Open Scope go_scope.

(** ** Running *)

Section Run.
Context {I : Type}.

Definition outcomeThen {A B} (r : fsState I * fsOutcome A) (f : A -> fsState I -> fsState I * fsOutcome B)
    : fsState I * fsOutcome B :=
  match r with
  | (s, FsRet a) => f a s
  | (s, FsPanic) => (s, FsPanic)
  | (s, FsBlocked) => (s, FsBlocked)
  | (s, FsLoop) => (s, FsLoop)
  end.

Lemma runFs_bind {A B} (p : fsProg I A) (f : A -> fsProg I B) :
  forall s, runFs (pbind p f) s = outcomeThen (runFs p s) (fun a s => runFs (f a) s).
Proof.
  induction p as [a| | |l c m k IH|l c m k IH|l c k IH|l c t k IH|k IH|X g k IH|X g k IH|ad k IH|ad k IH|ad k IH];
    intros s; simpl; try done.
  - by destruct (lockEnter _ _ _ _ _) as [g [|e|id]].
  - by destruct (lockEnter _ _ _ _ _) as [g [|e|id]].
  - by destruct (unlock _ _ _).
  - by destruct (g (inodeVolume s)) as [i [x|e|]].
  - by destruct (g (fsVars s)).
  - by destruct (receive ad (fsVars s)) as [[b v]|].
  - by destruct (finished ad (fsVars s)).
Qed.

Lemma run_then {A B} (p : fsProg I A) (f : A -> fsProg I B) s s' a :
  runFs p s = (s', FsRet a) -> runFs (pbind p f) s = runFs (f a) s'.
Proof. intros Hp. by rewrite runFs_bind, Hp. Qed.

Lemma run_fthen {A B} (p : FS I A) (f : A -> FS I B) s s' a :
  runFs p s = (s', FsRet (inr a)) -> runFs (fbind p f) s = runFs (f a) s'.
Proof. intros Hp. unfold fbind. by rewrite (run_then _ _ _ _ _ Hp). Qed.

Lemma run_vol {X} (f : St I error X) s i x :
  f (inodeVolume s) = (i, Ret x) -> runFs (vol f) s = (s <| inodeVolume := i |>, FsRet (inr x)).
Proof. intros Hf. unfold vol. simpl. by rewrite Hf. Qed.

(** ** Free locks *)

(** The track of a lock with one holder and nobody waiting. *)
Definition heldTrack (m : lockState) (c : Z) : localLockTrack :=
  mkTrack 1 0 m [c] [] {[0 := mkRequest m true c]} 1.

Lemma lockEnter_free (g : lockMap) l c m try :
  g !! l = None -> grantable m -> lockEnter g l c m try = (<[l := heldTrack m c]> g, Acquired).
Proof.
  intros Hg [->| ->]; unfold lockEnter; rewrite Hg; simpl; rewrite andb_false_r; reflexivity.
Qed.

Lemma unlock_heldTrack (g : lockMap) l c m : unlock (<[l := heldTrack m c]> g) l c = Some (delete l g).
Proof. unfold unlock. rewrite lookup_insert_eq. simpl. rewrite Z.eqb_refl. by rewrite delete_insert_eq. Qed.

(** An exclusive holder blocks every other request. *)
Lemma lockEnter_behind (g : lockMap) l c c' m :
  g !! l = Some (heldTrack exclusive c) -> exists g', lockEnter g l c' m false = (g', Blocked 1).
Proof.
  intros Hg. unfold lockEnter. rewrite Hg. simpl. unfold processLocalQ. simpl. rewrite lookup_insert_eq. simpl. by eexists.
Qed.

Definition lockFree (s : fsState I) (l : string) : Prop := fsLocks s !! l = None.

Definition withLock (s : fsState I) (l : string) (m : lockState) (c : Z) : fsState I :=
  s <| fsLocks := <[l := heldTrack m c]> (fsLocks s) |>.

Lemma run_lock {A} (k : fsProg I A) s l c m :
  lockFree s l -> grantable m -> runFs (PLock l c m k) s = runFs k (withLock s l m c).
Proof. intros Hl Hm. simpl. by rewrite lockEnter_free. Qed.

Lemma run_unlock {A} (k : fsProg I A) s s' l c m :
  lockFree s l -> fsLocks s' = fsLocks (withLock s l m c) -> runFs (PUnlock l c k) s' = runFs k (s' <| fsLocks := fsLocks s |>).
Proof. intros Hl Hs. simpl. rewrite Hs. simpl. by rewrite unlock_heldTrack, delete_id. Qed.
End Run.

Section Calls.
Context {I : Type} (volumeName : string).

(** The state in which the body of a locking operation runs. *)
Definition inside (s : fsState I) (inodeNumber : Z) (m : lockState) : fsState I :=
  withLock (s <| nextCallerID := nextCallerID s +u 1 |>) (makeLockID volumeName inodeNumber) m (nextCallerID s).

Abbreviation ownLock s inodeNumber := (mkLock (makeLockID volumeName inodeNumber) (nextCallerID s)).

Lemma run_withLock {A} mode (m : RWLockStruct -> fsProg I A) s inodeNumber s' a :
  grantable mode -> lockFree s (makeLockID volumeName inodeNumber) ->
  runFs (m (ownLock s inodeNumber)) (inside s inodeNumber mode) = (s', FsRet a) ->
  fsLocks s' = fsLocks (inside s inodeNumber mode) ->
  runFs (lock <+ (lock <+ initInodeLock volumeName inodeNumber None ;;
                  PLock (LockID lock) (lk_CallerID lock) mode (PRet lock)) ;;
         releasing lock (m lock)) s
  = (s' <| fsLocks := fsLocks s |>, FsRet a).
Proof.
  intros Hm Hl Hb Hk. unfold initInodeLock, callerOf, fcaller. cbn [pbind runFs GenerateCallerID].
  rewrite lockEnter_free by done. unfold releasing, deferUnlock. cbn [LockID lk_CallerID].
  rewrite (run_then _ _ _ _ _ Hb).
  by rewrite (run_unlock _ (s <| nextCallerID := nextCallerID s +u 1 |>) s' _ _ mode).
Qed.

Lemma run_withWriteLock {A} (m : RWLockStruct -> fsProg I A) s inodeNumber s' a :
  lockFree s (makeLockID volumeName inodeNumber) ->
  runFs (m (ownLock s inodeNumber)) (inside s inodeNumber exclusive) = (s', FsRet a) ->
  fsLocks s' = fsLocks (inside s inodeNumber exclusive) ->
  runFs (withWriteLock volumeName inodeNumber m) s = (s' <| fsLocks := fsLocks s |>, FsRet a).
Proof. intros Hl. apply (run_withLock exclusive m s inodeNumber s' a); [by right|done]. Qed.

Lemma run_withReadLock {A} (m : RWLockStruct -> fsProg I A) s inodeNumber s' a :
  lockFree s (makeLockID volumeName inodeNumber) ->
  runFs (m (ownLock s inodeNumber)) (inside s inodeNumber shared) = (s', FsRet a) ->
  fsLocks s' = fsLocks (inside s inodeNumber shared) ->
  runFs (withReadLock volumeName inodeNumber m) s = (s' <| fsLocks := fsLocks s |>, FsRet a).
Proof. intros Hl. apply (run_withLock shared m s inodeNumber s' a); [by left|done]. Qed.

Context `{!InodeHandle I}.

(** A caller that may do what it asks for. *)
Definition mayAccess (i : I) (inodeNumber userID groupID : Z) (otherGroupIDs : list Z) (mode : Z) : Prop :=
  hAccess inodeNumber userID groupID otherGroupIDs F_OK i = (i, Ret true)
  /\ hAccess inodeNumber userID groupID otherGroupIDs mode i = (i, Ret true).

Lemma run_checkAccess s inodeNumber userID groupID otherGroupIDs mode :
  mayAccess (inodeVolume s) inodeNumber userID groupID otherGroupIDs mode ->
  runFs (checkAccess inodeNumber userID groupID otherGroupIDs mode) s = (s, FsRet (inr tt)).
Proof.
  intros [H1 H2]. destruct s as [lk nc iv fv]. unfold checkAccess, demand, access. cbn in H1, H2.
  assert (Hd : forall m e, hAccess inodeNumber userID groupID otherGroupIDs m iv = (iv, Ret true) ->
    runFs (ok <! vol (hAccess inodeNumber userID groupID otherGroupIDs m) ;;
           if ok : bool then fret tt else ferr (NewError e)) (mkFsState lk nc iv fv)
    = (mkFsState lk nc iv fv, FsRet (inr tt))).
  { intros m e Hm. by rewrite (run_fthen _ _ _ _ _ (run_vol _ (mkFsState lk nc iv fv) iv true Hm)). }
  by rewrite (run_fthen _ _ _ _ _ (Hd F_OK NotFoundError H1)), (Hd mode PermDeniedError H2).
Qed.
End Calls.

(** ** Reading what was written *)

Section WriteRead.
Context {V W : Type} `{HV : !VolumeHandle.VolumeHandle V} `{!VolumeHandleOk V} `{!VolumeHandleLive V} `{HW : !SwiftData W}
  `{!SwiftDataOk W} `{!PayloadTree} `{!OnDiskCodec} (time_Now : nat -> Z) (volumeName : string).

#[local] Instance theHandle : InodeHandle (volumeStruct V W) := inodeHandle time_Now.

Lemma accessInode_perms d d' userID groupID otherGroupIDs mode :
  permsOf d' = permsOf d -> accessInode d' userID groupID otherGroupIDs mode = accessInode d userID groupID otherGroupIDs mode.
Proof. intros [= Hm Hu Hg]. unfold accessInode. by rewrite Hm, Hu, Hg. Qed.

Lemma fileReady_mayAccess i n p inode userID groupID otherGroupIDs mode :
  fileReady i n p inode -> accessInode (onDisk inode) userID groupID otherGroupIDs mode = true ->
  mayAccess i n userID groupID otherGroupIDs mode.
Proof.
  intros [Hc Hp _ _ _ _ _ _ _ _] Ha.
  assert (HA : forall m, hAccess n userID groupID otherGroupIDs m i = (i, Ret (accessInode (onDisk inode) userID groupID otherGroupIDs m))).
  { intros m. cbn. unfold InodeVolume.Access, fetchInode, stry, sbind, sget, getInode. cbv beta iota. rewrite Hc. cbn. by rewrite Hp. }
  split; rewrite HA; [done|by rewrite Ha].
Qed.

Lemma run_track (s : fsState (volumeStruct V W)) n :
  exists v, runFs (trackInFlightFileInodeData n) s = (s <| fsVars := v |>, FsRet tt)
    /\ is_Some (inFlightFileInodeDataMap v !! n).
Proof.
  unfold trackInFlightFileInodeData, vars. simpl. destruct (inFlightFileInodeDataMap (fsVars s) !! n) as [a|] eqn:E; simpl.
  - exists (fsVars s). by rewrite E.
  - eexists. split; [done|]. simpl. rewrite lookup_insert_eq. by eexists.
Qed.

(** A call of [Write] that may write is a call of the inode's [Write]. *)
Lemma run_Write (s : fsState (volumeStruct V W)) n p inode userID groupID otherGroupIDs off (buf : bytes) i :
  fileReady (inodeVolume s) n p inode -> accessInode (onDisk inode) userID groupID otherGroupIDs W_OK = true ->
  lockFree s (makeLockID volumeName n) -> InodeFile.Write time_Now n off buf (inodeVolume s) = (i, Ret tt) ->
  exists v, runFs (Fs.Write volumeName userID groupID otherGroupIDs n off buf) s
      = (mkFsState (fsLocks s) (nextCallerID s +u 1) i v, FsRet (inr (zlen buf)))
    /\ is_Some (inFlightFileInodeDataMap v !! n).
Proof.
  intros Hr Ha Hl Hw. set (s1 := inside volumeName s n exclusive).
  destruct (run_track (s1 <| inodeVolume := i |>) n) as (v & Hv & Htr). exists v. split; [|done].
  unfold Fs.Write. rewrite (run_withWriteLock volumeName _ s n (s1 <| inodeVolume := i |> <| fsVars := v |>) (inr (zlen buf)) Hl).
  - reflexivity.
  - rewrite (run_fthen _ _ s1 s1 tt) by (apply run_checkAccess; by eapply (fileReady_mayAccess (inodeVolume s))).
    rewrite (run_fthen _ _ _ _ _ (run_vol _ s1 i tt Hw)). by rewrite (run_then _ _ _ _ _ Hv).
  - done.
Qed.

Lemma run_Read (s : fsState (volumeStruct V W)) n p inode userID groupID otherGroupIDs off len (buf : bytes) i :
  fileReady (inodeVolume s) n p inode -> accessInode (onDisk inode) userID groupID otherGroupIDs R_OK = true ->
  lockFree s (makeLockID volumeName n) -> InodeFile.Read n off len (inodeVolume s) = (i, Ret buf) -> zlen buf <= len ->
  runFs (Fs.Read volumeName userID groupID otherGroupIDs n off len) s
  = (mkFsState (fsLocks s) (nextCallerID s +u 1) i (fsVars s), FsRet (inr buf)).
Proof.
  intros Hr Ha Hl Hrd Hlen. set (s1 := inside volumeName s n shared).
  assert (Ht : hGetType n (inodeVolume s1) = (inodeVolume s1, Ret FileType)).
  { destruct Hr as [Hc Hp Hty _ _ _ _ _ _ _]. cbn. unfold InodeVolume.GetType, fetchAllocated, fetchInode, sbind, sget, getInode.
    cbv beta iota. rewrite Hc. cbn. rewrite Hp. cbn. by rewrite Hty. }
  unfold Fs.Read. rewrite (run_withReadLock volumeName _ s n (s1 <| inodeVolume := i |>) (inr buf) Hl).
  - reflexivity.
  - rewrite (run_fthen _ _ s1 s1 tt) by (apply run_checkAccess; by eapply (fileReady_mayAccess (inodeVolume s))).
    rewrite (run_fthen _ _ _ _ _ (run_vol _ s1 _ _ Ht)), Z.eqb_refl. cbn [negb].
    assert (Hx : hRead n off len (inodeVolume s1) = (i, Ret buf)) by exact Hrd.
    rewrite (run_fthen _ _ _ _ _ (run_vol (hRead n off len) (s1 <| inodeVolume := inodeVolume s1 |>) i buf Hx)).
    by rewrite (proj2 (Z.ltb_ge _ _)).
  - done.
Qed.

(** C2. A client that wrote reads its bytes back: when the inode's lock is free
    and the permissions of the file allow the client both, [Write] returns the
    number of bytes and tracks the file as unflushed, a [Read] of the same
    range returns exactly those bytes, and no lock is left behind. *)
Theorem fs_Write_then_Read (s : fsState (volumeStruct V W)) n p inode userID groupID otherGroupIDs off (buf : bytes) :
  fileReady (inodeVolume s) n p inode -> roomFor (inodeVolume s) inode buf ->
  accessInode (onDisk inode) userID groupID otherGroupIDs W_OK = true ->
  accessInode (onDisk inode) userID groupID otherGroupIDs R_OK = true ->
  lockFree s (makeLockID volumeName n) ->
  0 <= off -> 0 < zlen buf <= 2 ^ 48 -> off + zlen buf <= maxOffset ->
  exists s1 s2, runFs (Fs.Write volumeName userID groupID otherGroupIDs n off buf) s = (s1, FsRet (inr (zlen buf)))
    /\ is_Some (inFlightFileInodeDataMap (fsVars s1) !! n)
    /\ runFs (Fs.Read volumeName userID groupID otherGroupIDs n off (zlen buf)) s1 = (s2, FsRet (inr buf))
    /\ fsLocks s2 = fsLocks s.
Proof.
  intros Hr Hroom HaW HaR Hl Ho Hlen Hend.
  destruct (Write_Read_ok time_Now (inodeVolume s) n p inode off buf Hr Hroom Ho Hlen Hend) as (i1 & inode1 & i2 & Hw & Hr1 & Hpm & Hrd).
  destruct (run_Write s n p inode userID groupID otherGroupIDs off buf i1 Hr HaW Hl Hw) as (v & HrunW & Hv).
  eexists _, _. split_and!; [exact HrunW|exact Hv| |].
  - eapply (run_Read _ n p inode1); [exact Hr1| |exact Hl|exact Hrd|done]. by rewrite (accessInode_perms _ _ _ _ _ _ Hpm).
  - done.
Qed.
End WriteRead.

(** ** A call that waits for itself *)

Section SelfDeadlock.
Context {I : Type} `{!InodeHandle I} (volumeName : string).

(** Creating or replacing an extended attribute never returns: with
    [xattr_create] or [xattr_replace], [SetXAttr] holds the inode's lock
    exclusively and calls [GetXAttr], which asks for it as another caller. *)
Theorem SetXAttr_flags_deadlock (s : fsState I) n userID groupID otherGroupIDs streamName value flags :
  flags = xattr_create \/ flags = xattr_replace ->
  mayAccess (inodeVolume s) n userID groupID otherGroupIDs W_OK -> lockFree s (makeLockID volumeName n) ->
  (runFs (SetXAttr volumeName userID groupID otherGroupIDs n streamName value flags) s).2 = FsBlocked.
Proof.
  intros Hf Ha Hl. unfold SetXAttr, withWriteLock, getWriteLock, initInodeLock, callerOf, fcaller, lockWrite.
  cbn [pbind runFs GenerateCallerID LockID lk_CallerID]. rewrite lockEnter_free; [|exact Hl|by right].
  unfold releasing, deferUnlock. rewrite runFs_bind. set (s1 := _ <| fsLocks := _ |>).
  rewrite (run_fthen _ _ s1 s1 tt) by (by apply run_checkAccess).
  assert (Hb : exists s2, runFs (GetXAttr volumeName userID groupID otherGroupIDs n streamName) s1 = (s2, FsBlocked)).
  { unfold GetXAttr, withReadLock, getReadLock, initInodeLock, callerOf, fcaller, lockRead.
    cbn [pbind runFs GenerateCallerID LockID lk_CallerID].
    destruct (lockEnter_behind (fsLocks s1) (makeLockID volumeName n) (nextCallerID s) (nextCallerID s +u 1) shared) as [g Hg].
    - apply lookup_insert_eq.
    - cbn. unfold s1 in Hg. cbn in Hg. rewrite Hg. by eexists. }
  destruct Hb as [s2 Hb]. unfold fbind at 1. rewrite runFs_bind. unfold checkFlags.
  destruct Hf as [-> | ->]; cbn [Z.eqb xattr_create xattr_replace Pos.eqb]; by rewrite runFs_bind, Hb.
Qed.
End SelfDeadlock.

(** ** Symbolic links that lead back to themselves *)

Section SymlinkLoop.
Context {I : Type} `{!InodeHandle I} (volumeName : string).

(** The entry [name] of directory [d] is a symbolic link [n] to [name]. *)
Record symlinkToItself (i : I) (d n : Z) (name : string) : Prop := {
  sl_lookup : hLookup d name i = (i, Ret n);
  sl_type : hGetType n i = (i, Ret SymlinkType);
  sl_target : hGetSymlink n i = (i, Ret name);
  sl_segments : revSplitPath name = [name];
  sl_notDot : String.eqb name "." = false;
  sl_relative : HasPrefix name "/" = false
}.

#[local] Arguments lockEnter : simpl never.
#[local] Arguments unlock : simpl never.

Lemma run_ensureReadLock {A} s n (k : option RWLockStruct -> fsProg I A) :
  let l := makeLockID volumeName n in
  lockFree s l ->
  runFs (pbind (ensureReadLock volumeName n None) k) s = runFs (k (Some (mkLock l (nextCallerID s)))) (inside volumeName s n shared).
Proof.
  intros l Hl. unfold ensureReadLock, initInodeLock, callerOf, fcaller, lockIsReadHeld, fheld, lockRead.
  cbn [pbind runFs LockID lk_CallerID GenerateCallerID]. unfold isLockHeld. cbn [fsLocks nextCallerID].
  change (fsLocks s !! makeLockID volumeName n = None) in Hl. cbn. rewrite Hl. cbn.
  rewrite lockEnter_free; [done|exact Hl|by left].
Qed.

(** One turn of the loop of a PUT comes back to where it was. *)
Lemma findDirs_turn s d n name callerID rest dirInodeLock fuel :
  symlinkToItself (inodeVolume s) d n name -> lockFree s (makeLockID volumeName n) ->
  runFs (findDirs volumeName callerID (S fuel) (name :: rest) d dirInodeLock) s
  = runFs (findDirs volumeName callerID fuel (name :: rest) d dirInodeLock) s.
Proof.
  intros [Hlk Hty Htg Hsp Hdot Hrel] Hl. destruct s as [lk nc iv fv]. cbn in Hlk, Hty, Htg. unfold lockFree in Hl. cbn in Hl.
  cbn [findDirs]. rewrite Hdot. unfold vol at 1. cbn [pbind runFs inodeVolume]. rewrite Hlk. cbn [pbind].
  unfold getWriteLock, initInodeLock, callerOf, lockWrite. cbn [pbind runFs LockID lk_CallerID fsLocks].
  rewrite lockEnter_free; [|exact Hl|by right]. cbn [runFs inodeVolume]. cbn. rewrite Hty. cbn. rewrite Htg. cbn.
  rewrite Hrel, Hsp, unlock_heldTrack, delete_id by done. reflexivity.
Qed.

Lemma findDirs_loops s d n name callerID rest dirInodeLock :
  symlinkToItself (inodeVolume s) d n name -> lockFree s (makeLockID volumeName n) ->
  forall fuel, runFs (findDirs volumeName callerID fuel (name :: rest) d dirInodeLock) s = (s, FsLoop).
Proof. intros Hs Hl. induction fuel as [|fuel IH]; [done|]. by rewrite findDirs_turn with (n := n). Qed.

Lemma makeLockID_inj n n' : 0 <= n -> 0 <= n' -> makeLockID volumeName n = makeLockID volumeName n' -> n = n'.
Proof.
  unfold makeLockID. intros Hn Hn' Heq. apply (inj (String.append _)) in Heq. apply (inj (String.append _)) in Heq.
  apply (inj pretty) in Heq. by apply Z2N.inj.
Qed.

(** One turn of [resolvePath], which counts the links it follows. *)
Lemma resolve_turn s d n name rest dirInodeLock follows :
  symlinkToItself (inodeVolume s) d n name -> lockFree s (makeLockID volumeName n) ->
  runFs (resolveLoop (ensureReadLock volumeName) None (S follows) (name :: rest) d dirInodeLock) s
  = runFs (resolveLoop (ensureReadLock volumeName) None follows (name :: rest) d dirInodeLock)
      (s <| nextCallerID := nextCallerID s +u 1 |>).
Proof.
  intros [Hlk Hty Htg Hsp Hdot Hrel] Hl. destruct s as [lk nc iv fv]. cbn in Hlk, Hty, Htg. unfold lockFree in Hl. cbn in Hl.
  cbn [resolveLoop]. rewrite Hdot. unfold vol at 1. cbn [pbind runFs inodeVolume]. rewrite Hlk. cbn [pbind].
  rewrite run_ensureReadLock by exact Hl. cbn. rewrite Hty. cbn. rewrite Htg. cbn.
  rewrite unlock_heldTrack, delete_id by done. cbn. by rewrite Hrel, Hsp.
Qed.

(** Looking at the links one by one, [resolvePath] gives up. *)
Lemma resolve_gives_up g d n name rest c follows : forall s,
  symlinkToItself (inodeVolume s) d n name -> lockFree s (makeLockID volumeName n) ->
  let l := makeLockID volumeName d in
  g !! l = None -> fsLocks s = <[l := heldTrack shared c]> g ->
  exists s', runFs (resolveLoop (ensureReadLock volumeName) None follows (name :: rest) d (Some (mkLock l c))) s
      = (s', FsRet (inl (NewError TooManySymlinksError)))
    /\ fsLocks s' = g.
Proof.
  induction follows as [|follows IH]; intros s Hs Hl l Hg Hlk.
  - destruct Hs as [Hlookup Hty Htg Hsp Hdot Hrel]. destruct s as [lk nc iv fv]. cbn in Hlookup, Hty, Htg, Hlk.
    unfold lockFree in Hl. cbn in Hl. subst lk.
    cbn [resolveLoop]. rewrite Hdot. unfold vol at 1. cbn [pbind runFs inodeVolume]. rewrite Hlookup. cbn [pbind].
    rewrite run_ensureReadLock by exact Hl. cbn. rewrite Hty. cbn.
    rewrite unlock_heldTrack, delete_id by done. cbn. rewrite unlock_heldTrack, delete_id by done. by eexists.
  - rewrite resolve_turn with (n := n) by done. by apply IH.
Qed.

(** A symbolic link that leads to itself ends a path resolution but not a
    PUT: [resolvePathForRead] gives up with [TooManySymlinksError] and holds no
    lock, while the loop by which [putObjectHelper] looks for the directories of
    an object follows the link for ever, whatever the bound on its turns. *)
Theorem symlink_loop_ends s n name :
  symlinkToItself (inodeVolume s) RootDirInodeNumber n name ->
  lockFree s (makeLockID volumeName n) -> lockFree s (makeLockID volumeName RootDirInodeNumber) ->
  0 <= n -> n <> RootDirInodeNumber ->
  (exists s', runFs (resolvePathForRead volumeName name None) s = (s', FsRet (inl (NewError TooManySymlinksError)))
     /\ fsLocks s' = fsLocks s)
  /\ forall callerID rest dirInodeLock fuel,
       (runFs (findDirs volumeName callerID fuel (name :: rest) RootDirInodeNumber dirInodeLock) s).2 = FsLoop.
Proof.
  intros Hs Hl Hroot Hn Hne. split.
  - unfold resolvePathForRead, resolvePath. rewrite (sl_segments _ _ _ _ Hs). cbn [rev app].
    rewrite run_ensureReadLock by exact Hroot.
    destruct (resolve_gives_up (fsLocks s) RootDirInodeNumber n name [] (nextCallerID s) MaxSymlinks
      (inside volumeName s RootDirInodeNumber shared)) as (s' & Hs' & Hg); try done.
    + unfold lockFree. cbn. rewrite lookup_insert_ne; [done|].
      intros Heq. apply Hne. symmetry. apply makeLockID_inj in Heq; [done|done|done].
    + by exists s'.
  - intros. by rewrite findDirs_loops with (n := n).
Qed.
End SymlinkLoop.
