(* ===== verification/FsListing.v ===== *)
(** Account listings: [MiddlewareGetAccount] run alone on a volume whose root
    directory does not change. *)

From stdpp Require Import pretty.
From S2P Require Import Prelude SortedMap Blunder Utils Dlm DlmFacts InodeTypes InodeVolume InodeDir InodeFile.
From S2P Require Import FsProgram FsLocks FsFlock FsPath Fs FsMiddleware FsFacts.
Open Scope list_scope.
Open Scope Z_scope.
Open Scope go_scope.

Section Listing.
Context {I : Type} `{!InodeHandle I} (volumeName : string).

(** A directory [dir] with the entries [m], the types of their inodes, and a
    volume that answers for both without changing. *)
Record directory (dir maxBufSize : Z) (i : I) (m : list (string * Z)) (types : Z -> Z) : Prop := {
  rd_access : mayAccess i dir InodeRootUserID InodeRootGroupID [] X_OK;
  rd_read : forall maxEntries name, 0 < maxEntries -> capacityOk maxEntries = true ->
    hReadDir dir maxEntries maxBufSize (AfterName name) i = (i, readDirEntries m maxEntries maxBufSize (AfterName name));
  rd_types : Forall (fun kv => 0 <= kv.2 /\ hGetType kv.2 i = (i, Ret (types kv.2))) m;
  rd_sorted : sorted m;
  rd_number : 0 <= dir
}.

(** The root directory, read without a limit on the size of a page. *)
Definition rootDirectory : I -> list (string * Z) -> (Z -> Z) -> Prop := directory RootDirInodeNumber 0.

(** The states of a call that only takes new caller numbers. *)
Definition onlyCallers (s s' : fsState I) : Prop :=
  fsLocks s' = fsLocks s /\ inodeVolume s' = inodeVolume s /\ fsVars s' = fsVars s.

Lemma onlyCallers_refl s : onlyCallers s s.
Proof. done. Qed.

Lemma onlyCallers_trans s1 s2 s3 : onlyCallers s1 s2 -> onlyCallers s2 s3 -> onlyCallers s1 s3.
Proof. intros (H1 & H2 & H3) (H4 & H5 & H6). unfold onlyCallers. by rewrite H4, H5, H6. Qed.

Lemma run_demandLock (s : fsState I) n m c : fsLocks s !! makeLockID volumeName n = Some (heldTrack m c) -> grantable m ->
  runFs (demandLock volumeName n c) s = (s, FsRet (inr tt)).
Proof.
  intros Hl Hm. unfold demandLock, fheld. cbn [pbind runFs]. unfold isLockHeld. rewrite Hl. cbn.
  rewrite Z.eqb_refl. by destruct Hm as [->| ->].
Qed.

Lemma run_getTypeHelper s n m c t : fsLocks s !! makeLockID volumeName n = Some (heldTrack m c) -> grantable m ->
  hGetType n (inodeVolume s) = (inodeVolume s, Ret t) ->
  runFs (getTypeHelper volumeName n c) s = (s, FsRet (inr t)).
Proof.
  intros Hl Hm Ht. unfold getTypeHelper. rewrite (run_fthen _ _ _ _ _ (run_demandLock s n m c Hl Hm)).
  rewrite (run_vol _ s _ _ Ht). by destruct s.
Qed.

(** [IsDir] of an inode nobody has locked. *)
Lemma run_IsDir s n t : lockFree s (makeLockID volumeName n) -> hGetType n (inodeVolume s) = (inodeVolume s, Ret t) ->
  exists s', runFs (IsDir volumeName n) s = (s', FsRet (inr (t =? DirType))) /\ onlyCallers s s'.
Proof.
  intros Hl Ht. set (s1 := inside volumeName s n shared).
  assert (Hh : fsLocks s1 !! makeLockID volumeName n = Some (heldTrack shared (nextCallerID s))) by apply lookup_insert_eq.
  eexists. split.
  - unfold IsDir. rewrite (run_withReadLock volumeName _ s n s1 (inr (t =? DirType)) Hl); [reflexivity| |done].
    cbn [lk_CallerID]. rewrite (run_fthen _ _ _ _ _ (run_demandLock s1 n shared _ Hh (or_introl eq_refl))).
    by rewrite (run_fthen _ _ _ _ _ (run_vol (hGetType n) s1 _ _ Ht)).
  - done.
Qed.

(** The type of an entry, read while a directory is locked. *)
Lemma run_entryType dir g nc (i : I) v c n t :
  g !! makeLockID volumeName dir = Some (heldTrack shared c) ->
  (n <> dir -> g !! makeLockID volumeName n = None) ->
  hGetType n i = (i, Ret t) ->
  runFs (entryType volumeName dir n c) (mkFsState g nc i v) = (mkFsState g nc i v, FsRet t).
Proof.
  intros Hg Hn Ht. unfold entryType. destruct (Z.eqb_spec dir n) as [<-|Hne].
  - by rewrite (run_then _ _ _ _ _ (run_getTypeHelper (mkFsState g nc i v) dir shared c t Hg (or_introl eq_refl) Ht)).
  - specialize (Hn ltac:(congruence)). unfold getReadLock, initInodeLock, callerOf, lockRead.
    cbn [pbind runFs LockID lk_CallerID fsLocks]. rewrite lockEnter_free; [|exact Hn|by left].
    unfold releasing, deferUnlock. cbn [LockID lk_CallerID]. rewrite runFs_bind, runFs_bind.
    set (s1 := _ <| fsLocks := _ |>).
    rewrite (run_getTypeHelper s1 n shared c t); [|by apply lookup_insert_eq|by left|exact Ht].
    cbn. by rewrite unlock_heldTrack, delete_id.
Qed.

(** ** One page *)

Section Directory.
Context (dir maxBufSize : Z) (i : I) (m : list (string * Z)) (types : Z -> Z) (Hroot : directory dir maxBufSize i m types).

(** A state in which nobody holds a lock. *)
Definition idle (s : fsState I) : Prop := fsLocks s = ∅ /\ inodeVolume s = i.

Lemma idle_free s n : idle s -> lockFree s (makeLockID volumeName n).
Proof. intros [Hl _]. unfold lockFree. by rewrite Hl. Qed.

Lemma idle_onlyCallers s s' : idle s -> onlyCallers s s' -> idle s'.
Proof. intros [H1 H2] (H3 & H4 & _). unfold idle. by rewrite H3, H4. Qed.

(** The entries of a page with their types. *)
Definition typed (e : DirEntry) : DirEntry :=
  mkDirEntry (de_InodeNumber e) (de_Basename e) (types (de_InodeNumber e)) (de_NextDirLocation e).

Lemma run_fillTypes c nc v g j page :
  g = {[makeLockID volumeName dir := heldTrack shared c]} ->
  Forall (fun kv => 0 <= kv.2 /\ hGetType kv.2 i = (i, Ret (types kv.2))) page ->
  runFs (fillTypes volumeName dir c (entriesFrom j page)) (mkFsState g nc i v)
  = (mkFsState g nc i v, FsRet (map typed (entriesFrom j page))).
Proof.
  intros -> Ht. revert j. induction Ht as [|[k n] page [Hn Ht] _ IH]; intros j; [done|]. cbn [entriesFrom fillTypes map].
  set (g := {[_ := _]} : lockMap).
  assert (Hg : g !! makeLockID volumeName dir = Some (heldTrack shared c)) by apply lookup_singleton_eq.
  assert (Hf : n <> dir -> g !! makeLockID volumeName n = None).
  { intros Hne. apply lookup_singleton_ne. intros He. apply Hne. symmetry. pose proof (rd_number _ _ _ _ _ Hroot). by apply makeLockID_inj in He. }
  cbn [entryAt de_InodeNumber snd fst].
  rewrite (run_then _ _ _ _ _ (run_entryType dir g nc i v c n (types n) Hg Hf Ht)).
  by rewrite (run_then _ _ _ _ _ (IH (j + 1))).
Qed.

Lemma page_types pre page rest : m = pre ++ page ++ rest ->
  Forall (fun kv => 0 <= kv.2 /\ hGetType kv.2 i = (i, Ret (types kv.2))) page.
Proof. intros Hm. pose proof (rd_types _ _ _ _ _ Hroot) as Ht. rewrite Hm, !Forall_app in Ht. tauto. Qed.

(** [Readdir] of the directory, up to the call of the inode's [ReadDir]. *)
Lemma run_Readdir_body s name maxEntries r s2 :
  let s1 := inside volumeName s dir shared in
  idle s -> 0 < maxEntries -> capacityOk maxEntries = true ->
  runFs ('(entries, areMoreEntries) <! PVol (fun i => (i, readDirEntries m maxEntries maxBufSize (AfterName name))) (fun r => PRet r) ;;
         entries <+ fillTypes volumeName dir (nextCallerID s) entries ;;
         fret (entries, zlen entries, areMoreEntries)) s1 = (s2, FsRet r) ->
  fsLocks s2 = fsLocks s1 ->
  runFs (Readdir volumeName InodeRootUserID InodeRootGroupID [] dir name maxEntries maxBufSize) s
  = (s2 <| fsLocks := fsLocks s |>, FsRet r).
Proof.
  intros s1 [Hl Hi] Hmax Hcap Hb Hk.
  assert (Hh : fsLocks s1 !! makeLockID volumeName dir = Some (heldTrack shared (nextCallerID s))) by apply lookup_insert_eq.
  unfold Readdir. rewrite (run_withReadLock volumeName _ s dir s2 r); [done|unfold lockFree; by rewrite Hl| |exact Hk].
  cbn [lk_CallerID]. rewrite (run_fthen _ _ s1 s1 tt)
    by (apply run_checkAccess; change (inodeVolume s1) with (inodeVolume s); rewrite Hi; apply (rd_access _ _ _ _ _ Hroot)).
  unfold readdirHelper. rewrite (run_fthen _ _ _ _ _ (run_demandLock s1 _ shared _ Hh (or_introl eq_refl))).
  rewrite <- Hb. unfold fbind, vol. cbn [pbind runFs]. change (inodeVolume s1) with (inodeVolume s).
  by rewrite Hi, (rd_read _ _ _ _ _ Hroot).
Qed.

(** It returns a page of the directory. *)
Lemma run_Readdir s name pre page rest maxEntries more :
  idle s -> 0 < maxEntries -> capacityOk maxEntries = true -> m = pre ++ page ++ rest ->
  readDirEntries m maxEntries maxBufSize (AfterName name) = Ret (entriesFrom (zlen pre) page, more) ->
  exists s', runFs (Readdir volumeName InodeRootUserID InodeRootGroupID [] dir name maxEntries maxBufSize) s
      = (s', FsRet (inr (map typed (entriesFrom (zlen pre) page), zlen page, more)))
    /\ idle s'.
Proof.
  intros Hs Hmax Hcap Hm Hpage. pose proof Hs as [Hl Hi]. set (s1 := inside volumeName s dir shared).
  assert (Hf : runFs (fillTypes volumeName dir (nextCallerID s) (entriesFrom (zlen pre) page)) s1
               = (s1, FsRet (map typed (entriesFrom (zlen pre) page)))).
  { destruct s as [lk nc iv fv]. cbn in Hl, Hi. subst lk iv. apply run_fillTypes; [done|by eapply page_types]. }
  exists (s1 <| fsLocks := fsLocks s |>). split; [|split; [exact Hl|exact Hi]].
  rewrite (run_Readdir_body s name maxEntries (inr (map typed (entriesFrom (zlen pre) page), zlen page, more)) s1);
    [reflexivity|done|done|done| |done].
  unfold fbind. cbn [pbind runFs]. rewrite Hpage. cbn [pbind]. replace (s1 <| inodeVolume := inodeVolume s1 |>) with s1 by done.
  rewrite (run_then _ _ _ _ _ Hf). replace (zlen (map typed (entriesFrom (zlen pre) page))) with (zlen page); [done|].
  unfold zlen. by rewrite length_map, length_entriesFrom.
Qed.

(** Behind its last entry it fails. *)
Lemma run_Readdir_end s name maxEntries e :
  idle s -> 0 < maxEntries -> capacityOk maxEntries = true ->
  readDirEntries m maxEntries maxBufSize (AfterName name) = Err e ->
  exists s', runFs (Readdir volumeName InodeRootUserID InodeRootGroupID [] dir name maxEntries maxBufSize) s
      = (s', FsRet (inl e))
    /\ idle s'.
Proof.
  intros Hs Hmax Hcap Hpage. pose proof Hs as [Hl Hi]. set (s1 := inside volumeName s dir shared).
  exists (s1 <| fsLocks := fsLocks s |>). split; [|split; [exact Hl|exact Hi]].
  rewrite (run_Readdir_body s name maxEntries (inl e) s1); [reflexivity|done|done|done| |done].
  unfold fbind. cbn [pbind runFs]. by rewrite Hpage.
Qed.

(** ** The directories of a page *)

Definition isContainer (kv : string * Z) : bool := negb (isDot kv.1) && (types kv.2 =? DirType).

Definition containersOf (l : list (string * Z)) : list AccountEntry :=
  map (fun kv => mkAccountEntry kv.1) (List.filter isContainer l).

Lemma containersOf_app l l' : containersOf (l ++ l') = containersOf l ++ containersOf l'.
Proof. unfold containersOf. by rewrite List.filter_app, map_app. Qed.

Lemma zlen_containersOf l : zlen (containersOf l) <= zlen l.
Proof. unfold containersOf, zlen. rewrite length_map. pose proof (List.filter_length_le isContainer l). lia. Qed.

Lemma run_accountEntries j page : forall s,
  idle s -> Forall (fun kv => 0 <= kv.2 /\ hGetType kv.2 i = (i, Ret (types kv.2))) page ->
  exists s', runFs (accountEntries volumeName (map typed (entriesFrom j page))) s = (s', FsRet (inr (containersOf page))) /\ idle s'.
Proof.
  revert j. induction page as [|[k n] page IH]; intros j s Hs Ht; [by exists s|]. apply Forall_cons in Ht as [[Hn Ht] Htl].
  cbn [entriesFrom map accountEntries]. unfold containersOf. cbn [typed entryAt de_Basename de_InodeNumber fst snd].
  cbn [List.filter]. unfold isContainer at 1. cbn [fst snd]. destruct (isDot k) eqn:Ed; cbn [negb andb].
  { by apply IH. }
  destruct (run_IsDir s n (types n)) as (s1 & Hd & Ho); [by apply idle_free|destruct Hs as [_ ->]; exact Ht|].
  rewrite (run_fthen _ _ _ _ _ Hd). destruct (IH (j + 1) s1 (idle_onlyCallers _ _ Hs Ho) Htl) as (s' & Hrest & Hs').
  rewrite (run_fthen _ _ _ _ _ Hrest). exists s'. split; [|done]. by destruct (types n =? DirType).
Qed.

End Directory.

(** ** The listing *)

Section Root.
Context (i : I) (m : list (string * Z)) (types : Z -> Z) (Hroot : rootDirectory i m types).

Abbreviation idle := (idle i).
Abbreviation containersOf := (containersOf types).


Lemma capacityOk_less a b : a <= b -> capacityOk b = true -> capacityOk a = true.
Proof. unfold capacityOk. rewrite !Z.leb_le. lia. Qed.

Lemma run_getAccountLoop maxEntries fuel : forall name pre post acc s,
  idle s -> m = pre ++ post -> resumesAt name pre post -> zlen acc <= maxEntries < two64 -> capacityOk maxEntries = true ->
  (length post < fuel)%nat ->
  exists s', runFs (getAccountLoop volumeName fuel maxEntries name acc true) s
      = (s', FsRet (inr (take (Z.to_nat maxEntries) (acc ++ containersOf post))))
    /\ idle s'.
Proof.
  induction fuel as [|fuel IH]; intros name pre post acc s Hs Hm Hr Hacc Hcap Hf; [lia|].
  pose proof (zlen_nonneg acc) as Ha. cbn [getAccountLoop andb].
  destruct (Z.ltb_spec (zlen acc) maxEntries) as [Hlt|Hge].
  2: { exists s. split; [|done]. rewrite take_app_le, take_ge by (unfold zlen in *; lia). done. }
  rewrite usub_small by lia. set (k := maxEntries - zlen acc).
  assert (Hk : 0 < k <= maxEntries) by (unfold k; lia). pose proof (capacityOk_less k maxEntries ltac:(lia) Hcap) as Hcapk.
  pose proof (readDirEntries_page name pre post k 0 Hr ltac:(lia)) as Hp. rewrite <- Hm in Hp.
  destruct post as [|kv0 post0].
  { destruct (run_Readdir_end _ _ i m types Hroot s name k _ Hs (proj1 Hk) Hcapk Hp) as (s' & Hrun & Hs'). rewrite (run_then _ _ _ _ _ Hrun).
    exists s'. split; [|done]. cbn. rewrite app_nil_r, take_ge by (unfold zlen in *; lia). done. }
  set (post := kv0 :: post0) in *. destruct Hp as (page & rest & Hpost & Hpage & Hle & _ & Hprog).
  specialize (Hle (proj1 Hk)). rewrite Hpost in Hm.
  destruct (run_Readdir _ _ i m types Hroot s name pre page rest k _ Hs (proj1 Hk) Hcapk Hm Hpage) as (s1 & Hrun & Hs1).
  rewrite (run_then _ _ _ _ _ Hrun). destruct (run_accountEntries i types (zlen pre) page s1 Hs1) as (s2 & Hrun2 & Hs2); [by eapply page_types; [exact Hroot|]|].
  rewrite (run_fthen _ _ _ _ _ Hrun2).
  destruct page as [|[kk v] page _] using rev_ind; [exfalso; apply Hprog; [by apply Forall_true; left|done]|].
  change (map (typed types) (entriesFrom (zlen pre) (page ++ [(kk, v)]))) with (typed types <$> entriesFrom (zlen pre) (page ++ [(kk, v)])). rewrite fmap_last, last_entriesFrom. cbn [option_map fmap option_fmap typed entryAt de_Basename fst].
  pose proof (zlen_containersOf types (page ++ [(kk, v)])) as Hc.
  rewrite Hpost, (containersOf_app types (page ++ [(kk, v)]) rest), app_assoc. destruct rest as [|kv rest].
  - rewrite bool_decide_false by (by intros []). exists s2. split; [|done]. destruct fuel; cbn [getAccountLoop andb];
      change (containersOf []) with (@nil AccountEntry); rewrite app_nil_r, take_ge by (unfold zlen in *; rewrite length_app; lia); done.
  - rewrite bool_decide_true by done. apply (IH kk (pre ++ page ++ [(kk, v)])); [done| | | |done|].
    + by rewrite Hm, <- !app_assoc.
    + rewrite app_assoc. apply resumesAt_last. pose proof (rd_sorted _ _ _ _ _ Hroot) as Hsort. rewrite Hm in Hsort.
      by rewrite <- !app_assoc in Hsort |- *.
    + rewrite zlen_app. unfold k in *. lia.
    + rewrite Hpost, !length_app in Hf. simpl in Hf |- *. lia.
Qed.
End Root.

(** C28. An account listing ends, and is right: run on a volume whose root
    directory does not change, with a bound on its pages above the number of
    entries, [MiddlewareGetAccount] returns the names of the directories behind
    the marker, in order, without "." and "..", at most [maxEntries] of them, and
    holds no lock.  A marker behind the last entry gives the empty listing. *)
Theorem MiddlewareGetAccount_lists s m types fuel maxEntries marker :
  fsLocks s = ∅ -> rootDirectory (inodeVolume s) m types ->
  0 <= maxEntries < two64 -> capacityOk maxEntries = true -> (length m < fuel)%nat ->
  exists pre post s', m = pre ++ post /\ resumesAt marker pre post
    /\ runFs (MiddlewareGetAccount volumeName fuel maxEntries marker) s
       = (s', FsRet (inr (take (Z.to_nat maxEntries) (containersOf types post))))
    /\ fsLocks s' = ∅.
Proof.
  intros Hl Hroot Hmax Hcap Hf. destruct (resumesAt_total marker m (rd_sorted _ _ _ _ _ Hroot)) as (pre & post & Hm & Hr).
  destruct (run_getAccountLoop (inodeVolume s) m types Hroot maxEntries fuel marker pre post [] s) as (s' & Hrun & [Hl' _]);
    try done; [rewrite Hm, length_app in Hf; lia|]. by exists pre, post, s'.
Qed.
End Listing.
