(* ===== verification/FsInstance.v ===== *)
(** A mounted file system in memory, and histories of calls on it.

    The volume of [InodeInstance] is formatted and mounted; the histories show
    that the hypotheses of the theorems on [fs] can hold, and what goes wrong
    where the code does not do what it means to. *)

From S2P Require Import Prelude SortedMap Blunder NodeProgram Utils Dlm DlmFacts InodeTypes Extents ExtentsFacts ReadCache.
From S2P Require Import VolumeHandle InodeVolume InodeDir InodeFile InodeFileFacts InodeInstance.
From S2P Require Import FsProgram FsLocks FsFlock FsPath Fs FsMiddleware FsTreeWalk FsLockFacts FsNeutral FsClients FsFacts.
From S2P Require Import FsListing.
Open Scope list_scope.

Abbreviation memVolume := (volumeStruct memHandle swiftView).

#[export] Instance memInodes : InodeHandle memVolume := theHandle noClock.

Definition blankVolume : memVolume :=
  mkInodeVolume 1 "v" "a" true (mkLayout "gold" "c_" ["x"; "y"]%string 2 10 0 0) (emptyFlow 100 4 2)
    (mkMaps ∅ ∅ ∅, 0) (mkView ∅ ∅) ∅ ∅ 0 0.

(** The volume with its root directory. *)
Definition mounted : memVolume := (fetchVolumeHandle noClock blankVolume).1.

Definition startFs (v : memVolume) : fsState memVolume := mkFsState ∅ 1 v newFsVolume.

Definition after {A} (p : fsProg memVolume A) (s : fsState memVolume) : fsState memVolume := (runFs p s).1.

Definition rootUser : caller := mkCaller 0 0 [].

Abbreviation memTracker := (inFlightFileInodeDataTracker (I := memVolume) "v").

(** Histories: calls arrive, then goroutines are scheduled. *)
Definition calls (s : fsState memVolume) (cs : list fsCall) : system (I := memVolume) :=
  (s, map (fun c => Running (runFsCall "v" c)) cs).

Definition turns (n : nat) (i : nat) : list (nat * bool) := repeat (i, true) n.

Definition roomyb (s : fsState memVolume) : bool :=
  forallb (fun x => owners x.2 + waiters x.2 + 1 <? two64) (map_to_list (fsLocks s)).

Lemma roomyb_roomy s : roomyb s = true -> roomy s.
Proof.
  unfold roomyb, roomy. intros Hb l t Ht. rewrite forallb_forall in Hb. apply elem_of_map_to_list in Ht.
  apply list_elem_of_In in Ht. specialize (Hb _ Ht). simpl in Hb. lia.
Qed.

Lemma calls_sreach s cs : fsLocks s = ∅ -> sreach "v" (calls s cs).
Proof.
  intros Hs. unfold calls. induction cs as [|c cs IH] using rev_ind; [by constructor|].
  rewrite map_app. by apply (sreach_call "v").
Qed.

Fixpoint roomyRun (schedule : list (nat * bool)) (sys : system (I := memVolume)) : bool :=
  match schedule with
  | [] => true
  | c :: rest =>
      roomyb sys.1 && roomyRun rest (match stepSystem memTracker sys c with Some sys' => sys' | None => sys end)
  end.

Lemma run_sreach schedule : forall sys, sreach "v" sys -> roomyRun schedule sys = true ->
  sreach "v" (runSchedule memTracker schedule sys).
Proof.
  induction schedule as [|c rest IH]; intros sys Hs Hr; [done|]. simpl in Hr |- *. apply andb_true_iff in Hr as [Hb Hr].
  apply IH; [|exact Hr]. destruct (stepSystem memTracker sys c) as [sys'|] eqn:E; [|done].
  eapply (sreach_step "v"); [exact Hs|by apply roomyb_roomy|exact E].
Qed.

Definition emptyFs : fsState memVolume := startFs mounted.

(** The root directory with a directory "d" (inode 2), with a file "f" (inode
    2), with a link "l" (inode 2) to itself. *)
Definition dirFs : fsState memVolume := after (Mkdir "v" 0 0 [] RootDirInodeNumber "d" 511) emptyFs.
Definition fileFs : fsState memVolume := after (Create "v" 0 0 [] RootDirInodeNumber "f" 511) emptyFs.
Definition linkFs : fsState memVolume := after (Symlink "v" 0 0 [] RootDirInodeNumber "l" "l") emptyFs.

Definition busyFs : system (I := memVolume) :=
  runSchedule memTracker (turns 5 0 ++ turns 3 1) (calls dirFs [CRmdir rootUser 1 "d"; CGetstat 1]).

Lemma busyFs_sreach : sreach "v" busyFs.
Proof. apply run_sreach; [by apply calls_sreach|reflexivity]. Qed.


Definition doneFs : system (I := memVolume) :=
  runSchedule memTracker (turns 40 0 ++ turns 40 1) (calls dirFs [CRmdir rootUser 1 "d"; CGetstat 1]).

Lemma doneFs_sreach : sreach "v" doneFs.
Proof. apply run_sreach; [by apply calls_sreach|reflexivity]. Qed.

Lemma fs_releases_all_witness : fsLocks doneFs.1 = ∅.
Proof. apply (fs_releases_all "v"); [apply doneFs_sreach|reflexivity]. Defined.

Definition sampleFs : fsState memVolume := startFs sampleVolume.

Lemma fs_Write_then_Read_witness :
  exists s1 s2, runFs (Fs.Write "v" 0 0 [] 7 3 [1; 2]) sampleFs = (s1, FsRet (inr (zlen [1; 2])))
    /\ is_Some (inFlightFileInodeDataMap (fsVars s1) !! 7)
    /\ runFs (Fs.Read "v" 0 0 [] 7 3 (zlen [1; 2])) s1 = (s2, FsRet (inr [1; 2]))
    /\ fsLocks s2 = fsLocks sampleFs.
Proof.
  refine (fs_Write_then_Read noClock "v" sampleFs 7 0 emptyFile 0 0 [] 3 [1; 2] _ _ _ _ _ _ _ _).
  - apply sampleVolume_ready.
  - apply sampleVolume_room. unfold zlen; cbn; lia.
  - reflexivity.
  - reflexivity.
  - apply lookup_empty.
  - lia.
  - unfold zlen; cbn; lia.
  - unfold zlen, maxOffset, two64; cbn; lia.
Defined.

Lemma SetXAttr_flags_deadlock_witness :
  (runFs (SetXAttr "v" 0 0 [] 2 "user.x" [1] xattr_create) fileFs).2 = FsBlocked.
Proof.
  refine (SetXAttr_flags_deadlock "v" fileFs 2 0 0 [] "user.x" [1] xattr_create _ _ _).
  - left. reflexivity.
  - split; vm_compute; reflexivity.
  - vm_compute. reflexivity.
Defined.

Lemma symlink_loop_ends_witness :
  (exists s', runFs (resolvePathForRead "v" "l" None) linkFs = (s', FsRet (inl (NewError TooManySymlinksError)))
     /\ fsLocks s' = fsLocks linkFs)
  /\ forall callerID rest dirInodeLock fuel,
       (runFs (findDirs "v" callerID fuel ("l"%string :: rest) RootDirInodeNumber dirInodeLock) linkFs).2 = FsLoop.
Proof.
  apply (symlink_loop_ends "v" linkFs 2 "l"); [|vm_compute; reflexivity|vm_compute; reflexivity|done|done].
  constructor; vm_compute; reflexivity.
Defined.

(** ** Histories that go wrong *)

(** A client lists the directory "d" while another removes it. *)
Definition listAndRemove : system (I := memVolume) := calls dirFs [CReaddir rootUser 2 "" 0 0; CRmdir rootUser 1 "d"].

(** The order in which operations lock inodes is not consistent: [Readdir]
    locks the parent of the directory it lists, for the type of the entry "..",
    while it holds the directory, and [Rmdir] locks the directory while it holds
    the parent.  Run together they can reach a state in which neither of the two
    moves again. *)
Theorem Readdir_Rmdir_deadlock :
  exists schedule, sreach "v" (runSchedule memTracker schedule listAndRemove)
    /\ stuck memTracker (runSchedule memTracker schedule listAndRemove) = true.
Proof.
  exists (turns 5 0 ++ turns 30 1 ++ turns 30 0). split; [|vm_compute; reflexivity].
  apply run_sreach; [by apply calls_sreach|vm_compute; reflexivity].
Qed.

(** Two writes to a file, then the volume is unmounted. *)
Definition writesAndUnmount : system (I := memVolume) :=
  calls fileFs [CWrite rootUser 2 0 [1]; CWrite rootUser 2 5 [2]; CUntrackAll].

(** The data of inode [n] that is in no object yet. *)
Definition unflushed (sys : system (I := memVolume)) (n : Z) : bool :=
  match inodeCache (inodeVolume sys.1) !! n with
  | Some p => match inodeHeap (inodeVolume sys.1) !! p with
              | Some inode => dirty inode && bool_decide (is_Some (openLogSegment inode))
              | None => false
              end
  | None => false
  end.

(** A write can miss the flush at unmount: when the tracker of a file has
    flushed it on its timeout, the file stays in [inFlightFileInodeDataMap], so a
    later write starts no tracker, and [untrackInFlightFileInodeDataAll] waits
    for the one that has ended.  Every goroutine returns and nothing is tracked
    any more, but the bytes of the second write are in no object. *)
Theorem write_after_timeout_not_flushed :
  exists schedule, let sys := runSchedule memTracker schedule writesAndUnmount in
    sreach "v" sys /\ forallb ended sys.2 = true /\ inFlightFileInodeDataMap (fsVars sys.1) = ∅ /\ unflushed sys 2 = true.
Proof.
  exists (turns 40 0 ++ turns 40 3 ++ turns 40 1 ++ turns 40 2). split_and!; [|vm_compute; reflexivity..].
  apply run_sreach; [by apply calls_sreach|vm_compute; reflexivity].
Qed.

Definition containerFs : fsState memVolume := after (Mkdir "v" 0 0 [] RootDirInodeNumber "c" 511) emptyFs.

Definition putObject : FS memVolume (Z * Z * Z) := MiddlewarePutComplete "v" 20 "c" "o" [] [] [].

(** The link count in the record of inode [n], when it has one. *)
Definition recordedLinkCount (s : fsState memVolume) (n : Z) : option Z :=
  match inodeRecs (headhunterVolumeHandle (inodeVolume s)).1 !! n with
  | Some rec => match unpackInodeRec rec with Ret d => Some (LinkCount d) | _ => None end
  | None => None
  end.

(** Overwriting an object leaks the inode of the old one: the PUT succeeds
    and links the new inode, but [putObjectHelper] destroys the inode number of
    the outer variable, which is 0, so the old inode keeps its record with a link
    count of 0 and can never be reached again. *)
Theorem put_over_object_leaks_inode :
  exists old new mtime mtime' k k',
    let s1 := after putObject containerFs in
    let s2 := after putObject s1 in
    (runFs putObject containerFs).2 = FsRet (inr (mtime, old, k))
    /\ (runFs putObject s1).2 = FsRet (inr (mtime', new, k'))
    /\ (runFs (LookupPath "v" 0 0 [] "c/o") s2).2 = FsRet (inr new)
    /\ old <> new /\ recordedLinkCount s2 old = Some 0.
Proof. eexists _, _, _, _, _, _. split_and!; [vm_compute; reflexivity..|done|vm_compute; reflexivity]. Qed.

(** ** A listing *)

Definition containerEntries : list (string * Z) := [("."%string, 1); (".."%string, 1); ("c"%string, 2)].

(** [ReadDir] of a directory that is fetched without a change of the volume. *)
Lemma ReadDir_fetched (v : memVolume) d m maxEntries maxBufSize name : capacityOk maxEntries = true ->
  (p <~ fetchInodeType d DirType ;; inode <~ getInode p ;; sret (payload inode)) v = (v, Ret (DirPayload m)) ->
  hReadDir d maxEntries maxBufSize (AfterName name) v = (v, readDirEntries m maxEntries maxBufSize (AfterName name)).
Proof.
  intros Hc. change (hReadDir (I := memVolume)) with (InodeDir.ReadDir (V := memHandle) (W := swiftView)). unfold InodeDir.ReadDir. rewrite Hc. cbn [negb]. unfold sbind.
  destruct (fetchInodeType d DirType v) as [v1 [p| |]]; [|done..]. destruct (getInode p v1) as [v2 [inode| |]]; [|done..].
  unfold sret. intros [= -> ->]. reflexivity.
Qed.

Lemma containerFs_directory maxBufSize : directory RootDirInodeNumber maxBufSize (inodeVolume containerFs) containerEntries (fun _ => DirType).
Proof.
  constructor.
  - split; vm_compute; reflexivity.
  - intros maxEntries name _ Hc. apply ReadDir_fetched; [done|vm_compute; reflexivity].
  - repeat (apply Forall_cons_2; [split; [done|vm_compute; reflexivity]|]). apply Forall_nil_2.
  - cbn. repeat constructor.
  - done.
Qed.

Lemma MiddlewareGetAccount_lists_witness :
  exists pre post s', containerEntries = pre ++ post /\ resumesAt "" pre post
    /\ runFs (MiddlewareGetAccount "v" 4 5 "") containerFs
       = (s', FsRet (inr (take 5 (containersOf (fun _ => DirType) post))))
    /\ fsLocks s' = ∅.
Proof.
  apply (MiddlewareGetAccount_lists "v" containerFs containerEntries (fun _ => DirType) 4 5 "");
    [vm_compute; reflexivity|apply containerFs_directory|unfold two64; lia|reflexivity|cbn; lia].
Defined.
