(* ===== verification/Jrpcfs.v ===== *)
(** Package [jrpcfs]: its structs (api.go), its globals, the tables of mounts,
    start and change of configuration (config.go).

    A [fs.MountHandle] is a [mountStruct] of [FsConfig].  The mutex of the
    globals makes each access to the tables atomic.  Embedded structs are
    fields.  A request struct that only embeds a handle is that handle. *)

From S2P Require Import Prelude Blunder Utils GoStrings Conf ConfSections InodeTypes InodeConfig FsProgram FsConfig FsPath.
Open Scope list_scope.

(** ** Requests on inodes and paths *)

Record InodeHandleStruct := mkInodeHandle { ih_MountID : Z; ih_InodeNumber : Z }.
Record PathHandle := mkPathHandle { ph_MountID : Z; ph_Fullpath : string }.

Record StatStruct := mkStat {
  CTimeNs : Z;
  CRTimeNs : Z;
  MTimeNs : Z;
  ATimeNs : Z;
  st_Size : Z;
  st_NumLinks : Z;
  StatInodeNumber : Z;
  st_FileMode : Z;
  st_UserID : Z;
  st_GroupID : Z
}.

Record ChmodRequest := mkChmod { chmod_Handle : InodeHandleStruct; chmod_FileMode : Z }.
Record ChmodPathRequest := mkChmodPath { chmodPath_Handle : PathHandle; chmodPath_FileMode : Z }.
Record ChownRequest := mkChown { chown_Handle : InodeHandleStruct; chown_UserID : Z; chown_GroupID : Z }.
Record ChownPathRequest := mkChownPath { chownPath_Handle : PathHandle; chownPath_UserID : Z; chownPath_GroupID : Z }.
Record CreateRequest := mkCreate {
  create_Handle : InodeHandleStruct; create_Basename : string; create_UserID : Z; create_GroupID : Z; create_FileMode : Z }.
Record CreatePathRequest := mkCreatePath {
  createPath_Handle : PathHandle; createPath_UserID : Z; createPath_GroupID : Z; createPath_FileMode : Z }.
Record FlushRequest := mkFlush { flush_Handle : InodeHandleStruct; flush_SendTimeSec : Z; flush_SendTimeNsec : Z }.
Definition GetStatRequest : Type := InodeHandleStruct.
Definition GetStatPathRequest : Type := PathHandle.
Record GetXAttrRequest := mkGetXAttr { getXAttr_Handle : InodeHandleStruct; getXAttr_AttrName : string }.
Record GetXAttrPathRequest := mkGetXAttrPath { getXAttrPath_Handle : PathHandle; getXAttrPath_AttrName : string }.
Record FlockRequest := mkFlockRequest {
  flock_Handle : InodeHandleStruct; FlockCmd : Z; FlockType : Z; FlockWhence : Z; FlockStart : Z; FlockLen : Z; FlockPid : Z }.
Definition LookupPathRequest : Type := PathHandle.
Record LinkRequest := mkLink { link_Handle : InodeHandleStruct; link_Basename : string; link_TargetInodeNumber : Z }.
Record LinkPathRequest := mkLinkPath { linkPath_Handle : PathHandle; linkPath_TargetFullpath : string }.
Definition ListXAttrRequest : Type := InodeHandleStruct.
Definition ListXAttrPathRequest : Type := PathHandle.
Record LookupRequest := mkLookup { lookup_Handle : InodeHandleStruct; lookup_Basename : string }.
Record MkdirRequest := mkMkdir {
  mkdir_Handle : InodeHandleStruct; mkdir_Basename : string; mkdir_UserID : Z; mkdir_GroupID : Z; mkdir_FileMode : Z }.
Record MkdirPathRequest := mkMkdirPath {
  mkdirPath_Handle : PathHandle; mkdirPath_UserID : Z; mkdirPath_GroupID : Z; mkdirPath_FileMode : Z }.
Record MountRequest := mkMountRequest {
  mount_VolumeName : string; mount_MountOptions : Z; mount_AuthUserID : Z; mount_AuthGroupID : Z }.
Record ReaddirRequest := mkReaddir { readdir_Handle : InodeHandleStruct; readdir_PrevDirLocation : Z }.
Record ReaddirPlusRequest := mkReaddirPlus { readdirPlus_Handle : InodeHandleStruct; readdirPlus_PrevDirLocation : Z }.
Record ReadRequest := mkRead {
  read_Handle : InodeHandleStruct; read_Offset : Z; read_Length : Z; read_SendTimeSec : Z; read_SendTimeNsec : Z }.
Definition ReadSymlinkRequest : Type := InodeHandleStruct.
Definition ReadSymlinkPathRequest : Type := PathHandle.
Record RemoveXAttrRequest := mkRemoveXAttr { removeXAttr_Handle : InodeHandleStruct; removeXAttr_AttrName : string }.
Record RemoveXAttrPathRequest := mkRemoveXAttrPath { removeXAttrPath_Handle : PathHandle; removeXAttrPath_AttrName : string }.
Record RenameRequest := mkRename {
  rename_MountID : Z; SrcDirInodeNumber : Z; SrcBasename : string; DstDirInodeNumber : Z; DstBasename : string }.
Record RenamePathRequest := mkRenamePath { renamePath_Handle : PathHandle; DstFullpath : string }.
Record ResizeRequest := mkResize { resize_Handle : InodeHandleStruct; NewSize : Z }.
Record SetstatRequest := mkSetstat { setstat_Handle : InodeHandleStruct; setstat_Stat : StatStruct }.
Record SetTimeRequest := mkSetTime { setTime_Handle : InodeHandleStruct; setTime_Stat : StatStruct }.
Record SetTimePathRequest := mkSetTimePath { setTimePath_Handle : PathHandle; setTimePath_Stat : StatStruct }.
Record SetXAttrRequest := mkSetXAttr {
  setXAttr_Handle : InodeHandleStruct; setXAttr_AttrName : string; setXAttr_AttrValue : bytes; setXAttr_AttrFlags : Z }.
Record SetXAttrPathRequest := mkSetXAttrPath {
  setXAttrPath_Handle : PathHandle; setXAttrPath_AttrName : string; setXAttrPath_AttrValue : bytes; setXAttrPath_AttrFlags : Z }.
Record StatVFSRequest := mkStatVFSRequest { statVFS_MountID : Z }.
Record SymlinkRequest := mkSymlink {
  symlink_Handle : InodeHandleStruct; symlink_Basename : string; symlink_Target : string; symlink_UserID : Z; symlink_GroupID : Z }.
Record SymlinkPathRequest := mkSymlinkPath {
  symlinkPath_Handle : PathHandle; symlinkPath_TargetFullpath : string; symlinkPath_UserID : Z; symlinkPath_GroupID : Z }.
Definition TypeRequest : Type := InodeHandleStruct.
Record UnlinkRequest := mkUnlink { unlink_Handle : InodeHandleStruct; unlink_Basename : string }.
Definition UnlinkPathRequest : Type := PathHandle.
Record WriteRequest := mkWrite {
  write_Handle : InodeHandleStruct; write_Offset : Z; write_Buf : bytes; write_SendTimeSec : Z; write_SendTimeNsec : Z }.

(** ** Replies *)

Record Reply := mkReply { RequestTimeSec : Z; RequestTimeNsec : Z; SendTimeSec : Z; SendTimeNsec : Z }.
Record InodeReply := mkInodeReply { InodeNumber : Z }.
Record GetXAttrReply := mkGetXAttrReply { AttrValueSize : Z; AttrValue : bytes }.
Record FlockReply := mkFlockReply { reply_Type : Z; reply_Whence : Z; reply_Start : Z; reply_Len : Z; reply_Pid : Z }.
Record ListXAttrReply := mkListXAttrReply { AttrNames : list string }.
Record MountReply := mkMountReply { MountID : Z; RootDirInodeNumberReply : Z }.
Record DirEntryReply := mkDirEntryReply { dir_InodeNumber : Z; dir_FileType : Z; dir_Basename : string; dir_NextDirLocation : Z }.
Record ReaddirReply := mkReaddirReply { DirEnts : list DirEntryReply }.
Record ReaddirPlusReply := mkReaddirPlusReply { plus_DirEnts : list DirEntryReply; plus_StatEnts : list StatStruct }.
Record ReadReply := mkReadReply { read_Buf : bytes; read_Times : Reply }.
Record ReadSymlinkReply := mkReadSymlinkReply { Target : string }.
Record StatVFS := mkStatVFS {
  BlockSize : Z; FragmentSize : Z; TotalBlocks : Z; FreeBlocks : Z; AvailBlocks : Z; TotalInodes : Z; FreeInodes : Z;
  AvailInodes : Z; FileSystemID : Z; MountFlags : Z; MaxFilenameLen : Z }.
Record TypeReply := mkTypeReply { reply_FileType : Z }.
Record WriteReply := mkWriteReply { written_Size : Z; written_Times : Reply }.

(** A reply that the handler leaves as it was allocated. *)
Definition noReply : Reply := mkReply 0 0 0 0.

(** ** Globals *)

Record jrpcGlobals := mkJrpc {
  jg_whoAmI : string;
  ipAddr : string;
  portString : string;
  fastPortString : string;
  dataPathLogging : bool;
  jg_volumeMap : gset string;
  mountIDMap : gmap Z mountStruct;
  jg_lastMountID : Z;
  bimodalMountMap : gmap string mountStruct;
  gateLocked : bool
}.

#[export] Instance eta_jrpc : Eta jrpcGlobals := fun g =>
  mkJrpc (jg_whoAmI g) (ipAddr g) (portString g) (fastPortString g) (dataPathLogging g) (jg_volumeMap g) (mountIDMap g)
    (jg_lastMountID g) (bimodalMountMap g) (gateLocked g).

Definition allocateMountID (mountHandle : mountStruct) (g : jrpcGlobals) : jrpcGlobals * Z :=
  let mountID := jg_lastMountID g +u 1 in
  (g <| jg_lastMountID := mountID |> <| mountIDMap := <[mountID := mountHandle]> (mountIDMap g) |>, mountID).

Definition lookupMountHandle (g : jrpcGlobals) (mountID : Z) : error + mountStruct :=
  match mountIDMap g !! mountID with
  | Some mountHandle => inr mountHandle
  | None => inl (AddError (Some plain) BadMountIDError)
  end.

(** ** Handlers

    A handler ends without a call of a mount, or with the program that it runs
    on the volume of a mount handle, or with a panic, which net/rpc does not
    recover from.  A reply with an error is not sent. *)

Inductive handler (I R : Type) : Type :=
| HDone (r : error + R)
| HMount (mountHandle : mountStruct) (p : FS I R)
| HCrash.
Arguments HDone {I R} r.
Arguments HMount {I R} mountHandle p.
Arguments HCrash {I R}.

(** A handler starts by looking its mount up. *)
Definition onMount {I R} (g : jrpcGlobals) (mountID : Z) (body : string -> FS I R) : handler I R :=
  match lookupMountHandle g mountID with
  | inl e => HDone (inl e)
  | inr mountHandle => HMount mountHandle (body (mount_volume mountHandle))
  end.

(** [fmt.Errorf("errno: %d", blunder.Errno( * e))], the text of an error on its
    way to the client. *)
Definition rpcEncodeError (e : error) : string := ("errno: " ++ formatInt (Errno (Some e)))%string.

(** [filepath.Dir] and [filepath.Base]. *)
Definition Dir (path : string) : string := Clean (SplitFile path).1.

Fixpoint trimSlashes (components : list string) : list string :=
  match components with
  | x :: rest => if String.eqb x EmptyString then trimSlashes rest else components
  | [] => []
  end.

Definition Base (path : string) : string :=
  if String.eqb path EmptyString then "."%string
  else match trimSlashes (rev (Split slash path)) with [] => "/"%string | x :: _ => x end.

Definition splitPath (fullpath : string) : string * string := (Dir fullpath, Base fullpath).

Example splitPath_examples :
  map splitPath ["/d/e/f"; "c/o"; "f"; "/"; "/d/"; ""]%string
  = [("/d/e", "f"); ("c", "o"); (".", "f"); ("/", "/"); ("/d", "d"); (".", ".")]%string.
Proof. reflexivity. Qed.

(** Seconds and nanoseconds of a time. *)
Definition UnixSec (t : Z) : Z := t / 1000000000.
Definition UnixNanosec (t : Z) : Z := t - UnixSec t * 1000000000.

(** Package [jrpcfs]: start, change of configuration and stop (config.go).

    [gateLocked] says that the gate is locked for writing.  Locking a locked
    gate waits for ever, unlocking an unlocked one is a panic.  The two servers
    that [Up] starts and [Down] stops are sockets, which are not modelled. *)

Section Config.
Context `{!MapRange}.

Abbreviation JG A := (St jrpcGlobals error A).

Definition Up (confMap : ConfMap) (namespaced : bool) : JG unit :=
  smod (fun g => g <| mountIDMap := ∅ |> <| jg_lastMountID := 0 |> <| bimodalMountMap := ∅ |>) ;;~
  assign (FetchOptionValueString confMap "Cluster" "WhoAmI") EmptyString (fun s g => g <| jg_whoAmI := s |>) ;;~
  g <~ sget ;;
  assign (FetchOptionValueString confMap (PeerNameConfSection namespaced (jg_whoAmI g)) "PrivateIPAddr") EmptyString
    (fun s g => g <| ipAddr := s |>) ;;~
  assign (FetchOptionValueString confMap "JSONRPCServer" "TCPPort") EmptyString (fun s g => g <| portString := s |>) ;;~
  assign (FetchOptionValueString confMap "JSONRPCServer" "FastTCPPort") EmptyString (fun s g => g <| fastPortString := s |>) ;;~
  assign (FetchOptionValueBool confMap "JSONRPCServer" "DataPathLogging") false (fun b g => g <| dataPathLogging := b |>) ;;~
  volumeList <~ slift (volumeListOf confMap) ;;
  smod (fun g => g <| jg_volumeMap := ∅ |>) ;;~
  sfor volumeList (fun volumeName =>
    ifPrimary confMap namespaced (jg_whoAmI g) volumeName (smod (fun g => g <| jg_volumeMap := {[volumeName]} ∪ jg_volumeMap g |>))).

(** A value that may not change. *)
Definition unchanged {A} `{!EqDecision A} (fetch : res A) (old : jrpcGlobals -> A) : JG unit :=
  new <~ slift fetch ;;
  g <~ sget ;;
  if bool_decide (new = old g) then sret tt else serr plain.

Definition lockGate : JG unit := g <~ sget ;; if gateLocked g then spanic else smod (fun g => g <| gateLocked := true |>).
Definition unlockGate : JG unit := g <~ sget ;; if gateLocked g then smod (fun g => g <| gateLocked := false |>) else spanic.

(** The volumes of the new configuration, as the globals tell who this peer is. *)
Definition updatedVolumes (confMap : ConfMap) (namespaced : bool) : JG (gset string) :=
  volumeList <~ slift (volumeListOf confMap) ;;
  g <~ sget ;;
  slift (servedVolumes confMap namespaced (jg_whoAmI g) volumeList).

(** The handles of volumes that go are forgotten. *)
Definition forget (removed : gset string) (g : jrpcGlobals) : jrpcGlobals :=
  g <| jg_volumeMap := jg_volumeMap g ∖ removed |>
    <| bimodalMountMap := filter (fun p => p.1 ∉ removed) (bimodalMountMap g) |>
    <| mountIDMap := filter (fun p => mount_volume p.2 ∉ removed) (mountIDMap g) |>.

Definition PauseAndContract (confMap : ConfMap) (namespaced : bool) : JG unit :=
  unchanged (FetchOptionValueString confMap "Cluster" "WhoAmI") jg_whoAmI ;;~
  g <~ sget ;;
  unchanged (FetchOptionValueString confMap (PeerNameConfSection namespaced (jg_whoAmI g)) "PrivateIPAddr") ipAddr ;;~
  unchanged (FetchOptionValueString confMap "JSONRPCServer" "TCPPort") portString ;;~
  unchanged (FetchOptionValueString confMap "JSONRPCServer" "FastTCPPort") fastPortString ;;~
  unchanged (FetchOptionValueBool confMap "JSONRPCServer" "DataPathLogging") dataPathLogging ;;~
  lockGate ;;~
  updatedVolumeMap <~ updatedVolumes confMap namespaced ;;
  smod (fun g => forget (jg_volumeMap g ∖ updatedVolumeMap) g).

Definition ExpandAndResume (confMap : ConfMap) (namespaced : bool) : JG unit :=
  updatedVolumeMap <~ updatedVolumes confMap namespaced ;;
  smod (fun g => g <| jg_volumeMap := updatedVolumeMap |>) ;;~
  unlockGate.

Definition Down : JG unit := sret tt.
End Config.
