(* ===== verification/JrpcfsConfigFacts.v ===== *)
(** The handles that [jrpcfs] gives out are mounts of package [fs], and stay so
    across a change of configuration. *)

From S2P Require Import Prelude Blunder Utils GoStrings Conf ConfSections FsProgram FsLocks FsConfig Jrpcfs.
Open Scope list_scope.

(** Every handle that a client can name is a mount. *)
Record handlesOk (j : jrpcGlobals) (g : fsGlobals) : Prop := {
  ho_ids : forall id h, mountIDMap j !! id = Some h -> mountMap g !! mount_id h = Some h /\ 0 < id <= jg_lastMountID j;
  ho_bimodal : forall name h, bimodalMountMap j !! name = Some h -> mountMap g !! mount_id h = Some h /\ mount_volume h = name;
  ho_last : 0 <= jg_lastMountID j < two64
}.

(** More mounts do not spoil a handle. *)
Lemma handlesOk_mono j g g' : mountMap g ⊆ mountMap g' -> handlesOk j g -> handlesOk j g'.
Proof.
  intros Hsub [H1 H2 H3]. split; [| |done].
  - intros id h Hi. destruct (H1 _ _ Hi). split; [by eapply lookup_weaken|done].
  - intros name h Hi. destruct (H2 _ _ Hi). split; [by eapply lookup_weaken|done].
Qed.

Lemma allocateMountID_ok mountHandle j g : handlesOk j g -> jg_lastMountID j + 1 < two64 ->
  mountMap g !! mount_id mountHandle = Some mountHandle ->
  let '(j', mountID) := allocateMountID mountHandle j in
  handlesOk j' g /\ mountIDMap j !! mountID = None /\ lookupMountHandle j' mountID = inr mountHandle /\ mountID <> 0
  /\ forall id h, lookupMountHandle j id = inr h -> lookupMountHandle j' id = inr h.
Proof.
  intros [H1 H2 H3] Hroom Hh. unfold allocateMountID, lookupMountHandle, uadd. cbn. rewrite u64_small by (unfold is_u64; lia).
  assert (Hnew : mountIDMap j !! (jg_lastMountID j + 1) = None).
  { destruct (mountIDMap j !! (jg_lastMountID j + 1)) as [h|] eqn:Hi; [|done]. destruct (H1 _ _ Hi). lia. }
  split; [|split; [done|split; [by rewrite lookup_insert_eq|split; [lia|]]]].
  - split; cbn; [|done|lia]. intros id h [[<- <-]|[_ Hi]]%lookup_insert_Some; [split; [done|lia]|].
    destruct (H1 _ _ Hi). split; [done|lia].
  - intros id h Hi. destruct (mountIDMap j !! id) as [h'|] eqn:Hid; [|done]. by rewrite lookup_insert_ne, Hid by congruence.
Qed.

Section Facts.
Context `{!MapRange} `{!MapRangeOk}.

Lemma unchanged_ret {A} `{!EqDecision A} (fetch : res A) old (j j' : jrpcGlobals) :
  unchanged fetch old j = (j', Ret tt) -> fetch = Ret (old j) /\ j' = j.
Proof. unfold unchanged. intros HR. ret_step HR. ret_step HR. case_bool_decide; [|done]. injection HR as <-. by subst. Qed.

Lemma lockGate_ret (j j' : jrpcGlobals) : lockGate j = (j', Ret tt) -> gateLocked j = false /\ j' = j <| gateLocked := true |>.
Proof. unfold lockGate. intros HR. ret_step HR. destruct (gateLocked j); [done|]. by injection HR as <-. Qed.

Lemma unlockGate_ret (j j' : jrpcGlobals) : unlockGate j = (j', Ret tt) -> gateLocked j = true /\ j' = j <| gateLocked := false |>.
Proof. unfold unlockGate. intros HR. ret_step HR. destruct (gateLocked j); [|done]. by injection HR as <-. Qed.

Lemma updatedVolumes_ret confMap namespaced (j j' : jrpcGlobals) X :
  updatedVolumes confMap namespaced j = (j', Ret X) -> j' = j /\ X = servedBy confMap namespaced (jg_whoAmI j).
Proof.
  unfold updatedVolumes. intros HR. ret_step HR. ret_step HR. injection HR as <- Hs. split; [done|].
  apply set_eq. intros name. rewrite (servedBy_elem _ _ _ _ _ E). by apply servedVolumes_elem.
Qed.

Lemma jrpcPause_ret confMap namespaced (j j' : jrpcGlobals) :
  PauseAndContract confMap namespaced j = (j', Ret tt) ->
  gateLocked j = false
  /\ j' = forget (jg_volumeMap j ∖ servedBy confMap namespaced (jg_whoAmI j)) (j <| gateLocked := true |>).
Proof.
  unfold PauseAndContract. intros HR.
  do 6 (ret_step HR; try match goal with E : unchanged _ _ _ = (_, Ret ?a) |- _ => destruct a; apply unchanged_ret in E as [_ ->] end).
  ret_step HR. match goal with E : lockGate _ = (_, Ret ?a) |- _ => destruct a; apply lockGate_ret in E as [Hg ->] end. split; [done|].
  ret_step HR. match goal with E : updatedVolumes _ _ _ = _ |- _ => apply updatedVolumes_ret in E as [-> ->] end. by injection HR as <-.
Qed.

Lemma jrpcExpand_ret confMap namespaced (j j' : jrpcGlobals) :
  ExpandAndResume confMap namespaced j = (j', Ret tt) ->
  gateLocked j = true /\ j' = j <| jg_volumeMap := servedBy confMap namespaced (jg_whoAmI j) |> <| gateLocked := false |>.
Proof.
  unfold ExpandAndResume. intros HR. ret_step HR. apply updatedVolumes_ret in E as [-> ->]. ret_step HR.
  by apply unlockGate_ret in HR as [? ->].
Qed.

Lemma jrpcUp_ret confMap namespaced (j j' : jrpcGlobals) :
  Up confMap namespaced j = (j', Ret tt) ->
  FetchOptionValueString confMap "Cluster" "WhoAmI" = Ret (jg_whoAmI j') /\ mountIDMap j' = ∅ /\ bimodalMountMap j' = ∅
  /\ jg_lastMountID j' = 0 /\ jg_volumeMap j' = servedBy confMap namespaced (jg_whoAmI j') /\ gateLocked j' = gateLocked j.
Proof.
  unfold Up. intros HR. do 9 ret_step HR.
  match type of HR with sfor _ _ ?s0 = _ => set (j0 := s0) in HR end.
  enough (Hg : j' = j0 <| jg_volumeMap := servedBy confMap namespaced (jg_whoAmI j0) |>) by (rewrite Hg; done).
  refine (servedLoop_ind (fun X u => u = j0 <| jg_volumeMap := X |>) _ _ _ _ _ _ _ _ _ _ HR).
  - done.
  - done.
  - intros X name u u' -> [= <-]. done.
Qed.

(** The handles that [forget] keeps are mounts that [fs] keeps. *)
Lemma forget_ok confMap namespaced j g g' : handlesOk j g -> mountsOk g -> jg_volumeMap j = dom (fs_volumeMap g) ->
  (forall id m, mountMap g' !! id = Some m <->
     mountMap g !! id = Some m /\ mount_volume m ∈ servedBy confMap namespaced (jg_whoAmI j)) ->
  handlesOk (forget (jg_volumeMap j ∖ servedBy confMap namespaced (jg_whoAmI j)) j) g'.
Proof.
  intros [H1 H2 H3] [Hm _ _] Hd Hg.
  assert (Hkeep : forall h, mountMap g !! mount_id h = Some h -> mount_volume h ∉ jg_volumeMap j ∖ servedBy confMap namespaced (jg_whoAmI j) ->
    mountMap g' !! mount_id h = Some h).
  { intros h Hh Hn. apply Hg. split; [done|]. destruct (Hm _ _ Hh) as (_ & _ & v & Hv & _). apply (elem_of_dom_2 (D := gset string)) in Hv.
    rewrite <- Hd in Hv. destruct (decide (mount_volume h ∈ servedBy confMap namespaced (jg_whoAmI j))); [done|]. exfalso. set_solver. }
  split; cbn; [| |done].
  - intros id h [Hi Hn]%map_lookup_filter_Some. destruct (H1 _ _ Hi). split; [by apply Hkeep|done].
  - intros name h [Hi Hn]%map_lookup_filter_Some. destruct (H2 _ _ Hi) as [? <-]. split; [by apply Hkeep|done].
Qed.
End Facts.
