(* ===== verification/JrpcfsFilesystem.v ===== *)
(** Package [jrpcfs]: the handlers of filesystem.go, and after them those of
    middleware.go and ping.go.

    Each looks the mount of its request up and works as root on the mount, by
    inode number or, for the handlers named [...Path], after resolving a path.
    The clock readings of a handler are its arguments.  Profiling is off, and
    tracing is left out. *)

From S2P Require Import Prelude Blunder Utils GoStrings Conf ConfSections Dlm InodeTypes InodeVolume InodeDir InodeFile InodeConfig FsProgram FsLocks FsConfig FsFlock FsPath Fs FsMiddleware Jrpcfs.
Open Scope list_scope.

(** The keys of [Setstat] that a request sets. *)
Definition ownerStat (userID groupID : Z) : Stat :=
  (if userID =? -1 then id else <[StatUserID := u64 userID]>)
    ((if groupID =? -1 then id else <[StatGroupID := u64 groupID]>) ∅).

Definition timeStat (stat : StatStruct) : Stat := <[StatMTime := MTimeNs stat]> (<[StatATime := ATimeNs stat]> ∅).

Definition setStat (stat : StatStruct) : Stat :=
  list_to_map
    [(StatCRTime, CRTimeNs stat); (StatCTime, CTimeNs stat); (StatMTime, MTimeNs stat); (StatATime, ATimeNs stat);
     (StatSize, st_Size stat); (StatNLink, st_NumLinks stat)].

(** [fsStat[key]] is 0 without the key. *)
Definition fsStatToStatStruct (fsStat : Stat) : StatStruct :=
  let at_ := statField fsStat in
  mkStat (at_ StatCTime) (at_ StatCRTime) (at_ StatMTime) (at_ StatATime) (at_ StatSize) (at_ StatNLink) (at_ StatINum)
    (u32 (at_ StatMode)) (u32 (at_ StatUserID)) (u32 (at_ StatGroupID)).

Definition fsDirentToDirEntryStruct (fsDirent : DirEntry) : DirEntryReply :=
  mkDirEntryReply (de_InodeNumber fsDirent) (de_Type fsDirent mod 65536) (de_Basename fsDirent) (u32 (de_NextDirLocation fsDirent)).

Definition timesReply (requestRecTime replySendTime : Z) : Reply :=
  mkReply (UnixSec requestRecTime) (UnixNanosec requestRecTime) (UnixSec replySendTime) (UnixNanosec replySendTime).

Section Filesystem.
Context {I : Type} `{!InodeHandle I}.

Abbreviation root f := (f InodeRootUserID InodeRootGroupID (@nil Z)) (only parsing).

Definition done {R} (reply : R) (m : FS I unit) : FS I R := m ;;! fret reply.

(** A request with an inode handle, and one with a path. *)
Definition onInode {R} (g : jrpcGlobals) (h : InodeHandleStruct) (body : string -> Z -> FS I R) : handler I R :=
  onMount g (ih_MountID h) (fun v => body v (ih_InodeNumber h)).

Definition lookupAs {R} (userID groupID : Z) (v path : string) (body : Z -> FS I R) : FS I R :=
  ino <! LookupPath v userID groupID [] path ;; body ino.

Definition onPath {R} (g : jrpcGlobals) (h : PathHandle) (body : string -> Z -> FS I R) : handler I R :=
  onMount g (ph_MountID h) (fun v => lookupAs InodeRootUserID InodeRootGroupID v (ph_Fullpath h) (body v)).

(** The directory of a path for a user, and the base name. *)
Definition inParentAs {R} (userID groupID : Z) (v fullpath : string) (body : Z -> string -> FS I R) : FS I R :=
  let '(parentDir, basename) := splitPath fullpath in
  lookupAs userID groupID v parentDir (fun ino => body ino basename).

(** ** Attributes *)

Definition RpcChown (g : jrpcGlobals) (in_ : ChownRequest) : handler I Reply :=
  onInode g (chown_Handle in_) (fun v ino =>
    done noReply (root (Setstat v) ino (ownerStat (chown_UserID in_) (chown_GroupID in_)))).

Definition RpcChownPath (g : jrpcGlobals) (in_ : ChownPathRequest) : handler I Reply :=
  onPath g (chownPath_Handle in_) (fun v ino =>
    done noReply (root (Setstat v) ino (ownerStat (chownPath_UserID in_) (chownPath_GroupID in_)))).

Definition RpcChmod (g : jrpcGlobals) (in_ : ChmodRequest) : handler I Reply :=
  onInode g (chmod_Handle in_) (fun v ino => done noReply (root (Setstat v) ino {[StatMode := chmod_FileMode in_]})).

Definition RpcChmodPath (g : jrpcGlobals) (in_ : ChmodPathRequest) : handler I Reply :=
  onPath g (chmodPath_Handle in_) (fun v ino => done noReply (root (Setstat v) ino {[StatMode := chmodPath_FileMode in_]})).

Definition RpcSetstat (g : jrpcGlobals) (in_ : SetstatRequest) : handler I Reply :=
  onInode g (setstat_Handle in_) (fun v ino => done noReply (root (Setstat v) ino (setStat (setstat_Stat in_)))).

Definition RpcSetTime (g : jrpcGlobals) (in_ : SetTimeRequest) : handler I Reply :=
  onInode g (setTime_Handle in_) (fun v ino => done noReply (root (Setstat v) ino (timeStat (setTime_Stat in_)))).

Definition RpcSetTimePath (g : jrpcGlobals) (in_ : SetTimePathRequest) : handler I Reply :=
  onPath g (setTimePath_Handle in_) (fun v ino => done noReply (root (Setstat v) ino (timeStat (setTimePath_Stat in_)))).

Definition RpcGetStat (g : jrpcGlobals) (in_ : GetStatRequest) : handler I StatStruct :=
  onInode g in_ (fun v ino => stat <! Getstat v ino ;; fret (fsStatToStatStruct stat)).

Definition RpcGetStatPath (g : jrpcGlobals) (in_ : GetStatPathRequest) : handler I StatStruct :=
  onPath g in_ (fun v ino => stat <! Getstat v ino ;; fret (fsStatToStatStruct stat)).

Definition RpcType (g : jrpcGlobals) (in_ : TypeRequest) : handler I TypeReply :=
  onInode g in_ (fun v ino => ftype <! GetType v ino ;; fret (mkTypeReply (ftype mod 65536))).

Definition statVFSReply (statvfs : gmap Z Z) : StatVFS :=
  let at_ := statField statvfs in
  mkStatVFS (at_ 1) (at_ 2) (at_ 3) (at_ 4) (at_ 5) (at_ 6) (at_ 7) (at_ 8) (at_ 9) (at_ 10) (at_ 11).

Definition RpcStatVFS (g : jrpcGlobals) (in_ : StatVFSRequest) : handler I StatVFS :=
  onMount g (statVFS_MountID in_) (fun _ => statvfs <! StatVfs ;; fret (statVFSReply statvfs)).

(** ** Extended attributes *)

(** The reply of the first has no size. *)
Definition RpcGetXAttr (g : jrpcGlobals) (in_ : GetXAttrRequest) : handler I GetXAttrReply :=
  onInode g (getXAttr_Handle in_) (fun v ino =>
    value <! root (GetXAttr v) ino (getXAttr_AttrName in_) ;; fret (mkGetXAttrReply 0 value)).

Definition RpcGetXAttrPath (g : jrpcGlobals) (in_ : GetXAttrPathRequest) : handler I GetXAttrReply :=
  onPath g (getXAttrPath_Handle in_) (fun v ino =>
    value <! root (GetXAttr v) ino (getXAttrPath_AttrName in_) ;; fret (mkGetXAttrReply (zlen value) value)).

Definition RpcListXAttr (g : jrpcGlobals) (in_ : ListXAttrRequest) : handler I ListXAttrReply :=
  onInode g in_ (fun v ino => names <! root (ListXAttr v) ino ;; fret (mkListXAttrReply names)).

Definition RpcListXAttrPath (g : jrpcGlobals) (in_ : ListXAttrPathRequest) : handler I ListXAttrReply :=
  onPath g in_ (fun v ino => names <! root (ListXAttr v) ino ;; fret (mkListXAttrReply names)).

Definition RpcRemovetXAttr (g : jrpcGlobals) (in_ : RemoveXAttrRequest) : handler I Reply :=
  onInode g (removeXAttr_Handle in_) (fun v ino => done noReply (root (RemoveXAttr v) ino (removeXAttr_AttrName in_))).

Definition RpcRemoveAttrPath (g : jrpcGlobals) (in_ : RemoveXAttrPathRequest) : handler I Reply :=
  onPath g (removeXAttrPath_Handle in_) (fun v ino => done noReply (root (RemoveXAttr v) ino (removeXAttrPath_AttrName in_))).

Definition RpcSetXAttr (g : jrpcGlobals) (in_ : SetXAttrRequest) : handler I Reply :=
  onInode g (setXAttr_Handle in_) (fun v ino =>
    done noReply (root (SetXAttr v) ino (setXAttr_AttrName in_) (setXAttr_AttrValue in_) (setXAttr_AttrFlags in_))).

Definition RpcSetXAttrPath (g : jrpcGlobals) (in_ : SetXAttrPathRequest) : handler I Reply :=
  onPath g (setXAttrPath_Handle in_) (fun v ino =>
    done noReply (root (SetXAttr v) ino (setXAttrPath_AttrName in_) (setXAttrPath_AttrValue in_) (setXAttrPath_AttrFlags in_))).

(** ** Directories *)

Definition RpcCreate (g : jrpcGlobals) (in_ : CreateRequest) : handler I InodeReply :=
  onInode g (create_Handle in_) (fun v ino =>
    fino <! Create v (u32 (create_UserID in_)) (u32 (create_GroupID in_)) [] ino (create_Basename in_) (create_FileMode in_) ;;
    fret (mkInodeReply fino)).

Definition RpcCreatePath (g : jrpcGlobals) (in_ : CreatePathRequest) : handler I InodeReply :=
  let '(userID, groupID) := (u32 (createPath_UserID in_), u32 (createPath_GroupID in_)) in
  let h := createPath_Handle in_ in
  onMount g (ph_MountID h) (fun v =>
    validateFullPath (ph_Fullpath h) ;;!
    inParentAs userID groupID v (ph_Fullpath h) (fun ino basename =>
      fino <! Create v userID groupID [] ino basename (createPath_FileMode in_) ;;
      fret (mkInodeReply fino))).

Definition RpcMkdir (g : jrpcGlobals) (in_ : MkdirRequest) : handler I InodeReply :=
  onInode g (mkdir_Handle in_) (fun v dir =>
    ino <! Mkdir v (u32 (mkdir_UserID in_)) (u32 (mkdir_GroupID in_)) [] dir (mkdir_Basename in_) (mkdir_FileMode in_) ;;
    fret (mkInodeReply ino)).

Definition RpcMkdirPath (g : jrpcGlobals) (in_ : MkdirPathRequest) : handler I Reply :=
  let '(userID, groupID) := (u32 (mkdirPath_UserID in_), u32 (mkdirPath_GroupID in_)) in
  let h := mkdirPath_Handle in_ in
  onMount g (ph_MountID h) (fun v =>
    validateFullPath (ph_Fullpath h) ;;!
    inParentAs userID groupID v (ph_Fullpath h) (fun ino basename =>
      Mkdir v userID groupID [] ino basename (mkdirPath_FileMode in_) ;;! fret noReply)).

Definition RpcSymlink (g : jrpcGlobals) (in_ : SymlinkRequest) : handler I Reply :=
  onInode g (symlink_Handle in_) (fun v ino =>
    Symlink v (u32 (symlink_UserID in_)) (u32 (symlink_GroupID in_)) [] ino (symlink_Basename in_) (symlink_Target in_) ;;!
    fret noReply).

Definition RpcSymlinkPath (g : jrpcGlobals) (in_ : SymlinkPathRequest) : handler I Reply :=
  let '(userID, groupID) := (u32 (symlinkPath_UserID in_), u32 (symlinkPath_GroupID in_)) in
  let h := symlinkPath_Handle in_ in
  onMount g (ph_MountID h) (fun v =>
    inParentAs userID groupID v (ph_Fullpath h) (fun ino basename =>
      Symlink v userID groupID [] ino basename (symlinkPath_TargetFullpath in_) ;;! fret noReply)).

Definition RpcLookup (g : jrpcGlobals) (in_ : LookupRequest) : handler I InodeReply :=
  onInode g (lookup_Handle in_) (fun v dir => ino <! root (Fs.Lookup v) dir (lookup_Basename in_) ;; fret (mkInodeReply ino)).

Definition RpcLookupPath (g : jrpcGlobals) (in_ : LookupPathRequest) : handler I InodeReply :=
  onPath g in_ (fun _ ino => fret (mkInodeReply ino)).

Definition RpcLink (g : jrpcGlobals) (in_ : LinkRequest) : handler I Reply :=
  onInode g (link_Handle in_) (fun v ino =>
    done noReply (root (Fs.Link v) ino (link_Basename in_) (link_TargetInodeNumber in_))).

Definition RpcLinkPath (g : jrpcGlobals) (in_ : LinkPathRequest) : handler I Reply :=
  let h := linkPath_Handle in_ in
  onMount g (ph_MountID h) (fun v =>
    inParentAs InodeRootUserID InodeRootGroupID v (ph_Fullpath h) (fun srcIno basename =>
      lookupAs InodeRootUserID InodeRootGroupID v (linkPath_TargetFullpath in_) (fun tgtIno =>
        done noReply (root (Fs.Link v) srcIno basename tgtIno)))).

Definition RpcUnlink (g : jrpcGlobals) (in_ : UnlinkRequest) : handler I Reply :=
  onInode g (unlink_Handle in_) (fun v ino => done noReply (root (Fs.Unlink v) ino (unlink_Basename in_))).

Definition RpcUnlinkPath (g : jrpcGlobals) (in_ : UnlinkPathRequest) : handler I Reply :=
  onMount g (ph_MountID in_) (fun v =>
    inParentAs InodeRootUserID InodeRootGroupID v (ph_Fullpath in_) (fun ino basename => done noReply (root (Fs.Unlink v) ino basename))).

Definition RpcRmdir (g : jrpcGlobals) (in_ : UnlinkRequest) : handler I Reply :=
  onInode g (unlink_Handle in_) (fun v ino => done noReply (root (Rmdir v) ino (unlink_Basename in_))).

Definition RpcRmdirPath (g : jrpcGlobals) (in_ : UnlinkPathRequest) : handler I Reply :=
  onMount g (ph_MountID in_) (fun v =>
    inParentAs InodeRootUserID InodeRootGroupID v (ph_Fullpath in_) (fun ino basename => done noReply (root (Rmdir v) ino basename))).

(** [fuel] bounds the attempts of [Rename] to get both locks. *)
Definition RpcRename (fuel : nat) (g : jrpcGlobals) (in_ : RenameRequest) : handler I Reply :=
  onMount g (rename_MountID in_) (fun v =>
    done noReply (root (Rename v) fuel (SrcDirInodeNumber in_) (SrcBasename in_) (DstDirInodeNumber in_) (DstBasename in_))).

Definition RpcRenamePath (fuel : nat) (g : jrpcGlobals) (in_ : RenamePathRequest) : handler I Reply :=
  let h := renamePath_Handle in_ in
  onMount g (ph_MountID h) (fun v =>
    inParentAs InodeRootUserID InodeRootGroupID v (ph_Fullpath h) (fun srcIno srcBasename =>
      inParentAs InodeRootUserID InodeRootGroupID v (DstFullpath in_) (fun dstIno dstBasename =>
        done noReply (root (Rename v) fuel srcIno srcBasename dstIno dstBasename)))).

Definition RpcReaddir (g : jrpcGlobals) (in_ : ReaddirRequest) : handler I ReaddirReply :=
  onInode g (readdir_Handle in_) (fun v ino =>
    dirEnts <! root (ReaddirOne v) ino (readdir_PrevDirLocation in_) ;;
    fret (mkReaddirReply (map fsDirentToDirEntryStruct dirEnts))).

Definition RpcReaddirPlus (g : jrpcGlobals) (in_ : ReaddirPlusRequest) : handler I ReaddirPlusReply :=
  onInode g (readdirPlus_Handle in_) (fun v ino =>
    '(dirEnts, statEnts) <! root (ReaddirOnePlus v) ino (readdirPlus_PrevDirLocation in_) ;;
    fret (mkReaddirPlusReply (map fsDirentToDirEntryStruct dirEnts) (map fsStatToStatStruct statEnts))).

Definition RpcReadSymlink (g : jrpcGlobals) (in_ : ReadSymlinkRequest) : handler I ReadSymlinkReply :=
  onInode g in_ (fun v ino => target <! root (Readsymlink v) ino ;; fret (mkReadSymlinkReply target)).

Definition RpcReadSymlinkPath (g : jrpcGlobals) (in_ : ReadSymlinkPathRequest) : handler I ReadSymlinkReply :=
  onPath g in_ (fun v ino => target <! root (Readsymlink v) ino ;; fret (mkReadSymlinkReply target)).

(** ** Files *)

Definition RpcFlock (g : jrpcGlobals) (in_ : FlockRequest) : handler I FlockReply :=
  onInode g (flock_Handle in_) (fun v ino =>
    '(lockStruct, err) <+ root (Flock v) ino (FlockCmd in_)
      (mkFlock (FlockType in_) (FlockWhence in_) (FlockStart in_) (FlockLen in_) (FlockPid in_)) ;;
    match err with
    | Some e => ferr e
    | None => fret (mkFlockReply (fl_Type lockStruct) (fl_Whence lockStruct) (fl_Start lockStruct) (fl_Len lockStruct) (fl_Pid lockStruct))
    end).

Definition RpcFlush (requestRecTime replySendTime : Z) (g : jrpcGlobals) (in_ : FlushRequest) : handler I Reply :=
  onInode g (flush_Handle in_) (fun v ino => done (timesReply requestRecTime replySendTime) (root (Fs.Flush v) ino)).

Definition RpcRead (requestRecTime replySendTime : Z) (g : jrpcGlobals) (in_ : ReadRequest) : handler I ReadReply :=
  onInode g (read_Handle in_) (fun v ino =>
    buf <! root (Fs.Read v) ino (read_Offset in_) (read_Length in_) ;;
    fret (mkReadReply buf (timesReply requestRecTime replySendTime))).

Definition RpcWrite (requestRecTime replySendTime : Z) (g : jrpcGlobals) (in_ : WriteRequest) : handler I WriteReply :=
  onInode g (write_Handle in_) (fun v ino =>
    size <! root (Fs.Write v) ino (write_Offset in_) (write_Buf in_) ;;
    fret (mkWriteReply size (timesReply requestRecTime replySendTime))).

Definition RpcResize (g : jrpcGlobals) (in_ : ResizeRequest) : handler I Reply :=
  onInode g (resize_Handle in_) (fun v ino => done noReply (root (Resize v) ino (NewSize in_))).
End Filesystem.

(** Package [jrpcfs]: the handlers that mount ([RpcMount] of filesystem.go), and
    those of the Swift middleware (middleware.go, ping.go).

    A middleware request names a virtual path.  [mountIfNotMounted] mounts the
    volume of its account once and for all; when that fails its mount handle is
    nil, and a call of a nil handle is a panic.  [inodeOf] picks the globals of
    package [inode] out of the rest of the world. *)

(** ** Structs (api.go) *)

Record CreateContainerRequest := mkCreateContainer { createContainer_VirtPath : string }.
Record DeleteReq := mkDelete { delete_VirtPath : string }.
Record HeadReq := mkHead { head_VirtPath : string }.
Record HeadReply := mkHeadReply {
  head_FileSize : Z; head_IsDir : bool; head_ModificationTime : Z; head_InodeNumber : Z; head_NumWrites : Z; head_Metadata : bytes }.
Record GetContainerReply := mkGetContainerReply {
  ContainerEntries : list ContainerEntry; container_ModificationTime : Z; container_Metadata : bytes }.
Record GetContainerReq := mkGetContainer {
  getContainer_VirtPath : string; getContainer_Marker : string; getContainer_Prefix : string; getContainer_MaxEntries : Z }.
Record GetAccountReply := mkGetAccountReply { AccountEntries : list AccountEntry }.
Record GetAccountReq := mkGetAccount { getAccount_VirtPath : string; getAccount_Marker : string; getAccount_MaxEntries : Z }.
Record GetObjectReply := mkGetObjectReply {
  object_FileSize : Z; ReadEntsOut : list ReadPlanStep; object_InodeNumber : Z; object_NumWrites : Z; object_Metadata : bytes;
  object_ModificationTime : Z }.
Record GetObjectReq := mkGetObject { getObject_VirtPath : string; ReadEntsIn : list ReadRangeIn }.
Record MiddlewarePostReq := mkPost { post_VirtPath : string; post_NewMetaData : bytes; post_OldMetaData : bytes }.
Record MiddlewareMkdirReq := mkMiddlewareMkdir { middlewareMkdir_VirtPath : string; middlewareMkdir_Metadata : bytes }.
Record PutCompleteReq := mkPutComplete {
  putComplete_VirtPath : string; PhysPaths : list string; PhysLengths : list Z; putComplete_Metadata : bytes }.
Record PutLocationReq := mkPutLocation { putLocation_VirtPath : string }.
Record PutLocationReply := mkPutLocationReply { PhysPath : string }.
Record PingReq := mkPing { ping_Message : string }.
Record PingReply := mkPingReply { pong_Message : string }.
Record IsAccountBimodalReq := mkIsAccountBimodal { AccountName : string }.
Record IsAccountBimodalReply := mkIsAccountBimodalReply { IsBimodal : bool; ActivePeerPrivateIPAddr : string }.
Record PutContainerReq := mkPutContainer {
  putContainer_VirtPath : string; putContainer_NewMetadata : bytes; putContainer_OldMetadata : bytes }.
Record CoalesceReq := mkCoalesce { coalesce_VirtPath : string; ElementAccountRelativePaths : list string }.

(** The replies of [RpcMiddlewareMkdir], [RpcPutComplete] and [RpcCoalesce]. *)
Record WrittenReply := mkWrittenReply { ModificationTime : Z; written_InodeNumber : Z; NumWrites : Z }.

(** [ValidateFullPath] and [ValidateBaseName] of package [fs], whose checks do
    not look at the volume. *)
Definition verdict (check : FS unit unit) : option error := match check with PRet (inl e) => Some e | _ => None end.

Section Middleware.
Context {I W : Type} `{!FsLocks.InodeHandle I} (inodeOf : W -> inodeGlobals).

Abbreviation world := (jrpcGlobals * (fsGlobals * W))%type.

(** A handler that can change the tables of mounts. *)
Abbreviation rpc R := (world -> world * handler I R).

Definition Mount (volumeName : string) (mountOptions : Z) : St world error mountStruct := fun w =>
  let '(fw, r) := mount volumeName mountOptions w.2 in
  ((w.1, fw), obind r (fun id => Ret (mkMount id mountOptions volumeName))).

Definition RpcMount (in_ : MountRequest) : rpc MountReply := fun w =>
  match Mount (mount_VolumeName in_) (mount_MountOptions in_) w with
  | (w', Ret mountHandle) =>
      let '(g, mountID) := allocateMountID mountHandle w'.1 in
      ((g, w'.2), HDone (inr (mkMountReply mountID RootDirInodeNumber)))
  | (w', Err e) => (w', HDone (inl e))
  | (w', Panic) => (w', HCrash)
  end.

Record mounted := mkMounted {
  accountName : string;
  containerName : string;
  objectName : string;
  volumeName : string;
  mountHandle : option mountStruct;
  err : option error
}.

Definition mountIfNotMounted (virtPath : string) : world -> world * res mounted := fun w =>
  match PathToAcctContObj virtPath with
  | Panic => (w, Panic)
  | Err e => (w, Ret (mkMounted EmptyString EmptyString EmptyString EmptyString None (Some e)))
  | Ret (account, container, object) =>
      match accountNameToVolumeName (inodeOf w.2.2) account with
      | None => (w, Ret (mkMounted EmptyString EmptyString EmptyString EmptyString None (Some plain)))
      | Some volume =>
          match bimodalMountMap w.1 !! volume with
          | Some handle => (w, Ret (mkMounted account container object volume (Some handle) None))
          | None =>
              match Mount volume 0 w with
              | (w', Ret handle) =>
                  ((w'.1 <| bimodalMountMap := <[volume := handle]> (bimodalMountMap w'.1) |>, w'.2),
                   Ret (mkMounted account container object volume (Some handle) None))
              | (w', Err e) => (w', Ret (mkMounted account container object volume None (Some e)))
              | (w', Panic) => (w', Panic)
              end
          end
      end
  end.

(** A handler goes on with what [mountIfNotMounted] returns. *)
Definition mounting {R} (virtPath : string) (body : mounted -> handler I R) : rpc R := fun w =>
  match mountIfNotMounted virtPath w with
  | (w', Ret m) => (w', body m)
  | (w', _) => (w', HCrash)
  end.

(** A method of the mount handle. *)
Definition call {R} (m : mounted) (body : string -> FS I R) : handler I R :=
  match mountHandle m with
  | Some handle => HMount handle (body (mount_volume handle))
  | None => HCrash
  end.

(** [if err != nil { return err }] *)
Definition orReturn {R} (e : option error) (rest : handler I R) : handler I R :=
  match e with Some e => HDone (inl e) | None => rest end.

Definition RpcCreateContainer (in_ : CreateContainerRequest) : rpc unit :=
  mounting (createContainer_VirtPath in_) (fun m =>
    orReturn (verdict (validateFullPath (containerName m)))
      (orReturn (verdict (validateBaseName (containerName m)))
         (call m (fun v =>
            Mkdir v InodeRootUserID InodeRootGroupID [] RootDirInodeNumber (containerName m) PosixModePerm ;;! fret tt)))).

Definition RpcDelete (in_ : DeleteReq) : rpc unit :=
  mounting (delete_VirtPath in_) (fun m =>
    let '(parentDir, baseName) :=
      if String.eqb (objectName m) EmptyString then ("/"%string, containerName m)
      else splitPath (containerName m ++ "/" ++ objectName m) in
    call m (fun v => MiddlewareDelete v parentDir baseName)).

Definition RpcGetAccount (fuel : nat) (in_ : GetAccountReq) : rpc GetAccountReply :=
  mounting (getAccount_VirtPath in_) (fun m =>
    orReturn (err m)
      (call m (fun v =>
         entries <! MiddlewareGetAccount v fuel (getAccount_MaxEntries in_) (getAccount_Marker in_) ;;
         fret (mkGetAccountReply entries)))).

Definition RpcHead (in_ : HeadReq) : rpc HeadReply :=
  mounting (head_VirtPath in_) (fun m =>
    orReturn (err m)
      (let entityPath :=
         if String.eqb (objectName m) EmptyString then containerName m else (containerName m ++ "/" ++ objectName m)%string in
       call m (fun v =>
         resp <! MiddlewareHeadResponse v entityPath ;;
         fret (mkHeadReply (hr_FileSize resp) (hr_IsDir resp) (hr_ModificationTime resp) (hr_InodeNumber resp) (hr_NumWrites resp)
                 (hr_Metadata resp))))).

Definition RpcGetContainer (fuel : nat) (in_ : GetContainerReq) : rpc GetContainerReply :=
  mounting (getContainer_VirtPath in_) (fun m =>
    orReturn (err m)
      (call m (fun v =>
         entries <! MiddlewareGetContainer v (getContainer_MaxEntries in_) (getContainer_Marker in_) (getContainer_Prefix in_) fuel
                      (containerName m) ;;
         resp <! MiddlewareHeadResponse v (containerName m) ;;
         fret (mkGetContainerReply entries (hr_ModificationTime resp) (hr_Metadata resp))))).

Definition RpcGetObject (in_ : GetObjectReq) : rpc GetObjectReply :=
  mounting (getObject_VirtPath in_) (fun m =>
    call m (fun v =>
      '(fileSize, modificationTime, inodeNumber, numWrites, metadata, readEntsOut) <!
        MiddlewareGetObject v (containerName m ++ "/" ++ objectName m)%string (ReadEntsIn in_) [] ;;
      fret (mkGetObjectReply fileSize readEntsOut inodeNumber numWrites metadata modificationTime))).

Definition RpcPost (in_ : MiddlewarePostReq) : rpc unit :=
  mounting (post_VirtPath in_) (fun m =>
    if String.eqb (accountName m) EmptyString || String.eqb (containerName m) EmptyString
    then HDone (inl (AddError (Some plain) AccountNotModifiable))
    else
      let '(parentDir, baseName) :=
        if String.eqb (objectName m) EmptyString then splitPath (containerName m)
        else splitPath (containerName m ++ "/" ++ objectName m) in
      call m (fun v => MiddlewarePost v parentDir baseName (post_NewMetaData in_) (post_OldMetaData in_))).

Definition RpcMiddlewareMkdir (fuel : nat) (in_ : MiddlewareMkdirReq) : rpc WrittenReply :=
  mounting (middlewareMkdir_VirtPath in_) (fun m =>
    if String.eqb (objectName m) EmptyString then HDone (inl (NewError NotAnObjectError))
    else
      call m (fun v =>
        '(mtime, inodeNumber, numWrites) <! MiddlewareMkdir v fuel (containerName m) (objectName m) (middlewareMkdir_Metadata in_) ;;
        fret (mkWrittenReply mtime inodeNumber numWrites))).

Definition RpcPutComplete (fuel : nat) (in_ : PutCompleteReq) : rpc WrittenReply :=
  mounting (putComplete_VirtPath in_) (fun m =>
    call m (fun v =>
      '(mtime, ino, numWrites) <!
        MiddlewarePutComplete v fuel (containerName m) (objectName m) (PhysPaths in_) (PhysLengths in_) (putComplete_Metadata in_) ;;
      fret (mkWrittenReply mtime ino numWrites))).

Definition RpcPutLocation (in_ : PutLocationReq) : rpc PutLocationReply :=
  mounting (putLocation_VirtPath in_) (fun m =>
    let path := (containerName m ++ "/" ++ objectName m)%string in
    orReturn (verdict (validateFullPath path))
      (orReturn (verdict (validateBaseName (splitPath path).2))
         (call m (fun _ => physPath <! CallInodeToProvisionObject ;; fret (mkPutLocationReply physPath))))).

Definition RpcPutContainer (in_ : PutContainerReq) : rpc unit :=
  mounting (putContainer_VirtPath in_) (fun m =>
    orReturn (err m)
      (call m (fun v =>
         MiddlewarePutContainer v (containerName m) (putContainer_OldMetadata in_) (putContainer_NewMetadata in_)))).

Definition RpcCoalesce (in_ : CoalesceReq) : rpc WrittenReply :=
  mounting (coalesce_VirtPath in_) (fun m =>
    call m (fun v =>
      '(ino, numWrites, modificationTime) <!
        MiddlewareCoalesce v (containerName m ++ "/" ++ objectName m)%string (ElementAccountRelativePaths in_) ;;
      fret (mkWrittenReply modificationTime ino numWrites))).

(** Leases do nothing yet. *)
Definition RpcRenewLease (leaseId : string) : rpc unit := fun w => (w, HDone (inr tt)).
Definition RpcReleaseLease (leaseId : string) : rpc unit := fun w => (w, HDone (inr tt)).

Definition RpcIsAccountBimodal (in_ : IsAccountBimodalReq) : rpc IsAccountBimodalReply := fun w =>
  (w, let g := inodeOf w.2.2 in
      match accountNameToVolumeName g (AccountName in_) with
      | None => HDone (inr (mkIsAccountBimodalReply false EmptyString))
      | Some volumeName =>
          match volumeNameToActivePeerPrivateIPAddr g volumeName with
          | Some address => HDone (inr (mkIsAccountBimodalReply true address))
          | None => HDone (inl plain)
          end
      end).

Definition RpcLog (message : string) : rpc Reply := fun w => (w, HDone (inr noReply)).

Definition RpcPing (in_ : PingReq) : rpc PingReply := fun w =>
  (w, HDone (inr (mkPingReply ("pong " ++ FormatUint (Z.of_nat (String.length (ping_Message in_))) ++ " bytes")))).
End Middleware.
