(* ===== verification/JrpcfsServer.v ===== *)
(** Package [jrpcfs]: the methods that the JSON-RPC server has.

    [net/rpc] finds a method by its name and hands it a request and room for a
    reply; a [request R] is a method with its request and the type [R] of its
    reply.  [fuel], and the clock readings of the methods that measure time, are
    parameters. *)

From S2P Require Import Prelude Blunder Utils GoStrings Conf ConfSections Dlm InodeTypes InodeVolume InodeDir InodeFile InodeConfig FsProgram FsLocks FsConfig FsFlock FsPath Fs FsMiddleware Jrpcfs JrpcfsFilesystem.
Open Scope list_scope.

Inductive request : Type -> Type :=
| MPing (in_ : PingReq) : request PingReply
| MLog (message : string) : request Reply
| MMount (in_ : MountRequest) : request MountReply
| MChown (in_ : ChownRequest) : request Reply
| MChownPath (in_ : ChownPathRequest) : request Reply
| MChmod (in_ : ChmodRequest) : request Reply
| MChmodPath (in_ : ChmodPathRequest) : request Reply
| MCreate (in_ : CreateRequest) : request InodeReply
| MCreatePath (in_ : CreatePathRequest) : request InodeReply
| MFlock (in_ : FlockRequest) : request FlockReply
| MFlush (in_ : FlushRequest) : request Reply
| MGetStat (in_ : GetStatRequest) : request StatStruct
| MGetStatPath (in_ : GetStatPathRequest) : request StatStruct
| MGetXAttr (in_ : GetXAttrRequest) : request GetXAttrReply
| MGetXAttrPath (in_ : GetXAttrPathRequest) : request GetXAttrReply
| MLookupPath (in_ : LookupPathRequest) : request InodeReply
| MLink (in_ : LinkRequest) : request Reply
| MLinkPath (in_ : LinkPathRequest) : request Reply
| MListXAttr (in_ : ListXAttrRequest) : request ListXAttrReply
| MListXAttrPath (in_ : ListXAttrPathRequest) : request ListXAttrReply
| MLookup (in_ : LookupRequest) : request InodeReply
| MMkdir (in_ : MkdirRequest) : request InodeReply
| MMkdirPath (in_ : MkdirPathRequest) : request Reply
| MRead (in_ : ReadRequest) : request ReadReply
| MReaddir (in_ : ReaddirRequest) : request ReaddirReply
| MReaddirPlus (in_ : ReaddirPlusRequest) : request ReaddirPlusReply
| MReadSymlink (in_ : ReadSymlinkRequest) : request ReadSymlinkReply
| MReadSymlinkPath (in_ : ReadSymlinkPathRequest) : request ReadSymlinkReply
| MRemoveXAttr (in_ : RemoveXAttrRequest) : request Reply
| MRemoveXAttrPath (in_ : RemoveXAttrPathRequest) : request Reply
| MRename (in_ : RenameRequest) : request Reply
| MRenamePath (in_ : RenamePathRequest) : request Reply
| MResize (in_ : ResizeRequest) : request Reply
| MRmdir (in_ : UnlinkRequest) : request Reply
| MRmdirPath (in_ : UnlinkPathRequest) : request Reply
| MSetstat (in_ : SetstatRequest) : request Reply
| MSetTime (in_ : SetTimeRequest) : request Reply
| MSetTimePath (in_ : SetTimePathRequest) : request Reply
| MSetXAttr (in_ : SetXAttrRequest) : request Reply
| MSetXAttrPath (in_ : SetXAttrPathRequest) : request Reply
| MStatVFS (in_ : StatVFSRequest) : request StatVFS
| MSymlink (in_ : SymlinkRequest) : request Reply
| MSymlinkPath (in_ : SymlinkPathRequest) : request Reply
| MType (in_ : TypeRequest) : request TypeReply
| MUnlink (in_ : UnlinkRequest) : request Reply
| MUnlinkPath (in_ : UnlinkPathRequest) : request Reply
| MWrite (in_ : WriteRequest) : request WriteReply
| MCreateContainer (in_ : CreateContainerRequest) : request unit
| MDelete (in_ : DeleteReq) : request unit
| MGetAccount (in_ : GetAccountReq) : request GetAccountReply
| MHead (in_ : HeadReq) : request HeadReply
| MGetContainer (in_ : GetContainerReq) : request GetContainerReply
| MGetObject (in_ : GetObjectReq) : request GetObjectReply
| MPost (in_ : MiddlewarePostReq) : request unit
| MMiddlewareMkdir (in_ : MiddlewareMkdirReq) : request WrittenReply
| MPutComplete (in_ : PutCompleteReq) : request WrittenReply
| MPutLocation (in_ : PutLocationReq) : request PutLocationReply
| MPutContainer (in_ : PutContainerReq) : request unit
| MCoalesce (in_ : CoalesceReq) : request WrittenReply
| MRenewLease (leaseId : string) : request unit
| MReleaseLease (leaseId : string) : request unit
| MIsAccountBimodal (in_ : IsAccountBimodalReq) : request IsAccountBimodalReply.

(** The methods that hold the gate while they run. *)
Definition gated {R} (r : request R) : bool :=
  match r with
  | MCreateContainer _ | MDelete _ | MGetAccount _ | MHead _ | MGetContainer _ | MGetObject _ | MPost _ | MMiddlewareMkdir _
  | MPutComplete _ => false
  | _ => true
  end.

(** The methods whose errors are encoded; the others send the text of the
    error. *)
Definition encoded {R} (r : request R) : bool :=
  match r with
  | MPing _ | MLog _ | MCreateContainer _ | MPost _ | MMiddlewareMkdir _ | MPutLocation _ | MIsAccountBimodal _ => false
  | _ => true
  end.

(** What the client is told about an error; [message] is the text of one. *)
Definition errorText {R} (message : error -> string) (r : request R) (e : error) : string :=
  if encoded r then rpcEncodeError e else message e.

(** The mount that a request names, and the virtual path. *)
Definition mountIDOf {R} (r : request R) : option Z :=
  match r with
  | MChown in_ => Some (ih_MountID (chown_Handle in_))
  | MChownPath in_ => Some (ph_MountID (chownPath_Handle in_))
  | MChmod in_ => Some (ih_MountID (chmod_Handle in_))
  | MChmodPath in_ => Some (ph_MountID (chmodPath_Handle in_))
  | MCreate in_ => Some (ih_MountID (create_Handle in_))
  | MCreatePath in_ => Some (ph_MountID (createPath_Handle in_))
  | MFlock in_ => Some (ih_MountID (flock_Handle in_))
  | MFlush in_ => Some (ih_MountID (flush_Handle in_))
  | MGetStat in_ | MListXAttr in_ | MReadSymlink in_ | MType in_ => Some (ih_MountID in_)
  | MGetStatPath in_ | MLookupPath in_ | MListXAttrPath in_ | MReadSymlinkPath in_ | MRmdirPath in_ | MUnlinkPath in_ =>
      Some (ph_MountID in_)
  | MGetXAttr in_ => Some (ih_MountID (getXAttr_Handle in_))
  | MGetXAttrPath in_ => Some (ph_MountID (getXAttrPath_Handle in_))
  | MLink in_ => Some (ih_MountID (link_Handle in_))
  | MLinkPath in_ => Some (ph_MountID (linkPath_Handle in_))
  | MLookup in_ => Some (ih_MountID (lookup_Handle in_))
  | MMkdir in_ => Some (ih_MountID (mkdir_Handle in_))
  | MMkdirPath in_ => Some (ph_MountID (mkdirPath_Handle in_))
  | MRead in_ => Some (ih_MountID (read_Handle in_))
  | MReaddir in_ => Some (ih_MountID (readdir_Handle in_))
  | MReaddirPlus in_ => Some (ih_MountID (readdirPlus_Handle in_))
  | MRemoveXAttr in_ => Some (ih_MountID (removeXAttr_Handle in_))
  | MRemoveXAttrPath in_ => Some (ph_MountID (removeXAttrPath_Handle in_))
  | MRename in_ => Some (rename_MountID in_)
  | MRenamePath in_ => Some (ph_MountID (renamePath_Handle in_))
  | MResize in_ => Some (ih_MountID (resize_Handle in_))
  | MRmdir in_ | MUnlink in_ => Some (ih_MountID (unlink_Handle in_))
  | MSetstat in_ => Some (ih_MountID (setstat_Handle in_))
  | MSetTime in_ => Some (ih_MountID (setTime_Handle in_))
  | MSetTimePath in_ => Some (ph_MountID (setTimePath_Handle in_))
  | MSetXAttr in_ => Some (ih_MountID (setXAttr_Handle in_))
  | MSetXAttrPath in_ => Some (ph_MountID (setXAttrPath_Handle in_))
  | MStatVFS in_ => Some (statVFS_MountID in_)
  | MSymlink in_ => Some (ih_MountID (symlink_Handle in_))
  | MSymlinkPath in_ => Some (ph_MountID (symlinkPath_Handle in_))
  | MWrite in_ => Some (ih_MountID (write_Handle in_))
  | _ => None
  end.

Definition virtPathOf {R} (r : request R) : option string :=
  match r with
  | MCreateContainer in_ => Some (createContainer_VirtPath in_)
  | MDelete in_ => Some (delete_VirtPath in_)
  | MGetAccount in_ => Some (getAccount_VirtPath in_)
  | MHead in_ => Some (head_VirtPath in_)
  | MGetContainer in_ => Some (getContainer_VirtPath in_)
  | MGetObject in_ => Some (getObject_VirtPath in_)
  | MPost in_ => Some (post_VirtPath in_)
  | MMiddlewareMkdir in_ => Some (middlewareMkdir_VirtPath in_)
  | MPutComplete in_ => Some (putComplete_VirtPath in_)
  | MPutLocation in_ => Some (putLocation_VirtPath in_)
  | MPutContainer in_ => Some (putContainer_VirtPath in_)
  | MCoalesce in_ => Some (coalesce_VirtPath in_)
  | _ => None
  end.

Section Server.
Context {I W : Type} `{!FsLocks.InodeHandle I} (inodeOf : W -> inodeGlobals) (fuel : nat) (requestRecTime replySendTime : Z).

Abbreviation world := (jrpcGlobals * (fsGlobals * W))%type.
Abbreviation rpc R := (world -> world * handler I R).

(** A method that only looks its mount up leaves the tables. *)
Definition looksUp {A R} (method : jrpcGlobals -> A -> handler I R) (in_ : A) : rpc R := fun w => (w, method w.1 in_).

Definition serve {R} (r : request R) : rpc R :=
  match r in request R return rpc R with
  | MPing in_ => RpcPing in_
  | MLog message => RpcLog message
  | MMount in_ => RpcMount in_
  | MChown in_ => looksUp RpcChown in_
  | MChownPath in_ => looksUp RpcChownPath in_
  | MChmod in_ => looksUp RpcChmod in_
  | MChmodPath in_ => looksUp RpcChmodPath in_
  | MCreate in_ => looksUp RpcCreate in_
  | MCreatePath in_ => looksUp RpcCreatePath in_
  | MFlock in_ => looksUp RpcFlock in_
  | MFlush in_ => looksUp (RpcFlush requestRecTime replySendTime) in_
  | MGetStat in_ => looksUp RpcGetStat in_
  | MGetStatPath in_ => looksUp RpcGetStatPath in_
  | MGetXAttr in_ => looksUp RpcGetXAttr in_
  | MGetXAttrPath in_ => looksUp RpcGetXAttrPath in_
  | MLookupPath in_ => looksUp RpcLookupPath in_
  | MLink in_ => looksUp RpcLink in_
  | MLinkPath in_ => looksUp RpcLinkPath in_
  | MListXAttr in_ => looksUp RpcListXAttr in_
  | MListXAttrPath in_ => looksUp RpcListXAttrPath in_
  | MLookup in_ => looksUp RpcLookup in_
  | MMkdir in_ => looksUp RpcMkdir in_
  | MMkdirPath in_ => looksUp RpcMkdirPath in_
  | MRead in_ => looksUp (RpcRead requestRecTime replySendTime) in_
  | MReaddir in_ => looksUp RpcReaddir in_
  | MReaddirPlus in_ => looksUp RpcReaddirPlus in_
  | MReadSymlink in_ => looksUp RpcReadSymlink in_
  | MReadSymlinkPath in_ => looksUp RpcReadSymlinkPath in_
  | MRemoveXAttr in_ => looksUp RpcRemovetXAttr in_
  | MRemoveXAttrPath in_ => looksUp RpcRemoveAttrPath in_
  | MRename in_ => looksUp (RpcRename fuel) in_
  | MRenamePath in_ => looksUp (RpcRenamePath fuel) in_
  | MResize in_ => looksUp RpcResize in_
  | MRmdir in_ => looksUp RpcRmdir in_
  | MRmdirPath in_ => looksUp RpcRmdirPath in_
  | MSetstat in_ => looksUp RpcSetstat in_
  | MSetTime in_ => looksUp RpcSetTime in_
  | MSetTimePath in_ => looksUp RpcSetTimePath in_
  | MSetXAttr in_ => looksUp RpcSetXAttr in_
  | MSetXAttrPath in_ => looksUp RpcSetXAttrPath in_
  | MStatVFS in_ => looksUp RpcStatVFS in_
  | MSymlink in_ => looksUp RpcSymlink in_
  | MSymlinkPath in_ => looksUp RpcSymlinkPath in_
  | MType in_ => looksUp RpcType in_
  | MUnlink in_ => looksUp RpcUnlink in_
  | MUnlinkPath in_ => looksUp RpcUnlinkPath in_
  | MWrite in_ => looksUp (RpcWrite requestRecTime replySendTime) in_
  | MCreateContainer in_ => RpcCreateContainer inodeOf in_
  | MDelete in_ => RpcDelete inodeOf in_
  | MGetAccount in_ => RpcGetAccount inodeOf fuel in_
  | MHead in_ => RpcHead inodeOf in_
  | MGetContainer in_ => RpcGetContainer inodeOf fuel in_
  | MGetObject in_ => RpcGetObject inodeOf in_
  | MPost in_ => RpcPost inodeOf in_
  | MMiddlewareMkdir in_ => RpcMiddlewareMkdir inodeOf fuel in_
  | MPutComplete in_ => RpcPutComplete inodeOf fuel in_
  | MPutLocation in_ => RpcPutLocation inodeOf in_
  | MPutContainer in_ => RpcPutContainer inodeOf in_
  | MCoalesce in_ => RpcCoalesce inodeOf in_
  | MRenewLease leaseId => RpcRenewLease leaseId
  | MReleaseLease leaseId => RpcReleaseLease leaseId
  | MIsAccountBimodal in_ => RpcIsAccountBimodal inodeOf in_
  end.
End Server.

From S2P Require Import FsLockFacts FsNeutral FsClients JrpcfsConfigFacts.

(** The requests of the JSON-RPC server: every program that they run is a
    disciplined one on a mount of a volume that is served, whatever mount or
    path a client names. *)

Section Facts.
Context {I W : Type} `{!FsLocks.InodeHandle I} (inodeOf : W -> inodeGlobals) (fuel : nat) (requestRecTime replySendTime : Z).

Abbreviation world := (jrpcGlobals * (fsGlobals * W))%type.
Abbreviation serve := (serve inodeOf fuel requestRecTime replySendTime).

(** ** Programs *)

(** A handler runs a program that releases its locks, on a handle in [P]. *)
Definition handlerOk {R} (P : mountStruct -> Prop) (h : handler I R) : Prop :=
  match h with HMount mountHandle p => P mountHandle /\ neutral p | _ => True end.

Definition known (j : jrpcGlobals) (h : mountStruct) : Prop := exists id, lookupMountHandle j id = inr h.

Lemma onMount_handler {R} g mountID (body : string -> FS I R) :
  (forall v, neutral (body v)) -> handlerOk (known g) (onMount g mountID body).
Proof. intros Hb. unfold onMount. destruct (lookupMountHandle g mountID) eqn:E; [done|]. split; [by exists mountID|apply Hb]. Qed.

Lemma neutral_done {R} (reply : R) (m : FS I unit) : neutral m -> neutral (done reply m).
Proof. intros Hm. apply neutral_fbind; [done|]. intros _. apply neutral_fret. Qed.

Lemma onInode_handler {R} g h (body : string -> Z -> FS I R) :
  (forall v ino, neutral (body v ino)) -> handlerOk (known g) (onInode g h body).
Proof. intros Hb. by apply onMount_handler. Qed.

Lemma neutral_lookupAs {R} userID groupID v path (body : Z -> FS I R) :
  (forall ino, neutral (body ino)) -> neutral (lookupAs userID groupID v path body).
Proof. intros Hb. apply neutral_fbind; [neutral_call|done]. Qed.

Lemma neutral_inParentAs {R} userID groupID v path (body : Z -> string -> FS I R) :
  (forall ino basename, neutral (body ino basename)) -> neutral (inParentAs userID groupID v path body).
Proof. intros Hb. unfold inParentAs. destruct (splitPath path). apply neutral_lookupAs. intros ino. apply Hb. Qed.

Lemma onPath_handler {R} g h (body : string -> Z -> FS I R) :
  (forall v ino, neutral (body v ino)) -> handlerOk (known g) (onPath g h body).
Proof. intros Hb. apply onMount_handler. intros v. by apply neutral_lookupAs. Qed.

Ltac body_step :=
  first
  [ apply neutral_done | apply neutral_fret | apply neutral_ferr | neutral_call | apply neutral_lookupAs | apply neutral_inParentAs
  | apply neutral_fbind | apply neutral_bind
  | match goal with |- neutral (match ?x with _ => _ end) => destruct x | |- neutral (let '_ := ?x in _) => destruct x end ].

(** What a request that looks its mount up runs. *)
Lemma looksUp_handler {R} (r : request R) (w : world) id : mountIDOf r = Some id -> handlerOk (known w.1) (serve r w).2.
Proof.
  destruct r; intros [= _]; cbn [JrpcfsServer.serve looksUp snd];
    (first [apply onInode_handler | apply onPath_handler | apply onMount_handler]); intros; repeat (body_step; intros).
Qed.

(** ** Tables of mounts *)

Record tablesOk (w : world) : Prop := { to_mounts : mountsOk w.2.1; to_handles : handlesOk w.1 w.2.1 }.

(** The counters of ids have room. *)
Definition idsLeft (w : world) : Prop := lastMountID w.2.1 + 1 < two64 /\ jg_lastMountID w.1 + 1 < two64.

(** What a request may do: add mounts and ids. *)
Record evolves (w w' : world) : Prop := {
  ev_ok : tablesOk w';
  ev_mounts : mountMap w.2.1 ⊆ mountMap w'.2.1;
  ev_volumes : dom (fs_volumeMap w'.2.1) = dom (fs_volumeMap w.2.1);
  ev_rest : w'.2.2 = w.2.2;
  ev_ids : mountIDMap w.1 ⊆ mountIDMap w'.1;
  ev_bimodal : bimodalMountMap w.1 ⊆ bimodalMountMap w'.1;
  ev_config : (fg_whoAmI w'.2.1, jg_whoAmI w'.1, jg_volumeMap w'.1, gateLocked w'.1)
              = (fg_whoAmI w.2.1, jg_whoAmI w.1, jg_volumeMap w.1, gateLocked w.1)
}.

Lemma evolves_refl w : tablesOk w -> evolves w w.
Proof. by intros Hok. Qed.

Lemma Mount_result volumeName mountOptions (w w' : world) r : tablesOk w -> idsLeft w ->
  Mount volumeName mountOptions w = (w', r) ->
  evolves w w' /\ w'.1 = w.1
  /\ match r with
     | Ret h => mountMap w'.2.1 !! mount_id h = Some h /\ mount_volume h = volumeName
     | Err e => w' = w /\ fs_volumeMap w.2.1 !! volumeName = None
     | Panic => False
     end.
Proof.
  intros [Hm Hh] [Hroom _] HR. unfold Mount in HR. destruct (mount volumeName mountOptions w.2) as [fw r0] eqn:HM. destruct w as [j fw0]. cbn [fst snd] in *.
  destruct r0 as [id|e|]; injection HR as <- <-.
  - pose proof HM as (_ & Hrest & Hwho & _)%fsMount_ret. eapply fsMount_ok in HM as (Hok & Hnew & Hmap & Hdom); [|done..].
    assert (Hsub : mountMap fw0.1 ⊆ mountMap fw.1) by (rewrite Hmap; by apply insert_subseteq).
    split; [|split; [done|]]; cbn; [|by rewrite Hmap, lookup_insert_eq].
    split; cbn; try done; [|by rewrite Hwho]. split; [done|]. by eapply handlesOk_mono.
  - unfold mount, sbind in HM. cbn in HM. destruct (fs_volumeMap fw0.1 !! volumeName); [done|]. by injection HM as <- _.
  - unfold mount, sbind in HM. cbn in HM. by destruct (fs_volumeMap fw0.1 !! volumeName).
Qed.

(** A handle that [mountIfNotMounted] finds or makes is one of the volume of
    the account. *)
Lemma mountIfNotMounted_ok virtPath (w w' : world) r : tablesOk w -> idsLeft w ->
  mountIfNotMounted inodeOf virtPath w = (w', r) ->
  evolves w w'
  /\ forall m, r = Ret m -> match mountHandle m with
       | Some h => mountMap w'.2.1 !! mount_id h = Some h /\ mount_volume h = volumeName m
       | None => is_Some (err m)
       end.
Proof.
  intros Hok Hroom HR. pose proof (evolves_refl _ Hok) as Hrefl. unfold mountIfNotMounted in HR.
  destruct (PathToAcctContObj virtPath) as [[[account container] object]|e|]; [|injection HR as <- <-; split; [done|]; intros m ?; simplify_eq; cbn; eauto..].
  destruct (accountNameToVolumeName _ account) as [volume|]; [|injection HR as <- <-; split; [done|]; intros m ?; simplify_eq; cbn; eauto].
  destruct (bimodalMountMap w.1 !! volume) as [h|] eqn:Hb.
  { injection HR as <- <-. split; [done|]. intros m [= <-]. by destruct Hok as [_ [_ H2 _]]; apply H2. }
  destruct (Mount volume 0 w) as [w1 r1] eqn:HM. pose proof (Mount_result _ _ _ _ _ Hok Hroom HM) as (Hev & Hj & Hr).
  destruct r1 as [h|e|]; [|injection HR as <- <-; split; [done|]; intros m ?; simplify_eq; cbn; eauto|done]. injection HR as <- <-.
  destruct Hr as [Hh Hv]. split; [|by intros m [= <-]]. destruct Hev as [[Hm Hh'] H1 H2 H3 H4 H5 H6]. split; cbn; try done.
  - split; cbn; [done|]. destruct Hh' as [G1 G2 G3]. split; cbn; [done| |done].
    intros name h' [[<- <-]|[_ Hi]]%lookup_insert_Some; [done|by apply G2].
  - rewrite Hj. by apply insert_subseteq.
Qed.

(** What a handler may leave: tables that are right, and a program on a mount. *)
Definition goesOn {R} (w : world) (x : world * handler I R) : Prop :=
  evolves w x.1 /\ handlerOk (fun h => mountMap x.1.2.1 !! mount_id h = Some h) x.2.

Lemma mounting_goes {R} virtPath (body : mounted -> handler I R) (w : world) : tablesOk w -> idsLeft w ->
  (forall P m, (forall h, mountHandle m = Some h -> P h) -> handlerOk P (body m)) ->
  goesOn w (mounting inodeOf virtPath body w).
Proof.
  intros Hok Hroom Hb. unfold mounting. destruct (mountIfNotMounted inodeOf virtPath w) as [w' r] eqn:HM.
  pose proof (mountIfNotMounted_ok _ _ _ _ Hok Hroom HM) as [Hev Hr]. destruct r as [m|e|]; (split; [done|]); [|done..].
  apply Hb. intros h Hh. specialize (Hr m eq_refl). rewrite Hh in Hr. cbn. tauto.
Qed.

Lemma call_handler {R} P m (body : string -> FS I R) : (forall h, mountHandle m = Some h -> P h) -> (forall v, neutral (body v)) ->
  handlerOk P (call m body).
Proof. intros HP Hb. unfold call. destruct (mountHandle m); [|done]. split; [by apply HP|apply Hb]. Qed.

Lemma orReturn_handler {R} P e (rest : handler I R) : handlerOk P rest -> handlerOk P (orReturn e rest).
Proof. by destruct e. Qed.

Lemma known_goes {R} (w : world) (h : handler I R) : tablesOk w -> handlerOk (known w.1) h -> goesOn w (w, h).
Proof.
  intros Hok Hh. split; [by apply evolves_refl|]. destruct h as [|m p|]; try done. destruct Hh as [[id Hid] Hp]. split; [|done].
  unfold lookupMountHandle in Hid. destruct (mountIDMap w.1 !! id) as [h|] eqn:Hi; [|done]. injection Hid as ->.
  destruct Hok as [_ [H1 _ _]]. by destruct (H1 _ _ Hi).
Qed.

Lemma RpcMount_goes in_ (w : world) : tablesOk w -> idsLeft w -> goesOn w (RpcMount (I := I) in_ w).
Proof.
  intros Hok Hroom. unfold RpcMount. destruct (Mount _ _ w) as [w' r] eqn:HM.
  pose proof (Mount_result _ _ _ _ _ Hok Hroom HM) as (Hev & Hj & Hr). destruct r as [h|e|]; [|by split..].
  destruct (allocateMountID h w'.1) as [g mountID] eqn:Ha. destruct Hev as [[Hm Hh] H1 H2 H3 H4 H5 H6]. split; [|done].
  pose proof (allocateMountID_ok h w'.1 w'.2.1 Hh ltac:(rewrite Hj; by destruct Hroom) (proj1 Hr)) as Hal. rewrite Ha in Hal.
  destruct Hal as (Hok' & Hnew & _ & _ & Hkeep). unfold allocateMountID in Ha. injection Ha as Hg Hid.
  split; cbn; try done; rewrite <- Hg; cbn; [|done..]. etrans; [exact H4|]. apply insert_subseteq. by rewrite Hid.
Qed.

Lemma serve_goes {R} (r : request R) (w : world) : tablesOk w -> idsLeft w -> goesOn w (serve r w).
Proof.
  intros Hok Hroom. destruct (mountIDOf r) as [id|] eqn:Hid.
  { pose proof (looksUp_handler r w id Hid) as Hh. destruct r; try done; by apply known_goes. }
  destruct r; try done; clear Hid; cbn [JrpcfsServer.serve]; try (by apply RpcMount_goes);
    try (apply known_goes; [done|]; cbn; repeat case_match; done);
    (apply mounting_goes; [done|done|]; intros P m HP;
     repeat first [apply orReturn_handler | match goal with |- handlerOk _ (if ?x then _ else _) => destruct x | |- handlerOk _ (let '_ := ?x in _) => destruct x end];
     try done; apply call_handler; [done|]; intros v; repeat (body_step; intros)).
Qed.

(** C20. Whatever the clients of the JSON-RPC server ask for, and in whatever
    order: mounts and the handles given out stay consistent, no handle that a
    client has is lost, and a program that a request runs is one that releases
    every lock it takes, on a mount of a volume that this peer serves. *)
Theorem requests_keep_handles {R} (r : request R) (w w' : world) h :
  tablesOk w -> idsLeft w -> serve r w = (w', h) ->
  evolves w w'
  /\ match h with
     | HMount mountHandle p => mountMap w'.2.1 !! mount_id mountHandle = Some mountHandle
         /\ is_Some (fs_volumeMap w'.2.1 !! mount_volume mountHandle) /\ neutral p
     | _ => True
     end.
Proof.
  intros Hok Hroom HS. pose proof (serve_goes r w Hok Hroom) as [Hev Hh]. rewrite HS in Hev, Hh. split; [done|].
  destruct h as [|m p|]; try done. destruct Hh as [Hm Hp]. split; [done|]. split; [|done].
  destruct Hev as [[[Ho _ _] _] _ _ _ _ _ _]. destruct (Ho _ _ Hm) as (_ & _ & v & Hv & _). by eexists.
Qed.

Lemma onMount_unknown {R} g mountID (body : string -> FS I R) : mountIDMap g !! mountID = None ->
  onMount g mountID body = HDone (inl (AddError (Some plain) BadMountIDError)).
Proof. intros Hu. unfold onMount, lookupMountHandle. by rewrite Hu. Qed.

(** C38. A request that names a mount that the server does not know changes
    nothing, calls no volume and gets the same error whatever the method: the
    error number of EINVAL. *)
Theorem unknown_mount_reported {R} (r : request R) (w : world) id message :
  mountIDOf r = Some id -> mountIDMap w.1 !! id = None ->
  exists e, serve r w = (w, HDone (inl e)) /\ errorText message r e = "errno: 22"%string.
Proof.
  intros Hid Hu. exists (AddError (Some plain) BadMountIDError).
  destruct r; try done; injection Hid as <-; cbn [JrpcfsServer.serve]; (split; [|reflexivity]); unfold looksUp; f_equal;
    exact (onMount_unknown w.1 _ _ Hu).
Qed.

(** ** Accounts that are not served *)

(** The methods that go on without a mount handle. *)
Definition ignoresFailure {R} (r : request R) : bool :=
  match r with
  | MCreateContainer _ | MDelete _ | MGetObject _ | MPutComplete _ | MPutLocation _ | MCoalesce _ => true
  | _ => false
  end.

Lemma mounting_unknown {R} virtPath (body : mounted -> handler I R) (w : world) account container object :
  PathToAcctContObj virtPath = Ret (account, container, object) -> accountNameToVolumeName (inodeOf w.2.2) account = None ->
  mounting inodeOf virtPath body w
  = (w, body (mkMounted EmptyString EmptyString EmptyString EmptyString None (Some plain))).
Proof. intros Hp Hu. unfold mounting, mountIfNotMounted. by rewrite Hp, Hu. Qed.

(** A middleware request for an account that no volume of this peer has:
    six methods call a method of the mount handle that they did not get, and the
    whole process ends with a panic; the others return an error, and nothing is
    changed. *)
Theorem unknown_account_stops_server {R} (r : request R) (w : world) virtPath account container object :
  virtPathOf r = Some virtPath -> PathToAcctContObj virtPath = Ret (account, container, object) ->
  accountNameToVolumeName (inodeOf w.2.2) account = None ->
  if ignoresFailure r then serve r w = (w, HCrash) else exists e, serve r w = (w, HDone (inl e)).
Proof.
  intros Hv Hp Hu. destruct r; try done; injection Hv as <-; cbn [ignoresFailure JrpcfsServer.serve]; try eexists;
    (etrans; [exact (mounting_unknown _ _ w _ _ _ Hp Hu)|reflexivity]).
Qed.
End Facts.
