(* ===== verification/JrpcfsIo.v ===== *)
(** Package [jrpcfs]: reads and writes over the fast port (io.go).

    Requests and responses are structs of uint64 fields in memory order, which
    is little-endian on the machines the program is built for.  A connection is
    the bytes that are still to be read before the peer closes its side, the
    bytes that were written, and how many more the peer takes before it resets.
    [maxAlloc] is the size from which [make] panics.  [partial] gives the bytes
    that a [Read] of [fs] returns together with an error. *)

From S2P Require Import Prelude Blunder Utils GoStrings Conf ConfSections InodeTypes Extents ExtentsFacts Dlm VolumeHandle InodeVolume InodeConfig InodeDir InodeFile InodeFileFacts FsProgram FsLocks FsConfig FsFlock FsPath Fs FsFacts Jrpcfs.
Open Scope list_scope.

Record ioRequest := mkIoRequest { opType : Z; io_mountID : Z; inodeID : Z; io_offset : Z; io_length : Z }.
Record ioResponse := mkIoResponse { io_errno : Z; ioSize : Z }.

Inductive OpType := ReadOp | WriteOp | InvalidOp.

Record ioContext := mkIoContext { io_op : OpType; io_req : ioRequest; io_resp : ioResponse; io_data : bytes }.

#[export] Instance eta_ioResponse : Eta ioResponse := fun r => mkIoResponse (io_errno r) (ioSize r).
#[export] Instance eta_ioContext : Eta ioContext := fun c => mkIoContext (io_op c) (io_req c) (io_resp c) (io_data c).

Definition newIoContext : ioContext := mkIoContext InvalidOp (mkIoRequest 0 0 0 0 0) (mkIoResponse 0 0) [].

Definition ioRequestSize : nat := 40.

Definition makeBytesUint64 (value : Z) : bytes := lePut 8 value.

Definition makeBytesReq (req : ioRequest) : bytes :=
  makeBytesUint64 (opType req) ++ makeBytesUint64 (io_mountID req) ++ makeBytesUint64 (inodeID req)
  ++ makeBytesUint64 (io_offset req) ++ makeBytesUint64 (io_length req).

Definition makeBytesResp (resp : ioResponse) : bytes := makeBytesUint64 (io_errno resp) ++ makeBytesUint64 (ioSize resp).

(** The uint64 at position [8 * i]. *)
Definition fieldAt (i : nat) (b : bytes) : Z := leGet (take 8 (drop (8 * i) b)).

Definition makeReq (b : bytes) : ioRequest := mkIoRequest (fieldAt 0 b) (fieldAt 1 b) (fieldAt 2 b) (fieldAt 3 b) (fieldAt 4 b).

(** ** The connection *)

Record netConn := mkConn { toRead : bytes; written : bytes; peerTakes : Z }.

#[export] Instance eta_netConn : Eta netConn := fun c => mkConn (toRead c) (written c) (peerTakes c).

Abbreviation NC A := (St netConn error A).

(** [io.ReadFull] *)
Definition ReadFull (n : nat) : NC bytes := fun c =>
  if Nat.leb n (length (toRead c)) then (c <| toRead := drop n (toRead c) |>, Ret (take n (toRead c)))
  else (c <| toRead := [] |>, Err plain).

(** [conn.Write] takes everything, or fails. *)
Definition connWrite (buf : bytes) : NC Z := fun c =>
  if peerTakes c <? zlen buf then
    (c <| written := written c ++ take (Z.to_nat (peerTakes c)) buf |> <| peerTakes := 0 |>, Err plain)
  else (c <| written := written c ++ buf |> <| peerTakes := peerTakes c - zlen buf |>, Ret (zlen buf)).

Fixpoint putLoop (fuel : nat) (buf : bytes) (currentIndex : Z) : NC unit :=
  if currentIndex <? zlen buf then
    match fuel with
    | O => spanic
    | S fuel' =>
        numBytesWritten <~ connWrite (drop (Z.to_nat currentIndex) buf) ;;
        putLoop fuel' buf (currentIndex + numBytesWritten)
    end
  else sret tt.

Definition putResponseWrite (buf : bytes) : NC unit := putLoop (S (length buf)) buf 0.

Definition putResponse (ctx : ioContext) : NC unit :=
  match io_op ctx with
  | InvalidOp => serr plain
  | op =>
      putResponseWrite (makeBytesResp (io_resp ctx)) ;;~
      match op, io_data ctx with
      | ReadOp, _ :: _ => putResponseWrite (io_data ctx)
      | _, _ => sret tt
      end
  end.

Section Io.
Context {I : Type} `{!FsLocks.InodeHandle I} (maxAlloc : Z) (partial : error -> bytes).

Definition getRequest (ctx : ioContext) : NC ioContext :=
  reqBytes <~ ReadFull ioRequestSize ;;
  let req := makeReq reqBytes in
  if opType req =? 1001 then
    if maxAlloc <? io_length req then spanic
    else
      data <~ ReadFull (Z.to_nat (io_length req)) ;;
      sret (mkIoContext WriteOp req (io_resp ctx) data)
  else if opType req =? 1002 then sret (mkIoContext ReadOp req (io_resp ctx) (io_data ctx))
  else serr plain.

(** ** One request *)

(** What a call leaves in the context, with its error. *)
Definition ioResult (ctx : ioContext) (r : error + ioContext) : ioContext * option error :=
  match r with
  | inr ctx' => (ctx', None)
  | inl e =>
      match io_op ctx with
      | ReadOp => (ctx <| io_data := partial e |> <| io_resp := (io_resp ctx) <| ioSize := zlen (partial e) |> |>, Some e)
      | _ => (ctx <| io_resp := (io_resp ctx) <| ioSize := 0 |> |>, Some e)
      end
  end.

(** The call of the mount of a request. *)
Definition ioCall (volumeName : string) (ctx : ioContext) : FS I ioContext :=
  let req := io_req ctx in
  match io_op ctx with
  | WriteOp =>
      size <! Fs.Write volumeName InodeRootUserID InodeRootGroupID [] (inodeID req) (io_offset req) (io_data ctx) ;;
      fret (ctx <| io_resp := (io_resp ctx) <| ioSize := size |> |>)
  | _ =>
      data <! Fs.Read volumeName InodeRootUserID InodeRootGroupID [] (inodeID req) (io_offset req) (io_length req) ;;
      fret (ctx <| io_data := data |> <| io_resp := (io_resp ctx) <| ioSize := zlen data |> |>)
  end.

(** Without its mount a write reports the size of the request before. *)
Definition ioUnmounted (ctx : ioContext) : ioContext :=
  match io_op ctx with
  | ReadOp => ctx <| io_resp := (io_resp ctx) <| ioSize := zlen (io_data ctx) |> |>
  | _ => ctx
  end.

(** The volumes, each as a mount of it finds it. *)
Abbreviation volumes := (gmap string (fsState I)).

Inductive ioStep :=
| IoDone (ctx : ioContext) (e : option error)
| IoPanic
| IoStuck.

(** One connection alone; the handles are of volumes that there are. *)
Definition ioServe (g : jrpcGlobals) (ctx : ioContext) (vols : volumes) : volumes * ioStep :=
  match lookupMountHandle g (io_mountID (io_req ctx)) with
  | inl e => (vols, IoDone (ioUnmounted ctx) (Some e))
  | inr mountHandle =>
      let v := mount_volume mountHandle in
      match vols !! v with
      | None => (vols, IoPanic)
      | Some s =>
          match runFs (ioCall v ctx) s with
          | (s', FsRet r) => (<[v := s']> vols, let '(ctx', e) := ioResult ctx r in IoDone ctx' e)
          | (s', FsPanic) => (<[v := s']> vols, IoPanic)
          | (s', _) => (<[v := s']> vols, IoStuck)
          end
      end
  end.

Inductive ioEnd := IoClosed | IoCrashed | IoBlocked.

(** A request takes 40 bytes at least, so [fuel] is the number of bytes. *)
Fixpoint ioLoop (fuel : nat) (g : jrpcGlobals) (ctx : ioContext) (conn : netConn) (vols : volumes) : netConn * volumes * ioEnd :=
  match getRequest ctx conn with
  | (conn', Err _) => (conn', vols, IoClosed)
  | (conn', Panic) => (conn', vols, IoCrashed)
  | (conn', Ret ctx') =>
      match ioServe g ctx' vols with
      | (vols', IoPanic) => (conn', vols', IoCrashed)
      | (vols', IoStuck) => (conn', vols', IoBlocked)
      | (vols', IoDone ctx'' e) =>
          let ctx3 := ctx'' <| io_resp := (io_resp ctx'') <| io_errno := u64 (Errno e) |> |> in
          match putResponse ctx3 conn' with
          | (conn3, Ret _) =>
              match fuel with
              | O => (conn3, vols', IoBlocked)
              | S fuel' => ioLoop fuel' g (ctx3 <| io_data := [] |>) conn3 vols'
              end
          | (conn3, _) => (conn3, vols', IoClosed)
          end
      end
  end.

Definition ioHandle (g : jrpcGlobals) (conn : netConn) (vols : volumes) : netConn * volumes * ioEnd :=
  ioLoop (length (toRead conn)) g newIoContext conn vols.
End Io.


(** The fast port: a client that encodes its requests gets their responses in
    order, and reads back what it wrote. *)

(** ** Structs *)

Lemma fieldAt_app i a b : fieldAt (S i) (lePut 8 a ++ b) = fieldAt i b.
Proof.
  unfold fieldAt. f_equal. f_equal. rewrite drop_app_ge; rewrite lePut_length; [|lia]. f_equal. lia.
Qed.

Lemma fieldAt_here a b : is_u64 a -> fieldAt 0 (lePut 8 a ++ b) = a.
Proof.
  intros Ha. unfold fieldAt. rewrite drop_0, take_app_le, firstn_all2 by (rewrite lePut_length; lia). by apply leGet_lePut.
Qed.

Definition requestFits (r : ioRequest) : Prop :=
  is_u64 (opType r) /\ is_u64 (io_mountID r) /\ is_u64 (inodeID r) /\ is_u64 (io_offset r) /\ is_u64 (io_length r).

Lemma makeReq_makeBytesReq r : requestFits r -> makeReq (makeBytesReq r) = r.
Proof.
  destruct r as [a b c d e]. intros (Ha & Hb & Hc & Hd & He). unfold makeReq, makeBytesReq, makeBytesUint64. cbn [opType io_mountID inodeID io_offset io_length] in *.
  rewrite !fieldAt_app, !fieldAt_here by done. by rewrite <- (app_nil_r (lePut 8 e)), fieldAt_here.
Qed.

Lemma makeBytesReq_length r : length (makeBytesReq r) = ioRequestSize.
Proof. unfold makeBytesReq, makeBytesUint64. by rewrite !length_app, !lePut_length. Qed.

(** What the client reads of a response. *)
Lemma makeBytesResp_fields r : is_u64 (io_errno r) -> is_u64 (ioSize r) ->
  fieldAt 0 (makeBytesResp r) = io_errno r /\ fieldAt 1 (makeBytesResp r) = ioSize r.
Proof.
  intros He Hs. unfold makeBytesResp, makeBytesUint64. rewrite fieldAt_app, fieldAt_here by done. split; [done|].
  by rewrite <- (app_nil_r (lePut 8 (ioSize r))), fieldAt_here.
Qed.

(** ** Requests and responses on a connection *)

Inductive ioMessage :=
| MWrite (mountID inodeNumber offset : Z) (data : bytes)
| MRead (mountID inodeNumber offset length_ : Z).

Definition requestOf (m : ioMessage) : ioRequest :=
  match m with
  | MWrite id n o data => mkIoRequest 1001 id n o (zlen data)
  | MRead id n o l => mkIoRequest 1002 id n o l
  end.

Definition payloadOf (m : ioMessage) : bytes := match m with MWrite _ _ _ data => data | MRead _ _ _ _ => [] end.

Definition encode (m : ioMessage) : bytes := makeBytesReq (requestOf m) ++ payloadOf m.

(** The context of a message once it was read. *)
Definition received (ctx : ioContext) (m : ioMessage) : ioContext :=
  match m with
  | MWrite _ _ _ data => mkIoContext WriteOp (requestOf m) (io_resp ctx) data
  | MRead _ _ _ _ => mkIoContext ReadOp (requestOf m) (io_resp ctx) (io_data ctx)
  end.

Definition respond (ctx : ioContext) : bytes :=
  makeBytesResp (io_resp ctx) ++ match io_op ctx with ReadOp => io_data ctx | _ => [] end.

Section Io.
Context {I : Type} `{!FsLocks.InodeHandle I} (maxAlloc : Z) (partial : error -> bytes).

(** The specification of a connection: each message is served in turn. *)
Fixpoint answers (g : jrpcGlobals) (ctx : ioContext) (vols : gmap string (fsState I)) (messages : list ioMessage)
    : option (list bytes * gmap string (fsState I)) :=
  match messages with
  | [] => Some ([], vols)
  | m :: rest =>
      match ioServe partial g (received ctx m) vols with
      | (vols', IoDone ctx' e) =>
          let ctx3 := ctx' <| io_resp := (io_resp ctx') <| io_errno := u64 (Errno e) |> |> in
          '(more, vols'') ← answers g (ctx3 <| io_data := [] |>) vols' rest; Some (respond ctx3 :: more, vols'')
      | _ => None
      end
  end.

Lemma ReadFull_app a b c : toRead c = a ++ b -> ReadFull (length a) c = (c <| toRead := b |>, Ret a).
Proof.
  intros Hc. unfold ReadFull. rewrite Hc, length_app, (proj2 (Nat.leb_le _ _)) by lia.
  rewrite drop_app_ge, Nat.sub_diag, drop_0 by lia. by rewrite take_app_le, firstn_all by lia.
Qed.

Definition messageFits (m : ioMessage) : Prop := requestFits (requestOf m) /\ zlen (payloadOf m) <= maxAlloc.

Lemma getRequest_encode ctx m rest c : messageFits m -> toRead c = encode m ++ rest ->
  getRequest maxAlloc ctx c = (c <| toRead := rest |>, Ret (received ctx m)).
Proof.
  intros [Hf Hl] Hc. unfold encode in Hc. rewrite <- app_assoc in Hc. unfold getRequest, sbind.
  rewrite <- (makeBytesReq_length (requestOf m)), (ReadFull_app _ _ _ Hc), makeReq_makeBytesReq by done.
  destruct m as [id n o data|id n o l]; cbn [requestOf opType io_length payloadOf app] in *.
  - change (1001 =? 1001) with true. cbn iota. rewrite (proj2 (Z.ltb_ge _ _)) by done.
    replace (Z.to_nat (zlen data)) with (length data) by (unfold zlen; lia). by rewrite (ReadFull_app data rest).
  - done.
Qed.

(** Everything is written when the peer takes it. *)
Lemma putResponseWrite_all buf c : zlen buf <= peerTakes c ->
  putResponseWrite buf c = (c <| written := written c ++ buf |> <| peerTakes := peerTakes c - zlen buf |>, Ret tt).
Proof.
  intros Hp. unfold putResponseWrite, putLoop. fold putLoop. change (Z.to_nat 0) with 0%nat. rewrite drop_0.
  destruct (Z.ltb_spec 0 (zlen buf)) as [Hl|Hl].
  - unfold sbind, connWrite. rewrite (proj2 (Z.ltb_ge _ _)) by done.
    destruct (length buf); cbn [putLoop]; by rewrite Z.ltb_irrefl.
  - assert (buf = []) as -> by (destruct buf; [done|unfold zlen in Hl; cbn in Hl; lia]).
    rewrite app_nil_r. cbn. rewrite Z.sub_0_r. by destruct c.
Qed.

Lemma ioServe_op g ctx (vols vols' : gmap string (fsState I)) ctx' e :
  ioServe partial g ctx vols = (vols', IoDone ctx' e) -> (io_op ctx = WriteOp \/ io_op ctx = ReadOp) -> io_op ctx' = io_op ctx.
Proof.
  unfold ioServe. intros HS Hop. destruct (lookupMountHandle g _) as [e0|h].
  - injection HS as _ <- _. unfold ioUnmounted. destruct Hop as [E|E]; rewrite E; exact E.
  - destruct (vols !! mount_volume h) as [s|]; [|done].
    destruct (runFs _ s) as [s' [r| | |]] eqn:Hr; try done. destruct (ioResult partial ctx r) as [ctx2 e2] eqn:Hi. injection HS as _ <- _.
    destruct r as [e1|ctx1]; cbn [ioResult] in Hi.
    + destruct Hop as [E|E]; rewrite E in Hi |- *; injection Hi as <- _; exact E.
    + injection Hi as <- _. unfold ioCall in Hr. destruct Hop as [E|E]; rewrite E in Hr |- *; unfold fbind in Hr; rewrite runFs_bind in Hr;
        destruct (runFs _ s) as [s1 [[|]| | |]]; cbn in Hr; try done; injection Hr as _ <-; exact E.
Qed.

Lemma putResponse_all ctx c : (io_op ctx = WriteOp \/ io_op ctx = ReadOp) -> zlen (respond ctx) <= peerTakes c ->
  putResponse ctx c = (c <| written := written c ++ respond ctx |> <| peerTakes := peerTakes c - zlen (respond ctx) |>, Ret tt).
Proof.
  unfold putResponse, respond. rewrite zlen_app. intros Hop Hp.
  assert (Hnn : forall b : bytes, 0 <= zlen b) by (intros; unfold zlen; lia).
  destruct Hop as [E|E]; rewrite E in Hp |- *; unfold sbind; (rewrite putResponseWrite_all; [|pose proof (Hnn (io_data ctx)); change (zlen (@nil Z)) with 0 in *; lia]).
  - change (zlen (@nil Z)) with 0. by rewrite Z.add_0_r, app_nil_r.
  - destruct (io_data ctx) as [|b data]; [change (zlen (@nil Z)) with 0; by rewrite Z.add_0_r, app_nil_r|].
    rewrite putResponseWrite_all by (cbn [peerTakes set]; unfold set; cbn [peerTakes]; lia).
    unfold set. cbn. by rewrite <- app_assoc, Z.sub_add_distr.
Qed.

(** A connection carries out its messages one after the other. *)
Lemma ioLoop_answers g messages : forall fuel ctx conn vols outs vols',
  answers g ctx vols messages = Some (outs, vols') -> Forall messageFits messages ->
  toRead conn = concat (map encode messages) -> zlen (concat outs) <= peerTakes conn -> (length messages <= fuel)%nat ->
  ioLoop maxAlloc partial fuel g ctx conn vols
  = (mkConn [] (written conn ++ concat outs) (peerTakes conn - zlen (concat outs)), vols', IoClosed).
Proof.
  induction messages as [|m rest IH]; intros fuel ctx conn vols outs vols' Ha Hf Hr Hp Hfuel; cbn [answers] in Ha.
  - injection Ha as <- <-. cbn [map concat] in *. destruct fuel as [|fuel]; cbn [ioLoop]; unfold getRequest, sbind, ReadFull;
      rewrite Hr; cbn; by rewrite app_nil_r, Z.sub_0_r.
  - inversion_clear Hf as [|? ? Hm Hrest]. cbn [map concat] in Hr.
    destruct (ioServe partial g (received ctx m) vols) as [vols1 [ctx' e| |]] eqn:Hs; try done.
    destruct (answers g _ vols1 rest) as [[more vols2]|] eqn:Hmore; [|done]. cbn in Ha. injection Ha as <- <-.
    destruct fuel as [|fuel]; [cbn in Hfuel; lia|]. cbn [ioLoop]. rewrite (getRequest_encode _ _ _ _ Hm Hr), Hs.
    assert (Hop : io_op (received ctx m) = WriteOp \/ io_op (received ctx m) = ReadOp) by (destruct m; [by left|by right]).
    pose proof (ioServe_op _ _ _ _ _ _ Hs Hop) as Hop'. cbn [concat] in *. rewrite zlen_app in Hp.
    pose proof (Zle_0_nat (length (concat more))) as Hnn. fold (zlen (concat more)) in Hnn.
    rewrite putResponse_all; [|cbn; by rewrite Hop'|cbn [peerTakes set]; unfold set; cbn; lia].
    rewrite (IH _ _ _ _ _ _ Hmore Hrest); [|done|cbn; lia|cbn in Hfuel; lia]. unfold set. cbn [toRead written peerTakes concat]. by rewrite zlen_app, Z.sub_add_distr, <- app_assoc.
Qed.
End Io.

(** ** Through to the file *)

Section WriteRead.
Context {V W : Type} `{HV : !VolumeHandle.VolumeHandle V} `{!VolumeHandleOk V} `{!VolumeHandleLive V} `{HW : !SwiftData W}
  `{!SwiftDataOk W} `{!PayloadTree} `{!OnDiskCodec} (time_Now : nat -> Z) (maxAlloc : Z) (partial : error -> bytes).

#[local] Instance theHandle : FsLocks.InodeHandle (InodeVolume.volumeStruct V W) := inodeHandle time_Now.

Lemma encode_length m : (1 <= length (encode m))%nat.
Proof. unfold encode. rewrite length_app, makeBytesReq_length. unfold ioRequestSize. lia. Qed.

Lemma encoded_fuel messages : (length messages <= length (concat (map encode messages)))%nat.
Proof.
  induction messages as [|m rest IH]; cbn [map concat]; [cbn; lia|]. rewrite length_app. cbn [length]. pose proof (encode_length m). lia.
Qed.

(** The response to a request that succeeded. *)
Definition success (size : Z) : bytes := makeBytesResp (mkIoResponse 0 size).

(** C3. On the fast port, a client that sends a write request with its data and
    then a read request for the same range receives two responses: both report
    success and the number of bytes, and the second is followed by exactly the
    bytes that were written; then the server waits for the next request, until
    the client closes the connection. *)
Theorem fast_port_write_then_read (g : jrpcGlobals) (vols : gmap string (fsState (InodeVolume.volumeStruct V W))) s
    mountID mountHandle n p inode off (buf sent : bytes) room :
  lookupMountHandle g mountID = inr mountHandle -> vols !! mount_volume mountHandle = Some s ->
  fileReady (inodeVolume s) n p inode -> InodeFileFacts.roomFor (inodeVolume s) inode buf ->
  lockFree s (makeLockID (mount_volume mountHandle) n) ->
  is_u64 mountID -> is_u64 n -> 0 <= off -> 0 < zlen buf <= 2 ^ 48 -> off + zlen buf <= maxOffset -> zlen buf <= maxAlloc ->
  32 + zlen buf <= room ->
  exists vols', ioHandle maxAlloc partial g
      (mkConn (encode (MWrite mountID n off buf) ++ encode (MRead mountID n off (zlen buf))) sent room) vols
    = (mkConn [] (sent ++ success (zlen buf) ++ success (zlen buf) ++ buf) (room - (32 + zlen buf)), vols', IoClosed).
Proof.
  destruct mountHandle as [mid options v]. cbn [mount_volume]. intros Hh Hv Hr Hroom Hl Hid Hn Ho Hlen Hend Halloc Hpeer.
  destruct (Write_Read_ok time_Now (inodeVolume s) n p inode off buf Hr Hroom Ho Hlen Hend) as (i1 & inode1 & i2 & Hw & Hr1 & Hpm & Hrd).
  destruct (run_Write time_Now v s n p inode InodeRootUserID InodeRootGroupID [] off buf i1 Hr eq_refl Hl Hw) as (vr & HrunW & _).
  set (s1 := mkFsState (fsLocks s) (nextCallerID s +u 1) i1 vr) in *.
  pose proof (run_Read time_Now v s1 n p inode1 InodeRootUserID InodeRootGroupID [] off (zlen buf) buf i2 Hr1 eq_refl Hl Hrd ltac:(lia)) as HrunR.
  set (s2 := mkFsState _ _ _ _) in HrunR.
  assert (Hout : answers partial g newIoContext vols [MWrite mountID n off buf; MRead mountID n off (zlen buf)]
                 = Some ([success (zlen buf); success (zlen buf) ++ buf], <[v := s2]> (<[v := s1]> vols))).
  { cbn [answers]. unfold ioServe at 1. cbn [received io_req requestOf io_mountID]. rewrite Hh. cbn [mount_volume]. rewrite Hv.
    unfold ioCall. cbn [io_op io_req requestOf inodeID io_offset io_data]. rewrite (run_fthen _ _ _ _ _ HrunW). unfold fret; cbn [runFs ioResult].
    cbn [received io_req requestOf io_mountID]. unfold ioServe. cbn [io_req io_mountID]. rewrite Hh. cbn [mount_volume]. rewrite lookup_insert_eq.
    unfold ioCall. cbn [io_op io_req inodeID io_offset io_length]. rewrite (run_fthen _ _ _ _ _ HrunR). unfold fret; cbn [runFs ioResult]. unfold set, respond. cbn.
    reflexivity. }
  unfold ioHandle.
  pose proof (ioLoop_answers maxAlloc partial g [MWrite mountID n off buf; MRead mountID n off (zlen buf)]) as Hloop.
  assert (Hsize : zlen (success (zlen buf)) = 16) by done.
  eexists. rewrite (Hloop _ _ _ _ _ _ Hout).
  - cbn [concat written peerTakes]. by rewrite app_nil_r, !zlen_app, Hsize, Z.add_assoc.
  - assert (Ho64 : is_u64 off) by (unfold is_u64, maxOffset in *; lia).
    assert (Hl64 : is_u64 (zlen buf)) by (unfold is_u64, two64; lia).
    repeat constructor; try done; try apply Hid; try apply Hn; try apply Ho64; try apply Hl64. change (zlen (@nil Z)) with 0. cbn. unfold zlen at 1. cbn. lia.
  - cbn [map concat toRead]. by rewrite app_nil_r.
  - cbn [concat peerTakes]. rewrite app_nil_r, !zlen_app, Hsize. lia.
  - cbn [toRead]. etrans; [apply encoded_fuel|]. cbn [map concat]. by rewrite app_nil_r.
Qed.
End WriteRead.
