(* ===== verification/JrpcfsInstance.v ===== *)
(** A server with the volume of [FsInstance], its clients, and a connection of
    the fast port. *)

From S2P Require Import Prelude SortedMap Blunder NodeProgram Utils GoStrings Conf ConfSections Dlm InodeTypes Extents ExtentsFacts ReadCache VolumeHandle InodeDir InodeFile InodeFileFacts InodeConfig InodeVolume InodeInstance FsProgram FsLocks FsConfig FsFlock FsPath Fs FsMiddleware FsInstance Jrpcfs JrpcfsConfigFacts JrpcfsFilesystem JrpcfsServer JrpcfsIo.
Open Scope list_scope.

(** ** The fast port *)

Definition noPartial (e : error) : bytes := [].

(** A client has mounted the volume "v". *)
Definition sampleMount : mountStruct := mkMount 1 0 "v".

Definition sampleServer : jrpcGlobals := mkJrpc "A" "10.0.0.1" "12345" "32345" false {["v"%string]} {[1 := sampleMount]} 1 ∅ false.

Definition sampleVols : gmap string (fsState memVolume) := {["v"%string := sampleFs]}.

Lemma fast_port_write_then_read_witness :
  exists vols', ioHandle 1000 noPartial sampleServer
      (mkConn (encode (MWrite 1 7 3 [1; 2]) ++ encode (MRead 1 7 3 (zlen [1; 2]))) [] 100) sampleVols
    = (mkConn [] ([] ++ success (zlen [1; 2]) ++ success (zlen [1; 2]) ++ [1; 2]) (100 - (32 + zlen [1; 2])), vols', IoClosed).
Proof.
  refine (fast_port_write_then_read noClock 1000 noPartial sampleServer sampleVols sampleFs 1 sampleMount 7 0 emptyFile 3 [1; 2] [] 100
            _ _ _ _ _ _ _ _ _ _ _ _).
  - reflexivity.
  - reflexivity.
  - apply sampleVolume_ready.
  - apply sampleVolume_room. unfold zlen; cbn; lia.
  - reflexivity.
  - unfold is_u64, two64; lia.
  - unfold is_u64, two64; lia.
  - lia.
  - unfold zlen; cbn; lia.
  - unfold zlen, maxOffset, two64; cbn; lia.
  - unfold zlen; cbn; lia.
  - unfold zlen; cbn; lia.
Defined.

(** ** The JSON-RPC server *)

Definition sampleMounts : fsGlobals :=
  mkFsGlobals "A" {["v"%string := mkFsVol "v" 10 newFsVolume [1]]} {[1 := sampleMount]} 1 true.

(** The account "AUTH_v" is the one of the volume "v". *)
Definition sampleAccounts : inodeGlobals := mkInodeGlobals "A" "10.0.0.1" (0, 0) (0, 0) ∅ {["AUTH_v"%string := "v"%string]} ∅ ∅ 0.

Definition sampleWorld : jrpcGlobals * (fsGlobals * inodeGlobals) := (sampleServer, (sampleMounts, sampleAccounts)).

Abbreviation answer r w := (serve (I := memVolume) id 10 0 0 r w).

Lemma sampleWorld_ok : tablesOk sampleWorld.
Proof.
  split; split; cbn.
  - intros id m [<- <-]%lookup_singleton_Some. split; [done|]. split; [lia|]. exists (mkFsVol "v" 10 newFsVolume [1]).
    split; [done|]. by apply list_elem_of_singleton.
  - intros name v id [<- <-]%lookup_singleton_Some ->%list_elem_of_singleton. by exists sampleMount.
  - unfold two64; lia.
  - intros id h [<- <-]%lookup_singleton_Some. split; [done|lia].
  - by intros name h ?%lookup_empty_Some.
  - unfold two64; lia.
Qed.

(** A middleware request mounts the volume of its account. *)
Definition headRequest : request HeadReply := MHead (mkHead "/v1/AUTH_v/c/o").

Lemma requests_keep_handles_witness :
  tablesOk sampleWorld /\ evolves sampleWorld (answer headRequest sampleWorld).1
  /\ mountMap (answer headRequest sampleWorld).1.2.1 !! 2 = Some (mkMount 2 0 "v").
Proof.
  split; [exact sampleWorld_ok|]. split; [|vm_compute; reflexivity].
  exact (proj1 (requests_keep_handles id 10 0 0 headRequest sampleWorld _ _ sampleWorld_ok (conj eq_refl eq_refl)
                  (surjective_pairing (answer headRequest sampleWorld)))).
Defined.

Lemma unknown_mount_reported_witness :
  exists e, answer (MUnlink (mkUnlink (mkInodeHandle 7 1) "f")) sampleWorld = (sampleWorld, HDone (inl e))
    /\ errorText (fun _ => EmptyString) (MUnlink (mkUnlink (mkInodeHandle 7 1) "f")) e = "errno: 22"%string.
Proof. apply (unknown_mount_reported id 10 0 0 _ _ 7); reflexivity. Defined.

Lemma unknown_account_stops_server_witness :
  answer (MDelete (mkDelete "/v1/AUTH_other/c/o")) sampleWorld = (sampleWorld, HCrash).
Proof.
  exact (unknown_account_stops_server id 10 0 0 (MDelete (mkDelete "/v1/AUTH_other/c/o")) sampleWorld "/v1/AUTH_other/c/o" "AUTH_other" "c" "o"
           eq_refl eq_refl eq_refl).
Defined.
