(* ===== verification/FuseConfig.v ===== *)
(** Package [fuse]: the mount points of the process (config.go).

    A mount point is a struct of [mountPointMap]; the file system that a mount
    point serves runs on a mount of package [fs].  [Host] is the machine: what
    [os.Stat] says of a path, the program fusermount, and the mounts that the
    library [bazil.org/fuse] makes. *)

From S2P Require Import Prelude Blunder Utils GoStrings Conf ConfSections FsProgram FsLocks FsConfig FsPath Jrpcfs.
Open Scope list_scope.

Record mountPointStruct := mkMountPoint {
  mountPointName : string;
  mp_volumeName : string;
  mp_mounted : bool
}.

#[export] Instance eta_mountPoint : Eta mountPointStruct := fun m => mkMountPoint (mountPointName m) (mp_volumeName m) (mp_mounted m).

Record fuseGlobals := mkFuse {
  fu_whoAmI : string;
  mountPointMap : gmap string mountPointStruct
}.

#[export] Instance eta_fuse : Eta fuseGlobals := fun g => mkFuse (fu_whoAmI g) (mountPointMap g).

(** What [os.Stat] finds: nothing, an error, a file without a [Stat_t], or the
    device that a file is on. *)
Inductive statResult := StatMissing | StatFailed | StatNoSys | StatDevice (dev : Z).

Class Host (W : Type) := {
  osStat : string -> W -> W * statResult;
  fusermount : string -> St W error unit;
  fuseMount : string -> St W error unit;
  fuseUnmount : string -> St W error unit
}.

Definition maxRetryCount : nat := 100.

Section Config.
Context `{!MapRange} {W : Type} `{!Host W}.

Abbreviation FU A := (St (fuseGlobals * (fsGlobals * W)) error A).

Definition onHost {A} (m : St W error A) : FU A := fun w => let '(s, r) := m w.2.2 in ((w.1, (w.2.1, s)), r).

Definition onFs {A} (m : St (fsGlobals * W) error A) : FU A := fun w => let '(f, r) := m w.2 in ((w.1, f), r).

Definition modFuse (f : fuseGlobals -> fuseGlobals) : FU unit := smod (fun w => (f w.1, w.2)).

(** The device of a path, none when the path is missing. *)
Definition fetchInodeDevice (path : string) : FU (option Z) := onHost (fun s =>
  match osStat path s with
  | (s', StatMissing) => (s', Ret None)
  | (s', StatDevice dev) => (s', Ret (Some dev))
  | (s', _) => (s', Err plain)
  end).

Definition lazyUnmount (name : string) : FU unit := onHost (fusermount name).

Definition setMounted (name : string) (b : bool) : FU unit :=
  modFuse (fun g => g <| mountPointMap := alter (fun m => m <| mp_mounted := b |>) name (mountPointMap g) |>).

(** Until what was mounted is gone: at most [n + 1] looks. *)
Fixpoint awaitUnmounted (n : nat) (name : string) (dirDevice : Z) : FU unit :=
  r <~ stry (fetchInodeDevice name) ;;
  let again := match n with O => serr plain | S n' => awaitUnmounted n' name dirDevice end in
  match r with
  | inr None => serr plain
  | inr (Some device) => if device =? dirDevice then sret tt else again
  | inl _ => again
  end.

(** Until the mount point is there: [device] was seen last. *)
Fixpoint awaitMounted (n : nat) (name : string) (dirDevice device : Z) : FU unit :=
  if device =? dirDevice then
    r <~ fetchInodeDevice name ;;
    match r with
    | None => serr plain
    | Some device' => match n with O => serr plain | S n' => awaitMounted n' name dirDevice device' end
    end
  else sret tt.

(** The part of [performMount] from [fuselib.Mount] on: a mount that fails is
    only logged. *)
Definition serveMountPoint (name volumeName : string) (dirDevice : Z) : FU unit :=
  r <~ stry (onHost (fuseMount name)) ;;
  match r with
  | inl _ => sret tt
  | inr _ =>
      mountID <~ onFs (mount volumeName 0) ;;
      r <~ fetchInodeDevice name ;;
      match r with
      | None => serr plain
      | Some device => awaitMounted (pred maxRetryCount) name dirDevice device ;;~ setMounted name true
      end
  end.

Definition performMount (name volumeName : string) : FU unit :=
  setMounted name false ;;~
  parent <~ fetchInodeDevice (Dir name) ;;
  match parent with
  | None => sret tt
  | Some dirDevice =>
      r <~ stry (fetchInodeDevice name) ;;
      match r with
      | inr None => sret tt
      | _ =>
          (if bool_decide (r = inr (Some dirDevice)) then sret tt
           else lazyUnmount name ;;~ awaitUnmounted (pred maxRetryCount) name dirDevice) ;;~
          serveMountPoint name volumeName dirDevice
      end
  end.

(** ** Start *)

Definition addMountPoint (name volumeName : string) : FU unit :=
  modFuse (fun g => g <| mountPointMap := <[name := mkMountPoint name volumeName false]> (mountPointMap g) |>).

Definition readMountPoint (confMap : ConfMap) (namespaced : bool) (volumeName : string) : FU unit :=
  name <~ slift (FetchOptionValueString confMap (VolumeNameConfSection namespaced volumeName) "FUSEMountPointName") ;;
  w <~ sget ;;
  if bool_decide (is_Some (mountPointMap w.1 !! name)) then serr plain else addMountPoint name volumeName.

Definition Up (confMap : ConfMap) (namespaced : bool) : FU unit :=
  modFuse (fun g => g <| mountPointMap := ∅ |>) ;;~
  volumeList <~ slift (volumeListOf confMap) ;;
  assign (FetchOptionValueString confMap "Cluster" "WhoAmI") EmptyString (fun whoAmI w => (w.1 <| fu_whoAmI := whoAmI |>, w.2)) ;;~
  w <~ sget ;;
  sfor volumeList (fun volumeName =>
    ifPrimary confMap namespaced (fu_whoAmI w.1) volumeName (readMountPoint confMap namespaced volumeName)) ;;~
  w <~ sget ;;
  sfor (rangeKeys (dom (mountPointMap w.1))) (fun name =>
    match mountPointMap w.1 !! name with Some m => performMount name (mp_volumeName m) | None => sret tt end).

(** ** Change of configuration *)

(** [removedVolumeMap]: the mount points by their volumes, without the volumes
    of the list that this peer serves. *)
Definition mountPointsByVolume (g : fuseGlobals) : gmap string mountPointStruct :=
  foldl (fun removed name => match mountPointMap g !! name with Some m => <[mp_volumeName m := m]> removed | None => removed end)
    ∅ (rangeKeys (dom (mountPointMap g))).

Fixpoint keepServed (confMap : ConfMap) (namespaced : bool) (whoAmI : string) (volumeList : list string)
    (removed : gmap string mountPointStruct) : res (gmap string mountPointStruct) :=
  match volumeList with
  | [] => Ret removed
  | volumeName :: rest =>
      match removed !! volumeName with
      | None => keepServed confMap namespaced whoAmI rest removed
      | Some _ =>
          primaryPeer <- primaryPeerOf confMap namespaced volumeName ;;
          keepServed confMap namespaced whoAmI rest
            (if bool_decide (primaryPeer = Some whoAmI) then delete volumeName removed else removed)
      end
  end.

(** An unmount that fails is only logged. *)
Definition unmount (name : string) : FU unit :=
  r <~ stry (onHost (fuseUnmount name)) ;;
  match r with
  | inr _ => sret tt
  | inl _ => stry (lazyUnmount name) ;;~ sret tt
  end.

Definition removeMountPoint (m : mountPointStruct) : FU unit :=
  (if mp_mounted m then unmount (mountPointName m) else sret tt) ;;~
  modFuse (fun g => g <| mountPointMap := delete (mountPointName m) (mountPointMap g) |>).

Definition PauseAndContract (confMap : ConfMap) (namespaced : bool) : FU unit :=
  whoAmI <~ slift (FetchOptionValueString confMap "Cluster" "WhoAmI") ;;
  w <~ sget ;;
  if bool_decide (whoAmI = fu_whoAmI w.1) then
    volumeList <~ slift (volumeListOf confMap) ;;
    removed <~ slift (keepServed confMap namespaced (fu_whoAmI w.1) volumeList (mountPointsByVolume w.1)) ;;
    sfor (rangeKeys (dom removed)) (fun volumeName =>
      match removed !! volumeName with Some m => removeMountPoint m | None => sret tt end)
  else serr plain.

Definition expandMountPoint (confMap : ConfMap) (namespaced : bool) (volumeName : string) : FU unit :=
  name <~ slift (FetchOptionValueString confMap (VolumeNameConfSection namespaced volumeName) "FUSEMountPointName") ;;
  w <~ sget ;;
  if bool_decide (is_Some (mountPointMap w.1 !! name)) then sret tt
  else addMountPoint name volumeName ;;~ performMount name volumeName.

Definition ExpandAndResume (confMap : ConfMap) (namespaced : bool) : FU unit :=
  volumeList <~ slift (volumeListOf confMap) ;;
  w <~ sget ;;
  sfor volumeList (fun volumeName =>
    ifPrimary confMap namespaced (fu_whoAmI w.1) volumeName (expandMountPoint confMap namespaced volumeName)).

(** ** Stop *)

(** The loop ends with the first mount point that [fuselib.Unmount] unmounts. *)
Fixpoint downLoop (names : list string) (err : option error) : FU unit :=
  match names with
  | [] => match err with None => sret tt | Some e => serr e end
  | name :: rest =>
      w <~ sget ;;
      match mountPointMap w.1 !! name with
      | Some m =>
          if mp_mounted m then
            r <~ stry (onHost (fuseUnmount name)) ;;
            match r with
            | inr _ => sret tt
            | inl _ =>
                r' <~ stry (lazyUnmount name) ;;
                downLoop rest (match r' with inl e => Some e | inr _ => None end)
            end
          else downLoop rest err
      | None => downLoop rest err
      end
  end.

Definition Down : FU unit := w <~ sget ;; downLoop (rangeKeys (dom (mountPointMap w.1))) None.
End Config.


(** Package [fuse] adds mounts and nothing else to package [fs], at most one for
    each mount point it serves. *)

Section Facts.
Context `{!MapRange} `{!MapRangeOk} {W : Type} `{!Host W} (R : W -> W -> Prop) `{!PreOrder R}
  (Hstat : forall path s, R s (osStat path s).1) (Hfusermount : forall name, keeps R (fusermount name))
  (Hmount : forall name, keeps R (fuseMount name)) (Hunmount : forall name, keeps R (fuseUnmount name)).

Abbreviation world := (fuseGlobals * (fsGlobals * W))%type.

(** A step that leaves package [fs] alone. *)
Definition apart (w w' : world) : Prop := fu_whoAmI w'.1 = fu_whoAmI w.1 /\ w'.2.1 = w.2.1 /\ R w.2.2 w'.2.2.

#[local] Instance apart_preorder : PreOrder apart.
Proof.
  split; [intros w; split; [done|]; split; [done|reflexivity]|]. intros a b c (H1 & H2 & H3) (G1 & G2 & G3).
  split; [congruence|]. split; [congruence|by etrans].
Qed.

Lemma onHost_apart {A} (m : St W error A) : keeps R m -> keeps apart (onHost m).
Proof. intros Hm w w' r. unfold onHost. destruct (m w.2.2) as [s o] eqn:E. intros [= <- _]. split; [done|]. split; [done|]. by eapply Hm. Qed.

Lemma stat_apart path : keeps apart (fetchInodeDevice path).
Proof.
  apply onHost_apart. intros s s' r. pose proof (Hstat path s) as Hs. destruct (osStat path s) as [s1 []]; cbn in Hs; by intros [= <- _].
Qed.

Lemma modFuse_apart f : (forall g, fu_whoAmI (f g) = fu_whoAmI g) -> keeps apart (modFuse f).
Proof. intros Hf w w' r [= <- _]. split; [apply Hf|]. split; [done|reflexivity]. Qed.

Ltac apart_step := first
  [ apply stat_apart | apply onHost_apart; first [apply Hfusermount | apply Hmount | apply Hunmount] | apply modFuse_apart; done
  | apply keeps_bind; [apply _| |intros] | apply keeps_try | apply keeps_lift; apply _ | apply keeps_get; apply _
  | apply keeps_ret; apply _ | apply keeps_err; apply _ | apply keeps_panic; apply _ | apply keeps_for; [apply _|intros]
  | match goal with |- keeps _ (match ?x with _ => _ end) => destruct x end ].

Lemma awaitUnmounted_apart name dirDevice n : keeps apart (awaitUnmounted n name dirDevice).
Proof. induction n; cbn [awaitUnmounted]; repeat (apart_step || assumption). Qed.

Lemma awaitMounted_apart name dirDevice n : forall device, keeps apart (awaitMounted n name dirDevice device).
Proof. induction n; intros device; cbn [awaitMounted]; repeat (apart_step || auto). Qed.

(** ** Steps that mount *)

(** At most [n] mounts more. *)
Definition adds {A} (n : Z) (m : St world error A) : Prop := forall w w' r, m w = (w', r) ->
  fu_whoAmI w'.1 = fu_whoAmI w.1 /\ mountedMore n w.2.1 w'.2.1 /\ R w.2.2 w'.2.2.

Lemma adds_apart {A} n (m : St world error A) : 0 <= n -> keeps apart m -> adds n m.
Proof. intros Hn Hm w w' r HR. destruct (Hm _ _ _ HR) as (? & -> & ?). split; [done|]. split; [by apply mountedMore_refl|done]. Qed.

Lemma adds_bind {A B} n k (m : St world error A) (f : A -> St world error B) : 0 <= k ->
  adds n m -> (forall a, adds k (f a)) -> adds (n + k) (sbind m f).
Proof.
  intros Hk Hm Hf w w' r. unfold sbind. destruct (m w) as [w1 [a|e|]] eqn:E; intros HR; pose proof (Hm _ _ _ E) as (H1 & H2 & H3).
  - destruct (Hf _ _ _ _ HR) as (G1 & G2 & G3). split; [congruence|]. split; [by eapply mountedMore_trans|by etrans].
  - injection HR as <- _. split; [done|]. split; [|done]. eapply mountedMore_trans; [done|done|by apply mountedMore_refl].
  - injection HR as <- _. split; [done|]. split; [|done]. eapply mountedMore_trans; [done|done|by apply mountedMore_refl].
Qed.

Lemma adds_then {A B} n (m : St world error A) (f : A -> St world error B) : 0 <= n -> keeps apart m -> (forall a, adds n (f a)) -> adds n (sbind m f).
Proof. intros Hn Hm Hf. change n with (0 + n). apply adds_bind; [done|by apply adds_apart|done]. Qed.

Lemma serveMountPoint_adds name volumeName dirDevice : adds 1 (serveMountPoint name volumeName dirDevice).
Proof.
  unfold serveMountPoint. apply adds_then; [done|repeat apart_step|]. intros [e|[]]; [apply adds_apart; [done|repeat apart_step]|].
  change 1 with (1 + 0). apply adds_bind; [done| |].
  - intros w w' r. unfold onFs. destruct (mount volumeName 0 w.2) as [f o] eqn:E. intros [= <- _]. split; [done|]. cbn. split; [by eapply mount_more|].
    eapply (mount_rest R) in E; exact E.
  - intros id. apply adds_apart; [done|]. unfold setMounted; repeat (apply awaitMounted_apart || apart_step).
Qed.

Lemma performMount_adds name volumeName : adds 1 (performMount name volumeName).
Proof.
  unfold performMount. apply adds_then; [done|unfold setMounted; repeat apart_step|]. intros _. apply adds_then; [done|repeat apart_step|].
  intros [dirDevice|]; [|apply adds_apart; [done|repeat apart_step]]. apply adds_then; [done|repeat apart_step|]. intros r.
  assert (Hmain : adds 1 ((if bool_decide (r = inr (Some dirDevice)) then sret tt
            else lazyUnmount name ;;~ awaitUnmounted (pred maxRetryCount) name dirDevice) ;;~ serveMountPoint name volumeName dirDevice)).
  { apply adds_then; [done|unfold lazyUnmount; repeat (apply awaitUnmounted_apart || apart_step)|]. intros _. apply serveMountPoint_adds. }
  destruct r as [e|[device|]]; [exact Hmain|exact Hmain|apply adds_apart; [done|repeat apart_step]].
Qed.

Lemma sfor_adds {A} (l : list A) body : (forall x, x ∈ l -> adds 1 (body x)) -> adds (zlen l) (sfor l body).
Proof.
  induction l as [|x l IH]; intros Hb; cbn [sfor]; [apply adds_apart; [done|repeat apart_step]|].
  rewrite zlen_cons. replace (zlen l + 1) with (1 + zlen l) by lia. pose proof (zlen_nonneg l).
  apply adds_bind; [done|apply Hb; by left|]. intros _. apply IH. intros y Hy. apply Hb. by right.
Qed.

Lemma adds_le {A} n k (m : St world error A) : n <= k -> adds n m -> adds k m.
Proof.
  intros Hle Hm w w' r HR. destruct (Hm _ _ _ HR) as (H1 & H2 & H3). split; [done|]. split; [|done]. intros Hok Hroom.
  destruct H2 as (? & ? & ? & ? & ?); [done|lia|]. repeat (split; [done|]). lia.
Qed.

Lemma ifPrimary_adds n confMap namespaced whoAmI volumeName (body : St world error unit) : 0 <= n -> adds n body ->
  adds n (ifPrimary confMap namespaced whoAmI volumeName body).
Proof.
  intros Hn Hb. unfold ifPrimary. apply adds_then; [done|repeat apart_step|]. intros p. destruct (bool_decide _); [done|].
  apply adds_apart; [done|repeat apart_step].
Qed.

(** ** Start and change of configuration *)

Lemma fuseExpand_adds confMap namespaced volumeList : volumeListOf confMap = Ret volumeList ->
  adds (zlen volumeList) (ExpandAndResume confMap namespaced).
Proof.
  intros Hl. pose proof (zlen_nonneg volumeList). unfold ExpandAndResume. rewrite Hl.
  change (adds (zlen volumeList) (w <~ sget ;; sfor volumeList (fun volumeName =>
    ifPrimary confMap namespaced (fu_whoAmI w.1) volumeName (expandMountPoint confMap namespaced volumeName)))).
  apply adds_then; [done|repeat apart_step|]. intros w. apply sfor_adds. intros volumeName _.
  apply ifPrimary_adds; [done|]. unfold expandMountPoint. apply adds_then; [done|repeat apart_step|]. intros name.
  apply adds_then; [done|repeat apart_step|]. intros u. destruct (bool_decide _); [apply adds_apart; [done|repeat apart_step]|].
  apply adds_then; [done|unfold addMountPoint; repeat apart_step|]. intros _. apply performMount_adds.
Qed.

Lemma fusePause_apart confMap namespaced : keeps apart (PauseAndContract confMap namespaced).
Proof. unfold PauseAndContract, removeMountPoint, unmount, lazyUnmount. repeat apart_step. Qed.

Lemma fusePause_who confMap namespaced (w w' : world) : PauseAndContract confMap namespaced w = (w', Ret tt) ->
  FetchOptionValueString confMap "Cluster" "WhoAmI" = Ret (fu_whoAmI w.1).
Proof. unfold PauseAndContract. intros HR. ret_step HR. ret_step HR. case_bool_decide; [by subst|done]. Qed.

(** The mount points that [Up] reads are not more than the volumes. *)
Lemma readMountPoint_ret confMap namespaced volumeName (w w' : world) : readMountPoint confMap namespaced volumeName w = (w', Ret tt) ->
  (size (mountPointMap w'.1) <= S (size (mountPointMap w.1)))%nat /\ fu_whoAmI w'.1 = fu_whoAmI w.1 /\ w'.2 = w.2.
Proof.
  unfold readMountPoint. intros HR. ret_step HR. ret_step HR. case_bool_decide as Hn; [done|]. injection HR as <-. cbn.
  apply eq_None_not_Some in Hn. by rewrite map_size_insert_None.
Qed.

Lemma fuseUp_ret confMap namespaced volumeList (w w' : world) : volumeListOf confMap = Ret volumeList ->
  Up confMap namespaced w = (w', Ret tt) ->
  FetchOptionValueString confMap "Cluster" "WhoAmI" = Ret (fu_whoAmI w'.1)
  /\ mountedMore (zlen volumeList) w.2.1 w'.2.1 /\ R w.2.2 w'.2.2.
Proof.
  intros Hl HR. unfold Up in HR. ret_step HR. destruct a. injection E as <-. ret_step HR. rewrite Hl in E. injection E as <-.
  ret_step HR. rename E into Hwho. ret_step HR. ret_step HR. destruct a0. rename E into Hloop. ret_step HR. cbn [fst snd] in *.
  assert (Hs : (size (mountPointMap s.1) <= length volumeList)%nat /\ fu_whoAmI s.1 = a /\ s.2 = w.2).
  { refine (sfor_ret_ind (fun don u => (size (mountPointMap u.1) <= length don)%nat /\ fu_whoAmI u.1 = a /\ u.2 = w.2) _ _ _ _ _ _ Hloop).
    - cbn. rewrite map_size_empty. done.
    - intros don x s1 s2 _ (H1 & H2 & H3) Hb. rewrite length_app. cbn [length]. apply ifPrimary_ret in Hb as [[_ Hb]|[_ ->]]; [|by split; [lia|]].
      apply readMountPoint_ret in Hb as (G1 & G2 & G3). split; [lia|]. split; congruence. }
  destruct Hs as (Hsize & <- & Hsame).
  assert (Hadds : adds (zlen volumeList) (sfor (rangeKeys (dom (mountPointMap s.1))) (fun name =>
            match mountPointMap s.1 !! name with Some m => performMount name (mp_volumeName m) | None => sret tt end))).
  { eapply adds_le; [|apply sfor_adds].
    - unfold zlen. rewrite rangeKeys_perm. change (length (elements (dom (mountPointMap s.1)))) with (size (dom (mountPointMap s.1))).
      rewrite size_dom. lia.
    - intros name _. destruct (mountPointMap s.1 !! name); [apply performMount_adds|apply adds_apart; [done|repeat apart_step]]. }
  destruct (Hadds _ _ _ HR) as (-> & H2 & H3). rewrite Hsame in H2, H3. done.
Qed.
End Facts.
