(* ===== verification/Httpserver.v ===== *)
(** Package [httpserver]: its volumes and their fsck jobs (config.go), and its
    requests (request_handler.go).

    [volumeLLRB] and [fsckJobs] are sorted maps.  A pointer to a job is the id
    of the job.  [errChan] is what [fs.ValidateVolume] has sent on the channel
    of that name and nobody took yet; [haltResult] is what it sends once it is
    told to stop.  [X] is the rest of the world, with its clock. *)

From S2P Require Import Prelude SortedMap Blunder Utils GoStrings Conf ConfSections.
Open Scope list_scope.

Definition fsckJobsHistoryMaxSize : Z := 5.

Inductive fsckJobState := fsckJobRunning | fsckJobHalted | fsckJobCompleted.

#[export] Instance fsckJobState_dec : EqDecision fsckJobState.
Proof. solve_decision. Defined.

Record fsckJobStruct := mkFsckJob {
  errChan : option (option error);
  job_state : fsckJobState;
  startTime : Z;
  endTime : Z;
  job_err : option error
}.

#[export] Instance eta_fsckJob : Eta fsckJobStruct := fun j => mkFsckJob (errChan j) (job_state j) (startTime j) (endTime j) (job_err j).

Record httpVolume := mkHttpVolume {
  headhunterHandle : option string;
  fsckActiveJob : option Z;
  fsckJobs : list (Z * fsckJobStruct)
}.

#[export] Instance eta_httpVolume : Eta httpVolume := fun v => mkHttpVolume (headhunterHandle v) (fsckActiveJob v) (fsckJobs v).

Record httpGlobals := mkHttp {
  ht_active : bool;
  ht_whoAmI : string;
  ht_ipAddr : string;
  ht_tcpPort : Z;
  ht_confMap : ConfMap;
  volumeLLRB : list (string * httpVolume)
}.

#[export] Instance eta_http : Eta httpGlobals := fun g =>
  mkHttp (ht_active g) (ht_whoAmI g) (ht_ipAddr g) (ht_tcpPort g) (ht_confMap g) (volumeLLRB g).

(** ** Jobs *)

(** An assignment to fields of a job, through a pointer. *)
Definition setJob (id : Z) (f : fsckJobStruct -> fsckJobStruct) (v : httpVolume) : httpVolume :=
  match GetByKey (fsckJobs v) id with
  | Some job => match PatchByKey (fsckJobs v) id (f job) with Some jobs => v <| fsckJobs := jobs |> | None => v end
  | None => v
  end.

(** The job [id] ends in [state] with the error [e] at the time [now]. *)
Definition endJob (id : Z) (state : fsckJobState) (e : option error) (now : Z) (v : httpVolume) : httpVolume :=
  (setJob id (fun job => mkFsckJob None state (startTime job) now e) v) <| fsckActiveJob := None |>.

Class Clock (X : Type) := { time_Now : X -> X * Z }.

Section Config.
Context {X : Type} `{!Clock X} (headhunter : string -> res (option string)) (haltResult : string -> Z -> X -> X * option error)
  (Listen : string -> string -> X -> X * option error).

Abbreviation HG A := (St (httpGlobals * X) error A).

Definition modHttp (f : httpGlobals -> httpGlobals) : HG unit := smod (fun w => (f w.1, w.2)).

(** The active job is told to stop and waited for. *)
Definition haltJob (volumeName : string) (v : httpVolume) (x : X) : X * httpVolume :=
  match fsckActiveJob v with
  | None => (x, v)
  | Some id =>
      let '(x1, e) :=
        match GetByKey (fsckJobs v) id with
        | Some job => match errChan job with Some e => (x, e) | None => haltResult volumeName id x end
        | None => haltResult volumeName id x
        end in
      let '(x2, now) := time_Now x1 in
      (x2, endJob id fsckJobHalted e now v)
  end.

Fixpoint haltAll (volumes : list (string * httpVolume)) (x : X) : X * list (string * httpVolume) :=
  match volumes with
  | [] => (x, [])
  | (volumeName, v) :: rest =>
      let '(x1, v') := haltJob volumeName v x in
      let '(x2, rest') := haltAll rest x1 in
      (x2, (volumeName, v') :: rest')
  end.

Definition stopRunningFSCKs : HG unit := smod (fun w =>
  let '(x, volumes) := haltAll (volumeLLRB w.1) w.2 in (w.1 <| volumeLLRB := volumes |>, x)).

(** ** Start *)

(** A volume is served without [return] when its list of peers has several:
    the error is overwritten later. *)
Definition ifPeer (confMap : ConfMap) (namespaced : bool) (whoAmI volumeName : string) (body : HG unit) : HG unit :=
  primaryPeerList <~ slift (FetchOptionValueStringSlice confMap (VolumeNameConfSection namespaced volumeName) "PrimaryPeer") ;;
  match primaryPeerList with
  | [primaryPeer] => if String.eqb whoAmI primaryPeer then body else sret tt
  | _ => sret tt
  end.

Definition addVolume (volumeName : string) : HG unit :=
  headhunterHandle <~ slift (headhunter volumeName) ;;
  w <~ sget ;;
  match Put (volumeLLRB w.1) volumeName (mkHttpVolume headhunterHandle None []) with
  | Some volumes => modHttp (fun g => g <| volumeLLRB := volumes |>)
  | None => serr plain
  end.

Definition Up (confMap : ConfMap) (namespaced : bool) : HG unit :=
  modHttp (fun g => g <| ht_confMap := confMap |>) ;;~
  assign (FetchOptionValueString confMap "Cluster" "WhoAmI") EmptyString (fun s w => (w.1 <| ht_whoAmI := s |>, w.2)) ;;~
  volumeList <~ slift (volumeListOf confMap) ;;
  modHttp (fun g => g <| volumeLLRB := [] |>) ;;~
  w <~ sget ;;
  sfor volumeList (fun volumeName => ifPeer confMap namespaced (ht_whoAmI w.1) volumeName (addVolume volumeName)) ;;~
  assign (FetchOptionValueString confMap (PeerNameConfSection namespaced (ht_whoAmI w.1)) "PrivateIPAddr") EmptyString
    (fun s w => (w.1 <| ht_ipAddr := s |>, w.2)) ;;~
  assign (FetchOptionValueUint16 confMap "HTTPServer" "TCPPort") 0 (fun n w => (w.1 <| ht_tcpPort := n |>, w.2)) ;;~
  w <~ sget ;;
  (fun u => let '(x, e) := Listen (ht_ipAddr w.1) (FormatUint (ht_tcpPort w.1)) u.2 in
            ((u.1, x), match e with Some e => Err e | None => Ret tt end)) ;;~
  modHttp (fun g => g <| ht_active := true |>).

(** ** Change of configuration *)

Definition unchangedOption {A} `{!EqDecision A} (fetch : res A) (old : httpGlobals -> A) : HG unit :=
  new <~ slift fetch ;;
  w <~ sget ;;
  if bool_decide (new = old w.1) then sret tt else serr plain.

(** The volumes of the list that this peer serves: [volumeMap]. *)
Fixpoint peerVolumes (confMap : ConfMap) (namespaced : bool) (whoAmI : string) (volumeList : list string) : res (gset string) :=
  match volumeList with
  | [] => Ret ∅
  | volumeName :: rest =>
      primaryPeerList <- FetchOptionValueStringSlice confMap (VolumeNameConfSection namespaced volumeName) "PrimaryPeer" ;;
      volumeMap <- peerVolumes confMap namespaced whoAmI rest ;;
      Ret (match primaryPeerList with
           | [primaryPeer] => if String.eqb whoAmI primaryPeer then {[volumeName]} ∪ volumeMap else volumeMap
           | _ => volumeMap
           end)
  end.

(** The loop over [volumeLLRB]: index after index, or a deletion at an index. *)
Fixpoint dropLoop (fuel : nat) (volumeMap : gset string) (volumeIndex : Z) (volumes : list (string * httpVolume))
    : list (string * httpVolume) :=
  match fuel with
  | O => volumes
  | S fuel' =>
      match GetByIndex volumes volumeIndex with
      | None => volumes
      | Some (volumeName, _) =>
          if bool_decide (volumeName ∈ volumeMap) then dropLoop fuel' volumeMap (volumeIndex + 1) volumes
          else match DeleteByIndex volumes volumeIndex with
               | Some volumes' => dropLoop fuel' volumeMap volumeIndex volumes'
               | None => volumes
               end
      end
  end.

Definition PauseAndContract (confMap : ConfMap) (namespaced : bool) : HG unit :=
  unchangedOption (FetchOptionValueString confMap "Cluster" "WhoAmI") ht_whoAmI ;;~
  w <~ sget ;;
  unchangedOption (FetchOptionValueString confMap (PeerNameConfSection namespaced (ht_whoAmI w.1)) "PrivateIPAddr") ht_ipAddr ;;~
  unchangedOption (FetchOptionValueUint16 confMap "HTTPServer" "TCPPort") ht_tcpPort ;;~
  modHttp (fun g => g <| ht_active := false |>) ;;~
  stopRunningFSCKs ;;~
  volumeList <~ slift (volumeListOf confMap) ;;
  volumeMap <~ slift (peerVolumes confMap namespaced (ht_whoAmI w.1) volumeList) ;;
  modHttp (fun g => g <| volumeLLRB := dropLoop (length (volumeLLRB g)) volumeMap 0 (volumeLLRB g) |>).

Definition ExpandAndResume (confMap : ConfMap) (namespaced : bool) : HG unit :=
  volumeList <~ slift (volumeListOf confMap) ;;
  w <~ sget ;;
  sfor volumeList (fun volumeName =>
    ifPeer confMap namespaced (ht_whoAmI w.1) volumeName
      (u <~ sget ;;
       match GetByKey (volumeLLRB u.1) volumeName with
       | None => addVolume volumeName
       | Some _ => sret tt
       end)) ;;~
  modHttp (fun g => g <| ht_active := true |> <| ht_confMap := confMap |>).

Definition Down : HG unit := stopRunningFSCKs.
End Config.

From S2P Require Import FsProgram FsPath.
From Stdlib Require Import Ascii.

(** Package [httpserver]: the requests (request_handler.go).

    A request is what [net/http] made of it; [compact] are the values of that
    query parameter.  A response has the fields that the handlers set.  [Json]
    is the package encoding/json on the values that are sent, [timeString] is
    [Time.String], [Dump] is that of package [stats], and [memStats] what
    [runtime.ReadMemStats] reads.  [None] stands for [logger.Fatalf], which ends
    the process. *)

Inductive httpMethod := MethodGet | MethodPost | MethodOther.

Record httpRequest := mkRequest { Method : httpMethod; URLPath : string; Accept : string; compact : list string }.

Record httpResponse := mkResponse { status : Z; contentType : string; location : string; body : string }.

Definition StatusOK : Z := 200.
Definition StatusCreated : Z := 201.
Definition StatusNoContent : Z := 204.
Definition StatusNotFound : Z := 404.
Definition StatusMethodNotAllowed : Z := 405.
Definition StatusPreconditionFailed : Z := 412.
Definition StatusServiceUnavailable : Z := 503.

Definition WriteHeader (status : Z) : httpResponse := mkResponse status EmptyString EmptyString EmptyString.

(** The status structs of jobs, as the values of their fields. *)
Inductive jobStatus :=
| fsckRunningJobStruct (StartTime : string)
| fsckHaltedJobStruct (StartTime HaltTime : string)
| fsckCompletedJobNoErrorStruct (StartTime DoneTime : string)
| fsckCompletedJobWithErrorStruct (StartTime DoneTime Error : string).

Class Json := {
  marshalConfMap : ConfMap -> string;
  marshalStrings : list string -> string;
  marshalIDs : list Z -> string;
  marshalJob : jobStatus -> string;
  Indent : string -> string
}.

Record runtimeMemStats := mkMemStats { memField : string -> Z; GCCPUPercentage : Z; NumGC : Z; PauseNs : list Z }.

Class Metrics (X : Type) := { Dump : X -> gmap string Z; ReadMemStats : X -> runtimeMemStats; FetchNonce : string -> St X error Z }.

(** ** Text *)

Definition newline : string := String (asciiOfByte 10) EmptyString.

Definition quoted (s : string) : string := (String (asciiOfByte 34) EmptyString ++ s ++ String (asciiOfByte 34) EmptyString)%string.

Definition text (lines : list string) : string := foldr (fun line rest => line ++ newline ++ rest)%string EmptyString lines.

Definition page (title : string) (lines : list string) : list string :=
  ["<!DOCTYPE html>"; "<html>"; "  <head>"; "    <title>" ++ title ++ "</title>"; "  </head>"; "  <body>"]%string
  ++ lines ++ ["  </body>"; "</html>"]%string.

Definition html (title : string) (lines : list string) : httpResponse :=
  mkResponse StatusOK "text/html" EmptyString (text (page title lines)).

Definition link (indent url name : string) : list string :=
  [(indent ++ "<a href=" ++ quoted url ++ ">" ++ name ++ "</a>")%string].

(** A link to each element, with a break between two. *)
Fixpoint links {A} (url name : A -> string) (l : list A) (first : bool) : list string :=
  match l with
  | [] => []
  | x :: rest =>
      (if first then [] else ["    <br />"%string]) ++
      ["    <a href=" ++ quoted (url x) ++ ">"; "      " ++ name x; "    </a>"]%string ++ links url name rest false
  end.

Definition form (action value : string) : list string :=
  [("    <form method=" ++ quoted "post" ++ " action=" ++ quoted action ++ ">");
   ("      <input type=" ++ quoted "submit" ++ " value=" ++ quoted value ++ ">"); "    </form>"]%string.

Definition row (name value : string) : list string :=
  ["      <tr>"; "        <td>" ++ name ++ "</td>"; "        <td>" ++ value ++ "</td>"; "      </tr>"]%string.

Definition table (rows : list (string * string)) : list string :=
  ["    <table>"%string] ++ flat_map (fun r => row r.1 r.2) rows ++ ["    </table>"%string].

Definition fsckURL (volumeName : string) : string := ("/volume/" ++ volumeName ++ "/fsck-job")%string.
Definition jobURL (volumeName : string) (id : Z) : string := (fsckURL volumeName ++ "/" ++ FormatUint id)%string.

(** [strings.TrimRight(path, "/")] *)
Fixpoint TrimRightSlash (path : string) : string :=
  match path with
  | EmptyString => EmptyString
  | String c rest =>
      let rest' := TrimRightSlash rest in
      if Ascii.eqb c slash && String.eqb rest' EmptyString then EmptyString else String c rest'
  end.

(** The parts of a path from [pathSplit[1]] on, and [numPathParts]. *)
Definition pathParts (path : string) : list string * Z :=
  let pathSplit := Split slash path in
  let numPathParts := zlen pathSplit - 1 in
  (pathSplit, if String.eqb (List.last pathSplit EmptyString) EmptyString then numPathParts - 1 else numPathParts).

Definition part (pathSplit : list string) (i : nat) : string := nth i pathSplit EmptyString.

(** ** Metrics *)

Definition memFields : list string :=
  ["Alloc"; "TotalAlloc"; "Sys"; "Lookups"; "Mallocs"; "Frees"; "HeapAlloc"; "HeapSys"; "HeapIdle"; "HeapInuse"; "HeapReleased";
   "HeapObjects"; "StackInuse"; "StackSys"; "MSpanInuse"; "MSpanSys"; "MCacheInuse"; "MCacheSys"; "BuckHashSys"; "GCSys"; "OtherSys";
   "LastGC"; "PauseTotalNs"]%string.

Definition memName (field : string) : string := ("go_runtime_MemStats_" ++ field)%string.

(** The average of the pauses that are kept, of at most 256. *)
Definition PauseAverageNs (m : runtimeMemStats) : Z :=
  let sum n := foldl uadd 0 (take n (PauseNs m)) in
  if NumGC m =? 0 then 0
  else if NumGC m <? 255 then sum (Z.to_nat (NumGC m)) / NumGC m
  else sum 256%nat / 256.

Definition addMemStats (m : runtimeMemStats) (statsMap : gmap string Z) : gmap string Z :=
  <[memName "PauseAverageNs" := PauseAverageNs m]>
    (<[memName "GCCPUPercentage" := GCCPUPercentage m]>
      (<[memName "NumGC" := NumGC m]>
        (foldl (fun s field => <[memName field := memField m field]> s) statsMap memFields))).

(** [strings.Replace] of one character by another, everywhere. *)
Fixpoint replaceChar (old new : ascii) (s : string) : string :=
  match s with
  | EmptyString => EmptyString
  | String c rest => String (if Ascii.eqb c old then new else c) (replaceChar old new rest)
  end.

Definition metricKey (statKey : string) : string := replaceChar "-"%char "_"%char (replaceChar "."%char "_"%char statKey).

Fixpoint spaces (n : nat) : string := match n with O => EmptyString | S n' => String " "%char (spaces n') end.

(** [%-ws] and [%ws] of [fmt], for ASCII. *)
Definition padRight (w : nat) (s : string) : string := (s ++ spaces (w - String.length s))%string.
Definition padLeft (w : nat) (s : string) : string := (spaces (w - String.length s) ++ s)%string.

Fixpoint putStats (stats : list (string * Z)) (statsLLRB : list (string * string)) : option (list (string * string)) :=
  match stats with
  | [] => Some statsLLRB
  | (statKey, value) :: rest =>
      match Put statsLLRB (metricKey statKey) (FormatUint value) with
      | Some statsLLRB' => putStats rest statsLLRB'
      | None => None
      end
  end.

Definition longest (l : list string) : nat := foldr Nat.max O (map String.length l).

Definition metricsResponse (statsMap : gmap string Z) : option httpResponse :=
  statsLLRB ← putStats (map_to_list statsMap) [];
  let keys := longest (map fst statsLLRB) in
  let values := longest (map snd statsLLRB) in
  Some (mkResponse StatusOK "text/plain" EmptyString
          (text (map (fun kv => (padRight keys kv.1 ++ " " ++ padLeft values kv.2)%string) statsLLRB))).

Section Requests.
Context {X : Type} `{!Clock X} `{!Json} `{!Metrics X} (timeString : Z -> string) (haltResult : string -> Z -> X -> X * option error).

(** A handler, under the lock of the globals. *)
Abbreviation handler := (httpGlobals * X -> httpGlobals * X * option httpResponse).

Definition answer (r : httpResponse) : handler := fun w => (w, Some r).

Definition isCompact (request : httpRequest) : bool :=
  match compact request with param :: _ => String.eqb param "true" || String.eqb param "1" | [] => false end.

Definition json (packed : string) (request : httpRequest) : httpResponse :=
  mkResponse StatusOK "application/json" EmptyString (if isCompact request then packed else (Indent packed ++ newline)%string).

Definition doGetOfIndexDotHTML : handler := answer (html "ProxyFS"
  (link "    " "/config" "Configuration Parameters" ++ ["    <br />"%string] ++ link "    " "/metrics" "StatsD/Prometheus Page"
   ++ ["    <br />"%string] ++ link "    " "/volume" "Volume Page")).

Definition doGetOfConfig (request : httpRequest) : handler := fun w =>
  (w, Some (json (marshalConfMap (ht_confMap w.1)) request)).

Definition doGetOfMetrics : handler := fun w => (w, metricsResponse (addMemStats (ReadMemStats w.2) (Dump w.2))).

(** ** Jobs *)

Definition setVolume (volumeName : string) (v : httpVolume) (g : httpGlobals) : httpGlobals :=
  match PatchByKey (volumeLLRB g) volumeName v with Some volumes => g <| volumeLLRB := volumes |> | None => g end.

(** A look at the channel of a running job: a job that is done becomes one that
    was completed just now. *)
Definition pollJob (id : Z) (v : httpVolume) (x : X) : X * httpVolume :=
  match GetByKey (fsckJobs v) id with
  | Some job =>
      match errChan job with
      | Some e => let '(x', now) := time_Now x in (x', endJob id fsckJobCompleted e now v)
      | None => (x, v)
      end
  | None => (x, v)
  end.

Definition listJobs (volumeName : string) (v : httpVolume) (request : httpRequest) : handler := fun w =>
  let fsckJobsIDList := rev (map fst (fsckJobs v)) in
  let '(x, v') := match fsckActiveJob v with None => (w.2, v) | Some id => pollJob id v w.2 end in
  ((setVolume volumeName v' w.1, x),
   Some (if String.eqb (Accept request) "application/json" then json (marshalIDs fsckJobsIDList) request
         else html (volumeName ++ " FSCK Jobs")
                (links (jobURL volumeName) FormatUint fsckJobsIDList true
                 ++ match fsckActiveJob v' with
                    | None => (if 0 <? Len (fsckJobs v) then ["    <br />"%string] else []) ++ form (fsckURL volumeName) "Start"
                    | Some _ => []
                    end))).

(** The message of an error. *)
Context (message : error -> string).

Definition statusOf (job : fsckJobStruct) : jobStatus :=
  let started := timeString (startTime job) in
  match job_state job, job_err job with
  | fsckJobRunning, _ => fsckRunningJobStruct started
  | fsckJobHalted, _ => fsckHaltedJobStruct started (timeString (endTime job))
  | fsckJobCompleted, None => fsckCompletedJobNoErrorStruct started (timeString (endTime job))
  | fsckJobCompleted, Some e => fsckCompletedJobWithErrorStruct started (timeString (endTime job)) (message e)
  end.

Definition jobLines (volumeName : string) (id : Z) (job : fsckJobStruct) : list string :=
  let started := timeString (startTime job) in
  let ended := timeString (endTime job) in
  match job_state job with
  | fsckJobRunning =>
      table [("State", "Running"); ("Start Time", started)]%string ++ ["    <br />"%string] ++ form (jobURL volumeName id) "Stop"
  | fsckJobHalted => table [("State", "Halted"); ("Start Time", started); ("Halt Time", ended)]%string
  | fsckJobCompleted =>
      table [("State", "Completed"); ("Start Time", started); ("Done Time", ended);
             ("Errors", match job_err job with None => "None" | Some e => "No" ++ message e ++ "ne" end)]%string
  end.

Definition showJob (volumeName : string) (id : Z) (v : httpVolume) (request : httpRequest) : handler := fun w =>
  match GetByKey (fsckJobs v) id with
  | None => (w, Some (WriteHeader StatusNotFound))
  | Some job =>
      let '(x, v') := if bool_decide (job_state job = fsckJobRunning) then pollJob id v w.2 else (w.2, v) in
      let job' := match GetByKey (fsckJobs v') id with Some job' => job' | None => job end in
      ((setVolume volumeName v' w.1, x),
       Some (if String.eqb (Accept request) "application/json" then json (marshalJob (statusOf job')) request
             else html (volumeName ++ " FSCK Job " ++ FormatUint id) (jobLines volumeName id job')))
  end.

Definition listVolumes (request : httpRequest) : handler := fun w =>
  let volumeList := map fst (volumeLLRB w.1) in
  (w, Some (if String.eqb (Accept request) "application/json" then json (marshalStrings volumeList) request
            else html "Volumes" (links fsckURL (fun name => name) volumeList true))).

(** A request to the jobs of a volume: [all] for the list, [one] for a job. *)
Definition onJobs (pathSplit : list string) (numPathParts : Z) (all : string -> httpVolume -> handler)
    (one : string -> Z -> httpVolume -> handler) : handler := fun w =>
  let volumeName := part pathSplit 2 in
  match GetByKey (volumeLLRB w.1) volumeName with
  | None => (w, Some (WriteHeader StatusNotFound))
  | Some v =>
      if negb (String.eqb (part pathSplit 3) "fsck-job") then (w, Some (WriteHeader StatusNotFound))
      else if numPathParts =? 3 then all volumeName v w
      else match ParseUint10 64 (part pathSplit 4) with
           | Ret id => one volumeName id v w
           | _ => (w, Some (WriteHeader StatusNotFound))
           end
  end.

Definition doGetOfVolume (request : httpRequest) : handler :=
  let '(pathSplit, numPathParts) := pathParts (URLPath request) in
  if numPathParts =? 1 then listVolumes request
  else if (numPathParts =? 3) || (numPathParts =? 4) then
    onJobs pathSplit numPathParts (fun volumeName v => listJobs volumeName v request)
      (fun volumeName id v => showJob volumeName id v request)
  else answer (WriteHeader StatusNotFound).

Definition doGet (request : httpRequest) : handler :=
  let path := TrimRightSlash (URLPath request) in
  if String.eqb path EmptyString || String.eqb path "/index.html" then doGetOfIndexDotHTML
  else if String.eqb path "/config" then doGetOfConfig request
  else if String.eqb path "/metrics" then doGetOfMetrics
  else if HasPrefix (URLPath request) "/volume" then doGetOfVolume request
  else answer (WriteHeader StatusNotFound).

(** ** Starting and stopping a job *)

(** The oldest jobs go until there is room for one more. *)
Fixpoint trimLoop (jobs : list (Z * fsckJobStruct)) : list (Z * fsckJobStruct) :=
  if Len jobs <? fsckJobsHistoryMaxSize then jobs
  else match jobs with [] => [] | _ :: rest => trimLoop rest end.

Definition startJob (volumeName : string) (v : httpVolume) : handler := fun w =>
  let jobs := trimLoop (fsckJobs v) in
  let '(x1, now) := time_Now w.2 in
  match FetchNonce volumeName x1 with
  | (x2, Ret id) =>
      match Put jobs id (mkFsckJob None fsckJobRunning now 0 None) with
      | Some jobs' =>
          ((setVolume volumeName (v <| fsckJobs := jobs' |> <| fsckActiveJob := Some id |>) w.1, x2),
           Some (mkResponse StatusCreated EmptyString (jobURL volumeName id) EmptyString))
      | None => ((w.1, x2), None)
      end
  | (x2, _) => ((w.1, x2), None)
  end.

Definition postJobs (volumeName : string) (v : httpVolume) : handler := fun w =>
  let '(x, v') := match fsckActiveJob v with None => (w.2, v) | Some id => pollJob id v w.2 end in
  match fsckActiveJob v' with
  | Some _ => (w, Some (WriteHeader StatusPreconditionFailed))
  | None => startJob volumeName v' (w.1, x)
  end.

Definition stopJob (volumeName : string) (id : Z) (v : httpVolume) : handler := fun w =>
  match GetByKey (fsckJobs v) id with
  | None => (w, Some (WriteHeader StatusNotFound))
  | Some _ =>
      if bool_decide (fsckActiveJob v = Some id) then
        let '(x, v') := haltJob haltResult volumeName v w.2 in
        ((setVolume volumeName v' w.1, x), Some (WriteHeader StatusNoContent))
      else (w, Some (WriteHeader StatusPreconditionFailed))
  end.

(** The first part of the path is not looked at. *)
Definition doPost (request : httpRequest) : handler :=
  let '(pathSplit, numPathParts) := pathParts (URLPath request) in
  if (numPathParts =? 3) || (numPathParts =? 4) then onJobs pathSplit numPathParts postJobs stopJob
  else answer (WriteHeader StatusNotFound).

Definition ServeHTTP (request : httpRequest) : handler := fun w =>
  if ht_active w.1 then
    match Method request with
    | MethodGet => doGet request w
    | MethodPost => doPost request w
    | MethodOther => (w, Some (WriteHeader StatusMethodNotAllowed))
    end
  else (w, Some (WriteHeader StatusServiceUnavailable)).
End Requests.
