(* ===== verification/HttpserverFacts.v ===== *)
(** The fsck jobs of package [httpserver]: a volume has at most one running job,
    it is the active one, and the history is short.

    The states of the server that can be reached are those after any sequence
    of requests, ends of jobs and changes of configuration. *)

From S2P Require Import Prelude SortedMap Blunder Utils GoStrings Conf ConfSections FsProgram FsPath Httpserver.
Open Scope list_scope.

(** ** A volume *)

Record jobsOk (v : httpVolume) : Prop := {
  jo_sorted : sorted (fsckJobs v);
  jo_active : forall id, fsckActiveJob v = Some id -> exists job, (id, job) ∈ fsckJobs v /\ job_state job = fsckJobRunning;
  jo_running : forall id job, (id, job) ∈ fsckJobs v -> job_state job = fsckJobRunning -> fsckActiveJob v = Some id;
  jo_few : Len (fsckJobs v) <= fsckJobsHistoryMaxSize
}.

(** A job whose [ValidateVolume] has not returned, and what becomes of it. *)
Definition still (job : fsckJobStruct) : Prop := job_state job = fsckJobRunning /\ errChan job = None.

Definition wentOn (job job' : fsckJobStruct) : Prop :=
  job' = job \/ job_state job' = fsckJobHalted /\ startTime job' = startTime job.

Definition volumeStep (v v' : httpVolume) : Prop :=
  jobsOk v' /\ forall id job, (id, job) ∈ fsckJobs v -> still job -> exists job', (id, job') ∈ fsckJobs v' /\ wentOn job job'.

Lemma volumeStep_refl v : jobsOk v -> volumeStep v v.
Proof. intros Hok. split; [done|]. intros id job Hj _. exists job. split; [done|by left]. Qed.

Lemma setJob_elem id f v : sorted (fsckJobs v) ->
  let v' := setJob id f v in
  sorted (fsckJobs v') /\ map fst (fsckJobs v') = map fst (fsckJobs v) /\ fsckActiveJob v' = fsckActiveJob v
  /\ forall id' job', (id', job') ∈ fsckJobs v' <->
       id' = id /\ (exists job, (id, job) ∈ fsckJobs v /\ job' = f job) \/ id' <> id /\ (id', job') ∈ fsckJobs v.
Proof.
  intros Hs. unfold setJob, GetByKey. destruct (entry_at (fsckJobs v) id) as [job|] eqn:He.
  - pose proof (proj1 (entry_at_elem _ _ _ Hs) He) as Hin. destruct (PatchByKey (fsckJobs v) id (f job)) as [jobs|] eqn:HP.
    + destruct (PatchByKey_elem _ _ _ _ Hs HP) as (Hs' & Hk & _ & Hel). cbn. split; [done|]. split; [done|]. split; [done|].
      intros id' job'. rewrite Hel. split; [|intros [[-> (j & Hj & ->)]|?]; [left|by right]].
      * intros [[-> ->]|?]; [left; eauto|by right].
      * apply (entry_at_elem _ _ _ Hs) in Hj. rewrite He in Hj. by injection Hj as ->.
    + unfold PatchByKey in HP. by rewrite He in HP.
  - cbn. split; [done|]. split; [done|]. split; [done|]. intros id' job'. split.
    + intros Hin. destruct (decide (id' = id)) as [->|Hn]; [|by right]. apply (entry_at_elem _ _ _ Hs) in Hin. congruence.
    + intros [[-> (j & Hj & _)]|[_ ?]]; [|done]. apply (entry_at_elem _ _ _ Hs) in Hj. congruence.
Qed.

Lemma Len_keys {A B} (m : list (Z * A)) (m' : list (Z * B)) : map fst m' = map fst m -> Len m' = Len m.
Proof. intros HE. unfold Len, zlen. f_equal. rewrite <- (length_map fst m'), HE. by rewrite length_map. Qed.

(** The active job ends. *)
Lemma endJob_ok id state e now v : jobsOk v -> fsckActiveJob v = Some id -> state <> fsckJobRunning ->
  let v' := endJob id state e now v in
  jobsOk v' /\ fsckActiveJob v' = None
  /\ forall id' job', (id', job') ∈ fsckJobs v' <->
       id' = id /\ (exists job, (id, job) ∈ fsckJobs v /\ job' = mkFsckJob None state (startTime job) now e)
       \/ id' <> id /\ (id', job') ∈ fsckJobs v.
Proof.
  intros [Hs Ha Hr Hf] Hact Hst. unfold endJob. destruct (setJob_elem id (fun job => mkFsckJob None state (startTime job) now e) v Hs) as (Hs' & Hk & _ & Hel).
  split; [|split; [done|exact Hel]]. split; cbn; [done|by intros| |by rewrite (Len_keys _ _ Hk)].
  intros id' job' [[-> (j & _ & ->)]|[Hn Hin]]%Hel Hrun; [done|]. specialize (Hr _ _ Hin Hrun). congruence.
Qed.

Section Facts.
Context {X : Type} `{!Clock X} `{HJ : !Json} `{!Metrics X} (timeString : Z -> string) (haltResult : string -> Z -> X -> X * option error)
  (message : error -> string).

Lemma haltJob_step volumeName v x : jobsOk v ->
  volumeStep v (haltJob haltResult volumeName v x).2 /\ fsckActiveJob (haltJob haltResult volumeName v x).2 = None.
Proof.
  intros Hok. unfold haltJob. destruct (fsckActiveJob v) as [id|] eqn:Ha; [|split; [by apply volumeStep_refl|done]].
  destruct (match GetByKey _ _ with Some _ => _ | None => _ end) as [x1 e]. destruct (time_Now x1) as [x2 now]. cbn [snd].
  destruct (endJob_ok id fsckJobHalted e now v Hok Ha ltac:(done)) as (Hok' & Hn & Hel). split; [|done]. split; [done|].
  intros id' job Hin Hst. destruct (decide (id' = id)) as [->|Hne].
  - eexists. split; [apply Hel; left; split; [done|by exists job]|by right].
  - exists job. split; [apply Hel; by right|by left].
Qed.

(** A look at the active job: it is as it was, or its volume has no active job
    any more and had none that is still running. *)
Lemma pollJob_step id v x : jobsOk v -> fsckActiveJob v = Some id ->
  (pollJob id v x).2 = v \/ jobsOk (pollJob id v x).2 /\ fsckActiveJob (pollJob id v x).2 = None
                           /\ forall id' job, (id', job) ∈ fsckJobs v -> ~ still job.
Proof.
  intros Hok Ha. unfold pollJob, GetByKey. destruct (entry_at (fsckJobs v) id) as [job|] eqn:He; [|by left].
  destruct (errChan job) as [e|] eqn:Hc; [|by left]. destruct (time_Now x) as [x1 now]. cbn [snd]. right.
  destruct (endJob_ok id fsckJobCompleted e now v Hok Ha ltac:(done)) as (Hok' & Hn & _). split; [done|]. split; [done|].
  intros id' job' Hin [Hr' Hc']. destruct Hok as [Hs _ Hr _]. rewrite (Hr _ _ Hin Hr') in Ha. injection Ha as ->.
  apply (entry_at_elem _ _ _ Hs) in Hin. congruence.
Qed.

(** ** The server *)

Record httpOk (g : httpGlobals) : Prop := {
  ho_sorted : sorted (volumeLLRB g);
  ho_jobs : forall name v, (name, v) ∈ volumeLLRB g -> jobsOk v
}.

(** Every volume stays, with its running job, and nothing but jobs changes. *)
Definition serverStep (g g' : httpGlobals) : Prop :=
  httpOk g' /\ (g' = g <| volumeLLRB := volumeLLRB g' |> /\ map fst (volumeLLRB g') = map fst (volumeLLRB g))
  /\ forall name v, (name, v) ∈ volumeLLRB g -> exists v', (name, v') ∈ volumeLLRB g' /\ volumeStep v v'.

Lemma serverStep_refl g : httpOk g -> serverStep g g.
Proof.
  intros Hok. split; [done|]. split; [by destruct g|]. intros name v Hin. exists v. split; [done|]. by eapply volumeStep_refl, ho_jobs.
Qed.

Lemma setVolume_step g name v v' : httpOk g -> GetByKey (volumeLLRB g) name = Some v -> volumeStep v v' -> serverStep g (setVolume name v' g).
Proof.
  intros [Hs Hj] Hn Hv. unfold GetByKey in Hn. pose proof (proj1 (entry_at_elem _ _ _ Hs) Hn) as Hin. unfold setVolume.
  destruct (PatchByKey (volumeLLRB g) name v') as [volumes|] eqn:HP; [|unfold PatchByKey in HP; by rewrite Hn in HP].
  destruct (PatchByKey_elem _ _ _ _ Hs HP) as (Hs' & Hk & _ & Hel). split; [|split; [by split|]].
  - split; cbn; [done|]. intros name' w [[-> ->]|[_ Hw]]%Hel; [by destruct Hv|by eapply Hj].
  - cbn. intros name' w Hw. destruct (decide (name' = name)) as [->|Hne].
    + exists v'. split; [apply Hel; by left|]. apply (entry_at_elem _ _ _ Hs) in Hw. rewrite Hn in Hw. by injection Hw as <-.
    + exists w. split; [apply Hel; by right|]. by eapply volumeStep_refl, Hj.
Qed.

Lemma trimLoop_suffix (jobs : list (Z * fsckJobStruct)) : exists old, jobs = old ++ trimLoop jobs /\ Len (trimLoop jobs) < fsckJobsHistoryMaxSize.
Proof.
  induction jobs as [|j rest (old & IH & Hl)]; cbn [trimLoop].
  - exists []. done.
  - destruct (Z.ltb_spec (Len (j :: rest)) fsckJobsHistoryMaxSize) as [Hlt|_]; [exists []; done|]. exists (j :: old). split; [by cbn; f_equal|done].
Qed.

(** A job is started when none runs. *)
Lemma startJob_step volumeName v (w w' : httpGlobals * X) r : httpOk w.1 -> jobsOk v -> fsckActiveJob v = None ->
  startJob volumeName v w = (w', Some r) ->
  exists v', w'.1 = setVolume volumeName v' w.1 /\ jobsOk v'.
Proof.
  intros _ [Hs Ha Hr Hf] Hn HS. unfold startJob in HS. destruct (time_Now w.2) as [x1 now].
  destruct (FetchNonce volumeName x1) as [x2 [id|e|]]; [|done..].
  destruct (Put (trimLoop (fsckJobs v)) id _) as [jobs|] eqn:HP; [|done]. injection HS as <- _. eexists. split; [done|].
  destruct (trimLoop_suffix (fsckJobs v)) as (old & HE & Hl). rewrite HE in Hs. apply sorted_app in Hs as (_ & Hs & _).
  destruct (Put_elem _ _ _ _ Hs HP) as (Hs' & Hlen & Hnew & Hel). split; cbn.
  - done.
  - intros id' [= <-]. eexists. split; [apply Hel; by left|done].
  - intros id' job [[-> ->]|Hin]%Hel Hrun; [done|]. rewrite (Hr id' job) in Hn; [done| |done]. rewrite HE. apply elem_of_app. by right.
  - unfold Len in *. lia.
Qed.

Abbreviation world := (httpGlobals * X)%type.

(** What a handler does to the server. *)
Definition steps (h : world -> world * option httpResponse) : Prop :=
  forall w w' r, httpOk w.1 -> h w = (w', Some r) -> serverStep w.1 w'.1.

Lemma steps_same (f : world -> option httpResponse) : steps (fun w => (w, f w)).
Proof. intros w w' r Hok [= <- _]. by apply serverStep_refl. Qed.

Lemma polled v x : jobsOk v ->
  let y := match fsckActiveJob v with None => (x, v) | Some id => pollJob id v x end in
  y.2 = v \/ jobsOk y.2 /\ fsckActiveJob y.2 = None /\ forall id' job, (id', job) ∈ fsckJobs v -> ~ still job.
Proof. intros Hok y. unfold y. destruct (fsckActiveJob v) as [id|] eqn:Ha; [by apply pollJob_step|by left]. Qed.

Lemma polled_step v v' : jobsOk v ->
  v' = v \/ jobsOk v' /\ fsckActiveJob v' = None /\ (forall id' job, (id', job) ∈ fsckJobs v -> ~ still job) -> volumeStep v v'.
Proof.
  intros Hok [->|(Hok' & _ & Hno)]; [by apply volumeStep_refl|]. split; [done|]. intros id job Hin Hst. by destruct (Hno _ _ Hin).
Qed.

Lemma volume_ok g name v : httpOk g -> GetByKey (volumeLLRB g) name = Some v -> jobsOk v.
Proof. intros [Hs Hj] Hn. eapply Hj. by apply (entry_at_elem _ _ _ Hs). Qed.

Lemma listJobs_steps volumeName v request (w w' : world) r : httpOk w.1 -> GetByKey (volumeLLRB w.1) volumeName = Some v ->
  listJobs volumeName v request w = (w', Some r) -> serverStep w.1 w'.1.
Proof.
  intros Hok Hn HS. pose proof (volume_ok _ _ _ Hok Hn) as Hv. unfold listJobs in HS. pose proof (polled v w.2 Hv) as Hp. cbn zeta in Hp.
  destruct (match fsckActiveJob v with None => _ | Some _ => _ end) as [x v']. injection HS as <- _. cbn in Hp |- *.
  apply (setVolume_step _ _ v); [done|done|]. by apply polled_step.
Qed.

Lemma showJob_steps volumeName id v request (w w' : world) r : httpOk w.1 -> GetByKey (volumeLLRB w.1) volumeName = Some v ->
  showJob timeString message volumeName id v request w = (w', Some r) -> serverStep w.1 w'.1.
Proof.
  intros Hok Hn HS. pose proof (volume_ok _ _ _ Hok Hn) as Hv. unfold showJob in HS.
  destruct (GetByKey (fsckJobs v) id) as [job|] eqn:Hj; [|injection HS as <- _; by apply serverStep_refl].
  case_bool_decide as Hr.
  - assert (Ha : fsckActiveJob v = Some id) by (destruct Hv as [Hs _ Hrun _]; apply (Hrun id job); [by apply (entry_at_elem _ _ _ Hs)|done]).
    pose proof (pollJob_step id v w.2 Hv Ha) as Hp. destruct (pollJob id v w.2) as [x v']. injection HS as <- _. cbn in Hp |- *.
    apply (setVolume_step _ _ v); [done|done|]. by apply polled_step.
  - injection HS as <- _. cbn. apply (setVolume_step _ _ v); [done|done|]. by apply volumeStep_refl.
Qed.

Lemma postJobs_steps volumeName v (w w' : world) r : httpOk w.1 -> GetByKey (volumeLLRB w.1) volumeName = Some v ->
  postJobs volumeName v w = (w', Some r) -> serverStep w.1 w'.1.
Proof.
  intros Hok Hn HS. pose proof (volume_ok _ _ _ Hok Hn) as Hv. unfold postJobs in HS. pose proof (polled v w.2 Hv) as Hp. cbn zeta in Hp.
  destruct (match fsckActiveJob v with None => _ | Some _ => _ end) as [x v']. cbn [snd] in Hp.
  destruct (fsckActiveJob v') as [id|] eqn:Ha; [injection HS as <- _; by apply serverStep_refl|].
  assert (Hv' : jobsOk v' /\ forall id' job, (id', job) ∈ fsckJobs v -> ~ still job).
  { destruct Hp as [->|(? & _ & ?)]; [|done]. split; [done|]. intros id' job Hin [Hr _]. destruct Hv as [_ _ Hrun _].
    rewrite (Hrun _ _ Hin Hr) in Ha. done. }
  destruct Hv' as [Hv' Hno]. eapply startJob_step in HS as (v'' & -> & Hok''); [|done..]. cbn.
  apply (setVolume_step _ _ v); [done|done|]. split; [done|]. intros id job Hin Hst. by destruct (Hno _ _ Hin).
Qed.

Lemma stopJob_steps volumeName id v (w w' : world) r : httpOk w.1 -> GetByKey (volumeLLRB w.1) volumeName = Some v ->
  stopJob haltResult volumeName id v w = (w', Some r) -> serverStep w.1 w'.1.
Proof.
  intros Hok Hn HS. pose proof (volume_ok _ _ _ Hok Hn) as Hv. unfold stopJob in HS.
  destruct (GetByKey (fsckJobs v) id); [|injection HS as <- _; by apply serverStep_refl].
  case_bool_decide; [|injection HS as <- _; by apply serverStep_refl].
  destruct (haltJob_step volumeName v w.2 Hv) as [Hst _]. destruct (haltJob haltResult volumeName v w.2) as [x v']. injection HS as <- _.
  by apply (setVolume_step _ _ v).
Qed.

Lemma onJobs_steps pathSplit n all one :
  (forall name v w w' r, httpOk w.1 -> GetByKey (volumeLLRB w.1) name = Some v -> all name v w = (w', Some r) -> serverStep w.1 w'.1) ->
  (forall name id v w w' r, httpOk w.1 -> GetByKey (volumeLLRB w.1) name = Some v -> one name id v w = (w', Some r) -> serverStep w.1 w'.1) ->
  steps (onJobs pathSplit n all one).
Proof.
  intros Hall Hone w w' r Hok HS. unfold onJobs in HS. destruct (GetByKey _ _) as [v|] eqn:Hn; [|by eapply (steps_same (fun _ => Some _))].
  destruct (negb _); [by eapply (steps_same (fun _ => Some _))|]. destruct (n =? 3); [by eapply Hall|].
  destruct (ParseUint10 64 _) as [id|e|]; [by eapply Hone|by eapply (steps_same (fun _ => Some _))..].
Qed.

Lemma ServeHTTP_steps request : steps (ServeHTTP timeString haltResult message request).
Proof.
  intros w w' r Hok. unfold ServeHTTP. destruct (ht_active w.1); [|by apply (steps_same (fun _ => Some _))].
  destruct (Method request); [| |by apply (steps_same (fun _ => Some _))].
  - unfold doGet. repeat match goal with |- context [if ?b then _ else _] => destruct b end; try by apply (steps_same (fun _ => Some _)).
    + by apply (steps_same (fun w => metricsResponse _)).
    + unfold doGetOfVolume. destruct (pathParts _) as [pathSplit n]. destruct (n =? 1); [by apply (steps_same (fun _ => Some _))|].
      destruct (_ || _); [|by apply (steps_same (fun _ => Some _))].
      apply onJobs_steps; [intros; by eapply listJobs_steps|intros; by eapply showJob_steps|done].
  - unfold doPost. destruct (pathParts _) as [pathSplit n]. destruct (_ || _); [|by apply (steps_same (fun _ => Some _))].
    apply onJobs_steps; [intros; by eapply postJobs_steps|intros; by eapply stopJob_steps|done].
Qed.

(** ** Changes of configuration *)

Context (headhunter : string -> res (option string)) (Listen : string -> string -> X -> X * option error).

Lemma haltAll_spec volumes x : (forall name v, (name, v) ∈ volumes -> jobsOk v) ->
  let volumes' := (haltAll haltResult volumes x).2 in
  map fst volumes' = map fst volumes /\ forall name v, (name, v) ∈ volumes' -> jobsOk v /\ fsckActiveJob v = None.
Proof.
  revert x. induction volumes as [|[name v] rest IH]; intros x Hj; cbn [haltAll]; [split; [done|]; by intros ? ? ?%elem_of_nil|].
  destruct (haltJob_step name v x) as [[Hok _] Hn]; [apply (Hj name); by left|].
  destruct (haltJob haltResult name v x) as [x1 v']. cbn [snd] in Hok, Hn.
  destruct (IH x1) as [Hk Hrest]; [intros n u Hin; apply (Hj n); by right|]. destruct (haltAll haltResult rest x1) as [x2 rest']. cbn in Hk, Hrest |- *.
  split; [by f_equal|]. intros n u [[= -> ->]|Hin]%elem_of_cons; [done|by eapply Hrest].
Qed.

Lemma dropLoop_filter volumeMap post : forall pre,
  dropLoop (length post) volumeMap (zlen pre) (pre ++ post) = pre ++ filter (fun p => p.1 ∈ volumeMap) post.
Proof.
  induction post as [|[name v] post IH]; intros pre; cbn [length dropLoop]; [done|].
  rewrite GetByIndex_mid. case_bool_decide as Hn.
  - replace (zlen pre + 1) with (zlen (pre ++ [(name, v)])) by (rewrite zlen_app; done).
    replace (pre ++ (name, v) :: post) with ((pre ++ [(name, v)]) ++ post) by (by rewrite <- app_assoc).
    rewrite IH, filter_cons_True by done. by rewrite <- app_assoc.
  - rewrite DeleteByIndex_mid, IH. by rewrite filter_cons_False by done.
Qed.

Lemma sorted_filter {A} (P : string * A -> Prop) `{!forall p, Decision (P p)} (m : list (string * A)) : sorted m -> sorted (filter P m).
Proof.
  induction m as [|[k v] m IH]; cbn [sorted]; [done|]. intros [Hlt Hs]. destruct (decide (P (k, v))) as [Hp|Hp].
  - rewrite filter_cons_True by done. split; [|by apply IH]. rewrite Forall_forall in Hlt |- *. intros q [_ Hq]%list_elem_of_filter. by apply Hlt.
  - rewrite filter_cons_False by done. by apply IH.
Qed.

Lemma httpOk_keys g g' : map fst (volumeLLRB g') = map fst (volumeLLRB g) -> (forall name v, (name, v) ∈ volumeLLRB g' -> jobsOk v) ->
  httpOk g -> httpOk g'.
Proof. intros Hk Hj [Hs _]. split; [by eapply sorted_keys|done]. Qed.

Lemma addVolume_ok volumeName : keeps (fun w w' => httpOk w.1 -> httpOk w'.1) (addVolume (X := X) headhunter volumeName).
Proof.
  intros w w' r HR Hok. unfold addVolume, sbind in HR. cbn in HR. destruct (headhunter volumeName) as [h|e|]; [|by injection HR as <- _..].
  destruct (Put (volumeLLRB w.1) volumeName _) as [volumes|] eqn:HP; [|by injection HR as <- _]. injection HR as <- _. cbn.
  destruct Hok as [Hs Hj]. destruct (Put_elem _ _ _ _ Hs HP) as (Hs' & _ & _ & Hel). split; cbn; [done|].
  intros name v [[-> ->]|Hin]%Hel; [|by eapply Hj]. split; cbn; [done|by intros|by intros ? ? ?%elem_of_nil|done].
Qed.

Definition keepsOk {A} (m : St world error A) : Prop := keeps (fun w w' => httpOk w.1 -> httpOk w'.1) m.

#[local] Instance keepsOk_preorder : PreOrder (fun w w' : world => httpOk w.1 -> httpOk w'.1).
Proof. split; [by intros w|intros a b c; auto]. Qed.

Ltac ok_step := first
  [ apply addVolume_ok | apply keeps_bind; [apply _| |intros] | apply keeps_lift; apply _ | apply keeps_get; apply _ | apply keeps_ret; apply _ | apply keeps_err; apply _
  | apply keeps_for; [apply _|intros]
  | match goal with |- keeps _ (match ?x with _ => _ end) => destruct x end ].

Lemma modHttp_ok f : (forall g, httpOk g -> httpOk (f g)) -> keepsOk (modHttp (X := X) f).
Proof. intros Hf w w' r [= <- _]. apply Hf. Qed.

Lemma ifPeer_ok confMap namespaced whoAmI volumeName (body : St world error unit) : keepsOk body ->
  keepsOk (ifPeer confMap namespaced whoAmI volumeName body).
Proof. intros Hb. unfold keepsOk, ifPeer. repeat (ok_step || exact Hb). Qed.

Lemma unchangedOption_ok {A} `{!EqDecision A} (fetch : res A) old : keepsOk (unchangedOption (X := X) fetch old).
Proof. unfold keepsOk, unchangedOption. repeat ok_step. Qed.

Lemma httpPause_ok confMap namespaced : keepsOk (PauseAndContract (X := X) haltResult confMap namespaced).
Proof.
  unfold keepsOk, PauseAndContract. repeat (ok_step || apply unchangedOption_ok).
  - apply modHttp_ok. intros g [Hs Hj]. by split.
  - intros w w' r HR Hok. unfold stopRunningFSCKs in HR. injection HR as <- _. destruct (haltAll_spec (volumeLLRB w.1) w.2) as [Hk Hj]; [apply ho_jobs, Hok|].
    destruct (haltAll haltResult (volumeLLRB w.1) w.2) as [x volumes]. cbn in *. eapply httpOk_keys; [exact Hk| |exact Hok]. intros name v Hin. by eapply Hj.
  - apply modHttp_ok. intros g [Hs Hj]. unfold set. cbn.
    match goal with |- context [dropLoop _ ?volumeMap] => pose proof (dropLoop_filter volumeMap (volumeLLRB g) []) as Hd end.
    change (zlen (@nil (string * httpVolume))) with 0 in Hd. rewrite !app_nil_l in Hd. rewrite Hd.
    split; cbn; [by apply sorted_filter|]. intros name v [_ Hin]%list_elem_of_filter. by eapply Hj.
Qed.

Lemma httpExpand_ok confMap namespaced : keepsOk (ExpandAndResume (X := X) headhunter confMap namespaced).
Proof.
  unfold keepsOk, ExpandAndResume. repeat (ok_step || apply ifPeer_ok; unfold keepsOk).
  apply modHttp_ok. intros g [Hs Hj]. by split.
Qed.

(** The volumes that the server shows. *)
Definition shown (g : httpGlobals) : gset string := list_to_set (map fst (volumeLLRB g)).

Lemma shown_elem g name : name ∈ shown g <-> exists v, (name, v) ∈ volumeLLRB g.
Proof.
  unfold shown. rewrite elem_of_list_to_set. split.
  - intros ([n v] & -> & Hin)%list_elem_of_fmap. by exists v.
  - intros [v Hin]. apply list_elem_of_fmap. by exists (name, v).
Qed.

Lemma ifPeer_ret confMap namespaced whoAmI volumeName body (w w' : world) :
  ifPeer confMap namespaced whoAmI volumeName body w = (w', Ret tt) ->
  primaryPeerOf confMap namespaced volumeName = Ret (Some whoAmI) /\ body w = (w', Ret tt)
  \/ primaryPeerOf confMap namespaced volumeName <> Ret (Some whoAmI) /\ w' = w.
Proof.
  unfold ifPeer, primaryPeerOf. intros HR. ret_step HR. rewrite E. cbn [obind]. destruct a as [|p [|]]; [injection HR as <-; by right| |injection HR as <-; by right].
  destruct (String.eqb_spec whoAmI p) as [->|Hn]; [by left|]. injection HR as <-. right. split; [|done]. congruence.
Qed.

Lemma addVolume_shown volumeName (w w' : world) : httpOk w.1 -> addVolume headhunter volumeName w = (w', Ret tt) ->
  shown w'.1 = {[volumeName]} ∪ shown w.1 /\ ht_whoAmI w'.1 = ht_whoAmI w.1.
Proof.
  intros [Hs _] HR. unfold addVolume in HR. ret_step HR. ret_step HR. destruct (Put (volumeLLRB w.1) volumeName _) as [volumes|] eqn:HP; [|done].
  injection HR as <-. destruct (Put_elem _ _ _ _ Hs HP) as (_ & _ & _ & Hel). split; [|done].
  apply set_eq. intros name. rewrite elem_of_union, elem_of_singleton, !shown_elem. cbn. setoid_rewrite Hel. split.
  - intros (v & [[-> _]|Hin]); [by left|right; by exists v].
  - intros [->|[v Hin]]; [eexists; by left|exists v; by right].
Qed.

(** What holds once the volumes [Y] of the list were visited. *)
Definition httpGrown (g : httpGlobals) (Y : gset string) (w : world) : Prop :=
  httpOk w.1 /\ shown w.1 = shown g ∪ Y /\ ht_whoAmI w.1 = ht_whoAmI g.

Lemma httpGrown_start (w : world) : httpOk w.1 -> httpGrown w.1 ∅ w.
Proof. intros Hok. split; [done|]. split; [set_solver|done]. Qed.

Lemma addVolume_grown g Y name (w w' : world) : httpGrown g Y w -> addVolume headhunter name w = (w', Ret tt) -> httpGrown g ({[name]} ∪ Y) w'.
Proof.
  intros (Hok & Hs & Hw) HR. pose proof (addVolume_ok name _ _ _ HR Hok). apply addVolume_shown in HR as [Hs' Hw']; [|done].
  split; [done|]. split; [rewrite Hs', Hs; set_solver|congruence].
Qed.

Lemma httpUp_ret confMap namespaced (w w' : world) : Up headhunter Listen confMap namespaced w = (w', Ret tt) ->
  FetchOptionValueString confMap "Cluster" "WhoAmI" = Ret (ht_whoAmI w'.1) /\ httpOk w'.1 /\ ht_active w'.1 = true
  /\ shown w'.1 = servedBy confMap namespaced (ht_whoAmI w'.1).
Proof.
  unfold Up. intros HR. ret_step HR. destruct a. injection E as <-. ret_step HR. ret_step HR. ret_step HR. destruct a1. injection E1 as <-.
  ret_step HR. ret_step HR. destruct a1. rename E1 into Hloop. cbn [fst snd] in *.
  match type of Hloop with sfor _ _ ?u = _ => set (u0 := u) in Hloop end.
  assert (Hg : httpGrown u0.1 (servedBy confMap namespaced (ht_whoAmI u0.1)) s).
  { refine (visitLoop_ind (httpGrown u0.1) _ _ _ _ _ _ _ E0 _ _ Hloop).
    - apply httpGrown_start. split; cbn; [done|]. by intros ? ? ?%elem_of_nil.
    - intros Y name u u' Hu [[Hp Hb]|[Hp ->]]%ifPeer_ret; [left|by right]. split; [done|]. by eapply addVolume_grown. }
  destruct Hg as ([Hs Hj] & Hsh & Hw). ret_step HR. ret_step HR. ret_step HR. ret_step HR.
  destruct (Listen _ _ _) as [x e]. injection E3 as <- _. injection HR as <-. cbn. rewrite Hw. cbn. split; [done|]. split; [by split|]. split; [done|].
  unfold shown in Hsh |- *. cbn. rewrite Hsh. cbn. set_solver.
Qed.

Lemma peerVolumes_elem confMap namespaced whoAmI volumeList Y : peerVolumes confMap namespaced whoAmI volumeList = Ret Y ->
  forall name, name ∈ Y <-> name ∈ volumeList /\ primaryPeerOf confMap namespaced name = Ret (Some whoAmI).
Proof.
  revert Y. induction volumeList as [|x rest IH]; cbn [peerVolumes]; intros Y HS name.
  - injection HS as <-. split; [by intros ?%elem_of_empty|by intros [?%elem_of_nil _]].
  - destruct (FetchOptionValueStringSlice confMap _ _) as [peers| |] eqn:Hp; cbn [obind] in HS; try done.
    destruct (peerVolumes _ _ _ rest) as [Z| |]; cbn [obind] in HS; try done. injection HS as <-. specialize (IH Z eq_refl name).
    rewrite elem_of_cons. assert (Hx : primaryPeerOf confMap namespaced x = Ret (Some whoAmI) <-> peers = [whoAmI]).
    { unfold primaryPeerOf. rewrite Hp. cbn [obind]. destruct peers as [|p [|]]; split; congruence. }
    destruct peers as [|p [|q peers]]; [| |]; rewrite ?IH.
    + split; [intros [? ?]; auto|]. intros [[->|?] Hq]; [|auto]. by apply Hx in Hq.
    + destruct (String.eqb_spec whoAmI p) as [->|Hn]; rewrite ?elem_of_union, ?elem_of_singleton, IH.
      * split; [intros [->|[? ?]]; [split; [by left|by apply Hx]|auto]|]. intros [[->|?] Hq]; auto.
      * split; [intros [? ?]; auto|]. intros [[->|?] Hq]; [|auto]. apply Hx in Hq. congruence.
    + split; [intros [? ?]; auto|]. intros [[->|?] Hq]; [|auto]. by apply Hx in Hq.
Qed.

Lemma unchangedOption_ret {A} `{!EqDecision A} (fetch : res A) old (w w' : world) : unchangedOption fetch old w = (w', Ret tt) ->
  fetch = Ret (old w.1) /\ w' = w.
Proof. unfold unchangedOption. intros HR. ret_step HR. ret_step HR. case_bool_decide; [|done]. injection HR as <-. by subst. Qed.

(** After [PauseAndContract] no job runs. *)
Lemma httpPause_ret confMap namespaced (w w' : world) : httpOk w.1 -> PauseAndContract haltResult confMap namespaced w = (w', Ret tt) ->
  FetchOptionValueString confMap "Cluster" "WhoAmI" = Ret (ht_whoAmI w.1) /\ httpOk w'.1 /\ ht_whoAmI w'.1 = ht_whoAmI w.1
  /\ ht_active w'.1 = false /\ shown w'.1 = shown w.1 ∩ servedBy confMap namespaced (ht_whoAmI w.1)
  /\ forall name v, (name, v) ∈ volumeLLRB w'.1 -> fsckActiveJob v = None.
Proof.
  intros Hok HR. pose proof (httpPause_ok _ _ _ _ _ HR Hok) as Hok'. unfold PauseAndContract in HR.
  ret_step HR. destruct a. apply unchangedOption_ret in E as [Hwho ->]. split; [done|]. split; [done|].
  ret_step HR. ret_step HR. destruct a. apply unchangedOption_ret in E as [_ ->]. ret_step HR. destruct a. apply unchangedOption_ret in E as [_ ->].
  ret_step HR. destruct a. injection E as <-. ret_step HR. destruct a. injection E as <-. cbn [fst snd] in HR.
  destruct (haltAll_spec (volumeLLRB w.1) w.2) as [Hk Hj]; [apply ho_jobs, Hok|].
  change (volumeLLRB (w.1 <| ht_active := false |>)) with (volumeLLRB w.1) in HR.
  destruct (haltAll haltResult (volumeLLRB w.1) w.2) as [x volumes]. cbn [snd] in Hk, Hj.
  ret_step HR. ret_step HR. injection HR as <-. cbn [fst snd].
  pose proof (dropLoop_filter a0 volumes []) as Hd. change (zlen (@nil (string * httpVolume))) with 0 in Hd. rewrite !app_nil_l in Hd.
  unfold set, shown. cbn. rewrite Hd. split; [done|]. split; [done|]. split; [|intros name v [_ Hin]%list_elem_of_filter; by apply (Hj name)].
  apply set_eq. intros name. rewrite elem_of_intersection, !elem_of_list_to_set, (servedBy_elem _ _ _ _ _ E), <- (peerVolumes_elem _ _ _ _ _ E0).
  rewrite <- Hk, !list_elem_of_fmap. setoid_rewrite list_elem_of_filter. split.
  - intros ([n v] & -> & Hin & Hv). split; [by exists (n, v)|done].
  - intros [([n v] & -> & Hv) Hin]. by exists (n, v).
Qed.

Lemma httpExpand_ret confMap namespaced (w w' : world) : httpOk w.1 -> ExpandAndResume headhunter confMap namespaced w = (w', Ret tt) ->
  httpOk w'.1 /\ ht_whoAmI w'.1 = ht_whoAmI w.1 /\ ht_active w'.1 = true
  /\ shown w'.1 = shown w.1 ∪ servedBy confMap namespaced (ht_whoAmI w.1).
Proof.
  intros Hok HR. unfold ExpandAndResume in HR. ret_step HR. ret_step HR. ret_step HR. destruct a0. injection HR as <-.
  enough (Hg : httpGrown w.1 (servedBy confMap namespaced (ht_whoAmI w.1)) s).
  { destruct Hg as ([Hs Hj] & Hsh & Hw). split; [by split|]. done. }
  refine (visitLoop_ind (httpGrown w.1) _ _ _ _ _ _ _ E (httpGrown_start w Hok) _ E0).
  intros Y name u u' Hu [[Hp Hb]|[Hp ->]]%ifPeer_ret; [left|by right]. split; [done|]. ret_step Hb.
  destruct (GetByKey (volumeLLRB u.1) name) as [v|] eqn:Hn; [|by eapply addVolume_grown]. injection Hb as <-.
  destruct Hu as (Huok & Hs & Hw). split; [done|]. split; [|done]. assert (Hin : name ∈ shown u.1).
  { apply shown_elem. exists v. apply entry_at_elem; [apply Huok|done]. }
  apply set_eq. intros n. rewrite Hs in Hin |- *. set_solver.
Qed.

(** ** States *)

(** What can happen: a request, the end of a [ValidateVolume], the passing of
    time, and the changes of configuration, whatever they return. *)
Inductive hreach : world -> Prop :=
| hreach_up confMap namespaced w w' : Up headhunter Listen confMap namespaced w = (w', Ret tt) -> hreach w'
| hreach_request w request w' r : hreach w -> ServeHTTP timeString haltResult message request w = (w', Some r) -> hreach w'
| hreach_done w name v id job e : hreach w -> GetByKey (volumeLLRB w.1) name = Some v -> (id, job) ∈ fsckJobs v -> still job ->
    hreach (setVolume name (setJob id (fun job => job <| errChan := Some e |>) v) w.1, w.2)
| hreach_time g x x' : hreach (g, x) -> hreach (g, x')
| hreach_pause w confMap namespaced w' r : hreach w -> PauseAndContract haltResult confMap namespaced w = (w', r) -> hreach w'
| hreach_expand w confMap namespaced w' r : hreach w -> ExpandAndResume headhunter confMap namespaced w = (w', r) -> hreach w'.

Lemma setJob_chan_ok id e v : jobsOk v -> jobsOk (setJob id (fun job => job <| errChan := e |>) v).
Proof.
  intros [Hs Ha Hr Hf]. destruct (setJob_elem id (fun job => job <| errChan := e |>) v Hs) as (Hs' & Hk & Hact & Hel).
  set (v' := setJob _ _ v) in *. split; [done| | |by rewrite (Len_keys _ _ Hk)]; rewrite Hact.
  - intros id' Hid. destruct (Ha _ Hid) as (job & Hin & Hrun). destruct (decide (id' = id)) as [->|Hn].
    + eexists. split; [apply Hel; left; split; [done|by exists job]|done].
    + exists job. split; [apply Hel; by right|done].
  - intros id' job' [[-> (job & Hin & ->)]|[_ Hin]]%Hel Hrun; [by eapply Hr|by eapply Hr].
Qed.

(** The end of a [ValidateVolume]. *)
Lemma sendDone_step name v id e (g : httpGlobals) : httpOk g -> GetByKey (volumeLLRB g) name = Some v ->
  let g' := setVolume name (setJob id (fun job => job <| errChan := Some e |>) v) g in
  httpOk g' /\ g' = g <| volumeLLRB := volumeLLRB g' |> /\ map fst (volumeLLRB g') = map fst (volumeLLRB g).
Proof.
  intros Hok Hn. pose proof Hok as [Hs Hj]. pose proof (volume_ok _ _ _ Hok Hn) as Hv. unfold GetByKey in Hn. unfold setVolume.
  destruct (PatchByKey (volumeLLRB g) name _) as [volumes|] eqn:HP; [|unfold PatchByKey in HP; by rewrite Hn in HP].
  destruct (PatchByKey_elem _ _ _ _ Hs HP) as (Hs' & Hk & _ & Hel). cbn. split; [|done].
  split; cbn; [done|]. intros n u [[-> ->]|[_ Hu]]%Hel; [by apply setJob_chan_ok|by eapply Hj].
Qed.

Lemma hreach_ok w : hreach w -> httpOk w.1.
Proof.
  induction 1 as [confMap namespaced w w' HU|w request w' r _ IH HS|w name v id job e _ IH Hn Hin Hst|g x x' _ IH|w confMap namespaced w' r _ IH HP|w confMap namespaced w' r _ IH HP].
  - by apply httpUp_ret in HU as (_ & ? & _).
  - by destruct (ServeHTTP_steps request w w' r IH HS).
  - by eapply sendDone_step.
  - exact IH.
  - by eapply httpPause_ok.
  - by eapply httpExpand_ok.
Qed.

(** C21. Whatever requests the server gets, and however they mix with the ends of
    jobs and with changes of configuration: a volume has at most one running
    job and a history of at most five; and no request loses a job whose
    [ValidateVolume] has not returned: it goes on as it was, or it was halted. *)
Theorem one_fsck_job_at_a_time (w w' : world) request r :
  hreach w -> ServeHTTP timeString haltResult message request w = (w', Some r) ->
  (forall name v, (name, v) ∈ volumeLLRB w'.1 ->
     Len (fsckJobs v) <= fsckJobsHistoryMaxSize
     /\ forall id id' job job', (id, job) ∈ fsckJobs v -> (id', job') ∈ fsckJobs v ->
          job_state job = fsckJobRunning -> job_state job' = fsckJobRunning -> id = id')
  /\ forall name v id job, (name, v) ∈ volumeLLRB w.1 -> (id, job) ∈ fsckJobs v -> still job ->
       exists v' job', (name, v') ∈ volumeLLRB w'.1 /\ (id, job') ∈ fsckJobs v' /\ wentOn job job'.
Proof.
  intros Hw HS. apply hreach_ok in Hw. destruct (ServeHTTP_steps request w w' r Hw HS) as [[Hs Hj] [_ Hst]]. split.
  - intros name v Hin. destruct (Hj _ _ Hin) as [_ _ Hr Hf]. split; [done|]. intros id id' job job' H1 H2 R1 R2.
    pose proof (Hr _ _ H1 R1). pose proof (Hr _ _ H2 R2). congruence.
  - intros name v id job Hin Hjob Hstill. destruct (Hst _ _ Hin) as (v' & Hv' & [_ Hk]). destruct (Hk _ _ Hjob Hstill) as (job' & ? & ?). eauto.
Qed.
End Facts.
