(* ===== verification/Daemon.v ===== *)
(** Package [proxyfsd]: the life of the process (daemon.go), and the start of the
    lock manager (dlm/config.go).

    The packages are started one after the other, each change of configuration
    pauses them in the opposite order and resumes them in this order, and they
    are stopped in the opposite order.  [process] has the state of the packages
    that are modelled; [X] is the rest: Swift, the host, and the packages of
    [Neighbours], which none of the others changes. *)

From S2P Require Import Prelude SortedMap Blunder NodeProgram Utils GoStrings ConfNumbers Conf ConfSections Dlm HeadhunterCodec HeadhunterConfig InodeTypes InodeConfig FsProgram FsLocks FsConfig FsPath Jrpcfs JrpcfsFilesystem JrpcfsServer FuseConfig Httpserver.
From S2P Require Headhunter.
Open Scope list_scope.

(** What the daemon calls of a package. *)
Record package (S : Type) := mkPackage {
  pkUp : ConfMap -> bool -> St S error unit;
  pkPauseAndContract : ConfMap -> bool -> St S error unit;
  pkExpandAndResume : ConfMap -> bool -> St S error unit;
  pkDown : St S error unit
}.
Arguments mkPackage {S}.
Arguments pkUp {S}.
Arguments pkPauseAndContract {S}.
Arguments pkExpandAndResume {S}.
Arguments pkDown {S}.

(** The packages that are not modelled. *)
Class Neighbours (X : Type) := { logger : package X; stats : package X; swiftclient : package X; statslogger : package X }.

Record process (C T X : Type) := mkProcess {
  p_locks : lockMap;
  p_headhunter : hhGlobals C T;
  p_inode : inodeGlobals;
  p_fs : fsGlobals;
  p_fuse : fuseGlobals;
  p_jrpc : jrpcGlobals;
  p_http : httpGlobals;
  p_rest : X
}.
Arguments mkProcess {C T X}.
Arguments p_locks {C T X}.
Arguments p_headhunter {C T X}.
Arguments p_inode {C T X}.
Arguments p_fs {C T X}.
Arguments p_fuse {C T X}.
Arguments p_jrpc {C T X}.
Arguments p_http {C T X}.
Arguments p_rest {C T X}.

#[export] Instance eta_process C T X : Eta (process C T X) := fun p =>
  mkProcess (p_locks p) (p_headhunter p) (p_inode p) (p_fs p) (p_fuse p) (p_jrpc p) (p_http p) (p_rest p).

(** Package [dlm] starts without locks, and leaves them alone otherwise. *)
Definition dlmUp : St lockMap error unit := smod (fun _ => ∅).

(** The configuration of a start, or of a SIGHUP: the file, the strings of the
    command line, and how the sections are named. *)
Definition loadConf `{!ConfFiles} (confFile : string) (confStrings : list string) : res (ConfMap * bool) :=
  let '(confMap, r) := MakeConfMapFromFile confFile in
  _ <- r ;;
  let '(confMap, r) := UpdateFromStrings confStrings confMap in
  _ <- r ;;
  namespaced <- AdjustConfSectionNamespacingAsNecessary confMap ;;
  Ret (confMap, namespaced).

(** A signal; SIGHUP comes with the files as they are then. *)
Inductive signal := SIGHUP (files : ConfFiles) | SIGTERM.

(** How [Daemon] ends: with what it sends on [errChan], or in a panic; or it
    waits for the next signal. *)
Inductive ending := Ended | Failed (e : error) | Crashed.

(** [f] on a part of the state. *)
Definition at_part {S P A} (get : P -> S) (put : S -> P -> P) (m : St S error A) : St P error A := fun p =>
  let '(s, r) := m (get p) in (put s p, r).

Definition part {S P} (get : P -> S) (put : S -> P -> P) (k : package S) : package P :=
  mkPackage (fun confMap namespaced => at_part get put (pkUp k confMap namespaced))
    (fun confMap namespaced => at_part get put (pkPauseAndContract k confMap namespaced))
    (fun confMap namespaced => at_part get put (pkExpandAndResume k confMap namespaced))
    (at_part get put (pkDown k)).

Section Daemon.
Context {C T X : Type} (swiftOf : string -> string -> Headhunter.SwiftContainer X C) `{!Headhunter.BPlusTree T} `{!MapRange} `{!Machine}
  (maxStrings : Z) `{!Host X} `{!Clock X} `{!Neighbours X}
  (rootDirectory : string -> Headhunter.volumeStruct C T * X -> Headhunter.volumeStruct C T * X)
  (waitFlushed : string -> Z -> fsVolumeStruct -> fsVolumeStruct)
  (haltResult : string -> Z -> X -> X * option error) (Listen : string -> string -> X -> X * option error).

Abbreviation proc := (process C T X).
Abbreviation PR A := (St proc error A).

(** ** Calls between packages *)

(** [headhunter.FetchVolumeHandle] *)
Definition headhunterHandleOf (p : proc) (volumeName : string) : res (option string) :=
  HeadhunterConfig.FetchVolumeHandle (p_headhunter p) volumeName.

(** [inode.FetchVolumeHandle]: an active volume gets its root directory, and
    whatever happens then no error is returned. *)
Definition inodeFetchVolumeHandle (volumeName : string) : PR unit := fun p =>
  match volumeMap (p_inode p) !! volumeName with
  | None => (p, Err (AddError (Some plain) NotFoundError))
  | Some volume =>
      if iv_active volume then
        match iv_headhunterVolumeHandle volume with
        | Some name =>
            match hh_volumeMap (p_headhunter p) !! name with
            | Some v =>
                let '(hv, x) := rootDirectory volumeName (hv_volume v, p_rest p) in
                (p <| p_headhunter := (p_headhunter p) <| hh_volumeMap := <[name := v <| hv_volume := hv |>]> (hh_volumeMap (p_headhunter p)) |> |>
                   <| p_rest := x |>, Ret tt)
            | None => (p, Ret tt)
            end
        | None => (p, Panic)
        end
      else (p, Err (AddError (Some plain) NotActiveError))
  end.

#[export] Instance processHost : Host proc := {|
  osStat path p := let '(x, r) := osStat path (p_rest p) in (p <| p_rest := x |>, r);
  fusermount name := at_part p_rest (fun x p => p <| p_rest := x |>) (fusermount name);
  fuseMount name := at_part p_rest (fun x p => p <| p_rest := x |>) (fuseMount name);
  fuseUnmount name := at_part p_rest (fun x p => p <| p_rest := x |>) (fuseUnmount name)
|}.

(** ** The packages *)

Definition onRest : package X -> package proc := part p_rest (fun x p => p <| p_rest := x |>).

Definition dlm : package proc :=
  part p_locks (fun g p => p <| p_locks := g |>)
    (mkPackage (fun _ _ => dlmUp) (fun _ _ => sret tt) (fun _ _ => sret tt) (sret tt)).

Definition headhunter : package proc :=
  part (fun p => (p_headhunter p, p_rest p)) (fun w p => p <| p_headhunter := w.1 |> <| p_rest := w.2 |>)
    (mkPackage (HeadhunterConfig.Up swiftOf) (HeadhunterConfig.PauseAndContract swiftOf) (HeadhunterConfig.ExpandAndResume swiftOf)
       (HeadhunterConfig.Down swiftOf)).

(** A package whose calls depend on the state of the others. *)
Definition reading {P} (k : P -> package P) : package P :=
  mkPackage (fun confMap namespaced p => pkUp (k p) confMap namespaced p)
    (fun confMap namespaced p => pkPauseAndContract (k p) confMap namespaced p)
    (fun confMap namespaced p => pkExpandAndResume (k p) confMap namespaced p)
    (fun p => pkDown (k p) p).

Definition inode : package proc :=
  reading (fun p =>
    part p_inode (fun g p => p <| p_inode := g |>)
      (mkPackage (InodeConfig.Up (headhunterHandleOf p) maxStrings) InodeConfig.PauseAndContract
         (InodeConfig.ExpandAndResume (headhunterHandleOf p) maxStrings) InodeConfig.Down)).

(** A package that also calls others works on the rest of the process. *)
Definition fs : package proc :=
  part (fun p => (p_fs p, p)) (fun w _ => w.2 <| p_fs := w.1 |>)
    (mkPackage (FsConfig.Up inodeFetchVolumeHandle) (FsConfig.PauseAndContract waitFlushed)
       (FsConfig.ExpandAndResume inodeFetchVolumeHandle) (FsConfig.Down waitFlushed)).

Definition fuse : package proc :=
  part (fun p => (p_fuse p, (p_fs p, p))) (fun w _ => w.2.2 <| p_fs := w.2.1 |> <| p_fuse := w.1 |>)
    (mkPackage FuseConfig.Up FuseConfig.PauseAndContract FuseConfig.ExpandAndResume FuseConfig.Down).

Definition jrpcfs : package proc :=
  part p_jrpc (fun g p => p <| p_jrpc := g |>)
    (mkPackage Jrpcfs.Up Jrpcfs.PauseAndContract Jrpcfs.ExpandAndResume Jrpcfs.Down).

Definition httpserver : package proc :=
  reading (fun p =>
    part (fun p => (p_http p, p_rest p)) (fun w p => p <| p_http := w.1 |> <| p_rest := w.2 |>)
      (mkPackage (Httpserver.Up (headhunterHandleOf p) Listen) (Httpserver.PauseAndContract haltResult)
         (Httpserver.ExpandAndResume (headhunterHandleOf p)) (Httpserver.Down haltResult))).

(** The order of the starts. *)
Definition packages : list (package proc) :=
  [onRest logger; onRest stats; dlm; onRest swiftclient; onRest statslogger; headhunter; inode; fs; fuse; jrpcfs; httpserver].

(** ** The daemon *)

(** All packages are told to pause, and then to resume. *)
Definition reconfigure (confMap : ConfMap) (namespaced : bool) : PR unit :=
  sfor (rev packages) (fun k => pkPauseAndContract k confMap namespaced) ;;~
  sfor packages (fun k => pkExpandAndResume k confMap namespaced).

Context (confFile : string) (confStrings : list string).

(** The loop over the signals; [None] when it waits for the next one. *)
Fixpoint signalLoop (signals : list signal) (p : proc) : proc * option ending :=
  match signals with
  | [] => (p, None)
  | SIGTERM :: _ => (p, Some Ended)
  | SIGHUP files :: rest =>
      match @loadConf files confFile confStrings with
      | Ret (confMap, namespaced) =>
          match reconfigure confMap namespaced p with
          | (p', Ret _) => signalLoop rest p'
          | (p', Err e) => (p', Some (Failed e))
          | (p', Panic) => (p', Some Crashed)
          end
      | Err e => (p, Some (Failed e))
      | Panic => (p, Some Crashed)
      end
  end.

(** Starts packages, and stops those that were started when [run] is over, also
    when it ended in a panic. *)
Fixpoint withPackages (l : list (package proc)) (confMap : ConfMap) (namespaced : bool) (run : proc -> proc * option ending) (p : proc)
    : proc * option ending :=
  match l with
  | [] => run p
  | k :: rest =>
      match pkUp k confMap namespaced p with
      | (p1, Ret _) =>
          match withPackages rest confMap namespaced run p1 with
          | (p2, None) => (p2, None)
          | (p2, Some r) => match pkDown k p2 with (p3, Panic) => (p3, Some Crashed) | (p3, _) => (p3, Some r) end
          end
      | (p1, Err e) => (p1, Some (Failed e))
      | (p1, Panic) => (p1, Some Crashed)
      end
  end.

Definition Daemon `{!ConfFiles} (signals : list signal) (p : proc) : proc * option ending :=
  match loadConf confFile confStrings with
  | Ret (confMap, namespaced) => withPackages packages confMap namespaced (signalLoop signals) p
  | Err e => (p, Some (Failed e))
  | Panic => (p, Some Crashed)
  end.
End Daemon.
