(* ===== verification/DaemonFacts.v ===== *)
(** The packages of the process agree: after every change of configuration each
    of them has the volumes that the configuration gives to this peer.

    [view] is what a package can see of the others.  Each package gets a lemma
    for its start, its pause and its resumption, and these compose. *)

From S2P Require Import Prelude SortedMap Blunder NodeProgram Utils GoStrings ConfNumbers Conf ConfSections Dlm HeadhunterCodec HeadhunterConfig InodeTypes InodeConfig InodeConfigFacts InodeReload FsProgram FsLocks FsConfig FsPath Jrpcfs JrpcfsConfigFacts JrpcfsFilesystem JrpcfsServer FuseConfig Httpserver HttpserverFacts Daemon.
From S2P Require Headhunter.
Open Scope list_scope.

Record seen := mkSeen {
  s_daemons : gmap string bool;
  s_inode : inodeGlobals;
  s_fs : fsGlobals;
  s_fuse : fuseGlobals;
  s_jrpc : jrpcGlobals;
  s_http : httpGlobals
}.

#[export] Instance eta_seen : Eta seen := fun v => mkSeen (s_daemons v) (s_inode v) (s_fs v) (s_fuse v) (s_jrpc v) (s_http v).

Definition view {C T X} (p : process C T X) : seen :=
  mkSeen (hv_daemon <$> hh_volumeMap (p_headhunter p)) (p_inode p) (p_fs p) (p_fuse p) (p_jrpc p) (p_http p).

(** ** The specification *)

(** The name of this peer, in every package. *)
Definition named (whoAmI : string) (v : seen) : Prop :=
  ig_whoAmI (s_inode v) = whoAmI /\ fg_whoAmI (s_fs v) = whoAmI /\ fu_whoAmI (s_fuse v) = whoAmI /\ jg_whoAmI (s_jrpc v) = whoAmI
  /\ ht_whoAmI (s_http v) = whoAmI.

(** What each package keeps, whatever the configuration is. *)
Record sound (v : seen) : Prop := {
  so_daemons : map_Forall (fun _ running => running = true) (s_daemons v);
  so_inode : inodeOk (s_inode v);
  so_mounts : mountsOk (s_fs v);
  so_handles : handlesOk (s_jrpc v) (s_fs v);
  so_http : httpOk (s_http v)
}.

(** The process serves the volumes [served]: every package has them. *)
Record serves (confMap : ConfMap) (namespaced : bool) (whoAmI : string) (v : seen) : Prop := {
  sv_who : FetchOptionValueString confMap "Cluster" "WhoAmI" = Ret whoAmI;
  sv_named : named whoAmI v;
  sv_sound : sound v;
  sv_headhunter : dom (s_daemons v) = servedBy confMap namespaced whoAmI;
  sv_inode : configured confMap namespaced (s_inode v);
  sv_fs : dom (fs_volumeMap (s_fs v)) = servedBy confMap namespaced whoAmI;
  sv_jrpc : jg_volumeMap (s_jrpc v) = servedBy confMap namespaced whoAmI /\ gateLocked (s_jrpc v) = false;
  sv_http : shown (s_http v) = servedBy confMap namespaced whoAmI /\ ht_active (s_http v) = true
}.

(** Between the pauses and the resumptions: no package has a volume that the
    new configuration takes away, and no request is let in. *)
Record halted (confMap : ConfMap) (namespaced : bool) (whoAmI : string) (v : seen) : Prop := {
  ha_who : FetchOptionValueString confMap "Cluster" "WhoAmI" = Ret whoAmI;
  ha_named : named whoAmI v;
  ha_sound : sound v;
  ha_headhunter : dom (s_daemons v) ⊆ servedBy confMap namespaced whoAmI;
  ha_inode : noneTooMany confMap namespaced (s_inode v)
    /\ exists volumeList, volumeListOf confMap = Ret volumeList /\ forall name, name ∈ dom (volumeMap (s_inode v)) -> name ∈ volumeList;
  ha_fs : dom (fs_volumeMap (s_fs v)) ⊆ servedBy confMap namespaced whoAmI;
  ha_jrpc : gateLocked (s_jrpc v) = true;
  ha_http : shown (s_http v) ⊆ servedBy confMap namespaced whoAmI /\ ht_active (s_http v) = false
}.

Lemma at_part_ret {S P A} (get : P -> S) put (m : St S error A) p p' a : at_part get put m p = (p', Ret a) ->
  exists s, m (get p) = (s, Ret a) /\ p' = put s p.
Proof. unfold at_part. destruct (m (get p)) as [s r]. intros [= <- ->]. by exists s. Qed.

Section Facts.
Context {C T X : Type} (swiftOf : string -> string -> Headhunter.SwiftContainer X C) `{!Headhunter.BPlusTree T} `{!MapRange} `{!MapRangeOk}
  `{!Machine} (maxStrings : Z) `{!Host X} `{!Clock X} `{!Neighbours X}
  (rootDirectory : string -> Headhunter.volumeStruct C T * X -> Headhunter.volumeStruct C T * X)
  (waitFlushed : string -> Z -> fsVolumeStruct -> fsVolumeStruct)
  (haltResult : string -> Z -> X -> X * option error) (Listen : string -> string -> X -> X * option error).

Abbreviation proc := (process C T X).
#[local] Existing Instance processHost.

(** ** Calls of other packages are not seen *)

Definition unseen (p p' : proc) : Prop := view p' = view p.

#[local] Instance unseen_preorder : PreOrder unseen.
Proof. split; [by intros p|]. intros p q r E1 E2. unfold unseen in *. congruence. Qed.

Lemma fetchHandle_unseen name : keeps unseen (inodeFetchVolumeHandle (C := C) (T := T) rootDirectory name).
Proof.
  intros p p' r. unfold inodeFetchVolumeHandle. destruct (volumeMap (p_inode p) !! name) as [volume|]; [|by intros [= <- _]].
  destruct (iv_active volume); [|by intros [= <- _]]. destruct (iv_headhunterVolumeHandle volume) as [n|]; [|by intros [= <- _]].
  destruct (hh_volumeMap (p_headhunter p) !! n) as [v|] eqn:Hn; [|by intros [= <- _]].
  destruct (rootDirectory name (hv_volume v, p_rest p)) as [hv x]. intros [= <- _]. unfold unseen, view, set. cbn. f_equal.
  rewrite fmap_insert. cbn. apply insert_id. by rewrite lookup_fmap, Hn.
Qed.

Lemma rest_unseen {A} (m : St X error A) : keeps unseen (at_part p_rest (fun x (p : proc) => p <| p_rest := x |>) m).
Proof. intros p p' r. unfold at_part. destruct (m (p_rest p)) as [x o]. by intros [= <- _]. Qed.

Lemma stat_unseen path (p : proc) : unseen p (osStat path p).1.
Proof. cbn. by destruct (osStat path (p_rest p)). Qed.

(** A package of [Neighbours], or [dlm], is not seen. *)
Definition silent (k : package proc) : Prop := forall confMap namespaced,
  keeps unseen (pkUp k confMap namespaced) /\ keeps unseen (pkPauseAndContract k confMap namespaced)
  /\ keeps unseen (pkExpandAndResume k confMap namespaced).

Lemma onRest_silent k : silent (onRest (C := C) (T := T) k).
Proof. intros confMap namespaced. split; [|split]; apply rest_unseen. Qed.

Lemma dlm_silent : silent dlm.
Proof. intros confMap namespaced. split; [|split]; intros p p' r; cbn; by intros [= <- _]. Qed.

(** ** Package [headhunter] *)

Section Configured.
Context (confMap : ConfMap) (namespaced : bool) (whoAmI : string)
  (Hwho : FetchOptionValueString confMap "Cluster" "WhoAmI" = Ret whoAmI).

Abbreviation served := (servedBy confMap namespaced whoAmI).

(** The daemons that are seen. *)
Lemma daemons_seen (g : hhGlobals C T) (x : X) (D : gset string) :
  dom (volumes (g, x)) = D /\ daemonsRun (g, x) ->
  dom (hv_daemon <$> hh_volumeMap g) = D /\ map_Forall (fun _ running => running = true) (hv_daemon <$> hh_volumeMap g).
Proof. unfold daemonsRun, volumes. cbn. intros [<- Hr]. split; [by rewrite dom_fmap_L|]. by apply map_Forall_fmap. Qed.

Lemma headhunter_up (p p' : proc) : pkUp (headhunter swiftOf) confMap namespaced p = (p', Ret tt) ->
  exists m, view p' = (view p) <| s_daemons := m |> /\ dom m = served /\ map_Forall (fun _ running => running = true) m.
Proof.
  intros ([g x] & HR & ->)%at_part_ret. apply (Up_serves _ _ _ _ _ _ Hwho) in HR. apply daemons_seen in HR. by eexists.
Qed.

Lemma headhunter_pause (p p' : proc) : pkPauseAndContract (headhunter swiftOf) confMap namespaced p = (p', Ret tt) ->
  map_Forall (fun _ running => running = true) (s_daemons (view p)) ->
  exists m, view p' = (view p) <| s_daemons := m |> /\ dom m ⊆ served /\ map_Forall (fun _ running => running = true) m.
Proof.
  intros ([g x] & HR & ->)%at_part_ret Hd. destruct (PauseAndContract_removes _ _ _ _ _ _ HR Hwho) as [Hv _].
  unfold volumes in Hv. cbn in Hv, Hd. eexists. split; [reflexivity|]. cbn. rewrite Hv. split.
  - intros name. rewrite dom_fmap, elem_of_dom. intros [v [_ Hin]%map_lookup_filter_Some]. done.
  - apply map_Forall_fmap. intros k v [Hk _]%map_lookup_filter_Some. rewrite map_Forall_fmap in Hd. by apply (Hd k).
Qed.

Lemma headhunter_expand (p p' : proc) : pkExpandAndResume (headhunter swiftOf) confMap namespaced p = (p', Ret tt) ->
  map_Forall (fun _ running => running = true) (s_daemons (view p)) -> dom (s_daemons (view p)) ⊆ served ->
  exists m, view p' = (view p) <| s_daemons := m |> /\ dom m = served /\ map_Forall (fun _ running => running = true) m.
Proof.
  intros ([g x] & HR & ->)%at_part_ret Hd Hs. pose proof (ExpandAndResume_grows _ _ _ _ _ _ Hwho HR) as Hg.
  apply grown_serves in Hg; unfold volumes.
  - apply daemons_seen in Hg. by eexists.
  - cbn in Hs |- *. by rewrite dom_fmap_L in Hs.
  - cbn in Hd |- *. by rewrite map_Forall_fmap in Hd.
Qed.

(** ** Package [inode] *)

Lemma inode_up volumeList (p p' : proc) : volumeListOf confMap = Ret volumeList -> zlen volumeList + 2 < two32 ->
  pkUp (inode maxStrings) confMap namespaced p = (p', Ret tt) ->
  exists g, view p' = (view p) <| s_inode := g |> /\ ig_whoAmI g = whoAmI /\ inodeOk g /\ configured confMap namespaced g.
Proof.
  intros Hl Hb (g & HR & ->)%at_part_ret. eapply Up_ret in HR as (Hw & Hok & Hc); [|done..]. exists g.
  split; [done|]. split; [congruence|done].
Qed.

Lemma inode_pause (p p' : proc) : pkPauseAndContract (inode maxStrings) confMap namespaced p = (p', Ret tt) ->
  inodeOk (s_inode (view p)) ->
  exists g, view p' = (view p) <| s_inode := g |> /\ ig_whoAmI g = whoAmI /\ inodeOk g /\ noneTooMany confMap namespaced g
    /\ exists volumeList, volumeListOf confMap = Ret volumeList /\ forall name, name ∈ dom (volumeMap g) -> name ∈ volumeList.
Proof.
  intros (g & HR & ->)%at_part_ret Hok. apply (PauseAndContract_ret (headhunterHandleOf p)) in HR as (Hw & Hok' & [Hs _] & Hn & Hl & _); [|exact Hok].
  exists g. split; [done|]. rewrite Hw in Hwho. injection Hwho as <-. done.
Qed.

Lemma inode_expand volumeList (p p' : proc) : pkExpandAndResume (inode maxStrings) confMap namespaced p = (p', Ret tt) ->
  inodeOk (s_inode (view p)) -> noneTooMany confMap namespaced (s_inode (view p)) ->
  volumeListOf confMap = Ret volumeList -> zlen volumeList + 2 < two32 ->
  (forall name, name ∈ dom (volumeMap (s_inode (view p))) -> name ∈ volumeList) ->
  exists g, view p' = (view p) <| s_inode := g |> /\ ig_whoAmI g = ig_whoAmI (s_inode (view p)) /\ inodeOk g /\ configured confMap namespaced g.
Proof.
  intros (g & HR & ->)%at_part_ret Hok Hn Hl Hb Hd. eapply ExpandAndResume_ret in HR as (Hok' & Hw & Hc); [|done..]. by exists g.
Qed.

(** ** Package [fs] *)

Abbreviation fsPackage := (Daemon.fs (C := C) (T := T) rootDirectory waitFlushed).

(** What the package leaves, in the process it is part of. *)
Lemma fs_seen (m : St (fsGlobals * proc) error unit) (p p' : proc) : keeps (FsConfig.onRest unseen) m ->
  at_part (fun p => (p_fs p, p)) (fun w _ => w.2 <| p_fs := w.1 |>) m p = (p', Ret tt) ->
  exists w', m (p_fs p, p) = (w', Ret tt) /\ view p' = (view p) <| s_fs := w'.1 |>.
Proof.
  intros Hm (w' & HR & ->)%at_part_ret. exists w'. split; [done|]. apply Hm in HR. unfold FsConfig.onRest, unseen in HR. cbn in HR.
  destruct w' as [g q]. cbn in HR |- *. unfold view in HR |- *. cbn in HR |- *. injection HR as -> -> _ -> -> ->. done.
Qed.

Lemma fs_up (p p' : proc) : pkUp fsPackage confMap namespaced p = (p', Ret tt) ->
  exists g, view p' = (view p) <| s_fs := g |> /\ fg_whoAmI g = whoAmI /\ mountsOk g /\ mountMap g = ∅ /\ lastMountID g = 0
    /\ dom (fs_volumeMap g) = served.
Proof.
  intros ([g q] & HR & ->)%fs_seen; [|by apply fsUp_rest; [apply _|apply fetchHandle_unseen]].
  apply fsUp_ret in HR as (Hw & Hok & Hm & Hl & Hd). cbn in Hw, Hok, Hm, Hl, Hd. rewrite Hwho in Hw. injection Hw as Hw. exists g. by rewrite Hw.
Qed.

Lemma fs_pause (p p' : proc) : pkPauseAndContract fsPackage confMap namespaced p = (p', Ret tt) ->
  mountsOk (s_fs (view p)) ->
  exists g, view p' = (view p) <| s_fs := g |> /\ fg_whoAmI (s_fs (view p)) = whoAmI /\ fg_whoAmI g = whoAmI /\ mountsOk g
    /\ lastMountID g = lastMountID (s_fs (view p)) /\ dom (fs_volumeMap g) ⊆ served
    /\ forall id m, mountMap g !! id = Some m <-> mountMap (s_fs (view p)) !! id = Some m /\ mount_volume m ∈ served.
Proof.
  intros ([g q] & HR & ->)%fs_seen Hok; [|by apply fsPause_rest, _].
  apply (fsPause_ret (inodeFetchVolumeHandle rootDirectory)) in HR as (Hw & Hok' & _ & Hs & Hl & Hd & Hm); [|exact Hok]. cbn in *. rewrite Hwho in Hw. injection Hw as Hw.
  exists g. rewrite Hw. split; [done|]. split; [done|]. split; [congruence|]. split; [done|]. split; [done|]. split; [rewrite Hd; apply intersection_subseteq_r|done].
Qed.

Lemma fs_expand (p p' : proc) : pkExpandAndResume fsPackage confMap namespaced p = (p', Ret tt) ->
  mountsOk (s_fs (view p)) -> fg_whoAmI (s_fs (view p)) = whoAmI -> dom (fs_volumeMap (s_fs (view p))) ⊆ served ->
  exists g, view p' = (view p) <| s_fs := g |> /\ fg_whoAmI g = whoAmI /\ mountsOk g /\ mountMap g = mountMap (s_fs (view p))
    /\ lastMountID g = lastMountID (s_fs (view p)) /\ dom (fs_volumeMap g) = served.
Proof.
  intros ([g q] & HR & ->)%fs_seen Hok Hn Hs; [|by apply fsExpand_rest; [apply _|apply fetchHandle_unseen]].
  apply (fsExpand_ret _ waitFlushed) in HR as (Hok' & Hm & Hd & Hw & Hl); [|exact Hok]. cbn in *. exists g. split; [done|]. split; [congruence|].
  split; [done|]. split; [done|]. split; [done|]. rewrite Hd, Hn. by apply subseteq_union_1_L.
Qed.

(** ** Package [fuse] *)

Abbreviation fusePackage := (Daemon.fuse (C := C) (T := T) (X := X)).

Lemma fuse_seen (w : fuseGlobals * (fsGlobals * proc)) (p : proc) : unseen p w.2.2 ->
  view (w.2.2 <| p_fs := w.2.1 |> <| p_fuse := w.1 |>) = (view p) <| s_fs := w.2.1 |> <| s_fuse := w.1 |>.
Proof. unfold unseen, view. cbn. intros [= -> -> _ _ -> ->]. done. Qed.

Lemma fuse_up volumeList (p p' : proc) : pkUp fusePackage confMap namespaced p = (p', Ret tt) ->
  volumeListOf confMap = Ret volumeList ->
  exists g h, view p' = (view p) <| s_fs := g |> <| s_fuse := h |> /\ fu_whoAmI h = whoAmI
    /\ mountedMore (zlen volumeList) (s_fs (view p)) g.
Proof.
  intros (w & HR & ->)%at_part_ret Hl. eapply (fuseUp_ret unseen) in HR as (Hw & Hm & Hr);
    [|apply stat_unseen|intros ?; apply rest_unseen|intros ?; apply rest_unseen|exact Hl].
  exists w.2.1, w.1. split; [by apply fuse_seen|]. split; [congruence|done].
Qed.

Lemma fuse_pause (p p' : proc) : pkPauseAndContract fusePackage confMap namespaced p = (p', Ret tt) ->
  exists h, view p' = (view p) <| s_fuse := h |> /\ fu_whoAmI h = fu_whoAmI (s_fuse (view p)).
Proof.
  intros (w & HR & ->)%at_part_ret. eapply (fusePause_apart unseen) in HR as (Hw & Hf & Hr); [|intros ?; apply rest_unseen|intros ?; apply rest_unseen].
  exists w.1. split; [|done]. rewrite (fuse_seen w p Hr), Hf. done.
Qed.

Lemma fuse_expand volumeList (p p' : proc) : pkExpandAndResume fusePackage confMap namespaced p = (p', Ret tt) ->
  volumeListOf confMap = Ret volumeList ->
  exists g h, view p' = (view p) <| s_fs := g |> <| s_fuse := h |> /\ fu_whoAmI h = fu_whoAmI (s_fuse (view p))
    /\ mountedMore (zlen volumeList) (s_fs (view p)) g.
Proof.
  intros (w & HR & ->)%at_part_ret Hl. eapply (fuseExpand_adds unseen) in HR as (Hw & Hm & Hr);
    [|apply stat_unseen|intros ?; apply rest_unseen|intros ?; apply rest_unseen|exact Hl].
  exists w.2.1, w.1. split; [by apply fuse_seen|done].
Qed.

(** ** Package [jrpcfs] *)

Abbreviation jrpcPackage := (Daemon.jrpcfs (C := C) (T := T) (X := X)).

Lemma jrpc_up (p p' : proc) : pkUp jrpcPackage confMap namespaced p = (p', Ret tt) ->
  exists j, view p' = (view p) <| s_jrpc := j |> /\ jg_whoAmI j = whoAmI /\ (forall g, handlesOk j g) /\ jg_volumeMap j = served
    /\ gateLocked j = gateLocked (s_jrpc (view p)).
Proof.
  intros (j & HR & ->)%at_part_ret. apply jrpcUp_ret in HR as (Hw & Hi & Hb & Hl & Hv & Hg). rewrite Hwho in Hw. injection Hw as Hw.
  exists j. split; [done|]. split; [done|]. split; [|by rewrite <- Hw in Hv].
  intros g. split; rewrite ?Hi, ?Hb, ?Hl; [by intros ? ? ?%lookup_empty_Some..|done].
Qed.

Lemma jrpc_pause (p p' : proc) : pkPauseAndContract jrpcPackage confMap namespaced p = (p', Ret tt) ->
  let j := s_jrpc (view p) in
  view p' = (view p) <| s_jrpc := forget (jg_volumeMap j ∖ servedBy confMap namespaced (jg_whoAmI j)) (j <| gateLocked := true |>) |>.
Proof. intros (j & HR & ->)%at_part_ret. by apply jrpcPause_ret in HR as [_ ->]. Qed.

Lemma jrpc_expand (p p' : proc) : pkExpandAndResume jrpcPackage confMap namespaced p = (p', Ret tt) ->
  let j := s_jrpc (view p) in
  view p' = (view p) <| s_jrpc := j <| jg_volumeMap := servedBy confMap namespaced (jg_whoAmI j) |> <| gateLocked := false |> |>.
Proof. intros (j & HR & ->)%at_part_ret. by apply jrpcExpand_ret in HR as [_ ->]. Qed.

(** ** Package [httpserver] *)

Abbreviation httpPackage := (Daemon.httpserver (C := C) (T := T) haltResult Listen).

Lemma http_up (p p' : proc) : pkUp httpPackage confMap namespaced p = (p', Ret tt) ->
  exists g, view p' = (view p) <| s_http := g |> /\ ht_whoAmI g = whoAmI /\ httpOk g /\ shown g = served /\ ht_active g = true.
Proof.
  intros ([g x] & HR & ->)%at_part_ret. apply (httpUp_ret FormatUint haltResult) in HR as (Hw & Hok & Ha & Hs). cbn in *.
  rewrite Hwho in Hw. injection Hw as Hw. exists g. by rewrite Hw.
Qed.

Lemma http_pause (p p' : proc) : pkPauseAndContract httpPackage confMap namespaced p = (p', Ret tt) -> httpOk (s_http (view p)) ->
  exists g, view p' = (view p) <| s_http := g |> /\ ht_whoAmI (s_http (view p)) = whoAmI /\ ht_whoAmI g = whoAmI /\ httpOk g
    /\ shown g ⊆ served /\ ht_active g = false.
Proof.
  intros ([g x] & HR & ->)%at_part_ret Hok. apply httpPause_ret in HR as (Hw & Hok' & Hs & Ha & Hd & _); [|exact Hok]. cbn in *.
  rewrite Hwho in Hw. injection Hw as Hw. exists g. rewrite Hw. split; [done|]. split; [done|]. split; [congruence|]. split; [done|].
  split; [rewrite Hd; apply intersection_subseteq_r|done].
Qed.

Lemma http_expand (p p' : proc) : pkExpandAndResume httpPackage confMap namespaced p = (p', Ret tt) ->
  httpOk (s_http (view p)) -> ht_whoAmI (s_http (view p)) = whoAmI -> shown (s_http (view p)) ⊆ served ->
  exists g, view p' = (view p) <| s_http := g |> /\ ht_whoAmI g = whoAmI /\ httpOk g /\ shown g = served /\ ht_active g = true.
Proof.
  intros ([g x] & HR & ->)%at_part_ret Hok Hw Hs. apply (httpExpand_ret haltResult _ Listen) in HR as (Hok' & Hw' & Ha & Hd); [|exact Hok]. cbn in *.
  exists g. split; [done|]. split; [congruence|]. split; [done|]. split; [|done]. rewrite Hd, Hw. by apply subseteq_union_1_L.
Qed.
End Configured.

(** ** All packages *)

Abbreviation all := (packages (C := C) swiftOf maxStrings rootDirectory waitFlushed haltResult Listen).

(** What the packages after the silent ones do. *)
Lemma packages_split (step : package proc -> St proc error unit) (p p' : proc) :
  (forall k, silent k -> keeps unseen (step k)) -> sfor all step p = (p', Ret tt) ->
  exists p0 p1 p2 p3 p4 p5, view p0 = view p /\ step (headhunter swiftOf) p0 = (p1, Ret tt) /\ step (inode maxStrings) p1 = (p2, Ret tt)
    /\ step (Daemon.fs rootDirectory waitFlushed) p2 = (p3, Ret tt) /\ step Daemon.fuse p3 = (p4, Ret tt)
    /\ step Daemon.jrpcfs p4 = (p5, Ret tt) /\ step (Daemon.httpserver haltResult Listen) p5 = (p', Ret tt).
Proof.
  intros Hs HR. unfold packages in HR. cbn [sfor] in HR. do 11 ret_step HR. injection HR as <-.
  repeat match goal with E : _ = (_, Ret ?a) |- _ => is_var a; destruct a end.
  exists s3, s4, s5, s6, s7, s8. split; [|done].
  pose proof (Hs _ (onRest_silent _) _ _ _ E) as H3. pose proof (Hs _ (onRest_silent _) _ _ _ E0) as H4.
  pose proof (Hs _ dlm_silent _ _ _ E1) as H5. pose proof (Hs _ (onRest_silent _) _ _ _ E2) as H6.
  pose proof (Hs _ (onRest_silent _) _ _ _ E3) as H7. unfold unseen in *. congruence.
Qed.

Lemma packages_rev_split (step : package proc -> St proc error unit) (p p' : proc) :
  (forall k, silent k -> keeps unseen (step k)) -> sfor (rev all) step p = (p', Ret tt) ->
  exists p1 p2 p3 p4 p5 p6, step (Daemon.httpserver haltResult Listen) p = (p1, Ret tt) /\ step Daemon.jrpcfs p1 = (p2, Ret tt)
    /\ step Daemon.fuse p2 = (p3, Ret tt) /\ step (Daemon.fs rootDirectory waitFlushed) p3 = (p4, Ret tt)
    /\ step (inode maxStrings) p4 = (p5, Ret tt) /\ step (headhunter swiftOf) p5 = (p6, Ret tt) /\ view p' = view p6.
Proof.
  intros Hs HR. unfold packages in HR. cbn [rev app sfor] in HR. do 11 ret_step HR. injection HR as <-.
  repeat match goal with E : _ = (_, Ret ?a) |- _ => is_var a; destruct a end.
  exists s, s0, s1, s2, s3, s4. repeat (split; [done|]).
  pose proof (Hs _ (onRest_silent _) _ _ _ E5) as H3. pose proof (Hs _ (onRest_silent _) _ _ _ E6) as H4.
  pose proof (Hs _ dlm_silent _ _ _ E7) as H5. pose proof (Hs _ (onRest_silent _) _ _ _ E8) as H6.
  pose proof (Hs _ (onRest_silent _) _ _ _ E9) as H7. unfold unseen in *. congruence.
Qed.

Lemma headhunter_up_who confMap namespaced (p p' : proc) : pkUp (headhunter swiftOf) confMap namespaced p = (p', Ret tt) ->
  exists whoAmI, FetchOptionValueString confMap "Cluster" "WhoAmI" = Ret whoAmI.
Proof.
  intros (w & HR & _)%at_part_ret.
  change (HeadhunterConfig.Up swiftOf confMap namespaced (p_headhunter p, p_rest p) = (w, Ret tt)) in HR. ret_step HR. by eexists.
Qed.

(** A start that succeeds. *)
Lemma start_serves confMap namespaced volumeList (p p' : proc) :
  volumeListOf confMap = Ret volumeList -> zlen volumeList + 2 < two32 -> gateLocked (s_jrpc (view p)) = false ->
  sfor all (fun k => pkUp k confMap namespaced) p = (p', Ret tt) ->
  exists whoAmI, serves confMap namespaced whoAmI (view p') /\ lastMountID (s_fs (view p')) <= zlen volumeList.
Proof.
  intros Hl Hb Hgate HR. apply packages_split in HR as (p0 & p1 & p2 & p3 & p4 & p5 & V0 & E1 & E2 & E3 & E4 & E5 & E6);
    [|intros k Hk; apply (Hk confMap namespaced)].
  destruct (headhunter_up_who _ _ _ _ E1) as [whoAmI Hwho]. exists whoAmI.
  apply (headhunter_up _ _ _ Hwho) in E1 as (m & V1 & Hm & Hrun).
  eapply (inode_up _ _ _ Hwho) in E2 as (gi & V2 & Hiw & Hi & Hc); [|done..].
  apply (fs_up _ _ _ Hwho) in E3 as (gf & V3 & Hfw & Hf & _ & Hlast & Hfd).
  eapply (fuse_up _ _ _ Hwho) in E4 as (gf' & gu & V4 & Huw & Hmore); [|done].
  rewrite V3 in Hmore. destruct Hmore as (Hf' & _ & Hfd' & Hfw' & Hlast'); [exact Hf|cbn; rewrite Hlast; unfold two32, two64 in *; lia|].
  apply (jrpc_up _ _ _ Hwho) in E5 as (j & V5 & Hjw & Hh & Hjv & Hg).
  apply (http_up _ _ _ Hwho) in E6 as (gh & V6 & Hhw & Ho & Hs & Ha).
  rewrite V4, V3, V2, V1, V0 in Hg. cbn in Hg, Hgate, Hfd', Hfw', Hlast'. rewrite Hgate in Hg.
  rewrite V6, V5, V4, V3, V2, V1, V0. cbn. split; [|lia].
  split; cbn; [done|split; cbn; [done|]; split; [congruence|done]|split; cbn; [done|done|done|apply Hh|done]|done|done|congruence|done|done].
Qed.

(** The pauses of a change of configuration. *)
Lemma pause_halts confMap0 namespaced0 confMap namespaced whoAmI (p p' : proc) :
  serves confMap0 namespaced0 whoAmI (view p) -> sfor (rev all) (fun k => pkPauseAndContract k confMap namespaced) p = (p', Ret tt) ->
  halted confMap namespaced whoAmI (view p') /\ lastMountID (s_fs (view p')) = lastMountID (s_fs (view p)).
Proof.
  intros [_ (Hiw & Hfw & Huw & Hjw & Hhw) [Hd Hi Hm Hh Ho] _ _ Hfd [Hjv Hg] [_ _]] HR.
  apply packages_rev_split in HR as (p1 & p2 & p3 & p4 & p5 & p6 & E1 & E2 & E3 & E4 & E5 & E6 & V7);
    [|intros k Hk; apply (Hk confMap namespaced)].
  assert (Hwho : FetchOptionValueString confMap "Cluster" "WhoAmI" = Ret whoAmI).
  { destruct (at_part_ret _ _ _ _ _ _ E1) as (w & HP & _). apply httpPause_ret in HP as (Hw & _); [|exact Ho]. cbn in Hw, Hhw. congruence. }
  apply (http_pause _ _ _ Hwho) in E1 as (gh & V1 & _ & Hhw' & Ho' & Hs & Ha); [|exact Ho].
  apply jrpc_pause in E2. rewrite V1 in E2. cbn in E2. rename E2 into V2.
  apply (fuse_pause _ _) in E3 as (gu & V3 & Huw'). rewrite V2 in V3, Huw'. cbn in Huw'.
  apply (fs_pause _ _ _ Hwho) in E4 as (gf & V4 & _ & Hfw' & Hm' & Hl & Hfs & Hmm); [|by rewrite V3]. rewrite V3 in V4, Hl, Hmm. cbn in Hl, Hmm.
  apply (inode_pause _ _ _ Hwho) in E5 as (gi & V5 & Hiw' & Hi' & Hn & Hdom); [|by rewrite V4]. rewrite V4 in V5.
  apply (headhunter_pause _ _ _ Hwho) in E6 as (m & V6 & Hdm & Hrun); [|by rewrite V5]. rewrite V5 in V6.
  rewrite V7, V6. cbn in *. rewrite Hjw. split; [|done].
  split; cbn; [done|split; [done|split; [done|split; [exact (eq_trans Huw' Huw)|done]]]| |done|done|done|done|done].
  split; cbn; [done|done|done| |done]. rewrite <- Hjw.
  pose proof (forget_ok confMap namespaced ((p_jrpc p) <| gateLocked := true |>) (p_fs p) gf) as Hfo. cbn in Hfo.
  apply Hfo; [by destruct Hh|done|congruence|by rewrite Hjw].
Qed.

(** The resumptions: the mounts that package [fuse] makes are new ones. *)
Lemma resume_serves confMap namespaced whoAmI volumeList (p p' : proc) :
  halted confMap namespaced whoAmI (view p) -> volumeListOf confMap = Ret volumeList -> zlen volumeList + 2 < two32 ->
  lastMountID (s_fs (view p)) + zlen volumeList < two64 ->
  sfor all (fun k => pkExpandAndResume k confMap namespaced) p = (p', Ret tt) ->
  serves confMap namespaced whoAmI (view p') /\ lastMountID (s_fs (view p')) <= lastMountID (s_fs (view p)) + zlen volumeList.
Proof.
  intros [Hwho (Hiw & Hfw & Huw & Hjw & Hhw) [Hd Hi Hm Hh Ho] Hds [Hn (l & Hl & Hdom)] Hfs Hg [Hs _]] Hl' Hb Hroom HR.
  rewrite Hl in Hl'. injection Hl' as ->.
  apply packages_split in HR as (p0 & p1 & p2 & p3 & p4 & p5 & V0 & E1 & E2 & E3 & E4 & E5 & E6);
    [|intros k Hk; apply (Hk confMap namespaced)].
  rewrite <- V0 in Hiw, Hfw, Huw, Hjw, Hhw, Hd, Hi, Hm, Hh, Ho, Hds, Hn, Hdom, Hfs, Hs, Hroom |- *. clear V0 Hg p.
  apply (headhunter_expand _ _ _ Hwho) in E1 as (m & V1 & Hdm & Hrun); [|done..].
  eapply (inode_expand _ _) in E2 as (gi & V2 & Hiw' & Hi' & Hc); [|by rewrite ?V1..]. rewrite V1 in V2, Hiw'.
  apply (fs_expand _ _ whoAmI) in E3 as (gf & V3 & Hfw' & Hm' & Hmm & Hlast & Hfd); [|by rewrite ?V2..]. rewrite V2 in V3, Hmm, Hlast.
  eapply (fuse_expand _ _) in E4 as (gf' & gu & V4 & Huw' & Hmore); [|done]. rewrite V3 in V4, Huw', Hmore. cbn in Hlast, Hmm, Hroom.
  destruct Hmore as (Hf' & Hsub & Hfd' & Hfw'' & Hlast'); [exact Hm'|cbn; lia|]. cbn in Hsub, Hfd', Hfw'', Hlast'.
  apply jrpc_expand in E5. rewrite V4 in E5. cbn in E5. rename E5 into V5.
  apply (http_expand _ _ whoAmI) in E6 as (gh & V6 & Hhw' & Ho' & Hs' & Ha); [|by rewrite ?V5..]. rewrite V6, V5. cbn in *. rewrite Hjw. split; [|lia].
  split; cbn; [done| |split; cbn; [done|done|done| |done]|done|done|congruence|done|done].
  - split; [exact (eq_trans Hiw' Hiw)|]. split; [exact (eq_trans Hfw'' Hfw')|]. split; [exact (eq_trans Huw' Huw)|done].
  - apply (handlesOk_mono _ (p_fs p0)); [by rewrite <- Hmm|]. destruct Hh. by split.
Qed.

Lemma reload_serves confMap0 namespaced0 confMap namespaced whoAmI volumeList (p p' : proc) :
  serves confMap0 namespaced0 whoAmI (view p) -> volumeListOf confMap = Ret volumeList -> zlen volumeList + 2 < two32 ->
  lastMountID (s_fs (view p)) + zlen volumeList < two64 ->
  reconfigure swiftOf maxStrings rootDirectory waitFlushed haltResult Listen confMap namespaced p = (p', Ret tt) ->
  serves confMap namespaced whoAmI (view p') /\ lastMountID (s_fs (view p')) <= lastMountID (s_fs (view p)) + zlen volumeList.
Proof.
  intros Hs Hl Hb Hroom (q & [] & HP & HE)%sbind_ret_inv. eapply pause_halts in HP as [Hh Hlast]; [|exact Hs].
  rewrite <- Hlast in Hroom |- *. by eapply resume_serves.
Qed.
End Facts.
