(* ===== verification/DaemonRuns.v ===== *)
(** The life of the process: from its start on, whatever requests come in and
    whatever configurations it is told to take. *)

From S2P Require Import Prelude SortedMap Blunder NodeProgram Utils GoStrings ConfNumbers Conf ConfSections Dlm HeadhunterCodec HeadhunterConfig InodeTypes InodeConfig InodeConfigFacts InodeReload FsProgram FsLocks FsConfig FsPath Jrpcfs JrpcfsConfigFacts JrpcfsFilesystem JrpcfsServer FuseConfig Httpserver HttpserverFacts Daemon DaemonFacts.
From S2P Require Headhunter.
Open Scope list_scope.

(** What the packages know of mounts. *)
Definition fsTables (g : fsGlobals) : string * gmap Z mountStruct * Z * gmap string (list Z) :=
  (fg_whoAmI g, mountMap g, lastMountID g, mountList <$> fs_volumeMap g).

Lemma mountsOk_same g g' : fsTables g' = fsTables g -> mountsOk g -> mountsOk g'.
Proof.
  intros [= Hw Hm Hl Hv] [H1 H2 H3].
  assert (Hfwd : forall name v, fs_volumeMap g !! name = Some v -> exists v', fs_volumeMap g' !! name = Some v' /\ mountList v' = mountList v).
  { intros name v Hn. pose proof (f_equal (fun m => m !! name) Hv) as Hx. cbn in Hx. rewrite !lookup_fmap, Hn in Hx.
    destruct (fs_volumeMap g' !! name) as [v'|]; [|done]. injection Hx as Hx. by exists v'. }
  split; rewrite ?Hm, ?Hl; [| |done].
  - intros id m Hi. destruct (H1 _ _ Hi) as (? & ? & v & Hn & Hin). split; [done|]. split; [done|]. destruct (Hfwd _ _ Hn) as (v' & Hn' & He).
    exists v'. by rewrite He.
  - intros name v' id Hn Hin. pose proof (f_equal (fun m => m !! name) Hv) as Hx. cbn in Hx. rewrite !lookup_fmap, Hn in Hx.
    destruct (fs_volumeMap g !! name) as [v|] eqn:Hn0; [|done]. injection Hx as Hx. rewrite Hx in Hin. by eapply H2.
Qed.

(** Work on files, the ends of daemons' rounds, and what Swift does: the tables
    of the packages stay as they are. *)
Record worked (v v' : seen) : Prop := {
  wk_daemons : s_daemons v' = s_daemons v;
  wk_inode : sameCounts (s_inode v) (s_inode v');
  wk_fs : fsTables (s_fs v') = fsTables (s_fs v);
  wk_fuse : fu_whoAmI (s_fuse v') = fu_whoAmI (s_fuse v);
  wk_jrpc : s_jrpc v' = s_jrpc v;
  wk_http : s_http v' = s_http v
}.

Lemma worked_serves confMap namespaced whoAmI v v' : worked v v' -> serves confMap namespaced whoAmI v -> serves confMap namespaced whoAmI v'.
Proof.
  intros [Wd Wi Wf Wu Wj Wh] [Hwho (Hiw & Hfw & Huw & Hjw & Hhw) [Hd Hi Hm Hh Ho] Hdom Hc Hfd Hj Hs].
  destruct (configured_same _ _ _ _ Wi Hi Hc) as [Hi' Hc']. pose proof (mountsOk_same _ _ Wf Hm) as Hm'. injection Wf as Ww Wm Wl Wv.
  assert (Hfd' : dom (fs_volumeMap (s_fs v')) = dom (fs_volumeMap (s_fs v))).
  { rewrite <- (dom_fmap_L mountList (fs_volumeMap (s_fs v'))), Wv. apply dom_fmap_L. }
  split; rewrite ?Wd, ?Wj, ?Wh, ?Hfd'; try done.
  - split; [destruct Wi as (_ & -> & _); done|]. split; [congruence|]. split; [congruence|]. by rewrite Wj, Wh.
  - split; rewrite ?Wd, ?Wj, ?Wh; try done. apply (handlesOk_mono _ (s_fs v)); [by rewrite Wm|done].
Qed.

Section Runs.
Context {C T X : Type} (swiftOf : string -> string -> Headhunter.SwiftContainer X C) `{!Headhunter.BPlusTree T} `{!MapRange} `{!MapRangeOk}
  `{!Machine} (maxStrings : Z) `{!Host X} `{!Clock X} `{!Neighbours X} `{!Json} `{!Metrics X} {I : Type} `{!FsLocks.InodeHandle I}
  (rootDirectory : string -> Headhunter.volumeStruct C T * X -> Headhunter.volumeStruct C T * X)
  (waitFlushed : string -> Z -> fsVolumeStruct -> fsVolumeStruct)
  (haltResult : string -> Z -> X -> X * option error) (Listen : string -> string -> X -> X * option error)
  (timeString : Z -> string) (message : error -> string) (fuel : nat) (requestRecTime replySendTime : Z).

Abbreviation proc := (process C T X).
Abbreviation packages := (Daemon.packages (C := C) swiftOf maxStrings rootDirectory waitFlushed haltResult Listen).
Abbreviation reconfigure := (Daemon.reconfigure (C := C) swiftOf maxStrings rootDirectory waitFlushed haltResult Listen).

(** A request of the JSON-RPC server, in the process. *)
Definition rpc {R} (r : request R) (p : proc) : proc * handler I R :=
  let '(w, h) := JrpcfsServer.serve p_inode fuel requestRecTime replySendTime r (p_jrpc p, (p_fs p, p)) in
  (w.2.2 <| p_fs := w.2.1 |> <| p_jrpc := w.1 |>, h).

Definition http (request : httpRequest) (p : proc) : proc * option httpResponse :=
  let '(w, r) := ServeHTTP timeString haltResult message request (p_http p, p_rest p) in (p <| p_http := w.1 |> <| p_rest := w.2 |>, r).

(** The states of a process, with the configuration that it took last.  A
    change of configuration may run out of mount ids: 2^64 of them. *)
Inductive dreach : ConfMap -> bool -> proc -> Prop :=
| dreach_start confMap namespaced volumeList p p' :
    volumeListOf confMap = Ret volumeList -> zlen volumeList + 2 < two32 -> gateLocked (p_jrpc p) = false ->
    sfor packages (fun k => pkUp k confMap namespaced) p = (p', Ret tt) -> dreach confMap namespaced p'
| dreach_reload confMap0 namespaced0 confMap namespaced volumeList p p' :
    dreach confMap0 namespaced0 p ->
    volumeListOf confMap = Ret volumeList -> zlen volumeList + 2 < two32 -> lastMountID (p_fs p) + zlen volumeList < two64 ->
    reconfigure confMap namespaced p = (p', Ret tt) -> dreach confMap namespaced p'
| dreach_rpc {R} (r : request R) confMap namespaced p p' h :
    dreach confMap namespaced p -> lastMountID (p_fs p) + 1 < two64 -> jg_lastMountID (p_jrpc p) + 1 < two64 ->
    rpc r p = (p', h) -> dreach confMap namespaced p'
| dreach_http request confMap namespaced p p' r :
    dreach confMap namespaced p -> http request p = (p', Some r) -> dreach confMap namespaced p'
| dreach_fsck confMap namespaced p name v id job e :
    dreach confMap namespaced p -> GetByKey (volumeLLRB (p_http p)) name = Some v -> (id, job) ∈ fsckJobs v -> still job ->
    dreach confMap namespaced (p <| p_http := setVolume name (setJob id (fun job => job <| errChan := Some e |>) v) (p_http p) |>)
| dreach_work confMap namespaced p p' :
    dreach confMap namespaced p -> worked (view p) (view p') -> dreach confMap namespaced p'.

(** A request leaves the process as [evolves] says. *)
Lemma rpc_serves {R} (r : request R) confMap namespaced whoAmI p p' h :
  serves confMap namespaced whoAmI (view p) -> lastMountID (p_fs p) + 1 < two64 -> jg_lastMountID (p_jrpc p) + 1 < two64 ->
  rpc r p = (p', h) -> serves confMap namespaced whoAmI (view p').
Proof.
  intros [Hwho (Hiw & Hfw & Huw & Hjw & Hhw) [Hd Hi Hm Hh Ho] Hdom Hc Hfd [Hj Hg] Hs] Hr1 Hr2 HR. cbn in *. unfold rpc in HR.
  destruct (serve p_inode fuel requestRecTime replySendTime r (p_jrpc p, (p_fs p, p))) as [w h'] eqn:HS. injection HR as <- _.
  pose proof (serve_goes p_inode fuel requestRecTime replySendTime r (p_jrpc p, (p_fs p, p)) ltac:(by split) ltac:(by split)) as [Hev _].
  rewrite HS in Hev. destruct Hev as [[Hm' Hh'] _ Hv Hrest _ _ Hcf]. cbn in *. injection Hcf as Cf Cj Cv Cg. rewrite Hrest.
  split; cbn; [done| |split; cbn; done|done|done|congruence|split; congruence|done].
  split; cbn; [done|]. split; [congruence|]. split; [done|]. split; [congruence|done].
Qed.

(** Only the jobs of the http server changed. *)
Lemma http_serves confMap namespaced whoAmI (p : proc) g x :
  serves confMap namespaced whoAmI (view p) ->
  httpOk g /\ g = (p_http p) <| volumeLLRB := volumeLLRB g |> /\ map fst (volumeLLRB g) = map fst (volumeLLRB (p_http p)) ->
  serves confMap namespaced whoAmI (view (p <| p_http := g |> <| p_rest := x |>)).
Proof.
  intros [Hwho (Hiw & Hfw & Huw & Hjw & Hhw) [Hd Hi Hm Hh Ho] Hdom Hc Hfd Hj [Hs Ha]] (Hok & Hsame & Hk). cbn in *.
  split; cbn; [done| |by split|done|done|done|done|].
  - split; [done|]. split; [done|]. split; [done|]. split; [done|]. cbn. rewrite Hsame. done.
  - split; [|by rewrite Hsame]. rewrite <- Hs. unfold shown. by rewrite Hk.
Qed.

Lemma dreach_serves confMap namespaced p : dreach confMap namespaced p -> exists whoAmI, serves confMap namespaced whoAmI (view p).
Proof.
  induction 1 as [confMap namespaced volumeList p p' Hl Hb Hg HR|confMap0 namespaced0 confMap namespaced volumeList p p' _ [who IH] Hl Hb Hr HR
    |R r confMap namespaced p p' h _ [who IH] Hr1 Hr2 HR|request confMap namespaced p p' r _ [who IH] HR
    |confMap namespaced p name v id job e _ [who IH] Hn Hin Hst|confMap namespaced p p' _ [who IH] HW].
  - destruct (start_serves _ _ _ _ _ _ _ _ _ _ _ Hl Hb Hg HR) as (who & Hs & _). by exists who.
  - exists who. exact (proj1 (reload_serves _ _ _ _ _ _ _ _ _ _ _ _ _ _ IH Hl Hb Hr HR)).
  - exists who. by eapply rpc_serves.
  - exists who. unfold http in HR. destruct (ServeHTTP _ _ _ request _) as [[g x] r'] eqn:HS. injection HR as <- ->.
    apply http_serves; [exact IH|]. destruct (ServeHTTP_steps _ _ _ _ (p_http p, p_rest p) _ _ (so_http _ (sv_sound _ _ _ _ IH)) HS) as (? & ? & _). done.
  - exists who. exact (http_serves _ _ _ _ _ (p_rest p) IH (sendDone_step name v id e (p_http p) (so_http _ (sv_sound _ _ _ _ IH)) Hn)).
  - exists who. by eapply worked_serves.
Qed.


(** ** The daemon *)

Lemma withPackages_waits (l : list (package proc)) confMap namespaced run : forall p p',
  withPackages l confMap namespaced run p = (p', None) ->
  exists p1, sfor l (fun k => pkUp k confMap namespaced) p = (p1, Ret tt) /\ run p1 = (p', None).
Proof.
  induction l as [|k l IH]; cbn [withPackages sfor]; intros p p' HR; [by exists p|].
  destruct (pkUp k confMap namespaced p) as [p1 [[]|e|]] eqn:HU; [|done..].
  destruct (withPackages l confMap namespaced run p1) as [p2 [r|]] eqn:HW; [by destruct (pkDown k p2) as [p3 []]|]. injection HR as <-.
  destruct (IH _ _ HW) as (q & Hq & Hrun). exists q. split; [|done]. unfold sbind. by rewrite HU.
Qed.

(** A start that succeeds found the list of volumes. *)
Lemma packages_list confMap namespaced (p p' : proc) : sfor packages (fun k => pkUp k confMap namespaced) p = (p', Ret tt) ->
  exists volumeList, volumeListOf confMap = Ret volumeList.
Proof.
  intros HR. apply packages_split in HR as (p0 & p1 & _ & _ & _ & _ & _ & (w & E & _)%at_part_ret & _); [|intros k Hk; apply (Hk confMap namespaced)].
  change (HeadhunterConfig.Up swiftOf confMap namespaced (p_headhunter p0, p_rest p0) = (w, Ret tt)) in E.
  ret_step E. ret_step E. by eexists.
Qed.

Context (confFile : string) (confStrings : list string).

(** A configuration has less than 2^32 volumes. *)
Definition smallConf (files : ConfFiles) : Prop := forall confMap namespaced volumeList,
  @loadConf files confFile confStrings = Ret (confMap, namespaced) -> volumeListOf confMap = Ret volumeList -> zlen volumeList + 2 < two32.

(** The files of the last signal. *)
Fixpoint lastFiles (signals : list signal) (files : ConfFiles) : ConfFiles :=
  match signals with [] => files | SIGHUP files' :: rest => lastFiles rest files' | SIGTERM :: rest => lastFiles rest files end.

Lemma signalLoop_waits signals : forall files confMap namespaced p p',
  (forall files', SIGHUP files' ∈ signals -> smallConf files') ->
  @loadConf files confFile confStrings = Ret (confMap, namespaced) -> dreach confMap namespaced p ->
  lastMountID (p_fs p) + zlen signals * two32 < two64 ->
  signalLoop swiftOf maxStrings rootDirectory waitFlushed haltResult Listen confFile confStrings signals p = (p', None) ->
  exists confMap' namespaced', @loadConf (lastFiles signals files) confFile confStrings = Ret (confMap', namespaced')
    /\ dreach confMap' namespaced' p'.
Proof.
  induction signals as [|s signals IH]; cbn [signalLoop lastFiles]; intros files confMap namespaced p p' Hsmall Hload Hp Hroom HR.
  - injection HR as <-. eauto.
  - destruct s as [files'|]; [|done].
    destruct (@loadConf files' confFile confStrings) as [[confMap' namespaced']|e|] eqn:Hload'; [|done..].
    destruct (reconfigure confMap' namespaced' p) as [p1 [[]|e|]] eqn:HC; [|done..].
    rewrite zlen_cons in Hroom. pose proof (zlen_nonneg signals).
    destruct (dreach_serves _ _ _ Hp) as [who Hs]. pose proof HC as (q & [] & HP & _)%sbind_ret_inv.
    destruct (pause_halts _ _ _ _ _ _ _ _ _ _ _ _ _ Hs HP) as [[_ _ _ _ [_ (volumeList & Hl & _)] _ _ _] _].
    pose proof (Hsmall files' ltac:(by left) _ _ _ Hload' Hl) as Hb. pose proof (zlen_nonneg volumeList).
    assert (Hr : lastMountID (p_fs p) + zlen volumeList < two64) by (unfold two32, two64 in *; lia).
    destruct (reload_serves _ _ _ _ _ _ _ _ _ _ _ _ _ _ Hs Hl Hb Hr HC) as [_ Hlast]. cbn in Hlast.
    apply (IH files' confMap' namespaced' p1); [intros f Hf; apply Hsmall; by right|exact Hload'| |unfold two32, two64 in *; lia|exact HR].
    eapply dreach_reload; [exact Hp|exact Hl|exact Hb|exact Hr|exact HC].
Qed.

(** C6. A daemon that waits for the next signal, after any number of changes of
    configuration (up to 2^32), serves the configuration that is in the files of
    the last SIGHUP: this is a state that the invariant of the running process
    speaks of, reached without a request in between. *)
Theorem daemon_waits_reconfigured (files : ConfFiles) signals (p p' : proc) :
  smallConf files -> (forall files', SIGHUP files' ∈ signals -> smallConf files') -> zlen signals + 1 < two32 ->
  gateLocked (p_jrpc p) = false ->
  @Daemon C T X swiftOf _ _ _ maxStrings _ _ _ rootDirectory waitFlushed haltResult Listen confFile confStrings files signals p = (p', None) ->
  exists confMap namespaced whoAmI, @loadConf (lastFiles signals files) confFile confStrings = Ret (confMap, namespaced)
    /\ dreach confMap namespaced p' /\ serves confMap namespaced whoAmI (view p').
Proof.
  intros Hfiles Hsmall Hfew Hgate HD. unfold Daemon in HD.
  destruct (@loadConf files confFile confStrings) as [[confMap namespaced]|e|] eqn:Hload; [|done..].
  apply withPackages_waits in HD as (p1 & HU & HL). pose proof (packages_list _ _ _ _ HU) as [volumeList Hl].
  pose proof (Hfiles _ _ _ Hload Hl) as Hb.
  destruct (start_serves _ _ _ _ _ _ _ _ _ _ _ Hl Hb Hgate HU) as (who & _ & Hlast). cbn in Hlast.
  destruct (signalLoop_waits signals files confMap namespaced p1 p') as (confMap' & namespaced' & Hload' & Hp'); [exact Hsmall|exact Hload| | |exact HL|].
  - eapply dreach_start; [exact Hl|exact Hb|exact Hgate|exact HU].
  - pose proof (zlen_nonneg signals). unfold two32, two64 in *. lia.
  - destruct (dreach_serves _ _ _ Hp') as [who' Hs']. by exists confMap', namespaced', who'.
Qed.
End Runs.
