(* ===== verification/DaemonInstance.v ===== *)
(** An http server with two volumes that is asked to start a fsck job, and then
    for another one; and a daemon with its packages, through a change of
    configuration. *)

From S2P Require Import Prelude SortedMap Blunder Utils GoStrings Conf ConfSections ConfigInstance FsPath Httpserver HttpserverFacts.
Open Scope list_scope.

(** The rest of the world is a counter. *)
#[export] Instance sampleClock : Clock Z := {| time_Now x := (x + 1, x) |}.

#[export] Instance sampleJson : Json := {|
  marshalConfMap _ := "{}"%string;
  marshalStrings := foldr String.append EmptyString;
  marshalIDs l := foldr String.append EmptyString (map FormatUint l);
  marshalJob s := match s with
    | fsckRunningJobStruct a => a
    | fsckHaltedJobStruct a b | fsckCompletedJobNoErrorStruct a b => (a ++ b)%string
    | fsckCompletedJobWithErrorStruct a b c => (a ++ b ++ c)%string
    end;
  Indent s := s
|}.

#[export] Instance sampleMetrics : Metrics Z := {|
  Dump _ := ∅;
  ReadMemStats _ := mkMemStats (fun _ => 0) 0 0 [];
  FetchNonce _ x := (x + 1, Ret x)
|}.

Definition sampleHalt (_ : string) (_ : Z) (x : Z) : Z * option error := (x, None).
Definition sampleListen (_ _ : string) (x : Z) : Z * option error := (x, None).

Abbreviation sampleServe := (ServeHTTP FormatUint sampleHalt (fun _ => EmptyString)).

Definition httpUp : httpGlobals * Z :=
  (Up sampleHandle sampleListen confMap1 true (mkHttp false EmptyString EmptyString 0 ∅ [], 7)).1.

Definition startRequest : httpRequest := mkRequest MethodPost "/volume/V1/fsck-job" EmptyString [].

Definition httpStarted : httpGlobals * Z := (sampleServe startRequest httpUp).1.

(** The job gets the id 8. *)
Lemma httpStarted_run : exists r, sampleServe startRequest httpUp = (httpStarted, Some r) /\ location r = "/volume/V1/fsck-job/8"%string.
Proof. eexists. split; vm_compute; reflexivity. Qed.

Lemma httpUp_run : Up sampleHandle sampleListen confMap1 true (mkHttp false EmptyString EmptyString 0 ∅ [], 7) = (httpUp, Ret tt).
Proof. vm_compute. reflexivity. Qed.

Lemma httpStarted_reached : hreach FormatUint sampleHalt (fun _ => EmptyString) sampleHandle sampleListen httpStarted.
Proof.
  destruct httpStarted_run as (r & Hr & _). eapply hreach_request; [|exact Hr]. eapply hreach_up, httpUp_run.
Qed.

(** A second request to start a job is refused, and the first job goes on. *)
Definition httpRefused : httpGlobals * Z := (sampleServe startRequest httpStarted).1.

Lemma httpRefused_run : sampleServe startRequest httpStarted = (httpRefused, Some (WriteHeader StatusPreconditionFailed)).
Proof. vm_compute. reflexivity. Qed.

Lemma httpStarted_job : exists v job, ("V1"%string, v) ∈ volumeLLRB httpStarted.1 /\ (8, job) ∈ fsckJobs v /\ still job.
Proof.
  eexists _, (mkFsckJob None fsckJobRunning 7 0 None). split; [vm_compute; apply list_elem_of_here|].
  split; [vm_compute; apply list_elem_of_here|done].
Qed.

Lemma one_fsck_job_at_a_time_witness :
  exists v job, ("V1"%string, v) ∈ volumeLLRB httpRefused.1 /\ (8, job) ∈ fsckJobs v /\ Len (fsckJobs v) <= 5.
Proof.
  destruct httpStarted_job as (v & job & Hv & Hj & Hs).
  pose proof (one_fsck_job_at_a_time _ _ _ _ _ _ _ _ _ httpStarted_reached httpRefused_run) as [H1 H2].
  destruct (H2 _ _ _ _ Hv Hj Hs) as (v' & job' & Hv' & Hj' & _). exists v', job'.
  split; [exact Hv'|]. split; [exact Hj'|]. exact (proj1 (H1 _ _ Hv')).
Defined.

From S2P Require Import NodeProgram ConfNumbers ConfFacts InodeTypes ReadCache VolumeHandle InodeVolume InodeConfig InodeInstance HeadhunterCodec Headhunter HeadhunterConfig HeadhunterInstance FsProgram FsLocks FsConfig FsInstance Jrpcfs JrpcfsServer FuseConfig Daemon DaemonFacts DaemonRuns.

(** A daemon of a peer with three volumes, from its start through a change of
    configuration. *)

(** What is mounted is kept beside the accounts, under its path: it is on a
    device of its own. *)
#[export] Instance sampleHost : Host memCluster := {|
  osStat path s := (s, StatDevice (if bool_decide (is_Some (s !! path)) then 2 else 1));
  fusermount name := smod (delete name);
  fuseMount name := smod <[name := emptySwift]>;
  fuseUnmount name := smod (delete name)
|}.

#[export] Instance stoppedClock : Clock memCluster := {| time_Now s := (s, 0) |}.

Definition idle : package memCluster := mkPackage (fun _ _ => sret tt) (fun _ _ => sret tt) (fun _ _ => sret tt) (sret tt).

#[export] Instance idleNeighbours : Neighbours memCluster := {| logger := idle; stats := idle; swiftclient := idle; statslogger := idle |}.

Abbreviation sampleProcess := (process Z listTree memCluster).

Definition blankProcess : sampleProcess :=
  mkProcess ∅ (mkHhGlobals (0, 0) (0, 0) (0, 0) ∅) blankInode (mkFsGlobals EmptyString ∅ ∅ 0 false)
    (mkFuse EmptyString ∅) (mkJrpc EmptyString EmptyString EmptyString EmptyString false ∅ ∅ 0 ∅ false)
    (mkHttp false EmptyString EmptyString 0 ∅ []) (formatAll blankHeadhunter).2.

Definition keepRoot (_ : string) (w : volumeStruct Z listTree * memCluster) : volumeStruct Z listTree * memCluster := w.

Definition flushed (_ : string) (_ : Z) (v : fsVolumeStruct) : fsVolumeStruct := v.

Definition halted (_ : string) (_ : Z) (s : memCluster) : memCluster * option error := (s, None).

Definition listens (_ _ : string) (s : memCluster) : memCluster * option error := (s, None).

(** The configuration file, before and after the change. *)
Definition filesWith (sections : list (string * list (string * ConfMapOption))) : ConfFiles :=
  filesOf {[ "/etc/proxyfs.conf"%string := dumpConfMap sections ]} 10.

Definition sampleDaemon (signals : list signal) : sampleProcess * option ending :=
  @Daemon Z listTree memCluster sampleSwift _ _ _ 1000 _ _ _ keepRoot flushed halted listens "/etc/proxyfs.conf" ["Logging.LogToConsole=true"]%string
    (filesWith sections1) signals blankProcess.

Definition daemonReloaded : sampleProcess := (sampleDaemon [SIGHUP (filesWith sections2)]).1.

Lemma daemonReloaded_run : sampleDaemon [SIGHUP (filesWith sections2)] = (daemonReloaded, None).
Proof. vm_compute. reflexivity. Qed.

Lemma sample_small confFile confStrings sections volumeList :
  match @loadConf (filesWith sections) confFile confStrings with Ret (confMap, _) => volumeListOf confMap | _ => Err plain end = Ret volumeList ->
  zlen volumeList + 2 < two32 -> smallConf confFile confStrings (filesWith sections).
Proof. intros HL Hb confMap namespaced l Hload Hl. rewrite Hload, Hl in HL. by injection HL as ->. Qed.

Lemma sections1_small : smallConf "/etc/proxyfs.conf" ["Logging.LogToConsole=true"]%string (filesWith sections1).
Proof. eapply (sample_small _ _ _ ["V1"; "V2"]%string); [vm_compute; reflexivity|done]. Qed.

Lemma sections2_small : smallConf "/etc/proxyfs.conf" ["Logging.LogToConsole=true"]%string (filesWith sections2).
Proof. eapply (sample_small _ _ _ ["V1"; "V2"; "V3"]%string); [vm_compute; reflexivity|done]. Qed.

#[export] Instance clusterMetrics : Metrics memCluster := {|
  Dump _ := ∅;
  ReadMemStats _ := mkMemStats (fun _ => 0) 0 0 [];
  Httpserver.FetchNonce _ := sret 1
|}.

(** The package [fuse] mounted the third volume, which came with the change. *)
Lemma daemonReloaded_mounts : mountMap (p_fs daemonReloaded) !! 3 = Some (mkMount 3 0 "V3"%string).
Proof. vm_compute. reflexivity. Qed.

Lemma daemon_waits_reconfigured_witness :
  exists whoAmI confMap namespaced, serves confMap namespaced whoAmI (view daemonReloaded)
    /\ mountMap (p_fs daemonReloaded) !! 3 = Some (mkMount 3 0 "V3"%string).
Proof.
  edestruct (daemon_waits_reconfigured (I := memVolume) sampleSwift 1000 keepRoot flushed halted listens (fun _ => EmptyString) (fun _ => EmptyString)
               10 0 0 "/etc/proxyfs.conf" ["Logging.LogToConsole=true"]%string (filesWith sections1) [SIGHUP (filesWith sections2)] blankProcess daemonReloaded)
    as (confMap & namespaced & whoAmI & _ & _ & Hs).
  - exact sections1_small.
  - intros files [= ->]%list_elem_of_singleton. exact sections2_small.
  - reflexivity.
  - reflexivity.
  - exact daemonReloaded_run.
  - exists whoAmI, confMap, namespaced. split; [exact Hs|exact daemonReloaded_mounts].
Defined.

(** ** Requests *)

Abbreviation sampleReach := (dreach (I := memVolume) sampleSwift 1000 keepRoot flushed halted listens (fun _ => EmptyString) (fun _ => EmptyString) 10 0 0).
Abbreviation samplePackages := (packages sampleSwift 1000 keepRoot flushed halted listens).

Definition processUp : sampleProcess := (sfor samplePackages (fun k => pkUp k confMap1 true) blankProcess).1.
Definition processMounted : sampleProcess := (rpc (I := memVolume) 10 0 0 (MMount (mkMountRequest "V1" 0 0 0)) processUp).1.
Definition processReloaded : sampleProcess := (reconfigure sampleSwift 1000 keepRoot flushed halted listens confMap2 true processMounted).1.

Lemma processUp_run : sfor samplePackages (fun k => pkUp k confMap1 true) blankProcess = (processUp, Ret tt).
Proof. vm_compute. reflexivity. Qed.

Lemma processReloaded_run : reconfigure sampleSwift 1000 keepRoot flushed halted listens confMap2 true processMounted = (processReloaded, Ret tt).
Proof. vm_compute. reflexivity. Qed.

Lemma rooms : lastMountID (p_fs processUp) = 2 /\ jg_lastMountID (p_jrpc processUp) = 0 /\ lastMountID (p_fs processMounted) = 3.
Proof. vm_compute. done. Qed.

Lemma processReloaded_reached : sampleReach confMap2 true processReloaded.
Proof.
  destruct rooms as (H1 & H2 & H3).
  eapply dreach_reload; [|exact volumeList2|done|rewrite H3; done|exact processReloaded_run].
  eapply (dreach_rpc _ _ _ _ _ _ _ _ _ _ _ (MMount (mkMountRequest "V1" 0 0 0))).
  - eapply (dreach_start _ _ _ _ _ _ _ _ _ _ _ _ _ _ blankProcess); [exact volumeList1|done|reflexivity|exact processUp_run].
  - rewrite H1. done.
  - rewrite H2. done.
  - apply surjective_pairing.
Qed.

(** The mount of the client is still there after the change. *)
Lemma processReloaded_handle : lookupMountHandle (p_jrpc processReloaded) 1 = inr (mkMount 3 0 "V1"%string).
Proof. vm_compute. reflexivity. Qed.

