(* ===== verification/SwiftHttp.v ===== *)
(** Package [swiftclient]: HTTP/1.1 on a TCP connection (utils.go,
    http_status.go).

    [TCP] is what the package uses of [net], [time] and the runtime: a
    connection is named by an address, a [Read] without an error returns at
    least one byte, [rangeOrder] is the order in which a map is iterated, and
    [bufferLimit] is how much of a response can be buffered before the process
    is out of memory, which ends it ([Panic]).  The server is behind the type
    [N]. *)

From S2P Require Import Prelude Blunder Utils GoStrings.
From Stdlib Require Import Ascii.
Open Scope list_scope.

Abbreviation HttpHeaders := (gmap string (list string)).

Class TCP (N : Type) := {
  noAuthStringAddr : string;
  DialTCP : Z -> St N error unit;
  tcpWrite : Z -> bytes -> St N error Z;
  tcpRead : Z -> Z -> St N error (Z * bytes);
  tcpClose : Z -> N -> N;
  clockNow : N -> Z;
  sleepFor : Z -> N -> N;
  rangeOrder : HttpHeaders -> list (string * list string);
  bufferLimit : nat
}.

Definition swiftVersion : string := "v1".

(** ** Status codes *)

Definition httpStatusIsSuccess (httpStatus : Z) : bool := (200 <=? httpStatus) && (httpStatus <=? 299).

Definition httpStatusIsError (httpStatus : Z) : bool * Z :=
  if (100 <=? httpStatus) && (httpStatus <=? 199) then (false, SuccessError)
  else if (200 <=? httpStatus) && (httpStatus <=? 299) then (false, SuccessError)
  else if (300 <=? httpStatus) && (httpStatus <=? 399) then (true, NotImplementedError)
  else if httpStatus =? 401 then (true, NotPermError)
  else if httpStatus =? 403 then (true, NotPermError)
  else if httpStatus =? 404 then (true, NotFoundError)
  else if httpStatus =? 409 then (true, NotEmptyError)
  else if (400 <=? httpStatus) && (httpStatus <=? 499) then (true, NotImplementedError)
  else if (500 <=? httpStatus) && (httpStatus <=? 599) then (true, NotImplementedError)
  else (true, NotImplementedError).

(** ** Header values *)

Definition bytesPrefix : string := "bytes ".

(** A malformed prefix sets the error and goes on: the slice that follows
    panics when the value is too short, and otherwise the error is replaced by
    that of [ParseInt]. *)
Definition parseContentRange (headers : HttpHeaders) : res (Z * Z * Z) :=
  match headers !! "Content-Range" with
  | None => Err plain
  | Some [value] =>
      if (String.length value <? String.length bytesPrefix)%nat then Panic
      else match SplitN "/" 2 (String.substring (String.length bytesPrefix) (String.length value) value) with
           | [indices; size] =>
               match SplitN "-" 2 indices with
               | [first; last] =>
                   firstByte <- Atoi first ;;
                   lastByte <- Atoi last ;;
                   objectSize <- Atoi size ;;
                   Ret (firstByte, lastByte, objectSize)
               | _ => Err plain
               end
           | _ => Err plain
           end
  | Some _ => Err plain
  end.

Definition parseContentLength (headers : HttpHeaders) : res Z :=
  match headers !! "Content-Length" with
  | Some [value] =>
      match Atoi value with
      | Ret contentLength => if 0 >? contentLength then Err plain else Ret contentLength
      | _ => Err plain
      end
  | Some _ => Err plain
  | None => Ret 0
  end.

Definition parseTransferEncoding (headers : HttpHeaders) : bool :=
  match headers !! "Transfer-Encoding" with
  | Some [value] => bool_decide ("chunked" = value)
  | _ => false
  end.

Definition parseConnection (headers : HttpHeaders) : bool :=
  match headers !! "Connection" with
  | Some [value] => negb (bool_decide ("close" = value))
  | _ => true
  end.

Section Http.
Context {N : Type} `{TCP N}.

(** ** Writing *)

(** A [Write] that writes less than it was given returns an error, so the
    loop ends after one round. *)
Fixpoint writeBytesLoop (fuel : nat) (tcpConn : Z) (buf : bytes) (bufPos : Z) : St N error unit :=
  if bufPos <? zlen buf then
    match fuel with
    | O => spanic
    | S fuel' =>
        written <~ tcpWrite tcpConn (drop (Z.to_nat bufPos) buf) ;;
        writeBytesLoop fuel' tcpConn buf (bufPos + written)
    end
  else sret tt.

Definition writeBytesToTCPConn (tcpConn : Z) (buf : bytes) : St N error unit :=
  writeBytesLoop (length buf) tcpConn buf 0.

Definition headerLine (h : string * list string) : string :=
  (h.1 ++ ": " ++ String.concat commaSpace h.2 ++ CRLF)%string.

Definition headerLines (hs : list (string * list string)) : string := String.concat EmptyString (map headerLine hs).

Definition writeHTTPRequestLineAndHeaders (tcpConn : Z) (method path : string) (headers : HttpHeaders) : St N error unit :=
  writeBytesToTCPConn tcpConn (StringToByteSlice
    (method ++ " " ++ path ++ " HTTP/1.1" ++ CRLF ++
     "Host: " ++ noAuthStringAddr ++ CRLF ++
     "User-Agent: ProxyFS" ++ CRLF ++
     headerLines (rangeOrder headers) ++ CRLF)%string).

Definition writeHTTPPutChunk (tcpConn : Z) (buf : bytes) : St N error unit :=
  writeBytesToTCPConn tcpConn (StringToByteSlice (FormatHex (zlen buf) ++ CRLF)) ;;~
  (if 0 <? zlen buf then writeBytesToTCPConn tcpConn buf else sret tt) ;;~
  writeBytesToTCPConn tcpConn (StringToByteSlice CRLF).

(** ** Reading *)

Definition readByteFromTCPConn (tcpConn : Z) : St N error Z :=
  '(b, _) <~ tcpRead tcpConn 1 ;; sret b.

Fixpoint readBytesLoop (fuel : nat) (tcpConn bufLen : Z) (buf : bytes) : St N error bytes :=
  if zlen buf <? bufLen then
    match fuel with
    | O => spanic
    | S fuel' =>
        '(b, bs) <~ tcpRead tcpConn (bufLen - zlen buf) ;;
        readBytesLoop fuel' tcpConn bufLen (buf ++ b :: bs)
    end
  else sret buf.

Definition readBytesFromTCPConn (tcpConn bufLen : Z) : St N error bytes :=
  readBytesLoop (Z.to_nat bufLen) tcpConn bufLen [].

Definition readHTTPEmptyLineCRLF (tcpConn : Z) : St N error unit :=
  b <~ readByteFromTCPConn tcpConn ;;
  if negb (CR =? b) then serr plain
  else b <~ readByteFromTCPConn tcpConn ;;
       if negb (LF =? b) then serr plain else sret tt.

Fixpoint readLineCRLFLoop (fuel : nat) (tcpConn : Z) (bytesBuffer : bytes) : St N error string :=
  match fuel with
  | O => spanic
  | S fuel' =>
      b <~ readByteFromTCPConn tcpConn ;;
      if CR =? b
      then b <~ readByteFromTCPConn tcpConn ;;
           if negb (LF =? b) then serr plain else sret (ByteSliceToString bytesBuffer)
      else readLineCRLFLoop fuel' tcpConn (bytesBuffer ++ [b])
  end.

Definition readHTTPLineCRLF (tcpConn : Z) : St N error string := readLineCRLFLoop bufferLimit tcpConn [].

Fixpoint readLineLFLoop (fuel : nat) (tcpConn : Z) (bytesBuffer : bytes) : St N error string :=
  match fuel with
  | O => spanic
  | S fuel' =>
      b <~ readByteFromTCPConn tcpConn ;;
      if LF =? b then sret (ByteSliceToString bytesBuffer)
      else readLineLFLoop fuel' tcpConn (bytesBuffer ++ [b])
  end.

Definition readHTTPLineLF (tcpConn : Z) : St N error string := readLineLFLoop bufferLimit tcpConn [].

Fixpoint readHeadersLoop (fuel : nat) (tcpConn : Z) (headers : HttpHeaders) : St N error HttpHeaders :=
  match fuel with
  | O => spanic
  | S fuel' =>
      line <~ readHTTPLineCRLF tcpConn ;;
      if (String.length line =? 0)%nat then sret headers
      else match SplitN ":" 2 line with
           | [name; value] => readHeadersLoop fuel' tcpConn (<[name := map TrimSpace (Split "," value)]> headers)
           | _ => serr plain
           end
  end.

Definition readHTTPStatusAndHeaders (tcpConn : Z) : St N error (Z * HttpHeaders) :=
  line <~ readHTTPLineCRLF tcpConn ;;
  if (String.length line <? String.length "HTTP/1.1 XXX")%nat then serr plain
  else if negb (String.prefix "HTTP/1.1 " line) then serr plain
  else httpStatus <~ slift (Atoi (String.substring 9 3 line)) ;;
       headers <~ readHeadersLoop bufferLimit tcpConn ∅ ;;
       sret (httpStatus, headers).

(** The lines of a payload; [line] is what follows the last line feed. *)
Fixpoint payloadLines (buf line : bytes) : res (list string) :=
  match buf with
  | [] => if bool_decide (line = []) then Ret [] else Err plain
  | b :: buf' =>
      if LF =? b then
        if 2 >? zlen line then Err plain
        else lines <- payloadLines buf' [] ;; Ret (ByteSliceToString line :: lines)
      else payloadLines buf' (line ++ [b])
  end.

Definition readHTTPPayloadLines (tcpConn : Z) (headers : HttpHeaders) : St N error (list string) :=
  contentLength <~ slift (parseContentLength headers) ;;
  if 0 <? contentLength
  then buf <~ readBytesFromTCPConn tcpConn contentLength ;; slift (payloadLines buf [])
  else sret [].

Definition readHTTPChunk (tcpConn : Z) : St N error bytes :=
  line <~ readHTTPLineCRLF tcpConn ;;
  chunkLen <~ slift (ParseUint16_32 line) ;;
  chunk <~ (if 0 =? chunkLen then sret [] else readBytesFromTCPConn tcpConn chunkLen) ;;
  readHTTPEmptyLineCRLF tcpConn ;;~
  sret chunk.

(** The loop that reads a chunked payload, and the payload of a GET: they
    are the same in [objectGet], [objectLoad] and [objectTail]. *)
Fixpoint readChunksLoop (fuel : nat) (tcpConn : Z) (buf : bytes) : St N error bytes :=
  match fuel with
  | O => spanic
  | S fuel' =>
      chunk <~ readHTTPChunk tcpConn ;;
      if 0 =? zlen chunk then sret buf else readChunksLoop fuel' tcpConn (buf ++ chunk)
  end.

Definition readPayload (tcpConn : Z) (headers : HttpHeaders) : St N error bytes :=
  if parseTransferEncoding headers then readChunksLoop bufferLimit tcpConn []
  else contentLength <~ slift (parseContentLength headers) ;;
       if 0 =? contentLength then sret [] else readBytesFromTCPConn tcpConn contentLength.

(** What a POST or PUT of an account or container reads and throws away. *)
Definition skipPayload (tcpConn : Z) (headers : HttpHeaders) : St N error unit :=
  contentLength <~ slift (parseContentLength headers) ;;
  if 0 <? contentLength then readBytesFromTCPConn tcpConn contentLength ;;~ sret tt else sret tt.
End Http.
