(* ===== verification/SwiftHttpFacts.v ===== *)
(** HTTP on a connection: what is written is read back.

    [TCPStream] is what is relied on of a connection: the bytes that are still
    to come are read in order, in pieces of any size, and what was written is
    appended to what the peer gets.  [parses m input a] says that [m] takes
    exactly [input] off the stream and returns [a]. *)

From S2P Require Import Prelude Blunder Utils GoStrings SwiftHttp.
From Stdlib Require Import Ascii.
Open Scope list_scope.

Class TCPStream (N : Type) `{TCP N} := {
  incoming : N -> Z -> bytes;
  outgoing : N -> Z -> bytes;
  read_some : forall s c n b rest, 0 < n -> incoming s c = b :: rest ->
    exists k s', tcpRead c n s = (s', Ret (b, take k rest)) /\ 1 + zlen (take k rest) <= n
      /\ incoming s' c = drop k rest /\ outgoing s' c = outgoing s c;
  write_all : forall s c buf s' n, tcpWrite c buf s = (s', Ret n) ->
    n = zlen buf /\ outgoing s' c = outgoing s c ++ buf
}.

(** ** Header lines *)

Definition spaced (v : string) : string := String " " v.

Lemma lacks_spaced sep v : sep <> " "%char -> lacks sep v -> lacks sep (spaced v).
Proof. unfold lacks, spaced. intros Hs Hv. cbn [cutAt]. destruct (Ascii.eqb_spec " " sep) as [He|_]; [congruence|]. by rewrite Hv. Qed.

Lemma Split_values vs : vs <> [] -> Forall (lacks ",") vs -> Split "," (spaced (String.concat commaSpace vs)) = map spaced vs.
Proof.
  intros Hne Hvs. induction Hvs as [|v vs Hv Hvs IH]; [done|].
  destruct vs as [|w vs].
  - simpl. apply (Split_lacks "," (spaced v)). apply lacks_spaced; [discriminate|done].
  - change (spaced (String.concat commaSpace (v :: w :: vs)))
      with (spaced v +:+ String "," (spaced (String.concat commaSpace (w :: vs)))).
    rewrite Split_app by (apply lacks_spaced; [discriminate|done]). rewrite IH by done. done.
Qed.

(** A header that can be sent on one line and is told apart again. *)
Record header_ok (h : string * list string) : Prop := {
  ok_name : lacks ":" h.1;
  ok_some : h.2 <> [];
  ok_commas : Forall (lacks ",") h.2;
  ok_trimmed : Forall (fun v => TrimSpace v = v) h.2;
  ok_line : allChars notCR (h.1 ++ ": " ++ String.concat commaSpace h.2)
}.

Definition headerText (h : string * list string) : string := (h.1 ++ ": " ++ String.concat commaSpace h.2)%string.

Lemma header_parts h : header_ok h -> SplitN ":" 2 (headerText h) = [h.1; spaced (String.concat commaSpace h.2)].
Proof.
  intros Hh. unfold headerText. cbn [SplitN].
  change (h.1 ++ ": " ++ String.concat commaSpace h.2)%string with (h.1 +:+ String ":" (spaced (String.concat commaSpace h.2))).
  by rewrite cutAt_app by apply Hh.
Qed.

Lemma header_values h : header_ok h -> map TrimSpace (Split "," (spaced (String.concat commaSpace h.2))) = h.2.
Proof.
  intros Hh. rewrite Split_values by apply Hh. rewrite map_map.
  induction (ok_trimmed h Hh) as [|v vs Hv _ IH]; [done|]. cbn [map]. f_equal; [exact Hv|exact IH].
Qed.

Lemma headerText_cons h : exists c s, headerText h = String c s.
Proof. unfold headerText. destruct h as [[|c n] vs]; simpl; eauto. Qed.

Lemma headerLine_text h : headerLine h = headerText h +:+ CRLF.
Proof. unfold headerLine, headerText. by rewrite <- !string_app_assoc. Qed.

Section Streams.
Context {N : Type} `{TCPStream N}.

Definition parses {A} (m : Z -> St N error A) (input : bytes) (a : A) : Prop :=
  forall s c rest, incoming s c = input ++ rest ->
  exists s', m c s = (s', Ret a) /\ incoming s' c = rest /\ outgoing s' c = outgoing s c.

Lemma parses_ret {A} (a : A) : parses (fun _ => sret a) [] a.
Proof. intros s c rest Hi. by exists s. Qed.

Lemma parses_bind {A B} (m : Z -> St N error A) (k : A -> Z -> St N error B) i1 i2 a b :
  parses m i1 a -> parses (k a) i2 b -> parses (fun c => sbind (m c) (fun x => k x c)) (i1 ++ i2) b.
Proof.
  intros Hm Hk s c rest Hi. rewrite <- app_assoc in Hi.
  destruct (Hm s c _ Hi) as (s1 & E1 & Hi1 & Ho1). destruct (Hk s1 c _ Hi1) as (s2 & E2 & Hi2 & Ho2).
  exists s2. unfold sbind. rewrite E1, E2. by rewrite Ho2, Ho1.
Qed.

Lemma parses_then {A B} (m : Z -> St N error A) (k : A -> Z -> St N error B) i a b :
  parses m i a -> parses (k a) [] b -> parses (fun c => sbind (m c) (fun x => k x c)) i b.
Proof. intros Hm Hk. rewrite <- (app_nil_r i). by eapply parses_bind. Qed.

Lemma parses_lift {A B} (o : outcome error A) (k : A -> Z -> St N error B) i a b :
  o = Ret a -> parses (k a) i b -> parses (fun c => sbind (slift o) (fun x => k x c)) i b.
Proof. intros -> Hk. intros s c rest Hi. apply Hk, Hi. Qed.

Lemma readByte_parses b : parses readByteFromTCPConn [b] b.
Proof.
  intros s c rest Hi. destruct (read_some s c 1 b rest ltac:(lia) Hi) as (k & s' & E & Hk & Hi' & Ho).
  exists s'. unfold readByteFromTCPConn, sbind. rewrite E. split; [done|]. split; [|done].
  rewrite Hi'. destruct rest as [|x rest]; [by rewrite drop_nil|].
  destruct k as [|k]; [done|]. exfalso. cbn [take] in Hk. zlia.
Qed.

Lemma readBytesLoop_parses : forall fuel buf pre n, n = zlen pre + zlen buf -> (length buf <= fuel)%nat ->
  parses (fun c => readBytesLoop fuel c n pre) buf (pre ++ buf).
Proof.
  induction fuel as [|fuel IH]; intros buf pre n -> Hf s c rest Hi; cbn [readBytesLoop].
  { destruct buf; [|simpl in Hf; lia]. rewrite app_nil_r. destruct (Z.ltb_spec (zlen pre) (zlen pre + zlen (@nil Z))); [zlia|].
    by exists s. }
  destruct buf as [|b buf].
  { rewrite app_nil_r. destruct (Z.ltb_spec (zlen pre) (zlen pre + zlen (@nil Z))); [zlia|]. by exists s. }
  destruct (Z.ltb_spec (zlen pre) (zlen pre + zlen (b :: buf))); [|zlia].
  destruct (read_some s c (zlen pre + zlen (b :: buf) - zlen pre) b (buf ++ rest) ltac:(zlia) Hi) as (k & s1 & E & Hk & Hi1 & Ho1).
  unfold sbind at 1. rewrite E.
  assert (Htk : take k (buf ++ rest) = take k buf).
  { rewrite take_app. destruct (decide (k <= length buf)%nat) as [Hle|Hgt].
    - by replace (k - length buf)%nat with O by lia; rewrite app_nil_r.
    - rewrite (take_ge buf) by lia. rewrite take_app in Hk. rewrite (take_ge buf) in Hk by lia.
      assert (zlen (take (k - length buf) rest) = 0) as Hz by zlia.
      destruct (take (k - length buf) rest); [by rewrite app_nil_r|zlia]. }
  assert (Hdr : drop k (buf ++ rest) = drop k buf ++ rest).
  { destruct (decide (k <= length buf)%nat) as [Hle|Hgt].
    - rewrite drop_app. by replace (k - length buf)%nat with O by lia.
    - rewrite drop_app, drop_ge by lia. rewrite take_app, (take_ge buf) in Htk by lia.
      assert (take (k - length buf) rest = []) as Hn by (apply (app_inv_head buf); by rewrite Htk, app_nil_r).
      destruct rest as [|x rest]; [by rewrite drop_nil|]. destruct (k - length buf)%nat eqn:Ek; [lia|done]. }
  rewrite Htk. rewrite Hdr in Hi1.
  destruct (IH (drop k buf) (pre ++ b :: take k buf) (zlen pre + zlen (b :: buf)))  with (s := s1) (c := c) (rest := rest)
    as (s2 & E2 & Hi2 & Ho2).
  - rewrite <- (take_drop k buf) at 1. zlia.
  - rewrite length_drop. simpl in Hf. lia.
  - done.
  - exists s2. rewrite E2. rewrite <- app_assoc. cbn [app]. rewrite take_drop. by rewrite Ho2, Ho1.
Qed.

Lemma readBytes_parses buf n : n = zlen buf -> parses (fun c => readBytesFromTCPConn c n) buf buf.
Proof.
  intros ->. unfold readBytesFromTCPConn. apply (readBytesLoop_parses _ buf []); [done|]. unfold zlen. lia.
Qed.

Lemma readEmptyLine_parses : parses readHTTPEmptyLineCRLF [CR; LF] tt.
Proof.
  change [CR; LF] with ([CR] ++ [LF]). unfold readHTTPEmptyLineCRLF.
  eapply parses_bind; [apply readByte_parses|]. cbn. eapply parses_then; [apply readByte_parses|]. cbn. apply parses_ret.
Qed.

Lemma readLine_parses : forall line fuel pre, Forall (fun b => b <> CR) line -> (length line < fuel)%nat ->
  parses (fun c => readLineCRLFLoop fuel c pre) (line ++ [CR; LF]) (ByteSliceToString (pre ++ line)).
Proof.
  induction line as [|b line IH]; intros fuel pre Hl Hf; (destruct fuel as [|fuel]; [simpl in Hf; lia|]); cbn [readLineCRLFLoop].
  - rewrite app_nil_r. cbn [app]. change [CR; LF] with ([CR] ++ [LF]).
    eapply parses_bind; [apply readByte_parses|]. cbn. eapply parses_then; [apply readByte_parses|]. cbn. apply parses_ret.
  - apply Forall_cons in Hl as [Hb Hl]. change ((b :: line) ++ [CR; LF]) with ([b] ++ (line ++ [CR; LF])).
    eapply parses_bind; [apply readByte_parses|]. cbn beta.
    replace (CR =? b) with false by (symmetry; apply Z.eqb_neq; congruence).
    replace (pre ++ b :: line) with ((pre ++ [b]) ++ line) by by rewrite <- app_assoc.
    apply IH; [done|]. simpl in Hf. lia.
Qed.

Lemma notCR_bytes s : allChars notCR s -> Forall (fun b => b <> CR) (StringToByteSlice s).
Proof. induction s as [|c s IH]; [constructor|]. intros [Hc Hs]. constructor; auto. Qed.

Lemma readHTTPLine_parses line : allChars notCR line -> (String.length line < bufferLimit)%nat ->
  parses readHTTPLineCRLF (StringToByteSlice (line +:+ CRLF)) line.
Proof.
  intros Hl Hf. rewrite StringToByteSlice_app. change (StringToByteSlice CRLF) with [CR; LF].
  rewrite <- (ByteSliceToString_StringToByteSlice line) at 2.
  apply (readLine_parses (StringToByteSlice line) bufferLimit []); [by apply notCR_bytes|].
  by rewrite length_StringToByteSlice.
Qed.

(** ** Responses *)

Lemma readHeaders_parses : forall hs fuel m, Forall header_ok hs -> NoDup hs.*1 ->
  Forall (fun h => (String.length (headerText h) < bufferLimit)%nat) hs -> (0 < bufferLimit)%nat ->
  (length hs < fuel)%nat -> (forall h, h ∈ hs -> m !! h.1 = None) ->
  parses (fun c => readHeadersLoop fuel c m) (StringToByteSlice (headerLines hs +:+ CRLF)) (list_to_map hs ∪ m).
Proof.
  induction hs as [|h hs IH]; intros fuel m Hok Hnd Hlen Hb Hf Hm; (destruct fuel as [|fuel]; [simpl in Hf; lia|]);
    cbn [readHeadersLoop].
  { simpl. rewrite map_empty_union. eapply parses_then; [by apply (readHTTPLine_parses EmptyString)|]. cbn. apply parses_ret. }
  apply Forall_cons in Hok as [Hh Hok]. apply Forall_cons in Hlen as [Hl Hlen]. apply NoDup_cons in Hnd as [Hn Hnd].
  assert (Hi : StringToByteSlice (headerLines (h :: hs) +:+ CRLF)
    = StringToByteSlice (headerText h +:+ CRLF) ++ StringToByteSlice (headerLines hs +:+ CRLF)).
  { rewrite <- StringToByteSlice_app. f_equal. unfold headerLines. cbn [map]. rewrite <- headerLine_text.
    destruct hs as [|h' hs]; [done|]. cbn [map String.concat]. by rewrite <- string_app_assoc. }
  rewrite Hi. eapply parses_bind; [apply readHTTPLine_parses; [apply Hh|done]|]. cbn beta.
  destruct (headerText_cons h) as (c & t & Hc).
  replace (String.length (headerText h) =? 0)%nat with false by by rewrite Hc.
  rewrite header_parts, header_values by done. simpl list_to_map.
  replace (<[h.1 := h.2]> (list_to_map hs) ∪ m) with (list_to_map hs ∪ <[h.1 := h.2]> m : gmap string (list string)).
  - apply IH; try done; [simpl in Hf; lia|]. intros h' Hh'. rewrite lookup_insert_ne; [apply Hm; by right|].
    intros He. apply Hn. rewrite He. by apply list_elem_of_fmap_2.
  - rewrite <- insert_union_l. rewrite <- insert_union_r; [done|]. by apply not_elem_of_list_to_map_1.
Qed.

(** What a server sends: a status line, headers, and an empty line. *)
Definition responseHead (httpStatus : Z) (reason : string) (hs : list (string * list string)) : string :=
  ("HTTP/1.1 " ++ FormatUint httpStatus ++ String " " reason ++ CRLF ++ headerLines hs ++ CRLF)%string.

Definition statusText (httpStatus : Z) (reason : string) : string :=
  ("HTTP/1.1 " ++ FormatUint httpStatus ++ String " " reason)%string.

Lemma statusText_ok v reason : 100 <= v < 1000 ->
  (String.length (statusText v reason) <? 12)%nat = false /\ String.prefix "HTTP/1.1 " (statusText v reason) = true
  /\ Atoi (String.substring 9 3 (statusText v reason)) = Ret v.
Proof.
  intros Hv. destruct (FormatUint_3 v Hv) as (a & b & c & E).
  assert (HA : Atoi (FormatUint v) = Ret v) by (apply Atoi_FormatUint; unfold maxInt; lia).
  unfold statusText. rewrite E in *. split_and!; [done|done|exact HA].
Qed.

Lemma statusText_notCR v reason : allChars notCR reason -> allChars notCR (statusText v reason).
Proof.
  intros Hr. unfold statusText. apply allChars_app. split; [repeat split; discriminate|]. apply allChars_app. split; [|by split].
  eapply allChars_mono; [|apply digitsLoop_chars; [lia|done]]. intros c Hc. apply hexChar_byte in Hc. unfold notCR, CR. lia.
Qed.

(** The limits on what is buffered that a response has to respect. *)
Record head_fits (httpStatus : Z) (reason : string) (hs : list (string * list string)) : Prop := {
  fits_status : (String.length (statusText httpStatus reason) < bufferLimit)%nat;
  fits_lines : Forall (fun h => (String.length (headerText h) < bufferLimit)%nat) hs;
  fits_count : (length hs < bufferLimit)%nat
}.

Lemma responseHead_parses v reason hs : 100 <= v < 1000 -> allChars notCR reason -> Forall header_ok hs -> NoDup hs.*1 ->
  head_fits v reason hs ->
  parses readHTTPStatusAndHeaders (StringToByteSlice (responseHead v reason hs)) (v, list_to_map hs).
Proof.
  intros Hv Hr Hok Hnd [Hf1 Hf2 Hf3]. destruct (statusText_ok v reason Hv) as (H1 & H2 & H3).
  replace (StringToByteSlice (responseHead v reason hs))
    with (StringToByteSlice (statusText v reason +:+ CRLF) ++ StringToByteSlice (headerLines hs +:+ CRLF)).
  2:{ rewrite <- StringToByteSlice_app. unfold responseHead, statusText. by rewrite <- !string_app_assoc. }
  unfold readHTTPStatusAndHeaders.
  eapply parses_bind; [apply readHTTPLine_parses; [by apply statusText_notCR|done]|]. cbn beta.
  change (String.length "HTTP/1.1 XXX") with 12%nat. rewrite H1, H2. cbn [negb].
  eapply parses_lift; [exact H3|]. eapply parses_then.
  - apply (readHeaders_parses hs _ ∅); [done..|lia|done|]. intros h _. apply lookup_empty.
  - rewrite map_union_empty. apply parses_ret.
Qed.

(** ** Chunks *)

Definition chunkBytes (buf : bytes) : bytes := StringToByteSlice (FormatHex (zlen buf) +:+ CRLF) ++ buf ++ [CR; LF].

Lemma readChunk_parses buf : zlen buf < two32 -> (64 < bufferLimit)%nat -> parses readHTTPChunk (chunkBytes buf) buf.
Proof.
  intros Hl Hb. unfold readHTTPChunk, chunkBytes. pose proof (zlen_nonneg buf).
  eapply parses_bind; [apply readHTTPLine_parses; [apply FormatHex_notCR|]|].
  { eapply Nat.le_lt_trans; [apply digitsLoop_length|simpl; lia]. }
  cbn beta. eapply parses_lift; [by apply ParseUint_FormatHex|].
  eapply (parses_bind (fun c => if 0 =? zlen buf then sret [] else readBytesFromTCPConn c (zlen buf))).
  - destruct (Z.eqb_spec 0 (zlen buf)) as [He|_]; [|by apply readBytes_parses].
    destruct buf; [apply parses_ret|zlia].
  - eapply parses_then; [apply readEmptyLine_parses|]. cbn. apply parses_ret.
Qed.

Lemma readChunks_parses chunks : forall fuel pre, Forall (fun b => 0 < zlen b < two32) chunks -> (64 < bufferLimit)%nat ->
  (length chunks < fuel)%nat ->
  parses (fun c => readChunksLoop fuel c pre) (concat (map chunkBytes (chunks ++ [[]]))) (pre ++ concat chunks).
Proof.
  induction chunks as [|b chunks IH]; intros fuel pre Hc Hb Hf; (destruct fuel as [|fuel]; [simpl in Hf; lia|]);
    cbn [readChunksLoop app map concat].
  - eapply parses_bind; [by apply readChunk_parses|]. cbn. rewrite app_nil_r. apply parses_ret.
  - apply Forall_cons in Hc as [Hl Hc]. eapply parses_bind; [apply readChunk_parses; [lia|done]|]. cbn beta.
    destruct (Z.eqb_spec 0 (zlen b)); [lia|]. rewrite app_assoc. apply IH; [done|done|simpl in Hf; lia].
Qed.

Lemma writeBytes_writes c buf s s' : writeBytesToTCPConn c buf s = (s', Ret tt) -> outgoing s' c = outgoing s c ++ buf.
Proof.
  unfold writeBytesToTCPConn. destruct buf as [|b buf]; cbn [length writeBytesLoop].
  { rewrite app_nil_r. by intros [= ->]. }
  destruct (Z.ltb_spec 0 (zlen (b :: buf))); [|zlia]. unfold sbind. change (Z.to_nat 0) with O. cbn [drop].
  destruct (tcpWrite c (b :: buf) s) as [s1 [n|e|]] eqn:E; [|done|done].
  destruct (write_all _ _ _ _ _ E) as [-> Ho]. rewrite Z.add_0_l.
  assert (forall f, writeBytesLoop f c (b :: buf) (zlen (b :: buf)) = sret tt) as ->.
  { intros [|f]; cbn [writeBytesLoop]; by rewrite Z.ltb_irrefl. }
  by intros [= ->].
Qed.

Lemma writeChunk_writes c buf s s' : writeHTTPPutChunk c buf s = (s', Ret tt) -> outgoing s' c = outgoing s c ++ chunkBytes buf.
Proof.
  unfold writeHTTPPutChunk, chunkBytes, sbind.
  destruct (writeBytesToTCPConn c (StringToByteSlice (FormatHex (zlen buf) +:+ CRLF)) s) as [s1 [[]|e|]] eqn:E1; [|done|done].
  apply writeBytes_writes in E1.
  destruct ((if 0 <? zlen buf then writeBytesToTCPConn c buf else sret tt) s1) as [s2 [[]|e|]] eqn:E2; [|done|done].
  intros E3. apply writeBytes_writes in E3. rewrite E3. change (StringToByteSlice CRLF) with [CR; LF].
  assert (outgoing s2 c = outgoing s1 c ++ buf) as ->.
  { destruct (Z.ltb_spec 0 (zlen buf)); [by apply writeBytes_writes|]. injection E2 as ->.
    destruct buf; [by rewrite app_nil_r|zlia]. }
  by rewrite E1, <- !app_assoc.
Qed.

Lemma writeChunks_writes c chunks : forall s s', sfor chunks (writeHTTPPutChunk c) s = (s', Ret tt) ->
  outgoing s' c = outgoing s c ++ concat (map chunkBytes chunks).
Proof.
  induction chunks as [|b chunks IH]; intros s s'; cbn [sfor map concat].
  - rewrite app_nil_r. by intros [= ->].
  - unfold sbind. destruct (writeHTTPPutChunk c b s) as [s1 [[]|e|]] eqn:E; [|done|done].
    intros H2. apply IH in H2. rewrite H2. apply writeChunk_writes in E. by rewrite E, <- app_assoc.
Qed.
End Streams.

(** ** Listings *)

Definition noLF (s : string) : Prop := Forall (fun b => b <> LF) (StringToByteSlice s).

Definition listing (names : list string) : bytes := concat (map (fun l => StringToByteSlice l ++ [LF]) names).

Definition listable (name : string) : bool := (2 <=? String.length name)%nat.

Lemma payloadLines_line l rest : forall pre, Forall (fun b => b <> LF) l ->
  payloadLines (l ++ LF :: rest) pre
  = if 2 >? zlen (pre ++ l) then Err plain else lines <- payloadLines rest [] ;; Ret (ByteSliceToString (pre ++ l) :: lines).
Proof.
  induction l as [|b l IH]; intros pre Hl; cbn [app payloadLines].
  - by rewrite app_nil_r.
  - apply Forall_cons in Hl as [Hb Hl]. destruct (Z.eqb_spec LF b); [congruence|]. rewrite IH by done.
    by rewrite <- app_assoc.
Qed.

Lemma payloadLines_listing names : Forall noLF names ->
  payloadLines (listing names) [] = if forallb listable names then Ret names else Err plain.
Proof.
  induction 1 as [|l names Hl _ IH]; [done|]. unfold listing in *. cbn [map concat forallb]. rewrite <- app_assoc. cbn [app].
  rewrite payloadLines_line, app_nil_l, IH by done. rewrite ByteSliceToString_StringToByteSlice.
  unfold listable, zlen. rewrite length_StringToByteSlice.
  destruct (Nat.leb_spec 2 (String.length l)); rewrite Z.gtb_ltb; destruct (Z.ltb_spec (Z.of_nat (String.length l)) 2); try lia; [|done].
  cbn [andb]. by destruct (forallb _ names).
Qed.

Section HttpProperties.
Context {N : Type} `{TCPStream N}.

(** Chunked transfer: what is written chunk by chunk on one connection,
    with the empty chunk at the end, is read back from another connection as
    the concatenation of the chunks, and nothing after it is consumed. *)
Theorem chunked_transfer_roundtrip s c chunks s' headers :
  Forall (fun b => 0 < zlen b < two32) chunks -> (64 + length chunks < bufferLimit)%nat ->
  parseTransferEncoding headers = true ->
  sfor (chunks ++ [[]]) (writeHTTPPutChunk c) s = (s', Ret tt) ->
  exists sent, outgoing s' c = outgoing s c ++ sent /\
    forall t d rest, incoming t d = sent ++ rest ->
    exists t', readPayload d headers t = (t', Ret (concat chunks)) /\ incoming t' d = rest.
Proof.
  intros Hc Hb Hh Hw. apply writeChunks_writes in Hw. eexists. split; [exact Hw|]. intros t d rest Hi.
  unfold readPayload. rewrite Hh.
  destruct (readChunks_parses chunks bufferLimit [] Hc ltac:(lia) ltac:(lia) t d rest Hi) as (t' & E & Hi' & _).
  by exists t'.
Qed.

(** Status line and headers: a response whose header lines have the form
    in which the package writes its own request headers is parsed to its
    status and to the map of its headers, and nothing after the empty line is
    consumed. *)
Theorem response_head_roundtrip s c httpStatus reason hs rest :
  100 <= httpStatus < 1000 -> allChars notCR reason -> Forall header_ok hs -> NoDup hs.*1 ->
  head_fits httpStatus reason hs ->
  incoming s c = StringToByteSlice (responseHead httpStatus reason hs) ++ rest ->
  exists s', readHTTPStatusAndHeaders c s = (s', Ret (httpStatus, list_to_map hs)) /\ incoming s' c = rest.
Proof.
  intros Hv Hr Hok Hnd Hf Hi.
  destruct (responseHead_parses httpStatus reason hs Hv Hr Hok Hnd Hf s c rest Hi) as (s' & E & Hi' & _).
  by exists s'.
Qed.

(** The listing of an account or container is read as the list of its names
    exactly when every name has at least two characters: one name of a single
    character makes the whole listing fail, as if it were an empty line. *)
Theorem listing_needs_two_characters s c names headers rest :
  Forall noLF names -> names <> [] -> zlen (listing names) <= maxInt ->
  headers !! "Content-Length" = Some [FormatUint (zlen (listing names))] ->
  incoming s c = listing names ++ rest ->
  exists s', readHTTPPayloadLines c headers s = (s', if forallb listable names then Ret names else Err plain)
    /\ incoming s' c = rest.
Proof.
  intros Hn Hne Hl Hh Hi.
  destruct (readBytes_parses (listing names) _ eq_refl s c rest Hi) as (s' & E & Hi' & _). exists s'. split; [|done].
  unfold readHTTPPayloadLines, parseContentLength, sbind. rewrite Hh.
  rewrite Atoi_FormatUint by zlia. unfold slift.
  destruct (Z.gtb_spec 0 (zlen (listing names))); [zlia|].
  assert (0 < zlen (listing names)).
  { destruct names as [|n names]; [done|]. unfold listing. cbn [map concat]. zlia. }
  destruct (Z.ltb_spec 0 (zlen (listing names))); [|lia]. rewrite E. by rewrite payloadLines_listing.
Qed.
End HttpProperties.
