(* ===== verification/SwiftPool.v ===== *)
(** Package [swiftclient]: connection pools and the goroutines that use them
    (config.go, utils.go).

    A request takes a connection of one of two pools, talks HTTP on it and
    gives it back; when the pool is exhausted it waits on a [sync.Cond] of its
    own.  A request is therefore a tree of effects, [swProg], that can be run
    alone ([runSw]) or interleaved with others ([swStep]).  Each critical
    section of a pool's mutex is one step.  The exception is the send on
    [stavationResolvedChan] at the end of [releaseChunkedConnection]: when the
    channel is full the goroutine waits there with the mutex of the chunked pool
    ([poolBusy]).  Connections, conditions and HTTP exchanges are named by
    numbers; an HTTP exchange on a connection only its holder uses is one step. *)

From S2P Require Import Prelude Blunder SwiftHttp.
Open Scope list_scope.

(** ** State *)

Record connectionStruct := mkConnection {
  conn_connectionNonce : Z;
  tcpConn : Z
}.

#[export] Instance connectionStruct_eq_dec : EqDecision connectionStruct.
Proof. solve_decision. Defined.

(** [signaled] has the conditions that were signalled and whose goroutine has
    not run yet. *)
Record connectionPoolStruct := mkPool {
  poolCapacity : Z;
  poolInUse : Z;
  lifoIndex : Z;
  lifoOfActiveConnections : list (option connectionStruct);
  waiters : list Z;
  signaled : list Z
}.

#[export] Instance eta_pool : Eta connectionPoolStruct := fun p =>
  mkPool (poolCapacity p) (poolInUse p) (lifoIndex p) (lifoOfActiveConnections p) (waiters p) (signaled p).

(** The part of [globals] that the pools use; [stavationResolvedChan] is the
    number of values in the channel, whose buffer holds one. *)
Record poolGlobals := mkPoolGlobals {
  connectionNonce : Z;
  chunkedConnectionPool : connectionPoolStruct;
  nonChunkedConnectionPool : connectionPoolStruct;
  starvationUnderway : bool;
  stavationResolvedChan : nat;
  poolBusy : bool;
  nextTCPConn : Z;
  nextCond : Z
}.

#[export] Instance eta_poolGlobals : Eta poolGlobals := fun g =>
  mkPoolGlobals (connectionNonce g) (chunkedConnectionPool g) (nonChunkedConnectionPool g) (starvationUnderway g)
    (stavationResolvedChan g) (poolBusy g) (nextTCPConn g) (nextCond g).

(** Configuration, and the counters of the error injection used in testing. *)
Record requestGlobals := mkRequestGlobals {
  retryLimit : Z;
  retryLimitObject : Z;
  retryDelay : Z;
  retryDelayObject : Z;
  retryExpBackoff : Z -> Z;
  retryExpBackoffObject : Z -> Z;
  starvationCallbackSet : bool;
  chaosSendChunkFailureRate : Z;
  chaosFetchChunkedPutFailureRate : Z;
  objectFetchChunkedPutContextCnt : Z;
  sendChunkCnt : Z;
  sendChunkRetryCnt : Z
}.

#[export] Instance eta_requestGlobals : Eta requestGlobals := fun g =>
  mkRequestGlobals (retryLimit g) (retryLimitObject g) (retryDelay g) (retryDelayObject g) (retryExpBackoff g)
    (retryExpBackoffObject g) (starvationCallbackSet g) (chaosSendChunkFailureRate g)
    (chaosFetchChunkedPutFailureRate g) (objectFetchChunkedPutContextCnt g) (sendChunkCnt g) (sendChunkRetryCnt g).

Record swState (N : Type) := mkSwState {
  network : N;
  swPools : poolGlobals;
  swVars : requestGlobals
}.
Arguments mkSwState {N}.
Arguments network {N}.
Arguments swPools {N}.
Arguments swVars {N}.

#[export] Instance eta_swState N : Eta (swState N) := fun s => mkSwState (network s) (swPools s) (swVars s).

Definition getPool (chunked : bool) (g : poolGlobals) : connectionPoolStruct :=
  if chunked then chunkedConnectionPool g else nonChunkedConnectionPool g.

Definition setPool (chunked : bool) (p : connectionPoolStruct) (g : poolGlobals) : poolGlobals :=
  if chunked then g <| chunkedConnectionPool := p |> else g <| nonChunkedConnectionPool := p |>.

(** [uint16] arithmetic. *)
Definition u16 (z : Z) : Z := z mod 65536.

Definition newPool (capacity : Z) : connectionPoolStruct :=
  mkPool capacity 0 0 (replicate (Z.to_nat capacity) None) [] [].

(** The pools as [Up] sets them; a size of 0 is refused. *)
Definition upPools (chunkedConnectionPoolSize nonChunkedConnectionPoolSize : Z) : res poolGlobals :=
  if 0 =? chunkedConnectionPoolSize then Err plain
  else if 0 =? nonChunkedConnectionPoolSize then Err plain
  else Ret (mkPoolGlobals 0 (newPool chunkedConnectionPoolSize) (newPool nonChunkedConnectionPoolSize) false O false 0 0).

(** ** Critical sections of a pool *)

Section Pools.
Context {N : Type} `{TCP N}.

(** A new connection, or the last one put back; [None] ends the process. *)
Definition takeConnection (chunked : bool) (s : swState N) : option (swState N * connectionStruct) :=
  let g := swPools s in
  let p := getPool chunked g in
  if 0 =? lifoIndex p then
    let connection := mkConnection (connectionNonce g) (nextTCPConn g) in
    match DialTCP (nextTCPConn g) (network s) with
    | (n, Ret _) => Some (s <| network := n |> <| swPools := g <| nextTCPConn := nextTCPConn g + 1 |> |>, connection)
    | _ => None
    end
  else
    let i := u16 (lifoIndex p - 1) in
    match lifoOfActiveConnections p !! Z.to_nat i with
    | Some (Some connection) =>
        Some (s <| swPools := setPool chunked (p <| lifoIndex := i |>
                <| lifoOfActiveConnections := <[Z.to_nat i := None]> (lifoOfActiveConnections p) |>) g |>, connection)
    | _ => None
    end.

Inductive acquired :=
| Got (connection : connectionStruct)
| Waits (cv : Z) (starving : bool)
| AcquireFatal.

(** [acquireChunkedConnection] and [acquireNonChunkedConnection] up to
    [cv.Wait]; [starving] tells that the starvation goroutine is started. *)
Definition enterAcquire (chunked : bool) (s : swState N) : swState N * acquired :=
  let g := swPools s in
  let p := getPool chunked g in
  if poolCapacity p <=? poolInUse p then
    let starving := chunked && negb (starvationUnderway g) in
    let g := if chunked then g <| starvationUnderway := true |> else g in
    let cv := nextCond g in
    (s <| swPools := setPool chunked (p <| waiters := waiters p ++ [cv] |>) (g <| nextCond := cv + 1 |>) |>, Waits cv starving)
  else
    match takeConnection chunked (s <| swPools := setPool chunked (p <| poolInUse := u16 (poolInUse p + 1) |>) g |>) with
    | Some (s', connection) => (s', Got connection)
    | None => (s, AcquireFatal)
    end.

(** The rest of the two functions, once [cv] was signalled. *)
Definition wakeAcquire (chunked : bool) (cv : Z) (s : swState N) : option (swState N * option connectionStruct) :=
  let g := swPools s in
  let p := getPool chunked g in
  if bool_decide (cv ∈ signaled p) then
    match takeConnection chunked (s <| swPools := setPool chunked (p <| signaled := filter (fun c => c <> cv) (signaled p) |>) g |>) with
    | Some (s', connection) => Some (s', Some connection)
    | None => Some (s, None)
    end
  else None.

Inductive released := Gone | Sending | ReleasePanic.

(** The connection goes back to the LIFO, or is closed. *)
Definition putBack (chunked : bool) (connection : connectionStruct) (keepAlive : bool) (s : swState N) : option (swState N) :=
  let g := swPools s in
  let p := getPool chunked g in
  if keepAlive && (conn_connectionNonce connection =? connectionNonce g) && (poolInUse p <=? poolCapacity p) then
    if lifoIndex p <? zlen (lifoOfActiveConnections p) then
      Some (s <| swPools := setPool chunked (p <| lifoIndex := u16 (lifoIndex p + 1) |>
              <| lifoOfActiveConnections := <[Z.to_nat (lifoIndex p) := Some connection]> (lifoOfActiveConnections p) |>) g |>)
    else None
  else Some (s <| network := tcpClose (tcpConn connection) (network s) |>).

(** [releaseChunkedConnection] and [releaseNonChunkedConnection]; [Sending]
    when the goroutine has to wait for room in [stavationResolvedChan]. *)
Definition enterRelease (chunked : bool) (connection : connectionStruct) (keepAlive : bool) (s : swState N) : swState N * released :=
  match putBack chunked connection keepAlive s with
  | None => (s, ReleasePanic)
  | Some s =>
      let g := swPools s in
      let p := getPool chunked g in
      match waiters p with
      | cv :: rest =>
          if poolInUse p =? poolCapacity p then
            let g' := setPool chunked (p <| waiters := rest |> <| signaled := signaled p ++ [cv] |>) g in
            if chunked && starvationUnderway g && bool_decide (rest = []) then
              let g' := g' <| starvationUnderway := false |> in
              match stavationResolvedChan g with
              | O => (s <| swPools := g' <| stavationResolvedChan := 1%nat |> |>, Gone)
              | _ => (s <| swPools := g' <| poolBusy := true |> |>, Sending)
              end
            else (s <| swPools := g' |>, Gone)
          else (s <| swPools := setPool chunked (p <| poolInUse := u16 (poolInUse p - 1) |>) g |>, Gone)
      | [] => (s <| swPools := setPool chunked (p <| poolInUse := u16 (poolInUse p - 1) |>) g |>, Gone)
      end
  end.

(** [drainConnectionPools], for one pool: the connections of the LIFO are
    closed from the top down. *)
Fixpoint drainLoop (fuel : nat) (p : connectionPoolStruct) (n : N) : option (connectionPoolStruct * N) :=
  match fuel with
  | O => Some (p, n)
  | S fuel' =>
      if 0 <? lifoIndex p then
        let i := lifoIndex p - 1 in
        match lifoOfActiveConnections p !! Z.to_nat i with
        | Some (Some connection) =>
            drainLoop fuel' (p <| lifoIndex := i |> <| lifoOfActiveConnections := <[Z.to_nat i := None]> (lifoOfActiveConnections p) |>)
              (tcpClose (tcpConn connection) n)
        | _ => None
        end
      else Some (p, n)
  end.

Definition drainConnectionPool (chunked : bool) (s : swState N) : option (swState N) :=
  let p := getPool chunked (swPools s) in
  match drainLoop (Z.to_nat (lifoIndex p)) p (network s) with
  | Some (p', n) => Some (s <| network := n |> <| swPools := setPool chunked p' (swPools s) |>)
  | None => None
  end.

Definition freeCnt (chunked : bool) (s : swState N) : Z :=
  let p := getPool chunked (swPools s) in poolCapacity p - poolInUse p.
End Pools.

From S2P Require Import GoStrings.

(** Package [swiftclient]: requests as programs, alone and interleaved. *)

Inductive swProg (N A : Type) : Type :=
| SwRet (a : A)
| SwPanic
| SwAcquire (chunked : bool) (k : connectionStruct -> swProg N A)
| SwRelease (chunked : bool) (connection : connectionStruct) (keepAlive : bool) (k : swProg N A)
| SwDrain (chunked : bool) (k : swProg N A)
| SwNonce (k : swProg N A)
| SwFree (chunked : bool) (k : Z -> swProg N A)
| SwNet {X : Type} (f : St N error X) (k : error + X -> swProg N A)
| SwVars {X : Type} (f : requestGlobals -> requestGlobals * X) (k : X -> swProg N A).
Arguments SwRet {N A} a.
Arguments SwPanic {N A}.
Arguments SwAcquire {N A} chunked k.
Arguments SwRelease {N A} chunked connection keepAlive k.
Arguments SwDrain {N A} chunked k.
Arguments SwNonce {N A} k.
Arguments SwFree {N A} chunked k.
Arguments SwNet {N A X} f k.
Arguments SwVars {N A X} f k.

Fixpoint swbind {N A B} (p : swProg N A) (f : A -> swProg N B) : swProg N B :=
  match p with
  | SwRet a => f a
  | SwPanic => SwPanic
  | SwAcquire b k => SwAcquire b (fun c => swbind (k c) f)
  | SwRelease b c ka k => SwRelease b c ka (swbind k f)
  | SwDrain b k => SwDrain b (swbind k f)
  | SwNonce k => SwNonce (swbind k f)
  | SwFree b k => SwFree b (fun z => swbind (k z) f)
  | SwNet g k => SwNet g (fun r => swbind (k r) f)
  | SwVars g k => SwVars g (fun x => swbind (k x) f)
  end.

Declare Scope sw_scope.
Delimit Scope sw_scope with sw.
Notation "x <+ m ;; k" := (swbind m (fun x => k))
  (at level 100, m at next level, right associativity) : sw_scope.
Notation "' p <+ m ;; k" := (swbind m (fun x => match x with p => k end))
  (at level 20, p pattern, m at level 99, k at level 200) : sw_scope.
Notation "m ;;+ k" := (swbind m (fun _ => k))
  (at level 100, right associativity) : sw_scope.

(** A function with an error result. *)
Abbreviation SW N A := (swProg N (error + A)).

Definition swret {N A} (a : A) : SW N A := SwRet (inr a).
Definition swerr {N A} (e : error) : SW N A := SwRet (inl e).

Definition swfbind {N A B} (m : SW N A) (k : A -> SW N B) : SW N B :=
  swbind m (fun r => match r with inl e => SwRet (inl e) | inr a => k a end).

Notation "x <! m ;; k" := (swfbind m (fun x => k))
  (at level 100, m at next level, right associativity) : sw_scope.
Notation "' p <! m ;; k" := (swfbind m (fun x => match x with p => k end))
  (at level 20, p pattern, m at level 99, k at level 200) : sw_scope.
Notation "m ;;! k" := (swfbind m (fun _ => k))
  (at level 100, right associativity) : sw_scope.

Definition acquire {N} (chunked : bool) : swProg N connectionStruct := SwAcquire chunked (fun c => SwRet c).
Definition release {N} (chunked : bool) (connection : connectionStruct) (keepAlive : bool) : swProg N unit :=
  SwRelease chunked connection keepAlive (SwRet tt).
Definition exchange {N X} (f : St N error X) : SW N X := SwNet f (fun r => SwRet r).
Definition swvars {N X} (f : requestGlobals -> requestGlobals * X) : swProg N X := SwVars f (fun x => SwRet x).

Definition acquireChunkedConnection {N} : swProg N connectionStruct := acquire true.
Definition acquireNonChunkedConnection {N} : swProg N connectionStruct := acquire false.
Definition releaseChunkedConnection {N} (connection : connectionStruct) (keepAlive : bool) : swProg N unit :=
  release true connection keepAlive.
Definition releaseNonChunkedConnection {N} (connection : connectionStruct) (keepAlive : bool) : swProg N unit :=
  release false connection keepAlive.
Definition chunkedConnectionFreeCnt {N} : swProg N Z := SwFree true (fun z => SwRet z).
Definition nonChunkedConnectionFreeCnt {N} : swProg N Z := SwFree false (fun z => SwRet z).

Open Scope sw_scope.

Definition drainConnectionPools {N} : swProg N unit := SwDrain true (SwDrain false (SwRet tt)).

Definition PauseAndContract {N} : SW N unit := SwNonce (SwRet tt) ;;+ drainConnectionPools ;;+ swret tt.
Definition ExpandAndResume {N} : SW N unit := SwNonce (SwRet tt) ;;+ drainConnectionPools ;;+ swret tt.

(** ** Running alone *)

Inductive swOutcome (A : Type) : Type :=
| Returned (a : A)
| Panicked
| Stuck.
Arguments Returned {A} a.
Arguments Panicked {A}.
Arguments Stuck {A}.

Definition bumpNonce (g : poolGlobals) : poolGlobals := g <| connectionNonce := connectionNonce g +u 1 |>.

Section Run.
Context {N : Type} `{TCP N}.

(** One goroutine alone: it is stuck when it has to wait. *)
Fixpoint runSw {A} (p : swProg N A) (s : swState N) : swState N * swOutcome A :=
  match p with
  | SwRet a => (s, Returned a)
  | SwPanic => (s, Panicked)
  | SwAcquire chunked k =>
      match enterAcquire chunked s with
      | (s', Got connection) => runSw (k connection) s'
      | (s', Waits _ _) => (s', Stuck)
      | (s', AcquireFatal) => (s', Panicked)
      end
  | SwRelease chunked connection keepAlive k =>
      match enterRelease chunked connection keepAlive s with
      | (s', Gone) => runSw k s'
      | (s', Sending) => (s', Stuck)
      | (s', ReleasePanic) => (s', Panicked)
      end
  | SwDrain chunked k => match drainConnectionPool chunked s with Some s' => runSw k s' | None => (s, Panicked) end
  | SwNonce k => runSw k (s <| swPools := bumpNonce (swPools s) |>)
  | SwFree chunked k => runSw (k (freeCnt chunked s)) s
  | SwNet f k =>
      match f (network s) with
      | (n, Ret x) => runSw (k (inr x)) (s <| network := n |>)
      | (n, Err e) => runSw (k (inl e)) (s <| network := n |>)
      | (n, Panic) => (s <| network := n |>, Panicked)
      end
  | SwVars f k => let '(v, x) := f (swVars s) in runSw (k x) (s <| swVars := v |>)
  end.

(** ** Goroutines

    [Selecting] is the goroutine of [chunkedConnectionPoolInStarvationMode] at
    its [select]; while it runs the callback, it is a goroutine with
    [starver] set, which goes back to the [select] at its end. *)

Inductive activity : Type :=
| Running (p : swProg N unit)
| Waiting (chunked : bool) (cv : Z) (k : connectionStruct -> swProg N unit)
| Delivering (k : swProg N unit)
| Selecting.

Record goroutine := mkGoroutine { starver : bool; doing : activity }.

(** The chunked pool's mutex is held by a goroutine in [Delivering]. *)
Definition mutexFree (chunked : bool) (s : swState N) : bool := negb (chunked && poolBusy (swPools s)).

(** [callback] is the function [SetStarvationCallbackFunc] was given; [timeout]
    chooses the timer in the [select].  A connection that cannot be dialled ends
    the process: nothing follows. *)
Definition stepGoroutine (callback : swProg N unit) (timeout : bool) (s : swState N) (t : goroutine)
    : option (swState N * goroutine * list goroutine) :=
  let run p := mkGoroutine (starver t) (Running p) in
  match doing t with
  | Running p =>
      match p with
      | SwRet _ => if starver t then Some (s, mkGoroutine true Selecting, []) else None
      | SwPanic => None
      | SwAcquire chunked k =>
          if mutexFree chunked s then
            match enterAcquire chunked s with
            | (s', Got connection) => Some (s', run (k connection), [])
            | (s', Waits cv starving) =>
                Some (s', mkGoroutine (starver t) (Waiting chunked cv k), if starving then [mkGoroutine true Selecting] else [])
            | (_, AcquireFatal) => None
            end
          else None
      | SwRelease chunked connection keepAlive k =>
          if mutexFree chunked s then
            match enterRelease chunked connection keepAlive s with
            | (s', Gone) => Some (s', run k, [])
            | (s', Sending) => Some (s', mkGoroutine (starver t) (Delivering k), [])
            | (s', ReleasePanic) => Some (s', run SwPanic, [])
            end
          else None
      | SwDrain chunked k =>
          if mutexFree chunked s then
            match drainConnectionPool chunked s with
            | Some s' => Some (s', run k, [])
            | None => Some (s, run SwPanic, [])
            end
          else None
      | SwNonce k => Some (s <| swPools := bumpNonce (swPools s) |>, run k, [])
      | SwFree chunked k => if mutexFree chunked s then Some (s, run (k (freeCnt chunked s)), []) else None
      | SwNet f k =>
          match f (network s) with
          | (n, Ret x) => Some (s <| network := n |>, run (k (inr x)), [])
          | (n, Err e) => Some (s <| network := n |>, run (k (inl e)), [])
          | (n, Panic) => Some (s <| network := n |>, run SwPanic, [])
          end
      | SwVars f k => let '(v, x) := f (swVars s) in Some (s <| swVars := v |>, run (k x), [])
      end
  | Waiting chunked cv k =>
      if mutexFree chunked s then
        match wakeAcquire chunked cv s with
        | Some (s', Some connection) => Some (s', run (k connection), [])
        | Some (_, None) | None => None
        end
      else None
  | Delivering k =>
      match stavationResolvedChan (swPools s) with
      | O => Some (s <| swPools := (swPools s) <| stavationResolvedChan := 1%nat |> <| poolBusy := false |> |>, run k, [])
      | S _ => None
      end
  | Selecting =>
      if timeout then
        Some (s, if starvationCallbackSet (swVars s) then mkGoroutine true (Running callback) else t, [])
      else
        match stavationResolvedChan (swPools s) with
        | O => None
        | S n => Some (s <| swPools := (swPools s) <| stavationResolvedChan := n |> |>, mkGoroutine false (Running (SwRet tt)), [])
        end
  end.

Definition swSystem : Type := (swState N * list goroutine)%type.

Definition stepSystem (callback : swProg N unit) (sys : swSystem) (choice : nat * bool) : option swSystem :=
  let '(s, ts) := sys in
  match ts !! choice.1 with
  | Some t =>
      match stepGoroutine callback choice.2 s t with
      | Some (s', t', new) => Some (s', <[choice.1 := t']> ts ++ new)
      | None => None
      end
  | None => None
  end.

(** A choice that cannot move is skipped. *)
Fixpoint runSchedule (callback : swProg N unit) (schedule : list (nat * bool)) (sys : swSystem) : swSystem :=
  match schedule with
  | [] => sys
  | c :: rest => runSchedule callback rest (match stepSystem callback sys c with Some sys' => sys' | None => sys end)
  end.

Inductive swReach (callback : swProg N unit) (start : swSystem) : swSystem -> Prop :=
| swr_start : swReach callback start start
| swr_step sys sys' choice : swReach callback start sys -> stepSystem callback sys choice = Some sys' ->
    swReach callback start sys'.
End Run.
