(* ===== verification/SwiftPoolFacts.v ===== *)
(** What the connection pools promise.

    [sdisc] follows the connections a program holds through every branch it can
    take; a [quiet] program gives back all it took.  For goroutines that run
    such programs, in any interleaving, [sinv] holds: a pool's count is the
    number of connections held or promised, it never exceeds the capacity,
    goroutines wait only while it is reached, and no connection is in two
    hands. *)

From S2P Require Import Prelude Blunder GoStrings SwiftHttp SwiftPool.
Open Scope list_scope.

(** ** Connections a program holds *)

Definition heldConn : Type := (bool * connectionStruct)%type.

Fixpoint sdisc {N A} (Q : A -> list heldConn -> Prop) (held : list heldConn) (p : swProg N A) : Prop :=
  match p with
  | SwRet a => exists h, held ≡ₚ h /\ Q a h
  | SwPanic => True
  | SwAcquire b k => forall c, sdisc Q ((b, c) :: held) (k c)
  | SwRelease b c _ k => exists h, held ≡ₚ (b, c) :: h /\ sdisc Q h k
  | SwDrain _ k => sdisc Q held k
  | SwNonce k => sdisc Q held k
  | SwFree _ k => forall z, sdisc Q held (k z)
  | SwNet _ k => forall r, sdisc Q held (k r)
  | SwVars _ k => forall x, sdisc Q held (k x)
  end.

Section Sdisc.
Context {N : Type}.

Lemma sdisc_perm {A} (Q : A -> list heldConn -> Prop) (p : swProg N A) :
  forall h h', h ≡ₚ h' -> sdisc Q h p -> sdisc Q h' p.
Proof.
  induction p as [a| |b k IH|b c ka k IH|b k IH|k IH|b k IH|X f k IH|X f k IH]; simpl; intros h h' Hp; try done.
  - intros (x & Hx & HQ). exists x. by rewrite <- Hp.
  - intros H c. eapply IH; [|apply H]. by rewrite Hp.
  - intros (x & Hx & H). exists x. by rewrite <- Hp.
  - by apply IH.
  - by apply IH.
  - intros H z. by eapply IH.
  - intros H z. by eapply IH.
  - intros H z. by eapply IH.
Qed.

Lemma sdisc_mono {A} (Q Q' : A -> list heldConn -> Prop) (p : swProg N A) :
  (forall a h, Q a h -> Q' a h) -> forall h, sdisc Q h p -> sdisc Q' h p.
Proof.
  intros HQ. induction p as [a| |b k IH|b c ka k IH|b k IH|k IH|b k IH|X f k IH|X f k IH]; simpl; intros h H; eauto.
  - destruct H as (x & Hx & H). eauto.
  - destruct H as (x & Hx & H). eauto.
Qed.

Lemma sdisc_bind {A B} (Q : B -> list heldConn -> Prop) (p : swProg N A) (f : A -> swProg N B) :
  forall h, sdisc (fun a h => sdisc Q h (f a)) h p -> sdisc Q h (swbind p f).
Proof.
  induction p as [a| |b k IH|b c ka k IH|b k IH|k IH|b k IH|X g k IH|X g k IH]; simpl; intros h H; eauto.
  - destruct H as (x & Hx & H). by eapply sdisc_perm.
  - destruct H as (x & Hx & H). eauto.
Qed.

(** A program that ends with the connections it started with. *)
Definition quiet {A} (p : swProg N A) : Prop := forall held, sdisc (fun _ h => h = held) held p.

Lemma quiet_then {A B} (Q : B -> list heldConn -> Prop) (m : swProg N A) (k : A -> swProg N B) held :
  quiet m -> (forall a, sdisc Q held (k a)) -> sdisc Q held (swbind m k).
Proof. intros Hm Hk. apply sdisc_bind. eapply sdisc_mono; [|apply Hm]. by intros a h ->. Qed.

Lemma quiet_ret {A} (a : A) : quiet (SwRet a).
Proof. intros held. by exists held. Qed.

Lemma quiet_panic {A} : quiet (A := A) SwPanic.
Proof. done. Qed.

Lemma quiet_bind {A B} (m : swProg N A) (k : A -> swProg N B) :
  quiet m -> (forall a, quiet (k a)) -> quiet (swbind m k).
Proof. intros Hm Hk held. apply quiet_then; [done|]. intros a. apply Hk. Qed.

Lemma quiet_fbind {A B} (m : SW N A) (k : A -> SW N B) : quiet m -> (forall a, quiet (k a)) -> quiet (swfbind m k).
Proof. intros Hm Hk. apply quiet_bind; [done|]. intros [e|a]; [apply quiet_ret|apply Hk]. Qed.

Lemma quiet_exchange {X} (f : St N error X) : quiet (exchange f).
Proof. intros held r. by exists held. Qed.

Lemma quiet_vars {X} (f : requestGlobals -> requestGlobals * X) : quiet (swvars f).
Proof. intros held x. by exists held. Qed.
End Sdisc.

(** ** One pool *)

(** The array that holds the LIFO, with its free entries. *)
Definition stackOf (C : list connectionStruct) (capacity : Z) : list (option connectionStruct) :=
  (Some <$> C) ++ replicate (Z.to_nat capacity - length C) None.

(** [C]: the connections of the LIFO; [nH]: how many are held; [r]: how many
    are promised to a goroutine that is about to take one; [cvs]: the
    conditions goroutines wait on. *)
Record pinv (r nH : Z) (p : connectionPoolStruct) (C : list connectionStruct) (cvs : list Z) : Prop := {
  p_cap : 0 < poolCapacity p < 65536;
  p_use : poolInUse p = nH + r + zlen (signaled p);
  p_max : poolInUse p <= poolCapacity p;
  p_wait : waiters p <> [] -> poolInUse p = poolCapacity p;
  p_stack : lifoOfActiveConnections p = stackOf C (poolCapacity p);
  p_index : lifoIndex p = zlen C;
  p_room : zlen C + nH <= poolCapacity p;
  p_cvs : cvs ≡ₚ waiters p ++ signaled p;
  p_some : 0 <= nH;
  p_fresh : NoDup cvs
}.

Lemma newPool_pinv capacity : 0 < capacity < 65536 -> pinv 0 0 (newPool capacity) [] [].
Proof.
  intros Hc. constructor; simpl; try done; try zlia; [by unfold stackOf; rewrite Nat.sub_0_r|constructor].
Qed.

Lemma u16_small z : 0 <= z < 65536 -> u16 z = z.
Proof. apply Z.mod_small. Qed.

Lemma stack_pop C c capacity : zlen (C ++ [c]) <= capacity ->
  stackOf (C ++ [c]) capacity !! length C = Some (Some c)
  /\ <[length C := None]> (stackOf (C ++ [c]) capacity) = stackOf C capacity.
Proof.
  intros Hc. unfold stackOf.
  assert (Hk : (Z.to_nat capacity - length C)%nat = S (Z.to_nat capacity - length (C ++ [c]))).
  { unfold zlen in Hc. rewrite length_app in *. simpl in *. lia. }
  rewrite Hk, fmap_app, <- app_assoc. simpl. assert (HL : length C = length (Some <$> C)) by by rewrite length_fmap.
  rewrite HL. split; [by apply list_lookup_middle|]. by rewrite insert_app_r_alt, Nat.sub_diag by lia.
Qed.

(** Popping and pushing the LIFO. *)
Lemma pinv_pop nH p C c cvs : pinv 1 nH p (C ++ [c]) cvs ->
  lifoIndex p = zlen C + 1 /\ lifoOfActiveConnections p !! length C = Some (Some c)
  /\ pinv 0 (nH + 1) (p <| lifoIndex := zlen C |> <| lifoOfActiveConnections := <[length C := None]> (lifoOfActiveConnections p) |>) C cvs.
Proof.
  intros [Hc Hu Hm Hw Hs Hi Hr Hcv Hn Hf]. destruct (stack_pop C c (poolCapacity p) ltac:(lia)) as [H1 H2].
  rewrite Hs. split_and!; [rewrite Hi; zlia|done|].
  constructor; simpl; try done; zlia.
Qed.

Lemma pinv_unstack r nH p C c cvs : pinv r nH p (C ++ [c]) cvs ->
  lifoIndex p = zlen C + 1 /\ lifoOfActiveConnections p !! length C = Some (Some c)
  /\ pinv r nH (p <| lifoIndex := zlen C |> <| lifoOfActiveConnections := <[length C := None]> (lifoOfActiveConnections p) |>) C cvs.
Proof.
  intros [Hc Hu Hm Hw Hs Hi Hr Hcv Hn Hf]. destruct (stack_pop C c (poolCapacity p) ltac:(lia)) as [H1 H2].
  rewrite Hs. split_and!; [rewrite Hi; zlia|done|].
  constructor; simpl; try done; zlia.
Qed.

Lemma pinv_push r nH p C c cvs : pinv r (nH + 1) p C cvs -> 0 <= nH ->
  lifoIndex p < zlen (lifoOfActiveConnections p)
  /\ pinv (r + 1) nH (p <| lifoIndex := zlen C + 1 |>
       <| lifoOfActiveConnections := <[Z.to_nat (lifoIndex p) := Some c]> (lifoOfActiveConnections p) |>) (C ++ [c]) cvs.
Proof.
  intros [Hc Hu Hm Hw Hs Hi Hr Hcv Hn Hf] Hn'.
  assert (HL : Z.to_nat (lifoIndex p) = length (Some <$> C)) by (rewrite Hi, length_fmap; unfold zlen; lia).
  assert (Hk : (Z.to_nat (poolCapacity p) - length C)%nat = S (Z.to_nat (poolCapacity p) - (length C + 1))%nat) by (unfold zlen in *; lia).
  split.
  - rewrite Hs, Hi. unfold stackOf. rewrite zlen_app. unfold zlen. rewrite length_fmap, length_replicate. unfold zlen in *. lia.
  - constructor; simpl; try done; try zlia.
    rewrite Hs, HL. unfold stackOf. rewrite insert_app_r_alt, Nat.sub_diag, Hk by lia. simpl.
    rewrite fmap_app, <- app_assoc, length_app. simpl. done.
Qed.

(** ** Both pools *)

Definition heldIn (b : bool) (hs : list heldConn) : list connectionStruct :=
  (List.filter (fun h => Bool.eqb h.1 b) hs).*2.

Lemma heldIn_cons b h hs : heldIn b (h :: hs) = if Bool.eqb h.1 b then h.2 :: heldIn b hs else heldIn b hs.
Proof. unfold heldIn. simpl. by destruct (Bool.eqb h.1 b). Qed.

Lemma filter_perm {A} (f : A -> bool) l l' : l ≡ₚ l' -> List.filter f l ≡ₚ List.filter f l'.
Proof.
  induction 1 as [|x l l' _ IH|x y l|l1 l2 l3 _ IH1 _ IH2]; simpl; [done| | |by rewrite IH1].
  - destruct (f x); by rewrite IH.
  - destruct (f x), (f y); try done. constructor.
Qed.

Lemma heldIn_perm b hs hs' : hs ≡ₚ hs' -> zlen (heldIn b hs) = zlen (heldIn b hs').
Proof. intros Hp. unfold heldIn, zlen. by rewrite !length_fmap, (filter_perm _ _ _ Hp). Qed.

(** The conditions waited on change in one pool. *)
Definition setW (b : bool) (cvs : list Z) (W : bool -> list Z) : bool -> list Z := fun b' => if Bool.eqb b b' then cvs else W b'.

(** The part of the invariant that is about connections; a connection of pool
    [b] is promised when [promised] is [Some b]. *)
Record conns_ok (promised : option bool) (g : poolGlobals) (hs : list heldConn) (W : bool -> list Z)
    (C : bool -> list connectionStruct) : Prop := {
  c_pools : forall b, pinv (if bool_decide (promised = Some b) then 1 else 0) (zlen (heldIn b hs)) (getPool b g) (C b) (W b);
  c_distinct : NoDup (tcpConn <$> C true ++ C false ++ hs.*2);
  c_named : Forall (fun c => tcpConn c < nextTCPConn g) (C true ++ C false ++ hs.*2)
}.

Record sw_inv (g : poolGlobals) (hs : list heldConn) (W : bool -> list Z) (starvers delivering : Z) : Prop := {
  i_conns : exists C, conns_ok None g hs W C;
  i_conds : forall b, Forall (fun cv => cv < nextCond g) (W b);
  i_starvers : starvers = Z.of_nat (stavationResolvedChan g) + (if starvationUnderway g then 1 else 0) + delivering;
  i_chan : (stavationResolvedChan g <= 1)%nat;
  i_busy : delivering = if poolBusy g then 1 else 0;
  i_underway : starvationUnderway g = negb (bool_decide (waiters (chunkedConnectionPool g) = []))
}.

(** What [takeConnection] and [putBack] leave alone. *)
Definition sameWaits (g g' : poolGlobals) : Prop :=
  starvationUnderway g' = starvationUnderway g /\ stavationResolvedChan g' = stavationResolvedChan g
  /\ poolBusy g' = poolBusy g /\ nextCond g' = nextCond g
  /\ (forall b, waiters (getPool b g') = waiters (getPool b g)).

Lemma getPool_setPool b b' p g : getPool b' (setPool b p g) = if Bool.eqb b b' then p else getPool b' g.
Proof. by destruct b, b'. Qed.

Lemma nextTCPConn_setPool b p g : nextTCPConn (setPool b p g) = nextTCPConn g.
Proof. by destruct b. Qed.

Lemma sameWaits_setPool b p g : waiters p = waiters (getPool b g) -> sameWaits g (setPool b p g).
Proof. intros Hw. unfold sameWaits. destruct b; simpl in *; (split_and!; [done..|]); intros []; simpl; congruence. Qed.

Lemma conns_all_perm (C C' : bool -> list connectionStruct) b l l' :
  (forall b', b' <> b -> C' b' = C b') -> C b ++ l ≡ₚ C' b ++ l' ->
  C true ++ C false ++ l ≡ₚ C' true ++ C' false ++ l'.
Proof.
  intros Ho Hp. destruct b.
  - rewrite (Ho false) by done. rewrite (Permutation_app_comm (C false) l), (Permutation_app_comm (C false) l').
    by rewrite !app_assoc, Hp.
  - rewrite (Ho true) by done. by rewrite Hp.
Qed.

Lemma conns_perm P g hs hs' W W' C : hs ≡ₚ hs' -> (forall b, W b ≡ₚ W' b) -> conns_ok P g hs W C -> conns_ok P g hs' W' C.
Proof.
  intros Hp HW [Hc Hd Hn]. split.
  - intros b. rewrite <- (heldIn_perm b hs hs' Hp). destruct (Hc b) as [H1 H2 H3 H4 H5 H6 H7 H8 H9 H10].
    constructor; try done; by rewrite <- HW.
  - by rewrite <- Hp.
  - by rewrite <- Hp.
Qed.

Section Transitions.
Context {N : Type} `{TCP N}.

Lemma take_ok b (s s' : swState N) c hs W C :
  conns_ok (Some b) (swPools s) hs W C -> takeConnection b s = Some (s', c) ->
  (exists C', conns_ok None (swPools s') ((b, c) :: hs) W C') /\ sameWaits (swPools s) (swPools s').
Proof.
  intros [Hc Hd Hn]. unfold takeConnection. pose proof (Hc b) as Hb. rewrite bool_decide_true in Hb by done.
  destruct (Z.eqb_spec 0 (lifoIndex (getPool b (swPools s)))) as [Hz|Hz].
  - destruct (DialTCP (nextTCPConn (swPools s)) (network s)) as [n [u|e|]]; intros [= <- <-].
    split; [|unfold sameWaits; simpl; by destruct b].
    rewrite (p_index _ _ _ _ _ Hb) in Hz. assert (C b = []) as HCb by (destruct (C b); [done|zlia]).
    exists C. split; simpl.
    + intros b'. specialize (Hc b'). rewrite heldIn_cons. simpl.
      replace (getPool b' _) with (getPool b' (swPools s)) by by destruct b'.
      destruct (Bool.eqb_spec b b') as [<-|Hne].
      * rewrite bool_decide_true in Hc by done. destruct Hc as [H1 H2 H3 H4 H5 H6 H7 H8 H9 H10].
        constructor; try done; rewrite ?HCb in *; try zlia.
      * rewrite bool_decide_false in Hc by congruence. done.
    + rewrite !app_assoc, fmap_app, fmap_cons. rewrite <- Permutation_middle.
      rewrite <- fmap_app, <- app_assoc. constructor; [|done].
      intros Hin. apply list_elem_of_fmap in Hin as (x & Hx & Hin). simpl in Hx.
      rewrite Forall_forall in Hn. specialize (Hn x Hin). lia.
    + rewrite !app_assoc, <- Permutation_middle, <- app_assoc. constructor; [simpl; lia|].
      eapply Forall_impl; [exact Hn|]. simpl. lia.
  - rewrite (p_index _ _ _ _ _ Hb) in Hz. destruct (snoc_cases (C b)) as [HC|(C0 & x & HC)]; [by rewrite HC in Hz|].
    rewrite HC in Hb. destruct (pinv_pop _ _ _ _ _ Hb) as (Hi & Hl & Hb').
    rewrite Hi. replace (zlen C0 + 1 - 1) with (zlen C0) by lia.
    rewrite u16_small by (pose proof (p_cap _ _ _ _ _ Hb); pose proof (p_room _ _ _ _ _ Hb); pose proof (p_some _ _ _ _ _ Hb); zlia).
    replace (Z.to_nat (zlen C0)) with (length C0) by (unfold zlen; lia). rewrite Hl. intros [= <- <-]. simpl.
    split; [|by apply sameWaits_setPool].
    set (C' := fun b' => if Bool.eqb b b' then C0 else C b').
    assert (Hp : C true ++ C false ++ hs.*2 ≡ₚ C' true ++ C' false ++ x :: hs.*2).
    { apply (conns_all_perm C C' b); unfold C'.
      - intros b' Hne. by destruct (Bool.eqb_spec b b').
      - by rewrite Bool.eqb_reflx, HC, <- app_assoc. }
    exists C'. split; [|by rewrite fmap_cons, <- Hp|by rewrite nextTCPConn_setPool, fmap_cons, <- Hp].
    intros b'. rewrite getPool_setPool, heldIn_cons. unfold C'. simpl. specialize (Hc b').
    destruct (Bool.eqb_spec b b') as [<-|Hne].
    + rewrite zlen_cons. by replace (1 + zlen (heldIn b hs)) with (zlen (heldIn b hs) + 1) by lia.
    + rewrite bool_decide_false in Hc by congruence. done.
Qed.

(** A slot of the pool is reserved, or handed over by a signal. *)
Lemma reserve_ok b g hs W C : conns_ok None g hs W C -> poolInUse (getPool b g) < poolCapacity (getPool b g) ->
  conns_ok (Some b) (setPool b ((getPool b g) <| poolInUse := u16 (poolInUse (getPool b g) + 1) |>) g) hs W C.
Proof.
  intros [Hc Hd Hn] Hlt. split; [|done|by rewrite nextTCPConn_setPool].
  intros b'. rewrite getPool_setPool. specialize (Hc b'). rewrite bool_decide_false in Hc by done.
  destruct (Bool.eqb_spec b b') as [<-|Hne]; [rewrite bool_decide_true by done|by rewrite bool_decide_false by congruence].
  destruct Hc as [H1 H2 H3 H4 H5 H6 H7 H8 H9 H10].
  pose proof (zlen_nonneg (signaled (getPool b g))).
  assert (u16 (poolInUse (getPool b g) + 1) = poolInUse (getPool b g) + 1) as Hu by (apply u16_small; lia).
  constructor; simpl; rewrite ?Hu; try done; try lia. intros Hw. specialize (H4 Hw). lia.
Qed.

Lemma handed_ok b cv g hs W C W' : conns_ok None g hs W C -> cv ∈ signaled (getPool b g) -> W b ≡ₚ cv :: W' ->
  conns_ok (Some b) (setPool b ((getPool b g) <| signaled := filter (fun c => c <> cv) (signaled (getPool b g)) |>) g) hs (setW b W' W) C.
Proof.
  intros [Hc Hd Hn] Hin HW. split; [|done|by rewrite nextTCPConn_setPool].
  intros b'. rewrite getPool_setPool. unfold setW. specialize (Hc b'). rewrite bool_decide_false in Hc by done.
  destruct (Bool.eqb_spec b b') as [<-|Hne]; [rewrite bool_decide_true by done|by rewrite bool_decide_false by congruence].
  destruct Hc as [H1 H2 H3 H4 H5 H6 H7 H8 H9 H10].
  rewrite HW in H8, H10. apply NoDup_cons in H10 as [Hnin Hnd].
  apply list_elem_of_split in Hin as (l1 & l2 & Hs).
  rewrite Hs in H8. rewrite app_assoc, <- Permutation_middle, <- app_assoc in H8. apply Permutation_cons_inv in H8.
  assert (Hf : filter (fun c => c <> cv) (signaled (getPool b g)) = l1 ++ l2).
  { rewrite Hs, filter_app, filter_cons_False by auto.
    assert (Hk : forall l : list Z, cv ∉ l -> filter (fun c => c <> cv) l = l).
    { induction l as [|x l IH]; intros Hl; [done|]. rewrite filter_cons_True by set_solver. f_equal. apply IH. set_solver. }
    rewrite !Hk; [done| |]; intros Hx; apply Hnin; rewrite H8; set_solver. }
  constructor; simpl; rewrite ?Hf; try done. rewrite Hs in H2. zlia.
Qed.

Lemma acquire_ok b (s s' : swState N) c hs W st d :
  sw_inv (swPools s) hs W st d -> enterAcquire b s = (s', Got c) -> sw_inv (swPools s') ((b, c) :: hs) W st d.
Proof.
  intros [[C HC] Hk Hs Hch Hb Hu]. unfold enterAcquire.
  destruct (Z.leb_spec (poolCapacity (getPool b (swPools s))) (poolInUse (getPool b (swPools s)))) as [|Hlt]; [done|].
  destruct (takeConnection _ _) as [[s1 c1]|] eqn:E; [|done]. intros [= <- <-].
  eapply take_ok in E as [HC' (E1 & E2 & E3 & E4 & E5)]; [|by apply reserve_ok]. simpl in *.
  specialize (E5 true). simpl in E5.
  assert (Hm : sameWaits (swPools s) (setPool b ((getPool b (swPools s)) <| poolInUse := u16 (poolInUse (getPool b (swPools s)) + 1) |>) (swPools s)))
    by by apply sameWaits_setPool.
  destruct Hm as (M1 & M2 & M3 & M4 & M5). specialize (M5 true). simpl in M5.
  split; rewrite ?E1, ?E2, ?E3, ?E4, ?E5, ?M1, ?M2, ?M3, ?M4, ?M5; done.
Qed.

Lemma wait_ok b (s s' : swState N) cv starving hs W st d :
  sw_inv (swPools s) hs W st d -> enterAcquire b s = (s', Waits cv starving) ->
  sw_inv (swPools s') hs (setW b (cv :: W b) W) (st + if starving then 1 else 0) d.
Proof.
  intros [[C [Hc Hd Hn]] Hk Hs Hch Hb Hu]. unfold enterAcquire.
  destruct (Z.leb_spec (poolCapacity (getPool b (swPools s))) (poolInUse (getPool b (swPools s)))) as [Hle|Hlt];
    [|destruct (takeConnection _ _) as [[s1 c1]|]; done].
  intros [= <- <- <-]. simpl.
  set (g := swPools s) in *. set (p := getPool b g) in *.
  set (g1 := if b then g <| starvationUnderway := true |> else g) in *.
  assert (Hg1 : nextCond g1 = nextCond g /\ nextTCPConn g1 = nextTCPConn g /\ forall b', getPool b' g1 = getPool b' g) by by destruct b; split_and!; [..|intros []].
  destruct Hg1 as (G1 & G2 & G3). split.
  - exists C. split; [|done|rewrite nextTCPConn_setPool; simpl; by rewrite G2].
    intros b'. rewrite getPool_setPool. unfold setW. specialize (Hc b').
    destruct (Bool.eqb_spec b b') as [<-|Hne].
    + destruct Hc as [H1 H2 H3 H4 H5 H6 H7 H8 H9 H10]. constructor; simpl; try done.
      * intros _. fold p in H3. lia.
      * rewrite G1, H8, <- app_assoc. simpl. by rewrite Permutation_middle.
      * constructor; [|done]. rewrite G1. intros Hin. specialize (Hk b). rewrite Forall_forall in Hk. specialize (Hk _ Hin). lia.
    + replace (getPool b' (g1 <| nextCond := nextCond g1 + 1 |>)) with (getPool b' g1) by by destruct b'.
      by rewrite G3.
  - intros b'. replace (nextCond (setPool b _ _)) with (nextCond g1 + 1) by by destruct b. rewrite G1.
    assert (Hup : forall b'', Forall (fun x => x < nextCond g + 1) (W b'')).
    { intros b''. eapply Forall_impl; [apply (Hk b'')|]. intros x Hx. simpl in Hx. lia. }
    unfold setW. destruct (Bool.eqb b b'); [constructor; [lia|]|]; apply Hup.
  - rewrite Hs. unfold g1. destruct b; simpl; destruct (starvationUnderway g); simpl; lia.
  - unfold g1. by destruct b.
  - rewrite Hb. unfold g1. by destruct b.
  - unfold g1. destruct b; simpl; [|done]. symmetry. rewrite bool_decide_false; [done|]. intros Hx. by destruct (waiters p).
Qed.

Lemma wake_ok b cv (s s' : swState N) c hs W W' st d :
  sw_inv (swPools s) hs W st d -> wakeAcquire b cv s = Some (s', Some c) -> W b ≡ₚ cv :: W' ->
  sw_inv (swPools s') ((b, c) :: hs) (setW b W' W) st d.
Proof.
  intros [[C HC] Hk Hs Hch Hb Hu]. unfold wakeAcquire. destruct (bool_decide_reflect (cv ∈ signaled (getPool b (swPools s)))) as [Hin|]; [|done].
  destruct (takeConnection _ _) as [[s1 c1]|] eqn:E; [|intros [=]]. intros [= <- <-] HW.
  eapply take_ok in E as [HC' (E1 & E2 & E3 & E4 & E5)]; [|by apply handed_ok]. simpl in *.
  specialize (E5 true). simpl in E5.
  assert (Hm : sameWaits (swPools s) (setPool b ((getPool b (swPools s)) <| signaled := filter (fun c => c <> cv) (signaled (getPool b (swPools s))) |>) (swPools s)))
    by by apply sameWaits_setPool.
  destruct Hm as (M1 & M2 & M3 & M4 & M5). specialize (M5 true). simpl in M5.
  split; rewrite ?E1, ?E2, ?E3, ?E4, ?E5, ?M1, ?M2, ?M3, ?M4, ?M5; try done.
  intros b'. specialize (Hk b'). unfold setW. destruct (Bool.eqb_spec b b') as [<-|]; [|done].
  rewrite HW in Hk. by apply Forall_cons in Hk as [_ Hk].
Qed.

Lemma putBack_ok b c keepAlive (s : swState N) h W C :
  conns_ok None (swPools s) ((b, c) :: h) W C ->
  exists s1 C', putBack b c keepAlive s = Some s1 /\ conns_ok (Some b) (swPools s1) h W C'
    /\ sameWaits (swPools s) (swPools s1).
Proof.
  intros [Hc Hd Hn]. unfold putBack. set (g := swPools s) in *. set (p := getPool b g).
  assert (Hb : pinv 0 (zlen (heldIn b h) + 1) p (C b) (W b)).
  { specialize (Hc b). rewrite heldIn_cons in Hc. simpl in Hc. rewrite Bool.eqb_reflx, zlen_cons in Hc.
    by replace (zlen (heldIn b h) + 1) with (1 + zlen (heldIn b h)) by lia. }
  destruct (pinv_push _ _ _ _ c _ Hb (zlen_nonneg _)) as [Hidx Hpush].
  destruct (keepAlive && _ && _).
  - destruct (Z.ltb_spec (lifoIndex p) (zlen (lifoOfActiveConnections p))); [|lia].
    rewrite (p_index _ _ _ _ _ Hb). rewrite (p_index _ _ _ _ _ Hb) in Hpush.
    rewrite u16_small by (pose proof (p_cap _ _ _ _ _ Hb); pose proof (p_room _ _ _ _ _ Hb); zlia).
    set (C' := fun b' => if Bool.eqb b b' then C b ++ [c] else C b').
    assert (Hp : C true ++ C false ++ c :: h.*2 ≡ₚ C' true ++ C' false ++ h.*2).
    { apply (conns_all_perm C C' b); unfold C'.
      - intros b' Hne. by destruct (Bool.eqb_spec b b').
      - by rewrite Bool.eqb_reflx, <- app_assoc. }
    eexists _, C'. split; [done|]. simpl. split; [|by apply sameWaits_setPool].
    split; [intros b'|by rewrite <- Hp|by rewrite nextTCPConn_setPool, <- Hp].
    rewrite getPool_setPool. unfold C'. specialize (Hc b'). rewrite heldIn_cons in Hc. simpl in Hc.
    destruct (Bool.eqb_spec b b') as [He|Hne]; [rewrite <- He in *|].
    + by rewrite bool_decide_true.
    + by rewrite bool_decide_false by congruence.
  - eexists _, C. split; [done|]. simpl. split; [|unfold sameWaits; by split_and!].
    rewrite fmap_cons in Hd, Hn. simpl in Hd, Hn. split.
    + intros b'. specialize (Hc b'). rewrite heldIn_cons in Hc. simpl in Hc. destruct (Bool.eqb_spec b b') as [He|Hne]; [rewrite <- He in *|].
      * rewrite bool_decide_true by done. destruct Hb as [H1 H2 H3 H4 H5 H6 H7 H8 H9 H10].
        constructor; try done; fold g p; zlia.
      * by rewrite bool_decide_false by congruence.
    + rewrite app_assoc, fmap_app, fmap_cons, <- Permutation_middle in Hd. apply NoDup_cons in Hd as [_ Hd].
      by rewrite <- fmap_app, <- app_assoc in Hd.
    + rewrite app_assoc, <- Permutation_middle in Hn. apply Forall_cons in Hn as [_ Hn]. by rewrite <- app_assoc in Hn.
Qed.

(** The slot of a connection that was put back goes to the first waiter, or is
    free again. *)
Lemma handover_ok b cv rest g h W C : conns_ok (Some b) g h W C -> waiters (getPool b g) = cv :: rest ->
  conns_ok None (setPool b ((getPool b g) <| waiters := rest |> <| signaled := signaled (getPool b g) ++ [cv] |>) g) h W C.
Proof.
  intros [Hc Hd Hn] Hw. split; [|done|by rewrite nextTCPConn_setPool].
  intros b'. rewrite getPool_setPool. specialize (Hc b'). rewrite bool_decide_false by done.
  destruct (Bool.eqb_spec b b') as [<-|Hne]; [rewrite bool_decide_true in Hc by done|by rewrite bool_decide_false in Hc by congruence].
  destruct Hc as [H1 H2 H3 H4 H5 H6 H7 H8 H9 H10]. constructor; simpl; try done; [zlia| |].
  - intros _. apply H4. by rewrite Hw.
  - rewrite H8, Hw. rewrite app_assoc, <- Permutation_cons_append. done.
Qed.

Lemma free_ok b g h W C : conns_ok (Some b) g h W C -> waiters (getPool b g) = [] ->
  conns_ok None (setPool b ((getPool b g) <| poolInUse := u16 (poolInUse (getPool b g) - 1) |>) g) h W C.
Proof.
  intros [Hc Hd Hn] Hw. split; [|done|by rewrite nextTCPConn_setPool].
  intros b'. rewrite getPool_setPool. specialize (Hc b'). rewrite bool_decide_false by done.
  destruct (Bool.eqb_spec b b') as [<-|Hne]; [rewrite bool_decide_true in Hc by done|by rewrite bool_decide_false in Hc by congruence].
  destruct Hc as [H1 H2 H3 H4 H5 H6 H7 H8 H9 H10]. pose proof (zlen_nonneg (signaled (getPool b g))).
  assert (u16 (poolInUse (getPool b g) - 1) = poolInUse (getPool b g) - 1) as Hu by (apply u16_small; lia).
  constructor; simpl; rewrite ?Hu; try done; try lia.
Qed.

Lemma release_ok b c keepAlive (s s' : swState N) r hs h W st d :
  sw_inv (swPools s) hs W st d -> hs ≡ₚ (b, c) :: h -> mutexFree b s = true ->
  enterRelease b c keepAlive s = (s', r) ->
  match r with
  | Gone => sw_inv (swPools s') h W st d
  | Sending => sw_inv (swPools s') h W st (d + 1)
  | ReleasePanic => False
  end.
Proof.
  intros [[C HC] Hk Hs Hch Hb Hu] Hp Hm. eapply conns_perm in HC; [|exact Hp|done].
  destruct (putBack_ok b c keepAlive s h W C HC) as (s1 & C' & E & HC' & (E1 & E2 & E3 & E4 & E5)).
  unfold enterRelease. rewrite E. pose proof (E5 true) as E6. simpl in E6.
  assert (Hfree : waiters (getPool b (swPools s1)) = [] ->
    sw_inv (setPool b ((getPool b (swPools s1)) <| poolInUse := u16 (poolInUse (getPool b (swPools s1)) - 1) |>) (swPools s1)) h W st d).
  { intros Hw.
    assert (Hm' : sameWaits (swPools s1) (setPool b ((getPool b (swPools s1)) <| poolInUse := u16 (poolInUse (getPool b (swPools s1)) - 1) |>)
      (swPools s1))) by by apply sameWaits_setPool.
    destruct Hm' as (M1 & M2 & M3 & M4 & M5). specialize (M5 true). simpl in M5.
    split; rewrite ?M1, ?M2, ?M3, ?M4, ?M5, ?E1, ?E2, ?E3, ?E4, ?E6; try done. exists C'. by apply free_ok. }
  destruct (waiters (getPool b (swPools s1))) as [|cv rest] eqn:Hw; [intros [= <- <-]; by apply Hfree|].
  assert (Hfull : poolInUse (getPool b (swPools s1)) = poolCapacity (getPool b (swPools s1))).
  { apply (p_wait _ _ _ _ _ (c_pools _ _ _ _ _ HC' b)). by rewrite Hw. }
  rewrite Hfull, Z.eqb_refl. pose proof (handover_ok b cv rest _ _ _ _ HC' Hw) as Hh.
  destruct b; simpl in *.
  - rewrite E1, Hu, <- E6, Hw. rewrite bool_decide_false by done. cbn [negb andb].
    destruct (bool_decide_reflect (rest = [])) as [->|Hne].
    + rewrite E2. unfold mutexFree in Hm. simpl in Hm. rewrite <- E6, Hw in Hu. rewrite bool_decide_false in Hu by done. simpl in Hu.
      destruct (poolBusy (swPools s)); [done|]. rewrite Hu in Hs.
      destruct (stavationResolvedChan (swPools s)) as [|n] eqn:Hn; intros [= <- <-]; simpl; split; simpl; rewrite ?E1, ?E2, ?E3, ?E4, ?Hn; try done; try lia;
        exists C'; destruct Hh as [Hh1 Hh2 Hh3]; (split; [|done|done]); intros b'; specialize (Hh1 b'); by destruct b'.
    + intros [= <- <-]. simpl. split; simpl; rewrite ?E1, ?E2, ?E3, ?E4; try done.
      * by exists C'.
      * rewrite Hu, <- E6, Hw. by rewrite !bool_decide_false.
  - intros [= <- <-]. simpl. split; simpl; rewrite ?E1, ?E2, ?E3, ?E4, ?E6; try done. by exists C'.
Qed.
End Transitions.

Lemma drainLoop_ok {N} `{TCP N} r nH cvs C : forall p (n : N), pinv r nH p C cvs ->
  exists p' n', drainLoop (length C) p n = Some (p', n') /\ pinv r nH p' [] cvs /\ waiters p' = waiters p.
Proof.
  induction C as [|c C IH] using rev_ind; intros p n Hp; [by exists p, n|].
  destruct (pinv_unstack _ _ _ _ _ _ Hp) as (Hi & Hl & Hp').
  rewrite length_app, Nat.add_1_r. cbn [drainLoop]. rewrite Hi. destruct (Z.ltb_spec 0 (zlen C + 1)); [|zlia].
  replace (zlen C + 1 - 1) with (zlen C) by lia. replace (Z.to_nat (zlen C)) with (length C) by (unfold zlen; lia).
  rewrite Hl. destruct (IH _ (tcpClose (tcpConn c) n) Hp') as (p' & n' & E & Hq & Hw). exists p', n'. by rewrite E.
Qed.

Lemma drain_ok {N} `{TCP N} b (s : swState N) hs W st d : sw_inv (swPools s) hs W st d ->
  exists s', drainConnectionPool b s = Some s' /\ sw_inv (swPools s') hs W st d.
Proof.
  intros [[C [Hc Hd Hn]] Hk Hs Hch Hb Hu]. pose proof (Hc b) as Hp. rewrite bool_decide_false in Hp by done.
  destruct (drainLoop_ok _ _ _ _ _ (network s) Hp) as (p' & n' & E & Hq & Hw).
  unfold drainConnectionPool. replace (Z.to_nat (lifoIndex (getPool b (swPools s)))) with (length (C b))
    by (rewrite (p_index _ _ _ _ _ Hp); unfold zlen; lia).
  rewrite E. eexists. split; [done|]. simpl.
  destruct (sameWaits_setPool b p' (swPools s) Hw) as (M1 & M2 & M3 & M4 & M5). specialize (M5 true). simpl in M5.
  split; rewrite ?M1, ?M2, ?M3, ?M4, ?M5; try done.
  exists (fun b' => if Bool.eqb b b' then [] else C b').
  assert (Hsub : (if Bool.eqb b true then [] else C true) ++ (if Bool.eqb b false then [] else C false) ++ hs.*2
    `sublist_of` C true ++ C false ++ hs.*2).
  { destruct b; simpl; [by apply sublist_inserts_l|]. apply sublist_app; [done|]. by apply sublist_inserts_l. }
  split.
  - intros b'. rewrite getPool_setPool. specialize (Hc b').
    destruct (Bool.eqb_spec b b') as [He|Hne]; [rewrite <- He in *; by rewrite bool_decide_false|done].
  - eapply sublist_NoDup; [exact Hd|]. by apply fmap_sublist.
  - rewrite nextTCPConn_setPool. rewrite Forall_forall in *. intros x Hx. apply Hn. by eapply elem_of_sublist.
Qed.
