(* ===== verification/SwiftClients.v ===== *)
(** Goroutines as clients of the connection pools.

    Any number of goroutines run programs that give back the connections they
    take, together with the starvation goroutines the chunked pool starts.  In
    every state they can reach, [sw_inv] relates the pools to the connections
    the goroutines hold and to the conditions they wait on. *)

From S2P Require Import Prelude Blunder GoStrings SwiftHttp SwiftPool SwiftPoolFacts.
Open Scope list_scope.

Lemma sw_inv_perm g hs hs' W W' st st' d d' :
  hs ≡ₚ hs' -> (forall b, W b ≡ₚ W' b) -> st = st' -> d = d' -> sw_inv g hs W st d -> sw_inv g hs' W' st' d'.
Proof.
  intros Hp HW <- <- [[C HC] Hk Hs Hch Hb Hu]. split; try done.
  - exists C. by eapply conns_perm.
  - intros b. rewrite <- HW. apply Hk.
Qed.

Section Clients.
Context {N : Type} `{TCP N} (callback : swProg N unit).

(** A program that has given back everything when it returns. *)
Definition settled (held : list heldConn) (p : swProg N unit) : Prop := sdisc (fun _ h => h = []) held p.

Definition tinv (t : goroutine (N := N)) (hs : list heldConn) : Prop :=
  match doing t with
  | Running p => settled hs p
  | Waiting b cv k => forall c, settled ((b, c) :: hs) (k c)
  | Delivering k => settled hs k
  | Selecting => hs = [] /\ starver t = true
  end.

Definition waitsIn (b : bool) (t : goroutine (N := N)) : list Z :=
  match doing t with Waiting b' cv _ => if Bool.eqb b b' then [cv] else [] | _ => [] end.

Definition countStarver (t : goroutine (N := N)) : Z := if starver t then 1 else 0.

Definition countDelivering (t : goroutine (N := N)) : Z := match doing t with Delivering _ => 1 | _ => 0 end.

Definition idle (t : goroutine (N := N)) : Prop :=
  tinv t [] /\ (forall b, waitsIn b t = []) /\ countDelivering t = 0.

(** One step of a goroutine that holds [hs]; [R], [RW], [Rs] and [Rd] are the
    shares of the others. *)
Lemma goroutine_step timeout (s s' : swState N) t t' new hs R RW Rs Rd :
  settled [] callback -> tinv t hs -> 0 <= Rd ->
  sw_inv (swPools s) (hs ++ R) (fun b => waitsIn b t ++ RW b) (countStarver t + Rs) (countDelivering t + Rd) ->
  stepGoroutine callback timeout s t = Some (s', t', new) ->
  exists hs', tinv t' hs' /\ Forall idle new
    /\ sw_inv (swPools s') (hs' ++ R) (fun b => waitsIn b t' ++ RW b)
         (countStarver t' + Rs + zsum (map countStarver new)) (countDelivering t' + Rd).
Proof.
  intros Hcb Ht HRd Hinv. destruct t as [sv [p|b cv k|k|]]; unfold tinv, waitsIn, countStarver, countDelivering, stepGoroutine in *; cbv zeta; cbn [starver doing] in *.
  - destruct p as [a| |b k|b c ka k|b k|k|b k|X f k|X f k].
    + destruct sv; [|done]. intros [= <- <- <-]. destruct Ht as (h & Hp & ->). symmetry in Hp. apply Permutation_nil in Hp as ->.
      exists []. cbn. split_and!; [done|done|by constructor|]. by rewrite Z.add_0_r.
    + done.
    + destruct (mutexFree b s); [|done]. destruct (enterAcquire b s) as [s1 [c|cv starving|]] eqn:E; [| |done]; intros [= <- <- <-].
      * exists ((b, c) :: hs). cbn. split_and!; [apply Ht|by constructor|]. rewrite Z.add_0_r. by eapply acquire_ok.
      * exists hs. cbn. split_and!; [exact Ht| |].
        { destruct starving; constructor; [|constructor]. by split_and!. }
        eapply wait_ok in E; [|exact Hinv]. eapply sw_inv_perm; [done| | |done|exact E].
        -- intros b'. unfold setW. by destruct b, b'.
        -- destruct starving; cbn; lia.
    + destruct (mutexFree b s) eqn:Hm; [|done]. destruct Ht as (h & Hp & Ht).
      destruct (enterRelease b c ka s) as [s1 r] eqn:E.
      eapply (release_ok _ _ _ _ _ _ _ (h ++ R)) in E; [|exact Hinv|by rewrite Hp|done].
      destruct r; [| |done]; intros [= <- <- <-]; exists h; cbn; (split_and!; [exact Ht|by constructor|]); rewrite Z.add_0_r; [exact E|].
      eapply sw_inv_perm; [done|done|done| |exact E]. lia.
    + destruct (mutexFree b s) eqn:Hm; [|done]. destruct (drain_ok b s _ _ _ _ Hinv) as (s1 & E & Hi). rewrite E.
      intros [= <- <- <-]. exists hs. cbn. split_and!; [exact Ht|by constructor|]. by rewrite Z.add_0_r.
    + intros [= <- <- <-]. exists hs. cbn. split_and!; [exact Ht|by constructor|]. rewrite Z.add_0_r.
      destruct Hinv as [[C [Hc Hd Hn]] Hk Hs Hch Hb Hu]. split; try done. exists C. split; [|done|done]. intros b. specialize (Hc b). by destruct b.
    + destruct (mutexFree b s); [|done]. intros [= <- <- <-]. exists hs. cbn. split_and!; [apply Ht|by constructor|]. by rewrite Z.add_0_r.
    + destruct (f (network s)) as [n [x|e|]]; intros [= <- <- <-]; exists hs; cbn; (split_and!; [try apply Ht|by constructor|]); try done; by rewrite Z.add_0_r.
    + destruct (f (swVars s)) as [v x]. intros [= <- <- <-]. exists hs. cbn. split_and!; [apply Ht|by constructor|]. by rewrite Z.add_0_r.
  - destruct (mutexFree b s); [|done]. destruct (wakeAcquire b cv s) as [[s1 [c|]]|] eqn:E; [|done..]. intros [= <- <- <-].
    exists ((b, c) :: hs). cbn. split_and!; [apply Ht|by constructor|]. rewrite Z.add_0_r.
    eapply (wake_ok _ _ _ _ _ _ _ (RW b)) in E; [|exact Hinv|by destruct b].
    eapply sw_inv_perm; [done| |done|done|exact E]. intros b'. unfold setW. by destruct b, b'.
  - destruct (stavationResolvedChan (swPools s)) as [|n] eqn:Hc; [|done]. intros [= <- <- <-].
    exists hs. cbn. split_and!; [exact Ht|by constructor|]. rewrite Z.add_0_r.
    destruct Hinv as [[C [H1 H2 H3]] Hk Hs Hch Hb Hu]. destruct (poolBusy (swPools s)) eqn:Hbusy.
    + split; cbn; try done; try lia. exists C. split; [|done|done]. intros b. specialize (H1 b). by destruct b.
    + lia.
  - destruct Ht as [-> Hsv]. cbn in Hsv. subst sv. destruct timeout.
    + intros [= <- <- <-]. exists []. destruct (starvationCallbackSet (swVars s)); cbn; (split; [done|split; [by constructor|]]); by rewrite Z.add_0_r.
    + destruct (stavationResolvedChan (swPools s)) as [|n] eqn:Hc; [done|]. intros [= <- <- <-].
      exists []. cbn. split_and!; [by exists []|by constructor|]. rewrite Z.add_0_r.
      destruct Hinv as [[C [H1 H2 H3]] Hk Hs Hch Hb Hu].
      split; cbn; try done; try lia. exists C. split; [|done|done]. intros b. specialize (H1 b). by destruct b.
Qed.

(** ** Systems *)

Definition system_inv (sys : swSystem (N := N)) (hss : list (list heldConn)) : Prop :=
  Forall2 tinv sys.2 hss
  /\ sw_inv (swPools sys.1) (concat hss) (fun b => concat (map (waitsIn b) sys.2))
       (zsum (map countStarver sys.2)) (zsum (map countDelivering sys.2)).

Lemma zsum_perm l l' : l ≡ₚ l' -> zsum l = zsum l'.
Proof. induction 1 as [|x l l' _ IH|x y l|l1 l2 l3 _ IH1 _ IH2]; unfold zsum in *; simpl; lia. Qed.

Lemma zsum_insert {A} (f : A -> Z) l i x y : l !! i = Some x ->
  exists rest, zsum (map f l) = f x + rest /\ zsum (map f (<[i := y]> l)) = f y + rest.
Proof.
  intros Hi. destruct (concat_insert (fun a => [f a]) l i x y Hi) as (rest & H1 & H2).
  assert (Hc : forall l, concat (map (fun a => [f a]) l) = map f l) by (induction l0 as [|z l0 IH]; simpl; congruence).
  rewrite !Hc in *. exists (zsum rest). apply zsum_perm in H1, H2. rewrite zsum_app in H1, H2. unfold zsum in *. simpl in *. lia.
Qed.

Lemma delivering_nonneg ts : 0 <= zsum (map countDelivering ts).
Proof.
  induction ts as [|t ts IH]; [done|]. unfold zsum in *. simpl. unfold countDelivering at 1. destruct (doing t); lia.
Qed.

Lemma idle_all (new : list goroutine) : Forall idle new ->
  Forall2 tinv new (map (fun _ => []) new) /\ (forall b, concat (map (waitsIn b) new) = [])
  /\ zsum (map countDelivering new) = 0.
Proof.
  induction 1 as [|t new (H1 & H2 & H3) _ (IH1 & IH2 & IH3)]; [by split_and!|]. simpl. split_and!.
  - by constructor.
  - intros b. by rewrite H2, IH2.
  - unfold zsum in *. simpl. lia.
Qed.

Lemma step_inv sys sys' choice hss : settled [] callback -> system_inv sys hss ->
  stepSystem callback sys choice = Some sys' -> exists hss', system_inv sys' hss'.
Proof.
  destruct sys as [s ts]. intros Hcb [Ht Hi]. unfold stepSystem. simpl in Ht, Hi.
  destruct (ts !! choice.1) as [t|] eqn:Et; [|done].
  destruct (stepGoroutine callback choice.2 s t) as [[[s' t'] new]|] eqn:E; [|done]. intros [= <-].
  destruct (Forall2_lookup_l _ _ _ _ _ Ht Et) as (hs & Eh & Hth).
  assert (HRd : 0 <= zsum (map countDelivering ts) - countDelivering t).
  { destruct (zsum_insert countDelivering ts choice.1 t (mkGoroutine false Selecting) Et) as (r & H1 & H2).
    rewrite H1. pose proof (delivering_nonneg (<[choice.1 := mkGoroutine false Selecting]> ts)). change (countDelivering (mkGoroutine false Selecting)) with 0 in H2. lia. }
  destruct (concat_insert (fun x => x) hss choice.1 hs hs Eh) as (R & HR & _). rewrite map_id in HR.
  set (RW := fun b => concat (map (waitsIn b) (delete choice.1 ts))).
  assert (HRW : forall b u, concat (map (waitsIn b) (<[choice.1 := u]> ts)) ≡ₚ waitsIn b u ++ RW b).
  { intros b u. assert (Hu : <[choice.1 := u]> ts !! choice.1 = Some u) by (apply list_lookup_insert_eq; by eapply lookup_lt_Some).
    rewrite (delete_Permutation _ choice.1 u Hu) at 1. simpl. unfold RW. f_equiv.
    replace (delete choice.1 (<[choice.1 := u]> ts)) with (delete choice.1 ts); [done|].
    clear. generalize choice.1 as n. induction ts as [|z l IH]; intros [|n]; simpl; try done. f_equal. apply IH. }
  assert (Hid : <[choice.1 := t]> ts = ts) by by apply list_insert_id.
  destruct (goroutine_step choice.2 s s' t t' new hs R RW
    (zsum (map countStarver ts) - countStarver t) (zsum (map countDelivering ts) - countDelivering t) Hcb Hth HRd)
    as (hs' & Ht' & Hnew & Hi'); [|done|].
  { refine (sw_inv_perm _ _ _ _ _ _ _ _ _ HR _ _ _ Hi); [|lia|lia]. intros b. rewrite <- (HRW b t). by rewrite Hid. }
  destruct (idle_all new Hnew) as (Hn1 & Hn2 & Hn3).
  destruct (concat_insert (fun x => x) hss choice.1 hs hs' Eh) as (R' & HR1 & HR2). rewrite !map_id in HR1, HR2.
  assert (HRR : R ≡ₚ R') by (apply (Permutation_app_inv_l hs); by rewrite <- HR, <- HR1).
  exists (<[choice.1 := hs']> hss ++ map (fun _ => []) new). split; simpl.
  - by apply Forall2_insert_snoc.
  - destruct (zsum_insert countStarver ts choice.1 t t' Et) as (r1 & Hs1 & Hs2).
    destruct (zsum_insert countDelivering ts choice.1 t t' Et) as (r2 & Hd1 & Hd2).
    refine (sw_inv_perm _ _ _ _ _ _ _ _ _ _ _ _ _ Hi').
    + rewrite concat_app, HR2, <- HRR. replace (concat (map (fun _ => []) new)) with (@nil heldConn); [by rewrite app_nil_r|].
      clear. by induction new.
    + intros b. rewrite map_app, concat_app, Hn2, app_nil_r. symmetry. apply HRW.
    + rewrite map_app, zsum_app. lia.
    + rewrite map_app, zsum_app. lia.
Qed.

(** Goroutines with programs to run, on the pools [Up] makes. *)
Definition startSystem (n : N) (vars : requestGlobals) (pools : poolGlobals) (ps : list (swProg N unit)) : swSystem :=
  (mkSwState n pools vars, map (fun p => mkGoroutine false (Running p)) ps).

Lemma start_inv n vars a b g ps : 0 <= a < 65536 -> 0 <= b < 65536 -> upPools a b = Ret g -> Forall (settled []) ps ->
  system_inv (startSystem n vars g ps) (map (fun _ => []) ps).
Proof.
  intros Ha Hb Hg Hps. unfold upPools in Hg.
  destruct (Z.eqb_spec 0 a); [done|]. destruct (Z.eqb_spec 0 b); [done|]. injection Hg as <-.
  assert (Hz : forall {A} (f : swProg N unit -> list A), (forall p, f p = []) -> concat (map f ps) = []).
  { intros A f Hf. clear -Hf. induction ps as [|p ps IH]; simpl; [done|]. by rewrite Hf. }
  assert (Hs : forall f : swProg N unit -> Z, (forall p, f p = 0) -> zsum (map f ps) = 0).
  { intros f Hf. clear -Hf. induction ps as [|p ps IH]; unfold zsum in *; simpl; [done|]. rewrite Hf. lia. }
  split; simpl.
  - clear -Hps. induction Hps as [|p ps Hp _ IH]; simpl; by constructor.
  - rewrite !map_map, (Hz _ (fun _ => [])), !Hs by done. split; simpl; try done.
    + exists (fun _ => []). split; simpl; [|constructor|constructor].
      intros []; rewrite map_map, Hz by done; apply newPool_pinv; lia.
    + intros c. rewrite map_map, Hz by done. constructor.
    + lia.
Qed.

Lemma reach_inv start hss sys : settled [] callback -> system_inv start hss -> swReach callback start sys ->
  exists hss', system_inv sys hss'.
Proof.
  intros Hcb Hi. induction 1 as [|sys sys' choice _ [hss' IH] E]; [by exists hss|]. by eapply step_inv.
Qed.

Lemma omap_stackOf C capacity : omap id (stackOf C capacity) = C.
Proof.
  unfold stackOf. rewrite omap_app. replace (omap id (replicate _ None)) with (@nil connectionStruct).
  - rewrite app_nil_r. induction C as [|c C IH]; simpl; [done|]. by f_equal.
  - generalize (Z.to_nat capacity - length C)%nat as k. induction k as [|k IH]; simpl; done.
Qed.

(** The connections that lie in a pool's LIFO. *)
Definition idleIn (chunked : bool) (g : poolGlobals) : list connectionStruct := omap id (lifoOfActiveConnections (getPool chunked g)).

Lemma inv_distinct g hs W st d : sw_inv g hs W st d -> NoDup (tcpConn <$> idleIn true g ++ idleIn false g ++ hs.*2).
Proof.
  intros [[C [Hc Hd Hn]] _ _ _ _ _]. unfold idleIn.
  by rewrite (p_stack _ _ _ _ _ (Hc true)), (p_stack _ _ _ _ _ (Hc false)), !omap_stackOf.
Qed.

Lemma inv_pool b g hs W st d : sw_inv g hs W st d ->
  poolInUse (getPool b g) = zlen (heldIn b hs) + zlen (signaled (getPool b g))
  /\ poolInUse (getPool b g) <= poolCapacity (getPool b g) /\ 0 < poolCapacity (getPool b g)
  /\ (waiters (getPool b g) <> [] -> poolInUse (getPool b g) = poolCapacity (getPool b g))
  /\ W b ≡ₚ waiters (getPool b g) ++ signaled (getPool b g).
Proof.
  intros [[C [Hc Hd Hn]] _ _ _ _ _]. specialize (Hc b). rewrite bool_decide_false in Hc by done.
  destruct Hc as [H1 H2 H3 H4 H5 H6 H7 H8 H9 H10]. split_and!; try done; lia.
Qed.

Section Reachable.
Context (n : N) (vars : requestGlobals) (size nonChunkedSize : Z) (pools : poolGlobals) (ps : list (swProg N unit)).
Context (Hsize : 0 <= size < 65536) (HnonChunkedSize : 0 <= nonChunkedSize < 65536) (Hup : upPools size nonChunkedSize = Ret pools).
Context (Hps : Forall (settled []) ps) (Hcb : settled [] callback).

Lemma reached sys : swReach callback (startSystem n vars pools ps) sys -> exists hss, system_inv sys hss.
Proof. intros Hr. eapply reach_inv; [done| |exact Hr]. by apply (start_inv n vars size nonChunkedSize). Qed.

(** Sharing of connections: however the goroutines interleave, every one of
    them holds the connections its program goes on to release, the count of a
    pool is the number of its connections held plus the number of signalled
    goroutines, it never exceeds the capacity, goroutines queue only while the
    pool is full, and a connection is in one pool or in the hands of one
    goroutine. *)
Lemma share_connections sys : swReach callback (startSystem n vars pools ps) sys ->
  exists hss, Forall2 tinv sys.2 hss
    /\ (forall chunked, let p := getPool chunked (swPools sys.1) in
         poolInUse p = zlen (heldIn chunked (concat hss)) + zlen (signaled p) /\ poolInUse p <= poolCapacity p
         /\ (waiters p <> [] -> poolInUse p = poolCapacity p))
    /\ NoDup (tcpConn <$> idleIn true (swPools sys.1) ++ idleIn false (swPools sys.1) ++ (concat hss).*2).
Proof.
  intros Hr. destruct (reached sys Hr) as [hss [Ht Hi]].
  exists hss. split_and!; [done| |by eapply inv_distinct]. intros chunked p.
  destruct (inv_pool chunked _ _ _ _ _ Hi) as (H1 & H2 & H3 & H4 & H5). by split_and!.
Qed.

(** No lost waiter: a goroutine that waits for a connection was signalled
    and takes one as soon as the mutex is free, or it is in the queue of a pool
    whose slots are all taken, each by a goroutine that holds a connection it
    goes on to release or by one that was signalled. *)
Lemma no_lost_waiter sys i sv chunked cv k : swReach callback (startSystem n vars pools ps) sys ->
  sys.2 !! i = Some (mkGoroutine sv (Waiting chunked cv k)) ->
  let p := getPool chunked (swPools sys.1) in
  cv ∈ signaled p
  \/ cv ∈ waiters p /\ exists hss, Forall2 tinv sys.2 hss
      /\ zlen (heldIn chunked (concat hss)) + zlen (signaled p) = poolCapacity p /\ 0 < poolCapacity p.
Proof.
  intros Hr Hi p. destruct (reached sys Hr) as [hss [Ht Hinv]].
  destruct (inv_pool chunked _ _ _ _ _ Hinv) as (H1 & H2 & H3 & H4 & H5). fold p in H1, H2, H3, H4, H5.
  assert (Hin : cv ∈ waiters p ++ signaled p).
  { rewrite <- H5. destruct (concat_insert (waitsIn chunked) sys.2 i _ (mkGoroutine sv (Waiting chunked cv k)) Hi) as (R & HR & _).
    rewrite HR. unfold waitsIn. simpl. rewrite Bool.eqb_reflx. set_solver. }
  apply elem_of_app in Hin as [Hin|Hin]; [right|by left]. split; [done|]. exists hss. split_and!; [done| |done].
  rewrite <- H1. apply H4. intros Hz. rewrite Hz in Hin. by apply elem_of_nil in Hin.
Qed.

Definition finished (t : goroutine (N := N)) : Prop := doing t = Running (SwRet tt) \/ doing t = Selecting.

(** Nothing leaks: a goroutine that gives a connection back never panics in
    doing so, and once all goroutines have returned, whatever their exchanges
    returned, both pools count no connection and have no waiter. *)
Lemma return_to_idle sys : swReach callback (startSystem n vars pools ps) sys ->
  (forall i sv chunked c keepAlive k, sys.2 !! i = Some (mkGoroutine sv (Running (SwRelease chunked c keepAlive k))) ->
     mutexFree chunked sys.1 = true -> (enterRelease chunked c keepAlive sys.1).2 <> ReleasePanic)
  /\ (Forall finished sys.2 -> forall chunked,
      poolInUse (getPool chunked (swPools sys.1)) = 0 /\ waiters (getPool chunked (swPools sys.1)) = []).
Proof.
  intros Hr. destruct (reached sys Hr) as [hss [Ht Hinv]]. split.
  - intros i sv b c ka k Hi Hm. destruct (enterRelease b c ka sys.1) as [s' r] eqn:E.
    destruct (Forall2_lookup_l _ _ _ _ _ Ht Hi) as (hs & Eh & h & Hp & _).
    destruct (concat_insert (fun x => x) hss i hs hs Eh) as (R & HR & _). rewrite map_id in HR.
    eapply (release_ok _ _ _ _ _ _ _ (h ++ R)) in E; [|exact Hinv|by rewrite HR, Hp|done]. by destruct r.
  - intros Hf b. destruct (inv_pool b _ _ _ _ _ Hinv) as (H1 & H2 & H3 & H4 & H5).
    assert (Hz : concat hss = [] /\ concat (map (waitsIn b) sys.2) = []).
    { clear -Ht Hf. induction Ht as [|t hs ts hss Hth _ IH]; [done|]. apply Forall_cons in Hf as [Hft Hf].
      destruct (IH Hf) as [Hc Hw]. simpl. rewrite Hc, Hw. unfold tinv, waitsIn in *. destruct Hft as [Hd|Hd]; rewrite Hd in *.
      - destruct Hth as (h & Hp & ->). symmetry in Hp. by apply Permutation_nil in Hp as ->.
      - by destruct Hth as [-> _]. }
    destruct Hz as [Hz1 Hz2]. rewrite Hz1 in H1. rewrite Hz2 in H5. apply Permutation_nil in H5.
    apply app_eq_nil in H5 as [H6 H7]. rewrite H1, H7. done.
Qed.
End Reachable.
End Clients.
