(* ===== verification/SwiftRequests.v ===== *)
(** Package [swiftclient]: retries, and the requests on accounts, containers
    and objects (retry.go, account.go, container.go, object.go).

    The values a function returns next to an error are dropped, except by
    [objectCopy].  A header map that a POST or PUT is given is not nil (the
    assignment to it would panic); the assignment is not seen by the caller.
    Logging and the operation counters of package [stats] are left out. *)

From S2P Require Import Prelude Blunder Utils GoStrings SwiftHttp SwiftPool.
Open Scope list_scope.
Open Scope sw_scope.

(** ** Retries *)

(** [expBackoff] is the multiplication of a delay by the factor. *)
Record RetryCtrl := mkRetryCtrl {
  attemptMax : Z;
  attemptCnt : Z;
  delay : Z;
  expBackoff : Z -> Z;
  firstReq : Z;
  lastReq : Z
}.

#[export] Instance eta_retryCtrl : Eta RetryCtrl := fun r =>
  mkRetryCtrl (attemptMax r) (attemptCnt r) (delay r) (expBackoff r) (firstReq r) (lastReq r).

Section Retry.
Context {N : Type} `{TCP N}.

Definition readClock : swProg N Z := SwNet (fun n => (n, Ret (clockNow n))) (fun r => match r with inr t => SwRet t | inl _ => SwPanic end).

Definition sleep (d : Z) : swProg N unit := SwNet (fun n => (sleepFor d n, Ret tt)) (fun _ => SwRet tt).

Definition NewRetryCtrl (maxAttempt delay : Z) (expBackoff : Z -> Z) : swProg N RetryCtrl :=
  now <+ readClock ;;
  SwRet (mkRetryCtrl maxAttempt 0 delay expBackoff now now).

Definition RetryWait (this : RetryCtrl) : swProg N RetryCtrl :=
  now <+ readClock ;;
  let elapsed := now - lastReq this in
  (if delay this >? elapsed then sleep (delay this - elapsed) else SwRet tt) ;;+
  now <+ readClock ;;
  SwRet (this <| delay := expBackoff this (delay this) |> <| lastReq := now |>).

(** A request tells whether its error can be retried; [T] is what the closure
    changes from one attempt to the next. *)
Section Request.
Context {T A : Type} (doRequest : T -> swProg N (T * (bool * (error + A)))).

Fixpoint retryLoop (fuel : nat) (this : RetryCtrl) (retriable : bool) (lastErr : error) (t : T) : swProg N (T * (error + A)) :=
  if retriable && (attemptCnt this <=? attemptMax this) then
    match fuel with
    | O => SwPanic
    | S fuel' =>
        this <+ RetryWait this ;;
        let this := this <| attemptCnt := attemptCnt this + 1 |> in
        '(t, (retriable, result)) <+ doRequest t ;;
        match result with
        | inr a => SwRet (t, inr a)
        | inl lastErr => retryLoop fuel' this retriable lastErr t
        end
    end
  else SwRet (t, inl lastErr).

Definition RequestWithRetry (this : RetryCtrl) (t : T) : swProg N (T * (error + A)) :=
  let this := this <| attemptCnt := 1 |> in
  '(t, (retriable, result)) <+ doRequest t ;;
  match result with
  | inr a => SwRet (t, inr a)
  | inl lastErr => retryLoop (S (Z.to_nat (attemptMax this))) this retriable lastErr t
  end.
End Request.

(** The closure of most requests: every error can be retried. *)
Definition request {A} (op : SW N A) (_ : unit) : swProg N (unit * (bool * (error + A))) :=
  r <+ op ;; SwRet (tt, (true, r)).

Definition withRetry {A} (op : SW N A) : SW N A :=
  g <+ swvars (fun g => (g, g)) ;;
  retryObj <+ NewRetryCtrl (retryLimit g) (retryDelay g) (retryExpBackoff g) ;;
  '(_, r) <+ RequestWithRetry (request op) retryObj tt ;;
  SwRet r.

Definition withRetryObject {A} (op : SW N A) : SW N A :=
  g <+ swvars (fun g => (g, g)) ;;
  retryObj <+ NewRetryCtrl (retryLimitObject g) (retryDelayObject g) (retryExpBackoffObject g) ;;
  '(_, r) <+ RequestWithRetry (request op) retryObj tt ;;
  SwRet r.
End Retry.

(** ** Requests *)

Section Requests.
Context {N : Type} `{TCP N}.

(** An exchange on a connection that is closed when the exchange fails. *)
Definition onConnection {X} (chunked : bool) (connection : connectionStruct) (fsErr : Z) (f : St N error X) : SW N X :=
  r <+ exchange f ;;
  match r with
  | inl e => release chunked connection false ;;+ swerr (AddError (Some e) fsErr)
  | inr x => swret x
  end.

Definition statusError (fsErr httpStatus : Z) : error := AddHTTPCode (Some (NewError fsErr)) httpStatus.

(** A bad status closes the connection. *)
Definition checkStatus (chunked : bool) (connection : connectionStruct) (httpStatus : Z) : SW N unit :=
  let '(isError, fsErr) := httpStatusIsError httpStatus in
  if isError then release chunked connection false ;;+ swerr (statusError fsErr httpStatus) else swret tt.

(** How every request on the non-chunked pool begins: up to a good status. *)
Definition beginRequest (method path : string) (requestHeaders : HttpHeaders) (fsErr : Z) : SW N (connectionStruct * HttpHeaders) :=
  connection <+ acquireNonChunkedConnection ;;
  onConnection false connection fsErr (writeHTTPRequestLineAndHeaders (tcpConn connection) method path requestHeaders) ;;!
  '(httpStatus, headers) <! onConnection false connection fsErr (readHTTPStatusAndHeaders (tcpConn connection)) ;;
  checkStatus false connection httpStatus ;;!
  swret (connection, headers).

(** How it ends. *)
Definition endRequest {A} (connection : connectionStruct) (headers : HttpHeaders) (a : A) : SW N A :=
  releaseNonChunkedConnection connection (parseConnection headers) ;;+ swret a.

Definition accountPath (accountName : string) : string := ("/" ++ swiftVersion ++ "/" ++ accountName)%string.
Definition containerPath (accountName containerName : string) : string := (accountPath accountName ++ "/" ++ containerName)%string.
Definition objectPath (accountName containerName objectName : string) : string :=
  (containerPath accountName containerName ++ "/" ++ objectName)%string.

Definition noContent (requestHeaders : HttpHeaders) : HttpHeaders := <["Content-Length" := ["0"]]> requestHeaders.

Definition rangeHeader (range : string) : HttpHeaders := {[ "Range" := [range] ]}.

(** *** Accounts *)

Definition accountDelete (accountName : string) : SW N unit :=
  '(connection, headers) <! beginRequest "DELETE" (accountPath accountName) ∅ BadHTTPDeleteError ;;
  endRequest connection headers tt.

Definition accountGet (accountName : string) : SW N (HttpHeaders * list string) :=
  '(connection, headers) <! beginRequest "GET" (accountPath accountName) ∅ BadHTTPGetError ;;
  containerList <! onConnection false connection BadHTTPGetError (readHTTPPayloadLines (tcpConn connection) headers) ;;
  endRequest connection headers (headers, containerList).

Definition accountHead (accountName : string) : SW N HttpHeaders :=
  '(connection, headers) <! beginRequest "HEAD" (accountPath accountName) ∅ BadHTTPHeadError ;;
  endRequest connection headers headers.

Definition accountPost (accountName : string) (requestHeaders : HttpHeaders) : SW N unit :=
  '(connection, headers) <! beginRequest "POST" (accountPath accountName) (noContent requestHeaders) BadHTTPPutError ;;
  onConnection false connection BadHTTPPutError (skipPayload (tcpConn connection) headers) ;;!
  endRequest connection headers tt.

Definition accountPut (accountName : string) (requestHeaders : HttpHeaders) : SW N unit :=
  '(connection, headers) <! beginRequest "PUT" (accountPath accountName) (noContent requestHeaders) BadHTTPPutError ;;
  onConnection false connection BadHTTPPutError (skipPayload (tcpConn connection) headers) ;;!
  endRequest connection headers tt.

Definition accountDeleteWithRetry (accountName : string) : SW N unit := withRetry (accountDelete accountName).
Definition accountGetWithRetry (accountName : string) : SW N (HttpHeaders * list string) := withRetry (accountGet accountName).
Definition accountHeadWithRetry (accountName : string) : SW N HttpHeaders := withRetry (accountHead accountName).
Definition accountPostWithRetry (accountName : string) (requestHeaders : HttpHeaders) : SW N unit :=
  withRetry (accountPost accountName requestHeaders).
Definition accountPutWithRetry (accountName : string) (requestHeaders : HttpHeaders) : SW N unit :=
  withRetry (accountPut accountName requestHeaders).

(** *** Containers *)

Definition containerDelete (accountName containerName : string) : SW N unit :=
  '(connection, headers) <! beginRequest "DELETE" (containerPath accountName containerName) ∅ BadHTTPDeleteError ;;
  endRequest connection headers tt.

Definition containerGet (accountName containerName : string) : SW N (HttpHeaders * list string) :=
  '(connection, headers) <! beginRequest "GET" (containerPath accountName containerName) ∅ BadHTTPGetError ;;
  objectList <! onConnection false connection BadHTTPGetError (readHTTPPayloadLines (tcpConn connection) headers) ;;
  endRequest connection headers (headers, objectList).

Definition containerHead (accountName containerName : string) : SW N HttpHeaders :=
  '(connection, headers) <! beginRequest "HEAD" (containerPath accountName containerName) ∅ BadHTTPHeadError ;;
  endRequest connection headers headers.

Definition containerPost (accountName containerName : string) (requestHeaders : HttpHeaders) : SW N unit :=
  '(connection, headers) <! beginRequest "POST" (containerPath accountName containerName) (noContent requestHeaders) BadHTTPPutError ;;
  onConnection false connection BadHTTPPutError (skipPayload (tcpConn connection) headers) ;;!
  endRequest connection headers tt.

Definition containerPut (accountName containerName : string) (requestHeaders : HttpHeaders) : SW N unit :=
  '(connection, headers) <! beginRequest "PUT" (containerPath accountName containerName) (noContent requestHeaders) BadHTTPPutError ;;
  onConnection false connection BadHTTPPutError (skipPayload (tcpConn connection) headers) ;;!
  endRequest connection headers tt.

Definition containerDeleteWithRetry (accountName containerName : string) : SW N unit := withRetry (containerDelete accountName containerName).
Definition containerGetWithRetry (accountName containerName : string) : SW N (HttpHeaders * list string) :=
  withRetry (containerGet accountName containerName).
Definition containerHeadWithRetry (accountName containerName : string) : SW N HttpHeaders := withRetry (containerHead accountName containerName).
Definition containerPostWithRetry (accountName containerName : string) (requestHeaders : HttpHeaders) : SW N unit :=
  withRetry (containerPost accountName containerName requestHeaders).
Definition containerPutWithRetry (accountName containerName : string) (requestHeaders : HttpHeaders) : SW N unit :=
  withRetry (containerPut accountName containerName requestHeaders).

(** *** Objects *)

Definition objectContentLength (accountName containerName objectName : string) : SW N Z :=
  '(connection, headers) <! beginRequest "HEAD" (objectPath accountName containerName objectName) ∅ BadHTTPHeadError ;;
  contentLength <! onConnection false connection BadHTTPHeadError (slift (parseContentLength headers)) ;;
  endRequest connection headers contentLength.

Definition objectDeleteSync (accountName containerName objectName : string) : SW N unit :=
  '(connection, headers) <! beginRequest "DELETE" (objectPath accountName containerName objectName) ∅ BadHTTPDeleteError ;;
  endRequest connection headers tt.

Definition objectGet (accountName containerName objectName : string) (offset length : Z) : SW N bytes :=
  let headers := rangeHeader ("bytes=" ++ FormatUint offset ++ "-" ++ FormatUint (offset +u length -u 1)) in
  '(connection, headers) <! beginRequest "GET" (objectPath accountName containerName objectName) headers BadHTTPGetError ;;
  buf <! onConnection false connection BadHTTPGetError (readPayload (tcpConn connection) headers) ;;
  endRequest connection headers buf.

Definition objectHead (accountName containerName objectName : string) : SW N HttpHeaders :=
  '(connection, headers) <! beginRequest "HEAD" (objectPath accountName containerName objectName) ∅ BadHTTPHeadError ;;
  endRequest connection headers headers.

Definition objectLoad (accountName containerName objectName : string) : SW N bytes :=
  '(connection, headers) <! beginRequest "GET" (objectPath accountName containerName objectName) ∅ BadHTTPGetError ;;
  buf <! onConnection false connection BadHTTPGetError (readPayload (tcpConn connection) headers) ;;
  endRequest connection headers buf.

Definition objectTail (accountName containerName objectName : string) (length : Z) : SW N bytes :=
  let headers := rangeHeader ("bytes=-" ++ FormatUint length) in
  '(connection, headers) <! beginRequest "GET" (objectPath accountName containerName objectName) headers BadHTTPGetError ;;
  buf <! onConnection false connection BadHTTPGetError (readPayload (tcpConn connection) headers) ;;
  endRequest connection headers buf.

Definition objectContentLengthWithRetry (accountName containerName objectName : string) : SW N Z :=
  withRetryObject (objectContentLength accountName containerName objectName).
Definition objectDeleteSyncWithRetry (accountName containerName objectName : string) : SW N unit :=
  withRetryObject (objectDeleteSync accountName containerName objectName).
Definition objectGetWithRetry (accountName containerName objectName : string) (offset length : Z) : SW N bytes :=
  withRetryObject (objectGet accountName containerName objectName offset length).
Definition objectHeadWithRetry (accountName containerName objectName : string) : SW N HttpHeaders :=
  withRetryObject (objectHead accountName containerName objectName).
Definition objectLoadWithRetry (accountName containerName objectName : string) : SW N bytes :=
  withRetryObject (objectLoad accountName containerName objectName).
Definition objectTailWithRetry (accountName containerName objectName : string) (length : Z) : SW N bytes :=
  withRetryObject (objectTail accountName containerName objectName length).
End Requests.
