(* ===== verification/SwiftChunkedPut.v ===== *)
(** Package [swiftclient]: Chunked PUT contexts and object copies (object.go).

    A context is protected by its mutex and has one owner at a time: its methods
    take the struct and return it updated.  [bytesPutTree] is a [sortedmap]. *)

From S2P Require Import Prelude SortedMap Blunder Utils GoStrings SwiftHttp SwiftPool SwiftRequests.
Open Scope list_scope.
Open Scope sw_scope.

Record chunkedPutContextStruct := mkContext {
  ctx_accountName : string;
  ctx_containerName : string;
  ctx_objectName : string;
  active : bool;
  ctx_err : option error;
  fatal : bool;
  connection : option connectionStruct;
  bytesPut : Z;
  bytesPutTree : list (Z * bytes)
}.

#[export] Instance eta_context : Eta chunkedPutContextStruct := fun x =>
  mkContext (ctx_accountName x) (ctx_containerName x) (ctx_objectName x) (active x) (ctx_err x) (fatal x) (connection x)
    (bytesPut x) (bytesPutTree x).

(** [buf[low:high]], which panics out of range. *)
Definition slice (buf : bytes) (low high : Z) : res bytes :=
  if (low <=? high) && (high <=? zlen buf) then Ret (take (Z.to_nat (high - low)) (drop (Z.to_nat low) buf)) else Panic.

Section ChunkedPut.
Context {N : Type} `{TCP N}.

Definition chunkedHeaders : HttpHeaders := {[ "Transfer-Encoding" := ["chunked"] ]}.

(** The error injected every [rate]-th time, when testing. *)
Definition chaos (rate count : Z) : bool := (rate >? 0) && (count mod rate =? 0).

Definition simulated {A} : St N error A := slift (Err plain).

Definition objectFetchChunkedPutContext (accountName containerName objectName : string) : SW N chunkedPutContextStruct :=
  simulate <+ swvars (fun g =>
    let g := g <| objectFetchChunkedPutContextCnt := objectFetchChunkedPutContextCnt g +u 1 |> in
    (g, chaos (chaosFetchChunkedPutFailureRate g) (objectFetchChunkedPutContextCnt g))) ;;
  connection <+ acquireChunkedConnection ;;
  onConnection true connection BadHTTPPutError
    (if simulate then simulated
     else writeHTTPRequestLineAndHeaders (tcpConn connection) "PUT" (objectPath accountName containerName objectName) chunkedHeaders) ;;!
  swret (mkContext accountName containerName objectName true None false (Some connection) 0 []).

Definition objectFetchChunkedPutContextWithRetry (accountName containerName objectName : string) : SW N chunkedPutContextStruct :=
  withRetryObject (objectFetchChunkedPutContext accountName containerName objectName).

Definition BytesPut (ctx : chunkedPutContextStruct) : Z := bytesPut ctx.

(** The methods that return an error return the context with it. *)
Abbreviation METHOD := (swProg N (chunkedPutContextStruct * option error)).

(** A logic error: the connection is given up, and no retry can help. *)
Definition fatalError (ctx : chunkedPutContextStruct) : METHOD :=
  let e := NewError BadHTTPPutError in
  match connection ctx with
  | Some c => releaseChunkedConnection c false ;;+
              SwRet (ctx <| ctx_err := Some e |> <| fatal := true |> <| connection := None |>, Some e)
  | None => SwPanic
  end.

Definition SendChunk (ctx : chunkedPutContextStruct) (buf : bytes) : METHOD :=
  simulate <+ swvars (fun g =>
    let g := g <| sendChunkCnt := sendChunkCnt g +u 1 |> in
    (g, chaos (chaosSendChunkFailureRate g) (sendChunkCnt g))) ;;
  if negb (active ctx) then
    let e := NewError BadHTTPPutError in
    SwRet (ctx <| ctx_err := Some e |> <| fatal := true |> <| connection := None |>, Some e)
  else if 0 =? zlen buf then fatalError ctx
  else match Put (bytesPutTree ctx) (bytesPut ctx) buf with
       | None => fatalError ctx
       | Some tree =>
           let ctx := ctx <| bytesPutTree := tree |> <| bytesPut := bytesPut ctx +u zlen buf |> in
           match ctx_err ctx with
           | Some _ => SwRet (ctx, None)
           | None =>
               match connection ctx with
               | None => SwPanic
               | Some c =>
                   r <+ exchange (if simulate then simulated else writeHTTPPutChunk (tcpConn c) buf) ;;
                   match r with
                   | inl e => SwRet (ctx <| ctx_err := Some (AddError (Some e) BadHTTPPutError) |>, None)
                   | inr _ => SwRet (ctx, None)
                   end
               end
           end
       end.

(** [Read]: the part of the chunk the offset is in, then of those after it. *)
Fixpoint readMore (fuel : nat) (tree : list (Z * bytes)) (chunkIndex readLimitOffset length : Z) (buf : bytes) : res bytes :=
  if zlen buf <? length then
    match fuel with
    | O => Panic
    | S fuel' =>
        match GetByIndex tree (chunkIndex + 1) with
        | None => Err (NewError BadHTTPGetError)
        | Some (chunkOffset, chunkBuf) =>
            part <- (if readLimitOffset -u chunkOffset <? zlen chunkBuf
                     then slice chunkBuf 0 (readLimitOffset -u chunkOffset) else Ret chunkBuf) ;;
            readMore fuel' tree (chunkIndex + 1) readLimitOffset length (buf ++ part)
        end
    end
  else Ret buf.

Definition CtxRead (ctx : chunkedPutContextStruct) (offset length : Z) : res bytes :=
  let tree := bytesPutTree ctx in
  let readLimitOffset := offset +u length in
  if readLimitOffset >? bytesPut ctx then Err (NewError BadHTTPGetError)
  else
    let '(chunkIndex, found) := BisectLeft tree offset in
    if negb found && (0 >? chunkIndex) then Err (NewError BadHTTPGetError)
    else match GetByIndex tree chunkIndex with
         | None => Err (NewError BadHTTPGetError)
         | Some (chunkOffset, chunkBuf) =>
             if readLimitOffset -u chunkOffset <=? zlen chunkBuf
             then slice chunkBuf (offset -u chunkOffset) (readLimitOffset -u chunkOffset)
             else buf <- slice chunkBuf (offset -u chunkOffset) (zlen chunkBuf) ;;
                  readMore (List.length tree) tree chunkIndex readLimitOffset length buf
         end.

(** The chunks of the tree, in order, on a new connection. *)
Fixpoint resendChunks (simulate : bool) (c : connectionStruct) (tree : list (Z * bytes)) : SW N unit :=
  match tree with
  | [] => swret tt
  | (_, chunkBuf) :: rest =>
      r <+ exchange (if simulate then simulated else writeHTTPPutChunk (tcpConn c) chunkBuf) ;;
      match r with
      | inl _ => swerr (NewError BadHTTPPutError)
      | inr _ => resendChunks simulate c rest
      end
  end.

Definition retry (ctx : chunkedPutContextStruct) : METHOD :=
  simulate <+ swvars (fun g =>
    let g := g <| sendChunkRetryCnt := sendChunkRetryCnt g +u 1 |> in
    (g, chaos (chaosSendChunkFailureRate g) (sendChunkRetryCnt g))) ;;
  if active ctx then SwRet (ctx, Some (NewError BadHTTPPutError))
  else
    c <+ acquireChunkedConnection ;;
    let ctx := ctx <| ctx_err := None |> <| connection := Some c |> <| active := true |> in
    r <+ exchange (writeHTTPRequestLineAndHeaders (tcpConn c) "PUT"
           (objectPath (ctx_accountName ctx) (ctx_containerName ctx) (ctx_objectName ctx)) chunkedHeaders) ;;
    match r with
    | inl e => SwRet (ctx, Some (AddError (Some e) BadHTTPPutError))
    | inr _ =>
        r <+ resendChunks simulate c (bytesPutTree ctx) ;;
        match r with
        | inl e => SwRet (ctx, Some e)
        | inr _ => SwRet (ctx, None)
        end
    end.

Definition closeHelper (ctx : chunkedPutContextStruct) : METHOD :=
  if negb (active ctx) then SwRet (ctx, Some (NewError BadHTTPPutError))
  else
    let ctx := ctx <| active := false |> in
    match ctx_err ctx, connection ctx with
    | Some e, Some c => releaseChunkedConnection c false ;;+ SwRet (ctx <| connection := None |>, Some e)
    | Some e, None => SwRet (ctx, Some e)
    | None, None => SwPanic
    | None, Some c =>
        let gone := ctx <| connection := None |> in
        r <+ (onConnection true c BadHTTPPutError (writeHTTPPutChunk (tcpConn c) []) ;;!
              '(httpStatus, headers) <! onConnection true c BadHTTPPutError (readHTTPStatusAndHeaders (tcpConn c)) ;;
              checkStatus true c httpStatus ;;!
              releaseChunkedConnection c (parseConnection headers) ;;+ swret tt) ;;
        match r with
        | inl e => SwRet (gone, Some e)
        | inr _ => SwRet (gone, None)
        end
    end.

(** One attempt of the closure in [Close]. *)
Definition closeRequest (ctx : chunkedPutContextStruct) : swProg N (chunkedPutContextStruct * (bool * (error + unit))) :=
  '(ctx, err) <+ retry ctx ;;
  let ctx := match err with Some _ => ctx <| ctx_err := err |> | None => ctx end in
  '(ctx, err) <+ closeHelper ctx ;;
  SwRet (ctx, (true, match err with Some e => inl e | None => inr tt end)).

Definition Close (ctx : chunkedPutContextStruct) : METHOD :=
  '(ctx, err) <+ closeHelper ctx ;;
  match err with
  | None => SwRet (ctx, None)
  | Some _ =>
      if fatal ctx then SwRet (ctx, ctx_err ctx)
      else
        g <+ swvars (fun g => (g, g)) ;;
        retryObj <+ NewRetryCtrl (retryLimitObject g) (retryDelayObject g) (retryExpBackoffObject g) ;;
        '(ctx, r) <+ RequestWithRetry closeRequest retryObj ctx ;;
        SwRet (ctx, match r with inl e => Some e | inr _ => None end)
  end.

(** ** Copies *)

(** [objectCopy] drops the error of a read: [leftover] is what a failed read leaves
    in its buffer, by position. *)
Section Copy.
Context (srcAccountName srcContainerName srcObjectName : string) (BytesRemaining : Z -> swProg N Z) (leftover : Z -> bytes).

Definition closeCopy (ctx : chunkedPutContextStruct) : SW N unit :=
  '(_, err) <+ Close ctx ;; match err with Some e => swerr e | None => swret tt end.

Fixpoint copyLoop (fuel : nat) (srcObjectSize srcObjectPosition : Z) (ctx : chunkedPutContextStruct) : SW N unit :=
  if srcObjectPosition <? srcObjectSize then
    match fuel with
    | O => SwPanic
    | S fuel' =>
        chunkSize <+ BytesRemaining (srcObjectSize -u srcObjectPosition) ;;
        if 0 =? chunkSize then closeCopy ctx
        else
          let past := srcObjectPosition +u chunkSize >? srcObjectSize in
          let chunkSize := if past then srcObjectSize -u srcObjectPosition else chunkSize in
          r <+ (if past then objectTailWithRetry srcAccountName srcContainerName srcObjectName chunkSize
                else objectGetWithRetry srcAccountName srcContainerName srcObjectName srcObjectPosition chunkSize) ;;
          let chunk := match r with inl _ => leftover srcObjectPosition | inr buf => buf end in
          '(ctx, err) <+ SendChunk ctx chunk ;;
          match err with
          | Some e => swerr e
          | None => copyLoop fuel' srcObjectSize (srcObjectPosition +u chunkSize) ctx
          end
    end
  else closeCopy ctx.

Definition objectCopy (dstAccountName dstContainerName dstObjectName : string) : SW N unit :=
  srcObjectSize <! objectContentLengthWithRetry srcAccountName srcContainerName srcObjectName ;;
  dstChunkedPutContext <! objectFetchChunkedPutContextWithRetry dstAccountName dstContainerName dstObjectName ;;
  copyLoop (Z.to_nat srcObjectSize) srcObjectSize 0 dstChunkedPutContext.
End Copy.

(** A whole PUT: a context, its chunks, and its end, as the callers of the
    package do it; a chunk that is refused ends it. *)
Fixpoint sendAll (ctx : chunkedPutContextStruct) (chunks : list bytes) : METHOD :=
  match chunks with
  | [] => SwRet (ctx, None)
  | buf :: rest =>
      '(ctx, err) <+ SendChunk ctx buf ;;
      match err with
      | Some e => SwRet (ctx, Some e)
      | None => sendAll ctx rest
      end
  end.

Definition putChunks (accountName containerName objectName : string) (chunks : list bytes) : SW N unit :=
  ctx <! objectFetchChunkedPutContextWithRetry accountName containerName objectName ;;
  '(ctx, err) <+ sendAll ctx chunks ;;
  match err with
  | Some e => swerr e
  | None => closeCopy ctx
  end.
End ChunkedPut.
