(* ===== verification/SwiftRequestFacts.v ===== *)
(** Requests give back their connections, so any number of them share the
    pools safely. *)

From S2P Require Import Prelude SortedMap Blunder Utils GoStrings SwiftHttp SwiftPool SwiftPoolFacts SwiftClients.
From S2P Require Import SwiftRequests SwiftChunkedPut.
Open Scope list_scope.
Open Scope sw_scope.

Section Discipline.
Context {N : Type} `{TCP N}.

(** ** Exchanges on a connection that is held *)

Lemma disc_bind_ret {A B} (Q : B -> list heldConn -> Prop) (m : swProg N A) (k : A -> swProg N B) held (P : A -> list heldConn -> Prop) :
  sdisc P held m -> (forall a h, P a h -> sdisc Q h (k a)) -> sdisc Q held (swbind m k).
Proof. intros Hm Hk. apply sdisc_bind. by eapply sdisc_mono. Qed.

(** On success the connection is still held, on failure it is not. *)
Definition keepsConn {A} (b : bool) (c : connectionStruct) (held : list heldConn) (r : error + A) (h : list heldConn) : Prop :=
  match r with inl _ => h = held | inr _ => h = (b, c) :: held end.

Lemma disc_release b c ka held (Q : unit -> list heldConn -> Prop) : Q tt held -> sdisc Q ((b, c) :: held) (release (N := N) b c ka).
Proof. intros HQ. exists held. split; [done|]. by exists held. Qed.

Lemma onConnection_keeps {X} b c e (f : St N error X) held : sdisc (keepsConn b c held) ((b, c) :: held) (onConnection b c e f).
Proof. intros [er|x]; simpl; [|by exists ((b, c) :: held)]. exists held. split; [done|]. by exists held. Qed.

Lemma checkStatus_keeps b c v held : sdisc (keepsConn b c held) ((b, c) :: held) (checkStatus (N := N) b c v).
Proof.
  unfold checkStatus. destruct (httpStatusIsError v) as [[] fs]; simpl; [|by exists ((b, c) :: held)].
  exists held. split; [done|]. by exists held.
Qed.

Lemma keeps_then {X A} b c (m : SW N X) (k : X -> SW N A) held (Q : error + A -> list heldConn -> Prop) :
  sdisc (keepsConn b c held) ((b, c) :: held) m -> (forall e, Q (inl e) held) ->
  (forall x, sdisc Q ((b, c) :: held) (k x)) -> sdisc Q ((b, c) :: held) (swfbind m k).
Proof.
  intros Hm He Hk. eapply disc_bind_ret; [exact Hm|]. intros [e|x] h ->; [|apply Hk]. by exists held.
Qed.

Definition returnsAll {A} (held : list heldConn) (_ : A) (h : list heldConn) : Prop := h = held.

Lemma begin_then {A} method path hs e (k : connectionStruct * HttpHeaders -> SW N A) held :
  (forall c headers, sdisc (returnsAll held) ((false, c) :: held) (k (c, headers))) ->
  sdisc (returnsAll held) held (swfbind (beginRequest method path hs e) k).
Proof.
  intros Hk. unfold swfbind at 1. unfold beginRequest. apply sdisc_bind. intros c.
  eapply sdisc_mono; [|apply (keeps_then false c _ _ held (fun r h => match r with inl _ => h = held | inr ch => ch.1 = c /\ h = (false, c) :: held end))].
  - intros [er|[c' headers]] h; [intros ->; by exists held|]. simpl. intros [-> ->]. apply Hk.
  - apply onConnection_keeps.
  - done.
  - intros _. eapply keeps_then; [apply onConnection_keeps|done|]. intros [v headers].
    eapply keeps_then; [apply checkStatus_keeps|done|]. intros _. by exists ((false, c) :: held).
Qed.

Lemma end_returns {A} c headers (a : A) held : sdisc (returnsAll held) ((false, c) :: held) (endRequest (N := N) c headers a).
Proof. unfold endRequest. apply sdisc_bind. apply disc_release. by exists held. Qed.

Lemma exchange_then {X A} c e (f : St N error X) (k : X -> SW N A) held :
  (forall x, sdisc (returnsAll held) ((false, c) :: held) (k x)) ->
  sdisc (returnsAll held) ((false, c) :: held) (swfbind (onConnection false c e f) k).
Proof. intros Hk. eapply keeps_then; [apply onConnection_keeps|done|exact Hk]. Qed.

(** ** Retries *)

Lemma quiet_readClock : quiet (readClock (N := N)).
Proof. intros held [e|t]; simpl; [done|]. by exists held. Qed.

Lemma quiet_sleep d : quiet (sleep (N := N) d).
Proof. intros held r. by exists held. Qed.

Lemma quiet_RetryWait this : quiet (RetryWait (N := N) this).
Proof.
  apply quiet_bind; [apply quiet_readClock|]. intros now. apply quiet_bind; [destruct (_ >? _); [apply quiet_sleep|apply quiet_ret]|].
  intros _. apply quiet_bind; [apply quiet_readClock|]. intros t. apply quiet_ret.
Qed.

Section RetryDiscipline.
Context {T A : Type} (doRequest : T -> swProg N (T * (bool * (error + A)))) (P : T -> Prop) (held : list heldConn).
Context (Hreq : forall t, P t -> sdisc (fun r h => h = held /\ P r.1) held (doRequest t)).

Lemma disc_retryLoop fuel : forall this retriable e t, P t -> sdisc (fun r h => h = held /\ P r.1) held (retryLoop doRequest fuel this retriable e t).
Proof using Hreq.
  induction fuel as [|fuel IH]; intros this retriable e t Ht; cbn [retryLoop]; (destruct (_ && _); [|by exists held]); [done|].
  apply quiet_then; [apply quiet_RetryWait|]. intros this'. eapply disc_bind_ret; [by apply Hreq|].
  intros [t' [rt [er|a]]] h [-> Ht']; [by apply IH|]. by exists held.
Qed.

Lemma disc_RequestWithRetry this t : P t -> sdisc (fun r h => h = held /\ P r.1) held (RequestWithRetry doRequest this t).
Proof using Hreq.
  intros Ht. unfold RequestWithRetry. eapply disc_bind_ret; [by apply Hreq|].
  intros [t' [rt [er|a]]] h [-> Ht']; [by apply disc_retryLoop|]. by exists held.
Qed.
End RetryDiscipline.

Lemma quiet_NewRetryCtrl m d b : quiet (NewRetryCtrl (N := N) m d b).
Proof. apply quiet_bind; [apply quiet_readClock|]. intros t. apply quiet_ret. Qed.

Lemma quiet_retries {A} (op : SW N A) m d b : quiet op ->
  quiet (retryObj <+ NewRetryCtrl m d b ;; '(_, r) <+ RequestWithRetry (request op) retryObj tt ;; SwRet r).
Proof.
  intros Hop. apply quiet_bind; [apply quiet_NewRetryCtrl|]. intros ctrl held.
  eapply disc_bind_ret; [apply (disc_RequestWithRetry _ (fun _ => True)); [|done]|].
  - intros [] _. unfold request. apply quiet_then; [done|]. intros r. by exists held.
  - intros [u r] h [-> _]. by exists held.
Qed.

Lemma quiet_withRetry {A} (op : SW N A) : quiet op -> quiet (withRetry op).
Proof. intros Hop. apply quiet_bind; [apply quiet_vars|]. intros g. by apply quiet_retries. Qed.

Lemma quiet_withRetryObject {A} (op : SW N A) : quiet op -> quiet (withRetryObject op).
Proof. intros Hop. apply quiet_bind; [apply quiet_vars|]. intros g. by apply quiet_retries. Qed.
End Discipline.

(** A request of the non-chunked pool, with or without retries. *)
Ltac quiet_request :=
  intros held; apply begin_then; intros ? ?;
  repeat (apply exchange_then; intros ?); apply end_returns.

Section Requests.
Context {N : Type} `{TCP N}.

Lemma quiet_accountDelete a : quiet (accountDelete (N := N) a).
Proof. quiet_request. Qed.
Lemma quiet_accountGet a : quiet (accountGet (N := N) a).
Proof. quiet_request. Qed.
Lemma quiet_accountHead a : quiet (accountHead (N := N) a).
Proof. quiet_request. Qed.
Lemma quiet_accountPost a hs : quiet (accountPost (N := N) a hs).
Proof. quiet_request. Qed.
Lemma quiet_accountPut a hs : quiet (accountPut (N := N) a hs).
Proof. quiet_request. Qed.
Lemma quiet_containerDelete a c : quiet (containerDelete (N := N) a c).
Proof. quiet_request. Qed.
Lemma quiet_containerGet a c : quiet (containerGet (N := N) a c).
Proof. quiet_request. Qed.
Lemma quiet_containerHead a c : quiet (containerHead (N := N) a c).
Proof. quiet_request. Qed.
Lemma quiet_containerPost a c hs : quiet (containerPost (N := N) a c hs).
Proof. quiet_request. Qed.
Lemma quiet_containerPut a c hs : quiet (containerPut (N := N) a c hs).
Proof. quiet_request. Qed.
Lemma quiet_objectContentLength a c o : quiet (objectContentLength (N := N) a c o).
Proof. quiet_request. Qed.
Lemma quiet_objectDeleteSync a c o : quiet (objectDeleteSync (N := N) a c o).
Proof. quiet_request. Qed.
Lemma quiet_objectGet a c o off len : quiet (objectGet (N := N) a c o off len).
Proof. quiet_request. Qed.
Lemma quiet_objectHead a c o : quiet (objectHead (N := N) a c o).
Proof. quiet_request. Qed.
Lemma quiet_objectLoad a c o : quiet (objectLoad (N := N) a c o).
Proof. quiet_request. Qed.
Lemma quiet_objectTail a c o len : quiet (objectTail (N := N) a c o len).
Proof. quiet_request. Qed.

(** ** Contexts

    A context that is not active has no connection; [ctxHeld] is what it
    holds. *)

Definition ctx_ok (ctx : chunkedPutContextStruct) : Prop := active ctx = false -> connection ctx = None.

Definition closed (ctx : chunkedPutContextStruct) : Prop := active ctx = false /\ connection ctx = None.

Definition ctxHeld (ctx : chunkedPutContextStruct) : list heldConn :=
  match connection ctx with Some c => [(true, c)] | None => [] end.

Lemma closed_ok ctx : closed ctx -> ctx_ok ctx.
Proof. by intros [_ Hc] _. Qed.

Lemma disc_fetch a c o held :
  sdisc (fun r h => match r with inl _ => h = held | inr ctx => ctx_ok ctx /\ h = ctxHeld ctx ++ held end) held
    (objectFetchChunkedPutContext (N := N) a c o).
Proof.
  intros simulate. unfold acquireChunkedConnection. intros cn.
  eapply keeps_then; [apply onConnection_keeps|done|]. intros _. eexists. split; [done|]. by split.
Qed.

Lemma disc_fatalError ctx held :
  sdisc (fun r h => (ctx_ok r.1 /\ connection r.1 = None) /\ h = held) (ctxHeld ctx ++ held) (fatalError (N := N) ctx).
Proof.
  unfold fatalError, ctxHeld. destruct (connection ctx) as [c|]; [|done]. apply sdisc_bind. apply disc_release.
  eexists. by split; [|split].
Qed.

(** A chunk that is refused leaves the context without its connection. *)
Lemma disc_SendChunk ctx buf held : ctx_ok ctx ->
  sdisc (fun r h => ctx_ok r.1 /\ (r.2 <> None -> connection r.1 = None) /\ h = ctxHeld r.1 ++ held)
    (ctxHeld ctx ++ held) (SendChunk (N := N) ctx buf).
Proof.
  intros Hok. unfold SendChunk. apply sdisc_bind. intros simulate. eexists. split; [done|].
  assert (Hfatal : sdisc (fun r h => ctx_ok r.1 /\ (r.2 <> None -> connection r.1 = None) /\ h = ctxHeld r.1 ++ held)
    (ctxHeld ctx ++ held) (fatalError (N := N) ctx)).
  { eapply sdisc_mono; [|apply disc_fatalError]. intros r h [[H1 H2] ->]. split_and!; [done|done|]. unfold ctxHeld. by rewrite H2. }
  destruct (active ctx) eqn:Ha; cbn [negb].
  2:{ unfold ctxHeld. rewrite (Hok Ha). eexists. split; [done|]. by split_and!. }
  destruct (0 =? zlen buf); [exact Hfatal|]. destruct (Put _ _ _) as [tree|]; [|exact Hfatal].
  set (ctx' := ctx <| bytesPutTree := tree |> <| bytesPut := bytesPut ctx +u zlen buf |>).
  assert (Hc : connection ctx' = connection ctx) by done.
  assert (Hok' : ctx_ok ctx') by (intros Hx; exact (Hok Hx)).
  assert (Hh : ctxHeld ctx' = ctxHeld ctx) by done.
  destruct (ctx_err ctx').
  { eexists. split; [done|]. by split_and!. }
  rewrite Hc. destruct (connection ctx) as [c|] eqn:Hcc; [|done].
  apply sdisc_bind. intros r. eexists. split; [done|]. destruct r as [e|u]; (eexists; split; [done|]); by split_and!.
Qed.

Lemma disc_closeHelper ctx held : ctx_ok ctx ->
  sdisc (fun r h => h = held /\ closed r.1) (ctxHeld ctx ++ held) (closeHelper (N := N) ctx).
Proof.
  intros Hok. unfold closeHelper. destruct (active ctx) eqn:Ha; cbn [negb].
  2:{ unfold ctxHeld. rewrite (Hok Ha). eexists. split; [done|]. split; [done|]. split; [exact Ha|exact (Hok Ha)]. }
  unfold ctxHeld.
  change (ctx_err (ctx <| active := false |>)) with (ctx_err ctx). change (connection (ctx <| active := false |>)) with (connection ctx).
  destruct (ctx_err ctx) as [e|], (connection ctx) as [c|] eqn:Hc; cbn [app].
  - exists held. split; [done|]. by eexists.
  - eexists. split; [done|]. by split.
  - eapply (disc_bind_ret _ _ _ _ (fun _ h => h = held)).
    + eapply keeps_then; [apply onConnection_keeps|done|]. intros _.
      eapply keeps_then; [apply onConnection_keeps|done|]. intros [v headers].
      eapply keeps_then; [apply checkStatus_keeps|done|]. intros _.
      apply sdisc_bind. apply disc_release. by exists held.
    + intros [e|u] h ->; by exists held.
  - done.
Qed.

Lemma disc_retry ctx held : closed ctx ->
  sdisc (fun r h => ctx_ok r.1 /\ h = ctxHeld r.1 ++ held) held (retry (N := N) ctx).
Proof.
  intros [Ha Hc]. unfold retry. apply sdisc_bind. intros simulate. eexists. split; [done|]. rewrite Ha.
  unfold acquireChunkedConnection. intros c. cbn [swbind]. apply sdisc_bind. intros r. eexists. split; [done|].
  destruct r as [e|u]; [eexists; split; [done|]; by split|].
  eapply (disc_bind_ret _ _ _ _ (fun _ h => h = (true, c) :: held)).
  - generalize (bytesPutTree (((ctx <| ctx_err := None |>) <| connection := Some c |>) <| active := true |>)) as tree.
    intros tree. induction tree as [|[k v] tree IH]; cbn [resendChunks]; [eexists; by split|].
    apply sdisc_bind. intros r. eexists. split; [done|]. destruct r as [e|u']; [eexists; by split|exact IH].
  - intros [e|u'] h ->; (eexists; split; [done|]); by split.
Qed.

Lemma disc_closeRequest ctx held : closed ctx ->
  sdisc (fun r h => h = held /\ closed r.1) held (closeRequest (N := N) ctx).
Proof.
  intros Hc. unfold closeRequest. eapply disc_bind_ret; [by apply disc_retry|]. intros [ctx1 err] h [Hok ->]. cbn [fst snd] in *.
  set (ctx2 := match err with Some _ => ctx1 <| ctx_err := err |> | None => ctx1 end).
  assert (H2 : ctx_ok ctx2 /\ ctxHeld ctx2 = ctxHeld ctx1) by by destruct err.
  destruct H2 as [H2 <-]. eapply disc_bind_ret; [by apply disc_closeHelper|].
  intros [ctx3 err'] h [-> Hcl]. eexists. by split.
Qed.

Lemma disc_Close ctx held : ctx_ok ctx -> sdisc (fun r h => h = held /\ closed r.1) (ctxHeld ctx ++ held) (Close (N := N) ctx).
Proof.
  intros Hok. unfold Close. eapply disc_bind_ret; [by apply disc_closeHelper|]. intros [ctx1 err] h [-> Hcl].
  destruct err as [e|]; [|by eexists]. destruct (fatal ctx1); [by eexists|].
  apply quiet_then; [apply quiet_vars|]. intros g. apply quiet_then; [apply quiet_NewRetryCtrl|]. intros ctrl.
  eapply disc_bind_ret; [apply (disc_RequestWithRetry _ closed); [intros t Ht; by apply disc_closeRequest|exact Hcl]|].
  intros [ctx2 r] h [-> Hcl2]. by eexists.
Qed.

Lemma disc_closeCopy ctx held : ctx_ok ctx -> sdisc (returnsAll held) (ctxHeld ctx ++ held) (closeCopy (N := N) ctx).
Proof.
  intros Hok. unfold closeCopy. eapply disc_bind_ret; [by apply disc_Close|]. intros [ctx' [e|]] h [-> _]; by eexists.
Qed.

Lemma disc_sendAll chunks : forall ctx held, ctx_ok ctx ->
  sdisc (fun r h => ctx_ok r.1 /\ (r.2 <> None -> connection r.1 = None) /\ h = ctxHeld r.1 ++ held)
    (ctxHeld ctx ++ held) (sendAll (N := N) ctx chunks).
Proof.
  induction chunks as [|buf chunks IH]; intros ctx held Hok; cbn [sendAll].
  - eexists. split; [done|]. by split_and!.
  - eapply disc_bind_ret; [by apply disc_SendChunk|]. intros [ctx' [e|]] h (H1 & H2 & ->); [|by apply IH].
    eexists. split; [done|]. by split_and!.
Qed.

Lemma disc_fetchWithRetry {A} a c o (k : chunkedPutContextStruct -> SW N A) held :
  (forall ctx, ctx_ok ctx -> sdisc (returnsAll held) (ctxHeld ctx ++ held) (k ctx)) ->
  sdisc (returnsAll held) held (swfbind (objectFetchChunkedPutContextWithRetry a c o) k).
Proof.
  intros Hk. unfold swfbind, objectFetchChunkedPutContextWithRetry, withRetryObject.
  set (Q := fun (r : error + chunkedPutContextStruct) h =>
    match r with inl _ => h = held | inr ctx => ctx_ok ctx /\ h = ctxHeld ctx ++ held end).
  eapply (disc_bind_ret _ _ _ _ Q).
  2:{ intros [e|ctx] h; unfold Q; [intros ->; by eexists|]. intros [Hok ->]. by apply Hk. }
  apply quiet_then; [apply quiet_vars|]. intros g. apply quiet_then; [apply quiet_NewRetryCtrl|]. intros ctrl.
  assert (Hreq : sdisc (fun r h => Q r.2.2 h) held (request (objectFetchChunkedPutContext (N := N) a c o) tt)).
  { unfold request. eapply disc_bind_ret; [apply disc_fetch|]. intros r h Hr. eexists. split; [done|]. by destruct r. }
  assert (Hloop : forall fuel this rt e, sdisc (fun r h => Q r.2 h) held
    (retryLoop (request (objectFetchChunkedPutContext (N := N) a c o)) fuel this rt e tt)).
  { induction fuel as [|fuel IH]; intros this rt e; cbn [retryLoop]; (destruct (_ && _); [|by exists held]); [done|].
    apply quiet_then; [apply quiet_RetryWait|]. intros this'. eapply disc_bind_ret; [exact Hreq|].
    intros [[] [rt' [er|ctx]]] h Hr; [assert (h = held) as -> by exact Hr; apply IH|]. eexists. split; [done|exact Hr]. }
  eapply (disc_bind_ret _ _ _ _ (fun r h => Q r.2 h)).
  - unfold RequestWithRetry. eapply disc_bind_ret; [exact Hreq|].
    intros [[] [rt' [er|ctx]]] h Hr; [assert (h = held) as -> by exact Hr; apply Hloop|]. eexists. split; [done|exact Hr].
  - intros [u r] h Hr. eexists. by split.
Qed.

Lemma quiet_putChunks a c o chunks : quiet (putChunks (N := N) a c o chunks).
Proof.
  intros held. apply disc_fetchWithRetry. intros ctx Hok. eapply disc_bind_ret; [by apply disc_sendAll|].
  intros [ctx' [e|]] h (H1 & H2 & ->); [|by apply disc_closeCopy].
  unfold ctxHeld. rewrite H2 by done. by eexists.
Qed.

Lemma quiet_objectCopy sa sc so remaining leftover da dc do_ : (forall z, quiet (remaining z)) ->
  quiet (objectCopy (N := N) sa sc so remaining leftover da dc do_).
Proof.
  intros Hrem. unfold objectCopy. apply quiet_fbind; [apply quiet_withRetryObject, quiet_objectContentLength|]. intros size held.
  apply disc_fetchWithRetry. generalize 0 as pos. generalize (Z.to_nat size) as fuel.
  induction fuel as [|fuel IH]; intros pos ctx Hok; cbn [copyLoop]; (destruct (_ <? _); [|by apply disc_closeCopy]); [done|].
  apply quiet_then; [apply Hrem|]. intros sz. destruct (0 =? sz); [by apply disc_closeCopy|].
  apply quiet_then; [destruct (_ >? _); apply quiet_withRetryObject; [apply quiet_objectTail|apply quiet_objectGet]|].
  intros r. eapply disc_bind_ret; [by apply disc_SendChunk|]. intros [ctx' [e|]] h (H1 & H2 & ->); [|by apply IH].
  unfold ctxHeld. rewrite H2 by done. by eexists.
Qed.
End Requests.

(** ** Systems of requests *)

(** The calls of the package's API (api.go) and of its configuration; [CPut] is
    a Chunked PUT with all its chunks. *)
Inductive swCall : Type :=
| CAccountDelete (a : string) | CAccountGet (a : string) | CAccountHead (a : string)
| CAccountPost (a : string) (hs : HttpHeaders) | CAccountPut (a : string) (hs : HttpHeaders)
| CContainerDelete (a c : string) | CContainerGet (a c : string) | CContainerHead (a c : string)
| CContainerPost (a c : string) (hs : HttpHeaders) | CContainerPut (a c : string) (hs : HttpHeaders)
| CObjectContentLength (a c o : string) | CObjectDeleteSync (a c o : string) | CObjectGet (a c o : string) (offset length : Z)
| CObjectHead (a c o : string) | CObjectLoad (a c o : string) | CObjectTail (a c o : string) (length : Z)
| CObjectCopy (sa sc so da dc do_ : string) (remaining : Z -> Z) (leftover : Z -> bytes)
| CPut (a c o : string) (chunks : list bytes)
| CChunkedConnectionFreeCnt | CNonChunkedConnectionFreeCnt
| CPauseAndContract | CExpandAndResume.

Section Calls.
Context {N : Type} `{TCP N}.

Definition ignore {A} (m : swProg N A) : swProg N unit := m ;;+ SwRet tt.

Definition runCall (call : swCall) : swProg N unit :=
  match call with
  | CAccountDelete a => ignore (accountDeleteWithRetry a)
  | CAccountGet a => ignore (accountGetWithRetry a)
  | CAccountHead a => ignore (accountHeadWithRetry a)
  | CAccountPost a hs => ignore (accountPostWithRetry a hs)
  | CAccountPut a hs => ignore (accountPutWithRetry a hs)
  | CContainerDelete a c => ignore (containerDeleteWithRetry a c)
  | CContainerGet a c => ignore (containerGetWithRetry a c)
  | CContainerHead a c => ignore (containerHeadWithRetry a c)
  | CContainerPost a c hs => ignore (containerPostWithRetry a c hs)
  | CContainerPut a c hs => ignore (containerPutWithRetry a c hs)
  | CObjectContentLength a c o => ignore (objectContentLengthWithRetry a c o)
  | CObjectDeleteSync a c o => ignore (objectDeleteSyncWithRetry a c o)
  | CObjectGet a c o offset length => ignore (objectGetWithRetry a c o offset length)
  | CObjectHead a c o => ignore (objectHeadWithRetry a c o)
  | CObjectLoad a c o => ignore (objectLoadWithRetry a c o)
  | CObjectTail a c o length => ignore (objectTailWithRetry a c o length)
  | CObjectCopy sa sc so da dc do_ remaining leftover => ignore (objectCopy sa sc so (fun z => SwRet (remaining z)) leftover da dc do_)
  | CPut a c o chunks => ignore (putChunks a c o chunks)
  | CChunkedConnectionFreeCnt => ignore chunkedConnectionFreeCnt
  | CNonChunkedConnectionFreeCnt => ignore nonChunkedConnectionFreeCnt
  | CPauseAndContract => ignore PauseAndContract
  | CExpandAndResume => ignore ExpandAndResume
  end.

Fixpoint runCalls (calls : list swCall) : swProg N unit :=
  match calls with
  | [] => SwRet tt
  | call :: rest => runCall call ;;+ runCalls rest
  end.

Lemma quiet_ignore {A} (m : swProg N A) : quiet m -> quiet (ignore m).
Proof. intros Hm. apply quiet_bind; [done|]. intros a. apply quiet_ret. Qed.

Lemma quiet_freeCnt b : quiet (SwFree (N := N) b (fun z => SwRet z)).
Proof. intros held z. by exists held. Qed.

Lemma quiet_config : quiet (PauseAndContract (N := N)).
Proof. intros held. cbn. by exists held. Qed.

Lemma quiet_runCall call : quiet (runCall call).
Proof.
  destruct call; apply quiet_ignore; try (by apply quiet_freeCnt); try (by apply quiet_config);
    try (apply quiet_withRetry || apply quiet_withRetryObject).
  - apply quiet_accountDelete.
  - apply quiet_accountGet.
  - apply quiet_accountHead.
  - apply quiet_accountPost.
  - apply quiet_accountPut.
  - apply quiet_containerDelete.
  - apply quiet_containerGet.
  - apply quiet_containerHead.
  - apply quiet_containerPost.
  - apply quiet_containerPut.
  - apply quiet_objectContentLength.
  - apply quiet_objectDeleteSync.
  - apply quiet_objectGet.
  - apply quiet_objectHead.
  - apply quiet_objectLoad.
  - apply quiet_objectTail.
  - apply quiet_objectCopy. intros z. apply quiet_ret.
  - apply quiet_putChunks.
Qed.

Lemma settled_calls calls : settled [] (runCalls calls).
Proof.
  induction calls as [|call calls IH]; [by exists []|]. apply quiet_then; [apply quiet_runCall|]. intros _. exact IH.
Qed.

Section Systems.
Context (n : N) (vars : requestGlobals) (size nonChunkedSize : Z) (pools : poolGlobals).
Context (callback : list swCall) (clients : list (list swCall)).
Context (Hsize : 0 <= size < 65536) (HnonChunkedSize : 0 <= nonChunkedSize < 65536) (Hup : upPools size nonChunkedSize = Ret pools).

Definition swStart : swSystem (N := N) := startSystem n vars pools (map runCalls clients).

Lemma clients_settled : Forall (settled []) (map runCalls clients).
Proof. apply Forall_fmap, Forall_true. intros calls. apply settled_calls. Qed.

(** C15. Sharing of connections: however the requests of any number of
    goroutines interleave, with the starvation callback and with changes of the
    configuration, every goroutine holds the connections its request goes on to
    release, the count of a pool is the number of its connections held plus the
    number of signalled goroutines, it never exceeds the capacity, goroutines
    queue only while the pool is full, and a connection is in one pool or in the
    hands of one goroutine. *)
Theorem requests_share_connections sys : swReach (runCalls callback) swStart sys ->
  exists hss, Forall2 tinv sys.2 hss
    /\ (forall chunked, let p := getPool chunked (swPools sys.1) in
         poolInUse p = zlen (heldIn chunked (concat hss)) + zlen (signaled p) /\ poolInUse p <= poolCapacity p
         /\ (waiters p <> [] -> poolInUse p = poolCapacity p))
    /\ NoDup (tcpConn <$> idleIn true (swPools sys.1) ++ idleIn false (swPools sys.1) ++ (concat hss).*2).
Proof.
  intros Hr. eapply (share_connections (runCalls callback)); [exact Hsize|exact HnonChunkedSize|exact Hup| | |exact Hr].
  - apply clients_settled.
  - apply settled_calls.
Qed.

(** C24. No lost waiter: a goroutine that waits for a connection was signalled
    and takes one as soon as the mutex is free, or it is in the queue of a pool
    whose slots are all taken, each by a goroutine that holds a connection it
    goes on to release or by one that was signalled. *)
Theorem requests_no_lost_waiter sys i sv chunked cv k : swReach (runCalls callback) swStart sys ->
  sys.2 !! i = Some (mkGoroutine sv (Waiting chunked cv k)) ->
  let p := getPool chunked (swPools sys.1) in
  cv ∈ signaled p
  \/ cv ∈ waiters p /\ exists hss, Forall2 tinv sys.2 hss
      /\ zlen (heldIn chunked (concat hss)) + zlen (signaled p) = poolCapacity p /\ 0 < poolCapacity p.
Proof.
  intros Hr Hi. eapply (no_lost_waiter (runCalls callback)); [exact Hsize|exact HnonChunkedSize|exact Hup| | |exact Hr|exact Hi].
  - apply clients_settled.
  - apply settled_calls.
Qed.

(** C23. Requests leak no connection: a goroutine that gives a connection back
    never panics in doing so, and once all requests have returned, whatever the
    servers answered and wherever connections broke, both pools count no
    connection and nobody waits. *)
Theorem requests_leak_nothing sys : swReach (runCalls callback) swStart sys ->
  (forall i sv chunked c keepAlive k, sys.2 !! i = Some (mkGoroutine sv (Running (SwRelease chunked c keepAlive k))) ->
     mutexFree chunked sys.1 = true -> (enterRelease chunked c keepAlive sys.1).2 <> ReleasePanic)
  /\ (Forall finished sys.2 -> forall chunked,
      poolInUse (getPool chunked (swPools sys.1)) = 0 /\ waiters (getPool chunked (swPools sys.1)) = []).
Proof.
  intros Hr. eapply (return_to_idle (runCalls callback)); [exact Hsize|exact HnonChunkedSize|exact Hup| | |exact Hr].
  - apply clients_settled.
  - apply settled_calls.
Qed.
End Systems.
End Calls.
