(* ===== verification/SwiftRunFacts.v ===== *)
(** Requests run alone: retries, a GET, a Chunked PUT and the reads of its
    context. *)

From S2P Require Import Prelude SortedMap Blunder Utils GoStrings SwiftHttp SwiftHttpFacts SwiftPool SwiftPoolFacts.
From S2P Require Import SwiftRequests SwiftChunkedPut.
Open Scope list_scope.
Open Scope sw_scope.

Section Run.
Context {N : Type} `{TCP N}.

Lemma run_bind {A B} (m : swProg N A) (k : A -> swProg N B) : forall s,
  runSw (swbind m k) s = match runSw m s with
                         | (s', Returned a) => runSw (k a) s'
                         | (s', Panicked) => (s', Panicked)
                         | (s', Stuck) => (s', Stuck)
                         end.
Proof.
  induction m as [a| |b k' IH|b c ka k' IH|b k' IH|k' IH|b k' IH|X f k' IH|X f k' IH]; intros s; cbn [swbind runSw]; try done.
  - destruct (enterAcquire b s) as [s1 [c|cv st|]]; done.
  - destruct (enterRelease b c ka s) as [s1 []]; done.
  - destruct (drainConnectionPool b s); done.
  - destruct (f (network s)) as [n [x|e|]]; done.
  - destruct (f (swVars s)) as [v x]. done.
Qed.

Lemma after_then {A B} (m : swProg N A) (k : A -> swProg N B) s s' a : runSw m s = (s', Returned a) -> runSw (swbind m k) s = runSw (k a) s'.
Proof. intros E. by rewrite run_bind, E. Qed.

Lemma run_inv {A B} (m : swProg N A) (k : A -> swProg N B) s s' b : runSw (swbind m k) s = (s', Returned b) ->
  exists s1 a, runSw m s = (s1, Returned a) /\ runSw (k a) s1 = (s', Returned b).
Proof. rewrite run_bind. destruct (runSw m s) as [s1 [a| |]]; [|done..]. intros E. eauto. Qed.

Lemma after_fthen {A B} (m : SW N A) (k : A -> SW N B) s s' a : runSw m s = (s', Returned (inr a)) -> runSw (swfbind m k) s = runSw (k a) s'.
Proof. intros E. unfold swfbind. by rewrite (after_then _ _ _ _ _ E). Qed.

Lemma run_finv {A B} (m : SW N A) (k : A -> SW N B) s s' b : runSw (swfbind m k) s = (s', Returned (inr b)) ->
  exists s1 a, runSw m s = (s1, Returned (inr a)) /\ runSw (k a) s1 = (s', Returned (inr b)).
Proof. intros E. apply run_inv in E as (s1 & [e|a] & E1 & E2); [done|]. eauto. Qed.

(** ** Retries *)

Lemma run_RetryWait this s : exists n d l,
  runSw (RetryWait this) s = (s <| network := n |>, Returned (this <| delay := d |> <| lastReq := l |>)).
Proof.
  unfold RetryWait. rewrite run_bind. cbn [runSw readClock]. rewrite run_bind.
  destruct (_ >? _); cbn; do 3 eexists; done.
Qed.

Section Retries.
Context {T A : Type} (doRequest : T -> swProg N (T * (bool * (error + A)))).

(** What a request with [retries] retries means. *)
Fixpoint tryTimes (retries : nat) (this : RetryCtrl) (t : T) : swProg N (T * (error + A)) :=
  '(t, (retriable, result)) <+ doRequest t ;;
  match result with
  | inr a => SwRet (t, inr a)
  | inl e =>
      if retriable then
        match retries with
        | O => SwRet (t, inl e)
        | S retries' => this <+ RetryWait this ;; tryTimes retries' this t
        end
      else SwRet (t, inl e)
  end.

(** The attempts do not depend on their count. *)
Lemma tryTimes_count retries : forall this this' t s, delay this = delay this' -> expBackoff this = expBackoff this' ->
  lastReq this = lastReq this' -> runSw (tryTimes retries this t) s = runSw (tryTimes retries this' t) s.
Proof.
  induction retries as [|retries IH]; intros this this' t s H1 H2 H3; cbn [tryTimes]; rewrite !run_bind;
    destruct (runSw (doRequest t) s) as [s1 [[t1 [[] [e|a]]]| |]]; try done.
  unfold RetryWait. rewrite !run_bind. cbn [runSw readClock]. rewrite !run_bind. rewrite H1, H3.
  destruct (_ >? _); cbn; apply IH; cbn; congruence.
Qed.

Lemma retryLoop_tries fuel : forall this retriable e t s,
  0 <= attemptMax this + 1 - attemptCnt this < Z.of_nat fuel ->
  runSw (retryLoop doRequest fuel this retriable e t) s
  = if retriable then
      match Z.to_nat (attemptMax this + 1 - attemptCnt this) with
      | O => (s, Returned (t, inl e))
      | S retries' => runSw (this <+ RetryWait this ;; tryTimes retries' this t) s
      end
    else (s, Returned (t, inl e)).
Proof.
  induction fuel as [|fuel IH]; intros this retriable e t s Hf; [lia|]. cbn [retryLoop].
  destruct retriable; [|done]. cbn [andb].
  destruct (Z.leb_spec (attemptCnt this) (attemptMax this)) as [Hle|Hgt].
  2:{ by replace (attemptMax this + 1 - attemptCnt this) with 0 by lia. }
  replace (Z.to_nat (attemptMax this + 1 - attemptCnt this)) with (S (Z.to_nat (attemptMax this - attemptCnt this))) by lia.
  destruct (run_RetryWait this s) as (n & d & l & E). rewrite !(after_then _ _ _ _ _ E).
  set (this' := (this <| delay := d |>) <| lastReq := l |>).
  assert (Hn : Z.to_nat (attemptMax this - attemptCnt this)
    = Z.to_nat (attemptMax (this' <| attemptCnt := attemptCnt this' + 1 |>) + 1 - attemptCnt (this' <| attemptCnt := attemptCnt this' + 1 |>))) by (cbn; lia).
  destruct (Z.to_nat (attemptMax this - attemptCnt this)) as [|m] eqn:Em; cbn [tryTimes]; rewrite !run_bind;
    destruct (runSw (doRequest t) (s <| network := n |>)) as [s1 [[t1 [rt [e1|a]]]| |]]; try done;
    (rewrite IH by (cbn; lia)); rewrite <- Hn; [by destruct rt|].
  destruct rt; [|done]. destruct (run_RetryWait (this' <| attemptCnt := attemptCnt this' + 1 |>) s1) as (n1 & d1 & l1 & E1).
  unfold RetryWait. rewrite !run_bind. cbn [runSw readClock]. rewrite !run_bind.
  destruct (_ >? _); cbn; apply tryTimes_count; done.
Qed.

(** Retries: [RequestWithRetry] is the specification [tryTimes], whatever the
    request does: it makes one attempt and at most [attemptMax] more, each after
    a wait and only while the error can be retried; it returns the first
    success or the last error, and the loop always ends. *)
Theorem RequestWithRetry_tries this t s : 0 <= attemptMax this ->
  runSw (RequestWithRetry doRequest this t) s = runSw (tryTimes (Z.to_nat (attemptMax this)) this t) s.
Proof.
  intros Hm. unfold RequestWithRetry.
  destruct (Z.to_nat (attemptMax this)) as [|m] eqn:Em; cbn [tryTimes]; rewrite !run_bind;
    destruct (runSw (doRequest t) s) as [s1 [[t1 [rt [e1|a]]]| |]]; try done;
    (rewrite retryLoop_tries by (cbn; lia)); cbn [attemptMax attemptCnt set];
    replace (Z.to_nat (attemptMax this + 1 - 1)) with (Z.to_nat (attemptMax this)) by lia; rewrite Em; [by destruct rt|].
  destruct rt; [|done].
  unfold RetryWait. rewrite !run_bind. cbn [runSw readClock]. rewrite !run_bind.
  destruct (_ >? _); cbn; apply tryTimes_count; done.
Qed.

(** A success of the whole is the success of one attempt, on what the failed
    attempts before it left. *)
Lemma retry_success (P : T -> Prop) (Q : swState N -> T -> A -> Prop) :
  (forall s t s' t' rt e, P t -> runSw (doRequest t) s = (s', Returned (t', (rt, inl e))) -> P t') ->
  (forall s t s' t' rt a, P t -> runSw (doRequest t) s = (s', Returned (t', (rt, inr a))) -> Q s' t' a) ->
  forall this s t s' t' a, P t -> runSw (RequestWithRetry doRequest this t) s = (s', Returned (t', inr a)) -> Q s' t' a.
Proof.
  intros Hfail Hok.
  assert (Hloop : forall fuel this rt e s t s' t' a, P t ->
    runSw (retryLoop doRequest fuel this rt e t) s = (s', Returned (t', inr a)) -> Q s' t' a).
  { induction fuel as [|fuel IH]; intros this rt e s t s' t' a Ht; cbn [retryLoop]; (destruct (_ && _); [|done]); [done|].
    intros E. apply run_inv in E as (s1 & this1 & _ & E). apply run_inv in E as (s2 & [t2 [rt2 [e2|a2]]] & E2 & E).
    - eapply IH; [|exact E]. by eapply Hfail.
    - injection E as <- <- <-. by eapply Hok. }
  intros this s t s' t' a Ht E. unfold RequestWithRetry in E.
  apply run_inv in E as (s2 & [t2 [rt2 [e2|a2]]] & E2 & E).
  - eapply Hloop; [|exact E]. by eapply Hfail.
  - injection E as <- <- <-. by eapply Hok.
Qed.
End Retries.

Lemma retries_success {A} (op : SW N A) (Q : swState N -> A -> Prop) :
  (forall s s' a, runSw op s = (s', Returned (inr a)) -> Q s' a) ->
  forall s s' a, runSw (withRetryObject op) s = (s', Returned (inr a)) -> Q s' a.
Proof.
  intros Hop s s' a E. unfold withRetryObject in E. apply run_inv in E as (s1 & g & _ & E).
  apply run_inv in E as (s2 & ctrl & _ & E). apply run_inv in E as (s3 & [[] r] & E & E').
  injection E' as <- ->. revert E. apply (retry_success _ (fun _ => True) (fun s _ a => Q s a)); [done| |done].
  intros s0 [] s4 [] rt a0 _ E. unfold request in E. apply run_inv in E as (s5 & r & E & E').
  injection E' as <- <- ->. by eapply Hop.
Qed.

(** ** Exchanges *)

Lemma run_exchange {X} b c e (f : St N error X) s n x : f (network s) = (n, Ret x) ->
  runSw (onConnection b c e f) s = (s <| network := n |>, Returned (inr x)).
Proof. intros E. cbn. by rewrite E. Qed.

Lemma exchange_success {X} b c e (f : St N error X) s s' x : runSw (onConnection b c e f) s = (s', Returned (inr x)) ->
  exists n, f (network s) = (n, Ret x) /\ s' = s <| network := n |>.
Proof.
  unfold onConnection. rewrite run_bind. cbn [runSw exchange]. destruct (f (network s)) as [n [y|er|]] eqn:E; [| |done].
  - intros [= <- ->]. by exists n.
  - cbn [runSw swbind release]. by destruct (enterRelease b c false (s <| network := n |>)) as [? []].
Qed.

Lemma status_success b c v s s' : runSw (checkStatus b c v) s = (s', Returned (inr tt)) -> s' = s /\ (httpStatusIsError v).1 = false.
Proof.
  unfold checkStatus. destruct (httpStatusIsError v) as [[] fe]; cbn [runSw swbind release swret].
  - by destruct (enterRelease b c false s) as [? []].
  - by intros [= ->].
Qed.

Lemma run_status b c v s : 100 <= v < 300 -> runSw (checkStatus b c v) s = (s, Returned (inr tt)).
Proof.
  intros Hv. unfold checkStatus, httpStatusIsError.
  destruct (Z.leb_spec 100 v), (Z.leb_spec v 199), (Z.leb_spec 200 v), (Z.leb_spec v 299); try lia; done.
Qed.
End Run.

(** ** GET *)

Section Get.
Context {N : Type} `{TCPStream N}.

(** How a response carries a body. *)
Definition carries (headers : HttpHeaders) (wire body : bytes) : Prop :=
  (parseTransferEncoding headers = true /\ exists chunks, Forall (fun b => 0 < zlen b < two32) chunks
     /\ (length chunks < bufferLimit)%nat /\ wire = concat (map chunkBytes (chunks ++ [[]])) /\ body = concat chunks)
  \/ (parseTransferEncoding headers = false /\ headers !! "Content-Length" = Some [FormatUint (zlen body)]
     /\ zlen body <= maxInt /\ wire = body).

Lemma readPayload_parses headers wire body : (64 < bufferLimit)%nat -> carries headers wire body ->
  parses (fun c => readPayload c headers) wire body.
Proof.
  intros Hb [(Ht & chunks & Hc & Hl & -> & ->)|(Ht & Hlen & Hm & ->)]; unfold readPayload; rewrite Ht.
  - by apply (readChunks_parses chunks bufferLimit []).
  - eapply parses_lift.
    + unfold parseContentLength. rewrite Hlen, Atoi_FormatUint by zlia.
      destruct (Z.gtb_spec 0 (zlen body)); [zlia|done].
    + destruct (Z.eqb_spec 0 (zlen body)) as [Hz|]; [destruct body; [apply parses_ret|zlia]|by apply readBytes_parses].
Qed.

(** What the server does: the request is taken, and the bytes to come on the
    connection are a response with a good status, its headers and its body. *)
Record answers (c : Z) (method path : string) (requestHeaders : HttpHeaders) (n n' : N) (hs : list (string * list string))
    (body rest : bytes) : Prop := {
  a_taken : writeHTTPRequestLineAndHeaders c method path requestHeaders n = (n', Ret tt);
  a_status : exists httpStatus reason wire, 200 <= httpStatus < 300 /\ allChars notCR reason
    /\ head_fits httpStatus reason hs /\ carries (list_to_map hs) wire body
    /\ incoming n' c = StringToByteSlice (responseHead httpStatus reason hs) ++ wire ++ rest;
  a_headers : Forall header_ok hs /\ NoDup hs.*1;
  a_room : (64 < bufferLimit)%nat
}.

Lemma run_get method path requestHeaders e s s1 c n' hs body rest heldConns W st d :
  sw_inv (swPools s) heldConns W st d ->
  enterAcquire false s = (s1, Got c) ->
  answers (tcpConn c) method path requestHeaders (network s1) n' hs body rest ->
  exists n2 s', incoming n2 (tcpConn c) = rest
    /\ enterRelease false c (parseConnection (list_to_map hs)) (s1 <| network := n2 |>) = (s', Gone)
    /\ runSw ('(connection, headers) <! beginRequest method path requestHeaders e ;;
              buf <! onConnection false connection e (readPayload (tcpConn connection) headers) ;;
              endRequest connection headers buf) s = (s', Returned (inr body)).
Proof.
  intros Hinv Ha [Hw (v & reason & wire & Hv & Hr & Hfit & Hc & Hi) [Hok Hnd] Hroom].
  destruct (responseHead_parses v reason hs ltac:(lia) Hr Hok Hnd Hfit n' (tcpConn c) (wire ++ rest) Hi) as (n1 & E1 & Hi1 & _).
  destruct (readPayload_parses _ _ _ Hroom Hc n1 (tcpConn c) rest Hi1) as (n2 & E2 & Hi2 & _).
  destruct (enterRelease false c (parseConnection (list_to_map hs)) (s1 <| network := n2 |>)) as [s' r] eqn:Er.
  assert (Hg : r = Gone).
  { eapply acquire_ok in Ha; [|exact Hinv].
    eapply (release_ok false c _ (s1 <| network := n2 |>)) in Er as Hr'; [|exact Ha|done|done].
    destruct r; [done| |done]. unfold enterRelease in Er. destruct (putBack _ _ _ _) as [s2|]; [|done].
    destruct (waiters (getPool false (swPools s2))); [done|]. by destruct (_ =? _). }
  subst r. exists n2, s'. split_and!; [done|done|].
  assert (Hb : runSw (beginRequest method path requestHeaders e) s = (s1 <| network := n1 |>, Returned (inr (c, list_to_map hs)))).
  { unfold beginRequest, acquireNonChunkedConnection, acquire. cbn [swbind runSw]. rewrite Ha.
    rewrite (after_fthen _ _ s1 (s1 <| network := n' |>) tt) by (by apply run_exchange).
    rewrite (after_fthen _ _ _ (s1 <| network := n1 |>) (v, list_to_map hs)) by (exact (run_exchange false c e (readHTTPStatusAndHeaders (tcpConn c)) (s1 <| network := n' |>) n1 _ E1)).
    rewrite (after_fthen _ _ _ _ tt) by (apply run_status; lia). done. }
  rewrite (after_fthen _ _ _ _ _ Hb).
  rewrite (after_fthen _ _ _ (s1 <| network := n2 |>) body) by (exact (run_exchange false c e (readPayload (tcpConn c) _) (s1 <| network := n1 |>) n2 _ E2)).
  unfold endRequest. cbn [runSw releaseNonChunkedConnection release swbind]. by rewrite Er.
Qed.

(** C16. GET of an object: when the server takes the request and answers with a
    good status, [objectGet] returns the body, whether it was sent in chunks or
    with a length; it has read exactly the response, and the connection goes
    back to the pool, to be used again unless the server said close. *)
Theorem objectGet_returns_body accountName containerName objectName offset length s s1 c n' hs body rest heldConns W st d :
  sw_inv (swPools s) heldConns W st d ->
  enterAcquire false s = (s1, Got c) ->
  answers (tcpConn c) "GET" (objectPath accountName containerName objectName)
    (rangeHeader ("bytes=" ++ FormatUint offset ++ "-" ++ FormatUint (offset +u length -u 1)))
    (network s1) n' hs body rest ->
  exists n2 s', incoming n2 (tcpConn c) = rest
    /\ enterRelease false c (parseConnection (list_to_map hs)) (s1 <| network := n2 |>) = (s', Gone)
    /\ runSw (objectGet accountName containerName objectName offset length) s = (s', Returned (inr body)).
Proof. intros Hinv Ha Hs. exact (run_get _ _ _ BadHTTPGetError _ _ _ _ _ _ _ _ _ _ _ Hinv Ha Hs). Qed.
End Get.
