(* ===== verification/SwiftPutFacts.v ===== *)
(** A Chunked PUT that reports success has sent the object, and its context
    reads back what was sent. *)

From S2P Require Import Prelude SortedMap Blunder Utils GoStrings SwiftHttp SwiftHttpFacts SwiftPool SwiftPoolFacts.
From S2P Require Import SwiftRequests SwiftChunkedPut SwiftRunFacts.
Open Scope list_scope.
Open Scope sw_scope.

(** The tree after a list of chunks was sent. *)
Fixpoint chunkTree (offset : Z) (chunks : list bytes) : list (Z * bytes) :=
  match chunks with
  | [] => []
  | b :: rest => (offset, b) :: chunkTree (offset + zlen b) rest
  end.

Lemma chunkTree_app chunks b : forall offset,
  chunkTree offset (chunks ++ [b]) = chunkTree offset chunks ++ [(offset + zlen (concat chunks), b)].
Proof.
  induction chunks as [|x chunks IH]; intros offset; simpl; [by rewrite Z.add_0_r|]. rewrite IH. f_equal. do 3 f_equal. zlia.
Qed.

Lemma chunkTree_below chunks k : forall offset, Forall (fun b => 0 < zlen b) chunks -> offset + zlen (concat chunks) <= k ->
  Forall (below k) (chunkTree offset chunks).
Proof.
  induction chunks as [|b chunks IH]; intros offset Hc Hk; simpl; [constructor|]. apply Forall_cons in Hc as [Hb Hc].
  simpl in Hk. rewrite zlen_app in Hk. pose proof (zlen_nonneg (concat chunks)). constructor.
  - unfold below. simpl. apply Z.ltb_lt. lia.
  - apply IH; [done|]. lia.
Qed.

Section Put.
Context {N : Type} `{TCPStream N}.

Definition requestBytes (method path : string) (headers : HttpHeaders) : bytes := StringToByteSlice
  (method ++ " " ++ path ++ " HTTP/1.1" ++ CRLF ++ "Host: " ++ noAuthStringAddr ++ CRLF ++
   "User-Agent: ProxyFS" ++ CRLF ++ headerLines (rangeOrder headers) ++ CRLF)%string.

(** What a Chunked PUT puts on the wire, up to some chunk. *)
Definition putBytes (accountName containerName objectName : string) (chunks : list bytes) : bytes :=
  requestBytes "PUT" (objectPath accountName containerName objectName) chunkedHeaders ++ concat (map chunkBytes chunks).

Lemma putBytes_snoc a c o chunks b : putBytes a c o (chunks ++ [b]) = putBytes a c o chunks ++ chunkBytes b.
Proof. unfold putBytes. rewrite map_app, concat_app. simpl. by rewrite app_nil_r, app_assoc. Qed.

Context (a c o : string).

(** A context in use: what its connection got while no write failed. *)
Record sending (n : N) (ctx : chunkedPutContextStruct) (chunks : list bytes) : Prop := {
  se_names : ctx_accountName ctx = a /\ ctx_containerName ctx = c /\ ctx_objectName ctx = o;
  se_active : active ctx = true;
  se_fatal : fatal ctx = false;
  se_tree : bytesPutTree ctx = chunkTree 0 chunks;
  se_put : bytesPut ctx = zlen (concat chunks);
  se_some : Forall (fun b => 0 < zlen b) chunks;
  se_wire : ctx_err ctx = None ->
    exists cn base, connection ctx = Some cn /\ outgoing n (tcpConn cn) = base ++ putBytes a c o chunks
}.

(** A context between two attempts. *)
Record pending (ctx : chunkedPutContextStruct) (chunks : list bytes) : Prop := {
  pe_names : ctx_accountName ctx = a /\ ctx_containerName ctx = c /\ ctx_objectName ctx = o;
  pe_active : active ctx = false;
  pe_fatal : fatal ctx = false;
  pe_tree : bytesPutTree ctx = chunkTree 0 chunks;
  pe_put : bytesPut ctx = zlen (concat chunks);
  pe_some : Forall (fun b => 0 < zlen b) chunks
}.

Lemma fetch_sends s s' ctx : runSw (objectFetchChunkedPutContext a c o) s = (s', Returned (inr ctx)) -> sending (network s') ctx [].
Proof.
  unfold objectFetchChunkedPutContext. intros E. apply run_inv in E as (s1 & simulate & _ & E).
  apply run_inv in E as (s2 & cn & _ & E). apply run_finv in E as (s3 & [] & E1 & E2).
  apply exchange_success in E1 as (n & E1 & ->). injection E2 as <- <-.
  split; try done. intros _. exists cn, (outgoing (network s2) (tcpConn cn)). split; [done|]. simpl.
  destruct simulate; [done|]. apply writeBytes_writes in E1. rewrite E1. unfold putBytes, requestBytes. simpl. by rewrite app_nil_r.
Qed.

Lemma fatalError_refuses ctx s s' ctx' : runSw (fatalError (N := N) ctx) s = (s', Returned (ctx', None)) -> False.
Proof.
  unfold fatalError. destruct (connection ctx) as [cn|]; [|done]. intros E.
  apply run_inv in E as (s1 & [] & _ & E). done.
Qed.

Lemma SendChunk_sends ctx buf chunks s s' ctx' : sending (network s) ctx chunks -> zlen (concat chunks) + zlen buf < two64 ->
  runSw (SendChunk ctx buf) s = (s', Returned (ctx', None)) -> sending (network s') ctx' (chunks ++ [buf]).
Proof.
  intros [Hn Ha Hf Ht Hp Hs Hw] Hlen. unfold SendChunk. intros E. apply run_inv in E as (s1 & simulate & E1 & E).
  assert (Hn1 : network s1 = network s) by by injection E1 as <- _.
  rewrite Ha in E. cbn [negb] in E.
  destruct (Z.eqb_spec 0 (zlen buf)) as [Hz|Hz]; [by apply fatalError_refuses in E|].
  pose proof (zlen_nonneg buf). pose proof (zlen_nonneg (concat chunks)).
  assert (HP : Put (bytesPutTree ctx) (bytesPut ctx) buf = Some (chunkTree 0 (chunks ++ [buf]))).
  { rewrite Ht, Hp, chunkTree_app. rewrite <- (app_nil_r (chunkTree 0 chunks)) at 1.
    apply Put_mid; [|constructor]. apply chunkTree_below; [done|lia]. }
  rewrite HP in E.
  assert (Hput : bytesPut ctx +u zlen buf = zlen (concat (chunks ++ [buf]))).
  { rewrite concat_app. simpl. rewrite app_nil_r, Hp, uadd_small by lia. zlia. }
  rewrite Hput in E. set (ctx1 := (ctx <| bytesPutTree := chunkTree 0 (chunks ++ [buf]) |>) <| bytesPut := zlen (concat (chunks ++ [buf])) |>) in *.
  change (ctx_err ctx1) with (ctx_err ctx) in E. change (connection ctx1) with (connection ctx) in E.
  assert (Hs' : Forall (fun b => 0 < zlen b) (chunks ++ [buf])) by (apply Forall_app; split; [done|by repeat constructor; lia]).
  destruct (ctx_err ctx) as [e|] eqn:He.
  { injection E as <- <-. split; try done. change (ctx_err ctx1) with (ctx_err ctx). by rewrite He. }
  destruct (Hw eq_refl) as (cn & base & Hc & Ho). rewrite Hc in E.
  apply run_inv in E as (s2 & [e|[]] & E2 & E); injection E as <- <-.
  { split; try done. }
  cbn in E2. destruct ((if simulate then simulated else writeHTTPPutChunk (tcpConn cn) buf) (network s1)) as [n [[]|e|]] eqn:Ex; try done.
  injection E2 as <-. split; try done. intros _. exists cn, base. split; [done|]. simpl.
  destruct simulate; [done|]. apply writeChunk_writes in Ex. by rewrite Ex, Hn1, Ho, putBytes_snoc, app_assoc.
Qed.

Lemma sendAll_sends chunks : forall ctx sofar s s' ctx', sending (network s) ctx sofar -> zlen (concat (sofar ++ chunks)) < two64 ->
  runSw (sendAll ctx chunks) s = (s', Returned (ctx', None)) -> sending (network s') ctx' (sofar ++ chunks).
Proof.
  induction chunks as [|b chunks IH]; intros ctx sofar s s' ctx' Hs Hl E; cbn [sendAll] in E.
  - injection E as <- <-. by rewrite app_nil_r.
  - apply run_inv in E as (s1 & [ctx1 [e|]] & E1 & E); [done|].
    rewrite concat_app in Hl. simpl in Hl. rewrite !zlen_app in Hl. pose proof (zlen_nonneg (concat chunks)).
    apply (SendChunk_sends _ _ sofar) in E1; [|done|lia].
    replace (sofar ++ b :: chunks) with ((sofar ++ [b]) ++ chunks) by by rewrite <- app_assoc.
    eapply IH; [exact E1| |exact E]. rewrite !concat_app. simpl. rewrite app_nil_r, !zlen_app. lia.
Qed.

(** The object has reached the server: on some connection the whole request was
    written, and a good status was then read from it. *)
Definition delivered (n : N) (chunks : list bytes) : Prop :=
  exists cn base n1 n2 httpStatus headers,
    outgoing n1 cn = base ++ putBytes a c o (chunks ++ [[]])
    /\ readHTTPStatusAndHeaders cn n1 = (n2, Ret (httpStatus, headers))
    /\ (httpStatusIsError httpStatus).1 = false
    /\ (n = n2 \/ n = tcpClose cn n2).

Lemma release_network b cn keepAlive (s s' : swState N) r : enterRelease b cn keepAlive s = (s', r) -> r <> ReleasePanic ->
  network s' = network s \/ network s' = tcpClose (tcpConn cn) (network s).
Proof.
  unfold enterRelease, putBack. intros E Hr.
  destruct (keepAlive && _ && _); [destruct (_ <? _); [|by injection E as <- <-]; left|right];
    (destruct (waiters _); [by injection E as <- _|]; destruct (_ =? _); [|by injection E as <- _];
     destruct (_ && _); [|by injection E as <- _]; simpl in E; destruct (stavationResolvedChan _); by injection E as <- _).
Qed.

Lemma closeHelper_sends ctx chunks s s' ctx' err : sending (network s) ctx chunks ->
  runSw (closeHelper ctx) s = (s', Returned (ctx', err)) ->
  match err with None => delivered (network s') chunks | Some _ => pending ctx' chunks end.
Proof.
  intros [Hn Ha Hf Ht Hp Hs Hw]. unfold closeHelper. rewrite Ha. cbn [negb].
  change (ctx_err (ctx <| active := false |>)) with (ctx_err ctx). change (connection (ctx <| active := false |>)) with (connection ctx).
  destruct (ctx_err ctx) as [e|] eqn:He.
  { destruct (connection ctx) as [cn|]; intros E; [apply run_inv in E as (s1 & [] & _ & E)|]; injection E as <- <- <-; by split. }
  destruct (Hw eq_refl) as (cn & base & Hc & Ho). rewrite Hc. intros E. apply run_inv in E as (s1 & [e|[]] & E1 & E).
  { injection E as <- <- <-. by split. }
  injection E as <- <- <-.
  apply run_finv in E1 as (s2 & [] & E2 & E1). apply exchange_success in E2 as (n2 & E2 & ->).
  apply run_finv in E1 as (s3 & [v headers] & E3 & E1). apply exchange_success in E3 as (n3 & E3 & ->). simpl in E3.
  apply run_finv in E1 as (s4 & [] & E4 & E1). apply status_success in E4 as [-> Hv].
  apply run_inv in E1 as (s5 & [] & E5 & E1). injection E1 as <-.
  exists (tcpConn cn), base, n2, n3, v, headers. split_and!; [|exact E3|exact Hv|].
  - apply writeChunk_writes in E2. by rewrite E2, Ho, putBytes_snoc, app_assoc.
  - cbn [runSw releaseChunkedConnection release] in E5.
    destruct (enterRelease true cn (parseConnection headers) _) as [s6 r] eqn:Er. apply release_network in Er; [|by destruct r].
    destruct r; [|done..]. injection E5 as <-. exact Er.
Qed.

Lemma resend_sends simulate cn chunks : forall offset s s', runSw (resendChunks simulate cn (chunkTree offset chunks)) s = (s', Returned (inr tt)) ->
  outgoing (network s') (tcpConn cn) = outgoing (network s) (tcpConn cn) ++ concat (map chunkBytes chunks).
Proof.
  induction chunks as [|b chunks IH]; intros offset s s' E; cbn [chunkTree resendChunks] in E.
  - injection E as <-. by rewrite app_nil_r.
  - apply run_inv in E as (s1 & [e|[]] & E1 & E); [done|]. cbn in E1.
    destruct ((if simulate then simulated else writeHTTPPutChunk (tcpConn cn) b) (network s)) as [n [[]|e|]] eqn:Ex; try done.
    injection E1 as <-. apply IH in E. rewrite E. simpl. destruct simulate; [done|].
    apply writeChunk_writes in Ex. by rewrite Ex, <- app_assoc.
Qed.

Lemma retry_sends ctx chunks s s' ctx' err : pending ctx chunks -> runSw (retry ctx) s = (s', Returned (ctx', err)) ->
  sending (network s') (match err with Some _ => ctx' <| ctx_err := err |> | None => ctx' end) chunks.
Proof.
  intros [Hn Ha Hf Ht Hp Hs] E. unfold retry in E. apply run_inv in E as (s1 & simulate & _ & E). rewrite Ha in E.
  apply run_inv in E as (s2 & cn & _ & E).
  set (ctx1 := ((ctx <| ctx_err := None |>) <| connection := Some cn |>) <| active := true |>) in *.
  apply run_inv in E as (s3 & [e|[]] & E3 & E).
  { injection E as <- <- <-. by split. }
  apply run_inv in E as (s4 & [e|[]] & E4 & E); injection E as <- <- <-; [by split|].
  split; try done. intros _. exists cn, (outgoing (network s2) (tcpConn cn)). split; [done|].
  change (bytesPutTree ctx1) with (bytesPutTree ctx) in E4. rewrite Ht in E4. apply resend_sends in E4. rewrite E4.
  cbn in E3. change (ctx_accountName ctx1) with (ctx_accountName ctx) in E3. destruct Hn as (Hn1 & Hn2 & Hn3). rewrite Hn1, Hn2, Hn3 in E3.
  destruct (writeHTTPRequestLineAndHeaders (tcpConn cn) "PUT" (objectPath a c o) chunkedHeaders (network s2)) as [n [[]|e|]] eqn:Ex; try done.
  injection E3 as <-. apply writeBytes_writes in Ex. simpl. rewrite Ex. unfold putBytes, requestBytes. by rewrite app_assoc.
Qed.

Lemma closeRequest_sends ctx chunks s s' ctx' rt r : pending ctx chunks ->
  runSw (closeRequest ctx) s = (s', Returned (ctx', (rt, r))) ->
  match r with inr _ => delivered (network s') chunks | inl _ => pending ctx' chunks end.
Proof.
  intros Hp E. unfold closeRequest in E. apply run_inv in E as (s1 & [ctx1 err] & E1 & E). apply (retry_sends _ chunks) in E1; [|done].
  apply run_inv in E as (s2 & [ctx2 err2] & E2 & E). apply (closeHelper_sends _ chunks) in E2; [|exact E1].
  injection E as <- <- _ <-. by destruct err2.
Qed.

Lemma Close_sends ctx chunks s s' ctx' : sending (network s) ctx chunks ->
  runSw (Close ctx) s = (s', Returned (ctx', None)) -> delivered (network s') chunks.
Proof.
  intros Hs E. unfold Close in E. apply run_inv in E as (s1 & [ctx1 err] & E1 & E). apply (closeHelper_sends _ chunks) in E1; [|done].
  destruct err as [e|]; [|by injection E as <- <-]. rewrite (pe_fatal _ _ E1) in E.
  apply run_inv in E as (s2 & g & E2 & E). apply run_inv in E as (s3 & ctrl & E3 & E).
  apply run_inv in E as (s4 & [ctx4 [er|[]]] & E4 & E); [done|]. injection E as <- _.
  revert E4. apply (retry_success _ (fun ctx => pending ctx chunks) (fun s _ _ => delivered (network s) chunks)); [| |done].
  - intros u t u' t' rt er Ht Eu. by apply (closeRequest_sends _ chunks) in Eu.
  - intros u t u' t' rt x Ht Eu. by apply (closeRequest_sends _ chunks) in Eu.
Qed.
End Put.

(** C10. A Chunked PUT that reports success has delivered the object: on one
    connection the server was sent the request line, every chunk in order, the
    final chunk, and nothing else of the request, and then answered with a good
    status; however many writes failed and attempts were made before. *)
Theorem put_delivers_object {N} `{TCPStream N} accountName containerName objectName chunks (s s' : swState N) :
  zlen (concat chunks) < two64 ->
  runSw (putChunks accountName containerName objectName chunks) s = (s', Returned (inr tt)) ->
  delivered accountName containerName objectName (network s') chunks.
Proof.
  intros Hl E. unfold putChunks in E. apply run_finv in E as (s1 & ctx & E1 & E).
  assert (Hs : sending accountName containerName objectName (network s1) ctx []).
  { revert E1. apply (retries_success _ (fun s ctx => sending accountName containerName objectName (network s) ctx [])).
    intros t t' x. apply fetch_sends. }
  apply run_inv in E as (s2 & [ctx2 [e|]] & E2 & E); [done|]. apply (sendAll_sends accountName containerName objectName _ _ []) in E2; [|exact Hs|exact Hl].
  unfold closeCopy in E. apply run_inv in E as (s3 & [ctx3 [e|]] & E3 & E); [done|]. injection E as <-. by eapply Close_sends.
Qed.

(** ** Reading back *)

Lemma chunkTree_split (pre post : list bytes) : forall offset,
  chunkTree offset (pre ++ post) = chunkTree offset pre ++ chunkTree (offset + zlen (concat pre)) post.
Proof.
  induction pre as [|b pre IH]; intros offset; simpl; [by rewrite Z.add_0_r|]. rewrite IH. do 3 f_equal. zlia.
Qed.

Lemma length_chunkTree chunks : forall offset, length (chunkTree offset chunks) = length chunks.
Proof. induction chunks as [|b chunks IH]; intros offset; simpl; [done|]. by rewrite IH. Qed.

Lemma chunkTree_above (chunks : list bytes) k : forall offset, k < offset -> Forall (above k) (chunkTree offset chunks).
Proof.
  induction chunks as [|b chunks IH]; intros offset Hk; simpl; [constructor|]. constructor.
  - unfold above. simpl. by apply Z.ltb_lt.
  - apply IH. pose proof (zlen_nonneg b). lia.
Qed.

(** The chunk a position is in; the end is in the last chunk. *)
Lemma locate (chunks : list bytes) : forall off, chunks <> [] -> 0 <= off <= zlen (concat chunks) ->
  exists pre b post, chunks = pre ++ b :: post /\ zlen (concat pre) <= off <= zlen (concat pre) + zlen b
    /\ (post = [] \/ off < zlen (concat pre) + zlen b).
Proof.
  induction chunks as [|b chunks IH]; intros off Hne Ho; [done|]. simpl in Ho. rewrite zlen_app in Ho.
  destruct (decide (off < zlen b)) as [Hlt|Hge].
  { exists [], b, chunks. simpl. split_and!; [done|zlia|zlia|right; zlia]. }
  destruct chunks as [|b' chunks].
  { exists [], b, []. simpl in *. split_and!; [done|zlia|zlia|by left]. }
  destruct (IH (off - zlen b)) as (pre & x & post & E & H1 & H2); [done|lia|].
  exists (b :: pre), x, post. rewrite E. simpl. rewrite zlen_app. split_and!; [done|lia|lia|].
  destruct H2 as [H2|H2]; [by left|right; lia].
Qed.

Lemma slice_ok buf low high : 0 <= low <= high -> high <= zlen buf ->
  slice buf low high = Ret (take (Z.to_nat (high - low)) (drop (Z.to_nat low) buf)).
Proof. intros Hl Hh. unfold slice. destruct (Z.leb_spec low high), (Z.leb_spec high (zlen buf)); try lia. done. Qed.

Lemma readMore_ok (post : list bytes) : forall fuel treePre Q limit length buf,
  Forall (fun b => 0 < zlen b) post -> 0 <= Q <= limit -> limit <= Q + zlen (concat post) -> limit < two64 ->
  length = zlen buf + (limit - Q) -> (List.length post <= fuel)%nat ->
  readMore fuel (treePre ++ chunkTree Q post) (zlen treePre - 1) limit length buf
  = Ret (buf ++ take (Z.to_nat (limit - Q)) (concat post)).
Proof.
  induction post as [|b post IH]; intros fuel treePre Q limit length buf Hs HQ Hl Hw -> Hf.
  { simpl in *. assert (limit = Q) as -> by zlia. rewrite Z.sub_diag, Z.add_0_r. destruct fuel; cbn [readMore]; by rewrite Z.ltb_irrefl, app_nil_r. }
  destruct fuel as [|fuel]; [simpl in Hf; lia|]. apply Forall_cons in Hs as [Hb Hs]. simpl in Hl. rewrite zlen_app in Hl.
  cbn [readMore chunkTree].
  destruct (Z.ltb_spec (zlen buf) (zlen buf + (limit - Q))) as [Hlt|Hge].
  2:{ assert (limit = Q) as -> by lia. rewrite Z.sub_diag. simpl. by rewrite app_nil_r. }
  replace (zlen treePre - 1 + 1) with (zlen treePre) by lia. rewrite GetByIndex_mid.
  rewrite usub_small by lia. simpl concat.
  destruct (Z.ltb_spec (limit - Q) (zlen b)) as [Hin|Hout].
  - rewrite slice_ok by lia. rewrite Z.sub_0_r. change (Z.to_nat 0) with O. rewrite drop_0. cbn [obind].
    assert (Hlen : zlen (take (Z.to_nat (limit - Q)) b) = limit - Q) by (unfold zlen in *; rewrite length_take; lia).
    rewrite take_app_le by (unfold zlen in *; lia).
    destruct fuel as [|fuel]; cbn [readMore]; rewrite zlen_app, Hlen, Z.ltb_irrefl; done.
  - cbn [obind]. replace (treePre ++ (Q, b) :: chunkTree (Q + zlen b) post) with ((treePre ++ [(Q, b)]) ++ chunkTree (Q + zlen b) post)
      by by rewrite <- app_assoc.
    replace (zlen treePre) with (zlen (treePre ++ [(Q, b)]) - 1) by zlia.
    rewrite IH; [|done|lia|lia|done|zlia|simpl in Hf; lia].
    rewrite take_app_ge by (unfold zlen in *; lia). rewrite <- app_assoc. do 4 f_equal. unfold zlen in *. lia.
Qed.

Lemma CtxRead_ok ctx chunks offset length :
  bytesPutTree ctx = chunkTree 0 chunks -> bytesPut ctx = zlen (concat chunks) -> Forall (fun b => 0 < zlen b) chunks ->
  chunks <> [] -> zlen (concat chunks) < two64 -> 0 <= offset -> 0 <= length -> offset + length <= zlen (concat chunks) ->
  CtxRead ctx offset length = Ret (take (Z.to_nat length) (drop (Z.to_nat offset) (concat chunks))).
Proof.
  intros Ht Hp Hs Hne Hw Ho Hl Hle. unfold CtxRead. rewrite Ht, Hp, uadd_small by lia.
  destruct (Z.gtb_spec (offset + length) (zlen (concat chunks))); [lia|].
  destruct (locate chunks offset Hne ltac:(lia)) as (pre & b & post & -> & Hoff & Hlast).
  apply Forall_app in Hs as [Hs1 Hs2]. apply Forall_cons in Hs2 as [Hb Hs2].
  rewrite concat_app in *. simpl in *. rewrite !zlen_app in *. set (P := zlen (concat pre)) in *.
  pose proof (zlen_nonneg (concat pre)). pose proof (zlen_nonneg (concat post)).
  rewrite chunkTree_split, Z.add_0_l. fold P. cbn [chunkTree].
  assert (HB : exists found, BisectLeft (chunkTree 0 pre ++ (P, b) :: chunkTree (P + zlen b) post) offset = (zlen (chunkTree 0 pre), found)).
  { destruct (decide (offset = P)) as [He|Hne'].
    - exists true. rewrite He. apply BisectLeft_hit. apply chunkTree_below; [done|]. fold P. lia.
    - exists false. change ((P, b) :: chunkTree (P + zlen b) post) with ([(P, b)] ++ chunkTree (P + zlen b) post).
      rewrite app_assoc, BisectLeft_miss; [f_equal; zlia| |].
      + apply Forall_app. split; [apply chunkTree_below; [done|]; fold P; lia|]. constructor; [|constructor].
        unfold below. simpl. apply Z.ltb_lt. lia.
      + destruct Hlast as [->|Hlt]; [constructor|]. by apply chunkTree_above. }
  destruct HB as [found HB]. rewrite HB.
  replace (negb found && (0 >? zlen (chunkTree 0 pre))) with false.
  2:{ destruct (Z.gtb_spec 0 (zlen (chunkTree 0 pre))); [zlia|]. by rewrite andb_false_r. }
  rewrite GetByIndex_mid. rewrite !usub_small by lia.
  assert (Hd : drop (Z.to_nat offset) (concat pre ++ b ++ concat post) = drop (Z.to_nat (offset - P)) b ++ concat post).
  { rewrite drop_app_ge by (unfold P, zlen in *; lia). rewrite drop_app_le by (unfold P, zlen in *; lia).
    do 2 f_equal. unfold P, zlen in *. lia. }
  rewrite Hd. assert (Hk : List.length (drop (Z.to_nat (offset - P)) b) = Z.to_nat (P + zlen b - offset)) by (rewrite length_drop; unfold zlen in *; lia).
  destruct (Z.leb_spec (offset + length - P) (zlen b)) as [Hin|Hout].
  - rewrite slice_ok by lia. rewrite take_app_le by (rewrite Hk; lia). do 3 f_equal. lia.
  - rewrite slice_ok by lia. cbn [obind]. rewrite take_ge by (rewrite Hk; lia).
    change ((P, b) :: chunkTree (P + zlen b) post) with ([(P, b)] ++ chunkTree (P + zlen b) post). rewrite app_assoc.
    replace (zlen (chunkTree 0 pre)) with (zlen (chunkTree 0 pre ++ [(P, b)]) - 1) by zlia.
    rewrite readMore_ok; [|done|lia|lia|lia| |].
    + rewrite take_app_ge by (rewrite Hk; lia). rewrite Hk. do 3 f_equal. lia.
    + unfold zlen. rewrite Hk. unfold P, zlen in *. lia.
    + rewrite !length_app. simpl. rewrite !length_chunkTree. lia.
Qed.

(** A context reads back what was sent through it: after any number of
    accepted chunks, whatever happened on the connection, [Read] of a range
    inside what was sent returns exactly those bytes, and [Read] beyond it is
    refused. *)
Theorem CtxRead_reads_back {N} `{TCPStream N} accountName containerName objectName chunks (s s1 s2 : swState N) ctx0 ctx offset length :
  runSw (objectFetchChunkedPutContext accountName containerName objectName) s = (s1, Returned (inr ctx0)) ->
  runSw (sendAll ctx0 chunks) s1 = (s2, Returned (ctx, None)) ->
  chunks <> [] -> zlen (concat chunks) < two64 -> 0 <= offset -> 0 <= length -> offset + length < two64 ->
  CtxRead ctx offset length
  = if offset + length <=? zlen (concat chunks)
    then Ret (take (Z.to_nat length) (drop (Z.to_nat offset) (concat chunks))) else Err (NewError BadHTTPGetError).
Proof.
  intros E1 E2 Hne Hw Ho Hl Hu. apply fetch_sends in E1.
  apply (sendAll_sends accountName containerName objectName _ _ []) in E2; [|exact E1|exact Hw]. destruct E2 as [_ _ _ Ht Hp Hs _].
  destruct (Z.leb_spec (offset + length) (zlen (concat chunks))); [by apply CtxRead_ok|].
  unfold CtxRead. rewrite Hp, uadd_small by lia. simpl app.
  destruct (Z.gtb_spec (offset + length) (zlen (concat chunks))); [done|lia].
Qed.

(** An empty chunk spoils a context for good: it is refused and the
    connection given up, but the context stays active.  A second empty chunk
    panics on the connection that is gone, every other chunk is accepted
    without an error and sent to nobody, and only [Close] reports the error. *)
Theorem empty_chunk_spoils {N} `{TCP N} (ctx ctx1 : chunkedPutContextStruct) c e (s s1 : swState N) :
  active ctx = true -> connection ctx = Some c ->
  runSw (SendChunk ctx []) s = (s1, Returned (ctx1, Some e)) ->
  (forall t : swState N, (runSw (SendChunk ctx1 []) t).2 = Panicked)
  /\ (forall (t : swState N) buf tree, buf <> [] -> Put (bytesPutTree ctx) (bytesPut ctx) buf = Some tree ->
        exists v ctx2, runSw (SendChunk ctx1 buf) t = (t <| swVars := v |>, Returned (ctx2, None)) /\ bytesPutTree ctx2 = tree)
  /\ (forall t : swState N, exists ctx2, runSw (Close ctx1) t = (t, Returned (ctx2, Some e))).
Proof.
  intros Ha Hc. unfold SendChunk. rewrite run_bind. cbn [runSw swvars]. rewrite Ha. cbn [negb]. change (0 =? zlen []) with true. cbn match.
  unfold fatalError at 1. rewrite Hc. unfold releaseChunkedConnection, release. cbn [swbind runSw].
  destruct (enterRelease true c false _) as [s2 []]; try done. intros [= <- <- <-].
  set (ctx1 := ctx <| ctx_err := _ |> <| fatal := true |> <| connection := None |>).
  assert (H1 : active ctx1 = true) by done. assert (H2 : bytesPutTree ctx1 = bytesPutTree ctx /\ bytesPut ctx1 = bytesPut ctx) by done.
  assert (H3 : connection ctx1 = None /\ fatal ctx1 = true /\ ctx_err ctx1 = Some (NewError BadHTTPPutError)) by done.
  clearbody ctx1. destruct H2 as [H2 H2'], H3 as (H3 & H3' & H3''). split_and!.
  - intros t. rewrite run_bind. cbn [runSw swvars]. rewrite H1. cbn [negb]. change (0 =? zlen []) with true. cbn match.
    unfold fatalError. by rewrite H3.
  - intros t buf tree Hb HP. rewrite run_bind. cbn [runSw swvars]. rewrite H1. cbn [negb].
    destruct (Z.eqb_spec 0 (zlen buf)) as [Hz|_]; [destruct buf; [done|zlia]|]. rewrite H2, H2', HP.
    change (ctx_err (_ <| bytesPut := _ |>)) with (ctx_err ctx1). rewrite H3''. eexists _, _. split; [reflexivity|done].
  - intros t. unfold Close, closeHelper. rewrite H1. cbn [negb].
    change (ctx_err (ctx1 <| active := false |>)) with (ctx_err ctx1). change (connection (ctx1 <| active := false |>)) with (connection ctx1).
    rewrite H3'', H3. cbn [swbind runSw]. change (fatal (ctx1 <| active := false |>)) with (fatal ctx1). rewrite H3'. cbn [runSw].
    change (ctx_err (ctx1 <| active := false |>)) with (ctx_err ctx1). rewrite H3''. eauto.
Qed.
