(* ===== verification/SwiftDeletes.v ===== *)
(** Package [swiftclient]: asynchronous deletes (object.go, config.go).

    [objectDeleteAsync] appends to a singly linked list that a daemon empties,
    one [objectDeleteSyncWithRetry] after the other.  A critical section of the
    list's mutex is one step; [condSignaled] is set when [cond.Signal] found the
    daemon in [cond.Wait].  The state of the rest of the package, [swift], is
    changed by the daemon's requests and by those of other goroutines. *)

From S2P Require Import Prelude Blunder GoStrings SwiftHttp SwiftPool SwiftRequests.
Open Scope list_scope.

(** Items are named by their address, wait groups by numbers. *)
Record pendingDeleteStruct := mkPendingDelete {
  next : option Z;
  accountName : string;
  containerName : string;
  objectName : string;
  wgPreCondition : option Z;
  wgPostSignal : option Z
}.

#[export] Instance eta_pendingDelete : Eta pendingDeleteStruct := fun p =>
  mkPendingDelete (next p) (accountName p) (containerName p) (objectName p) (wgPreCondition p) (wgPostSignal p).

(** Where the daemon is: in [cond.Wait], before the wait for the precondition,
    before the delete, before the signal, before the mutex, before the end. *)
Inductive position :=
| AtWait
| AtPreCondition (p : pendingDeleteStruct)
| AtDelete (p : pendingDeleteStruct)
| AtPostSignal (p : pendingDeleteStruct)
| AtLock
| AtDone
| Ended
| Crashed.

Record pendingDeletesStruct (N : Type) := mkPendingDeletes {
  items : gmap Z pendingDeleteStruct;
  nextItem : Z;
  head : option Z;
  tail : option Z;
  shutdownInProgress : bool;
  shutdownWaitGroup : Z;
  condSignaled : bool;
  waitGroups : gmap Z Z;
  daemon : position;
  swift : swState N;
  deleted : list pendingDeleteStruct
}.
Arguments mkPendingDeletes {N}.
Arguments items {N}.
Arguments nextItem {N}.
Arguments head {N}.
Arguments tail {N}.
Arguments shutdownInProgress {N}.
Arguments shutdownWaitGroup {N}.
Arguments condSignaled {N}.
Arguments waitGroups {N}.
Arguments daemon {N}.
Arguments swift {N}.
Arguments deleted {N}.

#[export] Instance eta_pendingDeletes N : Eta (pendingDeletesStruct N) := fun s =>
  mkPendingDeletes (items s) (nextItem s) (head s) (tail s) (shutdownInProgress s) (shutdownWaitGroup s) (condSignaled s)
    (waitGroups s) (daemon s) (swift s) (deleted s).

Section Deletes.
Context {N : Type} `{TCP N}.

(** As [Up] leaves it: the daemon is armed, that is, it waits. *)
Definition upDeletes (st : swState N) (groups : gmap Z Z) : pendingDeletesStruct N :=
  mkPendingDeletes ∅ 0 None None false 1 false groups AtWait st [].

(** [cond.Signal()] is lost on a daemon that does not wait. *)
Definition condSignal (s : pendingDeletesStruct N) : pendingDeletesStruct N :=
  s <| condSignaled := match daemon s with AtWait => true | _ => condSignaled s end |>.

Definition objectDeleteAsync (account container object : string) (pre post : option Z) (s : pendingDeletesStruct N)
    : pendingDeletesStruct N :=
  let a := nextItem s in
  let s := s <| items := <[a := mkPendingDelete None account container object pre post]> (items s) |> <| nextItem := a + 1 |> in
  match tail s with
  | None => condSignal (s <| head := Some a |> <| tail := Some a |>)
  | Some t => s <| items := alter (fun p => p <| next := Some a |>) t (items s) |> <| tail := Some a |>
  end.

(** The body of the inner loop with the mutex held, up to where it is given up. *)
Definition lookAtList (s : pendingDeletesStruct N) : pendingDeletesStruct N :=
  let s := s <| condSignaled := false |> in
  if shutdownInProgress s then s <| daemon := AtDone |>
  else match head s with
       | None => s <| daemon := AtWait |>
       | Some a =>
           match items s !! a with
           | None => s <| daemon := Crashed |>
           | Some p =>
               let s := s <| head := next p |> in
               (match head s with None => s <| tail := None |> | Some _ => s end) <| daemon := AtPreCondition p |>
           end
       end.

Definition counter (s : pendingDeletesStruct N) (w : Z) : Z := default 0 (waitGroups s !! w).

(** [objectDeleteAsyncDaemon]; [None] when it cannot move. *)
Definition stepDaemon (s : pendingDeletesStruct N) : option (pendingDeletesStruct N) :=
  match daemon s with
  | AtWait => if condSignaled s then Some (lookAtList s) else None
  | AtPreCondition p =>
      match wgPreCondition p with
      | Some w => if counter s w =? 0 then Some (s <| daemon := AtDelete p |>) else None
      | None => Some (s <| daemon := AtDelete p |>)
      end
  | AtDelete p =>
      match runSw (objectDeleteSyncWithRetry (accountName p) (containerName p) (objectName p)) (swift s) with
      | (st, Returned _) => Some (s <| swift := st |> <| deleted := deleted s ++ [p] |> <| daemon := AtPostSignal p |>)
      | _ => None
      end
  | AtPostSignal p =>
      match wgPostSignal p with
      | Some w => if 0 <? counter s w
                  then Some (s <| waitGroups := <[w := counter s w - 1]> (waitGroups s) |> <| daemon := AtLock |>)
                  else Some (s <| daemon := Crashed |>)
      | None => Some (s <| daemon := AtLock |>)
      end
  | AtLock => Some (lookAtList s)
  | AtDone => Some (s <| shutdownWaitGroup := shutdownWaitGroup s - 1 |> <| daemon := Ended |>)
  | Ended | Crashed => None
  end.

(** [Down] up to its wait; it returns when the count is 0. *)
Definition Down (s : pendingDeletesStruct N) : pendingDeletesStruct N := condSignal (s <| shutdownInProgress := true |>).
Definition downReturns (s : pendingDeletesStruct N) : bool := shutdownInProgress s && (shutdownWaitGroup s =? 0).

Inductive event :=
| EAsync (account container object : string) (pre post : option Z)
| EDown
| EDaemon
| EGroup (w count : Z)
| EOthers (st : swState N).

Definition stepDeletes (e : event) (s : pendingDeletesStruct N) : option (pendingDeletesStruct N) :=
  match e with
  | EAsync account container object pre post => Some (objectDeleteAsync account container object pre post s)
  | EDown => Some (Down s)
  | EDaemon => stepDaemon s
  | EGroup w count => Some (s <| waitGroups := <[w := count]> (waitGroups s) |>)
  | EOthers st => Some (s <| swift := st |>)
  end.

Fixpoint runDeletes (es : list event) (s : pendingDeletesStruct N) : option (pendingDeletesStruct N) :=
  match es with
  | [] => Some s
  | e :: rest => match stepDeletes e s with Some s' => runDeletes rest s' | None => None end
  end.

(** ** The list *)

(** What a delete asks for. *)
Definition wanted (p : pendingDeleteStruct) : pendingDeleteStruct := p <| next := None |>.

(** The items [q] are linked from [h] to [t]. *)
Fixpoint linked (m : gmap Z pendingDeleteStruct) (h t : option Z) (q : list (Z * pendingDeleteStruct)) : Prop :=
  match q with
  | [] => h = None /\ t = None
  | (a, p) :: rest => h = Some a /\ m !! a = Some p
      /\ match rest with [] => next p = None /\ t = Some a | _ => linked m (next p) t rest end
  end.

Definition requested (e : event) : list pendingDeleteStruct :=
  match e with EAsync a c o pre post => [mkPendingDelete None a c o pre post] | _ => [] end.

(** The item the daemon has taken and not deleted yet. *)
Definition taken (s : pendingDeletesStruct N) : list pendingDeleteStruct :=
  match daemon s with AtPreCondition p | AtDelete p => [p] | _ => [] end.

(** The invariant of the list and its daemon; [asked] has the deletes asked for. *)
Record deletes_inv (asked : list pendingDeleteStruct) (s : pendingDeletesStruct N) (q : list (Z * pendingDeleteStruct)) : Prop := {
  d_linked : linked (items s) (head s) (tail s) q;
  d_order : asked = map wanted (deleted s ++ taken s ++ q.*2);
  d_fresh : Forall (fun x => x.1 < nextItem s) q;
  d_distinct : NoDup q.*1;
  d_signal : daemon s = AtWait -> q <> [] \/ shutdownInProgress s = true -> condSignaled s = true;
  d_shutdown : shutdownWaitGroup s = (match daemon s with Ended => 0 | _ => 1 end);
  d_ended : daemon s = AtDone \/ daemon s = Ended -> shutdownInProgress s = true
}.
End Deletes.

Fixpoint linkLast (q : list (Z * pendingDeleteStruct)) (a : Z) : list (Z * pendingDeleteStruct) :=
  match q with
  | [] => []
  | [(t, p)] => [(t, p <| next := Some a |>)]
  | x :: rest => x :: linkLast rest a
  end.

Lemma linkLast_addresses q a : (linkLast q a).*1 = q.*1.
Proof.
  induction q as [|[t p] [|y q] IH]; [done..|]. change (linkLast ((t, p) :: y :: q) a) with ((t, p) :: linkLast (y :: q) a).
  by rewrite fmap_cons, IH.
Qed.

Lemma linkLast_wanted q a : map wanted (linkLast q a).*2 = map wanted q.*2.
Proof.
  induction q as [|[t p] [|y q] IH]; [done..|]. change (linkLast ((t, p) :: y :: q) a) with ((t, p) :: linkLast (y :: q) a).
  rewrite fmap_cons. cbn [map]. by rewrite IH.
Qed.

Lemma linkLast_append q a new : next new = None -> map wanted (linkLast q a ++ [(a, new)]).*2 = map wanted q.*2 ++ [new].
Proof. intros Hn. rewrite fmap_app, map_app, linkLast_wanted. simpl. destruct new. cbn in Hn. by subst. Qed.

Lemma linked_other m m' q : (forall a, a ∈ q.*1 -> m' !! a = m !! a) -> forall h t, linked m h t q -> linked m' h t q.
Proof.
  induction q as [|[a p] q IH]; intros Hm h t Hl; [done|]. destruct Hl as (-> & Ha & Hl).
  split_and!; [done|rewrite Hm; [done|by left]|]. destruct q as [|y q]; [done|].
  apply IH; [|exact Hl]. intros b Hb. apply Hm. by right.
Qed.

Lemma linked_tail m q : forall h t, linked m h t q -> match q with [] => t = None | _ => exists a, t = Some a /\ a ∈ q.*1 end.
Proof.
  induction q as [|[a p] [|y q] IH]; intros h t (H1 & H2).
  - done.
  - destruct H2 as (_ & _ & ->). exists a. split; [done|by left].
  - destruct H2 as (_ & H2). destruct (IH _ _ H2) as (b & -> & Hb). exists b. split; [done|by right].
Qed.

Lemma linked_append m q a new : next new = None -> a ∉ q.*1 -> NoDup q.*1 ->
  forall h t, linked m h (Some t) q -> q <> [] ->
  linked (alter (fun p => p <| next := Some a |>) t (<[a := new]> m)) h (Some a) (linkLast q a ++ [(a, new)]).
Proof.
  intros Hnew Ha Hd. induction q as [|[x p] q IH]; intros h t Hl Hne; [done|].
  destruct Hl as (-> & Hx & Hl). simpl in Ha, Hd. apply NoDup_cons in Hd as [Hxq Hd].
  rewrite not_elem_of_cons in Ha. destruct Ha as [Hax Ha]. destruct q as [|y q].
  - destruct Hl as [_ [= ->]]. simpl. split_and!; [done| |done| |done..].
    + by rewrite lookup_alter_eq, lookup_insert_ne, Hx by done.
    + by rewrite lookup_alter_ne, lookup_insert_eq by done.
  - destruct (linked_tail _ _ _ _ Hl) as (b & [= <-] & Hb).
    assert (IH' := IH Ha Hd _ _ Hl ltac:(done)). cbn [linkLast app linked]. destruct y as [y p'].
    split_and!; [done| |].
    + rewrite lookup_alter_ne by (intros ->; done). by rewrite lookup_insert_ne by done.
    + revert IH'. by destruct q.
Qed.

Section Invariant.
Context {N : Type} `{TCP N}.

Lemma up_inv (st : swState N) groups : deletes_inv [] (upDeletes st groups) [].
Proof. split; simpl; try done; try constructor; [by intros _ []|by intros []]. Qed.

Lemma signal_same (s : pendingDeletesStruct N) : items (condSignal s) = items s /\ head (condSignal s) = head s /\ tail (condSignal s) = tail s
  /\ deleted (condSignal s) = deleted s /\ taken (condSignal s) = taken s /\ nextItem (condSignal s) = nextItem s
  /\ daemon (condSignal s) = daemon s /\ shutdownInProgress (condSignal s) = shutdownInProgress s
  /\ shutdownWaitGroup (condSignal s) = shutdownWaitGroup s /\ (daemon s = AtWait -> condSignaled (condSignal s) = true).
Proof. unfold condSignal. split_and!; try done. intros ->. done. Qed.

Lemma async_inv asked (s : pendingDeletesStruct N) q a c o pre post : deletes_inv asked s q ->
  exists q', deletes_inv (asked ++ [mkPendingDelete None a c o pre post]) (objectDeleteAsync a c o pre post s) q'.
Proof.
  intros [Hl Ho Hf Hd Hs Hw He]. unfold objectDeleteAsync. set (new := mkPendingDelete None a c o pre post).
  assert (Hn : nextItem s ∉ q.*1).
  { intros Hin. apply list_elem_of_fmap in Hin as ([x p] & Hx & Hin). rewrite Forall_forall in Hf. apply Hf in Hin. simpl in Hx, Hin. lia. }
  destruct (tail s) as [t|] eqn:Et; cbn [tail set].
  - assert (Hq : q <> []) by (intros ->; by destruct Hl). rewrite Et.
    exists (linkLast q (nextItem s) ++ [(nextItem s, new)]). split; cbn [items head tail nextItem deleted daemon condSignaled shutdownInProgress shutdownWaitGroup set].
    + by apply linked_append.
    + rewrite Ho. change (taken (_ <| tail := _ |>)) with (taken s). 
      by rewrite !(app_assoc (deleted s)), !(map_app wanted (deleted s ++ taken s)), linkLast_append, app_assoc.
    + apply Forall_app. split; [|constructor; [simpl; lia|constructor]].
      apply Forall_forall. intros x Hx. assert (Hx1 : x.1 ∈ q.*1) by (rewrite <- (linkLast_addresses q (nextItem s)); by apply list_elem_of_fmap_2).
      apply list_elem_of_fmap in Hx1 as (y & -> & Hy). rewrite Forall_forall in Hf. apply Hf in Hy. lia.
    + rewrite fmap_app, linkLast_addresses. apply NoDup_app. split_and!; [done| |apply NoDup_singleton].
      intros x Hx Hx'. apply list_elem_of_singleton in Hx' as ->. done.
    + intros Hd' _. apply Hs; [done|by left].
    + done.
    + done.
  - rewrite Et. assert (q = []) as ->. { destruct q as [|x q]; [done|]. apply linked_tail in Hl as (b & Hb & _). congruence. }
    set (s1 := s <| items := _ |> <| nextItem := _ |> <| head := _ |> <| tail := _ |>).
    destruct (signal_same s1) as (E1 & E2 & E3 & E4 & E5 & E6 & E7 & E8 & E9 & E10).
    exists [(nextItem s, new)]. split; rewrite ?E1, ?E2, ?E3, ?E4, ?E5, ?E6, ?E7, ?E8, ?E9.
    + simpl. split_and!; [done| |done|done]. by rewrite lookup_insert_eq.
    + rewrite Ho. change (taken s1) with (taken s). change (deleted s1) with (deleted s). simpl. by rewrite !map_app, app_nil_r, <- app_assoc.
    + constructor; [simpl; lia|constructor].
    + apply NoDup_singleton.
    + intros Hd' _. by apply E10.
    + done.
    + done.
Qed.

Lemma look_inv asked (s : pendingDeletesStruct N) q : taken s = [] -> daemon s <> Ended -> deletes_inv asked s q ->
  exists q', deletes_inv asked (lookAtList s) q'
    /\ (shutdownInProgress s = false -> match q with
        | [] => daemon (lookAtList s) = AtWait /\ q' = [] /\ condSignaled (lookAtList s) = false
        | (_, p) :: rest => daemon (lookAtList s) = AtPreCondition p /\ q' = rest
        end).
Proof.
  intros Ht Hne [Hl Ho Hf Hd Hs Hw He]. unfold lookAtList. cbv zeta. cbn [shutdownInProgress head items daemon set].
  rewrite Ht in Ho. assert (Hw1 : shutdownWaitGroup s = 1) by (rewrite Hw; by destruct (daemon s)).
  destruct (shutdownInProgress s) eqn:Esd; cbn [shutdownInProgress head items daemon set]; rewrite ?Esd.
  { exists q. split; [|done]. split; cbn; try done. }
  destruct q as [|[a p] q].
  { destruct Hl as [Hh Htl]. rewrite Hh. exists []. split; [|done].
    split; cbn; rewrite ?Hh, ?Htl, ?Esd; try done; [by intros _ []|by intros []]. }
  destruct Hl as (Hh & Ha & Hl). rewrite Hh, Ha. apply Forall_cons in Hf as [_ Hf].
  rewrite fmap_cons in Hd. apply NoDup_cons in Hd as [_ Hd]. exists q. split; [|by destruct (next p)].
  destruct q as [|y q].
  - destruct Hl as [Hn Htl]. rewrite Hn. split; cbn; rewrite ?Esd; try done; by intros [].
  - assert (Hn : exists b, next p = Some b) by (destruct y, Hl as (Hn & _); eauto). destruct Hn as [b Hn].
    rewrite Hn in *. split; cbn; rewrite ?Esd, ?Hn; try done; by intros [].
Qed.

Lemma daemon_inv asked (s s' : pendingDeletesStruct N) q : deletes_inv asked s q -> stepDaemon s = Some s' -> exists q', deletes_inv asked s' q'.
Proof.
  intros Hi E. unfold stepDaemon in E. destruct (daemon s) as [|p|p|p| | | |] eqn:Ed.
  - destruct (condSignaled s); [|done]. injection E as <-. destruct (look_inv asked s q) as (q' & Hq & _); [|congruence|done|eauto].
    unfold taken. by rewrite Ed.
  - destruct Hi as [Hl Ho Hf Hd Hs Hw He]. unfold taken in Ho. rewrite Ed in Ho, Hw.
    assert (Some (s <| daemon := AtDelete p |>) = Some s') as [= <-].
    { destruct (wgPreCondition p) as [w|]; [destruct (counter s w =? 0)|]; done. }
    exists q. split; cbn; try done; by intros [].
  - destruct (runSw _ _) as [st [r| |]]; try done. injection E as <-. destruct Hi as [Hl Ho Hf Hd Hs Hw He]. unfold taken in Ho. rewrite Ed in Ho, Hw.
    exists q. split; cbn; try done; [|by intros []]. by rewrite <- app_assoc.
  - destruct Hi as [Hl Ho Hf Hd Hs Hw He]. unfold taken in Ho. rewrite Ed in Ho, Hw.
    destruct (wgPostSignal p) as [w|]; [destruct (0 <? counter s w)|]; injection E as <-; exists q; split; cbn; try done; by intros [].
  - injection E as <-. destruct (look_inv asked s q) as (q' & Hq & _); [|congruence|done|eauto]. unfold taken. by rewrite Ed.
  - injection E as <-. destruct Hi as [Hl Ho Hf Hd Hs Hw He]. unfold taken in Ho. rewrite Ed in Ho, Hw. exists q. split; cbn; try done; [lia|].
    intros _. apply He. by left.
  - done.
  - done.
Qed.

Lemma event_inv asked e (s s' : pendingDeletesStruct N) q : deletes_inv asked s q -> stepDeletes e s = Some s' ->
  exists q', deletes_inv (asked ++ requested e) s' q'.
Proof.
  intros Hi E. destruct e as [a c o pre post| | |w z|st]; cbn [requested]; rewrite ?app_nil_r.
  - injection E as <-. by eapply async_inv.
  - injection E as <-. exists q. destruct Hi as [Hl Ho Hf Hd Hs Hw He]. unfold Down.
    destruct (signal_same (s <| shutdownInProgress := true |>)) as (E1 & E2 & E3 & E4 & E5 & E6 & E7 & E8 & E9 & E10).
    split; rewrite ?E1, ?E2, ?E3, ?E4, ?E5, ?E6, ?E7, ?E8, ?E9; try done. intros Hd' _. by apply E10.
  - by eapply daemon_inv.
  - injection E as <-. exists q. by destruct Hi.
  - injection E as <-. exists q. by destruct Hi.
Qed.

Lemma run_deletes_inv es : forall asked (s s' : pendingDeletesStruct N) q, deletes_inv asked s q -> runDeletes es s = Some s' ->
  exists q', deletes_inv (asked ++ concat (map requested es)) s' q'.
Proof.
  induction es as [|e es IH]; intros asked s s' q Hi E; cbn [runDeletes] in E.
  - injection E as <-. exists q. by rewrite app_nil_r.
  - destruct (stepDeletes e s) as [s1|] eqn:E1; [|done]. eapply event_inv in E1 as [q1 Hi1]; [|done].
    eapply IH in E as [q2 Hi2]; [|done]. exists q2. simpl. by rewrite app_assoc.
Qed.

(** C27. Asynchronous deletes are done in order and none is lost: at any time,
    whatever else happens, the deletes asked for are those done, then the one
    the daemon has taken, then those linked in the list; and a daemon that
    waits while the list is not empty, or while the package goes down, has been
    signalled. *)
Theorem deletes_in_order es st groups (s : pendingDeletesStruct N) : runDeletes es (upDeletes st groups) = Some s ->
  exists q, linked (items s) (head s) (tail s) q
    /\ concat (map requested es) = map wanted (deleted s ++ taken s ++ q.*2)
    /\ (daemon s = AtWait -> q <> [] \/ shutdownInProgress s = true -> condSignaled s = true).
Proof.
  intros E. eapply (run_deletes_inv es []) in E as [q [Hl Ho Hf Hd Hs Hw He]]; [|apply up_inv]. by exists q.
Qed.

(** ** The daemon empties the list *)

(** What the daemon still has to see to. *)
Definition todo (s : pendingDeletesStruct N) (q : list (Z * pendingDeleteStruct)) : list pendingDeleteStruct :=
  match daemon s with AtPreCondition p | AtDelete p | AtPostSignal p => p :: q.*2 | _ => q.*2 end.

Definition signals (w : Z) (ps : list pendingDeleteStruct) : Z := zlen (filter (fun p => wgPostSignal p = Some w) ps).

(** No precondition is open, and every signal is waited for. *)
Definition open_way (s : pendingDeletesStruct N) (ps : list pendingDeleteStruct) : Prop :=
  (forall p w, p ∈ ps -> wgPreCondition p = Some w -> counter s w = 0) /\ (forall w, signals w ps <= counter s w).

Lemma open_way_rest s p ps : open_way s (p :: ps) -> open_way s ps.
Proof.
  intros [H1 H2]. split; [intros p' w Hp; apply H1; by right|]. intros w. specialize (H2 w). unfold signals in *.
  rewrite filter_cons in H2. destruct (decide _); [|done]. zlia.
Qed.

Section Drain.
Context (P : swState N -> Prop).
Context (returns : forall p st, P st -> exists st' r,
  runSw (objectDeleteSyncWithRetry (accountName p) (containerName p) (objectName p)) st = (st', Returned r) /\ P st').

Record draining (asked : list pendingDeleteStruct) (s : pendingDeletesStruct N) (q : list (Z * pendingDeleteStruct)) : Prop := {
  r_inv : deletes_inv asked s q;
  r_up : shutdownInProgress s = false;
  r_alive : daemon s <> Crashed;
  r_open : open_way s (todo s q);
  r_swift : P (swift s)
}.

Definition rank (s : pendingDeletesStruct N) : nat :=
  match daemon s with AtPreCondition _ => 4 | AtDelete _ => 3 | AtPostSignal _ => 2 | AtLock => 1 | AtWait => if condSignaled s then 1 else 0 | _ => 0 end%nat.

Lemma drain_look asked s q : taken s = [] -> daemon s = AtLock \/ daemon s = AtWait -> draining asked s q ->
  exists q', draining asked (lookAtList s) q' /\ (5 * length q' + rank (lookAtList s) < 5 * length q + 1)%nat.
Proof.
  intros Ht Hp [Hi Hup Ha Ho HP]. destruct (look_inv asked s q Ht ltac:(destruct Hp; congruence) Hi) as (q' & Hi' & Hn). specialize (Hn Hup).
  assert (Hsame : shutdownInProgress (lookAtList s) = false /\ swift (lookAtList s) = swift s /\ waitGroups (lookAtList s) = waitGroups s).
  { unfold lookAtList. cbv zeta. cbn. rewrite Hup. destruct (head s); [|done]. destruct (items s !! _) as [p|]; [|done]. by destruct (next p). }
  destruct Hsame as (E1 & E2 & E3). assert (Htodo : todo s q = q.*2) by (unfold todo; by destruct Hp as [-> | ->]). rewrite Htodo in Ho.
  exists q'. unfold rank. destruct q as [|[a p] q].
  - destruct Hn as (Hd & -> & Hs). rewrite Hd, Hs. split; [|simpl; lia]. split; try done; [congruence| |congruence].
    unfold todo, open_way, counter. rewrite Hd, E3. exact Ho.
  - destruct Hn as (Hd & ->). rewrite Hd. split; [|simpl; lia]. split; try done; [congruence| |congruence].
    unfold todo, open_way, counter. rewrite Hd, E3. exact Ho.
Qed.

Lemma drain_step asked s q : draining asked s q ->
  (daemon s = AtWait /\ q = []) \/ exists s' q', stepDaemon s = Some s' /\ draining asked s' q'
    /\ (5 * length q' + rank s' < 5 * length q + rank s)%nat.
Proof.
  intros Hr. pose proof Hr as [Hi Hup Ha Ho HP].
  assert (Hstep : forall s' q', stepDaemon s = Some s' -> deletes_inv asked s' q' -> True) by done.
  unfold stepDaemon, rank. destruct (daemon s) as [|p|p|p| | | |] eqn:Ed; try done.
  - destruct (condSignaled s) eqn:Es.
    + right. destruct (drain_look asked s q) as (q' & Hr' & Hm); [unfold taken; by rewrite Ed|by right|done|]. eauto.
    + left. split; [done|]. destruct q as [|x q]; [done|]. rewrite (d_signal _ _ _ Hi) in Es; [done|done|by left].
  - right. unfold todo in Ho. rewrite Ed in Ho.
    assert (E : stepDaemon s = Some (s <| daemon := AtDelete p |>)).
    { unfold stepDaemon. rewrite Ed. destruct (wgPreCondition p) as [w|] eqn:Ew; [|done].
      destruct Ho as [Ho _]. by rewrite (Ho p w) by (try left; done). }
    exists (s <| daemon := AtDelete p |>), q. unfold stepDaemon in E. rewrite Ed in E. split_and!; [exact E| |cbn; lia].
    split; try done. destruct Hi as [H1 H2 H3 H4 H5 H6 H7]. unfold taken in H2. rewrite Ed in H2, H6. split; cbn; try done; by intros [].
  - right. unfold todo in Ho. rewrite Ed in Ho. destruct (returns p (swift s) HP) as (st & r & E & HP'). rewrite E.
    eexists _, q. split_and!; [done| |cbn; lia]. split; try done.
    destruct Hi as [H1 H2 H3 H4 H5 H6 H7]. unfold taken in H2. rewrite Ed in H2, H6. split; cbn; try done; [|by intros []]. by rewrite <- app_assoc.
  - right. unfold todo in Ho. rewrite Ed in Ho. destruct Hi as [H1 H2 H3 H4 H5 H6 H7]. unfold taken in H2. rewrite Ed in H2, H6.
    destruct (wgPostSignal p) as [w|] eqn:Ew.
    2:{ eexists _, q. split_and!; [done| |cbn; lia]. apply open_way_rest in Ho. split; try done. split; cbn; try done; by intros []. }
    destruct Ho as [Ho1 Ho2].
    assert (Hsig : forall w', signals w' (p :: q.*2) = (if decide (w' = w) then 1 else 0) + signals w' q.*2).
    { intros w'. unfold signals. rewrite filter_cons, Ew. destruct (decide (w' = w)) as [->|Hne].
      - rewrite decide_True by done. zlia.
      - rewrite decide_False by congruence. done. }
    assert (Hw : 0 < counter s w). { specialize (Ho2 w). rewrite Hsig, decide_True in Ho2 by done. unfold signals in Ho2. zlia. }
    destruct (Z.ltb_spec 0 (counter s w)); [|lia]. eexists _, q. split_and!; [done| |cbn; lia]. split; try done.
    + split; cbn; try done; by intros [].
    + split.
      * intros p' w' Hp' Ew'. unfold counter. cbn. destruct (decide (w = w')) as [<-|Hne].
        { specialize (Ho1 p' w ltac:(by right) Ew'). lia. }
        rewrite lookup_insert_ne by done. apply (Ho1 p'); [by right|done].
      * intros w'. specialize (Ho2 w'). rewrite Hsig in Ho2. unfold counter in *. cbn. destruct (decide (w' = w)) as [->|Hne].
        { rewrite lookup_insert_eq. simpl. unfold todo. cbn. lia. }
        rewrite lookup_insert_ne by done. unfold todo. cbn. lia.
  - right. destruct (drain_look asked s q) as (q' & Hr' & Hm); [unfold taken; by rewrite Ed|by left|done|]. eauto.
  - rewrite (d_ended _ _ _ Hi) in Hup; [done|by left].
  - rewrite (d_ended _ _ _ Hi) in Hup; [done|by right].
Qed.

Lemma drain_all k : forall asked s q, draining asked s q -> (5 * length q + rank s <= k)%nat ->
  exists n s', runDeletes (repeat EDaemon n) s = Some s' /\ daemon s' = AtWait /\ deletes_inv asked s' [].
Proof.
  induction k as [|k IH]; intros asked s q Hr Hk; destruct (drain_step asked s q Hr) as [[Hd ->]|(s1 & q1 & E & Hr1 & Hm)].
  - exists O, s. split_and!; [done|done|apply Hr].
  - lia.
  - exists O, s. split_and!; [done|done|apply Hr].
  - destruct (IH asked s1 q1 Hr1 ltac:(lia)) as (n & s' & E' & Hd & Hi). exists (S n), s'. split_and!; [|done|done].
    cbn [repeat runDeletes stepDeletes]. by rewrite E.
Qed.

(** C26. The daemon empties the list: while the package is not going down,
    wherever the daemon is, if its requests return, no precondition is open and
    the signals are waited for, it gets by its own steps to where it waits, with
    an empty list and every delete that was asked for done, in order. *)
Theorem deletes_drain es st groups (s : pendingDeletesStruct N) q : runDeletes es (upDeletes st groups) = Some s ->
  linked (items s) (head s) (tail s) q ->
  shutdownInProgress s = false -> daemon s <> Crashed -> open_way s (todo s q) -> P (swift s) ->
  exists n s', runDeletes (repeat EDaemon n) s = Some s' /\ daemon s' = AtWait /\ head s' = None
    /\ map wanted (deleted s') = concat (map requested es).
Proof.
  intros E Hq Hup Ha Ho HP. eapply (run_deletes_inv es []) in E as [q' Hi]; [|apply up_inv].
  assert (q' = q) as ->.
  { destruct Hi as [Hl _ _ _ _ _ _]. revert Hl Hq. generalize (head s), (tail s). clear. revert q.
    induction q' as [|[a p] q' IH]; intros [|[b p'] q] h t (H1 & H2) (H3 & H4); try congruence.
    destruct H2 as (H2 & H5), H4 as (H4 & H6). assert (a = b) as <- by congruence. assert (p = p') as <- by congruence.
    f_equal. destruct q' as [|x q'], q as [|y q].
    - done.
    - destruct H5 as [H5 _], y, H6 as (H6 & _). congruence.
    - destruct H6 as [H6 _], x, H5 as (H5 & _). congruence.
    - exact (IH (y :: q) _ _ H5 H6). }
  destruct (drain_all _ _ s q ltac:(by split) (le_n _)) as (n & s' & E & Hd & [Hl Ho' _ _ _ _ _]).
  exists n, s'. destruct Hl as [Hh _]. split_and!; [done|done|done|]. simpl in Ho'.
  rewrite Ho'. unfold taken. by rewrite Hd, !app_nil_r.
Qed.
End Drain.
End Invariant.
