(* ===== verification/SwiftInstance.v ===== *)
(** A scripted server, and requests sent to it.

    What comes on each connection is fixed beforehand; a [Read] returns at most
    three bytes, a connection can break after some writes.  The runs show that
    the hypotheses of the theorems on [swiftclient] can hold, and what goes
    wrong where the code does not do what it means to. *)

From S2P Require Import Prelude SortedMap Blunder Utils GoStrings SwiftHttp SwiftHttpFacts SwiftPool SwiftPoolFacts SwiftClients.
From S2P Require Import SwiftRequests SwiftChunkedPut SwiftRequestFacts SwiftRunFacts SwiftPutFacts SwiftDeletes.
From Stdlib Require Import Ascii.
Open Scope list_scope.

(** ** The server *)

Record scripted := mkScripted {
  toCome : gmap Z bytes;
  sentTo : gmap Z bytes;
  writesLeft : gmap Z nat;
  clock : Z
}.

#[export] Instance eta_scripted : Eta scripted := fun n => mkScripted (toCome n) (sentTo n) (writesLeft n) (clock n).

Definition bytesOf (m : gmap Z bytes) (c : Z) : bytes := default [] (m !! c).

Definition scriptWrite (c : Z) (buf : bytes) : St scripted error Z := fun n =>
  match writesLeft n !! c with
  | Some O => (n, Err plain)
  | budget => (n <| sentTo := <[c := bytesOf (sentTo n) c ++ buf]> (sentTo n) |>
               <| writesLeft := match budget with Some (S k) => <[c := k]> (writesLeft n) | _ => writesLeft n end |>, Ret (zlen buf))
  end.

Definition scriptRead (c size : Z) : St scripted error (Z * bytes) := fun n =>
  match bytesOf (toCome n) c with
  | b :: rest =>
      let k := Nat.min 2 (Z.to_nat (size - 1)) in
      (n <| toCome := <[c := drop k rest]> (toCome n) |>, Ret (b, take k rest))
  | [] => (n, Err plain)
  end.

#[export] Instance scriptedTCP : TCP scripted := {
  noAuthStringAddr := "127.0.0.1:8090";
  DialTCP := fun _ => sret tt;
  tcpWrite := scriptWrite;
  tcpRead := scriptRead;
  tcpClose := fun c n => n <| writesLeft := <[c := O]> (writesLeft n) |>;
  clockNow := clock;
  sleepFor := fun d n => n <| clock := clock n + d |>;
  rangeOrder := map_to_list;
  bufferLimit := 200
}.

Lemma bytesOf_insert m c l : bytesOf (<[c := l]> m) c = l.
Proof. unfold bytesOf. by rewrite lookup_insert_eq. Qed.

#[export] Instance scriptedStream : TCPStream scripted.
Proof.
  refine {| incoming := fun n c => bytesOf (toCome n) c; outgoing := fun n c => bytesOf (sentTo n) c |}.
  - intros n c size b rest Hs Hi. cbn. unfold scriptRead. rewrite Hi.
    eexists _, _. split; [done|]. cbn [toCome sentTo set]. rewrite bytesOf_insert. split_and!; [|done|done].
    unfold zlen. rewrite length_take. lia.
  - intros n c buf n' k. cbn. unfold scriptWrite.
    destruct (writesLeft n !! c) as [[|left]|]; [done| |]; intros [= <- <-]; cbn [sentTo set]; by rewrite bytesOf_insert.
Defined.

Definition text (s : string) : bytes := StringToByteSlice s.

(** A server that sends each connection its bytes; a second list tells after how
    many writes a connection breaks. *)
Definition server (responses : list bytes) (breaks : list (Z * nat)) : scripted :=
  mkScripted (list_to_map (imap (fun i r => (Z.of_nat i, r)) responses)) ∅ (list_to_map breaks) 0.

Definition okHead (hs : list (string * list string)) : bytes := text (responseHead 200 "OK" hs).
Definition busyHead : bytes := text (responseHead 503 "Busy" []).
Definition chunkedBody (chunks : list bytes) : bytes := concat (map chunkBytes (chunks ++ [[]])).
Definition chunkedHead : list (string * list string) := [("Transfer-Encoding", ["chunked"])]%string.

(** At most two retries, without delay. *)
Definition testVars (callbackSet : bool) : requestGlobals :=
  mkRequestGlobals 2 2 5 5 (fun d => d * 2) (fun d => d * 2) callbackSet 0 0 0 0 0.

Definition testPools (size nonChunkedSize : Z) : poolGlobals :=
  match upPools size nonChunkedSize with Ret g => g | _ => mkPoolGlobals 0 (newPool 0) (newPool 0) false O false 0 0 end.

Definition ready (n : scripted) : swState scripted := mkSwState n (testPools 2 2) (testVars false).

Lemma ready_inv n : sw_inv (swPools (ready n)) [] (fun _ => []) 0 0.
Proof.
  destruct (start_inv n (testVars false) 2 2 (testPools 2 2) [] ltac:(lia) ltac:(lia) eq_refl ltac:(constructor)) as [_ Hi].
  exact Hi.
Qed.

(** ** Texts *)

Definition sentence : list bytes := [text "Chunked "; text "transfer"].

Lemma lacks_compute sep s : bool_decide (cutAt sep s = (s, None)) = true -> lacks sep s.
Proof. unfold lacks. by rewrite bool_decide_eq_true. Qed.

Fixpoint noCRb (s : string) : bool :=
  match s with EmptyString => true | String c s' => negb (byteOfAscii c =? CR) && noCRb s' end.

Lemma noCRb_ok s : noCRb s = true -> allChars notCR s.
Proof.
  induction s as [|c s IH]; simpl; [done|]. rewrite andb_true_iff, negb_true_iff, Z.eqb_neq. intros [Hc Hs]. by split; [|apply IH].
Qed.

Definition headerOkb (h : string * list string) : bool :=
  bool_decide (cutAt ":"%char h.1 = (h.1, None)) && negb (bool_decide (h.2 = []))
  && forallb (fun v => bool_decide (cutAt ","%char v = (v, None)) && bool_decide (TrimSpace v = v)) h.2
  && noCRb (headerText h).

Lemma headerOkb_ok h : headerOkb h = true -> header_ok h.
Proof.
  unfold headerOkb. rewrite !andb_true_iff, negb_true_iff, forallb_forall, bool_decide_eq_true, bool_decide_eq_false.
  intros [[[H1 H2] H3] H4]. split; [done|done| | |by apply noCRb_ok].
  - apply Forall_forall. intros v Hv. apply list_elem_of_In, H3, andb_true_iff in Hv as [Hv _]. by apply lacks_compute.
  - apply Forall_forall. intros v Hv. apply list_elem_of_In, H3, andb_true_iff in Hv as [_ Hv]. by apply bool_decide_eq_true in Hv.
Qed.

Definition headersb (httpStatus : Z) (reason : string) (hs : list (string * list string)) : bool :=
  noCRb reason && forallb headerOkb hs && bool_decide (NoDup hs.*1)
  && (String.length (statusText httpStatus reason) <? 200)%nat
  && forallb (fun h => String.length (headerText h) <? 200)%nat hs && (length hs <? 200)%nat.

Lemma headersb_ok v reason hs : headersb v reason hs = true ->
  allChars notCR reason /\ Forall header_ok hs /\ NoDup hs.*1 /\ head_fits (N := scripted) v reason hs.
Proof.
  unfold headersb. rewrite !andb_true_iff, !forallb_forall, bool_decide_eq_true, !Nat.ltb_lt. intros [[[[[H1 H2] H3] H4] H5] H6].
  split_and!; [by apply noCRb_ok| |done|].
  - apply Forall_forall. intros h Hh. by apply headerOkb_ok, H2, list_elem_of_In.
  - split; [done| |done]. apply Forall_forall. intros h Hh. by apply Nat.ltb_lt, H5, list_elem_of_In.
Qed.

(** ** HTTP *)

Definition sentOnce : scripted := (sfor (sentence ++ [[]]) (writeHTTPPutChunk 0) (server [] [])).1.

Lemma chunked_transfer_roundtrip_witness :
  exists sent, outgoing sentOnce 0 = outgoing (server [] []) 0 ++ sent /\
    forall t d rest, incoming t d = sent ++ rest ->
    exists t', readPayload (N := scripted) d (list_to_map chunkedHead) t = (t', Ret (text "Chunked transfer")) /\ incoming t' d = rest.
Proof.
  refine (chunked_transfer_roundtrip (server [] []) 0 sentence sentOnce (list_to_map chunkedHead) _ _ _ _).
  - repeat constructor; unfold two32; vm_compute; done.
  - cbn. lia.
  - by vm_compute.
  - by vm_compute.
Defined.

Definition sampleHeaders : list (string * list string) := [("Content-Length", ["16"]); ("Accept", ["text/plain"; "text/html"])]%string.

Lemma response_head_roundtrip_witness :
  exists s', readHTTPStatusAndHeaders 0 (server [text (responseHead 206 "Partial" sampleHeaders) ++ [1; 2]] [])
             = (s', Ret (206, list_to_map sampleHeaders)) /\ incoming s' 0 = [1; 2].
Proof.
  destruct (headersb_ok 206 "Partial" sampleHeaders) as (H1 & H2 & H3 & H4); [by vm_compute|].
  apply (response_head_roundtrip _ 0 206 "Partial" sampleHeaders [1; 2]); [lia|exact H1|exact H2|exact H3|exact H4|by vm_compute].
Defined.

Definition listingHeaders (names : list string) : list (string * list string) := [("Content-Length"%string, [FormatUint (zlen (listing names))])].

(** A container with an object named "c". *)
Definition sampleNames : list string := ["aa"; "bb"; "c"].

Lemma listing_needs_two_characters_witness :
  exists s', readHTTPPayloadLines 0 (list_to_map (listingHeaders sampleNames)) (server [listing sampleNames] []) = (s', Err plain)
    /\ incoming s' 0 = [].
Proof.
  refine (listing_needs_two_characters (server [listing sampleNames] []) 0 sampleNames (list_to_map (listingHeaders sampleNames)) [] _ _ _ _ _).
  - repeat constructor; by vm_compute.
  - done.
  - by vm_compute.
  - by vm_compute.
  - by vm_compute.
Defined.

(** ** A GET *)

Definition rangeAnswer : bytes := okHead chunkedHead ++ chunkedBody sentence.

Definition getStart : swState scripted := ready (server [rangeAnswer] []).

Definition firstConnection : connectionStruct := mkConnection 0 0.

Lemma objectGet_returns_body_witness :
  exists n2 s', incoming n2 0 = []
    /\ enterRelease false firstConnection true ((enterAcquire false getStart).1 <| network := n2 |>) = (s', Gone)
    /\ runSw (objectGet "a" "c" "o" 0 16) getStart = (s', Returned (inr (text "Chunked transfer"))).
Proof.
  destruct (headersb_ok 200 "OK" chunkedHead) as (H1 & H2 & H3 & H4); [by vm_compute|].
  apply (objectGet_returns_body "a" "c" "o" 0 16 getStart (enterAcquire false getStart).1 firstConnection
    (writeHTTPRequestLineAndHeaders 0 "GET" (objectPath "a" "c" "o") (rangeHeader "bytes=0-15") (network getStart)).1
    chunkedHead (text "Chunked transfer") [] [] (fun _ => []) 0 0).
  - apply ready_inv.
  - by vm_compute.
  - split; [by vm_compute| |by split|cbn; lia].
    exists 200, "OK"%string, (chunkedBody sentence). split_and!; [lia|lia|exact H1|exact H4| |by vm_compute].
    left. split; [by vm_compute|]. exists sentence. split_and!; [|cbn; lia|done|done].
    repeat constructor; unfold two32; vm_compute; done.
Defined.

(** ** Retries *)

(** A busy server at first, then a good answer on the connection of the second attempt. *)
Definition busyThenOk : swState scripted := ready (server [busyHead; rangeAnswer] []).

Definition loadRetry : RetryCtrl := mkRetryCtrl 2 0 5 (fun d => d * 2) 0 0.

Lemma RequestWithRetry_tries_witness :
  runSw (RequestWithRetry (request (objectLoad "a" "c" "o")) loadRetry tt) busyThenOk
  = runSw (tryTimes (request (objectLoad "a" "c" "o")) 2 loadRetry tt) busyThenOk.
Proof. apply (RequestWithRetry_tries (request (objectLoad "a" "c" "o")) loadRetry tt busyThenOk). cbn. lia. Defined.

Example second_attempt_succeeds :
  (runSw (RequestWithRetry (request (objectLoad "a" "c" "o")) loadRetry tt) busyThenOk).2 = Returned (tt, inr (text "Chunked transfer")).
Proof. by vm_compute. Qed.

(** ** A Chunked PUT *)

(** The first connection breaks in the middle of the second chunk. *)
Definition putStart : swState scripted := ready (server [[]; okHead [("Connection", ["close"])]%string] [(0, 4%nat)]).

Definition putDone : swState scripted := (runSw (putChunks "a" "c" "o" sentence) putStart).1.

Lemma put_delivers_object_witness : delivered "a" "c" "o" (network putDone) sentence.
Proof.
  apply (put_delivers_object "a" "c" "o" sentence putStart putDone); [by vm_compute|].
  vm_compute. reflexivity.
Defined.

Definition contextOf {A} (d : A) (r : swOutcome (error + A)) : A := match r with Returned (inr ctx) => ctx | _ => d end.
Definition noContext : chunkedPutContextStruct := mkContext "" "" "" false None false None 0 [].

Definition fetched := runSw (objectFetchChunkedPutContext "a" "c" "o") putStart.
Definition fetchedContext : chunkedPutContextStruct := contextOf noContext fetched.2.
Definition fed := runSw (sendAll fetchedContext sentence) fetched.1.
Definition fedContext : chunkedPutContextStruct := match fed.2 with Returned (ctx, _) => ctx | _ => noContext end.

Lemma CtxRead_reads_back_witness : CtxRead fedContext 3 9 = Ret (text "nked tran").
Proof.
  refine (eq_trans (CtxRead_reads_back "a" "c" "o" sentence putStart fetched.1 fed.1 fetchedContext fedContext 3 9 _ _ _ _ _ _ _) _).
  - vm_compute. reflexivity.
  - vm_compute. reflexivity.
  - done.
  - by vm_compute.
  - lia.
  - lia.
  - by vm_compute.
  - by vm_compute.
Defined.

(** ** Goroutines *)

Lemma run_reach callback schedule : forall start sys : swSystem (N := scripted),
  swReach callback start sys -> swReach callback start (runSchedule callback schedule sys).
Proof.
  induction schedule as [|c rest IH]; intros start sys Hr; cbn [runSchedule]; [done|]. apply IH.
  destruct (stepSystem callback sys c) as [sys'|] eqn:E; [|done]. by eapply swr_step.
Qed.

Definition turns (n i : nat) : list (nat * bool) := repeat (i, false) n.

(** Two goroutines that PUT and one that GETs, on a chunked pool of one connection. *)
Definition clients : list (list swCall) := [[CPut "a" "c" "o" sentence]; [CPut "a" "c" "p" sentence]; [CObjectLoad "a" "c" "q"]].

Definition responses : list bytes := [okHead [] ++ okHead []; rangeAnswer].

Definition callback : list swCall := [CChunkedConnectionFreeCnt].

Definition begun : swSystem (N := scripted) := swStart (server responses []) (testVars true) (testPools 1 1) clients.

Definition schedule (l : list (nat * bool)) : swSystem (N := scripted) := runSchedule (runCalls callback) l begun.

Lemma schedule_reach l : swReach (runCalls callback) begun (schedule l).
Proof. apply run_reach. constructor. Qed.

(** The second goroutine waits for the connection of the first. *)
Definition waiting : swSystem (N := scripted) := schedule (turns 5 0 ++ turns 20 1 ++ turns 6 2).

Lemma requests_share_connections_witness :
  exists hss, Forall2 tinv waiting.2 hss
    /\ (forall chunked, let p := getPool chunked (swPools waiting.1) in
         poolInUse p = zlen (heldIn chunked (concat hss)) + zlen (signaled p) /\ poolInUse p <= poolCapacity p
         /\ (waiters p <> [] -> poolInUse p = poolCapacity p))
    /\ NoDup (tcpConn <$> idleIn true (swPools waiting.1) ++ idleIn false (swPools waiting.1) ++ (concat hss).*2).
Proof.
  apply (requests_share_connections (server responses []) (testVars true) 1 1 (testPools 1 1) callback clients ltac:(lia) ltac:(lia) eq_refl).
  apply schedule_reach.
Defined.

Definition waitsAt (i : nat) (sys : swSystem (N := scripted)) : option (bool * Z) :=
  match sys.2 !! i with Some (mkGoroutine _ (Waiting chunked cv _)) => Some (chunked, cv) | _ => None end.

Lemma waitsAt_ok i sys chunked cv : waitsAt i sys = Some (chunked, cv) ->
  exists sv k, sys.2 !! i = Some (mkGoroutine sv (Waiting chunked cv k)).
Proof. unfold waitsAt. destruct (sys.2 !! i) as [[sv []]|]; try done. intros [= <- <-]. eauto. Qed.

Lemma requests_no_lost_waiter_witness :
  let p := getPool true (swPools waiting.1) in
  0 ∈ signaled p
  \/ 0 ∈ waiters p /\ exists hss, Forall2 tinv waiting.2 hss
      /\ zlen (heldIn true (concat hss)) + zlen (signaled p) = poolCapacity p /\ 0 < poolCapacity p.
Proof.
  destruct (waitsAt_ok 1 waiting true 0) as (sv & k & E); [by vm_compute|].
  apply (requests_no_lost_waiter (server responses []) (testVars true) 1 1 (testPools 1 1) callback clients
    ltac:(lia) ltac:(lia) eq_refl waiting 1 sv true 0 k); [apply schedule_reach|exact E].
Defined.

Definition finishedb (t : goroutine (N := scripted)) : bool :=
  match doing t with Running (SwRet tt) => true | Selecting => true | _ => false end.

Lemma finishedb_ok ts : forallb finishedb ts = true -> Forall finished ts.
Proof.
  rewrite forallb_forall. intros Hf. apply Forall_forall. intros t Ht. apply list_elem_of_In, Hf in Ht.
  unfold finishedb, finished in *. destruct (doing t) as [[[]| | | | | | | |]| | |]; try done; [by left|by right].
Qed.

Definition allDone : swSystem (N := scripted) := schedule (turns 5 0 ++ turns 20 1 ++ turns 60 0 ++ turns 60 1 ++ turns 60 2).

Lemma requests_leak_nothing_witness :
  poolInUse (getPool true (swPools allDone.1)) = 0 /\ waiters (getPool true (swPools allDone.1)) = [].
Proof.
  apply (requests_leak_nothing (server responses []) (testVars true) 1 1 (testPools 1 1) callback clients
    ltac:(lia) ltac:(lia) eq_refl allDone); [apply schedule_reach|].
  apply finishedb_ok. by vm_compute.
Defined.

(** ** Histories that go wrong *)

(** No goroutine moves, whichever way a [select] goes. *)
Definition stuckb (cb : swProg scripted unit) (sys : swSystem (N := scripted)) : bool :=
  forallb (fun i => forallb (fun timeout => match stepSystem cb sys (i, timeout) with None => true | Some _ => false end) [true; false])
    (seq 0 (length sys.2)).

(** Three goroutines PUT on one connection, and so does the callback. *)
Definition starved : swSystem (N := scripted) :=
  swStart (server [okHead [] ++ okHead [] ++ okHead []] []) (testVars true) (testPools 1 1)
    [[CPut "a" "c" "o" sentence]; [CPut "a" "c" "p" sentence]; [CPut "a" "c" "q" sentence]].

Definition starvedCallback : swProg scripted unit := runCalls [CPut "a" "c" "r" sentence].

(** The second waits, which starts a starvation goroutine (3), whose timer
    fires; the first is done and resolves the starvation; the third waits, with a
    starvation goroutine (4) of its own, whose timer fires too; the second is
    done.  Then everything runs on. *)
Definition starvation : list (nat * bool) :=
  turns 5 0 ++ turns 5 1 ++ [(3%nat, true)] ++ turns 60 0 ++ turns 5 1 ++ turns 5 2 ++ [(4%nat, true)] ++ turns 60 1
  ++ turns 60 2 ++ turns 60 3 ++ turns 60 4 ++ turns 60 0 ++ turns 60 1.

(** The starvation goroutines can deadlock the chunked pool: the channel that
    tells a starvation goroutine to end holds one value, and the goroutine that
    gives a connection back sends on it with the mutex of the pool held.  When
    two starvation goroutines are in the callback and the callback needs the
    pool, two resolved starvations fill the channel: the sender waits for one of
    them with the mutex, and they wait for the mutex.  No goroutine moves
    again. *)
Theorem starvation_deadlock : exists schedule,
  let sys := runSchedule starvedCallback schedule starved in
  swReach starvedCallback starved sys /\ stuckb starvedCallback sys = true
  /\ (exists sender k, sys.2 !! sender = Some (mkGoroutine false (Delivering k)))
  /\ mutexFree true sys.1 = false /\ forallb finishedb sys.2 = false.
Proof.
  exists starvation. split; [apply run_reach; constructor|]. split; [by vm_compute|]. split; [|split; by vm_compute].
  exists 1%nat. vm_compute. eauto.
Qed.

Lemma empty_chunk_spoils_witness : exists ctx1 e,
  (runSw (SendChunk fetchedContext []) fetched.1).2 = Returned (ctx1, Some e)
  /\ (forall t : swState scripted, (runSw (SendChunk ctx1 []) t).2 = Panicked).
Proof.
  destruct (runSw (SendChunk fetchedContext []) fetched.1) as [s1 [[ctx1 [e|]]| |]] eqn:E; [|by vm_compute in E..].
  exists ctx1, e. split; [done|]. apply (empty_chunk_spoils fetchedContext ctx1 firstConnection e fetched.1 s1); [by vm_compute..|exact E].
Defined.

(** ** Asynchronous deletes *)

(** A server that takes nothing: every request fails, and returns. *)
#[export] Instance deafTCP : TCP unit := {
  noAuthStringAddr := "127.0.0.1:8090";
  DialTCP := fun _ => sret tt;
  tcpWrite := fun _ _ => serr plain;
  tcpRead := fun _ _ => serr plain;
  tcpClose := fun _ n => n;
  clockNow := fun _ => 0;
  sleepFor := fun _ n => n;
  rangeOrder := map_to_list;
  bufferLimit := 200
}.

Definition deafPools (k : Z) : poolGlobals := (testPools 1 1) <| nextTCPConn := k |>.

Definition deaf (k : Z) : swState unit := mkSwState tt (deafPools k) ((testVars false) <| retryLimitObject := 0 |>).

Lemma deaf_returns p st : (exists k, st = deaf k) -> exists st' r,
  runSw (objectDeleteSyncWithRetry (accountName p) (containerName p) (objectName p)) st = (st', Returned r) /\ exists k, st' = deaf k.
Proof.
  intros [k ->]. eexists (deaf (k + 1)), _. split; [|eauto]. vm_compute. reflexivity.
Qed.

(** Two deletes, one with a precondition and a signal; the daemon has begun. *)
Definition asked : list (event (N := unit)) :=
  [EGroup 1 1; EGroup 2 1; EAsync "a" "c" "o" (Some 1) (Some 2); EDaemon; EAsync "a" "c" "p" None None; EGroup 1 0]%string.

Definition begunDeletes : pendingDeletesStruct unit :=
  match runDeletes asked (upDeletes (deaf 0) ∅) with Some s => s | None => upDeletes (deaf 0) ∅ end.

Definition secondDelete : pendingDeleteStruct := mkPendingDelete None "a" "c" "p" None None.

Lemma begun_run : runDeletes asked (upDeletes (deaf 0) ∅) = Some begunDeletes.
Proof. vm_compute. reflexivity. Qed.

Lemma deletes_in_order_witness : exists q, linked (items begunDeletes) (head begunDeletes) (tail begunDeletes) q
  /\ concat (map requested asked) = map wanted (deleted begunDeletes ++ taken begunDeletes ++ q.*2)
  /\ (daemon begunDeletes = AtWait -> q <> [] \/ shutdownInProgress begunDeletes = true -> condSignaled begunDeletes = true).
Proof. apply (deletes_in_order asked (deaf 0) ∅ begunDeletes). apply begun_run. Defined.

Lemma begun_todo : todo begunDeletes [(1, secondDelete)] = [mkPendingDelete None "a" "c" "o" (Some 1) (Some 2); secondDelete].
Proof. vm_compute. reflexivity. Qed.

Lemma begun_groups : waitGroups begunDeletes = {[ 1 := 0; 2 := 1 ]}.
Proof. vm_compute. reflexivity. Qed.

Lemma begun_open : open_way begunDeletes (todo begunDeletes [(1, secondDelete)]).
Proof.
  rewrite begun_todo. unfold open_way, signals, counter. rewrite begun_groups. split.
  - intros p w Hp. rewrite !elem_of_cons in Hp. destruct Hp as [->|[->|Hp]]; [|done|by apply elem_of_nil in Hp].
    cbn. by intros [= <-].
  - intros w. destruct (decide (w = 2)) as [->|Hne]; [done|]. rewrite !filter_cons, !decide_False by (cbn; congruence).
    destruct (decide (w = 1)) as [->|Hne']; [done|]. by rewrite !lookup_insert_ne, lookup_singleton_ne by done.
Qed.

Lemma begun_linked : linked (items begunDeletes) (head begunDeletes) (tail begunDeletes) [(1, secondDelete)].
Proof. vm_compute. done. Qed.

Lemma begun_deaf : exists k, swift begunDeletes = deaf k.
Proof. exists 0. vm_compute. reflexivity. Qed.

Lemma begun_alive : shutdownInProgress begunDeletes = false /\ daemon begunDeletes <> Crashed.
Proof. by vm_compute. Qed.

Lemma deletes_drain_witness : exists n s', runDeletes (repeat EDaemon n) begunDeletes = Some s' /\ daemon s' = AtWait /\ head s' = None
  /\ map wanted (deleted s') = concat (map requested asked).
Proof.
  apply (deletes_drain (fun st => exists k, st = deaf k) deaf_returns asked (deaf 0) ∅ begunDeletes [(1, secondDelete)]);
    [apply begun_run|apply begun_linked|apply begun_alive|apply begun_alive|apply begun_open|apply begun_deaf].
Defined.

(** A daemon that has ended deletes nothing more. *)
Lemma ended_stays es : forall s s' : pendingDeletesStruct unit, daemon s = Ended -> runDeletes es s = Some s' ->
  daemon s' = Ended /\ deleted s' = deleted s.
Proof.
  induction es as [|e es IH]; intros s s' Hd E; cbn [runDeletes] in E; [by injection E as <-|].
  destruct (stepDeletes e s) as [s1|] eqn:E1; [|done].
  assert (H1 : daemon s1 = Ended /\ deleted s1 = deleted s).
  { destruct e as [a c o pre post| | |w z|st]; cbn [stepDeletes] in E1; [| |unfold stepDaemon in E1; by rewrite Hd in E1|by injection E1 as <-|by injection E1 as <-].
    - injection E1 as <-. unfold objectDeleteAsync, condSignal. cbn. by destruct (tail s).
    - by injection E1 as <-. }
  destruct H1 as [H1 <-]. by eapply IH.
Qed.

(** [Down] drops the deletes that are still in the list: it returns while an
    object that was to be deleted, and whose caller waits to be told, is not
    deleted, and whatever happens afterwards it never is. *)
Theorem Down_drops_deletes : exists es (s : pendingDeletesStruct unit),
  runDeletes es (upDeletes (deaf 0) ∅) = Some s
  /\ concat (map requested es) = [mkPendingDelete None "a" "c" "o" None (Some 1)]
  /\ downReturns s = true /\ counter s 1 = 1
  /\ forall es' s', runDeletes es' s = Some s' -> deleted s' = [].
Proof.
  exists [EGroup 1 1; EAsync "a" "c" "o" None (Some 1); EDown; EDaemon; EDaemon].
  eexists. split; [vm_compute; reflexivity|]. split_and!; [done|by vm_compute|by vm_compute|].
  intros es' s' E. by apply ended_stays in E as [_ ->].
Qed.
