(* ===== verification/RamSwift.v ===== *)
(** Package [ramswift]: the in-memory emulation of Swift (daemon.go).

    Accounts, containers and objects are structs behind pointers: [accountHeap],
    [containerHeap] and [objectHeap] hold them, a pointer is an index, and
    nothing is freed.  A goroutine looks a struct up under one mutex and works on
    it under another, so a request is a program [ramProg] whose steps are the
    critical sections: [runRam] runs it alone, [rstep] interleaves it with other
    requests and with changes of configuration.

    Only the mutex of an object can stay locked: a range that lies past the end
    of the object panics in the middle of its critical section, and net/http
    survives the panic.  What net/http makes of a request is [swiftRequest];
    [request_Body] is what [ioutil.ReadAll] returns of the body, its error is
    dropped. *)

From S2P Require Import Prelude SortedMap Blunder Utils GoStrings Conf ConfSections.
From Stdlib Require Import Ascii.
Open Scope list_scope.

Abbreviation Header := (gmap string (list string)).

Record swiftObjectStruct := mkObject {
  object_name : string;
  swiftContainer : nat;
  contents : bytes;
  object_locked : bool
}.

#[export] Instance eta_object : Eta swiftObjectStruct := fun o =>
  mkObject (object_name o) (swiftContainer o) (contents o) (object_locked o).

Record swiftContainerStruct := mkContainer {
  container_name : string;
  swiftAccount : nat;
  container_headers : Header;
  swiftObjectTree : list (string * nat)
}.

#[export] Instance eta_container : Eta swiftContainerStruct := fun c =>
  mkContainer (container_name c) (swiftAccount c) (container_headers c) (swiftObjectTree c).

Record swiftAccountStruct := mkAccount {
  account_name : string;
  account_headers : Header;
  swiftContainerTree : list (string * nat)
}.

#[export] Instance eta_account : Eta swiftAccountStruct := fun a =>
  mkAccount (account_name a) (account_headers a) (swiftContainerTree a).

Record methodStruct := mkMethods { m_delete : Z; m_get : Z; m_head : Z; m_post : Z; m_put : Z }.

#[export] Instance eta_methods : Eta methodStruct := fun m => mkMethods (m_delete m) (m_get m) (m_head m) (m_post m) (m_put m).

Record globalsStruct := mkRam {
  rg_whoAmI : string;
  noAuthTCPPort : Z;
  swiftAccountMap : gmap string nat;
  accountMethodCount : methodStruct;
  containerMethodCount : methodStruct;
  objectMethodCount : methodStruct;
  chaosFailureHTTPStatus : Z;
  accountMethodChaosFailureRate : methodStruct;
  containerMethodChaosFailureRate : methodStruct;
  objectMethodChaosFailureRate : methodStruct;
  maxAccountNameLength : Z;
  maxContainerNameLength : Z;
  maxObjectNameLength : Z;
  accountHeap : list swiftAccountStruct;
  containerHeap : list swiftContainerStruct;
  objectHeap : list swiftObjectStruct
}.

#[export] Instance eta_ram : Eta globalsStruct := fun g =>
  mkRam (rg_whoAmI g) (noAuthTCPPort g) (swiftAccountMap g) (accountMethodCount g) (containerMethodCount g) (objectMethodCount g)
    (chaosFailureHTTPStatus g) (accountMethodChaosFailureRate g) (containerMethodChaosFailureRate g) (objectMethodChaosFailureRate g)
    (maxAccountNameLength g) (maxContainerNameLength g) (maxObjectNameLength g) (accountHeap g) (containerHeap g) (objectHeap g).

Definition noMethods : methodStruct := mkMethods 0 0 0 0 0.

(** The variable [globals] before [Daemon] is called. *)
Definition blankRam : globalsStruct :=
  mkRam EmptyString 0 ∅ noMethods noMethods noMethods 0 noMethods noMethods noMethods 0 0 0 [] [] [].

(** What a pointer points to. *)
Definition accountOf (g : globalsStruct) (p : nat) : swiftAccountStruct := default (mkAccount EmptyString ∅ []) (accountHeap g !! p).
Definition containerOf (g : globalsStruct) (p : nat) : swiftContainerStruct := default (mkContainer EmptyString O ∅ []) (containerHeap g !! p).
Definition objectOf (g : globalsStruct) (p : nat) : swiftObjectStruct := default (mkObject EmptyString O [] false) (objectHeap g !! p).

Definition modAccount (p : nat) (f : swiftAccountStruct -> swiftAccountStruct) (g : globalsStruct) : globalsStruct :=
  g <| accountHeap := alter f p (accountHeap g) |>.
Definition modContainer (p : nat) (f : swiftContainerStruct -> swiftContainerStruct) (g : globalsStruct) : globalsStruct :=
  g <| containerHeap := alter f p (containerHeap g) |>.
Definition modObject (p : nat) (f : swiftObjectStruct -> swiftObjectStruct) (g : globalsStruct) : globalsStruct :=
  g <| objectHeap := alter f p (objectHeap g) |>.

(** ** Programs

    A step is a critical section; [None] means that it waits for a mutex.
    [RPanic] is the panic of one goroutine, [RFatal] is [log.Fatal]. *)

Inductive ramProg (A : Type) : Type :=
| RRet (a : A)
| RPanic
| RFatal
| RStep {B : Type} (m : globalsStruct -> option (globalsStruct * B)) (k : B -> ramProg A).
Arguments RRet {A} a.
Arguments RPanic {A}.
Arguments RFatal {A}.
Arguments RStep {A B} m k.

Fixpoint rbind {A B} (p : ramProg A) (k : A -> ramProg B) : ramProg B :=
  match p with
  | RRet a => k a
  | RPanic => RPanic
  | RFatal => RFatal
  | RStep m k' => RStep m (fun b => rbind (k' b) k)
  end.

Notation "x <<- m ;; k" := (rbind m (fun x => k))
  (at level 100, m at next level, right associativity) : go_scope.
Notation "m ;;- k" := (rbind m (fun _ => k))
  (at level 100, right associativity) : go_scope.

(** A critical section that does not wait. *)
Definition atomically {A} (f : globalsStruct -> globalsStruct * A) : ramProg A := RStep (fun g => Some (f g)) RRet.
Definition rget {A} (f : globalsStruct -> A) : ramProg A := atomically (fun g => (g, f g)).
Definition rput (f : globalsStruct -> globalsStruct) : ramProg unit := atomically (fun g => (f g, tt)).

Fixpoint rfor {A} (l : list A) (body : A -> ramProg unit) : ramProg unit :=
  match l with
  | [] => RRet tt
  | x :: l' => body x ;;- rfor l' body
  end.

Inductive ramResult (A : Type) := RDone (a : A) | RPanicked | RExited | RBlocked.
Arguments RDone {A} a.
Arguments RPanicked {A}.
Arguments RExited {A}.
Arguments RBlocked {A}.

(** Runs a program alone. *)
Fixpoint runRam {A} (p : ramProg A) (g : globalsStruct) : globalsStruct * ramResult A :=
  match p with
  | RRet a => (g, RDone a)
  | RPanic => (g, RPanicked)
  | RFatal => (g, RExited)
  | RStep m k => match m g with Some (g', b) => runRam (k b) g' | None => (g, RBlocked) end
  end.

(** ** Accounts, containers and objects *)

Definition ENOENT : Z := 2.
Definition EEXIST : Z := 17.
Definition ENOTEMPTY : Z := 39.

Definition newAccount (name : string) : swiftAccountStruct := mkAccount name ∅ [].

(** A new struct in [swiftAccountMap], and its address. *)
Definition addAccount (swiftAccountName : string) (g : globalsStruct) : globalsStruct * nat :=
  let p := length (accountHeap g) in
  (g <| accountHeap := accountHeap g ++ [newAccount swiftAccountName] |>
     <| swiftAccountMap := <[swiftAccountName := p]> (swiftAccountMap g) |>, p).

Definition locateSwiftAccount (swiftAccountName : string) : ramProg (Z + nat) :=
  atomically (fun g =>
    (g, match swiftAccountMap g !! swiftAccountName with Some swiftAccount => inr swiftAccount | None => inl ENOENT end)).

Definition createSwiftAccount (swiftAccountName : string) : ramProg (Z + nat) :=
  atomically (fun g =>
    match swiftAccountMap g !! swiftAccountName with
    | Some _ => (g, inl EEXIST)
    | None => let '(g', p) := addAccount swiftAccountName g in (g', inr p)
    end).

Definition createOrLocateSwiftAccount (swiftAccountName : string) : ramProg (nat * bool) :=
  atomically (fun g =>
    match swiftAccountMap g !! swiftAccountName with
    | Some swiftAccount => (g, (swiftAccount, false))
    | None => let '(g', p) := addAccount swiftAccountName g in (g', (p, true))
    end).

Definition deleteSwiftAccount (swiftAccountName : string) (force : bool) : ramProg Z :=
  atomically (fun g =>
    match swiftAccountMap g !! swiftAccountName with
    | Some swiftAccount =>
        if negb force && negb (0 =? Len (swiftContainerTree (accountOf g swiftAccount))) then (g, ENOTEMPTY)
        else (g <| swiftAccountMap := delete swiftAccountName (swiftAccountMap g) |>, 0)
    | None => (g, ENOENT)
    end).

Definition newContainer (name : string) (p : nat) : swiftContainerStruct := mkContainer name p ∅ [].

Definition setContainerTree (tree : list (string * nat)) (a : swiftAccountStruct) : swiftAccountStruct := a <| swiftContainerTree := tree |>.
Definition setObjectTree (tree : list (string * nat)) (c : swiftContainerStruct) : swiftContainerStruct := c <| swiftObjectTree := tree |>.

(** [swiftContainerTree.Put] of a new struct; whether it was put is not looked at. *)
Definition addContainer (p : nat) (swiftContainerName : string) (g : globalsStruct) : globalsStruct * nat :=
  let q := length (containerHeap g) in
  let g' := g <| containerHeap := containerHeap g ++ [newContainer swiftContainerName p] |> in
  (match Put (swiftContainerTree (accountOf g p)) swiftContainerName q with
   | Some tree => modAccount p (setContainerTree tree) g'
   | None => g'
   end, q).

Definition locateSwiftContainer (p : nat) (swiftContainerName : string) : ramProg (Z + nat) :=
  atomically (fun g =>
    (g, match GetByKey (swiftContainerTree (accountOf g p)) swiftContainerName with Some q => inr q | None => inl ENOENT end)).

Definition createSwiftContainer (p : nat) (swiftContainerName : string) : ramProg (Z + nat) :=
  atomically (fun g =>
    match GetByKey (swiftContainerTree (accountOf g p)) swiftContainerName with
    | Some _ => (g, inl EEXIST)
    | None => let '(g', q) := addContainer p swiftContainerName g in (g', inr q)
    end).

Definition createOrLocateSwiftContainer (p : nat) (swiftContainerName : string) : ramProg (nat * bool) :=
  atomically (fun g =>
    match GetByKey (swiftContainerTree (accountOf g p)) swiftContainerName with
    | Some q => (g, (q, false))
    | None => let '(g', q) := addContainer p swiftContainerName g in (g', (q, true))
    end).

Definition deleteSwiftContainer (p : nat) (swiftContainerName : string) : ramProg Z :=
  atomically (fun g =>
    match GetByKey (swiftContainerTree (accountOf g p)) swiftContainerName with
    | Some q =>
        if negb (0 =? Len (swiftObjectTree (containerOf g q))) then (g, ENOTEMPTY)
        else (match DeleteByKey (swiftContainerTree (accountOf g p)) swiftContainerName with
              | Some tree => modAccount p (setContainerTree tree) g
              | None => g
              end, 0)
    | None => (g, ENOENT)
    end).

Definition newObject (name : string) (q : nat) : swiftObjectStruct := mkObject name q [] false.

Definition addObject (q : nat) (swiftObjectName : string) (g : globalsStruct) : globalsStruct * nat :=
  let o := length (objectHeap g) in
  let g' := g <| objectHeap := objectHeap g ++ [newObject swiftObjectName q] |> in
  (match Put (swiftObjectTree (containerOf g q)) swiftObjectName o with
   | Some tree => modContainer q (setObjectTree tree) g'
   | None => g'
   end, o).

Definition locateSwiftObject (q : nat) (swiftObjectName : string) : ramProg (Z + nat) :=
  atomically (fun g =>
    (g, match GetByKey (swiftObjectTree (containerOf g q)) swiftObjectName with Some o => inr o | None => inl ENOENT end)).

Definition createSwiftObject (q : nat) (swiftObjectName : string) : ramProg (Z + nat) :=
  atomically (fun g =>
    match GetByKey (swiftObjectTree (containerOf g q)) swiftObjectName with
    | Some _ => (g, inl EEXIST)
    | None => let '(g', o) := addObject q swiftObjectName g in (g', inr o)
    end).

Definition createOrLocateSwiftObject (q : nat) (swiftObjectName : string) : ramProg (nat * bool) :=
  atomically (fun g =>
    match GetByKey (swiftObjectTree (containerOf g q)) swiftObjectName with
    | Some o => (g, (o, false))
    | None => let '(g', o) := addObject q swiftObjectName g in (g', (o, true))
    end).

Definition deleteSwiftObject (q : nat) (swiftObjectName : string) : ramProg Z :=
  atomically (fun g =>
    match GetByKey (swiftObjectTree (containerOf g q)) swiftObjectName with
    | Some _ =>
        (match DeleteByKey (swiftObjectTree (containerOf g q)) swiftObjectName with
         | Some tree => modContainer q (setObjectTree tree) g
         | None => g
         end, 0)
    | None => (g, ENOENT)
    end).

(** ** Requests *)

Record swiftRequest := mkSwiftRequest {
  request_Method : string;
  request_Path : string;
  request_Header : Header;
  request_Body : bytes
}.

Record swiftResponse := mkSwiftResponse {
  sr_status : Z;
  sr_header : Header;
  sr_body : bytes
}.

Definition StatusOK : Z := 200.
Definition StatusCreated : Z := 201.
Definition StatusAccepted : Z := 202.
Definition StatusNoContent : Z := 204.
Definition StatusPartialContent : Z := 206.
Definition StatusBadRequest : Z := 400.
Definition StatusForbidden : Z := 403.
Definition StatusNotFound : Z := 404.
Definition StatusMethodNotAllowed : Z := 405.
Definition StatusConflict : Z := 409.
Definition StatusInternalServerError : Z := 500.

Definition plainStatus (status : Z) : swiftResponse := mkSwiftResponse status ∅ [].

(** [WriteHeader], which panics on a code that is none. *)
Definition WriteHeader (status : Z) : ramProg swiftResponse :=
  if (100 <=? status) && (status <=? 999) then RRet (plainStatus status) else RPanic.

(** The parts of a path: [infoOnly], or the names of account, container and object. *)
Definition parsePath (path : string) : bool * string * string * string :=
  if String.eqb path "/info" then (true, EmptyString, EmptyString, EmptyString)
  else if String.prefix "/v1/" path then
    match SplitN slash 3 (String.substring 4 (String.length path) path) with
    | [swiftAccountName] => (false, swiftAccountName, EmptyString, EmptyString)
    | [swiftAccountName; swiftContainerName] => (false, swiftAccountName, swiftContainerName, EmptyString)
    | swiftAccountName :: swiftContainerName :: swiftObjectName :: _ => (false, swiftAccountName, swiftContainerName, swiftObjectName)
    | [] => (false, EmptyString, EmptyString, EmptyString)
    end
  else (false, EmptyString, EmptyString, EmptyString).

Definition headerGet (header : Header) (key : string) : string :=
  match header !! key with Some (value :: _) => value | _ => EmptyString end.

Definition offsetOf (s : string) : res Z := if String.eqb s EmptyString then Ret (-1) else Atoi s.

(** [None] when there is no such header. *)
Definition parseRangeHeader (header : Header) : res (option (Z * Z)) :=
  let rangeHeaderValue := headerGet header "Range" in
  if String.eqb rangeHeaderValue EmptyString then Ret None
  else if String.prefix "bytes=" rangeHeaderValue then
    match SplitN "-" 2 (String.substring 6 (String.length rangeHeaderValue) rangeHeaderValue) with
    | [first; last] =>
        startOffset <- offsetOf first ;;
        stopOffset <- offsetOf last ;;
        if (startOffset <? 0) && (stopOffset <? 0) then Err plain else Ret (Some (startOffset, stopOffset))
    | _ => Err plain
    end
  else Err plain.

(** ** Chaos *)

Inductive resource := Account | Container | Object.
Inductive verb := VDelete | VGet | VHead | VPost | VPut.

Definition methodOf (v : verb) (m : methodStruct) : Z :=
  match v with VDelete => m_delete m | VGet => m_get m | VHead => m_head m | VPost => m_post m | VPut => m_put m end.

Definition bumpMethod (v : verb) (m : methodStruct) : methodStruct :=
  match v with
  | VDelete => m <| m_delete := m_delete m +u 1 |>
  | VGet => m <| m_get := m_get m +u 1 |>
  | VHead => m <| m_head := m_head m +u 1 |>
  | VPost => m <| m_post := m_post m +u 1 |>
  | VPut => m <| m_put := m_put m +u 1 |>
  end.

Definition countsOf (r : resource) (g : globalsStruct) : methodStruct :=
  match r with Account => accountMethodCount g | Container => containerMethodCount g | Object => objectMethodCount g end.

Definition ratesOf (r : resource) (g : globalsStruct) : methodStruct :=
  match r with
  | Account => accountMethodChaosFailureRate g
  | Container => containerMethodChaosFailureRate g
  | Object => objectMethodChaosFailureRate g
  end.

Definition bumpCount (r : resource) (v : verb) (g : globalsStruct) : globalsStruct :=
  match r with
  | Account => g <| accountMethodCount := bumpMethod v (accountMethodCount g) |>
  | Container => g <| containerMethodCount := bumpMethod v (containerMethodCount g) |>
  | Object => g <| objectMethodCount := bumpMethod v (objectMethodCount g) |>
  end.

(** Whether the request that is counted last is to fail. *)
Definition struck (r : resource) (v : verb) (g : globalsStruct) : bool :=
  negb (0 =? methodOf v (ratesOf r g)) && (0 =? methodOf v (countsOf r g) mod methodOf v (ratesOf r g)).

(** The status is read after the mutex was released. *)
Definition withChaos (r : resource) (v : verb) (normal : ramProg swiftResponse) : ramProg swiftResponse :=
  fails <<- atomically (fun g => let g' := bumpCount r v g in (g', struck r v g')) ;;
  if fails : bool then (status <<- rget chaosFailureHTTPStatus ;; WriteHeader status) else normal.

(** ** Handlers *)

(** Adds every value of the headers of a struct to those of the response. *)
Definition headerAdd (name value : string) (header : Header) : Header := <[name := default [] (header !! name) ++ [value]]> header.

Definition addHeaders (from header : Header) : Header :=
  foldl (fun h entry => foldl (fun h value => headerAdd entry.1 value h) h entry.2) header (map_to_list from).

(** The names of a tree, one per line; [None] stands for the panic of an index
    out of range. *)
Fixpoint listLoop (n : nat) (index : Z) (tree : list (string * nat)) : option bytes :=
  match n with
  | O => Some []
  | S n' =>
      match GetByIndex tree index with
      | Some (name, _) =>
          match listLoop n' (index + 1) tree with
          | Some rest => Some (StringToByteSlice name ++ [10] ++ rest)
          | None => None
          end
      | None => None
      end
  end.

Definition listing (header : Header) (tree : list (string * nat)) : option swiftResponse :=
  if 0 =? Len tree then Some (mkSwiftResponse StatusNoContent (addHeaders header ∅) [])
  else match listLoop (length tree) 0 tree with
       | Some body => Some (mkSwiftResponse StatusOK (addHeaders header ∅) body)
       | None => None
       end.

Definition orPanic {A} (r : option A) : ramProg A := match r with Some a => RRet a | None => RPanic end.

(** The switches over the error of a lookup. *)
Definition located (r : Z + nat) (missing : Z) (found : nat -> ramProg swiftResponse) : ramProg swiftResponse :=
  match r with
  | inr p => found p
  | inl errno => if errno =? ENOENT then RRet (plainStatus missing) else RPanic
  end.

Definition deleted (errno : Z) : ramProg swiftResponse :=
  if errno =? 0 then RRet (plainStatus StatusNoContent)
  else if errno =? ENOENT then RRet (plainStatus StatusNotFound)
  else if errno =? ENOTEMPTY then RRet (plainStatus StatusConflict)
  else RPanic.

Definition deletedObject (errno : Z) : ramProg swiftResponse :=
  if errno =? 0 then RRet (plainStatus StatusNoContent)
  else if errno =? ENOENT then RRet (plainStatus StatusNotFound)
  else RPanic.

Definition doDelete (request : swiftRequest) : ramProg swiftResponse :=
  let '(infoOnly, swiftAccountName, swiftContainerName, swiftObjectName) := parsePath (request_Path request) in
  if infoOnly || String.eqb swiftAccountName EmptyString then RRet (plainStatus StatusForbidden)
  else if String.eqb swiftContainerName EmptyString then
    withChaos Account VDelete (errno <<- deleteSwiftAccount swiftAccountName false ;; deleted errno)
  else
    account <<- locateSwiftAccount swiftAccountName ;;
    located account StatusNotFound (fun swiftAccount =>
      if String.eqb swiftObjectName EmptyString then
        withChaos Container VDelete (errno <<- deleteSwiftContainer swiftAccount swiftContainerName ;; deleted errno)
      else
        withChaos Object VDelete
          (container <<- locateSwiftContainer swiftAccount swiftContainerName ;;
           located container StatusNotFound (fun swiftContainer =>
             errno <<- deleteSwiftObject swiftContainer swiftObjectName ;; deletedObject errno))).

(** The text of GET /info. *)
Definition quotedName (s : string) : string := (String (asciiOfByte 34) EmptyString ++ s ++ String (asciiOfByte 34) EmptyString)%string.

Definition swiftInfo (g : globalsStruct) : string :=
  ("{" ++ quotedName "swift" ++ ": {"
   ++ quotedName "max_account_name_length" ++ ": " ++ formatInt (maxAccountNameLength g) ++ ","
   ++ quotedName "max_container_name_length" ++ ": " ++ formatInt (maxContainerNameLength g) ++ ","
   ++ quotedName "max_object_name_length" ++ ": " ++ formatInt (maxObjectNameLength g)
   ++ "}" ++ "}")%string.

(** [contents[lo:hi]]. *)
Definition slice (l : bytes) (lo hi : Z) : option bytes :=
  if (0 <=? lo) && (lo <=? hi) && (hi <=? zlen l) then Some (take (Z.to_nat (hi - lo)) (drop (Z.to_nat lo) l)) else None.

(** The offsets of a range in an object of [size] bytes; a negative one is absent. *)
Definition clipRange (startOffset stopOffset size : Z) : Z * Z :=
  if startOffset <? 0 then (let startOffset := size - stopOffset in if startOffset <? 0 then 0 else startOffset, size - 1)
  else if stopOffset <? 0 then (startOffset, size - 1)
  else (startOffset, if size - 1 <? stopOffset then size - 1 else stopOffset).

Definition contentRange (startOffset stopOffset size : Z) : string :=
  ("bytes " ++ formatInt startOffset ++ "-" ++ formatInt stopOffset ++ "/" ++ formatInt size)%string.

(** What is done under the mutex of the object; [None] is a panic. *)
Definition readContents (header : Header) (contents : bytes) : option swiftResponse :=
  match parseRangeHeader header with
  | Ret None => Some (mkSwiftResponse StatusOK ∅ contents)
  | Ret (Some (startOffset, stopOffset)) =>
      let '(startOffset, stopOffset) := clipRange startOffset stopOffset (zlen contents) in
      match slice contents startOffset (stopOffset + 1) with
      | Some body =>
          Some (mkSwiftResponse StatusPartialContent (headerAdd "Content-Range" (contentRange startOffset stopOffset (zlen contents)) ∅) body)
      | None => None
      end
  | _ => Some (plainStatus StatusBadRequest)
  end.

(** A critical section of an object: it waits for the mutex, and when it panics
    the mutex stays locked. *)
Definition withObject {A} (o : nat) (f : swiftObjectStruct -> option (swiftObjectStruct * A)) : ramProg A :=
  r <<- RStep (fun g =>
    if object_locked (objectOf g o) then None
    else match f (objectOf g o) with
         | Some (object, a) => Some (modObject o (fun _ => object) g, Some a)
         | None => Some (modObject o (fun object => object <| object_locked := true |>) g, None)
         end) RRet ;;
  orPanic r.

Definition doGet (request : swiftRequest) : ramProg swiftResponse :=
  let '(infoOnly, swiftAccountName, swiftContainerName, swiftObjectName) := parsePath (request_Path request) in
  if infoOnly then info <<- rget swiftInfo ;; RRet (mkSwiftResponse StatusOK ∅ (StringToByteSlice info))
  else if String.eqb swiftAccountName EmptyString then RRet (plainStatus StatusForbidden)
  else
    account <<- locateSwiftAccount swiftAccountName ;;
    located account StatusNotFound (fun swiftAccount =>
      if String.eqb swiftContainerName EmptyString then
        withChaos Account VGet
          (r <<- rget (fun g => let a := accountOf g swiftAccount in listing (account_headers a) (swiftContainerTree a)) ;; orPanic r)
      else
        container <<- locateSwiftContainer swiftAccount swiftContainerName ;;
        located container StatusNotFound (fun swiftContainer =>
          if String.eqb swiftObjectName EmptyString then
            withChaos Container VGet
              (r <<- rget (fun g => let c := containerOf g swiftContainer in listing (container_headers c) (swiftObjectTree c)) ;; orPanic r)
          else
            withChaos Object VGet
              (object <<- locateSwiftObject swiftContainer swiftObjectName ;;
               located object StatusNotFound (fun swiftObject =>
                 withObject swiftObject (fun object =>
                   match readContents (request_Header request) (contents object) with
                   | Some response => Some (object, response)
                   | None => None
                   end))))).

Definition doHead (request : swiftRequest) : ramProg swiftResponse :=
  let '(infoOnly, swiftAccountName, swiftContainerName, swiftObjectName) := parsePath (request_Path request) in
  if infoOnly || String.eqb swiftAccountName EmptyString then RRet (plainStatus StatusForbidden)
  else
    account <<- locateSwiftAccount swiftAccountName ;;
    located account StatusNotFound (fun swiftAccount =>
      if String.eqb swiftContainerName EmptyString then
        withChaos Account VHead
          (header <<- rget (fun g => addHeaders (account_headers (accountOf g swiftAccount)) ∅) ;;
           RRet (mkSwiftResponse StatusNoContent header []))
      else
        container <<- locateSwiftContainer swiftAccount swiftContainerName ;;
        located container StatusNotFound (fun swiftContainer =>
          if String.eqb swiftObjectName EmptyString then
            withChaos Container VHead
              (header <<- rget (fun g => addHeaders (container_headers (containerOf g swiftContainer)) ∅) ;;
               RRet (mkSwiftResponse StatusNoContent header []))
          else
            withChaos Object VHead
              (object <<- locateSwiftObject swiftContainer swiftObjectName ;;
               located object StatusNotFound (fun swiftObject =>
                 size <<- rget (fun g => zlen (contents (objectOf g swiftObject))) ;;
                 RRet (mkSwiftResponse StatusOK {[ "Content-Length"%string := [formatInt size] ]} []))))).

Definition headerNameIgnoreSet : gset string := {["Accept-Encoding"; "User-Agent"; "Content-Length"]}%string.

(** One header of a request: its values that are not empty replace those that
    were kept. *)
Definition updateHeader (entry : string * list string) (headers : Header) : Header :=
  let '(headerName, headerValueSlice) := entry in
  if bool_decide (headerName ∈ headerNameIgnoreSet) then headers
  else if 0 <? zlen headerValueSlice then
    let headers := <[headerName := List.filter (fun value => 0 <? Z.of_nat (String.length value)) headerValueSlice]> headers in
    if 0 =? zlen (default [] (headers !! headerName)) then delete headerName headers else headers
  else headers.

Definition updateHeaders (request headers : Header) : Header := foldl (fun h entry => updateHeader entry h) headers (map_to_list request).

Definition doPost (request : swiftRequest) : ramProg swiftResponse :=
  let '(infoOnly, swiftAccountName, swiftContainerName, swiftObjectName) := parsePath (request_Path request) in
  if infoOnly || String.eqb swiftAccountName EmptyString then RRet (plainStatus StatusForbidden)
  else
    account <<- locateSwiftAccount swiftAccountName ;;
    located account StatusNotFound (fun swiftAccount =>
      if String.eqb swiftContainerName EmptyString then
        withChaos Account VPost
          (rput (modAccount swiftAccount (fun a => a <| account_headers := updateHeaders (request_Header request) (account_headers a) |>)) ;;-
           RRet (plainStatus StatusNoContent))
      else
        container <<- locateSwiftContainer swiftAccount swiftContainerName ;;
        located container StatusNotFound (fun swiftContainer =>
          if String.eqb swiftObjectName EmptyString then
            withChaos Container VPost
              (rput (modContainer swiftContainer
                       (fun c => c <| container_headers := updateHeaders (request_Header request) (container_headers c) |>)) ;;-
               RRet (plainStatus StatusNoContent))
          else withChaos Object VPost (RRet (plainStatus StatusForbidden)))).

Definition created (wasCreated : bool) : swiftResponse := plainStatus (if wasCreated then StatusCreated else StatusAccepted).

Definition doPut (request : swiftRequest) : ramProg swiftResponse :=
  let '(infoOnly, swiftAccountName, swiftContainerName, swiftObjectName) := parsePath (request_Path request) in
  if infoOnly || String.eqb swiftAccountName EmptyString then RRet (plainStatus StatusForbidden)
  else if String.eqb swiftContainerName EmptyString then
    withChaos Account VPut
      (r <<- createOrLocateSwiftAccount swiftAccountName ;;
       rput (modAccount r.1 (fun a =>
         let a := if r.2 : bool then a <| account_headers := ∅ |> else a in
         a <| account_headers := updateHeaders (request_Header request) (account_headers a) |>)) ;;-
       RRet (created r.2))
  else
    account <<- locateSwiftAccount swiftAccountName ;;
    located account StatusForbidden (fun swiftAccount =>
      if String.eqb swiftObjectName EmptyString then
        withChaos Container VPut
          (r <<- createOrLocateSwiftContainer swiftAccount swiftContainerName ;;
           rput (modContainer r.1 (fun c =>
             let c := if r.2 : bool then c <| container_headers := ∅ |> else c in
             c <| container_headers := updateHeaders (request_Header request) (container_headers c) |>)) ;;-
           RRet (created r.2))
      else
        withChaos Object VPut
          (container <<- locateSwiftContainer swiftAccount swiftContainerName ;;
           located container StatusForbidden (fun swiftContainer =>
             r <<- createOrLocateSwiftObject swiftContainer swiftObjectName ;;
             withObject r.1 (fun object => Some (object <| contents := request_Body request |>, tt)) ;;-
             RRet (created r.2)))).

Definition ServeHTTP (request : swiftRequest) : ramProg swiftResponse :=
  if String.eqb (request_Method request) "DELETE" then doDelete request
  else if String.eqb (request_Method request) "GET" then doGet request
  else if String.eqb (request_Method request) "HEAD" then doHead request
  else if String.eqb (request_Method request) "POST" then doPost request
  else if String.eqb (request_Method request) "PUT" then doPut request
  else RRet (plainStatus StatusMethodNotAllowed).

(** ** Configuration *)

(** [v, err = confMap.Fetch...]; an error is fatal. *)
Definition fetched {A} (m : res A) : ramProg A := match m with Ret a => RRet a | Err _ => RFatal | Panic => RPanic end.

Definition failureRate (confMap : ConfMap) (optionName : string) : Z :=
  match FetchOptionValueUint64 confMap "RamSwiftChaos" optionName with Ret rate => rate | _ => 0 end.

Definition setAccountRate (f : methodStruct -> methodStruct) : ramProg unit :=
  rput (fun g => g <| accountMethodChaosFailureRate := f (accountMethodChaosFailureRate g) |>).
Definition setContainerRate (f : methodStruct -> methodStruct) : ramProg unit :=
  rput (fun g => g <| containerMethodChaosFailureRate := f (containerMethodChaosFailureRate g) |>).
Definition setObjectRate (f : methodStruct -> methodStruct) : ramProg unit :=
  rput (fun g => g <| objectMethodChaosFailureRate := f (objectMethodChaosFailureRate g) |>).

(** No mutex is held. *)
Definition fetchChaosSettings (confMap : ConfMap) : ramProg unit :=
  rput (fun g => g <| chaosFailureHTTPStatus :=
    match FetchOptionValueUint16 confMap "RamSwiftChaos" "FailureHTTPStatus" with
    | Ret status => status
    | _ => StatusInternalServerError
    end |>) ;;-
  setAccountRate (fun m => m <| m_delete := failureRate confMap "AccountDeleteFailureRate" |>) ;;-
  setAccountRate (fun m => m <| m_get := failureRate confMap "AccountGetFailureRate" |>) ;;-
  setAccountRate (fun m => m <| m_head := failureRate confMap "AccountHeadFailureRate" |>) ;;-
  setAccountRate (fun m => m <| m_post := failureRate confMap "AccountPostFailureRate" |>) ;;-
  setAccountRate (fun m => m <| m_put := failureRate confMap "AccountPutFailureRate" |>) ;;-
  setContainerRate (fun m => m <| m_delete := failureRate confMap "ContainerDeleteFailureRate" |>) ;;-
  setContainerRate (fun m => m <| m_get := failureRate confMap "ContainerGetFailureRate" |>) ;;-
  setContainerRate (fun m => m <| m_head := failureRate confMap "ContainerHeadFailureRate" |>) ;;-
  setContainerRate (fun m => m <| m_post := failureRate confMap "ContainerPostFailureRate" |>) ;;-
  setContainerRate (fun m => m <| m_put := failureRate confMap "ContainerPutFailureRate" |>) ;;-
  setObjectRate (fun m => m <| m_delete := failureRate confMap "ObjectDeleteFailureRate" |>) ;;-
  setObjectRate (fun m => m <| m_get := failureRate confMap "ObjectGetFailureRate" |>) ;;-
  setObjectRate (fun m => m <| m_head := failureRate confMap "ObjectHeadFailureRate" |>) ;;-
  setObjectRate (fun m => m <| m_post := failureRate confMap "ObjectPostFailureRate" |>) ;;-
  setObjectRate (fun m => m <| m_put := failureRate confMap "ObjectPutFailureRate" |>).

Definition fetchLength (confMap : ConfMap) (optionName : string) (set_length : Z -> globalsStruct -> globalsStruct) : ramProg unit :=
  n <<- fetched (FetchOptionValueUint64 confMap "RamSwiftInfo" optionName) ;;
  rput (set_length n) ;;-
  if n >? maxInt then RFatal else RRet tt.

Definition fetchSwiftInfo (confMap : ConfMap) : ramProg unit :=
  fetchLength confMap "MaxAccountNameLength" (fun n g => g <| maxAccountNameLength := n |>) ;;-
  fetchLength confMap "MaxContainerNameLength" (fun n g => g <| maxContainerNameLength := n |>) ;;-
  fetchLength confMap "MaxObjectNameLength" (fun n g => g <| maxObjectNameLength := n |>).

(** A volume of the list is handed to [body] with its account when this peer is
    its primary peer. *)
Definition ifServed (confMap : ConfMap) (namespaced : bool) (volumeName : string) (body : string -> ramProg unit) : ramProg unit :=
  let volumeSectionName := VolumeNameConfSection namespaced volumeName in
  primaryPeerList <<- fetched (FetchOptionValueStringSlice confMap volumeSectionName "PrimaryPeer") ;;
  whoAmI <<- rget rg_whoAmI ;;
  match primaryPeerList with
  | [] => RRet tt
  | [primaryPeer] =>
      if String.eqb whoAmI primaryPeer
      then swiftAccountName <<- fetched (FetchOptionValueString confMap volumeSectionName "AccountName") ;; body swiftAccountName
      else RRet tt
  | _ => RFatal
  end.

(** Up to [http.ListenAndServe]. *)
Definition serveNoAuthSwift (confMap : ConfMap) (namespaced : bool) : ramProg unit :=
  whoAmI <<- fetched (FetchOptionValueString confMap "Cluster" "WhoAmI") ;;
  rput (fun g => g <| rg_whoAmI := whoAmI |>) ;;-
  port <<- fetched (FetchOptionValueUint16 confMap "SwiftClient" "NoAuthTCPPort") ;;
  rput (fun g => g <| noAuthTCPPort := port |>) ;;-
  volumeList <<- fetched (volumeListOf confMap) ;;
  rfor volumeList (fun volumeName =>
    ifServed confMap namespaced volumeName (fun swiftAccountName =>
      r <<- createSwiftAccount swiftAccountName ;;
      match r with inr _ => RRet tt | inl _ => RFatal end)) ;;-
  fetchChaosSettings confMap ;;-
  fetchSwiftInfo confMap.

(** [swiftAccountNameListUpdate]; nobody else sees it. *)
Fixpoint accountsOf (confMap : ConfMap) (namespaced : bool) (volumeList : list string) : ramProg (gset string) :=
  match volumeList with
  | [] => RRet ∅
  | volumeName :: rest =>
      let volumeSectionName := VolumeNameConfSection namespaced volumeName in
      primaryPeerList <<- fetched (FetchOptionValueStringSlice confMap volumeSectionName "PrimaryPeer") ;;
      whoAmI <<- rget rg_whoAmI ;;
      match primaryPeerList with
      | [] => accountsOf confMap namespaced rest
      | [primaryPeer] =>
          if String.eqb whoAmI primaryPeer then
            swiftAccountName <<- fetched (FetchOptionValueString confMap volumeSectionName "AccountName") ;;
            names <<- accountsOf confMap namespaced rest ;;
            RRet ({[swiftAccountName]} ∪ names)
          else accountsOf confMap namespaced rest
      | _ => RFatal
      end
  end.

Definition updateConf `{!MapRange} (confMap : ConfMap) (namespaced : bool) : ramProg unit :=
  whoAmIUpdate <<- fetched (FetchOptionValueString confMap "Cluster" "WhoAmI") ;;
  whoAmI <<- rget rg_whoAmI ;;
  if negb (String.eqb whoAmIUpdate whoAmI) then RFatal else
  noAuthTCPPortUpdate <<- fetched (FetchOptionValueUint16 confMap "SwiftClient" "NoAuthTCPPort") ;;
  port <<- rget noAuthTCPPort ;;
  if negb (noAuthTCPPortUpdate =? port) then RFatal else
  swiftAccountNameListCurrent <<- rget (fun g => rangeKeys (dom (swiftAccountMap g))) ;;
  volumeListUpdate <<- fetched (volumeListOf confMap) ;;
  swiftAccountNameListUpdate <<- accountsOf confMap namespaced volumeListUpdate ;;
  rfor swiftAccountNameListCurrent (fun swiftAccountName =>
    if bool_decide (swiftAccountName ∈ swiftAccountNameListUpdate) then RRet tt
    else deleteSwiftAccount swiftAccountName true ;;- RRet tt) ;;-
  rfor (rangeKeys swiftAccountNameListUpdate) (fun swiftAccountName =>
    createOrLocateSwiftAccount swiftAccountName ;;- RRet tt) ;;-
  fetchChaosSettings confMap ;;-
  fetchSwiftInfo confMap.

(** ** The daemon *)

(** The configuration of a start, or of a SIGHUP. *)
Definition ramConf `{!ConfFiles} (confFile : string) (confStrings : list string) : res (ConfMap * bool) :=
  let '(confMap, r) := MakeConfMapFromFile confFile in
  _ <- r ;;
  let '(confMap, r) := UpdateFromStrings confStrings confMap in
  _ <- r ;;
  namespaced <- AdjustConfSectionNamespacingAsNecessary confMap ;;
  Ret (confMap, namespaced).

(** The goroutine of [Daemon] waits for a signal, updates the configuration, or
    has returned. *)
Inductive daemonControl := Waiting | Updating (p : ramProg unit) | Returned.

(** The goroutines: [rw_server] up to [http.ListenAndServe], from then on one for
    each request, and [Daemon] itself.  [rw_alive] is false after [log.Fatal]. *)
Record ramWorld := mkRamWorld {
  rw_globals : globalsStruct;
  rw_clients : list (swiftRequest * ramProg swiftResponse);
  rw_server : ramProg unit;
  rw_control : daemonControl;
  rw_alive : bool
}.

#[export] Instance eta_ramWorld : Eta ramWorld := fun w =>
  mkRamWorld (rw_globals w) (rw_clients w) (rw_server w) (rw_control w) (rw_alive w).

(** The next critical section of a program. *)
Definition stepRam {A} (p : ramProg A) (g : globalsStruct) : option (globalsStruct * ramProg A) :=
  match p with RStep m k => match m g with Some (g', b) => Some (g', k b) | None => None end | _ => None end.

Section Daemon.
Context `{!MapRange} (confFile : string) (confStrings : list string).

Definition Daemon (files : ConfFiles) : ramWorld :=
  match @ramConf files confFile confStrings with
  | Ret (confMap, namespaced) => mkRamWorld blankRam [] (serveNoAuthSwift confMap namespaced) Waiting true
  | _ => mkRamWorld blankRam [] RFatal Returned false
  end.

(** A SIGHUP comes with the files as they are then. *)
Definition sighup (files : ConfFiles) (w : ramWorld) : ramWorld :=
  match @ramConf files confFile confStrings with
  | Ret (confMap, namespaced) => w <| rw_control := Updating (updateConf confMap namespaced) |>
  | _ => w <| rw_alive := false |>
  end.

(** Requests, steps of the goroutines and signals, in any order; [arrives] are
    the requests that the clients may send, [configured] the files that there may be. *)
Inductive rstep (arrives : swiftRequest -> Prop) (configured : ConfFiles -> Prop) : ramWorld -> ramWorld -> Prop :=
| rstep_arrive w request : rw_alive w = true -> rw_server w = RRet tt -> arrives request ->
    rstep arrives configured w (w <| rw_clients := rw_clients w ++ [(request, ServeHTTP request)] |>)
| rstep_client w i request p g p' : rw_alive w = true -> rw_clients w !! i = Some (request, p) -> stepRam p (rw_globals w) = Some (g, p') ->
    rstep arrives configured w (w <| rw_globals := g |> <| rw_clients := <[i := (request, p')]> (rw_clients w) |>)
| rstep_server w g p' : rw_alive w = true -> stepRam (rw_server w) (rw_globals w) = Some (g, p') ->
    rstep arrives configured w (w <| rw_globals := g |> <| rw_server := p' |>)
| rstep_sighup w files : rw_alive w = true -> rw_control w = Waiting -> configured files -> rstep arrives configured w (sighup files w)
| rstep_update w p g p' : rw_alive w = true -> rw_control w = Updating p -> stepRam p (rw_globals w) = Some (g, p') ->
    rstep arrives configured w (w <| rw_globals := g |> <| rw_control := Updating p' |>)
| rstep_updated w : rw_alive w = true -> rw_control w = Updating (RRet tt) -> rstep arrives configured w (w <| rw_control := Waiting |>)
| rstep_term w : rw_alive w = true -> rw_control w = Waiting -> rstep arrives configured w (w <| rw_control := Returned |>)
| rstep_fatal w : rw_alive w = true -> rw_server w = RFatal \/ rw_control w = Updating RFatal -> rstep arrives configured w (w <| rw_alive := false |>).

(** What the emulator can come to. *)
Inductive rreach (arrives : swiftRequest -> Prop) (configured : ConfFiles -> Prop) : ramWorld -> Prop :=
| rreach_start files : configured files -> rreach arrives configured (Daemon files)
| rreach_step w w' : rreach arrives configured w -> rstep arrives configured w w' -> rreach arrives configured w'.
End Daemon.
