(* ===== verification/RamSwiftFacts.v ===== *)
(** The structs of [ramswift] under any interleaving of its goroutines: what is
    reachable is typed, what a GET answers was put there, and which requests
    panic.

    The reasoning is that of rely and guarantee: every step keeps [ramTyped] and
    is related to the state before it by [evolves], and a program is judged from
    a state on, whatever happens between its steps ([progOk]). *)

From S2P Require Import Prelude SortedMap Blunder Utils GoStrings Conf ConfSections RamSwift.
Open Scope list_scope.

Section Typed.
(** [put a c o data]: somebody may put [data] into the object [o] of the
    container [c] of the account [a].  [badStatus]: a configuration may have a
    status of the failures that is no status. *)
Context (badStatus : Prop) (put : string -> string -> string -> bytes -> Prop).

(** What [WriteHeader] does not panic on. *)
Definition statusGood (g : globalsStruct) : Prop := badStatus \/ 100 <= chaosFailureHTTPStatus g <= 999.

(** The name that a pointer was made for never changes, nor does a mutex that
    was left locked open again. *)
Record evolves (g g' : globalsStruct) : Prop := {
  ev_account : forall p a, accountHeap g !! p = Some a -> exists a', accountHeap g' !! p = Some a' /\ account_name a' = account_name a;
  ev_container : forall q c, containerHeap g !! q = Some c ->
    exists c', containerHeap g' !! q = Some c' /\ container_name c' = container_name c /\ swiftAccount c' = swiftAccount c;
  ev_object : forall o b, objectHeap g !! o = Some b ->
    exists b', objectHeap g' !! o = Some b' /\ object_name b' = object_name b /\ swiftContainer b' = swiftContainer b
      /\ (object_locked b = true -> b' = b);
  ev_status : statusGood g -> statusGood g'
}.

#[export] Instance evolves_preorder : PreOrder evolves.
Proof.
  split.
  - intros g. split; eauto 10.
  - intros g1 g2 g3 [A1 C1 O1 S1] [A2 C2 O2 S2]. split; [..|auto].
    + intros p a (a' & H & E)%A1. destruct (A2 _ _ H) as (a'' & ? & ?). exists a''. split; congruence.
    + intros q c (c' & H & E1 & E2)%C1. destruct (C2 _ _ H) as (c'' & ? & ? & ?). exists c''. repeat split; congruence.
    + intros o b (b' & H & E1 & E2 & L)%O1. destruct (O2 _ _ H) as (b'' & ? & ? & ? & L'). exists b''.
      repeat split; [congruence..|]. intros Hb. rewrite <- (L Hb) in Hb |- *. auto.
Qed.

(** Only the heaps and the status matter. *)
Lemma evolves_heaps g g' : accountHeap g' = accountHeap g -> containerHeap g' = containerHeap g -> objectHeap g' = objectHeap g ->
  (statusGood g -> statusGood g') -> evolves g g'.
Proof. intros E1 E2 E3 E4. split; rewrite ?E1, ?E2, ?E3; eauto 10. Qed.

(** What a pointer is: the account, container or object of a name. *)
Definition isAccount (g : globalsStruct) (name : string) (p : nat) : Prop :=
  exists a, accountHeap g !! p = Some a /\ account_name a = name.
Definition isContainer (g : globalsStruct) (accountName name : string) (q : nat) : Prop :=
  exists c, containerHeap g !! q = Some c /\ container_name c = name /\ isAccount g accountName (swiftAccount c).
Definition isObject (g : globalsStruct) (accountName containerName name : string) (o : nat) : Prop :=
  exists b, objectHeap g !! o = Some b /\ object_name b = name /\ isContainer g accountName containerName (swiftContainer b).

Lemma isAccount_stable g g' name p : evolves g g' -> isAccount g name p -> isAccount g' name p.
Proof. intros [A _ _ _] (a & H & E). destruct (A _ _ H) as (a' & ? & ?). exists a'. split; congruence. Qed.

Lemma isContainer_stable g g' an name q : evolves g g' -> isContainer g an name q -> isContainer g' an name q.
Proof.
  intros Hev (c & H & E & Ha). destruct (ev_container _ _ Hev _ _ H) as (c' & H' & E1 & E2). exists c'. split; [done|].
  split; [congruence|]. rewrite E2. by eapply isAccount_stable.
Qed.

Lemma isObject_stable g g' an cn name o : evolves g g' -> isObject g an cn name o -> isObject g' an cn name o.
Proof.
  intros Hev (b & H & E & Hc). destruct (ev_object _ _ Hev _ _ H) as (b' & H' & E1 & E2 & _). exists b'. split; [done|].
  split; [congruence|]. rewrite E2. by eapply isContainer_stable.
Qed.

#[local] Hint Resolve isAccount_stable isContainer_stable isObject_stable : go.

Lemma isAccount_unique g n n' p : isAccount g n p -> isAccount g n' p -> n = n'.
Proof. intros (a & H & <-) (a' & H' & <-). congruence. Qed.

Lemma isContainer_unique g an an' n n' q : isContainer g an n q -> isContainer g an' n' q -> an = an' /\ n = n'.
Proof.
  intros (c & H & <- & Ha) (c' & H' & <- & Ha'). assert (c' = c) as -> by congruence. split; [|done]. by eapply isAccount_unique.
Qed.

Definition wasPut (a c o : string) (data : bytes) : Prop := data = [] \/ put a c o data.

Definition containerTreeOk (g : globalsStruct) (p : nat) (tree : list (string * nat)) : Prop :=
  sorted tree /\ forall name q, (name, q) ∈ tree -> exists c, containerHeap g !! q = Some c /\ container_name c = name /\ swiftAccount c = p.

Definition objectTreeOk (g : globalsStruct) (q : nat) (tree : list (string * nat)) : Prop :=
  sorted tree /\ forall name o, (name, o) ∈ tree -> exists b, objectHeap g !! o = Some b /\ object_name b = name /\ swiftContainer b = q.

(** Names lead to structs of that name, which point back to where they were
    found; trees are sorted; contents were put under the names of the object. *)
Record ramTyped (g : globalsStruct) : Prop := {
  ty_map : forall name p, swiftAccountMap g !! name = Some p -> isAccount g name p;
  ty_containers : forall p a, accountHeap g !! p = Some a -> containerTreeOk g p (swiftContainerTree a);
  ty_objects : forall q c, containerHeap g !! q = Some c -> objectTreeOk g q (swiftObjectTree c);
  ty_account_of : forall q c, containerHeap g !! q = Some c -> exists name, isAccount g name (swiftAccount c);
  ty_container_of : forall o b, objectHeap g !! o = Some b ->
    exists an cn, isContainer g an cn (swiftContainer b) /\ wasPut an cn (object_name b) (contents b);
  ty_status : statusGood g \/ forall r v, methodOf v (ratesOf r g) = 0
}.

Lemma containerTreeOk_stable g g' p tree : evolves g g' -> containerTreeOk g p tree -> containerTreeOk g' p tree.
Proof.
  intros Hev [Hs Ht]. split; [done|]. intros name q Hin. destruct (Ht _ _ Hin) as (c & H & E1 & E2).
  destruct (ev_container _ _ Hev _ _ H) as (c' & ? & ? & ?). exists c'. repeat split; congruence.
Qed.

Lemma objectTreeOk_stable g g' q tree : evolves g g' -> objectTreeOk g q tree -> objectTreeOk g' q tree.
Proof.
  intros Hev [Hs Ht]. split; [done|]. intros name o Hin. destruct (Ht _ _ Hin) as (b & H & E1 & E2).
  destruct (ev_object _ _ Hev _ _ H) as (b' & ? & ? & ? & _). exists b'. repeat split; congruence.
Qed.

(** A step that evolves and keeps what is new in it typed. *)
Lemma ramTyped_evolves g g' : evolves g g' -> ramTyped g ->
  (forall name p, swiftAccountMap g' !! name = Some p -> swiftAccountMap g !! name = Some p \/ isAccount g' name p) ->
  (forall p a, accountHeap g' !! p = Some a -> (exists a0, accountHeap g !! p = Some a0 /\ swiftContainerTree a = swiftContainerTree a0)
     \/ containerTreeOk g' p (swiftContainerTree a)) ->
  (forall q c, containerHeap g' !! q = Some c ->
     (exists c0, containerHeap g !! q = Some c0 /\ swiftAccount c = swiftAccount c0 /\ swiftObjectTree c = swiftObjectTree c0)
     \/ objectTreeOk g' q (swiftObjectTree c) /\ exists name, isAccount g' name (swiftAccount c)) ->
  (forall o b, objectHeap g' !! o = Some b ->
     (exists b0, objectHeap g !! o = Some b0 /\ object_name b = object_name b0 /\ swiftContainer b = swiftContainer b0 /\ contents b = contents b0)
     \/ exists an cn, isContainer g' an cn (swiftContainer b) /\ wasPut an cn (object_name b) (contents b)) ->
  ((forall r v, methodOf v (ratesOf r g) = 0) -> statusGood g' \/ forall r v, methodOf v (ratesOf r g') = 0) ->
  ramTyped g'.
Proof.
  intros Hev [M C O A B S] HM HA HC HO HS. split.
  - intros name p [Hp|Hp]%HM; [|done]. eauto with go.
  - intros p a Hp. destruct (HA _ _ Hp) as [(a0 & H0 & ->)|]; [|done]. eapply containerTreeOk_stable; eauto.
  - intros q c Hq. destruct (HC _ _ Hq) as [(c0 & H0 & _ & ->)|[? _]]; [|done]. eapply objectTreeOk_stable; eauto.
  - intros q c Hq. destruct (HC _ _ Hq) as [(c0 & H0 & -> & _)|[_ ?]]; [|done]. destruct (A _ _ H0) as (name & ?). exists name. eauto with go.
  - intros o b Ho. destruct (HO _ _ Ho) as [(b0 & H0 & -> & -> & ->)|]; [|done]. destruct (B _ _ H0) as (an & cn & ? & ?).
    exists an, cn. split; [eauto with go|done].
  - destruct S as [S|S]; [left; by apply (ev_status _ _ Hev)|by apply HS].
Qed.

(** [rget], and every change outside the heaps. *)
Lemma ramTyped_heaps g g' : accountHeap g' = accountHeap g -> containerHeap g' = containerHeap g -> objectHeap g' = objectHeap g ->
  swiftAccountMap g' ⊆ swiftAccountMap g -> (statusGood g -> statusGood g') ->
  ((forall r v, methodOf v (ratesOf r g) = 0) -> statusGood g' \/ forall r v, methodOf v (ratesOf r g') = 0) ->
  ramTyped g -> ramTyped g' /\ evolves g g'.
Proof.
  intros E1 E2 E3 E4 E5 E6 Ht. assert (Hev : evolves g g') by by apply evolves_heaps. split; [|done].
  apply (ramTyped_evolves g); try done; rewrite ?E1, ?E2, ?E3; [|eauto 10..]. intros name p Hp. left. by eapply lookup_weaken.
Qed.

Lemma modAccount_ok g p f : ramTyped g ->
  (forall a, accountHeap g !! p = Some a -> account_name (f a) = account_name a /\ containerTreeOk g p (swiftContainerTree (f a))) ->
  ramTyped (modAccount p f g) /\ evolves g (modAccount p f g).
Proof.
  intros Ht Hf. assert (Hev : evolves g (modAccount p f g)).
  { split; [..|done]; cbn; [|eauto 10..]. intros p' a Hp. destruct (decide (p' = p)) as [->|Hne].
    - exists (f a). rewrite list_lookup_alter_eq, Hp. split; [done|]. by apply Hf.
    - exists a. by rewrite list_lookup_alter_ne. }
  split; [|done]. apply (ramTyped_evolves g); try done; try (by intros; right); cbn; [eauto| |eauto 10..]. intros p' a. destruct (decide (p' = p)) as [->|Hne].
  - rewrite list_lookup_alter_eq. intros (a0 & Ha & ->)%fmap_Some. right. eapply containerTreeOk_stable; [done|]. by apply Hf.
  - rewrite list_lookup_alter_ne by done. eauto.
Qed.

Lemma modContainer_ok g q f : ramTyped g ->
  (forall c, containerHeap g !! q = Some c ->
     container_name (f c) = container_name c /\ swiftAccount (f c) = swiftAccount c /\ objectTreeOk g q (swiftObjectTree (f c))) ->
  ramTyped (modContainer q f g) /\ evolves g (modContainer q f g).
Proof.
  intros Ht Hf. assert (Hev : evolves g (modContainer q f g)).
  { split; [..|done]; cbn; [eauto| |eauto 10]. intros q' c Hq. destruct (decide (q' = q)) as [->|Hne].
    - exists (f c). rewrite list_lookup_alter_eq, Hq. split; [done|]. destruct (Hf _ Hq) as (? & ? & _). done.
    - exists c. by rewrite list_lookup_alter_ne. }
  split; [|done]. apply (ramTyped_evolves g); try done; try (by intros; right); cbn; [eauto..| |eauto 10]. intros q' c. destruct (decide (q' = q)) as [->|Hne].
  - rewrite list_lookup_alter_eq. intros (c0 & Hc & ->)%fmap_Some. destruct (Hf _ Hc) as (_ & -> & Htree). right.
    split; [by eapply objectTreeOk_stable|]. destruct (ty_account_of _ Ht _ _ Hc) as (name & ?). exists name. eauto with go.
  - rewrite list_lookup_alter_ne by done. eauto 10.
Qed.

(** The mutex of the object is held, and not left locked. *)
Lemma modObject_ok g o f : ramTyped g ->
  (forall b, objectHeap g !! o = Some b -> object_locked b = false /\ object_name (f b) = object_name b /\ swiftContainer (f b) = swiftContainer b
     /\ (contents (f b) = contents b \/ exists an cn, isContainer g an cn (swiftContainer b) /\ wasPut an cn (object_name b) (contents (f b)))) ->
  ramTyped (modObject o f g) /\ evolves g (modObject o f g).
Proof.
  intros Ht Hf. assert (Hev : evolves g (modObject o f g)).
  { split; [..|done]; cbn; [eauto 10..|]. intros o' b Ho. destruct (decide (o' = o)) as [->|Hne].
    - exists (f b). rewrite list_lookup_alter_eq, Ho. split; [done|]. destruct (Hf _ Ho) as (Hl & ? & ? & _). repeat split; [done..|].
      by rewrite Hl.
    - exists b. by rewrite list_lookup_alter_ne. }
  split; [|done]. apply (ramTyped_evolves g); try done; try (by intros; right); cbn; [eauto..|eauto 10|]. intros o' b. destruct (decide (o' = o)) as [->|Hne].
  - rewrite list_lookup_alter_eq. intros (b0 & Hb & ->)%fmap_Some. destruct (Hf _ Hb) as (_ & -> & -> & [Hc|(an & cn & Hc & Hw)]).
    + left. exists b0. by rewrite Hc.
    + right. exists an, cn. split; [eauto with go|done].
  - rewrite list_lookup_alter_ne by done. eauto 10.
Qed.

Lemma GetByKey_elem (tree : list (string * nat)) name q : sorted tree -> GetByKey tree name = Some q -> (name, q) ∈ tree.
Proof. intros Hs Hg. by apply entry_at_elem. Qed.

Lemma Put_absent (tree : list (string * nat)) name q : GetByKey tree name = None -> exists tree', SortedMap.Put tree name q = Some tree'.
Proof. unfold GetByKey, SortedMap.Put. intros ->. eauto. Qed.

Lemma lookup_snoc {A} (l : list A) x i y : (l ++ [x]) !! i = Some y -> l !! i = Some y \/ i = length l /\ y = x.
Proof.
  intros H. apply lookup_app_Some in H as [H|[Hi H]]; [by left|]. right. apply list_lookup_singleton_Some in H as [? ->]. split; [lia|done].
Qed.

Lemma addAccount_ok g name : ramTyped g ->
  let '(g', p) := addAccount name g in ramTyped g' /\ evolves g g' /\ isAccount g' name p /\ swiftAccountMap g' = <[name := p]> (swiftAccountMap g).
Proof.
  intros Ht. cbn. set (g' := set _ _ _).
  assert (Hnew : isAccount g' name (length (accountHeap g))).
  { eexists. cbn. by rewrite lookup_app_r, Nat.sub_diag. }
  assert (Hev : evolves g g') by (split; [..|done]; cbn; [intros p a Hp; exists a; by rewrite (lookup_app_l_Some _ _ _ _ Hp)|eauto 10..]).
  split; [|done]. apply (ramTyped_evolves g); try done; try (by intros; right); cbn; [| |eauto 10..].
  - intros n p [[<- <-]|[_ Hp]]%lookup_insert_Some; auto.
  - intros p a [Hp|[-> ->]]%lookup_snoc; [eauto|]. right. split; [done|]. cbn. by intros ? ? ?%elem_of_nil.
Qed.

Lemma addContainer_ok g p an name : ramTyped g -> isAccount g an p ->
  GetByKey (swiftContainerTree (accountOf g p)) name = None ->
  let '(g', q) := addContainer p name g in
  ramTyped g' /\ evolves g g' /\ isContainer g' an name q /\ q = length (containerHeap g).
Proof.
  intros Ht (a & Ha & En) Hnone. unfold addContainer, accountOf in *. rewrite Ha in *. cbn [default] in *.
  set (g1 := set _ _ _). set (q := length _).
  assert (Hev1 : evolves g g1) by (split; [..|done]; cbn; [eauto| |eauto 10]; intros q' c Hq; exists c; by rewrite (lookup_app_l_Some _ _ _ _ Hq)).
  assert (Hq : containerHeap g1 !! q = Some (newContainer name p)) by (cbn; unfold q; by rewrite lookup_app_r, Nat.sub_diag).
  assert (Ht1 : ramTyped g1).
  { apply (ramTyped_evolves g); try done; try (by intros; right); cbn; [eauto..| |eauto 10]. intros q' c [Hc|[-> ->]]%lookup_snoc; [eauto 10|].
    right. split; [split; [done|]; cbn; by intros ? ? ?%elem_of_nil|]. exists an. cbn. by exists a. }
  destruct (ty_containers _ Ht _ _ Ha) as [Hsort Htree].
  destruct (Put_absent (swiftContainerTree a) name q Hnone) as [tree HP]. cbn in HP |- *. rewrite HP.
  destruct (Put_elem _ _ _ _ Hsort HP) as (Hs' & _ & _ & Hel).
  destruct (modAccount_ok g1 p (setContainerTree tree) Ht1) as [Ht2 Hev2].
  { intros a' Ha'. cbn. split; [done|]. split; [done|]. intros n r [[-> ->]|Hin]%Hel; [by exists (newContainer name p)|].
    destruct (Htree _ _ Hin) as (c & Hc & ? & ?). destruct (ev_container _ _ Hev1 _ _ Hc) as (c' & ? & ? & ?). exists c'. repeat split; congruence. }
  split; [done|]. split; [by etransitivity|]. split; [|done]. eapply isContainer_stable; [exact Hev2|].
  exists (newContainer name p). split; [done|]. split; [done|]. by exists a.
Qed.

Lemma addObject_ok g q an cn name : ramTyped g -> isContainer g an cn q ->
  GetByKey (swiftObjectTree (containerOf g q)) name = None ->
  let '(g', o) := addObject q name g in
  ramTyped g' /\ evolves g g' /\ isObject g' an cn name o /\ o = length (objectHeap g).
Proof.
  intros Ht (c & Hc & En & Ha) Hnone. unfold addObject, containerOf in *. rewrite Hc in *. cbn [default] in *.
  set (g1 := set _ _ _). set (o := length _).
  assert (Hev1 : evolves g g1) by (split; [..|done]; cbn; [eauto 10..|]; intros o' b Ho; exists b; by rewrite (lookup_app_l_Some _ _ _ _ Ho)).
  assert (Ho : objectHeap g1 !! o = Some (newObject name q)) by (cbn; unfold o; by rewrite lookup_app_r, Nat.sub_diag).
  assert (Hc1 : isContainer g1 an cn q) by (eapply isContainer_stable; [exact Hev1|]; by exists c).
  assert (Ht1 : ramTyped g1).
  { apply (ramTyped_evolves g); try done; try (by intros; right); cbn; [eauto 10..|]. intros o' b [Hb|[-> ->]]%lookup_snoc; [eauto 10|].
    right. exists an, cn. split; [done|]. by left. }
  destruct (ty_objects _ Ht _ _ Hc) as [Hsort Htree].
  destruct (Put_absent (swiftObjectTree c) name o Hnone) as [tree HP]. cbn in HP |- *. rewrite HP.
  destruct (Put_elem _ _ _ _ Hsort HP) as (Hs' & _ & _ & Hel).
  destruct (modContainer_ok g1 q (setObjectTree tree) Ht1) as [Ht2 Hev2].
  { intros c' Hc'. cbn. split; [done|]. split; [done|]. split; [done|]. intros n r [[-> ->]|Hin]%Hel; [by exists (newObject name q)|].
    destruct (Htree _ _ Hin) as (b & Hb & ? & ?). destruct (ev_object _ _ Hev1 _ _ Hb) as (b' & ? & ? & ? & _). exists b'. repeat split; congruence. }
  split; [done|]. split; [by etransitivity|]. split; [|done]. eapply isObject_stable; [exact Hev2|].
  by exists (newObject name q).
Qed.

Lemma containerTreeOk_delete g p tree name tree' : containerTreeOk g p tree -> DeleteByKey tree name = Some tree' -> containerTreeOk g p tree'.
Proof.
  intros [Hs Ht] HD. destruct (DeleteByKey_elem _ _ _ Hs HD) as [Hs' Hel]. split; [done|]. intros n q [_ Hin]%Hel. eauto.
Qed.

Lemma objectTreeOk_delete g q tree name tree' : objectTreeOk g q tree -> DeleteByKey tree name = Some tree' -> objectTreeOk g q tree'.
Proof.
  intros [Hs Ht] HD. destruct (DeleteByKey_elem _ _ _ Hs HD) as [Hs' Hel]. split; [done|]. intros n o [_ Hin]%Hel. eauto.
Qed.

Lemma accountOf_tree g p : ramTyped g -> containerTreeOk g p (swiftContainerTree (accountOf g p)).
Proof.
  intros Ht. unfold accountOf. destruct (accountHeap g !! p) as [a|] eqn:Ha; [by apply (ty_containers _ Ht)|].
  split; [done|]. cbn. by intros ? ? ?%elem_of_nil.
Qed.

Lemma containerOf_tree g q : ramTyped g -> objectTreeOk g q (swiftObjectTree (containerOf g q)).
Proof.
  intros Ht. unfold containerOf. destruct (containerHeap g !! q) as [c|] eqn:Hc; [by apply (ty_objects _ Ht)|].
  split; [done|]. cbn. by intros ? ? ?%elem_of_nil.
Qed.

Lemma GetByKey_container g p an name q : ramTyped g -> isAccount g an p ->
  GetByKey (swiftContainerTree (accountOf g p)) name = Some q -> isContainer g an name q.
Proof.
  intros Ht Ha Hg. destruct (accountOf_tree g p Ht) as [Hs Hel]. destruct (Hel _ _ (GetByKey_elem _ _ _ Hs Hg)) as (c & ? & ? & E).
  exists c. by rewrite E.
Qed.

Lemma GetByKey_object g q an cn name o : ramTyped g -> isContainer g an cn q ->
  GetByKey (swiftObjectTree (containerOf g q)) name = Some o -> isObject g an cn name o.
Proof.
  intros Ht Hc Hg. destruct (containerOf_tree g q Ht) as [Hs Hel]. destruct (Hel _ _ (GetByKey_elem _ _ _ Hs Hg)) as (b & ? & ? & E).
  exists b. by rewrite E.
Qed.

(** ** Rely and guarantee *)

(** [p], started in any state that [g] evolves to, keeps [ramTyped], evolves, and
    returns what satisfies [Q]; it panics only if [mayPanic]. *)
Fixpoint progOk {A} (mayPanic : Prop) (Q : A -> globalsStruct -> Prop) (p : ramProg A) (g : globalsStruct) : Prop :=
  match p with
  | RRet a => Q a g
  | RPanic => mayPanic
  | RFatal => True
  | RStep m k => forall g1, evolves g g1 -> ramTyped g1 -> forall g2 b, m g1 = Some (g2, b) ->
      ramTyped g2 /\ evolves g1 g2 /\ progOk mayPanic Q (k b) g2
  end.

Definition stable {A} (Q : A -> globalsStruct -> Prop) : Prop := forall a g g', evolves g g' -> Q a g -> Q a g'.

Lemma progOk_evolves {A} mayPanic (Q : A -> globalsStruct -> Prop) p g g' : stable Q -> evolves g g' -> progOk mayPanic Q p g -> progOk mayPanic Q p g'.
Proof. intros HQ Hev. destruct p; cbn; [by apply HQ|done..|]. intros Hp g1 Hev1. apply Hp. by etransitivity. Qed.

Lemma progOk_bind {A B} mayPanic (Q : A -> globalsStruct -> Prop) (R : B -> globalsStruct -> Prop) p k g :
  progOk mayPanic Q p g -> (forall a g', evolves g g' -> Q a g' -> progOk mayPanic R (k a) g') -> progOk mayPanic R (rbind p k) g.
Proof.
  revert g. induction p as [a| | |C m k' IH]; intros g Hp Hk; cbn in *; [by apply Hk|done..|].
  intros g1 Hev Ht g2 b Hm. destruct (Hp g1 Hev Ht g2 b Hm) as (Ht2 & Hev2 & Hp2). split; [done|]. split; [done|].
  apply IH; [done|]. intros a g' Hev'. apply Hk. by repeat (etransitivity; [eassumption|]).
Qed.

Lemma progOk_atomically {A} mayPanic (Q : A -> globalsStruct -> Prop) f g :
  (forall g1, evolves g g1 -> ramTyped g1 -> (ramTyped (f g1).1 /\ evolves g1 (f g1).1) /\ Q (f g1).2 (f g1).1) ->
  progOk mayPanic Q (atomically f) g.
Proof.
  intros Hf. cbn. intros g1 Hev Ht g2 b E. destruct (f g1) as [g' a] eqn:Ef. injection E as <- <-.
  destruct (Hf g1 Hev Ht) as [[? ?] ?]. by rewrite Ef in *.
Qed.

Lemma progOk_rget {A} mayPanic (Q : A -> globalsStruct -> Prop) f g :
  (forall g1, evolves g g1 -> ramTyped g1 -> Q (f g1) g1) -> progOk mayPanic Q (rget f) g.
Proof. intros Hf. apply progOk_atomically. intros g1 Hev Ht. split; [|by apply Hf]. split; [done|reflexivity]. Qed.

Lemma progOk_rput mayPanic (Q : unit -> globalsStruct -> Prop) f g :
  (forall g1, evolves g g1 -> ramTyped g1 -> (ramTyped (f g1) /\ evolves g1 (f g1)) /\ Q tt (f g1)) -> progOk mayPanic Q (rput f) g.
Proof. intros Hf. apply progOk_atomically. apply Hf. Qed.

Lemma progOk_impl {A} (P P' : Prop) (Q Q' : A -> globalsStruct -> Prop) p g :
  (P -> P') -> (forall a g', Q a g' -> Q' a g') -> progOk P Q p g -> progOk P' Q' p g.
Proof.
  intros HP HQ. revert g. induction p as [a| | |B m k IH]; intros g; cbn; [apply HQ|done..|].
  intros Hp g1 Hev Ht g2 b Hm. destruct (Hp g1 Hev Ht g2 b Hm) as (? & ? & ?). eauto.
Qed.

(** ** The operations *)

(** What a lookup found. *)
Definition foundOk (isA : globalsStruct -> nat -> Prop) (r : Z + nat) (g : globalsStruct) : Prop :=
  match r with inr p => isA g p | inl errno => errno = ENOENT end.

Lemma locateSwiftAccount_ok mayPanic name g : progOk mayPanic (foundOk (fun g => isAccount g name)) (locateSwiftAccount name) g.
Proof.
  apply progOk_atomically. intros g1 Hev Ht. cbn. split; [split; [done|reflexivity]|].
  destruct (swiftAccountMap g1 !! name) eqn:Hn; [|done]. by apply (ty_map _ Ht).
Qed.

Lemma createOrLocateSwiftAccount_ok mayPanic name g :
  progOk mayPanic (fun r g => isAccount g name r.1) (createOrLocateSwiftAccount name) g.
Proof.
  apply progOk_atomically. intros g1 Hev Ht. cbn beta. destruct (swiftAccountMap g1 !! name) eqn:Hn.
  - cbn. split; [split; [done|reflexivity]|]. by apply (ty_map _ Ht).
  - pose proof (addAccount_ok g1 name Ht) as Hadd. destruct (addAccount name g1) as [g' p]. by destruct Hadd as (? & ? & ? & _).
Qed.

Lemma createSwiftAccount_ok mayPanic name g : progOk mayPanic (fun _ _ => True) (createSwiftAccount name) g.
Proof.
  apply progOk_atomically. intros g1 Hev Ht. split; [|done]. cbn beta. destruct (swiftAccountMap g1 !! name) eqn:Hn.
  - cbn. split; [done|reflexivity].
  - pose proof (addAccount_ok g1 name Ht) as Hadd. destruct (addAccount name g1) as [g' p]. by destruct Hadd as (? & ? & ? & _).
Qed.

Definition deletedOk (errno : Z) (_ : globalsStruct) : Prop := errno = 0 \/ errno = ENOENT \/ errno = ENOTEMPTY.

(** A change of the map of accounts, or of anything beside the heaps. *)
Lemma ramTyped_others g g' : accountHeap g' = accountHeap g -> containerHeap g' = containerHeap g -> objectHeap g' = objectHeap g ->
  swiftAccountMap g' ⊆ swiftAccountMap g -> chaosFailureHTTPStatus g' = chaosFailureHTTPStatus g ->
  (forall r v, methodOf v (ratesOf r g') = methodOf v (ratesOf r g)) -> ramTyped g -> ramTyped g' /\ evolves g g'.
Proof.
  intros E1 E2 E3 E4 E5 E6. apply ramTyped_heaps; try done.
  - unfold statusGood. by rewrite E5.
  - intros H0. right. intros r v. by rewrite E6.
Qed.

Lemma deleteSwiftAccount_ok mayPanic name force g : progOk mayPanic deletedOk (deleteSwiftAccount name force) g.
Proof.
  apply progOk_atomically. intros g1 Hev Ht. cbn beta. unfold deletedOk. destruct (swiftAccountMap g1 !! name) eqn:Hn.
  2: { split; [split; [done|reflexivity]|auto]. }
  destruct (_ && _); cbn [fst snd]; (split; [|auto]); [split; [done|reflexivity]|].
  apply ramTyped_others; try done. cbn. apply delete_subseteq.
Qed.

Lemma locateSwiftContainer_ok mayPanic p an name g : isAccount g an p ->
  progOk mayPanic (foundOk (fun g => isContainer g an name)) (locateSwiftContainer p name) g.
Proof.
  intros Ha. apply progOk_atomically. intros g1 Hev Ht. cbn. split; [split; [done|reflexivity]|].
  destruct (GetByKey _ _) eqn:Hn; [|done]. eapply GetByKey_container; eauto with go.
Qed.

Lemma createOrLocateSwiftContainer_ok mayPanic p an name g : isAccount g an p ->
  progOk mayPanic (fun r g => isContainer g an name r.1) (createOrLocateSwiftContainer p name) g.
Proof.
  intros Ha. apply progOk_atomically. intros g1 Hev Ht. cbn beta. destruct (GetByKey _ _) eqn:Hn.
  - cbn. split; [split; [done|reflexivity]|]. eapply GetByKey_container; eauto with go.
  - pose proof (addContainer_ok g1 p an name Ht) as Hadd. destruct (addContainer p name g1) as [g' q].
    destruct Hadd as (? & ? & ? & _); eauto with go.
Qed.

Lemma deleteSwiftContainer_ok mayPanic p name g : progOk mayPanic deletedOk (deleteSwiftContainer p name) g.
Proof.
  apply progOk_atomically. intros g1 Hev Ht. cbn beta. unfold deletedOk. destruct (GetByKey _ _) eqn:Hn.
  2: { split; [split; [done|reflexivity]|auto]. }
  destruct (negb _); cbn [fst snd]; (split; [|auto]); [split; [done|reflexivity]|].
  destruct (DeleteByKey _ _) as [tree|] eqn:HD; [|split; [done|reflexivity]]. apply modAccount_ok; [done|].
  intros a Ha. split; [done|]. eapply containerTreeOk_delete; [|exact HD]. by apply accountOf_tree.
Qed.

Lemma locateSwiftObject_ok mayPanic q an cn name g : isContainer g an cn q ->
  progOk mayPanic (foundOk (fun g => isObject g an cn name)) (locateSwiftObject q name) g.
Proof.
  intros Hc. apply progOk_atomically. intros g1 Hev Ht. cbn. split; [split; [done|reflexivity]|].
  destruct (GetByKey _ _) eqn:Hn; [|done]. eapply GetByKey_object; eauto with go.
Qed.

Lemma createOrLocateSwiftObject_ok mayPanic q an cn name g : isContainer g an cn q ->
  progOk mayPanic (fun r g => isObject g an cn name r.1) (createOrLocateSwiftObject q name) g.
Proof.
  intros Hc. apply progOk_atomically. intros g1 Hev Ht. cbn beta. destruct (GetByKey _ _) eqn:Hn.
  - cbn. split; [split; [done|reflexivity]|]. eapply GetByKey_object; eauto with go.
  - pose proof (addObject_ok g1 q an cn name Ht) as Hadd. destruct (addObject q name g1) as [g' o].
    destruct Hadd as (? & ? & ? & _); eauto with go.
Qed.

Lemma deleteSwiftObject_ok mayPanic q name g :
  progOk mayPanic (fun errno _ => errno = 0 \/ errno = ENOENT) (deleteSwiftObject q name) g.
Proof.
  apply progOk_atomically. intros g1 Hev Ht. cbn beta. destruct (GetByKey _ _) eqn:Hn.
  2: { split; [split; [done|reflexivity]|auto]. }
  cbn [fst snd]. split; [|auto]. destruct (DeleteByKey _ _) as [tree|] eqn:HD; [|split; [done|reflexivity]].
  apply modContainer_ok; [done|]. intros c Hc. split; [done|]. split; [done|].
  eapply objectTreeOk_delete; [|exact HD]. by apply containerOf_tree.
Qed.

(** ** Requests *)

(** A range whose first byte lies beyond the byte after its last one. *)
Definition rangePastEnd (header : Header) (size : Z) : Prop :=
  exists startOffset stopOffset, parseRangeHeader header = Ret (Some (startOffset, stopOffset))
    /\ (clipRange startOffset stopOffset size).2 + 1 < (clipRange startOffset stopOffset size).1.

Definition mayPanicOn (request : swiftRequest) : Prop :=
  badStatus \/ request_Method request = "GET"%string /\ exists size, 0 <= size /\ rangePastEnd (request_Header request) size.

(** The answer to a GET of an object has a part of what was put there, and all
    of it with the status 200. *)
Definition partOf (body whole : bytes) : Prop := exists pre post, whole = pre ++ body ++ post.

Definition answersPut (request : swiftRequest) (response : swiftResponse) : Prop :=
  request_Method request = "GET"%string ->
  forall a c o, parsePath (request_Path request) = (false, a, c, o) -> a <> EmptyString -> c <> EmptyString -> o <> EmptyString ->
  exists whole, wasPut a c o whole /\ partOf (sr_body response) whole /\ (sr_status response = StatusOK -> sr_body response = whole).

Abbreviation handles request p g := (progOk (mayPanicOn request) (fun response _ => answersPut request response) p g).

Lemma answersPut_empty request response : sr_body response = [] -> answersPut request response.
Proof. intros E _ a c o _ _ _ _. exists []. rewrite E. split; [by left|]. split; [|done]. by exists [], []. Qed.

Lemma plainStatus_ok request status g : handles request (RRet (plainStatus status)) g.
Proof. by apply answersPut_empty. Qed.

Lemma WriteHeader_ok request status g : badStatus \/ 100 <= status <= 999 -> handles request (WriteHeader status) g.
Proof.
  intros Hs. unfold WriteHeader. destruct (_ && _) eqn:E; [by apply answersPut_empty|]. cbn. left.
  destruct Hs as [?|?]; [done|]. apply andb_false_iff in E as [E%Z.leb_gt|E%Z.leb_gt]; lia.
Qed.

Lemma methodOf_bump r v g : countsOf r (bumpCount r v g) = bumpMethod v (countsOf r g).
Proof. by destruct r. Qed.

Lemma ratesOf_bump r r' v g : ratesOf r (bumpCount r' v g) = ratesOf r g.
Proof. by destruct r, r'. Qed.

Lemma withChaos_ok request r v normal g :
  (forall g', evolves g g' -> handles request normal g') -> handles request (withChaos r v normal) g.
Proof.
  intros Hn. unfold withChaos. apply progOk_bind with (Q := fun fails g => fails = true -> statusGood g).
  - apply progOk_atomically. intros g1 Hev Ht. cbn [fst snd]. split.
    + apply ramTyped_others; [by destruct r..| |done]. intros r' v'. by rewrite ratesOf_bump.
    + intros Hs. destruct (ty_status _ Ht) as [[Hg|Hg]|H0]; [by left|right; by destruct r|].
      unfold struck in Hs. rewrite ratesOf_bump, H0 in Hs. done.
  - intros fails g' Hev Hs. destruct fails; [|by apply Hn]. apply progOk_bind with (Q := fun status _ => badStatus \/ 100 <= status <= 999).
    + apply progOk_rget. intros g1 Hev1 _. by apply (ev_status _ _ Hev1), Hs.
    + intros status g2 _ Hg. by apply WriteHeader_ok.
Qed.

Lemma located_ok request isA r missing found g : foundOk isA r g -> (forall p, r = inr p -> isA g p -> handles request (found p) g) ->
  handles request (located r missing found) g.
Proof. intros Hr Hf. destruct r as [errno|p]; cbn in *; [subst errno; by apply plainStatus_ok|by apply Hf]. Qed.

Lemma deleted_ok request errno g : deletedOk errno g -> handles request (deleted errno) g.
Proof. intros [H|[H|H]]; subst; by apply answersPut_empty. Qed.

Lemma deletedObject_ok request errno g : errno = 0 \/ errno = ENOENT -> handles request (deletedObject errno) g.
Proof. intros [H|H]; subst; by apply answersPut_empty. Qed.

Lemma listLoop_total tree : forall n index, 0 <= index -> index + Z.of_nat n <= zlen tree -> exists body, listLoop n index tree = Some body.
Proof.
  induction n as [|n IH]; intros index H0 Hn; cbn [listLoop]; [eauto|].
  destruct (GetByIndex tree index) as [[name p]|] eqn:E.
  - destruct (IH (index + 1)) as [body ->]; [lia..|]. eauto.
  - unfold GetByIndex in E. rewrite (proj2 (Z.ltb_ge _ _)) in E by lia. apply lookup_ge_None in E. unfold zlen in Hn. lia.
Qed.

Lemma listing_total header tree : exists response, listing header tree = Some response.
Proof.
  unfold listing. destruct (0 =? _); [eauto|]. destruct (listLoop_total tree (length tree) 0) as [body ->]; [lia|unfold zlen; lia|]. eauto.
Qed.

(** A listing is no answer of an object. *)
Lemma listing_ok request f g : (forall a c o, parsePath (request_Path request) = (false, a, c, o) -> c = EmptyString \/ o = EmptyString) ->
  (forall g, exists response, f g = Some response) -> handles request (r <<- rget f ;; orPanic r) g.
Proof.
  intros Hp Hf. apply progOk_bind with (Q := fun r _ => exists response, r = Some response); [by apply progOk_rget|].
  intros r g' _ (response & ->). cbn. intros _ a c o Hpath _ Hc Ho. by destruct (Hp _ _ _ Hpath).
Qed.

Lemma slice_part l lo hi body : slice l lo hi = Some body -> partOf body l.
Proof.
  unfold slice. destruct (_ && _); [|done]. intros [= <-]. exists (take (Z.to_nat lo) l), (drop (Z.to_nat (hi - lo)) (drop (Z.to_nat lo) l)).
  by rewrite take_drop, take_drop.
Qed.

Lemma clipRange_bounds startOffset stopOffset size : 0 <= size -> (startOffset <? 0) && (stopOffset <? 0) = false ->
  let '(startOffset, stopOffset) := clipRange startOffset stopOffset size in 0 <= startOffset /\ stopOffset + 1 <= size.
Proof.
  unfold clipRange. intros Hs Hb. apply andb_false_iff in Hb as [Hb|Hb]; apply Z.ltb_ge in Hb; zcases; try lia.
Qed.

Lemma parseRangeHeader_signs header startOffset stopOffset : parseRangeHeader header = Ret (Some (startOffset, stopOffset)) ->
  (startOffset <? 0) && (stopOffset <? 0) = false.
Proof.
  unfold parseRangeHeader. destruct (String.eqb _ _); [done|]. destruct (String.prefix _ _); [|done].
  destruct (SplitN _ _ _) as [|first [|last [|]]]; try done. destruct (offsetOf first) as [a| |]; try done.
  destruct (offsetOf last) as [b| |]; try done. cbn [obind]. destruct (_ && _) eqn:E; [done|]. intros [= <- <-]. done.
Qed.

(** A read panics exactly on such a range; otherwise it answers a part of the
    contents. *)
Lemma readContents_cases header contents :
  match readContents header contents with
  | Some response => partOf (sr_body response) contents /\ (sr_status response = StatusOK -> sr_body response = contents)
  | None => rangePastEnd header (zlen contents)
  end.
Proof.
  unfold readContents, rangePastEnd. destruct (parseRangeHeader header) as [[[a b]|]| |] eqn:E; cbn.
  - pose proof (clipRange_bounds a b (zlen contents) (zlen_nonneg _) (parseRangeHeader_signs _ _ _ E)) as Hb.
    destruct (clipRange a b (zlen contents)) as [a' b'] eqn:Ec. destruct (slice contents a' (b' + 1)) as [body|] eqn:Es; cbn.
    + split; [by eapply slice_part|done].
    + exists a, b. split; [done|]. rewrite Ec. cbn. unfold slice in Es. destruct (_ && _) eqn:El; [done|].
      apply andb_false_iff in El as [El|El]; [|apply Z.leb_gt in El; lia].
      apply andb_false_iff in El as [El|El]; apply Z.leb_gt in El; lia.
  - split; [|done]. exists [], []. by rewrite app_nil_r.
  - split; [|done]. exists [], contents. done.
  - split; [|done]. exists [], contents. done.
Qed.

Lemma isObject_contents g an cn name o b : ramTyped g -> isObject g an cn name o -> objectHeap g !! o = Some b -> wasPut an cn name (contents b).
Proof.
  intros Ht (b' & Hb' & En & Hc) Hb. assert (b' = b) as -> by congruence. subst name.
  destruct (ty_container_of _ Ht _ _ Hb) as (an' & cn' & Hc' & Hw). by destruct (isContainer_unique _ _ _ _ _ _ Hc Hc') as [-> ->].
Qed.

(** A critical section of an object. *)
Lemma withObject_ok {A} (mayPanic : Prop) (Q : A -> globalsStruct -> Prop) an cn name o f g : isObject g an cn name o ->
  (forall g1 b, ramTyped g1 -> evolves g g1 -> objectHeap g1 !! o = Some b ->
     match f b with
     | Some (b', a) => object_name b' = object_name b /\ swiftContainer b' = swiftContainer b
         /\ (contents b' = contents b \/ wasPut an cn name (contents b')) /\ (forall g2, Q a g2)
     | None => mayPanic
     end) ->
  progOk mayPanic Q (withObject o f) g.
Proof.
  intros Ho Hf. unfold withObject.
  apply progOk_bind with (Q := fun r _ => match r with Some a => forall g2, Q a g2 | None => mayPanic end).
  2: { intros [a|] g' _ Hr; cbn; [apply Hr|done]. }
  intros g1 Hev Ht g2 r Hm. assert (Ho1 : isObject g1 an cn name o) by eauto with go. destruct Ho1 as (b & Hb & En & Hc).
  assert (E : objectOf g1 o = b) by (unfold objectOf; by rewrite Hb). rewrite E in Hm.
  destruct (object_locked b) eqn:Hl; [done|]. pose proof (Hf g1 b Ht Hev Hb) as Hfb.
  destruct (f b) as [[b' a]|] eqn:Ef; injection Hm as <- <-.
  - destruct Hfb as (E1 & E2 & Hcont & HQ).
    destruct (modObject_ok g1 o (fun _ => b') Ht) as [Ht2 Hev2]; [|done]. intros b0 Hb0. assert (b0 = b) as -> by congruence.
    repeat (split; [done|]). destruct Hcont as [?|?]; [by left|right]. exists an, cn. by rewrite En.
  - destruct (modObject_ok g1 o (fun object => object <| object_locked := true |>) Ht) as [Ht2 Hev2]; [|done].
    intros b0 Hb0. assert (b0 = b) as -> by congruence. repeat (split; [done|]). by left.
Qed.

Ltac parse request :=
  destruct (parsePath (request_Path request)) as [[[infoOnly swiftAccountName] swiftContainerName] swiftObjectName] eqn:Hpath.

(** A path without a container or an object names no object. *)
Ltac not_object Hpath := intros a c o Hpath'; rewrite Hpath in Hpath'; injection Hpath' as _ <- <-; rewrite <- ?String.eqb_eq; auto.

Lemma doDelete_ok request g : handles request (doDelete request) g.
Proof.
  unfold doDelete. parse request. destruct (_ || _); [apply plainStatus_ok|]. destruct (String.eqb swiftContainerName _).
  { apply withChaos_ok. intros g1 _. eapply progOk_bind; [apply deleteSwiftAccount_ok|]. intros errno g2 _. apply deleted_ok. }
  eapply progOk_bind; [apply locateSwiftAccount_ok|]. intros account g1 _ Hacc.
  eapply located_ok; [exact Hacc|]. intros p _ Hp. cbn beta in Hp. destruct (String.eqb swiftObjectName _).
  - apply withChaos_ok. intros g2 _. eapply progOk_bind; [apply deleteSwiftContainer_ok|]. intros errno g3 _. apply deleted_ok.
  - apply withChaos_ok. intros g2 Hev2. eapply progOk_bind; [eapply locateSwiftContainer_ok; eauto with go|]. intros container g3 _ Hcont.
    eapply located_ok; [exact Hcont|]. intros q _ Hq. eapply progOk_bind; [apply deleteSwiftObject_ok|]. intros errno g4 _.
    apply deletedObject_ok.
Qed.

Lemma doGet_ok request g : request_Method request = "GET"%string -> handles request (doGet request) g.
Proof.
  intros HM. unfold doGet. parse request. destruct infoOnly.
  { eapply progOk_bind with (Q := fun _ _ => True); [by apply progOk_rget|]. intros info g1 _ _ _ a c o Hp. congruence. }
  destruct (String.eqb swiftAccountName _); [apply plainStatus_ok|].
  eapply progOk_bind; [apply locateSwiftAccount_ok|]. intros account g1 _ Hacc.
  eapply located_ok; [exact Hacc|]. intros p _ Hp. cbn beta in Hp. destruct (String.eqb swiftContainerName _) eqn:Ec.
  { apply withChaos_ok. intros g2 _. apply listing_ok; [not_object Hpath|]. intros g'. apply listing_total. }
  eapply progOk_bind; [eapply locateSwiftContainer_ok; eauto with go|]. intros container g2 _ Hcont.
  eapply located_ok; [exact Hcont|]. intros q _ Hq. cbn beta in Hq. destruct (String.eqb swiftObjectName _) eqn:Eo.
  { apply withChaos_ok. intros g3 _. apply listing_ok; [not_object Hpath|]. intros g'. apply listing_total. }
  apply withChaos_ok. intros g3 Hev3. eapply progOk_bind; [eapply locateSwiftObject_ok; eauto with go|]. intros object g4 _ Hob.
  eapply located_ok; [exact Hob|]. intros o _ Ho. cbn beta in Ho. eapply withObject_ok; [exact Ho|].
  intros g5 b Ht Hev Hb. pose proof (readContents_cases (request_Header request) (contents b)) as Hr.
  destruct (readContents _ _) as [response|]; [|right; split; [done|]; exists (zlen (contents b)); split; [apply zlen_nonneg|done]].
  split; [done|]. split; [done|]. split; [by left|]. intros g6 _ a c n Hpath' _ _ _. rewrite Hpath in Hpath'. injection Hpath' as <- <- <-.
  exists (contents b). split; [|done]. by eapply isObject_contents; [|eapply isObject_stable|].
Qed.

Lemma doHead_ok request g : request_Method request = "HEAD"%string -> handles request (doHead request) g.
Proof.
  intros HM. assert (Hany : forall response g, handles request (RRet response) g) by (intros response g' HM'; congruence).
  unfold doHead. parse request. destruct (_ || _); [apply Hany|].
  eapply progOk_bind; [apply locateSwiftAccount_ok|]. intros account g1 _ Hacc.
  eapply located_ok; [exact Hacc|]. intros p _ Hp. cbn beta in Hp. destruct (String.eqb swiftContainerName _) eqn:Ec.
  { apply withChaos_ok. intros g2 _. eapply progOk_bind with (Q := fun _ _ => True); [by apply progOk_rget|]. intros; apply Hany. }
  eapply progOk_bind; [eapply locateSwiftContainer_ok; eauto with go|]. intros container g2 _ Hcont.
  eapply located_ok; [exact Hcont|]. intros q _ Hq. cbn beta in Hq. destruct (String.eqb swiftObjectName _) eqn:Eo.
  { apply withChaos_ok. intros g3 _. eapply progOk_bind with (Q := fun _ _ => True); [by apply progOk_rget|]. intros; apply Hany. }
  apply withChaos_ok. intros g3 Hev3. eapply progOk_bind; [eapply locateSwiftObject_ok; eauto with go|]. intros object g4 _ Hob.
  eapply located_ok; [exact Hob|]. intros o _ Ho. eapply progOk_bind with (Q := fun _ _ => True); [by apply progOk_rget|]. intros; apply Hany.
Qed.

(** An assignment to the headers of an account or a container. *)
Lemma account_headers_ok mayPanic p (f : swiftAccountStruct -> swiftAccountStruct) g :
  (forall a, account_name (f a) = account_name a /\ swiftContainerTree (f a) = swiftContainerTree a) ->
  progOk mayPanic (fun _ _ => True) (rput (modAccount p f)) g.
Proof.
  intros Hf. apply progOk_rput. intros g1 _ Ht. split; [|done]. apply modAccount_ok; [done|]. intros a Ha. destruct (Hf a) as [-> ->].
  split; [done|]. by apply (ty_containers _ Ht).
Qed.

Lemma container_headers_ok mayPanic q (f : swiftContainerStruct -> swiftContainerStruct) g :
  (forall c, container_name (f c) = container_name c /\ swiftAccount (f c) = swiftAccount c /\ swiftObjectTree (f c) = swiftObjectTree c) ->
  progOk mayPanic (fun _ _ => True) (rput (modContainer q f)) g.
Proof.
  intros Hf. apply progOk_rput. intros g1 _ Ht. split; [|done]. apply modContainer_ok; [done|]. intros c Hc. destruct (Hf c) as (-> & -> & ->).
  split; [done|]. split; [done|]. by apply (ty_objects _ Ht).
Qed.

Lemma doPost_ok request g : handles request (doPost request) g.
Proof.
  unfold doPost. parse request. destruct (_ || _); [apply plainStatus_ok|].
  eapply progOk_bind; [apply locateSwiftAccount_ok|]. intros account g1 _ Hacc.
  eapply located_ok; [exact Hacc|]. intros p _ Hp. cbn beta in Hp. destruct (String.eqb swiftContainerName _) eqn:Ec.
  { apply withChaos_ok. intros g2 _. eapply progOk_bind; [by apply account_headers_ok|]. intros; apply plainStatus_ok. }
  eapply progOk_bind; [eapply locateSwiftContainer_ok; eauto with go|]. intros container g2 _ Hcont.
  eapply located_ok; [exact Hcont|]. intros q _ Hq. cbn beta in Hq. destruct (String.eqb swiftObjectName _) eqn:Eo.
  { apply withChaos_ok. intros g3 _. eapply progOk_bind; [by apply container_headers_ok|]. intros; apply plainStatus_ok. }
  apply withChaos_ok. intros. apply plainStatus_ok.
Qed.

Lemma doPut_ok request g :
  (forall a c o, parsePath (request_Path request) = (false, a, c, o) -> put a c o (request_Body request)) ->
  handles request (doPut request) g.
Proof.
  intros Hput. unfold doPut. parse request. destruct (_ || _) eqn:Ei; [apply plainStatus_ok|].
  apply orb_false_iff in Ei as [-> _]. destruct (String.eqb swiftContainerName _) eqn:Ec.
  { apply withChaos_ok. intros g2 _. eapply progOk_bind; [apply createOrLocateSwiftAccount_ok|]. intros r g3 _ _.
    eapply progOk_bind; [apply account_headers_ok; intros x; destruct r as [? []]; by repeat split|]. intros; apply plainStatus_ok. }
  eapply progOk_bind; [apply locateSwiftAccount_ok|]. intros account g1 _ Hacc.
  eapply located_ok; [exact Hacc|]. intros p _ Hp. cbn beta in Hp. destruct (String.eqb swiftObjectName _) eqn:Eo.
  { apply withChaos_ok. intros g2 Hev2. eapply progOk_bind; [eapply createOrLocateSwiftContainer_ok; eauto with go|]. intros r g3 _ _.
    eapply progOk_bind; [apply container_headers_ok; intros x; destruct r as [? []]; by repeat split|]. intros; apply plainStatus_ok. }
  apply withChaos_ok. intros g2 Hev2. eapply progOk_bind; [eapply locateSwiftContainer_ok; eauto with go|]. intros container g3 _ Hcont.
  eapply located_ok; [exact Hcont|]. intros q _ Hq. cbn beta in Hq. eapply progOk_bind; [by eapply createOrLocateSwiftObject_ok|]. intros r g4 _ Ho.
  eapply progOk_bind with (Q := fun _ _ => True); [eapply withObject_ok; [exact Ho|]|intros; apply plainStatus_ok].
  intros g5 b Ht Hev Hb. split; [done|]. split; [done|]. split; [|done]. right. right. cbn. by apply Hput.
Qed.

Lemma ServeHTTP_ok request g :
  (request_Method request = "PUT"%string -> forall a c o, parsePath (request_Path request) = (false, a, c, o) -> put a c o (request_Body request)) ->
  handles request (ServeHTTP request) g.
Proof.
  intros Hput. unfold ServeHTTP.
  destruct (String.eqb_spec (request_Method request) "DELETE") as [HM|_]; [apply doDelete_ok|].
  destruct (String.eqb_spec (request_Method request) "GET") as [HM|_]; [by apply doGet_ok|].
  destruct (String.eqb_spec (request_Method request) "HEAD") as [HM|_]; [by apply doHead_ok|].
  destruct (String.eqb_spec (request_Method request) "POST") as [HM|_]; [apply doPost_ok|].
  destruct (String.eqb_spec (request_Method request) "PUT") as [HM|_]; [apply doPut_ok; auto|]. apply plainStatus_ok.
Qed.

(** ** Configuration *)

Definition goodConf (confMap : ConfMap) : Prop :=
  match FetchOptionValueUint16 confMap "RamSwiftChaos" "FailureHTTPStatus" with Ret status => 100 <= status <= 999 | _ => True end.

Abbreviation configures p g := (progOk False (fun (_ : unit) _ => True) p g).

Lemma fetched_ok {A} (m : res A) g : m <> Panic -> progOk False (fun a _ => m = Ret a) (fetched m) g.
Proof. by destruct m. Qed.

Lemma rget_any {A} (f : globalsStruct -> A) g : progOk False (fun _ _ => True) (rget f) g.
Proof. by apply progOk_rget. Qed.

(** An assignment beside the heaps, the status and the rates. *)
Lemma rput_other f g :
  (forall g, accountHeap (f g) = accountHeap g /\ containerHeap (f g) = containerHeap g /\ objectHeap (f g) = objectHeap g
     /\ swiftAccountMap (f g) = swiftAccountMap g /\ chaosFailureHTTPStatus (f g) = chaosFailureHTTPStatus g
     /\ forall r v, methodOf v (ratesOf r (f g)) = methodOf v (ratesOf r g)) ->
  configures (rput f) g.
Proof.
  intros Hf. apply progOk_rput. intros g1 _ Ht. split; [|done]. destruct (Hf g1) as (? & ? & ? & E & ? & ?).
  apply ramTyped_others; try done. by rewrite E.
Qed.

(** Rates change only once the status is set. *)
Definition statusSet {A} (_ : A) (g : globalsStruct) : Prop := statusGood g.

Lemma rput_rates f g : statusGood g ->
  (forall g, accountHeap (f g) = accountHeap g /\ containerHeap (f g) = containerHeap g /\ objectHeap (f g) = objectHeap g
     /\ swiftAccountMap (f g) = swiftAccountMap g /\ chaosFailureHTTPStatus (f g) = chaosFailureHTTPStatus g) ->
  progOk False statusSet (rput f) g.
Proof.
  intros Hg Hf. apply progOk_rput. intros g1 Hev Ht. destruct (Hf g1) as (E1 & E2 & E3 & E4 & E5).
  assert (Hg1 : statusGood (f g1)) by (unfold statusGood; rewrite E5; by apply (ev_status _ _ Hev)). split; [|done].
  apply ramTyped_heaps; try done; [by rewrite E4|auto].
Qed.

Lemma fetchChaosSettings_ok confMap g : badStatus \/ goodConf confMap -> configures (fetchChaosSettings confMap) g.
Proof.
  intros Hc. unfold fetchChaosSettings. eapply progOk_bind with (Q := statusSet).
  { apply progOk_rput. intros g1 _ Ht.
    assert (Hg1 : statusSet tt (g1 <| chaosFailureHTTPStatus :=
      match FetchOptionValueUint16 confMap "RamSwiftChaos" "FailureHTTPStatus" with Ret status => status | _ => StatusInternalServerError end |>)).
    { destruct Hc as [?|Hc]; [by left|right]. cbn. unfold goodConf in Hc. by destruct (FetchOptionValueUint16 _ _ _). }
    split; [|done]. apply ramTyped_heaps; try done; auto. }
  intros [] g1 _ Hg1. unfold setAccountRate, setContainerRate, setObjectRate.
  repeat (eapply progOk_bind with (Q := statusSet); [by apply rput_rates|]; intros [] g2 _ Hg2; clear g1 Hg1; rename g2 into g1, Hg2 into Hg1).
  eapply progOk_impl; [done| |by apply rput_rates]. done.
Qed.

Lemma FetchString_nopanic confMap s o : FetchOptionValueString confMap s o <> Panic.
Proof.
  unfold FetchOptionValueString, FetchOptionValueStringSlice, fetchOption. destruct (confMap !! s) as [m|]; [|done]. cbn.
  destruct (m !! o) as [l|]; [|done]. cbn. by destruct l as [|? []].
Qed.

Lemma FetchSlice_nopanic confMap s o : FetchOptionValueStringSlice confMap s o <> Panic.
Proof. unfold FetchOptionValueStringSlice, fetchOption. destruct (confMap !! s) as [m|]; [|done]. by destruct (m !! o). Qed.

Lemma ParseUint10_nopanic bits s : ParseUint10 bits s <> Panic.
Proof. destruct s as [|c s]; [done|]. cbn [ParseUint10]. destruct (parseDec _ _); [|done]. by destruct (_ <? _). Qed.

Lemma FetchUint_nopanic bits confMap s o : (v <- FetchOptionValueString confMap s o ;; ParseUint10 bits v) <> Panic.
Proof. pose proof (FetchString_nopanic confMap s o). destruct (FetchOptionValueString confMap s o); try done. apply ParseUint10_nopanic. Qed.

Lemma volumeListOf_nopanic confMap : volumeListOf confMap <> Panic.
Proof. apply FetchSlice_nopanic. Qed.

#[local] Hint Resolve FetchString_nopanic FetchSlice_nopanic volumeListOf_nopanic : go.

(** A value of the configuration, or of [globals], whatever it is. *)
Ltac conf_step := eapply progOk_bind; [first [apply rget_any | apply fetched_ok; first [apply FetchUint_nopanic | auto with go]]|]; intros.

Lemma fetchLength_ok confMap name f g :
  (forall n g, accountHeap (f n g) = accountHeap g /\ containerHeap (f n g) = containerHeap g /\ objectHeap (f n g) = objectHeap g
     /\ swiftAccountMap (f n g) = swiftAccountMap g /\ chaosFailureHTTPStatus (f n g) = chaosFailureHTTPStatus g
     /\ forall r v, methodOf v (ratesOf r (f n g)) = methodOf v (ratesOf r g)) ->
  configures (fetchLength confMap name f) g.
Proof.
  intros Hf. unfold fetchLength. conf_step. eapply progOk_bind; [by apply rput_other|]. intros. by destruct (_ >? _).
Qed.

Lemma fetchSwiftInfo_ok confMap g : configures (fetchSwiftInfo confMap) g.
Proof.
  unfold fetchSwiftInfo. eapply progOk_bind; [apply fetchLength_ok; by intros ? ? |]. intros _ g1 _ _.
  eapply progOk_bind; [apply fetchLength_ok; by intros ? ? |]. intros _ g2 _ _. apply fetchLength_ok. by intros ? ?.
Qed.

Lemma rfor_ok {A} (l : list A) body g : (forall x g, configures (body x) g) -> configures (rfor l body) g.
Proof.
  intros Hb. revert g. induction l as [|x l IH]; intros g; cbn [rfor]; [done|].
  eapply progOk_bind; [apply Hb|]. intros _ g1 _ _. apply IH.
Qed.

Lemma serveNoAuthSwift_ok confMap namespaced g : badStatus \/ goodConf confMap -> configures (serveNoAuthSwift confMap namespaced) g.
Proof.
  intros Hc. unfold serveNoAuthSwift. conf_step. eapply progOk_bind; [by apply rput_other|]. intros. conf_step.
  eapply progOk_bind; [by apply rput_other|]. intros. conf_step. eapply progOk_bind.
  { apply rfor_ok. intros volumeName gx. unfold ifServed. conf_step. conf_step.
    repeat case_match; try done. conf_step. eapply progOk_bind; [apply createSwiftAccount_ok|]. by intros [] ? _ _. }
  intros. eapply progOk_bind; [by apply fetchChaosSettings_ok|]. intros. apply fetchSwiftInfo_ok.
Qed.

Lemma accountsOf_ok confMap namespaced volumeList g : progOk False (fun _ _ => True) (accountsOf confMap namespaced volumeList) g.
Proof.
  revert g. induction volumeList as [|volumeName rest IH]; intros g; cbn [accountsOf]; [done|].
  conf_step. conf_step. repeat case_match; try done. conf_step. eapply progOk_bind; [apply IH|]. done.
Qed.

Lemma updateConf_ok `{!MapRange} confMap namespaced g : badStatus \/ goodConf confMap -> configures (updateConf confMap namespaced) g.
Proof.
  intros Hc. unfold updateConf. conf_step. conf_step. destruct (negb _); [done|]. conf_step. conf_step. destruct (negb _); [done|].
  conf_step. conf_step. eapply progOk_bind; [apply accountsOf_ok|]. intros. eapply progOk_bind.
  { apply rfor_ok. intros name gx. case_bool_decide; [done|]. eapply progOk_bind; [apply deleteSwiftAccount_ok|]. done. }
  intros. eapply progOk_bind.
  { apply rfor_ok. intros name gx. eapply progOk_bind; [apply createOrLocateSwiftAccount_ok|]. done. }
  intros. eapply progOk_bind; [by apply fetchChaosSettings_ok|]. intros. apply fetchSwiftInfo_ok.
Qed.
End Typed.

(** ** Every interleaving *)

(** What the clients may put. *)
Definition putBy (arrives : swiftRequest -> Prop) (a c o : string) (data : bytes) : Prop :=
  exists request, arrives request /\ request_Method request = "PUT"%string
    /\ parsePath (request_Path request) = (false, a, c, o) /\ request_Body request = data.

(** The status of the failures, in every file that there may be. *)
Definition goodFiles (confFile : string) (confStrings : list string) (files : ConfFiles) : Prop :=
  forall confMap namespaced, @ramConf files confFile confStrings = Ret (confMap, namespaced) -> goodConf confMap.

Section World.
Context `{!MapRange} (confFile : string) (confStrings : list string) (arrives : swiftRequest -> Prop) (configured : ConfFiles -> Prop)
  (bad : Prop) (Hgood : forall files, configured files -> bad \/ goodFiles confFile confStrings files).

Abbreviation typed := (ramTyped bad (putBy arrives)).
Abbreviation okFor request p g := (progOk bad (putBy arrives) (mayPanicOn bad request) (fun response _ => answersPut (putBy arrives) request response) p g).
Abbreviation okConf p g := (progOk bad (putBy arrives) False (fun (_ : unit) _ => True) p g).

Record worldOk (w : ramWorld) : Prop := {
  wo_typed : typed (rw_globals w);
  wo_clients : forall i request p, rw_clients w !! i = Some (request, p) -> okFor request p (rw_globals w);
  wo_server : okConf (rw_server w) (rw_globals w);
  wo_control : forall p, rw_control w = Updating p -> okConf p (rw_globals w)
}.

Lemma blank_typed : typed blankRam.
Proof. split; [by intros ? ? ?|by intros ? ? ?..|right; intros [] []; done]. Qed.

Lemma start_ok files : configured files -> worldOk (Daemon confFile confStrings files).
Proof.
  intros Hc. unfold Daemon. pose proof (Hgood _ Hc) as Hg. unfold goodFiles in Hg.
  destruct (@ramConf files confFile confStrings) as [[confMap namespaced]| |]; split; try done; try apply blank_typed.
  cbn. apply serveNoAuthSwift_ok. destruct Hg as [?|Hg]; [by left|right; eauto].
Qed.

(** A step of one goroutine, and what it leaves of the others. *)
Lemma stepRam_ok {A} mayPanic (Q : A -> globalsStruct -> Prop) p g g' p' : typed g -> progOk bad (putBy arrives) mayPanic Q p g ->
  stepRam p g = Some (g', p') -> typed g' /\ evolves bad g g' /\ progOk bad (putBy arrives) mayPanic Q p' g'.
Proof.
  intros Ht Hp. destruct p as [| | |B m k]; try done. cbn in *. destruct (m g) as [[g2 b]|] eqn:Hm; [|done]. intros [= <- <-].
  apply (Hp g); [reflexivity|done..].
Qed.

Lemma ok_evolves {A} mayPanic (Q : A -> Prop) (p : ramProg A) g g' : evolves bad g g' ->
  progOk bad (putBy arrives) mayPanic (fun a _ => Q a) p g -> progOk bad (putBy arrives) mayPanic (fun a _ => Q a) p g'.
Proof. intros Hev. apply progOk_evolves; [by intros ? ? ? ? ?|done]. Qed.

Lemma step_ok w w' : worldOk w -> rstep confFile confStrings arrives configured w w' -> worldOk w'.
Proof.
  intros [Ht Hcl Hsrv Hctl] Hstep. destruct Hstep as [w request Hal Hl Harr|w i request p g p' Hal Hi Hs|w g p' Hal Hs|w files Hal Hw Hconf
    |w p g p' Hal Hc Hs|w Hal Hc|w Hal Hc|w Hal Hf].
  - split; cbn; try done. intros i r p [Hi|[-> [= -> ->]]]%lookup_snoc; [eauto|]. apply ServeHTTP_ok. intros HM a c o Hp. by exists request.
  - destruct (stepRam_ok _ _ _ _ _ _ Ht (Hcl _ _ _ Hi) Hs) as (Ht' & Hev & Hp'). split; cbn; [done| | |].
    + intros j r q [(<- & [= <- <-] & _)|[Hne Hj]]%list_lookup_insert_Some; [done|]. eapply ok_evolves; eauto.
    + by eapply ok_evolves.
    + intros q Hq. eapply ok_evolves; eauto.
  - destruct (stepRam_ok _ _ _ _ _ _ Ht Hsrv Hs) as (Ht' & Hev & Hp'). split; cbn; [done| |done|].
    + intros j r q Hj. eapply ok_evolves; eauto.
    + intros q Hq. eapply ok_evolves; eauto.
  - unfold sighup. pose proof (Hgood _ Hconf) as Hg. unfold goodFiles in Hg.
    destruct (@ramConf files confFile confStrings) as [[confMap namespaced]| |]; split; cbn; try done.
    intros p [= <-]. apply updateConf_ok. destruct Hg as [?|Hg]; [by left|right; eauto].
  - destruct (stepRam_ok _ _ _ _ _ _ Ht (Hctl _ Hc) Hs) as (Ht' & Hev & Hp'). split; cbn; [done| | |by intros q [= <-]].
    + intros j r q Hj. eapply ok_evolves; eauto.
    + by eapply ok_evolves.
  - by split.
  - by split.
  - by split.
Qed.

Lemma reach_ok w : rreach confFile confStrings arrives configured w -> worldOk w.
Proof. induction 1 as [files Hc|w w' _ IH Hs]; [by apply start_ok|by eapply step_ok]. Qed.
End World.

Section Theorems.
Context `{!MapRange} (confFile : string) (confStrings : list string) (arrives : swiftRequest -> Prop) (configured : ConfFiles -> Prop).

(** C13. However requests and changes of configuration interleave: the map of
    accounts and the trees lead from every name to a struct of that name, which
    points back to the struct it was found in; the trees are sorted; the contents
    of an object are empty or were sent in a PUT to its path. *)
Theorem emulator_typed w : rreach confFile confStrings arrives configured w -> ramTyped True (putBy arrives) (rw_globals w).
Proof. intros Hw. refine (wo_typed _ _ _ (reach_ok _ _ _ _ True _ _ Hw)). auto. Qed.

(** C14. However requests interleave, a GET of an object is answered with a part
    of what one PUT sent to that path (or of nothing, for an object that was just
    created), and with all of it when the status is 200: contents are never
    mixed. *)
Theorem reads_are_not_torn w i request response : rreach confFile confStrings arrives configured w ->
  rw_clients w !! i = Some (request, RRet response) -> answersPut (putBy arrives) request response.
Proof. intros Hw Hi. refine (wo_clients _ _ _ (reach_ok _ _ _ _ True _ _ Hw) _ _ _ Hi). auto. Qed.

End Theorems.
