(* ===== verification/RamSwiftSpec.v ===== *)
(** What [ramswift] promises to one client at a time: a store that maps paths to
    headers and contents.

    [specServe] is the specification on finite maps; [models] relates them to the
    structs, and [emulator_refines_store] is the refinement.  Failures on purpose
    (chaos) are dealt with separately. *)

From stdpp Require Import sorting.
From S2P Require Import Prelude SortedMap Blunder Utils GoStrings Conf ConfSections RamSwift RamSwiftFacts.
Open Scope list_scope.

(** ** Headers *)

(** The headers that a request replaces, and what it replaces them by. *)
Definition mentioned (request : Header) : gset string :=
  dom (filter (fun entry => (entry.1 ∉ headerNameIgnoreSet) /\ entry.2 <> []) request).

Definition notEmptyString (value : string) : bool := 0 <? Z.of_nat (String.length value).

Definition replaced (request : Header) : Header :=
  omap (fun values => match List.filter notEmptyString values with [] => None | kept => Some kept end)
    (filter (fun entry => entry.1 ∉ headerNameIgnoreSet) request).

Definition specHeaders (request headers : Header) : Header :=
  replaced request ∪ filter (fun entry => entry.1 ∉ mentioned request) headers.

(** No header without values. *)
Definition clean (headers : Header) : Prop := forall name, headers !! name <> Some [].

(** ** The store *)

Record store := mkStore {
  st_accounts : gmap string Header;
  st_containers : gmap (string * string) Header;
  st_objects : gmap (string * string * string) bytes
}.

#[export] Instance eta_store : Eta store := fun m => mkStore (st_accounts m) (st_containers m) (st_objects m).

Definition nameLe (x y : string) : Prop := kltb y x = false.

#[export] Instance nameLe_dec : RelDecision nameLe.
Proof. intros x y. unfold nameLe. apply _. Defined.

Definition sortNames (names : list string) : list string := merge_sort nameLe names.

Definition containersOf (m : store) (a : string) : list string :=
  sortNames (omap (fun k => if decide (k.1 = a) then Some k.2 else None) (map_to_list (st_containers m)).*1).

Definition objectsOf (m : store) (a c : string) : list string :=
  sortNames (omap (fun k => if decide (k.1 = (a, c)) then Some k.2 else None) (map_to_list (st_objects m)).*1).

Definition lines (names : list string) : bytes := concat (map (fun name => StringToByteSlice name ++ [10]) names).

Definition specListing (headers : Header) (names : list string) : swiftResponse :=
  match names with
  | [] => mkSwiftResponse StatusNoContent headers []
  | _ => mkSwiftResponse StatusOK headers (lines names)
  end.

(** The kinds of paths. *)
Inductive target := NoTarget | TAccount (a : string) | TContainer (a c : string) | TObject (a c o : string).

Definition targetOf (path : string) : target :=
  let '(infoOnly, a, c, o) := parsePath path in
  if infoOnly || String.eqb a EmptyString then NoTarget
  else if String.eqb c EmptyString then TAccount a
  else if String.eqb o EmptyString then TContainer a c
  else TObject a c o.

Definition specDelete (t : target) (m : store) : store * swiftResponse :=
  match t with
  | NoTarget => (m, plainStatus StatusForbidden)
  | TAccount a =>
      if decide (is_Some (st_accounts m !! a)) then
        match containersOf m a with
        | [] => (m <| st_accounts := delete a (st_accounts m) |>, plainStatus StatusNoContent)
        | _ => (m, plainStatus StatusConflict)
        end
      else (m, plainStatus StatusNotFound)
  | TContainer a c =>
      if decide (is_Some (st_containers m !! (a, c))) then
        match objectsOf m a c with
        | [] => (m <| st_containers := delete (a, c) (st_containers m) |>, plainStatus StatusNoContent)
        | _ => (m, plainStatus StatusConflict)
        end
      else (m, plainStatus StatusNotFound)
  | TObject a c o =>
      if decide (is_Some (st_objects m !! (a, c, o)))
      then (m <| st_objects := delete (a, c, o) (st_objects m) |>, plainStatus StatusNoContent)
      else (m, plainStatus StatusNotFound)
  end.

(** [None] is a panic. *)
Definition specGet (t : target) (header : Header) (m : store) : option swiftResponse :=
  match t with
  | NoTarget => Some (plainStatus StatusForbidden)
  | TAccount a =>
      match st_accounts m !! a with
      | Some headers => Some (specListing headers (containersOf m a))
      | None => Some (plainStatus StatusNotFound)
      end
  | TContainer a c =>
      match st_containers m !! (a, c) with
      | Some headers => Some (specListing headers (objectsOf m a c))
      | None => Some (plainStatus StatusNotFound)
      end
  | TObject a c o =>
      match st_objects m !! (a, c, o) with
      | Some data => readContents header data
      | None => Some (plainStatus StatusNotFound)
      end
  end.

Definition specHead (t : target) (m : store) : swiftResponse :=
  match t with
  | NoTarget => plainStatus StatusForbidden
  | TAccount a =>
      match st_accounts m !! a with
      | Some headers => mkSwiftResponse StatusNoContent headers []
      | None => plainStatus StatusNotFound
      end
  | TContainer a c =>
      match st_containers m !! (a, c) with
      | Some headers => mkSwiftResponse StatusNoContent headers []
      | None => plainStatus StatusNotFound
      end
  | TObject a c o =>
      match st_objects m !! (a, c, o) with
      | Some data => mkSwiftResponse StatusOK {[ "Content-Length"%string := [formatInt (zlen data)] ]} []
      | None => plainStatus StatusNotFound
      end
  end.

Definition specPost (t : target) (header : Header) (m : store) : store * swiftResponse :=
  match t with
  | NoTarget => (m, plainStatus StatusForbidden)
  | TAccount a =>
      match st_accounts m !! a with
      | Some headers => (m <| st_accounts := <[a := specHeaders header headers]> (st_accounts m) |>, plainStatus StatusNoContent)
      | None => (m, plainStatus StatusNotFound)
      end
  | TContainer a c =>
      match st_containers m !! (a, c) with
      | Some headers => (m <| st_containers := <[(a, c) := specHeaders header headers]> (st_containers m) |>, plainStatus StatusNoContent)
      | None => (m, plainStatus StatusNotFound)
      end
  | TObject a c o =>
      (m, plainStatus (if decide (is_Some (st_containers m !! (a, c))) then StatusForbidden else StatusNotFound))
  end.

Definition specPut (t : target) (header : Header) (data : bytes) (m : store) : store * swiftResponse :=
  match t with
  | NoTarget => (m, plainStatus StatusForbidden)
  | TAccount a =>
      (m <| st_accounts := <[a := specHeaders header (default ∅ (st_accounts m !! a))]> (st_accounts m) |>,
       created (bool_decide (st_accounts m !! a = None)))
  | TContainer a c =>
      match st_accounts m !! a with
      | Some _ =>
          (m <| st_containers := <[(a, c) := specHeaders header (default ∅ (st_containers m !! (a, c)))]> (st_containers m) |>,
           created (bool_decide (st_containers m !! (a, c) = None)))
      | None => (m, plainStatus StatusForbidden)
      end
  | TObject a c o =>
      match st_containers m !! (a, c) with
      | Some _ => (m <| st_objects := <[(a, c, o) := data]> (st_objects m) |>, created (bool_decide (st_objects m !! (a, c, o) = None)))
      | None => (m, plainStatus StatusForbidden)
      end
  end.

(** What a request counts as, if it gets that far. *)
Definition deleteKind (t : target) (m : store) : option (resource * verb) :=
  match t with
  | NoTarget => None
  | TAccount _ => Some (Account, VDelete)
  | TContainer a _ => match st_accounts m !! a with Some _ => Some (Container, VDelete) | None => None end
  | TObject a _ _ => match st_accounts m !! a with Some _ => Some (Object, VDelete) | None => None end
  end.

Definition readKind (v : verb) (t : target) (m : store) : option (resource * verb) :=
  match t with
  | NoTarget => None
  | TAccount a => match st_accounts m !! a with Some _ => Some (Account, v) | None => None end
  | TContainer a c => match st_containers m !! (a, c) with Some _ => Some (Container, v) | None => None end
  | TObject a c _ => match st_containers m !! (a, c) with Some _ => Some (Object, v) | None => None end
  end.

Definition putKind (t : target) (m : store) : option (resource * verb) :=
  match t with
  | NoTarget => None
  | TAccount _ => Some (Account, VPut)
  | TContainer a _ => match st_accounts m !! a with Some _ => Some (Container, VPut) | None => None end
  | TObject a _ _ => match st_accounts m !! a with Some _ => Some (Object, VPut) | None => None end
  end.

Definition kindOf (request : swiftRequest) (m : store) : option (resource * verb) :=
  let t := targetOf (request_Path request) in
  if String.eqb (request_Method request) "DELETE" then deleteKind t m
  else if String.eqb (request_Method request) "GET" then readKind VGet t m
  else if String.eqb (request_Method request) "HEAD" then readKind VHead t m
  else if String.eqb (request_Method request) "POST" then readKind VPost t m
  else if String.eqb (request_Method request) "PUT" then putKind t m
  else None.

(** [info] is the text of /info. *)
Definition specServe (info : string) (request : swiftRequest) (m : store) : store * option swiftResponse :=
  let t := targetOf (request_Path request) in
  let answer (p : store * swiftResponse) := (p.1, Some p.2) in
  if String.eqb (request_Method request) "DELETE" then answer (specDelete t m)
  else if String.eqb (request_Method request) "GET" then
    (m, if String.eqb (request_Path request) "/info" then Some (mkSwiftResponse StatusOK ∅ (StringToByteSlice info))
        else specGet t (request_Header request) m)
  else if String.eqb (request_Method request) "HEAD" then (m, Some (specHead t m))
  else if String.eqb (request_Method request) "POST" then answer (specPost t (request_Header request) m)
  else if String.eqb (request_Method request) "PUT" then answer (specPut t (request_Header request) (request_Body request) m)
  else (m, Some (plainStatus StatusMethodNotAllowed)).

(** ** The store in the structs *)

Definition accountAt (g : globalsStruct) (a : string) : option nat := swiftAccountMap g !! a.
Definition containerAt (g : globalsStruct) (a c : string) : option nat :=
  p ← accountAt g a; GetByKey (swiftContainerTree (accountOf g p)) c.
Definition objectAt (g : globalsStruct) (a c o : string) : option nat :=
  q ← containerAt g a c; GetByKey (swiftObjectTree (containerOf g q)) o.

Record models (g : globalsStruct) (m : store) : Prop := {
  mo_accounts : forall a, st_accounts m !! a = (fun p => account_headers (accountOf g p)) <$> accountAt g a;
  mo_containers : forall a c, st_containers m !! (a, c) = (fun q => container_headers (containerOf g q)) <$> containerAt g a c;
  mo_objects : forall a c o, st_objects m !! (a, c, o) = (fun p => contents (objectOf g p)) <$> objectAt g a c o;
  mo_accounts_clean : forall a headers, st_accounts m !! a = Some headers -> clean headers;
  mo_containers_clean : forall k headers, st_containers m !! k = Some headers -> clean headers
}.

(** Every mutex is open. *)
Definition unlocked (g : globalsStruct) : Prop := forall o b, objectHeap g !! o = Some b -> object_locked b = false.

(** ** Sorted maps as finite maps *)

Lemma GetByKey_Put (tree tree' : list (string * nat)) name q : sorted tree -> SortedMap.Put tree name q = Some tree' ->
  forall n, GetByKey tree' n = if decide (n = name) then Some q else GetByKey tree n.
Proof.
  intros Hs HP n. destruct (Put_elem _ _ _ _ Hs HP) as (Hs' & _ & _ & Hel). unfold GetByKey.
  destruct (decide (n = name)) as [->|Hne]; [apply entry_at_elem; [done|]; apply Hel; by left|].
  apply option_eq. intros v. rewrite !entry_at_elem by done. rewrite Hel. naive_solver.
Qed.

Lemma GetByKey_Delete (tree tree' : list (string * nat)) name : sorted tree -> DeleteByKey tree name = Some tree' ->
  forall n, GetByKey tree' n = if decide (n = name) then None else GetByKey tree n.
Proof.
  intros Hs HD n. destruct (DeleteByKey_elem _ _ _ Hs HD) as (Hs' & Hel). unfold GetByKey.
  destruct (decide (n = name)) as [->|Hne].
  - destruct (entry_at tree' name) as [v|] eqn:E; [|done]. apply entry_at_elem in E; [|done]. apply Hel in E as [[] _]; done.
  - apply option_eq. intros v. rewrite !entry_at_elem by done. rewrite Hel. naive_solver.
Qed.

Lemma sorted_names (tree : list (string * nat)) : sorted tree -> StronglySorted (fun x y => kltb x y = true) tree.*1.
Proof.
  induction tree as [|[k v] tree IH]; cbn [sorted]; intros Hs; cbn; [constructor|]. destruct Hs as [Hlt Hs].
  constructor; [by apply IH|]. apply Forall_fmap. exact Hlt.
Qed.

(** The sorted names of a set that the keys of a tree make up are these keys. *)
Lemma sortNames_tree (tree : list (string * nat)) names : sorted tree -> NoDup names ->
  (forall n, n ∈ names <-> is_Some (GetByKey tree n)) -> sortNames names = tree.*1.
Proof.
  intros Hs Hnd Hel. unfold sortNames.
  assert (Htot : Total nameLe).
  { intros x y. unfold nameLe. destruct (kltb y x) eqn:E; [|by left]. right. destruct (kltb x y) eqn:E'; [|done].
    pose proof (kltb_trans _ _ _ E E') as C. by rewrite kltb_irrefl in C. }
  assert (Hanti : AntiSymm (=) nameLe) by (intros x y H1 H2; by apply kltb_total).
  assert (Htrans : Transitive nameLe).
  { intros x y z H1 H2. unfold nameLe in *. destruct (kltb z x) eqn:E; [|done]. destruct (kltb z y) eqn:E1; [done|].
    destruct (kltb y z) eqn:E2; [by rewrite (kltb_trans _ _ _ E2 E) in H1|]. rewrite (kltb_total _ _ E1 E2) in E. by rewrite E in H1. }
  apply (StronglySorted_unique nameLe).
  - by apply StronglySorted_merge_sort.
  - clear -Hs. pose proof (sorted_names _ Hs) as HS. induction HS as [|x l HS IH Hall]; [constructor|]. constructor; [done|].
    eapply Forall_impl; [exact Hall|]. cbn beta. intros y Hxy. unfold nameLe. destruct (kltb y x) eqn:E; [|done].
    pose proof (kltb_trans _ _ _ Hxy E) as C. by rewrite kltb_irrefl in C.
  - rewrite merge_sort_Permutation. apply NoDup_Permutation; [done| |].
    + pose proof (sorted_names _ Hs) as HS. clear -HS. induction HS as [|x l HS IH Hall]; constructor; [|done].
      rewrite Forall_forall in Hall. intros Hin. specialize (Hall _ Hin). by rewrite kltb_irrefl in Hall.
    + intros n. rewrite Hel. split.
      * intros [q Hq]. apply entry_at_elem in Hq; [|done]. apply list_elem_of_fmap. by exists (n, q).
      * intros ([n' q] & -> & Hin)%list_elem_of_fmap. exists q. by apply entry_at_elem.
Qed.

(** ** Loops over headers *)

(** What a request makes of one header. *)
Definition headerAfter (values : option (list string)) (name : string) (old : option (list string)) : option (list string) :=
  match values with
  | Some values =>
      if decide (name ∈ headerNameIgnoreSet \/ values = []) then old
      else match List.filter notEmptyString values with [] => None | kept => Some kept end
  | None => old
  end.

Lemma updateHeader_lookup n values headers name :
  updateHeader (n, values) headers !! name = if decide (name = n) then headerAfter (Some values) n (headers !! n) else headers !! name.
Proof.
  unfold updateHeader, headerAfter. fold notEmptyString. case_bool_decide as Hig.
  { rewrite (decide_True (P := _ \/ _)) by by left. by destruct (decide (name = n)) as [->|]. }
  destruct values as [|v values].
  { cbn. rewrite (decide_True (P := _ \/ _)) by by right. by destruct (decide (name = n)) as [->|]. }
  rewrite (decide_False (P := _ \/ _)) by (intros [?|?]; done). rewrite (proj2 (Z.ltb_lt 0 _)) by (rewrite zlen_cons; pose proof (zlen_nonneg values); lia).
  rewrite lookup_insert_eq. cbn [default]. fold notEmptyString. destruct (List.filter notEmptyString (v :: values)) as [|w l] eqn:Ef; cbn [default id].
  - change (0 =? zlen (@nil string)) with true. cbv iota.
    destruct (decide (name = n)) as [->|Hne]; [by rewrite lookup_delete_eq|]. by rewrite lookup_delete_ne, lookup_insert_ne.
  - rewrite (proj2 (Z.eqb_neq _ _)) by (rewrite zlen_cons; pose proof (zlen_nonneg l); lia).
    destruct (decide (name = n)) as [->|Hne]; [by rewrite lookup_insert_eq|]. by rewrite lookup_insert_ne.
Qed.

Lemma foldl_updateHeader l : NoDup l.*1 -> forall headers name,
  foldl (fun h entry => updateHeader entry h) headers l !! name = headerAfter ((list_to_map l : Header) !! name) name (headers !! name).
Proof.
  induction l as [|[n values] l IH]; intros Hnd headers name; [done|]. cbn [foldl].
  apply NoDup_cons in Hnd as [Hni Hnd]. rewrite IH by done. rewrite updateHeader_lookup, list_to_map_cons.
  destruct (decide (name = n)) as [->|Hne].
  - rewrite lookup_insert_eq. by rewrite not_elem_of_list_to_map_1.
  - by rewrite lookup_insert_ne.
Qed.

Lemma updateHeaders_lookup request headers name :
  updateHeaders request headers !! name = headerAfter (request !! name) name (headers !! name).
Proof. unfold updateHeaders. rewrite foldl_updateHeader by apply NoDup_fst_map_to_list. by rewrite list_to_map_to_list. Qed.

Lemma mentioned_elem request name :
  name ∈ mentioned request <-> exists values, request !! name = Some values /\ (name ∉ headerNameIgnoreSet) /\ values <> [].
Proof.
  unfold mentioned. rewrite elem_of_dom. split.
  - intros [values (H & ? & ?)%map_lookup_filter_Some]. eauto.
  - intros (values & ? & ? & ?). exists values. by apply map_lookup_filter_Some.
Qed.

(** The loop over the headers of a request is an update of finite maps. *)
Lemma updateHeaders_spec request headers : updateHeaders request headers = specHeaders request headers.
Proof.
  apply map_eq. intros name. rewrite updateHeaders_lookup. unfold specHeaders, replaced. rewrite lookup_union, lookup_omap.
  assert (Hkeep : (filter (fun entry : string * list string => entry.1 ∉ mentioned request) headers : Header) !! name
                  = if decide (name ∈ mentioned request) then None else headers !! name).
  { destruct (decide _) as [Hin|Hni].
    - apply map_lookup_filter_None. right. intros x _. cbn. auto.
    - destruct (headers !! name) as [x|] eqn:Hx; [by apply map_lookup_filter_Some|]. apply map_lookup_filter_None. by left. }
  rewrite Hkeep. clear Hkeep. unfold headerAfter. destruct (request !! name) as [values|] eqn:Hr.
  - destruct (decide (name ∈ headerNameIgnoreSet)) as [Hig|Hig].
    { rewrite (decide_True (P := _ \/ _)) by by left. rewrite decide_False by (rewrite mentioned_elem; naive_solver).
      rewrite (map_lookup_filter_None_2 _ _ _) by (right; intros; cbn; auto). by destruct (headers !! name). }
    rewrite (map_lookup_filter_Some_2 _ _ _ _ Hr Hig). cbn. destruct (decide (values = [])) as [->|Hne].
    { rewrite (decide_True (P := _ \/ _)) by by right. rewrite decide_False by (rewrite mentioned_elem; naive_solver). by destruct (headers !! name). }
    rewrite decide_False by tauto. rewrite decide_True by (apply mentioned_elem; eauto). by destruct (List.filter notEmptyString values).
  - rewrite decide_False by (rewrite mentioned_elem; naive_solver). rewrite (map_lookup_filter_None_2 _ _ _) by by left. by destruct (headers !! name).
Qed.

Lemma updateHeaders_clean request headers : clean headers -> clean (updateHeaders request headers).
Proof.
  intros Hc name. rewrite updateHeaders_lookup. unfold headerAfter. destruct (request !! name); [|apply Hc].
  destruct (decide _); [apply Hc|]. by destruct (List.filter notEmptyString _).
Qed.

Lemma headerAdd_lookup n value h name :
  headerAdd n value h !! name = if decide (name = n) then Some (default [] (h !! n) ++ [value]) else h !! name.
Proof. unfold headerAdd. destruct (decide (name = n)) as [->|]; [by rewrite lookup_insert_eq|by rewrite lookup_insert_ne]. Qed.

Lemma foldl_headerAdd n values : forall h name,
  foldl (fun h value => headerAdd n value h) h values !! name
  = if decide (name = n) then match values with [] => h !! n | _ => Some (default [] (h !! n) ++ values) end else h !! name.
Proof.
  induction values as [|v values IH]; intros h name; cbn [foldl]; [by destruct (decide (name = n)) as [->|]|].
  rewrite IH. destruct (decide (name = n)) as [->|Hne].
  - rewrite headerAdd_lookup, decide_True by done. destruct values; cbn [default id]; [done|]. by rewrite <- app_assoc.
  - by rewrite headerAdd_lookup, decide_False.
Qed.

(** Headers that are kept are sent as they are. *)
Lemma addHeaders_clean headers : clean headers -> addHeaders headers ∅ = headers.
Proof.
  intros Hc. unfold addHeaders. rewrite <- (list_to_map_to_list headers) at 2.
  assert (Hgen : forall l h, NoDup l.*1 -> (forall n values, (n, values) ∈ l -> values <> [] /\ h !! n = None) ->
    foldl (fun h entry => foldl (fun h value => headerAdd entry.1 value h) h entry.2) h l = (list_to_map l : Header) ∪ h).
  { induction l as [|[n values] l IH]; intros h Hnd Hl; cbn [foldl]; [by rewrite list_to_map_nil, (left_id_L ∅ (∪))|].
    rewrite list_to_map_cons. apply NoDup_cons in Hnd as [Hni Hnd]. destruct (Hl n values) as [Hne Hn]; [by left|]. cbn [fst snd].
    rewrite IH; [|done|].
    - apply map_eq. intros name. rewrite !lookup_union, foldl_headerAdd. destruct (decide (name = n)) as [->|Hd].
      + rewrite lookup_insert_eq, (not_elem_of_list_to_map_1 _ _ Hni), Hn. by destruct values.
      + by rewrite lookup_insert_ne.
    - intros n' values' Hin. destruct (Hl n' values') as [? Hn']; [by right|]. split; [done|]. rewrite foldl_headerAdd, decide_False; [done|].
      intros ->. apply Hni. apply list_elem_of_fmap. by exists (n, values'). }
  rewrite Hgen; [by rewrite (right_id_L ∅ (∪))|apply NoDup_fst_map_to_list|]. intros n values Hin%elem_of_map_to_list. split; [|done].
  intros ->. by apply (Hc n).
Qed.

Section Refinement.
Context (put : string -> string -> string -> bytes -> Prop).

Abbreviation typed := (ramTyped True put).

(** The states between two requests of a client that is alone, with the store
    that they stand for. *)
Record calm (g : globalsStruct) (m : store) : Prop := {
  ca_typed : typed g;
  ca_unlocked : unlocked g;
  ca_models : models g m
}.

Lemma accountAt_is g a p : typed g -> accountAt g a = Some p -> isAccount g a p.
Proof. intros Ht. apply (ty_map _ _ _ Ht). Qed.

Lemma containerAt_inv g a c q : containerAt g a c = Some q ->
  exists p, accountAt g a = Some p /\ GetByKey (swiftContainerTree (accountOf g p)) c = Some q.
Proof. intros (p & ? & ?)%bind_Some. eauto. Qed.

Lemma objectAt_inv g a c o p : objectAt g a c o = Some p ->
  exists q, containerAt g a c = Some q /\ GetByKey (swiftObjectTree (containerOf g q)) o = Some p.
Proof. intros (q & ? & ?)%bind_Some. eauto. Qed.

Lemma containerAt_is g a c q : typed g -> containerAt g a c = Some q -> isContainer g a c q.
Proof.
  intros Ht (p & Hp & Hq)%containerAt_inv. eapply GetByKey_container; [exact Ht| |exact Hq]. by apply accountAt_is.
Qed.

Lemma objectAt_is g a c o p : typed g -> objectAt g a c o = Some p -> isObject g a c o p.
Proof.
  intros Ht (q & Hq & Hp)%objectAt_inv. eapply GetByKey_object; [exact Ht| |exact Hp]. by apply containerAt_is.
Qed.

(** Different names lead to different structs. *)
Lemma accountAt_inj g a a' p : typed g -> accountAt g a = Some p -> accountAt g a' = Some p -> a' = a.
Proof. intros Ht H1 H2. eapply isAccount_unique; eapply accountAt_is; eauto. Qed.

Lemma containerAt_inj g a a' c c' q : typed g -> containerAt g a c = Some q -> containerAt g a' c' = Some q -> a' = a /\ c' = c.
Proof. intros Ht H1 H2. destruct (isContainer_unique g a a' c c' q) as [<- <-]; [by apply containerAt_is..|done]. Qed.

Lemma objectAt_inj g a a' c c' o o' p : typed g -> objectAt g a c o = Some p -> objectAt g a' c' o' = Some p ->
  a' = a /\ c' = c /\ o' = o.
Proof.
  intros Ht H1 H2. destruct (objectAt_is _ _ _ _ _ Ht H1) as (b & Hb & <- & Hc).
  destruct (objectAt_is _ _ _ _ _ Ht H2) as (b' & Hb' & <- & Hc'). assert (b' = b) as -> by congruence.
  by destruct (isContainer_unique _ _ _ _ _ _ Hc Hc') as [<- <-].
Qed.

(** ** Assignments through a pointer *)

Lemma accountOf_mod g n p f p' : isAccount g n p ->
  accountOf (modAccount p f g) p' = if decide (p' = p) then f (accountOf g p) else accountOf g p'.
Proof.
  intros (a & Ha & _). unfold accountOf, modAccount. cbn. destruct (decide (p' = p)) as [->|Hne].
  - by rewrite list_lookup_alter_eq, Ha.
  - by rewrite list_lookup_alter_ne.
Qed.

Lemma containerOf_mod g a n q f q' : isContainer g a n q ->
  containerOf (modContainer q f g) q' = if decide (q' = q) then f (containerOf g q) else containerOf g q'.
Proof.
  intros (c & Hc & _). unfold containerOf, modContainer. cbn. destruct (decide (q' = q)) as [->|Hne].
  - by rewrite list_lookup_alter_eq, Hc.
  - by rewrite list_lookup_alter_ne.
Qed.

Lemma objectOf_mod g a c n o f o' : isObject g a c n o ->
  objectOf (modObject o f g) o' = if decide (o' = o) then f (objectOf g o) else objectOf g o'.
Proof.
  intros (b & Hb & _). unfold objectOf, modObject. cbn. destruct (decide (o' = o)) as [->|Hne].
  - by rewrite list_lookup_alter_eq, Hb.
  - by rewrite list_lookup_alter_ne.
Qed.

(** New structs are behind new pointers. *)
Lemma accountOf_snoc g name p' : p' <> length (accountHeap g) -> accountOf (addAccount name g).1 p' = accountOf g p'.
Proof.
  intros Hne. unfold accountOf, addAccount. cbn. destruct (decide (p' < length (accountHeap g))%nat).
  - by rewrite lookup_app_l.
  - by rewrite !lookup_ge_None_2 by (rewrite ?length_app; cbn; lia).
Qed.

Lemma calm_bump r v g m : calm g m -> calm (bumpCount r v g) m.
Proof.
  intros [Ht Hu Hm]. split.
  - eapply ramTyped_others; [..|exact Ht]; by destruct r.
  - by destruct r.
  - destruct Hm. by destruct r.
Qed.

(** The view of a state that differs in the headers of one account. *)
Lemma calm_account_headers g m a p f headers : calm g m -> accountAt g a = Some p ->
  (forall x, account_name (f x) = account_name x /\ swiftContainerTree (f x) = swiftContainerTree x) ->
  account_headers (f (accountOf g p)) = headers -> clean headers ->
  calm (modAccount p f g) (m <| st_accounts := <[a := headers]> (st_accounts m) |>).
Proof.
  intros [Ht Hu [MA MC MO CA CC]] Ha Hf Hh Hclean. pose proof (accountAt_is _ _ _ Ht Ha) as Hp.
  assert (Htree : forall p', swiftContainerTree (accountOf (modAccount p f g) p') = swiftContainerTree (accountOf g p')).
  { intros p'. rewrite (accountOf_mod _ _ _ _ _ Hp). destruct (decide (p' = p)) as [->|]; [apply Hf|done]. }
  assert (HC : forall a' c', containerAt (modAccount p f g) a' c' = containerAt g a' c').
  { intros a' c'. unfold containerAt. change (accountAt (modAccount p f g) a') with (accountAt g a').
    destruct (accountAt g a') as [p'|]; [|done]. cbn. by rewrite Htree. }
  split; [|done|].
  - eapply modAccount_ok; [done|]. intros x Hx. destruct (Hf x) as [-> ->]. split; [done|]. by apply (ty_containers _ _ _ Ht).
  - split; cbn.
    + intros a'. change (accountAt (modAccount p f g) a') with (accountAt g a'). destruct (decide (a' = a)) as [->|Hne].
      * rewrite lookup_insert_eq, Ha. cbn. rewrite (accountOf_mod _ _ _ _ _ Hp), decide_True by done. by rewrite Hh.
      * rewrite lookup_insert_ne, MA by done. destruct (accountAt g a') as [p'|] eqn:Ha'; [|done]. cbn.
        rewrite (accountOf_mod _ _ _ _ _ Hp), decide_False; [done|]. intros ->. apply Hne. by eapply accountAt_inj.
    + intros a' c'. rewrite HC. apply MC.
    + intros a' c' o'. unfold objectAt. rewrite HC. apply MO.
    + intros a' h [[<- <-]|[_ ?]]%lookup_insert_Some; eauto.
    + exact CC.
Qed.

Lemma calm_container_headers g m a c q f headers : calm g m -> containerAt g a c = Some q ->
  (forall x, container_name (f x) = container_name x /\ swiftAccount (f x) = swiftAccount x /\ swiftObjectTree (f x) = swiftObjectTree x) ->
  container_headers (f (containerOf g q)) = headers -> clean headers ->
  calm (modContainer q f g) (m <| st_containers := <[(a, c) := headers]> (st_containers m) |>).
Proof.
  intros [Ht Hu [MA MC MO CA CC]] Hc Hf Hh Hclean. pose proof (containerAt_is _ _ _ _ Ht Hc) as Hp.
  split; [|done|].
  - eapply modContainer_ok; [done|]. intros x Hx. destruct (Hf x) as (-> & -> & ->). split; [done|]. split; [done|]. by apply (ty_objects _ _ _ Ht).
  - split; cbn.
    + exact MA.
    + intros a' c'. change (containerAt (modContainer q f g) a' c') with (containerAt g a' c'). destruct (decide ((a', c') = (a, c))) as [E|Hne].
      * injection E as -> ->. rewrite lookup_insert_eq, Hc. cbn. rewrite (containerOf_mod _ _ _ _ _ _ Hp), decide_True by done. by rewrite Hh.
      * rewrite lookup_insert_ne, MC by done. destruct (containerAt g a' c') as [q'|] eqn:Hc'; [|done]. cbn.
        rewrite (containerOf_mod _ _ _ _ _ _ Hp), decide_False; [done|]. intros ->. apply Hne.
        by destruct (containerAt_inj _ _ _ _ _ _ Ht Hc Hc') as [-> ->].
    + intros a' c' o'. rewrite MO. unfold objectAt. change (containerAt (modContainer q f g) a' c') with (containerAt g a' c').
      destruct (containerAt g a' c') as [q'|]; [|done]. cbn. rewrite (containerOf_mod _ _ _ _ _ _ Hp).
      destruct (decide (q' = q)) as [->|]; [by rewrite (proj2 (proj2 (Hf _)))|done].
    + exact CA.
    + intros k h [[<- <-]|[_ ?]]%lookup_insert_Some; eauto.
Qed.

Lemma calm_contents g m a c o p data : calm g m -> objectAt g a c o = Some p -> put a c o data ->
  calm (modObject p (fun _ => (objectOf g p) <| contents := data |>) g) (m <| st_objects := <[(a, c, o) := data]> (st_objects m) |>).
Proof.
  intros [Ht Hu [MA MC MO CA CC]] Ho Hput. pose proof (objectAt_is _ _ _ _ _ Ht Ho) as Hp. destruct Hp as (b & Hb & En & Hc).
  assert (Eb : objectOf g p = b) by (unfold objectOf; by rewrite Hb). rewrite Eb.
  split; [| |].
  - eapply modObject_ok; [done|]. intros b' Hb'. assert (b' = b) as -> by congruence. split; [by eapply Hu|]. split; [done|]. split; [done|].
    right. exists a, c. split; [done|]. right. by rewrite En.
  - intros o' b' Hb'. cbn in Hb'. destruct (decide (o' = p)) as [->|Hne].
    + rewrite list_lookup_alter_eq, Hb in Hb'. injection Hb' as <-. cbn. by eapply Hu.
    + rewrite list_lookup_alter_ne in Hb' by done. by eapply Hu.
  - split; cbn; [exact MA|exact MC| |exact CA|exact CC]. intros a' c' o'.
    change (objectAt (modObject p (fun _ => b <| contents := data |>) g) a' c' o') with (objectAt g a' c' o').
    destruct (decide ((a', c', o') = (a, c, o))) as [E|Hne].
    + injection E as -> -> ->. rewrite lookup_insert_eq, Ho. cbn. erewrite objectOf_mod by by exists b. by rewrite decide_True.
    + rewrite lookup_insert_ne, MO by done. destruct (objectAt g a' c' o') as [p'|] eqn:Ho'; [|done]. cbn.
      erewrite objectOf_mod by by exists b. rewrite decide_False; [done|]. intros ->. apply Hne.
      by destruct (objectAt_inj _ _ _ _ _ _ _ _ Ht Ho Ho') as (-> & -> & ->).
Qed.

(** ** Creation *)

Lemma isAccount_valid g n p : isAccount g n p -> (p < length (accountHeap g))%nat.
Proof. intros (a & H & _). by eapply lookup_lt_Some. Qed.

Lemma isContainer_valid g a n q : isContainer g a n q -> (q < length (containerHeap g))%nat.
Proof. intros (c & H & _). by eapply lookup_lt_Some. Qed.

Lemma isObject_valid g a c n o : isObject g a c n o -> (o < length (objectHeap g))%nat.
Proof. intros (b & H & _). by eapply lookup_lt_Some. Qed.

Lemma clean_empty : clean ∅.
Proof. intros name. by rewrite lookup_empty. Qed.

Lemma calm_addAccount g m a : calm g m -> accountAt g a = None ->
  let '(g', p) := addAccount a g in
  calm g' (m <| st_accounts := <[a := ∅]> (st_accounts m) |>) /\ accountAt g' a = Some p /\ account_headers (accountOf g' p) = ∅.
Proof.
  intros [Ht Hu [MA MC MO CA CC]] Ha. pose proof (addAccount_ok True put g a Ht) as Hadd.
  pose proof (accountOf_snoc g a) as Hold. destruct (addAccount a g) as [g' p] eqn:E. destruct Hadd as (Ht' & _ & _ & Hmap).
  assert (Hp : p = length (accountHeap g)) by (unfold addAccount in E; congruence). cbn [fst] in Hold.
  assert (Hnew : accountOf g' p = newAccount a).
  { unfold addAccount in E. injection E as <- _. unfold accountOf. cbn. by rewrite Hp, lookup_app_r, Nat.sub_diag. }
  assert (Hat : forall a', accountAt g' a' = if decide (a' = a) then Some p else accountAt g a').
  { intros a'. unfold accountAt. rewrite Hmap. destruct (decide (a' = a)) as [->|]; [by rewrite lookup_insert_eq|by rewrite lookup_insert_ne]. }
  assert (Hsame : forall a' p', accountAt g a' = Some p' -> accountOf g' p' = accountOf g p').
  { intros a' p' Hp'. apply Hold. pose proof (isAccount_valid _ _ _ (accountAt_is _ _ _ Ht Hp')). lia. }
  assert (HC : forall a' c', containerAt g' a' c' = containerAt g a' c').
  { intros a' c'. unfold containerAt. rewrite Hat. destruct (decide (a' = a)) as [->|]; [rewrite Ha; cbn; by rewrite Hnew|].
    destruct (accountAt g a') as [p'|] eqn:Hp'; [|done]. cbn. by rewrite (Hsame _ _ Hp'). }
  assert (Eh : containerHeap g' = containerHeap g /\ objectHeap g' = objectHeap g) by (unfold addAccount in E; injection E as <- _; done).
  destruct Eh as [Eh1 Eh2]. split; [|split; [by rewrite Hat, decide_True|by rewrite Hnew]]. split; [done| |].
  - intros o b. rewrite Eh2. apply Hu.
  - split; cbn.
    + intros a'. rewrite Hat. destruct (decide (a' = a)) as [->|Hne]; [rewrite lookup_insert_eq; cbn; by rewrite Hnew|].
      rewrite lookup_insert_ne, MA by done. destruct (accountAt g a') as [p'|] eqn:Hp'; [|done]. cbn. by rewrite (Hsame _ _ Hp').
    + intros a' c'. rewrite HC, MC. unfold containerOf. by rewrite Eh1.
    + intros a' c' o'. rewrite MO. unfold objectAt, objectOf. rewrite HC, Eh2. unfold containerOf. by rewrite Eh1.
    + intros a' h [[<- <-]|[_ ?]]%lookup_insert_Some; [apply clean_empty|eauto].
    + exact CC.
Qed.

Lemma calm_addContainer g m a c p : calm g m -> accountAt g a = Some p -> containerAt g a c = None ->
  let '(g', q) := addContainer p c g in
  calm g' (m <| st_containers := <[(a, c) := ∅]> (st_containers m) |>) /\ containerAt g' a c = Some q /\ container_headers (containerOf g' q) = ∅.
Proof.
  intros [Ht Hu [MA MC MO CA CC]] Ha Hc. pose proof (accountAt_is _ _ _ Ht Ha) as Hp.
  assert (Hnone : GetByKey (swiftContainerTree (accountOf g p)) c = None) by (unfold containerAt in Hc; by rewrite Ha in Hc).
  pose proof (addContainer_ok True put g p a c Ht Hp Hnone) as Hadd. destruct (Put_absent _ _ (length (containerHeap g)) Hnone) as [tree HP].
  unfold addContainer in *. rewrite HP in *. set (q := length (containerHeap g)) in *. cbn [fst snd] in Hadd.
  set (g1 := g <| containerHeap := containerHeap g ++ [newContainer c p] |>) in *. set (g' := modAccount p (setContainerTree tree) g1) in *.
  destruct Hadd as (Ht' & _ & _ & _). assert (Hp1 : isAccount g1 a p) by exact Hp.
  assert (Hold : forall q', q' <> q -> containerOf g' q' = containerOf g q').
  { intros q' Hne. unfold containerOf. cbn. destruct (decide (q' < q)%nat); [by rewrite lookup_app_l|].
    by rewrite !lookup_ge_None_2 by (rewrite ?length_app; cbn; unfold q in *; lia). }
  assert (Hnew : containerOf g' q = newContainer c p) by (unfold containerOf; cbn; unfold q; by rewrite lookup_app_r, Nat.sub_diag).
  assert (HA : forall p', accountOf g' p' = if decide (p' = p) then setContainerTree tree (accountOf g p) else accountOf g p').
  { intros p'. unfold g'. by rewrite (accountOf_mod _ _ _ _ _ Hp1). }
  assert (HC : forall a' c', containerAt g' a' c' = if decide ((a', c') = (a, c)) then Some q else containerAt g a' c').
  { intros a' c'. unfold containerAt. change (accountAt g' a') with (accountAt g a').
    destruct (accountAt g a') as [p'|] eqn:Hp'; [|rewrite decide_False by congruence; done]. cbn. rewrite HA.
    destruct (decide (p' = p)) as [->|Hne].
    - rewrite (accountAt_inj _ _ _ _ Ht Ha Hp'). cbn. rewrite (GetByKey_Put _ _ _ _ (proj1 (accountOf_tree True put g p Ht)) HP).
      destruct (decide (c' = c)) as [->|]; [by rewrite decide_True|by rewrite decide_False by congruence].
    - rewrite decide_False by congruence. done. }
  assert (Hsame : forall a' c' q', containerAt g a' c' = Some q' -> containerOf g' q' = containerOf g q').
  { intros a' c' q' Hq'. apply Hold. pose proof (isContainer_valid _ _ _ _ (containerAt_is _ _ _ _ Ht Hq')). unfold q. lia. }
  split; [|split; [by rewrite HC, decide_True|by rewrite Hnew]]. split; [done|done|]. split; cbn.
  - intros a'. rewrite MA. change (accountAt g' a') with (accountAt g a'). destruct (accountAt g a') as [p'|]; [|done]. cbn. rewrite HA.
    by destruct (decide (p' = p)) as [->|].
  - intros a' c'. rewrite HC. destruct (decide _) as [E|Hne]; [rewrite E, lookup_insert_eq; cbn; by rewrite Hnew|].
    rewrite lookup_insert_ne, MC by done. destruct (containerAt g a' c') as [q'|] eqn:Hq'; [|done]. cbn. by rewrite (Hsame _ _ _ Hq').
  - intros a' c' o'. rewrite MO. unfold objectAt. rewrite HC. change (objectOf g') with (objectOf g). destruct (decide _) as [E|Hne].
    + injection E as -> ->. rewrite Hc. cbn. by rewrite Hnew.
    + destruct (containerAt g a' c') as [q'|] eqn:Hq'; [|done]. cbn. by rewrite (Hsame _ _ _ Hq').
  - exact CA.
  - intros k h [[<- <-]|[_ ?]]%lookup_insert_Some; [apply clean_empty|eauto].
Qed.

Lemma calm_addObject g m a c o q : calm g m -> containerAt g a c = Some q -> objectAt g a c o = None ->
  let '(g', p) := addObject q o g in
  calm g' (m <| st_objects := <[(a, c, o) := []]> (st_objects m) |>) /\ objectAt g' a c o = Some p.
Proof.
  intros [Ht Hu [MA MC MO CA CC]] Hc Ho. pose proof (containerAt_is _ _ _ _ Ht Hc) as Hp.
  assert (Hnone : GetByKey (swiftObjectTree (containerOf g q)) o = None) by (unfold objectAt in Ho; by rewrite Hc in Ho).
  pose proof (addObject_ok True put g q a c o Ht Hp Hnone) as Hadd. destruct (Put_absent _ _ (length (objectHeap g)) Hnone) as [tree HP].
  unfold addObject in *. rewrite HP in *. set (p := length (objectHeap g)) in *. cbn [fst snd] in Hadd.
  set (g1 := g <| objectHeap := objectHeap g ++ [newObject o q] |>) in *. set (g' := modContainer q (setObjectTree tree) g1) in *.
  destruct Hadd as (Ht' & _ & _ & _). assert (Hp1 : isContainer g1 a c q) by exact Hp.
  assert (Hold : forall p', p' <> p -> objectOf g' p' = objectOf g p').
  { intros p' Hne. unfold objectOf. cbn. destruct (decide (p' < p)%nat); [by rewrite lookup_app_l|].
    by rewrite !lookup_ge_None_2 by (rewrite ?length_app; cbn; unfold p in *; lia). }
  assert (Hnew : objectOf g' p = newObject o q) by (unfold objectOf; cbn; unfold p; by rewrite lookup_app_r, Nat.sub_diag).
  assert (HC : forall q', containerOf g' q' = if decide (q' = q) then setObjectTree tree (containerOf g q) else containerOf g q').
  { intros q'. unfold g'. by rewrite (containerOf_mod _ _ _ _ _ _ Hp1). }
  assert (HO : forall a' c' o', objectAt g' a' c' o' = if decide ((a', c', o') = (a, c, o)) then Some p else objectAt g a' c' o').
  { intros a' c' o'. unfold objectAt. change (containerAt g' a' c') with (containerAt g a' c').
    destruct (containerAt g a' c') as [q'|] eqn:Hq'; [|rewrite decide_False by congruence; done]. cbn. rewrite HC.
    destruct (decide (q' = q)) as [->|Hne].
    - destruct (containerAt_inj _ _ _ _ _ _ Ht Hc Hq') as [-> ->]. cbn. rewrite (GetByKey_Put _ _ _ _ (proj1 (containerOf_tree True put g q Ht)) HP).
      destruct (decide (o' = o)) as [->|]; [by rewrite decide_True|by rewrite decide_False by congruence].
    - rewrite decide_False by congruence. done. }
  split; [|by rewrite HO, decide_True]. split; [done| |].
  - intros p' b [Hb|[_ ->]]%lookup_snoc; [by eapply Hu|done].
  - split; cbn; [exact MA| | |exact CA|exact CC].
    + intros a' c'. rewrite MC. change (containerAt g' a' c') with (containerAt g a' c'). destruct (containerAt g a' c') as [q'|]; [|done].
      cbn. rewrite HC. by destruct (decide (q' = q)) as [->|].
    + intros a' c' o'. rewrite HO. destruct (decide _) as [E|Hne]; [rewrite E, lookup_insert_eq; cbn; by rewrite Hnew|].
      rewrite lookup_insert_ne, MO by done. destruct (objectAt g a' c' o') as [p'|] eqn:Hp'; [|done]. cbn. rewrite Hold; [done|].
      pose proof (isObject_valid _ _ _ _ _ (objectAt_is _ _ _ _ _ Ht Hp')). unfold p. lia.
Qed.

(** ** Listings and deletion *)

Lemma omap_NoDup {A B} (f : A -> option B) (l : list A) : (forall x y b, f x = Some b -> f y = Some b -> x = y) -> NoDup l -> NoDup (omap f l).
Proof.
  intros Hf. induction 1 as [|x l Hx Hl IH]; cbn; [constructor|]. destruct (f x) as [b|] eqn:Eb; [|done]. constructor; [|done].
  intros (y & Hy & Ey)%list_elem_of_omap. by rewrite (Hf _ _ _ Eb Ey) in Hx.
Qed.

(** The names under which the keys of a map continue [a]. *)
Lemma keys_under {K V} `{Countable K} (m : gmap (K * string) V) (a : K) names :
  names = omap (fun k => if decide (k.1 = a) then Some k.2 else None) (map_to_list m).*1 ->
  NoDup names /\ forall n, n ∈ names <-> is_Some (m !! (a, n)).
Proof.
  intros ->. split.
  - apply omap_NoDup; [|apply NoDup_fst_map_to_list]. intros [k n] [k' n'] b. cbn. repeat case_decide; try done. congruence.
  - intros n. rewrite list_elem_of_omap. split.
    + intros ([k n'] & Hin & E). cbn in E. case_decide; [|done]. injection E as ->. subst k.
      apply list_elem_of_fmap in Hin as ([k v] & E & Hin). cbn in E. subst k. apply elem_of_map_to_list in Hin. eauto.
    + intros [v Hv]. exists (a, n). cbn. rewrite decide_True by done. split; [|done]. apply list_elem_of_fmap. exists ((a, n), v).
      split; [done|]. by apply elem_of_map_to_list.
Qed.

Lemma containersOf_tree g m a p : calm g m -> accountAt g a = Some p -> containersOf m a = (swiftContainerTree (accountOf g p)).*1.
Proof.
  intros [Ht _ [_ MC _ _ _]] Ha. unfold containersOf. destruct (keys_under (st_containers m) a _ eq_refl) as [Hnd Hel].
  apply sortNames_tree; [by eapply accountOf_tree|done|]. intros n. rewrite Hel, MC, fmap_is_Some. unfold containerAt. by rewrite Ha.
Qed.

Lemma objectsOf_tree g m a c q : calm g m -> containerAt g a c = Some q -> objectsOf m a c = (swiftObjectTree (containerOf g q)).*1.
Proof.
  intros [Ht _ [_ _ MO _ _]] Hc. unfold objectsOf. destruct (keys_under (st_objects m) (a, c) _ eq_refl) as [Hnd Hel].
  apply sortNames_tree; [by eapply containerOf_tree|done|]. intros n. rewrite Hel, MO, fmap_is_Some. unfold objectAt. by rewrite Hc.
Qed.

Lemma listLoop_lines post : forall pre, listLoop (length post) (zlen pre) (pre ++ post) = Some (lines post.*1).
Proof.
  induction post as [|[n q] post IH]; intros pre; [done|]. cbn [length listLoop]. rewrite GetByIndex_mid.
  replace (zlen pre + 1) with (zlen (pre ++ [(n, q)])) by (rewrite zlen_app; done).
  replace (pre ++ (n, q) :: post) with ((pre ++ [(n, q)]) ++ post) by (by rewrite <- app_assoc). rewrite IH.
  unfold lines. cbn. by rewrite <- app_assoc.
Qed.

Lemma listing_spec headers tree : clean headers -> listing headers tree = Some (specListing headers tree.*1).
Proof.
  intros Hc. unfold listing, Len. rewrite addHeaders_clean by done. destruct tree as [|e tree]; [done|].
  rewrite (proj2 (Z.eqb_neq _ _)) by (rewrite zlen_cons; pose proof (zlen_nonneg tree); lia).
  pose proof (listLoop_lines (e :: tree) []) as HL. cbn [app] in HL. change (zlen []) with 0 in HL. by rewrite HL.
Qed.

Lemma GetByKey_nil (tree : list (string * nat)) n : tree.*1 = [] -> GetByKey tree n = None.
Proof. by destruct tree. Qed.

Lemma Len_names (tree : list (string * nat)) : (0 =? Len tree) = match tree.*1 with [] => true | _ => false end.
Proof. unfold Len. destruct tree as [|e tree]; [done|]. cbn [fmap list_fmap]. apply Z.eqb_neq. rewrite zlen_cons. pose proof (zlen_nonneg tree). lia. Qed.

Lemma calm_deleteAccount g m a p : calm g m -> accountAt g a = Some p -> (swiftContainerTree (accountOf g p)).*1 = [] ->
  calm (g <| swiftAccountMap := delete a (swiftAccountMap g) |>) (m <| st_accounts := delete a (st_accounts m) |>).
Proof.
  intros [Ht Hu [MA MC MO CA CC]] Ha Hnil. set (g' := set _ _ _).
  assert (Hat : forall a', accountAt g' a' = if decide (a' = a) then None else accountAt g a').
  { intros a'. unfold accountAt, g'. cbn. destruct (decide (a' = a)) as [->|]; [by rewrite lookup_delete_eq|by rewrite lookup_delete_ne]. }
  assert (HC : forall a' c', containerAt g' a' c' = containerAt g a' c').
  { intros a' c'. unfold containerAt. rewrite Hat. destruct (decide (a' = a)) as [->|]; [|done]. rewrite Ha. cbn. by rewrite GetByKey_nil. }
  split; [|done|].
  - eapply ramTyped_others; [..|exact Ht]; try done. cbn. apply delete_subseteq.
  - split; cbn.
    + intros a'. rewrite Hat. destruct (decide (a' = a)) as [->|]; [by rewrite lookup_delete_eq|by rewrite lookup_delete_ne].
    + intros a' c'. by rewrite HC, MC.
    + intros a' c' o'. rewrite MO. unfold objectAt. by rewrite HC.
    + intros a' h [_ ?]%lookup_delete_Some. eauto.
    + exact CC.
Qed.

Lemma calm_deleteContainer g m a c p q tree : calm g m -> accountAt g a = Some p -> containerAt g a c = Some q ->
  (swiftObjectTree (containerOf g q)).*1 = [] -> DeleteByKey (swiftContainerTree (accountOf g p)) c = Some tree ->
  calm (modAccount p (setContainerTree tree) g) (m <| st_containers := delete (a, c) (st_containers m) |>).
Proof.
  intros [Ht Hu [MA MC MO CA CC]] Ha Hc Hnil HD. pose proof (accountAt_is _ _ _ Ht Ha) as Hp. set (g' := modAccount _ _ _).
  assert (HA : forall p', accountOf g' p' = if decide (p' = p) then setContainerTree tree (accountOf g p) else accountOf g p').
  { intros p'. unfold g'. by rewrite (accountOf_mod _ _ _ _ _ Hp). }
  assert (HC : forall a' c', containerAt g' a' c' = if decide ((a', c') = (a, c)) then None else containerAt g a' c').
  { intros a' c'. unfold containerAt. change (accountAt g' a') with (accountAt g a').
    destruct (accountAt g a') as [p'|] eqn:Hp'; [|by destruct (decide _)]. cbn. rewrite HA. destruct (decide (p' = p)) as [->|Hne].
    - rewrite (accountAt_inj _ _ _ _ Ht Ha Hp'). cbn. rewrite (GetByKey_Delete _ _ _ (proj1 (accountOf_tree True put g p Ht)) HD).
      destruct (decide (c' = c)) as [->|]; [by rewrite decide_True|by rewrite decide_False by congruence].
    - rewrite decide_False by congruence. done. }
  split; [|done|].
  - refine (proj1 (modAccount_ok _ _ _ _ _ Ht _)). intros x Hx. split; [done|].
    eapply containerTreeOk_delete; [|exact HD]. by eapply accountOf_tree.
  - split; cbn.
    + intros a'. rewrite MA. change (accountAt g' a') with (accountAt g a'). destruct (accountAt g a') as [p'|]; [|done]. cbn. rewrite HA.
      by destruct (decide (p' = p)) as [->|].
    + intros a' c'. rewrite HC. destruct (decide _) as [E|Hne]; [by rewrite E, lookup_delete_eq|]. by rewrite lookup_delete_ne, MC.
    + intros a' c' o'. rewrite MO. unfold objectAt. rewrite HC. change (containerOf g') with (containerOf g).
      destruct (decide _) as [E|Hne]; [|done]. injection E as -> ->. rewrite Hc. cbn. by rewrite GetByKey_nil.
    + exact CA.
    + intros k h [_ ?]%lookup_delete_Some. eauto.
Qed.

Lemma calm_deleteObject g m a c o q tree : calm g m -> containerAt g a c = Some q ->
  DeleteByKey (swiftObjectTree (containerOf g q)) o = Some tree ->
  calm (modContainer q (setObjectTree tree) g) (m <| st_objects := delete (a, c, o) (st_objects m) |>).
Proof.
  intros [Ht Hu [MA MC MO CA CC]] Hc HD. pose proof (containerAt_is _ _ _ _ Ht Hc) as Hp. set (g' := modContainer _ _ _).
  assert (HCo : forall q', containerOf g' q' = if decide (q' = q) then setObjectTree tree (containerOf g q) else containerOf g q').
  { intros q'. unfold g'. by rewrite (containerOf_mod _ _ _ _ _ _ Hp). }
  split; [|done|].
  - refine (proj1 (modContainer_ok _ _ _ _ _ Ht _)). intros x Hx. split; [done|]. split; [done|].
    eapply objectTreeOk_delete; [|exact HD]. by eapply containerOf_tree.
  - split; cbn; [exact MA| | |exact CA|exact CC].
    + intros a' c'. rewrite MC. change (containerAt g' a' c') with (containerAt g a' c'). destruct (containerAt g a' c') as [q'|]; [|done].
      cbn. rewrite HCo. by destruct (decide (q' = q)) as [->|].
    + intros a' c' o'. unfold objectAt. change (containerAt g' a' c') with (containerAt g a' c'). change (objectOf g') with (objectOf g).
      assert (HO : objectAt g a' c' o' = (q ← containerAt g a' c'; GetByKey (swiftObjectTree (containerOf g q)) o')) by done.
      destruct (containerAt g a' c') as [q'|] eqn:Hq'.
      2: { cbn. rewrite lookup_delete_ne by (intros E; injection E as -> -> ->; congruence). by rewrite MO, HO. }
      cbn in *. rewrite HCo. destruct (decide (q' = q)) as [->|Hne].
      * destruct (containerAt_inj _ _ _ _ _ _ Ht Hc Hq') as [-> ->]. cbn.
        rewrite (GetByKey_Delete _ _ _ (proj1 (containerOf_tree True put g q Ht)) HD).
        destruct (decide (o' = o)) as [->|Hneo]; [by rewrite lookup_delete_eq|]. rewrite lookup_delete_ne by congruence. by rewrite MO, HO.
      * rewrite lookup_delete_ne by congruence. by rewrite MO, HO.
Qed.

(** ** Running alone *)

(** A program that runs alone ends with the answer and the store of the
    specification; [None] is a panic. *)
Definition serves (p : ramProg swiftResponse) (g : globalsStruct) (m' : store) (r : option swiftResponse) : Prop :=
  match r with
  | Some response => exists g', runRam p g = (g', RDone response) /\ calm g' m'
  | None => exists g', runRam p g = (g', RPanicked)
  end.

Lemma serves_ret g m response : calm g m -> serves (RRet response) g m (Some response).
Proof. intros Hc. by exists g. Qed.

(** The answer to a request that is to fail. *)
Definition chaosAnswer (g : globalsStruct) : ramResult swiftResponse :=
  let status := chaosFailureHTTPStatus g in
  if (100 <=? status) && (status <=? 999) then RDone (plainStatus status) else RPanicked.

(** The same for a request of the kind [k], which counts: when its turn has come
    it fails, and nothing but the count changes. *)
Definition outcome (p : ramProg swiftResponse) (g : globalsStruct) (k : option (resource * verb)) (m' : store) (r : option swiftResponse) : Prop :=
  match k with
  | Some (rs, v) => if struck rs v (bumpCount rs v g) then runRam p g = (bumpCount rs v g, chaosAnswer g) else serves p g m' r
  | None => serves p g m' r
  end.

Lemma outcome_run p p' g k m' r : runRam p g = runRam p' g -> outcome p' g k m' r -> outcome p g k m' r.
Proof. unfold outcome, serves. by intros ->. Qed.

Lemma outcome_chaos rs v normal g m' answer : serves normal (bumpCount rs v g) m' answer ->
  outcome (withChaos rs v normal) g (Some (rs, v)) m' answer.
Proof.
  intros Hs. unfold outcome, serves, withChaos. cbn [rbind atomically runRam]. destruct (struck rs v (bumpCount rs v g)); [|exact Hs].
  cbn [runRam rget atomically rbind]. replace (chaosFailureHTTPStatus (bumpCount rs v g)) with (chaosFailureHTTPStatus g) by by destruct rs.
  unfold WriteHeader, chaosAnswer. by destruct (_ && _).
Qed.

Lemma outcome_account g k m' r a missing found :
  (accountAt g a = None -> outcome (RRet (plainStatus missing)) g k m' r) ->
  (forall p, accountAt g a = Some p -> outcome (found p) g k m' r) ->
  outcome (account <<- locateSwiftAccount a ;; located account missing found) g k m' r.
Proof.
  unfold accountAt. intros Hn Hs. destruct (swiftAccountMap g !! a) eqn:E; (eapply outcome_run; [|eauto]); cbn; by rewrite E.
Qed.

Lemma outcome_container g k m' r a p c missing found : accountAt g a = Some p ->
  (containerAt g a c = None -> outcome (RRet (plainStatus missing)) g k m' r) ->
  (forall q, containerAt g a c = Some q -> outcome (found q) g k m' r) ->
  outcome (container <<- locateSwiftContainer p c ;; located container missing found) g k m' r.
Proof.
  unfold containerAt. intros ->. cbn [mbind option_bind]. intros Hn Hs.
  destruct (GetByKey _ c) eqn:E; (eapply outcome_run; [|eauto]); cbn; by rewrite E.
Qed.

Lemma outcome_object g k m' r a c q o missing found : containerAt g a c = Some q ->
  (objectAt g a c o = None -> outcome (RRet (plainStatus missing)) g k m' r) ->
  (forall p, objectAt g a c o = Some p -> outcome (found p) g k m' r) ->
  outcome (object <<- locateSwiftObject q o ;; located object missing found) g k m' r.
Proof.
  unfold objectAt. intros ->. cbn [mbind option_bind]. intros Hn Hs.
  destruct (GetByKey _ o) eqn:E; (eapply outcome_run; [|eauto]); cbn; by rewrite E.
Qed.

(** The same once the request has been counted. *)
Definition serves_container g := outcome_container g None.
Definition serves_object g := outcome_object g None.

Lemma deleteByKey_found (tree : list (string * nat)) n q : sorted tree -> GetByKey tree n = Some q -> exists tree', DeleteByKey tree n = Some tree'.
Proof. unfold GetByKey, DeleteByKey. intros _ ->. eauto. Qed.

Lemma no_container g m a c : calm g m -> accountAt g a = None -> st_containers m !! (a, c) = None.
Proof. intros [_ _ [_ MC _ _ _]] Ha. rewrite MC. unfold containerAt. by rewrite Ha. Qed.

Lemma no_object g m a c o : calm g m -> containerAt g a c = None -> st_objects m !! (a, c, o) = None.
Proof. intros [_ _ [_ _ MO _ _]] Hc. rewrite MO. unfold objectAt. by rewrite Hc. Qed.

Lemma no_object_account g m a c o : calm g m -> accountAt g a = None -> st_objects m !! (a, c, o) = None.
Proof. intros Hm Ha. eapply no_object; [done|]. unfold containerAt. by rewrite Ha. Qed.

Lemma some_account g m a p : calm g m -> accountAt g a = Some p ->
  exists headers, st_accounts m !! a = Some headers /\ headers = account_headers (accountOf g p) /\ clean headers.
Proof. intros [_ _ [MA _ _ CA _]] Ha. eexists. rewrite MA, Ha. split; [done|]. split; [done|]. apply (CA a). by rewrite MA, Ha. Qed.

Lemma some_container g m a c q : calm g m -> containerAt g a c = Some q ->
  exists headers, st_containers m !! (a, c) = Some headers /\ headers = container_headers (containerOf g q) /\ clean headers.
Proof. intros [_ _ [_ MC _ _ CC]] Hc. eexists. rewrite MC, Hc. split; [done|]. split; [done|]. apply (CC (a, c)). by rewrite MC, Hc. Qed.

Lemma some_object g m a c o p : calm g m -> objectAt g a c o = Some p -> st_objects m !! (a, c, o) = Some (contents (objectOf g p)).
Proof. intros [_ _ [_ _ MO _ _]] Ho. by rewrite MO, Ho. Qed.

Lemma none_account g m a : calm g m -> accountAt g a = None -> st_accounts m !! a = None.
Proof. intros [_ _ [MA _ _ _ _]] Ha. by rewrite MA, Ha. Qed.

Lemma none_container g m a c : calm g m -> containerAt g a c = None -> st_containers m !! (a, c) = None.
Proof. intros [_ _ [_ MC _ _ _]] Hc. by rewrite MC, Hc. Qed.

Lemma none_object g m a c o : calm g m -> objectAt g a c o = None -> st_objects m !! (a, c, o) = None.
Proof. intros [_ _ [_ _ MO _ _]] Ho. by rewrite MO, Ho. Qed.

(** An operation answers as its specification says. *)
Abbreviation served p g spec := (serves p g (fst spec) (Some (snd spec))).

Lemma deleteAccount_served g m a : calm g m -> served (errno <<- deleteSwiftAccount a false ;; deleted errno) g (specDelete (TAccount a) m).
Proof.
  intros Hc. unfold serves. cbn [rbind deleteSwiftAccount atomically runRam specDelete]. fold (accountAt g a).
  destruct (accountAt g a) as [p|] eqn:Ha.
  - destruct (some_account _ _ _ _ Hc Ha) as (h & -> & _ & _). rewrite decide_True, Len_names, (containersOf_tree _ _ _ _ Hc Ha) by eauto.
    destruct (swiftContainerTree (accountOf g p)).*1 as [|x l] eqn:En; cbn; eexists; (split; [done|]); [|done].
    exact (calm_deleteAccount _ _ _ _ Hc Ha En).
  - rewrite (none_account _ _ _ Hc Ha), decide_False by (by intros [? ?]). by eexists.
Qed.

Lemma deleteContainer_served g m a p c : calm g m -> accountAt g a = Some p ->
  served (errno <<- deleteSwiftContainer p c ;; deleted errno) g (specDelete (TContainer a c) m).
Proof.
  intros Hc Hp. unfold serves. cbn [rbind deleteSwiftContainer atomically runRam specDelete].
  destruct (GetByKey (swiftContainerTree (accountOf g p)) c) as [q|] eqn:Hk.
  - assert (Hq : containerAt g a c = Some q) by (unfold containerAt; by rewrite Hp).
    destruct (some_container _ _ _ _ _ Hc Hq) as (h & -> & _ & _). rewrite decide_True, Len_names, (objectsOf_tree _ _ _ _ _ Hc Hq) by eauto.
    destruct (deleteByKey_found _ _ _ (proj1 (accountOf_tree True put g p (ca_typed _ _ Hc))) Hk) as [tree HD].
    destruct (swiftObjectTree (containerOf g q)).*1 as [|x l] eqn:En; cbn; [rewrite HD|]; eexists; (split; [done|]); [|done].
    exact (calm_deleteContainer _ _ _ _ _ _ _ Hc Hp Hq En HD).
  - assert (Hq : containerAt g a c = None) by (unfold containerAt; by rewrite Hp).
    rewrite (none_container _ _ _ _ Hc Hq), decide_False by (by intros [? ?]). by eexists.
Qed.

Lemma deleteObject_served g m a c q o : calm g m -> containerAt g a c = Some q ->
  served (errno <<- deleteSwiftObject q o ;; deletedObject errno) g (specDelete (TObject a c o) m).
Proof.
  intros Hc Hq. unfold serves. cbn [rbind deleteSwiftObject atomically runRam specDelete].
  destruct (GetByKey (swiftObjectTree (containerOf g q)) o) as [p|] eqn:Hk.
  - assert (Ho : objectAt g a c o = Some p) by (unfold objectAt; by rewrite Hq).
    rewrite (some_object _ _ _ _ _ _ Hc Ho), decide_True by eauto.
    destruct (deleteByKey_found _ _ _ (proj1 (containerOf_tree True put g q (ca_typed _ _ Hc))) Hk) as [tree HD]. rewrite HD.
    eexists. split; [done|]. exact (calm_deleteObject _ _ _ _ _ _ _ Hc Hq HD).
  - assert (Ho : objectAt g a c o = None) by (unfold objectAt; by rewrite Hq).
    rewrite (none_object _ _ _ _ _ Hc Ho), decide_False by (by intros [? ?]). by eexists.
Qed.

(** The target of a request, and the branches of its handler. *)
Ltac targets request :=
  unfold targetOf;
  destruct (parsePath (request_Path request)) as [[[infoOnly a] c] o];
  destruct (infoOnly || String.eqb a EmptyString); [|destruct (String.eqb c EmptyString); [|destruct (String.eqb o EmptyString)]].

(** Passes the count of a request: nothing that is looked at changes. *)
Ltac counted Hc :=
  lazymatch goal with
  | |- outcome (withChaos ?r ?v _) _ _ _ _ => apply outcome_chaos; apply (calm_bump r v) in Hc
  end.

Lemma doDelete_refines request g m : calm g m ->
  let t := targetOf (request_Path request) in
  outcome (doDelete request) g (deleteKind t m) (specDelete t m).1 (Some (specDelete t m).2).
Proof.
  intros Hc. cbv zeta. unfold doDelete. targets request; cbn [deleteKind].
  - by apply serves_ret.
  - counted Hc. by apply deleteAccount_served.
  - apply outcome_account; [intros Ha|intros p Hp].
    + rewrite (none_account _ _ _ Hc Ha). cbn. rewrite (no_container _ _ _ c Hc Ha), decide_False by (by intros [? ?]). by apply serves_ret.
    + destruct (some_account _ _ _ _ Hc Hp) as (h & -> & _). counted Hc. by apply deleteContainer_served.
  - apply outcome_account; [intros Ha|intros p Hp].
    + rewrite (none_account _ _ _ Hc Ha). cbn. rewrite (no_object_account _ _ _ c o Hc Ha), decide_False by (by intros [? ?]). by apply serves_ret.
    + destruct (some_account _ _ _ _ Hc Hp) as (h & -> & _). counted Hc.
      eapply serves_container; [exact Hp| |intros q Hq; by apply deleteObject_served].
      intros Hn. cbn. rewrite (no_object _ _ _ _ o Hc Hn), decide_False by (by intros [? ?]). by apply serves_ret.
Qed.

Lemma doHead_refines request g m : calm g m ->
  let t := targetOf (request_Path request) in outcome (doHead request) g (readKind VHead t m) m (Some (specHead t m)).
Proof.
  intros Hc. cbv zeta. unfold doHead. targets request; cbn [specHead readKind]; [by apply serves_ret|apply outcome_account..].
  - intros Ha. rewrite (none_account _ _ _ Hc Ha). by apply serves_ret.
  - intros p Hp. destruct (some_account _ _ _ _ Hc Hp) as (h & -> & -> & Hcl). counted Hc. eexists. split; [|exact Hc]. cbn.
    by rewrite addHeaders_clean.
  - intros Ha. rewrite (no_container _ _ _ c Hc Ha). by apply serves_ret.
  - intros p Hp. eapply outcome_container; [exact Hp| |].
    + intros Hn. rewrite (none_container _ _ _ _ Hc Hn). by apply serves_ret.
    + intros q Hq. destruct (some_container _ _ _ _ _ Hc Hq) as (h & -> & -> & Hcl). counted Hc. eexists. split; [|exact Hc]. cbn.
      by rewrite addHeaders_clean.
  - intros Ha. rewrite (no_container _ _ _ c Hc Ha). setoid_rewrite (no_object_account _ _ _ c o Hc Ha). by apply serves_ret.
  - intros p Hp. eapply outcome_container; [exact Hp| |].
    + intros Hn. rewrite (none_container _ _ _ _ Hc Hn). setoid_rewrite (no_object _ _ _ _ o Hc Hn). by apply serves_ret.
    + intros q Hq. destruct (some_container _ _ _ _ _ Hc Hq) as (h & -> & _). counted Hc. eapply serves_object; [exact Hq| |].
      * intros Hn. setoid_rewrite (none_object _ _ _ _ _ Hc Hn). by apply serves_ret.
      * intros p' Hp'. setoid_rewrite (some_object _ _ _ _ _ _ Hc Hp'). by eexists.
Qed.

Lemma parsePath_info path : (parsePath path).1.1.1 = String.eqb path "/info".
Proof.
  unfold parsePath. destruct (String.eqb path "/info"); [done|]. destruct (String.prefix _ _); [|done].
  by destruct (SplitN _ _ _) as [|x [|y [|z l]]].
Qed.

Lemma listing_served g m headers tree names : calm g m -> clean headers -> names = tree.*1 -> forall f, f g = listing headers tree ->
  serves (r <<- rget f ;; orPanic r) g m (Some (specListing headers names)).
Proof. intros Hc Hcl -> f Hf. unfold serves. cbn. rewrite Hf, listing_spec by done. by eexists. Qed.

(** The critical section of a read. *)
Lemma readObject_served request g m a c o p : calm g m -> objectAt g a c o = Some p ->
  serves (withObject p (fun object =>
            match readContents (request_Header request) (contents object) with Some response => Some (object, response) | None => None end)) g m
    (readContents (request_Header request) (contents (objectOf g p))).
Proof.
  intros Hc Ho. destruct (objectAt_is _ _ _ _ _ (ca_typed _ _ Hc) Ho) as (b & Hb & _).
  assert (Eb : objectOf g p = b) by (unfold objectOf; by rewrite Hb).
  unfold withObject, serves. cbn [rbind runRam]. rewrite Eb, (ca_unlocked _ _ Hc _ _ Hb).
  destruct (readContents _ _) as [response|]; cbn; [|by eexists]. eexists. split; [done|].
  assert (E : modObject p (fun _ => b) g = g) by (unfold modObject; rewrite <- list_insert_alter, list_insert_id by done; by destruct g).
  by rewrite E.
Qed.

Lemma doGet_refines request g m : calm g m ->
  let t := targetOf (request_Path request) in
  outcome (doGet request) g (readKind VGet t m) m
    (if String.eqb (request_Path request) "/info" then Some (mkSwiftResponse StatusOK ∅ (StringToByteSlice (swiftInfo g)))
     else specGet t (request_Header request) m).
Proof.
  intros Hc. cbv zeta. unfold doGet, targetOf. rewrite <- parsePath_info.
  destruct (parsePath (request_Path request)) as [[[infoOnly a] c] o]. cbn [fst snd]. destruct infoOnly; [by eexists|]. cbn [orb].
  destruct (String.eqb a EmptyString); [by apply serves_ret|]. destruct (String.eqb c EmptyString); [|destruct (String.eqb o EmptyString)];
    cbn [specGet readKind]; apply outcome_account.
  - intros Ha. rewrite (none_account _ _ _ Hc Ha). by apply serves_ret.
  - intros p Hp. destruct (some_account _ _ _ _ Hc Hp) as (h & -> & -> & Hcl). counted Hc.
    eapply listing_served; [exact Hc|exact Hcl|by eapply containersOf_tree|done].
  - intros Ha. rewrite (no_container _ _ _ c Hc Ha). by apply serves_ret.
  - intros p Hp. eapply outcome_container; [exact Hp| |].
    + intros Hn. rewrite (none_container _ _ _ _ Hc Hn). by apply serves_ret.
    + intros q Hq. destruct (some_container _ _ _ _ _ Hc Hq) as (h & -> & -> & Hcl). counted Hc.
      eapply listing_served; [exact Hc|exact Hcl|by eapply objectsOf_tree|done].
  - intros Ha. rewrite (no_container _ _ _ c Hc Ha). setoid_rewrite (no_object_account _ _ _ c o Hc Ha). by apply serves_ret.
  - intros p Hp. eapply outcome_container; [exact Hp| |].
    + intros Hn. rewrite (none_container _ _ _ _ Hc Hn). setoid_rewrite (no_object _ _ _ _ o Hc Hn). by apply serves_ret.
    + intros q Hq. destruct (some_container _ _ _ _ _ Hc Hq) as (h & -> & _). counted Hc. eapply serves_object; [exact Hq| |].
      * intros Hn. setoid_rewrite (none_object _ _ _ _ _ Hc Hn). by apply serves_ret.
      * intros p' Hp'. setoid_rewrite (some_object _ _ _ _ _ _ Hc Hp'). by eapply readObject_served.
Qed.

(** A header update through a pointer. *)
Lemma putAccountHeaders_served g m a p old f request response : calm g m -> accountAt g a = Some p -> account_headers (accountOf g p) = old -> clean old ->
  (forall x, account_name (f x) = account_name x /\ swiftContainerTree (f x) = swiftContainerTree x) ->
  account_headers (f (accountOf g p)) = updateHeaders request old ->
  serves (rput (modAccount p f) ;;- RRet response) g (m <| st_accounts := <[a := specHeaders request old]> (st_accounts m) |>) (Some response).
Proof.
  intros Hc Ha Ho Hcl Hf Hh. eexists. split; [done|]. eapply calm_account_headers; [done..| |].
  - by rewrite Hh, updateHeaders_spec.
  - rewrite <- updateHeaders_spec. by apply updateHeaders_clean.
Qed.

Lemma putContainerHeaders_served g m a c q old f request response : calm g m -> containerAt g a c = Some q ->
  container_headers (containerOf g q) = old -> clean old ->
  (forall x, container_name (f x) = container_name x /\ swiftAccount (f x) = swiftAccount x /\ swiftObjectTree (f x) = swiftObjectTree x) ->
  container_headers (f (containerOf g q)) = updateHeaders request old ->
  serves (rput (modContainer q f) ;;- RRet response) g (m <| st_containers := <[(a, c) := specHeaders request old]> (st_containers m) |>) (Some response).
Proof.
  intros Hc Ha Ho Hcl Hf Hh. eexists. split; [done|]. eapply calm_container_headers; [done..| |].
  - by rewrite Hh, updateHeaders_spec.
  - rewrite <- updateHeaders_spec. by apply updateHeaders_clean.
Qed.

Lemma doPost_refines request g m : calm g m ->
  let t := targetOf (request_Path request) in
  outcome (doPost request) g (readKind VPost t m) (specPost t (request_Header request) m).1 (Some (specPost t (request_Header request) m).2).
Proof.
  intros Hc. cbv zeta. unfold doPost. targets request; cbn [specPost readKind]; [by apply serves_ret|apply outcome_account..].
  - intros Ha. rewrite (none_account _ _ _ Hc Ha). by apply serves_ret.
  - intros p Hp. destruct (some_account _ _ _ _ Hc Hp) as (h & -> & -> & Hcl). counted Hc. by eapply putAccountHeaders_served.
  - intros Ha. rewrite (no_container _ _ _ c Hc Ha). by apply serves_ret.
  - intros p Hp. eapply outcome_container; [exact Hp| |].
    + intros Hn. rewrite (none_container _ _ _ _ Hc Hn). by apply serves_ret.
    + intros q Hq. destruct (some_container _ _ _ _ _ Hc Hq) as (h & -> & -> & Hcl). counted Hc. by eapply putContainerHeaders_served.
  - intros Ha. rewrite decide_False by (rewrite (no_container _ _ _ c Hc Ha); by intros [? ?]).
    rewrite (no_container _ _ _ c Hc Ha). by apply serves_ret.
  - intros p Hp. eapply outcome_container; [exact Hp| |].
    + intros Hn. rewrite decide_False by (rewrite (none_container _ _ _ _ Hc Hn); by intros [? ?]).
      rewrite (none_container _ _ _ _ Hc Hn). by apply serves_ret.
    + intros q Hq. destruct (some_container _ _ _ _ _ Hc Hq) as (h & E & _ & _). rewrite decide_True by eauto. rewrite E.
      counted Hc. by apply serves_ret.
Qed.

Lemma putAccount_served g m a request : calm g m ->
  served (r <<- createOrLocateSwiftAccount a ;;
          rput (modAccount r.1 (fun x =>
            let x := if r.2 : bool then x <| account_headers := ∅ |> else x in
            x <| account_headers := updateHeaders request (account_headers x) |>)) ;;-
          RRet (created r.2)) g (specPut (TAccount a) request [] m).
Proof.
  intros Hc. cbn [specPut fst snd]. pose proof (calm_addAccount g m a Hc) as Hadd. fold (accountAt g a) in *. destruct (accountAt g a) as [p|] eqn:Ha.
  - destruct (some_account _ _ _ _ Hc Ha) as (h & -> & E & Hcl). unfold createOrLocateSwiftAccount, serves. cbn [rbind atomically runRam].
    unfold accountAt in Ha. rewrite Ha. eapply (putAccountHeaders_served g m a p h); try done. cbn. by rewrite E.
  - unfold createOrLocateSwiftAccount, serves. cbn [rbind atomically runRam]. pose proof Ha as Ha0. unfold accountAt in Ha0. rewrite Ha0.
    destruct (addAccount a g) as [g' p]. destruct (Hadd eq_refl) as (Hc' & Ha' & Eh). rewrite (none_account _ _ _ Hc Ha).
    destruct (putAccountHeaders_served g' _ a p ∅ (fun x => let x := x <| account_headers := ∅ |> in x <| account_headers := updateHeaders request (account_headers x) |>)
      request (created true) Hc' Ha' Eh clean_empty) as (g2 & Hr & Hc2); [by intros x|done|].
    exists g2. split; [exact Hr|]. cbn in Hc2. by rewrite insert_insert_eq in Hc2.
Qed.

Lemma putContainer_served g m a p c request : calm g m -> accountAt g a = Some p ->
  served (r <<- createOrLocateSwiftContainer p c ;;
          rput (modContainer r.1 (fun x =>
            let x := if r.2 : bool then x <| container_headers := ∅ |> else x in
            x <| container_headers := updateHeaders request (container_headers x) |>)) ;;-
          RRet (created r.2)) g (specPut (TContainer a c) request [] m).
Proof.
  intros Hc Ha. cbn [specPut]. destruct (some_account _ _ _ _ Hc Ha) as (h0 & -> & _ & _). cbn [fst snd].
  pose proof (calm_addContainer g m a c p Hc Ha) as Hadd. unfold createOrLocateSwiftContainer, serves. cbn [rbind atomically runRam].
  assert (Hat : containerAt g a c = GetByKey (swiftContainerTree (accountOf g p)) c) by (unfold containerAt; by rewrite Ha).
  rewrite <- Hat. destruct (containerAt g a c) as [q|] eqn:Hq.
  - destruct (some_container _ _ _ _ _ Hc Hq) as (h & -> & E & Hcl). eapply (putContainerHeaders_served g m a c q h); try done. cbn. by rewrite E.
  - destruct (addContainer p c g) as [g' q]. destruct (Hadd eq_refl) as (Hc' & Hq' & Eh). rewrite (none_container _ _ _ _ Hc Hq).
    destruct (putContainerHeaders_served g' _ a c q ∅ (fun x => let x := x <| container_headers := ∅ |> in x <| container_headers := updateHeaders request (container_headers x) |>)
      request (created true) Hc' Hq' Eh clean_empty) as (g2 & Hr & Hc2); [by intros x|done|].
    exists g2. split; [exact Hr|]. cbn in Hc2. by rewrite insert_insert_eq in Hc2.
Qed.

(** The critical section of a write. *)
Lemma writeObject_served g m a c o p data response : calm g m -> objectAt g a c o = Some p -> put a c o data ->
  serves (withObject p (fun object => Some (object <| contents := data |>, tt)) ;;- RRet response) g
    (m <| st_objects := <[(a, c, o) := data]> (st_objects m) |>) (Some response).
Proof.
  intros Hc Ho Hput. destruct (objectAt_is _ _ _ _ _ (ca_typed _ _ Hc) Ho) as (b & Hb & _).
  assert (Eb : objectOf g p = b) by (unfold objectOf; by rewrite Hb).
  pose proof (calm_contents _ _ _ _ _ _ _ Hc Ho Hput) as Hc'. unfold withObject, serves. cbn [rbind runRam].
  rewrite Eb, (ca_unlocked _ _ Hc _ _ Hb) in *. by eexists.
Qed.

Lemma putObject_served g m a c q o data header : calm g m -> containerAt g a c = Some q -> put a c o data ->
  served (r <<- createOrLocateSwiftObject q o ;;
          withObject r.1 (fun object => Some (object <| contents := data |>, tt)) ;;-
          RRet (created r.2)) g (specPut (TObject a c o) header data m).
Proof.
  intros Hc Hq Hput. cbn [specPut]. destruct (some_container _ _ _ _ _ Hc Hq) as (h0 & -> & _ & _). cbn [fst snd].
  pose proof (calm_addObject g m a c o q Hc Hq) as Hadd. unfold createOrLocateSwiftObject, serves. cbn [rbind atomically runRam].
  assert (Hat : objectAt g a c o = GetByKey (swiftObjectTree (containerOf g q)) o) by (unfold objectAt; by rewrite Hq).
  rewrite <- Hat. destruct (objectAt g a c o) as [p|] eqn:Ho.
  - rewrite (some_object g m a c o p Hc Ho). by eapply writeObject_served.
  - destruct (addObject q o g) as [g' p]. destruct (Hadd eq_refl) as (Hc' & Ho'). rewrite (none_object g m a c o Hc Ho).
    destruct (writeObject_served g' _ a c o p data (created true) Hc' Ho' Hput) as (g2 & Hr & Hc2).
    exists g2. split; [exact Hr|]. cbn in Hc2. by rewrite insert_insert_eq in Hc2.
Qed.

Lemma doPut_refines request g m : calm g m -> (forall a c o, put a c o (request_Body request)) ->
  let t := targetOf (request_Path request) in
  outcome (doPut request) g (putKind t m) (specPut t (request_Header request) (request_Body request) m).1
    (Some (specPut t (request_Header request) (request_Body request) m).2).
Proof.
  intros Hc Hput. cbv zeta. unfold doPut. targets request; cbn [putKind].
  - by apply serves_ret.
  - counted Hc. exact (putAccount_served _ _ _ _ Hc).
  - apply outcome_account; [intros Ha|intros p Hp].
    + cbn [specPut]. rewrite (none_account _ _ _ Hc Ha). by apply serves_ret.
    + destruct (some_account _ _ _ _ Hc Hp) as (h & E & _). rewrite E at 1. counted Hc. exact (putContainer_served _ _ _ _ _ _ Hc Hp).
  - apply outcome_account; [intros Ha|intros p Hp].
    + cbn [specPut]. rewrite (none_account _ _ _ Hc Ha), (no_container _ _ _ c Hc Ha). by apply serves_ret.
    + destruct (some_account _ _ _ _ Hc Hp) as (h & E & _). rewrite E at 1. counted Hc. eapply serves_container; [exact Hp| |].
      * intros Hn. cbn [specPut]. rewrite (none_container _ _ _ _ Hc Hn). by apply serves_ret.
      * intros q Hq. exact (putObject_served _ _ _ _ _ _ _ _ Hc Hq (Hput _ _ _)).
Qed.

Lemma ServeHTTP_refines request g m : calm g m -> (forall a c o, put a c o (request_Body request)) ->
  outcome (ServeHTTP request) g (kindOf request m) (specServe (swiftInfo g) request m).1 (specServe (swiftInfo g) request m).2.
Proof.
  intros Hc Hput. unfold ServeHTTP, specServe, kindOf. destruct (String.eqb _ "DELETE"); [by apply doDelete_refines|].
  destruct (String.eqb _ "GET"); [by apply doGet_refines|]. destruct (String.eqb _ "HEAD"); [by apply doHead_refines|].
  destruct (String.eqb _ "POST"); [by apply doPost_refines|]. destruct (String.eqb _ "PUT"); [by apply doPut_refines|]. by apply serves_ret.
Qed.
End Refinement.

(** Any contents may be put. *)
Definition anyPut (_ _ _ : string) (_ : bytes) : Prop := True.


(** ** Change of configuration *)

Lemma runRam_bind {A B} (p : ramProg A) (k : A -> ramProg B) g :
  runRam (rbind p k) g =
  match runRam p g with
  | (g', RDone a) => runRam (k a) g'
  | (g', RPanicked) => (g', RPanicked)
  | (g', RExited) => (g', RExited)
  | (g', RBlocked) => (g', RBlocked)
  end.
Proof. revert g. induction p as [a| | |C m k' IH]; intros g; cbn; try done. destruct (m g) as [[g' b]|]; [apply IH|done]. Qed.

Lemma runRam_bind_done {A B} (p : ramProg A) (k : A -> ramProg B) g g' b : runRam (rbind p k) g = (g', RDone b) ->
  exists g1 a, runRam p g = (g1, RDone a) /\ runRam (k a) g1 = (g', RDone b).
Proof. rewrite runRam_bind. destruct (runRam p g) as [g1 [a| | |]]; try done. eauto. Qed.

Lemma fetched_done {A} (m : res A) g g' a : runRam (fetched m) g = (g', RDone a) -> g' = g /\ m = Ret a.
Proof. destruct m; cbn; [|done|done]. by intros [= -> ->]. Qed.

(** Peels the first step off a run that ended. *)
Ltac run_step H :=
  let g := fresh "g" in let a := fresh "a" in let E := fresh "E" in
  apply runRam_bind_done in H as (g & a & E & H);
  lazymatch type of E with
  | runRam (fetched _) _ = _ => apply fetched_done in E as [-> E]
  | runRam (rget _) _ = _ => injection E as <- <-
  | runRam (rput _) _ = _ => injection E as <- <-
  | _ => idtac
  end.

(** The accounts of the volumes that this peer serves. *)
Definition accountServed (confMap : ConfMap) (namespaced : bool) (whoAmI : string) (volumeList : list string) (name : string) : Prop :=
  exists volumeName, volumeName ∈ volumeList
    /\ FetchOptionValueStringSlice confMap (VolumeNameConfSection namespaced volumeName) "PrimaryPeer" = Ret [whoAmI]
    /\ FetchOptionValueString confMap (VolumeNameConfSection namespaced volumeName) "AccountName" = Ret name.

Lemma accountServed_cons confMap namespaced whoAmI volumeName rest name :
  accountServed confMap namespaced whoAmI (volumeName :: rest) name <->
  (FetchOptionValueStringSlice confMap (VolumeNameConfSection namespaced volumeName) "PrimaryPeer" = Ret [whoAmI]
   /\ FetchOptionValueString confMap (VolumeNameConfSection namespaced volumeName) "AccountName" = Ret name)
  \/ accountServed confMap namespaced whoAmI rest name.
Proof.
  unfold accountServed. split.
  - intros (v & [->|Hv]%elem_of_cons & ? & ?); [by left|right; eauto].
  - intros [[? ?]|(v & ? & ? & ?)]; eexists; (split; [apply elem_of_cons|]); eauto.
Qed.

Lemma accountsOf_done confMap namespaced volumeList g g' X : runRam (accountsOf confMap namespaced volumeList) g = (g', RDone X) ->
  g' = g /\ forall name, name ∈ X <-> accountServed confMap namespaced (rg_whoAmI g) volumeList name.
Proof.
  revert g' X. induction volumeList as [|volumeName rest IH]; cbn [accountsOf]; intros g' X HR.
  - injection HR as <- <-. split; [done|]. intros name. split; [by intros ?%elem_of_empty|]. intros (v & Hv & _). by apply elem_of_nil in Hv.
  - run_step HR. run_step HR. destruct a as [|primaryPeer [|]]; [| |done].
    + destruct (IH _ _ HR) as [-> Hel]. split; [done|]. intros name. rewrite accountServed_cons, Hel. split; [auto|]. intros [[? _]|?]; [congruence|done].
    + destruct (String.eqb_spec (rg_whoAmI g) primaryPeer) as [<-|Hne].
      * run_step HR. run_step HR. injection HR as <- <-. destruct (IH _ _ E1) as [-> Hel]. split; [done|]. intros name.
        rewrite accountServed_cons, elem_of_union, elem_of_singleton, Hel. split; [intros [->|?]; auto|].
        intros [[_ ?]|?]; [left; congruence|auto].
      * destruct (IH _ _ HR) as [-> Hel]. split; [done|]. intros name. rewrite accountServed_cons, Hel. split; [auto|].
        intros [[? _]|?]; [congruence|done].
Qed.

(** The store loses an account with all that is in it, or gets a new one. *)
Definition dropAccount (a : string) (m : store) : store :=
  mkStore (delete a (st_accounts m)) (filter (fun entry => entry.1.1 <> a) (st_containers m)) (filter (fun entry => entry.1.1.1 <> a) (st_objects m)).

Definition ensureAccount (a : string) (m : store) : store :=
  match st_accounts m !! a with Some _ => m | None => m <| st_accounts := <[a := ∅]> (st_accounts m) |> end.

(** The accounts outside [X] are gone and those of [X] are there. *)
Definition reconfigured (X : gset string) (m : store) : store :=
  mkStore (filter (fun entry => entry.1 ∈ X) (st_accounts m) ∪ gset_to_gmap ∅ X)
    (filter (fun entry => entry.1.1 ∈ X) (st_containers m)) (filter (fun entry => entry.1.1.1 ∈ X) (st_objects m)).

Lemma calm_same g g' m : accountHeap g' = accountHeap g -> containerHeap g' = containerHeap g -> objectHeap g' = objectHeap g ->
  swiftAccountMap g' = swiftAccountMap g -> calm anyPut g m -> calm anyPut g' m.
Proof.
  intros E1 E2 E3 E4 [Ht Hu [MA MC MO CA CC]]. split.
  - eapply ramTyped_heaps; [done..| | | |exact Ht]; [by rewrite E4|by left|intros _; left; by left].
  - unfold unlocked. by rewrite E3.
  - unfold objectAt, containerAt, accountAt, objectOf, containerOf, accountOf in *.
    split; unfold objectAt, containerAt, accountAt, objectOf, containerOf, accountOf; rewrite ?E1, ?E2, ?E3, ?E4; done.
Qed.

Lemma calm_dropAccount g m a p : calm anyPut g m -> accountAt g a = Some p ->
  calm anyPut (g <| swiftAccountMap := delete a (swiftAccountMap g) |>) (dropAccount a m).
Proof.
  intros [Ht Hu [MA MC MO CA CC]] Ha. set (g' := set _ _ _).
  assert (Hat : forall a', accountAt g' a' = if decide (a' = a) then None else accountAt g a').
  { intros a'. unfold accountAt, g'. cbn. destruct (decide (a' = a)) as [->|]; [by rewrite lookup_delete_eq|by rewrite lookup_delete_ne]. }
  assert (HC : forall a' c', containerAt g' a' c' = if decide (a' = a) then None else containerAt g a' c').
  { intros a' c'. unfold containerAt. rewrite Hat. by destruct (decide (a' = a)). }
  split; [|done|].
  - eapply ramTyped_others; [..|exact Ht]; try done. cbn. apply delete_subseteq.
  - split; cbn.
    + intros a'. rewrite Hat. destruct (decide (a' = a)) as [->|]; [by rewrite lookup_delete_eq|by rewrite lookup_delete_ne].
    + intros a' c'. rewrite HC. destruct (decide (a' = a)) as [->|Hne].
      * apply map_lookup_filter_None. right. intros h _. cbn. auto.
      * rewrite map_lookup_filter, MC. destruct (_ <$> _) eqn:E; [|done]. cbn. by rewrite option_guard_True.
    + intros a' c' o'. unfold objectAt. rewrite HC. destruct (decide (a' = a)) as [->|Hne].
      * apply map_lookup_filter_None. right. intros h _. cbn. auto.
      * rewrite map_lookup_filter, MO. unfold objectAt. destruct (_ <$> _) eqn:E; [|done]. cbn. by rewrite option_guard_True.
    + intros a' h [_ ?]%lookup_delete_Some. eauto.
    + intros k h [? _]%map_lookup_filter_Some. eauto.
Qed.

Lemma deleteForce_done g m a g' u : calm anyPut g m -> is_Some (accountAt g a) -> runRam (deleteSwiftAccount a true) g = (g', u) ->
  calm anyPut g' (dropAccount a m) /\ (forall a', a' <> a -> accountAt g' a' = accountAt g a').
Proof.
  intros Hc [p Ha]. cbn. fold (accountAt g a). rewrite Ha. cbn. intros [= <- _]. split; [by eapply calm_dropAccount|].
  intros a' Hne. unfold accountAt. cbn. by rewrite lookup_delete_ne.
Qed.

Lemma ensure_done g m a g' r : calm anyPut g m -> runRam (createOrLocateSwiftAccount a) g = (g', RDone r) -> calm anyPut g' (ensureAccount a m).
Proof.
  intros Hc. cbn. fold (accountAt g a). unfold ensureAccount. destruct (accountAt g a) as [p|] eqn:Ha.
  - intros [= <- _]. destruct (some_account _ _ _ _ _ Hc Ha) as (h & -> & _). done.
  - pose proof (calm_addAccount _ _ _ _ Hc Ha) as Hadd. intros [= <- _].
    rewrite (none_account _ _ _ _ Hc Ha). exact (proj1 Hadd).
Qed.

(** The first loop, over the accounts that there are. *)
Lemma dropLoop_done (X : gset string) l g m g' u : calm anyPut g m -> NoDup l -> (forall a, a ∈ l -> is_Some (accountAt g a)) ->
  runRam (rfor l (fun a => if bool_decide (a ∈ X) then RRet tt else deleteSwiftAccount a true ;;- RRet tt)) g = (g', RDone u) ->
  calm anyPut g' (foldl (fun m a => if bool_decide (a ∈ X) then m else dropAccount a m) m l).
Proof.
  revert g m. induction l as [|a l IH]; intros g m Hc Hnd Hl HR; cbn [rfor foldl] in *; [by injection HR as <- _|].
  apply NoDup_cons in Hnd as [Hni Hnd]. run_step HR. case_bool_decide.
  - injection E as <- _. eapply IH; [done|done|set_solver|exact HR].
  - run_step E. injection E as <- _. destruct (deleteForce_done _ _ _ _ _ Hc (Hl a ltac:(by left)) E0) as [Hc' Hat].
    eapply IH; [done|done| |exact HR]. intros a' Ha'. rewrite Hat by set_solver. apply Hl. by right.
Qed.

Lemma ensureLoop_done l g m g' u : calm anyPut g m ->
  runRam (rfor l (fun a => createOrLocateSwiftAccount a ;;- RRet tt)) g = (g', RDone u) -> calm anyPut g' (foldl (fun m a => ensureAccount a m) m l).
Proof.
  revert g m. induction l as [|a l IH]; intros g m Hc HR; cbn [rfor foldl] in *; [by injection HR as <- _|].
  run_step HR. run_step E. injection E as <- _. eapply IH; [|exact HR]. by eapply ensure_done.
Qed.

(** Stores that agree on every path. *)
Definition agree (m : store) (A : string -> option Header) (C : string -> string -> option Header) (O : string -> string -> string -> option bytes) : Prop :=
  (forall a, st_accounts m !! a = A a) /\ (forall a c, st_containers m !! (a, c) = C a c) /\ (forall a c o, st_objects m !! (a, c, o) = O a c o).

Lemma agree_eq m m' A C O : agree m A C O -> agree m' A C O -> m = m'.
Proof.
  intros (A1 & C1 & O1) (A2 & C2 & O2). destruct m as [a c o], m' as [a' c' o']. cbn in *. f_equal; apply map_eq.
  - intros k. by rewrite A1, A2.
  - intros [k1 k2]. by rewrite C1, C2.
  - intros [[k1 k2] k3]. by rewrite O1, O2.
Qed.

Lemma lookup_filter_if {K V} `{Countable K} (m : gmap K V) (P : K * V -> Prop) `{!forall x, Decision (P x)} (b : bool) k :
  (forall v, P (k, v) <-> b = true) -> filter P m !! k = if b then m !! k else None.
Proof.
  intros Hb. rewrite map_lookup_filter. destruct (m !! k) as [v|]; cbn; [|by destruct b]. specialize (Hb v). destruct b.
  - by rewrite option_guard_True by tauto.
  - by rewrite option_guard_False by (intros HP; by apply Hb in HP).
Qed.

Lemma dropAccount_agree a m : agree (dropAccount a m)
  (fun x => if bool_decide (x <> a) then st_accounts m !! x else None)
  (fun x c => if bool_decide (x <> a) then st_containers m !! (x, c) else None)
  (fun x c o => if bool_decide (x <> a) then st_objects m !! (x, c, o) else None).
Proof.
  split; [|split]; intros x; cbn.
  - case_bool_decide as Hx; [by rewrite lookup_delete_ne by auto|]. subst x. by rewrite lookup_delete_eq.
  - intros c. apply lookup_filter_if. intros v. cbn. by rewrite bool_decide_eq_true.
  - intros c o. apply lookup_filter_if. intros v. cbn. by rewrite bool_decide_eq_true.
Qed.

Lemma dropLoop_agree (X : gset string) (l : list string) m : agree (foldl (fun m a => if bool_decide (a ∈ X) then m else dropAccount a m) m l)
  (fun x => if bool_decide (x ∈ l /\ x ∉ X) then None else st_accounts m !! x)
  (fun x c => if bool_decide (x ∈ l /\ x ∉ X) then None else st_containers m !! (x, c))
  (fun x c o => if bool_decide (x ∈ l /\ x ∉ X) then None else st_objects m !! (x, c, o)).
Proof.
  revert m. induction l as [|a l IH]; intros m; cbn [foldl].
  - split; [|split]; intros; (rewrite bool_decide_false; [done|]); by intros [Hin%elem_of_nil _].
  - destruct (IH (if bool_decide (a ∈ X) then m else dropAccount a m)) as (A & C & O).
    destruct (dropAccount_agree a m) as (DA & DC & DO).
    assert (Hb : forall x, bool_decide (x ∈ a :: l /\ x ∉ X) = (bool_decide (x ∈ l /\ x ∉ X) || negb (bool_decide (a ∈ X)) && bool_decide (x = a))).
    { intros x. apply eq_true_iff_eq. rewrite orb_true_iff, andb_true_iff, negb_true_iff, bool_decide_eq_false, !bool_decide_eq_true, elem_of_cons.
      destruct (decide (x = a)) as [->|]; tauto. }
    split; [|split]; intros; rewrite ?A, ?C, ?O, Hb; destruct (bool_decide (a ∈ X)); cbn [negb andb]; rewrite ?orb_false_r; try done;
      rewrite ?DA, ?DC, ?DO; destruct (bool_decide (_ /\ _)); cbn [orb]; try done; repeat case_bool_decide; congruence.
Qed.

Lemma ensureLoop_agree l m : agree (foldl (fun m a => ensureAccount a m) m l)
  (fun x => match st_accounts m !! x with Some h => Some h | None => if bool_decide (x ∈ l) then Some ∅ else None end)
  (fun x c => st_containers m !! (x, c)) (fun x c o => st_objects m !! (x, c, o)).
Proof.
  revert m. induction l as [|a l IH]; intros m; cbn [foldl].
  - split; [|done]. intros x. rewrite bool_decide_false by (by intros ?%elem_of_nil). by destruct (st_accounts m !! x).
  - destruct (IH (ensureAccount a m)) as (A & C & O). unfold ensureAccount in *. destruct (st_accounts m !! a) as [h|] eqn:Ha.
    + split; [|done]. intros x. rewrite A. destruct (st_accounts m !! x) eqn:Hx; [done|].
      rewrite (bool_decide_ext (x ∈ a :: l) (x ∈ l)); [done|]. rewrite elem_of_cons. split; [intros [->|]; [congruence|done]|auto].
    + split; [|done]. intros x. rewrite A. cbn. destruct (decide (x = a)) as [->|Hne].
      * rewrite lookup_insert_eq, Ha, bool_decide_true; [done|by left].
      * rewrite lookup_insert_ne by done. destruct (st_accounts m !! x); [done|].
        rewrite (bool_decide_ext (x ∈ a :: l) (x ∈ l)); [done|]. rewrite elem_of_cons. naive_solver.
Qed.

Lemma reconfigured_agree X m : agree (reconfigured X m)
  (fun x => if bool_decide (x ∈ X) then Some (default ∅ (st_accounts m !! x)) else None)
  (fun x c => if bool_decide (x ∈ X) then st_containers m !! (x, c) else None)
  (fun x c o => if bool_decide (x ∈ X) then st_objects m !! (x, c, o) else None).
Proof.
  split; [|split]; intros x; cbn.
  - rewrite lookup_union, (lookup_filter_if _ _ (bool_decide (x ∈ X))) by (intros v; cbn; by rewrite bool_decide_eq_true).
    rewrite lookup_gset_to_gmap. case_bool_decide as Hx; [rewrite option_guard_True by done|by rewrite option_guard_False by done].
    by destruct (st_accounts m !! x).
  - intros c. apply lookup_filter_if. intros v. cbn. by rewrite bool_decide_eq_true.
  - intros c o. apply lookup_filter_if. intros v. cbn. by rewrite bool_decide_eq_true.
Qed.

(** The two loops of a change make the accounts those of [X]: containers and
    objects are in accounts that there are. *)
Lemma loops_reconfigure X l l' m : (forall x, x ∈ l <-> is_Some (st_accounts m !! x)) -> (forall x, x ∈ l' <-> x ∈ X) ->
  (forall x c, st_accounts m !! x = None -> st_containers m !! (x, c) = None) ->
  (forall x c o, st_accounts m !! x = None -> st_objects m !! (x, c, o) = None) ->
  foldl (fun m a => ensureAccount a m) (foldl (fun m a => if bool_decide (a ∈ X) then m else dropAccount a m) m l) l' = reconfigured X m.
Proof.
  intros Hl Hl' HC HO. set (m1 := foldl _ m l). destruct (dropLoop_agree X l m) as (A1 & C1 & O1). fold m1 in A1, C1, O1.
  destruct (ensureLoop_agree l' m1) as (A2 & C2 & O2).
  assert (Hgone : forall B (x : string) (v : option B), (st_accounts m !! x = None -> v = None) ->
    (if bool_decide (x ∈ l /\ x ∉ X) then None else v) = if bool_decide (x ∈ X) then v else None).
  { intros B x v Hv. repeat case_bool_decide; try tauto. apply Hv. destruct (st_accounts m !! x) eqn:E; [|done].
    exfalso. assert (x ∈ l) by (apply Hl; eauto). tauto. }
  eapply agree_eq; [|apply reconfigured_agree]. split; [|split]; intros.
  - rewrite A2, A1, Hgone by done. rewrite (bool_decide_ext (a ∈ l') (a ∈ X)) by apply Hl'.
    case_bool_decide; [|done]. by destruct (st_accounts m !! a).
  - rewrite C2, C1. by apply Hgone, HC.
  - rewrite O2, O1. by apply Hgone, HO.
Qed.

(** Steps that do not touch the store. *)
Definition keepsStore {A} (p : ramProg A) : Prop := forall g m g' a, calm anyPut g m -> runRam p g = (g', RDone a) -> calm anyPut g' m.

Lemma keepsStore_bind {A B} (p : ramProg A) (k : A -> ramProg B) : keepsStore p -> (forall a, keepsStore (k a)) -> keepsStore (rbind p k).
Proof. intros Hp Hk g m g' b Hc HR. apply runRam_bind_done in HR as (g1 & a & E & HR). eapply Hk, HR. by eapply Hp. Qed.

Lemma keepsStore_rput f : (forall g, accountHeap (f g) = accountHeap g /\ containerHeap (f g) = containerHeap g /\ objectHeap (f g) = objectHeap g
  /\ swiftAccountMap (f g) = swiftAccountMap g) -> keepsStore (rput f).
Proof. intros Hf g m g' [] Hc HR. injection HR as <-. destruct (Hf g) as (? & ? & ? & ?). by eapply calm_same. Qed.

Lemma keepsStore_fetched {A} (r : res A) : keepsStore (fetched r).
Proof. intros g m g' a Hc [-> _]%fetched_done. done. Qed.

Lemma fetchChaosSettings_keeps confMap : keepsStore (fetchChaosSettings confMap).
Proof. unfold fetchChaosSettings. repeat (apply keepsStore_bind; [by apply keepsStore_rput|intros _]). by apply keepsStore_rput. Qed.

Lemma fetchLength_keeps confMap name f : (forall n g, accountHeap (f n g) = accountHeap g /\ containerHeap (f n g) = containerHeap g
  /\ objectHeap (f n g) = objectHeap g /\ swiftAccountMap (f n g) = swiftAccountMap g) -> keepsStore (fetchLength confMap name f).
Proof.
  intros Hf. apply keepsStore_bind; [apply keepsStore_fetched|]. intros n. apply keepsStore_bind; [by apply keepsStore_rput|]. intros _.
  destruct (n >? maxInt); intros g m g' a Hc HR; [done|]. by injection HR as <- _.
Qed.

Lemma fetchSwiftInfo_keeps confMap : keepsStore (fetchSwiftInfo confMap).
Proof.
  unfold fetchSwiftInfo. apply keepsStore_bind; [by apply fetchLength_keeps|]. intros _.
  apply keepsStore_bind; [by apply fetchLength_keeps|]. intros _. by apply fetchLength_keeps.
Qed.

(** A change of configuration that ends leaves exactly the accounts of the
    volumes that this peer serves: those that there were keep their headers,
    containers and objects, new ones are empty, and the others are gone with all
    that was in them. *)
Theorem updateConf_reconfigures `{!MapRange} `{!MapRangeOk} confMap namespaced g m g' : calm anyPut g m ->
  runRam (updateConf confMap namespaced) g = (g', RDone tt) ->
  exists volumeList X, volumeListOf confMap = Ret volumeList
    /\ (forall name, name ∈ X <-> accountServed confMap namespaced (rg_whoAmI g) volumeList name)
    /\ calm anyPut g' (reconfigured X m).
Proof.
  intros Hc HR. unfold updateConf in HR. run_step HR. run_step HR. destruct (negb _); [done|]. run_step HR. run_step HR.
  destruct (negb _); [done|]. run_step HR. run_step HR. apply runRam_bind_done in HR as (g1 & X & EX & HR).
  destruct (accountsOf_done _ _ _ _ _ _ EX) as [-> HX]. eexists _, X. split; [eassumption|]. split; [exact HX|].
  apply runRam_bind_done in HR as (g2 & u2 & E2 & HR). apply runRam_bind_done in HR as (g3 & u3 & E3 & HR).
  apply runRam_bind_done in HR as (g4 & u4 & E4 & HR).
  assert (Hdom : forall x, x ∈ rangeKeys (dom (swiftAccountMap g)) <-> is_Some (accountAt g x)) by (intros x; by rewrite rangeKeys_elem, elem_of_dom).
  pose proof (dropLoop_done X _ _ _ _ _ Hc (rangeKeys_nodup _) (fun a Ha => proj1 (Hdom a) Ha) E2) as Hc2.
  pose proof (ensureLoop_done _ _ _ _ _ Hc2 E3) as Hc3. rewrite loops_reconfigure in Hc3; [| | | |].
  - eapply fetchSwiftInfo_keeps, HR. eapply fetchChaosSettings_keeps, E4. exact Hc3.
  - intros x. rewrite Hdom, (mo_accounts _ _ (ca_models _ _ _ Hc)). by rewrite fmap_is_Some.
  - intros x. apply rangeKeys_elem.
  - intros x c Hx. eapply no_container; [exact Hc|]. rewrite (mo_accounts _ _ (ca_models _ _ _ Hc)) in Hx. by apply fmap_None in Hx.
  - intros x c o Hx. eapply no_object_account; [exact Hc|]. rewrite (mo_accounts _ _ (ca_models _ _ _ Hc)) in Hx. by apply fmap_None in Hx.
Qed.

(** ** A range past the end of an object *)

Definition namesObject (path a c o : string) : Prop :=
  parsePath path = (false, a, c, o) /\ a <> EmptyString /\ c <> EmptyString /\ o <> EmptyString.

Lemma namesObject_branches path a c o : namesObject path a c o ->
  parsePath path = (false, a, c, o) /\ String.eqb a EmptyString = false /\ String.eqb c EmptyString = false /\ String.eqb o EmptyString = false.
Proof. intros (? & ? & ? & ?). by rewrite !String.eqb_neq. Qed.

(** A GET or a PUT of an object that is there comes to the mutex of the object. *)
Lemma run_doGet_object request g a c o p : namesObject (request_Path request) a c o -> objectAt g a c o = Some p ->
  struck Object VGet (bumpCount Object VGet g) = false ->
  runRam (doGet request) g = runRam (withObject p (fun object =>
    match readContents (request_Header request) (contents object) with Some response => Some (object, response) | None => None end))
    (bumpCount Object VGet g).
Proof.
  intros (Hpath & Ea & Ec & Eo)%namesObject_branches (q & Hq & Ho)%objectAt_inv Hs. apply containerAt_inv in Hq as (pa & Ha & Hc).
  unfold doGet. rewrite Hpath, Ea, Ec, Eo. unfold accountAt in Ha. cbn [rbind locateSwiftAccount atomically runRam]. rewrite Ha.
  cbn [located rbind locateSwiftContainer atomically runRam]. rewrite Hc.
  cbn [located withChaos rbind atomically runRam]. rewrite Hs. cbn [rbind locateSwiftObject atomically runRam].
  change (containerOf (bumpCount Object VGet g)) with (containerOf g). by rewrite Ho.
Qed.

Lemma run_doPut_object request g a c o p : namesObject (request_Path request) a c o -> objectAt g a c o = Some p ->
  struck Object VPut (bumpCount Object VPut g) = false ->
  runRam (doPut request) g = runRam (withObject p (fun object => Some (object <| contents := request_Body request |>, tt)) ;;- RRet (created false))
    (bumpCount Object VPut g).
Proof.
  intros (Hpath & Ea & Ec & Eo)%namesObject_branches (q & Hq & Ho)%objectAt_inv Hs. apply containerAt_inv in Hq as (pa & Ha & Hc).
  unfold doPut. rewrite Hpath, Ea, Ec, Eo. cbn [orb]. unfold accountAt in Ha. cbn [rbind locateSwiftAccount atomically runRam]. rewrite Ha.
  cbn [located withChaos rbind atomically runRam]. rewrite Hs. cbn [rbind locateSwiftContainer atomically runRam].
  change (accountOf (bumpCount Object VPut g)) with (accountOf g). rewrite Hc.
  cbn [located rbind createOrLocateSwiftObject atomically runRam]. change (containerOf (bumpCount Object VPut g)) with (containerOf g).
  rewrite Ho. cbn [rbind locateSwiftContainer atomically runRam]. done.
Qed.

(** A GET whose range starts behind the end of the object panics with the
    mutex of the object locked; while the object is there, every later GET and PUT
    of it waits for ever, unless it fails on purpose. *)
Theorem range_past_end_blocks_object request g m a c o data : calm anyPut g m ->
  request_Method request = "GET"%string -> namesObject (request_Path request) a c o ->
  st_objects m !! (a, c, o) = Some data -> readContents (request_Header request) data = None ->
  struck Object VGet (bumpCount Object VGet g) = false ->
  exists g', runRam (ServeHTTP request) g = (g', RPanicked)
    /\ forall later v, request_Method later = "GET"%string /\ v = VGet \/ request_Method later = "PUT"%string /\ v = VPut ->
       namesObject (request_Path later) a c o -> struck Object v (bumpCount Object v g') = false ->
       exists g2, runRam (ServeHTTP later) g' = (g2, RBlocked).
Proof.
  intros Hc HM Hn Hd Hr Hs. destruct (objectAt g a c o) as [p|] eqn:Ho; [|by rewrite (none_object _ g m a c o Hc Ho) in Hd].
  rewrite (some_object _ g m a c o p Hc Ho) in Hd. injection Hd as <-.
  destruct (objectAt_is _ _ _ _ _ _ (ca_typed _ _ _ Hc) Ho) as (b & Hb & _).
  assert (Eb : objectOf g p = b) by (unfold objectOf; by rewrite Hb). rewrite Eb in Hr.
  exists (modObject p (fun object => object <| object_locked := true |>) (bumpCount Object VGet g)). split.
  - unfold ServeHTTP. rewrite HM. cbn [String.eqb Ascii.eqb Bool.eqb]. rewrite (run_doGet_object _ _ _ _ _ _ Hn Ho Hs).
    unfold withObject. cbn [rbind runRam]. change (objectOf (bumpCount Object VGet g)) with (objectOf g).
    rewrite Eb, (ca_unlocked _ _ _ Hc _ _ Hb), Hr. done.
  - intros later v HMv Hn' Hs'. set (g' := modObject _ _ _) in *. assert (Ho' : objectAt g' a c o = Some p) by exact Ho.
    assert (Hlock : object_locked (objectOf g' p) = true) by (unfold objectOf; cbn; by rewrite list_lookup_alter_eq, Hb).
    unfold ServeHTTP. destruct HMv as [[-> ->]|[-> ->]]; cbn [String.eqb Ascii.eqb Bool.eqb].
    + rewrite (run_doGet_object _ _ _ _ _ _ Hn' Ho' Hs'). unfold withObject. cbn [rbind runRam].
      change (objectOf (bumpCount Object VGet g')) with (objectOf g'). rewrite Hlock. by eexists.
    + rewrite (run_doPut_object _ _ _ _ _ _ Hn' Ho' Hs'). unfold withObject. cbn [rbind runRam].
      change (objectOf (bumpCount Object VPut g')) with (objectOf g'). rewrite Hlock. by eexists.
Qed.
