(* ===== verification/RamSwiftInstance.v ===== *)
(** An emulator that is started from a file, serves requests that interleave,
    and gets a change of configuration. *)

From stdpp Require Import sorting.
From S2P Require Import Prelude SortedMap Blunder Utils GoStrings Conf ConfFacts ConfSections RamSwift RamSwiftFacts RamSwiftSpec.
Open Scope list_scope.

(** ** Schedules *)

Inductive move := MArrive (request : swiftRequest) | MClient (i : nat) | MServer.

Definition moveWorld (mv : move) (w : ramWorld) : ramWorld :=
  if negb (rw_alive w) then w else
  match mv with
  | MArrive request => match rw_server w with RRet tt => w <| rw_clients := rw_clients w ++ [(request, ServeHTTP request)] |> | _ => w end
  | MClient i =>
      match rw_clients w !! i with
      | Some (request, p) =>
          match stepRam p (rw_globals w) with
          | Some (g, p') => w <| rw_globals := g |> <| rw_clients := <[i := (request, p')]> (rw_clients w) |>
          | None => w
          end
      | None => w
      end
  | MServer => match stepRam (rw_server w) (rw_globals w) with Some (g, p') => w <| rw_globals := g |> <| rw_server := p' |> | None => w end
  end.

Definition runMoves (moves : list move) (w : ramWorld) : ramWorld := foldl (fun w mv => moveWorld mv w) w moves.

Section Schedules.
Context `{!MapRange} (confFile : string) (confStrings : list string) (arrives : swiftRequest -> Prop) (configured : ConfFiles -> Prop).

Lemma moveWorld_reach mv w : (forall request, mv = MArrive request -> arrives request) ->
  rreach confFile confStrings arrives configured w -> rreach confFile confStrings arrives configured (moveWorld mv w).
Proof.
  intros Harr Hw. unfold moveWorld. destruct (rw_alive w) eqn:Hal; [|done]. cbn [negb]. destruct mv as [request|i|].
  - destruct (rw_server w) as [[]| | |] eqn:Hs; try done. eapply rreach_step; [done|]. apply rstep_arrive; auto.
  - destruct (rw_clients w !! i) as [[request p]|] eqn:Hi; [|done]. destruct (stepRam p (rw_globals w)) as [[g p']|] eqn:Hp; [|done].
    eapply rreach_step; [done|]. by eapply rstep_client.
  - destruct (stepRam (rw_server w) (rw_globals w)) as [[g p']|] eqn:Hp; [|done]. eapply rreach_step; [done|]. by eapply rstep_server.
Qed.

Lemma runMoves_reach moves w : Forall (fun mv => forall request, mv = MArrive request -> arrives request) moves ->
  rreach confFile confStrings arrives configured w -> rreach confFile confStrings arrives configured (runMoves moves w).
Proof.
  revert w. induction moves as [|mv moves IH]; intros w Harr Hw; [done|]. apply Forall_cons in Harr as [H1 H2].
  apply IH; [done|]. by apply moveWorld_reach.
Qed.
End Schedules.

(** ** A configuration *)

Definition ramSections (volumeList : list string) (accounts : list (string * string)) : list (string * list (string * ConfMapOption)) :=
  [("Cluster", [("WhoAmI", ["Peer0"])]);
    ("FSGlobals", [("VolumeList", volumeList)]);
    ("Peer:Peer0", [("PublicIPAddr", ["127.0.0.1"])]);
    ("RamSwiftInfo", [("MaxAccountNameLength", ["256"]); ("MaxContainerNameLength", ["256"]); ("MaxObjectNameLength", ["1024"])]);
    ("SwiftClient", [("NoAuthTCPPort", ["9999"])])]%string
  ++ map (fun va => ("Volume:" ++ va.1, [("AccountName", [va.2]); ("PrimaryPeer", ["Peer0"])])%string) accounts.

Definition ramFiles (volumeList : list string) (accounts : list (string * string)) : ConfFiles :=
  filesOf {[ "/etc/ram.conf"%string := dumpConfMap (ramSections volumeList accounts) ]} 10.

Definition ramFiles1 : ConfFiles := ramFiles ["V1"]%string [("V1", "AUTH_a")]%string.

Definition putOf (path : string) (data : bytes) : swiftRequest := mkSwiftRequest "PUT" path ∅ data.
Definition getOf (path : string) (header : Header) : swiftRequest := mkSwiftRequest "GET" path header [].
Definition deleteRequest (path : string) : swiftRequest := mkSwiftRequest "DELETE" path ∅ [].

Definition rangeOf (value : string) : Header := {[ "Range"%string := [value] ]}.

Definition ramStarted : ramWorld := runMoves (replicate 60 MServer) (Daemon "/etc/ram.conf" [] ramFiles1).

(** A container, an object in it, and two reads. *)
Definition ramSteps : list move :=
  [MArrive (putOf "/v1/AUTH_a/c" [])] ++ replicate 8 (MClient 0)
  ++ [MArrive (putOf "/v1/AUTH_a/c/o" [104; 101; 108; 108; 111])] ++ replicate 10 (MClient 1)
  ++ [MArrive (getOf "/v1/AUTH_a/c/o" (rangeOf "bytes=1-2")); MArrive (getOf "/v1/AUTH_a/c/o" (rangeOf "bytes=9-"))]
  ++ replicate 10 (MClient 2) ++ replicate 10 (MClient 3).

Definition ramServed : ramWorld := runMoves ramSteps ramStarted.

Definition anyRequest (_ : swiftRequest) : Prop := True.
Definition onlyFiles (files : ConfFiles) : Prop := files = ramFiles1.

Lemma ramServed_reach : rreach "/etc/ram.conf" [] anyRequest onlyFiles ramServed.
Proof.
  unfold ramServed, ramStarted. apply runMoves_reach; [by apply Forall_true|]. apply runMoves_reach; [by apply Forall_true|].
  by apply rreach_start.
Qed.

Lemma ramServed_clients : exists p0 p1,
  rw_clients ramServed =
    [(putOf "/v1/AUTH_a/c" [], p0); (putOf "/v1/AUTH_a/c/o" [104; 101; 108; 108; 111], p1);
     (getOf "/v1/AUTH_a/c/o" (rangeOf "bytes=1-2"),
      RRet (mkSwiftResponse StatusPartialContent {[ "Content-Range"%string := ["bytes 1-2/5"%string] ]} [101; 108]));
     (getOf "/v1/AUTH_a/c/o" (rangeOf "bytes=9-"), RPanic)]
  /\ p0 = RRet (plainStatus StatusCreated) /\ p1 = RRet (plainStatus StatusCreated).
Proof. eexists _, _. split; [vm_compute; reflexivity|]. split; vm_compute; reflexivity. Qed.

(** ** A PUT that is lost *)

Definition lostPut : swiftRequest := putOf "/v1/AUTH_a/c/o" [120].
Definition lostDelete : swiftRequest := deleteRequest "/v1/AUTH_a/c".
Definition lostGet : swiftRequest := getOf "/v1/AUTH_a/c/o" ∅.

(** The container is deleted between the lookups of the PUT and its creation of
    the object. *)
Definition lostSteps : list move :=
  [MArrive (putOf "/v1/AUTH_a/c" [])] ++ replicate 8 (MClient 0)
  ++ [MArrive lostPut] ++ replicate 3 (MClient 1)
  ++ [MArrive lostDelete] ++ replicate 8 (MClient 2) ++ replicate 8 (MClient 1)
  ++ [MArrive lostGet] ++ replicate 8 (MClient 3).

Lemma objectsOf_elem m a c o : o ∈ objectsOf m a c <-> is_Some (st_objects m !! (a, c, o)).
Proof.
  unfold objectsOf, sortNames. rewrite merge_sort_Permutation. exact (proj2 (keys_under (st_objects m) (a, c) _ eq_refl) o).
Qed.

Lemma specPut_then_Delete a c o header data m :
  (specPut (TObject a c o) header data m).2 = plainStatus StatusForbidden
  \/ (specDelete (TContainer a c) (specPut (TObject a c o) header data m).1).2 = plainStatus StatusConflict.
Proof.
  cbn [specPut]. destruct (st_containers m !! (a, c)) as [h|] eqn:Hc; [|by left]. right. cbn [fst specDelete].
  rewrite decide_True by (cbn; rewrite Hc; eauto). destruct (objectsOf _ a c) as [|x l] eqn:E; [|done]. exfalso.
  assert (Hin : o ∈ @nil string) by (rewrite <- E; apply objectsOf_elem; cbn; rewrite lookup_insert_eq; eauto). by apply elem_of_nil in Hin.
Qed.

Lemma specDelete_then_Put a c o header data m :
  (specDelete (TContainer a c) m).2 = plainStatus StatusConflict
  \/ (specPut (TObject a c o) header data (specDelete (TContainer a c) m).1).2 = plainStatus StatusForbidden.
Proof.
  cbn [specDelete]. destruct (decide (is_Some (st_containers m !! (a, c)))) as [Hc|Hc].
  - destruct (objectsOf m a c); [|by left]. right. cbn [fst specPut]. cbn. by rewrite lookup_delete_eq.
  - right. cbn [fst specPut]. destruct (st_containers m !! (a, c)) eqn:E; [|done]. exfalso. apply Hc. eauto.
Qed.

(** Requests are not atomic: a PUT of an object and a DELETE of its container
    that run at the same time are answered with 201 and 204, and the object is
    gone.  In whatever order a client alone sends the two, one of them is refused. *)
Theorem put_and_delete_not_atomic :
  (exists w, rreach "/etc/ram.conf" [] anyRequest onlyFiles w
     /\ rw_clients w !! 1%nat = Some (lostPut, RRet (plainStatus StatusCreated))
     /\ rw_clients w !! 2%nat = Some (lostDelete, RRet (plainStatus StatusNoContent))
     /\ rw_clients w !! 3%nat = Some (lostGet, RRet (plainStatus StatusNotFound)))
  /\ (forall info m,
        (specServe info lostPut m).2 = Some (plainStatus StatusForbidden)
        \/ (specServe info lostDelete (specServe info lostPut m).1).2 = Some (plainStatus StatusConflict))
  /\ (forall info m,
        (specServe info lostDelete m).2 = Some (plainStatus StatusConflict)
        \/ (specServe info lostPut (specServe info lostDelete m).1).2 = Some (plainStatus StatusForbidden)).
Proof.
  split; [|split].
  - exists (runMoves lostSteps ramStarted). split; [|split; [|split]]; try (vm_compute; reflexivity).
    apply runMoves_reach; [by apply Forall_true|]. apply runMoves_reach; [by apply Forall_true|]. by apply rreach_start.
  - intros info m. destruct (specPut_then_Delete "AUTH_a" "c" "o" ∅ [120] m) as [E|E]; [left|right]; exact (f_equal Some E).
  - intros info m. destruct (specDelete_then_Put "AUTH_a" "c" "o" ∅ [120] m) as [E|E]; [left|right]; exact (f_equal Some E).
Qed.

(** ** States that stand for a store *)

Definition emptyStore : store := mkStore ∅ ∅ ∅.

Lemma blank_calm : calm anyPut blankRam emptyStore.
Proof.
  split.
  - split; [by intros ? ? ?..|right; intros [] []; done].
  - by intros ? ? ?.
  - by split.
Qed.

(** The state after a request that is answered and not counted out. *)
Lemma calm_next request g m : calm anyPut g m -> (forall r v, struck r v (bumpCount r v g) = false) ->
  (specServe (swiftInfo g) request m).2 <> None ->
  calm anyPut (runRam (ServeHTTP request) g).1 (specServe (swiftInfo g) request m).1.
Proof.
  intros Hc Hs Hn. pose proof (ServeHTTP_refines anyPut request g m Hc (fun _ _ _ => I)) as Ho. unfold outcome, serves in Ho.
  destruct (specServe _ request m) as [m' [response|]]; [|done]. cbn [fst snd] in *.
  destruct (kindOf request m) as [[r v]|]; rewrite ?Hs in Ho; destruct Ho as (g' & -> & Hc'); exact Hc'.
Qed.

Definition ramNext (w : globalsStruct * store) (request : swiftRequest) : globalsStruct * store :=
  ((runRam (ServeHTTP request) w.1).1, (specServe (swiftInfo w.1) request w.2).1).

(** An account with a container with an object. *)
Definition ramSample : globalsStruct * store :=
  foldl ramNext (blankRam, emptyStore)
    [putOf "/v1/AUTH_a" []; putOf "/v1/AUTH_a/c" []; putOf "/v1/AUTH_a/c/o" [104; 101; 108; 108; 111]].

Lemma ramNext_calm request w : calm anyPut w.1 w.2 -> (forall r v, struck r v (bumpCount r v w.1) = false) ->
  (specServe (swiftInfo w.1) request w.2).2 <> None -> calm anyPut (ramNext w request).1 (ramNext w request).2.
Proof. apply calm_next. Qed.

Lemma ramSample_calm : calm anyPut ramSample.1 ramSample.2.
Proof.
  unfold ramSample. cbn [foldl].
  apply ramNext_calm; [|intros [] []; vm_compute; reflexivity|vm_compute; discriminate].
  apply ramNext_calm; [|intros [] []; vm_compute; reflexivity|vm_compute; discriminate].
  apply ramNext_calm; [exact blank_calm|intros [] []; vm_compute; reflexivity|vm_compute; discriminate].
Qed.

Lemma ramSample_quiet r v : struck r v (bumpCount r v ramSample.1) = false.
Proof. destruct r, v; vm_compute; reflexivity. Qed.

(** ** Witnesses *)

Lemma emulator_typed_witness : ramTyped True (putBy anyRequest) (rw_globals ramServed) /\ length (objectHeap (rw_globals ramServed)) = 1%nat.
Proof. split; [exact (emulator_typed _ _ _ _ _ ramServed_reach)|vm_compute; reflexivity]. Defined.

Lemma reads_are_not_torn_witness :
  answersPut (putBy anyRequest) (getOf "/v1/AUTH_a/c/o" (rangeOf "bytes=1-2"))
    (mkSwiftResponse StatusPartialContent {[ "Content-Range"%string := ["bytes 1-2/5"%string] ]} [101; 108]).
Proof.
  refine (reads_are_not_torn _ _ _ _ _ 2%nat _ _ ramServed_reach _).
  destruct ramServed_clients as (p0 & p1 & E & _). by rewrite E.
Defined.

Lemma ramFiles1_good files : onlyFiles files -> goodFiles "/etc/ram.conf" [] files.
Proof.
  intros -> confMap namespaced HR. unfold goodConf.
  destruct (FetchOptionValueUint16 confMap "RamSwiftChaos" "FailureHTTPStatus") as [status| |] eqn:E; [|done..]. exfalso.
  assert (Hno : match @ramConf ramFiles1 "/etc/ram.conf" [] with
                | Ret (c, _) => FetchOptionValueUint16 c "RamSwiftChaos" "FailureHTTPStatus" = Err plain | _ => True end) by (vm_compute; reflexivity).
  rewrite HR in Hno. congruence.
Qed.



Lemma range_past_end_witness : exists g', runRam (ServeHTTP (getOf "/v1/AUTH_a/c/o" (rangeOf "bytes=9-"))) ramSample.1 = (g', RPanicked)
  /\ exists g2, runRam (ServeHTTP (putOf "/v1/AUTH_a/c/o" [1])) g' = (g2, RBlocked).
Proof.
  destruct (range_past_end_blocks_object (getOf "/v1/AUTH_a/c/o" (rangeOf "bytes=9-")) ramSample.1 ramSample.2 "AUTH_a" "c" "o" [104; 101; 108; 108; 111])
    as (g' & HR & Hlater); [exact ramSample_calm|done|by repeat split|vm_compute; reflexivity|vm_compute; reflexivity|apply ramSample_quiet|].
  exists g'. split; [exact HR|]. assert (E : g' = (runRam (ServeHTTP (getOf "/v1/AUTH_a/c/o" (rangeOf "bytes=9-"))) ramSample.1).1) by by rewrite HR.
  apply (Hlater (putOf "/v1/AUTH_a/c/o" [1]) VPut); [by right|by repeat split|]. rewrite E. vm_compute. reflexivity.
Defined.

(** The volume gets another account. *)
Definition ramConfMap (volumeList : list string) (accounts : list (string * string)) : ConfMap := confMapOf (ramSections volumeList accounts).

Definition asPeer (g : globalsStruct) : globalsStruct := g <| rg_whoAmI := "Peer0"%string |> <| noAuthTCPPort := 9999 |>.

Lemma asPeer_calm g m : calm anyPut g m -> calm anyPut (asPeer g) m.
Proof. by apply calm_same. Qed.

Definition ramPeer : globalsStruct := asPeer ramSample.1.

Definition ramUpdated : globalsStruct :=
  (runRam (updateConf (ramConfMap ["V1"; "V2"] [("V1", "AUTH_a"); ("V2", "AUTH_b")])%string true) ramPeer).1.

Lemma updateConf_reconfigures_witness : exists X, calm anyPut ramUpdated (reconfigured X ramSample.2) /\ "AUTH_b"%string ∈ X.
Proof.
  destruct (updateConf_reconfigures (ramConfMap ["V1"; "V2"] [("V1", "AUTH_a"); ("V2", "AUTH_b")])%string true ramPeer ramSample.2 ramUpdated)
    as (volumeList & X & HL & HX & Hc).
  - exact (asPeer_calm _ _ ramSample_calm).
  - vm_compute. reflexivity.
  - exists X. split; [exact Hc|]. apply HX. exists "V2"%string. vm_compute in HL. injection HL as <-. split; [right; left|]. split; vm_compute; reflexivity.
Defined.

From S2P Require Import SwiftHttp SwiftHttpFacts SwiftPool SwiftRequests.
From Stdlib Require Import Ascii.

(** ** What [swiftclient] asks of the emulator

    The paths, ranges and listings that [swiftclient] writes and reads are those
    that the emulator reads and writes. *)

Lemma substring_all s : forall n, (String.length s <= n)%nat -> String.substring 0 n s = s.
Proof. induction s as [|c s IH]; intros [|n] Hn; cbn in *; try done; [lia|]. by rewrite IH by lia. Qed.

Lemma prefix_empty s : String.prefix EmptyString s = true.
Proof. by destruct s. Qed.

(** A path under /v1/ whose rest is [s]. *)
Lemma parsePath_v1 s : parsePath ("/v1/" +:+ s) =
  match SplitN slash 3 s with
  | [a] => (false, a, EmptyString, EmptyString)
  | [a; c] => (false, a, c, EmptyString)
  | a :: c :: o :: _ => (false, a, c, o)
  | [] => (false, EmptyString, EmptyString, EmptyString)
  end.
Proof.
  unfold parsePath. change ("/v1/" +:+ s) with (String "/" (String "v" (String "1" (String "/" s)))).
  cbn [String.eqb Ascii.eqb Bool.eqb String.prefix]. cbn [String.length String.substring]. rewrite prefix_empty.
  repeat (destruct (Ascii.ascii_dec _ _) as [_|Hn]; [|by destruct Hn]). by rewrite substring_all by lia.
Qed.

Lemma parsePath_object a c o : lacks slash a -> lacks slash c -> parsePath (objectPath a c o) = (false, a, c, o).
Proof.
  intros Ha Hc. change (objectPath a c o) with ((("/v1/" +:+ a) +:+ String slash c) +:+ String slash o).
  rewrite <- !string_app_assoc. change (String slash c +:+ String slash o) with (String slash (c +:+ String slash o)).
  rewrite parsePath_v1. cbn [SplitN]. by rewrite !cutAt_app by done.
Qed.

Lemma targetOf_object a c o : lacks slash a -> lacks slash c -> a <> EmptyString -> c <> EmptyString -> o <> EmptyString ->
  targetOf (objectPath a c o) = TObject a c o.
Proof.
  intros Ha Hc Ea Ec Eo. unfold targetOf. rewrite parsePath_object by done. apply String.eqb_neq in Ea, Ec, Eo. by rewrite Ea, Ec, Eo.
Qed.

Lemma FormatUint_lacks sep v : byteOfAscii sep < 48 -> lacks sep (FormatUint v).
Proof.
  intros Hs. apply lacks_chars. eapply allChars_mono; [|by apply digitsLoop_chars]. cbn beta. intros d Hd ->. apply hexChar_byte in Hd. lia.
Qed.

Lemma offsetOf_FormatUint v : 0 <= v <= maxInt -> offsetOf (FormatUint v) = Ret v.
Proof.
  intros Hv. unfold offsetOf. rewrite Atoi_FormatUint by done. unfold FormatUint. by destruct (digitsLoop_cons 63 10 v) as (d & s & ->).
Qed.

(** The ranges of [objectGet] and [objectTail]. *)
Lemma parseRangeHeader_range value : parseRangeHeader (rangeHeader ("bytes=" +:+ value)) =
  match SplitN "-" 2 value with
  | [first; last] =>
      startOffset <- offsetOf first ;;
      stopOffset <- offsetOf last ;;
      if (startOffset <? 0) && (stopOffset <? 0) then Err plain else Ret (Some (startOffset, stopOffset))
  | _ => Err plain
  end.
Proof.
  unfold parseRangeHeader, headerGet, rangeHeader. rewrite lookup_singleton_eq.
  change ("bytes=" +:+ value) with (String "b" (String "y" (String "t" (String "e" (String "s" (String "=" value)))))).
  cbn [String.eqb String.prefix]. cbn [String.length String.substring]. rewrite prefix_empty.
  repeat (destruct (Ascii.ascii_dec _ _) as [_|Hn]; [|by destruct Hn]). by rewrite substring_all by lia.
Qed.

Lemma parseRangeHeader_get first last : 0 <= first <= maxInt -> 0 <= last <= maxInt ->
  parseRangeHeader (rangeHeader ("bytes=" +:+ (FormatUint first +:+ String "-" (FormatUint last)))) = Ret (Some (first, last)).
Proof.
  intros Hf Hl. rewrite parseRangeHeader_range. cbn [SplitN]. rewrite cutAt_app by by apply FormatUint_lacks.
  rewrite !offsetOf_FormatUint by done. cbn [obind]. by rewrite (proj2 (Z.ltb_ge first 0)) by lia.
Qed.

Lemma parseRangeHeader_tail n : 0 <= n <= maxInt ->
  parseRangeHeader (rangeHeader ("bytes=" +:+ String "-" (FormatUint n))) = Ret (Some (-1, n)).
Proof.
  intros Hn. rewrite parseRangeHeader_range. cbn [SplitN cutAt]. change (Ascii.eqb "-" "-") with true. cbn [SplitN].
  rewrite offsetOf_FormatUint by done. cbn [offsetOf String.eqb obind]. by rewrite (proj2 (Z.ltb_ge n 0)), andb_false_r by lia.
Qed.

(** What the emulator stores and sends for a Go [[]byte] that fits in memory. *)
Lemma slice_range data offset length : 0 <= offset <= zlen data -> 0 <= length -> offset + length <= zlen data ->
  slice data offset (offset + length) = Some (take (Z.to_nat length) (drop (Z.to_nat offset) data)).
Proof.
  intros Ho Hl Hb. unfold slice. rewrite !(proj2 (Z.leb_le _ _)) by lia. cbn [andb]. by replace (offset + length - offset) with length by lia.
Qed.

Lemma formatInt_nonneg v : 0 <= v -> formatInt v = FormatUint v.
Proof. intros Hv. unfold formatInt. by rewrite (proj2 (Z.ltb_ge v 0)). Qed.

Lemma parseContentRange_contentRange first last size : 0 <= first <= maxInt -> 0 <= last <= maxInt -> 0 <= size <= maxInt ->
  parseContentRange {[ "Content-Range"%string := [contentRange first last size] ]} = Ret (first, last, size).
Proof.
  intros Hf Hl Hs. unfold parseContentRange. rewrite lookup_singleton_eq. unfold contentRange. rewrite !formatInt_nonneg by lia.
  set (text := (FormatUint first +:+ String "-" (FormatUint last)) +:+ String "/" (FormatUint size)).
  replace ("bytes " ++ FormatUint first ++ "-" ++ FormatUint last ++ "/" ++ FormatUint size)%string with ("bytes " +:+ text)
    by (unfold text; by rewrite <- string_app_assoc).
  change ("bytes " +:+ text) with (String "b" (String "y" (String "t" (String "e" (String "s" (String " " text)))))).
  cbn [String.length bytesPrefix Nat.ltb Nat.leb String.substring]. rewrite substring_all by lia. unfold text. cbn [SplitN].
  assert (Hn : lacks "/" (FormatUint first +:+ String "-" (FormatUint last))).
  { apply lacks_chars. apply allChars_app. split; [|split; [done|]];
      (eapply allChars_mono; [|by apply digitsLoop_chars]); intros d Hd ->; apply hexChar_byte in Hd; vm_compute in Hd; by destruct Hd. }
  rewrite cutAt_app by done. rewrite cutAt_app by by apply FormatUint_lacks. by rewrite !Atoi_FormatUint by done.
Qed.

Lemma readContents_range header contents startOffset stopOffset first last body :
  parseRangeHeader header = Ret (Some (startOffset, stopOffset)) -> clipRange startOffset stopOffset (zlen contents) = (first, last) ->
  slice contents first (last + 1) = Some body ->
  readContents header contents = Some (mkSwiftResponse StatusPartialContent {[ "Content-Range"%string := [contentRange first last (zlen contents)] ]} body).
Proof. intros HP HC HS. unfold readContents. by rewrite HP, HC, HS. Qed.

(** A request that counts and is not to fail. *)
Lemma quiet_serves request g m r v response : calm anyPut g m -> kindOf request m = Some (r, v) -> struck r v (bumpCount r v g) = false ->
  (specServe (swiftInfo g) request m).2 = Some response ->
  exists g', runRam (ServeHTTP request) g = (g', RDone response) /\ calm anyPut g' (specServe (swiftInfo g) request m).1.
Proof.
  intros Hc Hk Hs Hr. pose proof (ServeHTTP_refines anyPut request g m Hc (fun _ _ _ => I)) as Ho. unfold outcome, serves in Ho.
  by rewrite Hk, Hs, Hr in Ho.
Qed.

Lemma calm_container_account g m a c : calm anyPut g m -> is_Some (st_containers m !! (a, c)) -> is_Some (st_accounts m !! a).
Proof.
  intros Hc [h Hh]. pose proof (ca_models _ _ _ Hc) as Hm. rewrite (mo_containers _ _ Hm) in Hh. rewrite (mo_accounts _ _ Hm).
  destruct (containerAt g a c) as [q|] eqn:E; [|done]. destruct (containerAt_inv _ _ _ _ E) as (p & -> & _). by eexists.
Qed.

(** A GET of an object that is there. *)
Lemma get_object g m a c o header data response : calm anyPut g m -> targetOf (objectPath a c o) = TObject a c o ->
  is_Some (st_containers m !! (a, c)) -> st_objects m !! (a, c, o) = Some data ->
  struck Object VGet (bumpCount Object VGet g) = false -> readContents header data = Some response ->
  (runRam (ServeHTTP (mkSwiftRequest "GET" (objectPath a c o) header [])) g).2 = RDone response.
Proof.
  intros Hc Ht [h Hh] Ho Hs Hr.
  destruct (quiet_serves (mkSwiftRequest "GET" (objectPath a c o) header []) g m Object VGet response Hc) as (g' & -> & _); [|done| |done].
  - unfold kindOf. cbn [request_Path request_Method String.eqb Ascii.eqb Bool.eqb]. rewrite Ht. cbn [readKind]. by rewrite Hh.
  - unfold specServe. cbn [request_Path request_Method String.eqb Ascii.eqb Bool.eqb fst snd]. rewrite Ht.
    change (String.eqb (objectPath a c o) "/info") with false. cbn [request_Header specGet snd]. by rewrite Ho.
Qed.

(** C12. What [swiftclient] puts into an object through the emulator it gets back:
    [objectLoad] all of it, [objectGet] the bytes of its range, [objectTail] the
    last bytes, and the range in the answer is the one that was asked for. *)
Theorem client_reads_what_it_put g m a c o data offset length :
  calm anyPut g m -> lacks slash a -> lacks slash c -> a <> EmptyString -> c <> EmptyString -> o <> EmptyString ->
  is_Some (st_containers m !! (a, c)) -> zlen data <= maxInt ->
  0 <= offset -> 0 < length -> offset + length <= zlen data ->
  struck Object VPut (bumpCount Object VPut g) = false ->
  exists g' wasCreated,
    runRam (ServeHTTP (mkSwiftRequest "PUT" (objectPath a c o) ∅ data)) g = (g', RDone (created wasCreated))
    /\ (struck Object VGet (bumpCount Object VGet g') = false ->
        let get header := (runRam (ServeHTTP (mkSwiftRequest "GET" (objectPath a c o) header [])) g').2 in
        let answer first last body :=
          RDone (mkSwiftResponse StatusPartialContent {[ "Content-Range"%string := [contentRange first last (zlen data)] ]} body) in
        get ∅ = RDone (mkSwiftResponse StatusOK ∅ data)
        /\ get (rangeHeader ("bytes=" ++ FormatUint offset ++ "-" ++ FormatUint (offset +u length -u 1))%string)
           = answer offset (offset + length - 1) (take (Z.to_nat length) (drop (Z.to_nat offset) data))
        /\ get (rangeHeader ("bytes=-" ++ FormatUint length)%string)
           = answer (zlen data - length) (zlen data - 1) (drop (Z.to_nat (zlen data - length)) data)
        /\ parseContentRange {[ "Content-Range"%string := [contentRange offset (offset + length - 1) (zlen data)] ]}
           = Ret (offset, offset + length - 1, zlen data)).
Proof.
  intros Hc Ha Hcn Ea Ec Eo HC Hd Ho Hl Hb Hs. assert (Hmax : maxInt < two64) by done.
  assert (Ht : targetOf (objectPath a c o) = TObject a c o) by by apply targetOf_object.
  destruct (calm_container_account _ _ _ _ Hc HC) as [h Hh]. destruct (HC) as [h' Hh'].
  set (put := mkSwiftRequest "PUT" (objectPath a c o) ∅ data).
  assert (Hspec : specServe (swiftInfo g) put m
    = (m <| st_objects := <[(a, c, o) := data]> (st_objects m) |>, Some (created (bool_decide (st_objects m !! (a, c, o) = None))))).
  { unfold specServe, put. cbn [request_Path request_Method String.eqb Ascii.eqb Bool.eqb]. rewrite Ht.
    change (String.eqb (objectPath a c o) "/info") with false. cbn [request_Header request_Body specPut]. by rewrite Hh'. }
  destruct (quiet_serves put g m Object VPut (created (bool_decide (st_objects m !! (a, c, o) = None))) Hc) as (g' & HR & Hc');
    [|done|by rewrite Hspec|]; [unfold kindOf, put; cbn [request_Path request_Method String.eqb Ascii.eqb Bool.eqb]; rewrite Ht; cbn [putKind]; by rewrite Hh|].
  exists g', (bool_decide (st_objects m !! (a, c, o) = None)). split; [done|]. intros Hs' get answer. rewrite Hspec in Hc'.
  assert (Hget : forall header response, readContents header data = Some response -> get header = RDone response).
  { intros header response Hr. eapply get_object; [exact Hc'|done|done|apply lookup_insert_eq|done|done]. }
  split; [by apply Hget|]. split; [|split].
  - apply Hget. unwrap_in_range. eapply readContents_range; [by apply parseRangeHeader_get; lia| |].
    + unfold clipRange. by rewrite !(proj2 (Z.ltb_ge _ _)) by lia.
    + replace (offset + length - 1 + 1) with (offset + length) by lia. apply slice_range; lia.
  - apply Hget. eapply readContents_range; [by apply parseRangeHeader_tail; lia| |].
    + unfold clipRange. cbn [Z.ltb Z.compare]. by rewrite (proj2 (Z.ltb_ge _ _)) by lia.
    + unfold slice. rewrite !(proj2 (Z.leb_le _ _)) by lia. cbn [andb]. f_equal. apply firstn_all2. rewrite length_drop. unfold zlen in *. lia.
  - apply parseContentRange_contentRange; lia.
Qed.

Lemma client_reads_witness : exists g',
  (runRam (ServeHTTP (mkSwiftRequest "GET" "/v1/AUTH_a/c/o/p" (rangeHeader "bytes=1-2") [])) g').2
  = RDone (mkSwiftResponse StatusPartialContent {[ "Content-Range"%string := ["bytes 1-2/5"%string] ]} [101; 108]).
Proof.
  destruct (client_reads_what_it_put ramSample.1 ramSample.2 "AUTH_a" "c" "o/p" [104; 101; 108; 108; 111] 1 2 ramSample_calm)
    as (g' & wasCreated & HR & Hget); [done..|apply ramSample_quiet|].
  exists g'. refine (proj1 (proj2 (Hget _))).
  assert (E : g' = (runRam (ServeHTTP (mkSwiftRequest "PUT" "/v1/AUTH_a/c/o/p" ∅ [104; 101; 108; 108; 111])) ramSample.1).1).
  { exact (eq_sym (f_equal fst HR)). }
  rewrite E. vm_compute. reflexivity.
Defined.
