(* ===== verification/FuseNodes.v ===== *)
(** Package [fuse]: the nodes that the FUSE library calls (fuse.go, dir.go,
    file.go, symlink.go).

    A method of a node is a program on its mount ([FsProgram]); the mount handle
    of all nodes is the one of the section.  Times are nanoseconds, the clock
    readings of a method are its arguments, and of the errors the number that the
    library asks for is kept.  What the library makes of a request before it
    calls a method, and of the answer, is not modelled. *)

From S2P Require Import Prelude SortedMap Blunder Utils Dlm InodeTypes InodeVolume InodeDir InodeFile FsProgram FsLocks FsFlock FsPath Fs FsMiddleware.
Open Scope list_scope.
Open Scope Z_scope.
Open Scope go_scope.

(** ** Errors *)

(** What a method returns: a [*fuseError], an [Errno] of the library, or another
    error, which the library takes for EIO. *)
Inductive nodeError := FuseError (errno : Z) | LibErrno (errno : Z) | OtherError.

Definition ENOENT : Z := 2.
Definition EIO : Z := 5.
Definition ENOSYS : Z := 38.

(** The conversion from a number that may be negative. *)
Definition newFuseError (err : error) : nodeError := FuseError (u64 (Errno (Some err))).

(** The number that the library sends to the kernel: [-int32(errno)]. *)
Definition int32 (z : Z) : Z := if u32 z <? 2 ^ 31 then u32 z else u32 z - two32.

Definition RespondError (err : nodeError) : Z :=
  match err with FuseError errno | LibErrno errno => - int32 errno | OtherError => - EIO end.

Abbreviation NodeProg I R := (fsProg I (nodeError + R)).

(** [if nil != err { return newFuseError(err) }] *)
Definition orFuseError {I A R} (m : FS I A) (k : A -> NodeProg I R) : NodeProg I R :=
  r <+ m ;;
  match r with inl e => PRet (inl (newFuseError e)) | inr a => k a end.

Notation "x <<! m ;; k" := (orFuseError m (fun x => k))
  (at level 100, m at next level, right associativity) : go_scope.

Definition answer {I R} (m : FS I R) : NodeProg I R := a <<! m ;; PRet (inr a).

(** ** Nodes and requests *)

(** [Dir], [File] and [Symlink], with the number of the inode. *)
Inductive Node := Dir (inodeNumber : Z) | File (inodeNumber : Z) | Symlink (inodeNumber : Z).

Definition nodeInode (n : Node) : Z := match n with Dir i | File i | Symlink i => i end.

(** The user and group of the process of a request. *)
Record Header := mkHeader { h_Uid : Z; h_Gid : Z }.

Record Attr := mkAttr {
  at_Inode : Z; at_Size : Z; at_Blocks : Z; at_Atime : Z; at_Mtime : Z; at_Ctime : Z; at_Crtime : Z;
  at_Mode : Z; at_Nlink : Z; at_Uid : Z; at_Gid : Z; at_BlockSize : Z
}.

#[export] Instance eta_Attr : Eta Attr := fun a =>
  mkAttr (at_Inode a) (at_Size a) (at_Blocks a) (at_Atime a) (at_Mtime a) (at_Ctime a) (at_Crtime a)
    (at_Mode a) (at_Nlink a) (at_Uid a) (at_Gid a) (at_BlockSize a).

Record SetattrRequest := mkSetattr {
  sa_Header : Header; sa_Valid : Z; sa_Size : Z; sa_Atime : Z; sa_Mtime : Z; sa_Mode : Z; sa_Uid : Z; sa_Gid : Z; sa_Crtime : Z
}.

Definition SetattrMode : Z := 2 ^ 0.
Definition SetattrUid : Z := 2 ^ 1.
Definition SetattrGid : Z := 2 ^ 2.
Definition SetattrSize : Z := 2 ^ 3.
Definition SetattrAtime : Z := 2 ^ 4.
Definition SetattrMtime : Z := 2 ^ 5.
Definition SetattrAtimeNow : Z := 2 ^ 7.
Definition SetattrMtimeNow : Z := 2 ^ 8.
Definition SetattrCrtime : Z := 2 ^ 28.

Record StatfsResponse := mkStatfs {
  sf_Blocks : Z; sf_Bfree : Z; sf_Bavail : Z; sf_Files : Z; sf_Ffree : Z; sf_Bsize : Z; sf_Namelen : Z; sf_Frsize : Z
}.

Record Dirent := mkDirent { dt_Inode : Z; dt_Type : Z; dt_Name : string }.

Definition DT_Unknown : Z := 0.
Definition DT_Dir : Z := 4.
Definition DT_File : Z := 8.
Definition DT_Link : Z := 10.

Definition ModeDir : Z := 2 ^ 31.
Definition ModeSymlink : Z := 2 ^ 27.

(** ** Attributes *)

Definition fillAttr (inodeNumber modeType : Z) (stat : Stat) (attr : Attr) : Attr :=
  let at_ := statField stat in
  attr <| at_Inode := inodeNumber |> <| at_Size := at_ StatSize |>
       <| at_Atime := toInt64 (at_ StatATime) |> <| at_Mtime := toInt64 (at_ StatMTime) |>
       <| at_Ctime := toInt64 (at_ StatCTime) |> <| at_Crtime := toInt64 (at_ StatCRTime) |>
       <| at_Mode := Z.lor modeType (Z.land (at_ StatMode) 511) |>
       <| at_Nlink := u32 (at_ StatNLink) |> <| at_Uid := u32 (at_ StatUserID) |> <| at_Gid := u32 (at_ StatGroupID) |>.

Definition wrongType : nodeError := newFuseError (AddError (Some plain) InvalidInodeTypeError).

Section Nodes.
Context {I : Type} `{!InodeHandle I} (volumeName : string).

Abbreviation N R := (NodeProg I R).

(** The stat of a node, whose type is checked. *)
Definition statAs {R} (inodeType inodeNumber : Z) (k : Stat -> N R) : N R :=
  stat <<! Getstat volumeName inodeNumber ;;
  if negb (inodeType =? statField stat StatFType) then PRet (inl wrongType) else k stat.

Definition Dir_Attr (inodeNumber : Z) (attr : Attr) : N Attr :=
  statAs DirType inodeNumber (fun stat => PRet (inr (fillAttr inodeNumber ModeDir stat attr))).

Definition File_Attr (inodeNumber : Z) (attr : Attr) : N Attr :=
  statAs FileType inodeNumber (fun stat =>
    PRet (inr (fillAttr inodeNumber 0 stat attr <| at_Blocks := (statField stat StatSize +u 511) / 512 |> <| at_BlockSize := 4096 |>))).

Definition Symlink_Attr (inodeNumber : Z) (attr : Attr) : N Attr :=
  statAs SymlinkType inodeNumber (fun stat => PRet (inr (fillAttr inodeNumber ModeSymlink stat attr))).

Definition NodeAttr (n : Node) : Attr -> N Attr :=
  match n with Dir i => Dir_Attr i | File i => File_Attr i | Symlink i => Symlink_Attr i end.

(** [if 0 != (flag & req.Valid) { statUpdates[key] = value }] *)
Definition updateIf (flag : Z) (req : SetattrRequest) (key value : Z) (statUpdates : Stat) : Stat :=
  if negb (0 =? Z.land flag (sa_Valid req)) then <[key := value]> statUpdates else statUpdates.

Definition statUpdates (nowAtime nowMtime : Z) (req : SetattrRequest) : Stat :=
  updateIf SetattrCrtime req StatCRTime (u64 (sa_Crtime req))
    (updateIf SetattrMtimeNow req StatMTime (u64 nowMtime)
      (updateIf SetattrAtimeNow req StatATime (u64 nowAtime)
        (updateIf SetattrMtime req StatMTime (u64 (sa_Mtime req))
          (updateIf SetattrAtime req StatATime (u64 (sa_Atime req))
            (updateIf SetattrGid req StatGroupID (sa_Gid req)
              (updateIf SetattrUid req StatUserID (sa_Uid req)
                (updateIf SetattrMode req StatMode (Z.land (sa_Mode req) 511) ∅))))))).

(** A call of a mount for the process of a request. *)
Abbreviation by_ header f := (f (h_Uid header) (h_Gid header) (@nil Z)) (only parsing).

Section Setattr.
Context (nowAtime nowMtime : Z).

Definition setattrAs (inodeType inodeNumber : Z) (req : SetattrRequest) : N unit :=
  statAs inodeType inodeNumber (fun _ =>
    answer (by_ (sa_Header req) (Setstat volumeName) inodeNumber (statUpdates nowAtime nowMtime req))).

Definition Dir_Setattr (inodeNumber : Z) (req : SetattrRequest) : N unit := setattrAs DirType inodeNumber req.

Definition File_Setattr (inodeNumber : Z) (req : SetattrRequest) : N unit :=
  r <+ setattrAs FileType inodeNumber req ;;
  match r with
  | inl e => PRet (inl e)
  | inr _ =>
      if negb (0 =? Z.land SetattrSize (sa_Valid req))
      then answer (by_ (sa_Header req) (Resize volumeName) inodeNumber (sa_Size req))
      else PRet (inr tt)
  end.

Definition Symlink_Setattr (inodeNumber : Z) (req : SetattrRequest) : N unit := setattrAs SymlinkType inodeNumber req.
End Setattr.

(** ** The file system *)

Definition Root : Node := Dir RootDirInodeNumber.

Definition Statfs : N StatfsResponse :=
  statvfs <<! StatVfs ;;
  let at_ := statField statvfs in
  PRet (inr (mkStatfs (at_ 3) (at_ 4) (at_ 5) (at_ 6) (at_ 7) (u32 (at_ 1)) (u32 (at_ 11)) (u32 (at_ 2)))).

Definition NodeAccess (inodeNumber : Z) (header : Header) (mask : Z) : N unit :=
  r <+ by_ header Access inodeNumber mask ;;
  match r with
  | inr true => PRet (inr tt)
  | _ => PRet (inl (newFuseError (NewError PermDeniedError)))
  end.

(** ** Directories *)

(** Any error of the lookup is taken for a name that is not there. *)
Definition Dir_Lookup (d : Z) (name : string) : N Node :=
  r <+ Lookup volumeName InodeRootUserID InodeRootGroupID [] d name ;;
  match r with
  | inl _ => PRet (inl (LibErrno ENOENT))
  | inr childInodeNumber =>
      isDir <<! IsDir volumeName childInodeNumber ;;
      if isDir : bool then PRet (inr (Dir childInodeNumber)) else
      isFile <<! IsFile volumeName childInodeNumber ;;
      if isFile : bool then PRet (inr (File childInodeNumber)) else
      isSymlink <<! IsSymlink volumeName childInodeNumber ;;
      if isSymlink : bool then PRet (inr (Symlink childInodeNumber)) else
      actualType <<! GetType volumeName childInodeNumber ;;
      PRet (inl wrongType)
  end.

Definition inodeTypeToDirentType (inodeType : Z) : Z :=
  if inodeType =? FileType then DT_File
  else if inodeType =? DirType then DT_Dir
  else if inodeType =? SymlinkType then DT_Link
  else DT_Unknown.

(** The loop over the pages; [fuel] bounds their number.  The last entry of an
    empty page is an index out of range. *)
Fixpoint readPages (fuel : nat) (d : Z) (entries : list DirEntry) (entryCount : Z) (lastEntryName : string) (more : bool)
    : N (list DirEntry * Z) :=
  if negb more then PRet (inr (entries, entryCount)) else
  match fuel with
  | O => PLoop
  | S fuel' =>
      r <+ Readdir volumeName InodeRootUserID InodeRootGroupID [] d lastEntryName 1024 4096 ;;
      match r with
      | inl _ => PRet (inl (LibErrno EIO))
      | inr (readEntries, readCount, more) =>
          match last readEntries with
          | Some e => readPages fuel' d (entries ++ readEntries) (entryCount +u readCount) (de_Basename e) more
          | None => PPanic
          end
      end
  end.

(** [fuseEntries[i]] for the entries from [i] on. *)
Fixpoint fillEntries (i : Z) (entries : list DirEntry) (fuseEntries : list Dirent) : fsProg I (list Dirent) :=
  match entries with
  | [] => PRet fuseEntries
  | entry :: rest =>
      r <+ GetType volumeName (de_InodeNumber entry) ;;
      let inodeType := match r with inl _ => 0 | inr t => t end in
      if i <? zlen fuseEntries then
        fillEntries (i + 1) rest
          (<[Z.to_nat i := mkDirent (de_InodeNumber entry) (inodeTypeToDirentType inodeType) (de_Basename entry)]> fuseEntries)
      else PPanic
  end.

Definition Dir_ReadDirAll (fuel : nat) (d : Z) : N (list Dirent) :=
  r <+ readPages fuel d [] 0 EmptyString true ;;
  match r with
  | inl e => PRet (inl e)
  | inr (entries, entryCount) =>
      fuseEntries <+ fillEntries 0 entries (replicate (Z.to_nat entryCount) (mkDirent 0 0 EmptyString)) ;;
      PRet (inr fuseEntries)
  end.

Definition Dir_Remove (d : Z) (header : Header) (dir : bool) (name : string) : N unit :=
  if dir then answer (by_ header (Rmdir volumeName) d name) else answer (by_ header (Unlink volumeName) d name).

(** A file with the permissions [mode], which may have no other bits. *)
Definition createFile (d : Z) (header : Header) (name : string) (mode : Z) : N Node :=
  if negb (0 =? Z.ldiff mode PosixModePerm) then PRet (inl wrongType) else
  inodeNumber <<! by_ header (Create volumeName) d name mode ;;
  PRet (inr (File inodeNumber)).

Definition Dir_Mknod (d : Z) (header : Header) (name : string) (mode : Z) : N Node := createFile d header name mode.

(** The node, and the handle. *)
Definition Dir_Create (d : Z) (header : Header) (name : string) (mode : Z) : N (Node * Node) :=
  r <+ createFile d header name mode ;;
  match r with inl e => PRet (inl e) | inr file => PRet (inr (file, file)) end.

Definition NodeFlush (inodeNumber : Z) (header : Header) : N unit := answer (by_ header (Flush volumeName) inodeNumber).

Definition NodeFsync (inodeNumber : Z) : N unit := PRet (inl (LibErrno ENOSYS)).

Definition Dir_Mkdir (d : Z) (header : Header) (name : string) (mode : Z) : N Node :=
  newDirInodeNumber <<! by_ header (Mkdir volumeName) d name (Z.land mode PosixModePerm) ;;
  PRet (inr (Dir newDirInodeNumber)).

(** [fuel] is the one of [Rename]. *)
Definition Dir_Rename (fuel : nat) (d : Z) (header : Header) (oldName newName : string) (newDir : Node) : N unit :=
  match newDir with
  | Dir dst => answer (by_ header (Rename volumeName) fuel d oldName dst newName)
  | _ => PRet (inl (LibErrno EIO))
  end.

Definition Dir_Symlink (d : Z) (header : Header) (newName target : string) : N Node :=
  symlinkInodeNumber <<! by_ header (Fs.Symlink volumeName) d newName target ;;
  PRet (inr (Symlink symlinkInodeNumber)).

(** Next to an error the node is returned too; the library does not look at it. *)
Definition Dir_Link (d : Z) (header : Header) (newName : string) (old : Node) : N Node :=
  match old with
  | File oldFile => u <<! by_ header (Link volumeName) d newName oldFile ;; PRet (inr old)
  | _ => PRet (inl OtherError)
  end.

(** ** Files and symbolic links *)

Definition File_Read (inodeNumber : Z) (header : Header) (offset size : Z) : N bytes :=
  buf <<! by_ header (Read volumeName) inodeNumber (u64 offset) (u64 size) ;; PRet (inr buf).

Definition File_Write (inodeNumber : Z) (header : Header) (offset : Z) (data : bytes) : N Z :=
  size <<! by_ header (Write volumeName) inodeNumber (u64 offset) data ;; PRet (inr size).

Definition Symlink_Readlink (inodeNumber : Z) (header : Header) : N string :=
  target <<! by_ header (Readsymlink volumeName) inodeNumber ;; PRet (inr target).
End Nodes.

From S2P Require Import DlmFacts FsLockFacts FsNeutral FsFacts FsListing.

(** ** Every method releases its locks *)

(** The requests that the library passes on to the nodes of a mount. *)
Inductive request : Type -> Type :=
| QStatfs : request StatfsResponse
| QAccess (n : Node) (header : Header) (mask : Z) : request unit
| QAttr (n : Node) (attr : Attr) : request Attr
| QSetattr (n : Node) (nowAtime nowMtime : Z) (req : SetattrRequest) : request unit
| QLookup (d : Z) (name : string) : request Node
| QReadDirAll (fuel : nat) (d : Z) : request (list Dirent)
| QRemove (d : Z) (header : Header) (dir : bool) (name : string) : request unit
| QMknod (d : Z) (header : Header) (name : string) (mode : Z) : request Node
| QCreate (d : Z) (header : Header) (name : string) (mode : Z) : request (Node * Node)
| QFlush (n : Node) (header : Header) : request unit
| QFsync (n : Node) : request unit
| QMkdir (d : Z) (header : Header) (name : string) (mode : Z) : request Node
| QRename (fuel : nat) (d : Z) (header : Header) (oldName newName : string) (newDir : Node) : request unit
| QSymlink (d : Z) (header : Header) (newName target : string) : request Node
| QLink (d : Z) (header : Header) (newName : string) (old : Node) : request Node
| QRead (f : Z) (header : Header) (offset size : Z) : request bytes
| QWrite (f : Z) (header : Header) (offset : Z) (data : bytes) : request Z
| QReadlink (l : Z) (header : Header) : request string.

Section Discipline.
Context {I : Type} `{!InodeHandle I} (volumeName : string).

Definition handle {R} (r : request R) : NodeProg I R :=
  match r in request R return NodeProg I R with
  | QStatfs => Statfs
  | QAccess n header mask => NodeAccess (nodeInode n) header mask
  | QAttr n attr => NodeAttr volumeName n attr
  | QSetattr n nowAtime nowMtime req =>
      match n with
      | Dir i => Dir_Setattr volumeName nowAtime nowMtime i req
      | File i => File_Setattr volumeName nowAtime nowMtime i req
      | Symlink i => Symlink_Setattr volumeName nowAtime nowMtime i req
      end
  | QLookup d name => Dir_Lookup volumeName d name
  | QReadDirAll fuel d => Dir_ReadDirAll volumeName fuel d
  | QRemove d header dir name => Dir_Remove volumeName d header dir name
  | QMknod d header name mode => Dir_Mknod volumeName d header name mode
  | QCreate d header name mode => Dir_Create volumeName d header name mode
  | QFlush n header => NodeFlush volumeName (nodeInode n) header
  | QFsync n => NodeFsync (nodeInode n)
  | QMkdir d header name mode => Dir_Mkdir volumeName d header name mode
  | QRename fuel d header oldName newName newDir => Dir_Rename volumeName fuel d header oldName newName newDir
  | QSymlink d header newName target => Dir_Symlink volumeName d header newName target
  | QLink d header newName old => Dir_Link volumeName d header newName old
  | QRead f header offset size => File_Read volumeName f header offset size
  | QWrite f header offset data => File_Write volumeName f header offset data
  | QReadlink l header => Symlink_Readlink volumeName l header
  end.

Lemma neutral_orFuseError {A R} (m : FS I A) (k : A -> NodeProg I R) :
  neutral m -> (forall a, neutral (k a)) -> neutral (orFuseError m k).
Proof. intros Hm Hk. apply neutral_bind; [done|]. intros [e|a]; [apply neutral_ret|apply Hk]. Qed.

Ltac node_step :=
  first
  [ apply neutral_ret | apply neutral_panic | apply neutral_loop | neutral_call | apply neutral_orFuseError | apply neutral_bind
  | match goal with |- neutral (match ?x with _ => _ end) => destruct x | |- neutral (let '_ := ?x in _) => destruct x end ].
Ltac node_tac := repeat (node_step; intros).

Lemma neutral_readPages fuel d : forall entries entryCount lastEntryName more,
  neutral (readPages volumeName fuel d entries entryCount lastEntryName more).
Proof. induction fuel as [|fuel IH]; intros; cbn [readPages]; node_tac. Qed.

Lemma neutral_fillEntries entries : forall i fuseEntries, neutral (fillEntries volumeName i entries fuseEntries).
Proof. induction entries as [|e entries IH]; intros; cbn [fillEntries]; node_tac. Qed.

(** Whatever the kernel asks of a node, the program that it runs ends with the
    locks that its goroutine had before: so the requests of a FUSE mount and
    those of the JSON-RPC server go together as [FsClients] says. *)
Theorem fuse_requests_release_locks {R} (r : request R) : neutral (handle r).
Proof.
  destruct r; cbn [handle]; unfold Statfs, NodeAccess, Dir_Setattr, File_Setattr, Symlink_Setattr, setattrAs, Dir_Lookup, Dir_ReadDirAll, Dir_Remove,
    Dir_Mknod, Dir_Create, createFile, NodeFlush, NodeFsync, Dir_Mkdir, Dir_Rename, Dir_Symlink, Dir_Link, File_Read, File_Write, Symlink_Readlink, answer.
  all: try (destruct n; cbn [NodeAttr]; unfold Dir_Attr, File_Attr, Symlink_Attr); unfold statAs; node_tac.
  - apply neutral_readPages.
  - apply neutral_fillEntries.
Qed.
End Discipline.

(** ** Listings, names and attributes, on a volume that does not change *)

Section Quiet.
Context {I : Type} `{!InodeHandle I} (volumeName : string).

Lemma run_withReadLock_quiet {A} (m : RWLockStruct -> fsProg I A) (s : fsState I) n a : lockFree s (makeLockID volumeName n) ->
  (let s1 := inside volumeName s n shared in
   fsLocks s1 !! makeLockID volumeName n = Some (heldTrack shared (nextCallerID s)) ->
   runFs (m (mkLock (makeLockID volumeName n) (nextCallerID s))) s1 = (s1, FsRet a)) ->
  exists s', runFs (withReadLock volumeName n m) s = (s', FsRet a) /\ onlyCallers s s'.
Proof.
  intros Hl Hm. set (s1 := inside volumeName s n shared) in *. specialize (Hm (lookup_insert_eq _ _ _)).
  eexists. split; [apply (run_withReadLock volumeName m s n s1 a Hl Hm); reflexivity|done].
Qed.

Lemma run_vol_quiet {X} (f : St I error X) (s : fsState I) x : f (inodeVolume s) = (inodeVolume s, Ret x) -> runFs (vol f) s = (s, FsRet (inr x)).
Proof. intros Hf. rewrite (run_vol f s _ _ Hf). by destruct s. Qed.

Lemma run_GetType (s : fsState I) n t : lockFree s (makeLockID volumeName n) -> hGetType n (inodeVolume s) = (inodeVolume s, Ret t) ->
  exists s', runFs (GetType volumeName n) s = (s', FsRet (inr t)) /\ onlyCallers s s'.
Proof.
  intros Hl Ht. apply run_withReadLock_quiet; [done|]. intros s1 Hh. cbn [lk_CallerID].
  apply (run_getTypeHelper volumeName s1 n shared _ t Hh); [by left|exact Ht].
Qed.

Lemma run_typeTest (s : fsState I) n t k : lockFree s (makeLockID volumeName n) -> hGetType n (inodeVolume s) = (inodeVolume s, Ret t) ->
  exists s', runFs (withReadLock volumeName n (fun _ => inodeType <! vol (hGetType n) ;; fret (inodeType =? k))) s = (s', FsRet (inr (t =? k)))
    /\ onlyCallers s s'.
Proof.
  intros Hl Ht. apply run_withReadLock_quiet; [done|]. intros s1 _. by rewrite (run_fthen _ _ s1 s1 t) by (by apply run_vol_quiet).
Qed.

Lemma run_Getstat (s : fsState I) n md : lockFree s (makeLockID volumeName n) -> hGetMetadata n (inodeVolume s) = (inodeVolume s, Ret md) ->
  exists s', runFs (Getstat volumeName n) s = (s', FsRet (inr (statOf n md))) /\ onlyCallers s s'.
Proof.
  intros Hl Hmd. apply run_withReadLock_quiet; [done|]. intros s1 Hh. unfold getstatHelper. cbn [lk_CallerID].
  rewrite (run_fthen _ _ _ _ _ (run_demandLock volumeName s1 n shared _ Hh (or_introl eq_refl))).
  by rewrite (run_fthen _ _ s1 s1 md) by (by apply run_vol_quiet).
Qed.

Lemma run_Lookup (s : fsState I) d name n : lockFree s (makeLockID volumeName d) ->
  mayAccess (inodeVolume s) d InodeRootUserID InodeRootGroupID [] X_OK -> hLookup d name (inodeVolume s) = (inodeVolume s, Ret n) ->
  exists s', runFs (Lookup volumeName InodeRootUserID InodeRootGroupID [] d name) s = (s', FsRet (inr n)) /\ onlyCallers s s'.
Proof.
  intros Hl Ha Hn. apply run_withReadLock_quiet; [done|]. intros s1 _.
  rewrite (run_fthen _ _ s1 s1 tt) by (by apply run_checkAccess). by apply run_vol_quiet.
Qed.

(** The first call of a method. *)
Lemma run_orFuseError {A R} (m : FS I A) (k : A -> NodeProg I R) s s' a :
  runFs m s = (s', FsRet (inr a)) -> runFs (orFuseError m k) s = runFs (k a) s'.
Proof. intros Hm. unfold orFuseError. by rewrite (run_then _ _ _ _ _ Hm). Qed.

Lemma free_onlyCallers (s s' : fsState I) l : lockFree s l -> onlyCallers s s' -> lockFree s' l.
Proof. unfold lockFree. by intros Hl (-> & _). Qed.

(** The node of an inode of the type [t]. *)
Definition nodeOf (t n : Z) : option Node :=
  if t =? DirType then Some (Dir n) else if t =? FileType then Some (File n) else if t =? SymlinkType then Some (Symlink n) else None.

Definition modeTypeOf (n : Node) : Z := match n with Dir _ => ModeDir | File _ => 0 | Symlink _ => ModeSymlink end.

Lemma run_Dir_Lookup s d name n t : (forall l, lockFree s l) ->
  mayAccess (inodeVolume s) d InodeRootUserID InodeRootGroupID [] X_OK ->
  hLookup d name (inodeVolume s) = (inodeVolume s, Ret n) -> hGetType n (inodeVolume s) = (inodeVolume s, Ret t) ->
  exists s', runFs (Dir_Lookup volumeName d name) s
      = (s', FsRet (match nodeOf t n with Some node => inr node | None => inl wrongType end))
    /\ onlyCallers s s'.
Proof.
  intros Hl Ha Hn Ht. destruct (run_Lookup s d name n (Hl _) Ha Hn) as (s1 & H1 & C1). unfold Dir_Lookup, nodeOf.
  rewrite (run_then _ _ _ _ _ H1). clear H1.
  assert (HT : forall s', onlyCallers s s' -> lockFree s' (makeLockID volumeName n) /\ hGetType n (inodeVolume s') = (inodeVolume s', Ret t)).
  { intros s' (E1 & E2 & _). unfold lockFree. rewrite E1, E2. by split; [apply Hl|]. }
  destruct (run_IsDir volumeName s1 n t) as (s2 & H2 & C2); [by apply HT..|]. rewrite (run_orFuseError _ _ _ _ _ H2).
  pose proof (onlyCallers_trans _ _ _ C1 C2) as D2. destruct (t =? DirType); [by exists s2|].
  destruct (run_typeTest s2 n t FileType) as (s3 & H3 & C3); [by apply HT..|]. rewrite (run_orFuseError _ _ _ _ _ H3).
  pose proof (onlyCallers_trans _ _ _ D2 C3) as D3. destruct (t =? FileType); [by exists s3|].
  destruct (run_typeTest s3 n t SymlinkType) as (s4 & H4 & C4); [by apply HT..|]. rewrite (run_orFuseError _ _ _ _ _ H4).
  pose proof (onlyCallers_trans _ _ _ D3 C4) as D4. destruct (t =? SymlinkType); [by exists s4|].
  destruct (run_GetType s4 n t) as (s5 & H5 & C5); [by apply HT..|]. rewrite (run_orFuseError _ _ _ _ _ H5).
  exists s5. split; [done|]. by eapply onlyCallers_trans.
Qed.

Lemma statField_type n md : statField (statOf n md) StatFType = md_InodeType md.
Proof. reflexivity. Qed.

(** C30. A name in a directory leads to a node of the kind that its inode has, and
    the attributes of this node are to be had: they carry the inode, its size,
    its owner and its kind.  Another type is an error. *)
Theorem Lookup_then_Attr s d name n md attr :
  (forall l, lockFree s l) -> mayAccess (inodeVolume s) d InodeRootUserID InodeRootGroupID [] X_OK ->
  hLookup d name (inodeVolume s) = (inodeVolume s, Ret n) ->
  hGetType n (inodeVolume s) = (inodeVolume s, Ret (md_InodeType md)) -> hGetMetadata n (inodeVolume s) = (inodeVolume s, Ret md) ->
  match nodeOf (md_InodeType md) n with
  | Some node =>
      exists s1 s2 attr', runFs (Dir_Lookup volumeName d name) s = (s1, FsRet (inr node))
        /\ runFs (NodeAttr volumeName node attr) s1 = (s2, FsRet (inr attr'))
        /\ at_Inode attr' = n /\ at_Size attr' = md_Size md /\ at_Uid attr' = u32 (md_UserID md)
        /\ at_Mode attr' = Z.lor (modeTypeOf node) (Z.land (md_Mode md) 511)
        /\ fsLocks s2 = fsLocks s /\ inodeVolume s2 = inodeVolume s
  | None => exists s1, runFs (Dir_Lookup volumeName d name) s = (s1, FsRet (inl wrongType)) /\ fsLocks s1 = fsLocks s
  end.
Proof.
  intros Hl Ha Hn Ht Hmd. destruct (run_Dir_Lookup s d name n _ Hl Ha Hn Ht) as (s1 & H1 & C1).
  assert (HS : forall s', onlyCallers s s' -> exists s2, runFs (Getstat volumeName n) s' = (s2, FsRet (inr (statOf n md))) /\ onlyCallers s s2).
  { intros s' C. destruct (run_Getstat s' n md) as (s2 & H2 & C2); [by eapply free_onlyCallers|destruct C as (_ & -> & _); exact Hmd|].
    exists s2. split; [done|]. by eapply onlyCallers_trans. }
  destruct (HS s1 C1) as (s2 & H2 & (E1 & E2 & _)). unfold nodeOf in *.
  destruct (Z.eqb_spec (md_InodeType md) DirType) as [Ed|_];
    [|destruct (Z.eqb_spec (md_InodeType md) FileType) as [Ed|_];
      [|destruct (Z.eqb_spec (md_InodeType md) SymlinkType) as [Ed|_]]].
  4: { exists s1. split; [done|apply C1]. }
  all: exists s1, s2; eexists; split; [exact H1|]; cbn [NodeAttr]; unfold Dir_Attr, File_Attr, Symlink_Attr, statAs;
    rewrite (run_orFuseError _ _ _ _ _ H2), statField_type, Ed, Z.eqb_refl; cbn [negb runFs];
    split; [reflexivity|by repeat split].
Qed.
End Quiet.

(** ** Listings *)

Section Listing.
Context {I : Type} `{!InodeHandle I} (volumeName : string).
Context (d : Z) (i : I) (m : list (string * Z)) (types : Z -> Z) (Hdir : directory d 4096 i m types).
Context (Hnames : Forall (fun kv => 0 < Z.of_nat (String.length kv.1) <= FileNameMax) m) (Hsize : zlen m < two64).

Abbreviation idle := (idle i).

Lemma names_fit l : Forall (fun kv : string * Z => 0 < Z.of_nat (String.length kv.1) <= FileNameMax) l -> Forall (fits 4096) l.
Proof. apply List.Forall_impl. intros [k v] H. right. unfold DirEntrySize, FileNameMax, two64 in *. cbn in *. lia. Qed.

(** From the entries in [pre] on, the rest of the directory. *)
Lemma run_readPages fuel : forall name pre post s,
  idle s -> m = pre ++ post -> resumesAt name pre post -> post <> [] -> (length post <= fuel)%nat ->
  exists s', runFs (readPages volumeName fuel d (map (typed types) (entriesFrom 0 pre)) (zlen pre) name true) s
      = (s', FsRet (inr (map (typed types) (entriesFrom 0 m), zlen m)))
    /\ idle s'.
Proof.
  induction fuel as [|fuel IH]; intros name pre post s Hs Hm Hr Hne Hf; [destruct post; simpl in Hf; [done|lia]|].
  cbn [readPages negb]. pose proof (readDirEntries_page name pre post 1024 4096 Hr ltac:(lia)) as Hp. rewrite <- Hm in Hp.
  destruct post as [|kv0 post0]; [done|]. set (post := kv0 :: post0) in *. destruct Hp as (page & rest & Hpost & Hpage & _ & _ & Hprog).
  assert (Hm' : m = pre ++ page ++ rest) by by rewrite Hm, Hpost.
  assert (Hpn : page <> []).
  { apply Hprog, names_fit. pose proof Hnames as Hn. rewrite Hm in Hn. by apply Forall_app in Hn as [_ Hn]. }
  destruct (run_Readdir volumeName _ _ i m types Hdir s name pre page rest 1024 _ Hs ltac:(lia) eq_refl Hm' Hpage) as (s1 & Hrun & Hs1).
  rewrite (run_then _ _ _ _ _ Hrun). clear Hrun. destruct page as [|[kk v] page _] using rev_ind; [done|].
  change (map (typed types) (entriesFrom (zlen pre) (page ++ [(kk, v)]))) with (typed types <$> entriesFrom (zlen pre) (page ++ [(kk, v)])) at 1.
  rewrite fmap_last, last_entriesFrom. cbn [fmap option_fmap option_map typed entryAt de_Basename fst].
  assert (Hcat : map (typed types) (entriesFrom 0 pre) ++ map (typed types) (entriesFrom (zlen pre) (page ++ [(kk, v)]))
                 = map (typed types) (entriesFrom 0 (pre ++ page ++ [(kk, v)]))).
  { rewrite <- map_app. by rewrite (entriesFrom_app 0 pre). }
  assert (Hcount : zlen pre +u zlen (page ++ [(kk, v)]) = zlen (pre ++ page ++ [(kk, v)])).
  { rewrite uadd_small; [by rewrite !zlen_app|]. rewrite Hm', !zlen_app in Hsize. rewrite zlen_app.
    pose proof (zlen_nonneg pre). pose proof (zlen_nonneg page). pose proof (zlen_nonneg rest). pose proof (zlen_nonneg [(kk, v)]). lia. }
  rewrite Hcat, Hcount. destruct rest as [|kv rest].
  - rewrite bool_decide_false by (by intros []). exists s1. split; [|done]. rewrite app_nil_r in Hm'. rewrite <- Hm'. by destruct fuel.
  - rewrite bool_decide_true by done. apply (IH kk _ (kv :: rest)); [done| | |done|].
    + by rewrite Hm', <- !app_assoc.
    + pose proof (rd_sorted _ _ _ _ _ Hdir) as Hsort. rewrite app_assoc. apply resumesAt_last. rewrite Hm' in Hsort. by rewrite <- !app_assoc in Hsort |- *.
    + rewrite Hpost, !length_app in Hf. simpl in Hf |- *. lia.
Qed.

Definition direntOf (kv : string * Z) : Dirent := mkDirent kv.2 (inodeTypeToDirentType (types kv.2)) kv.1.

Lemma run_fillEntries post : forall j pre fuseEntries s, idle s ->
  Forall (fun kv => 0 <= kv.2 /\ hGetType kv.2 i = (i, Ret (types kv.2))) post -> length fuseEntries = length post ->
  exists s', runFs (fillEntries volumeName (zlen pre) (map (typed types) (entriesFrom j post)) (pre ++ fuseEntries)) s
      = (s', FsRet (pre ++ map direntOf post))
    /\ idle s'.
Proof.
  induction post as [|[k n] post IH]; intros j pre fuseEntries s Hs Ht Hlen.
  { destruct fuseEntries; [|done]. by exists s. }
  destruct fuseEntries as [|e fuseEntries]; [done|]. apply Forall_cons in Ht as [[Hn Ht] Hpost]. cbn in Ht.
  cbn [entriesFrom map fillEntries typed entryAt de_InodeNumber de_Basename fst snd].
  destruct (run_GetType volumeName s n (types n)) as (s1 & H1 & C1); [by apply (idle_free volumeName i)|by destruct Hs as [_ ->]|].
  rewrite (run_then _ _ _ _ _ H1). replace (zlen pre <? zlen (pre ++ e :: fuseEntries)) with true.
  2: { symmetry. apply Z.ltb_lt. rewrite zlen_app, zlen_cons. pose proof (zlen_nonneg fuseEntries). lia. }
  set (x := mkDirent _ _ _). replace (<[Z.to_nat (zlen pre) := x]> (pre ++ e :: fuseEntries)) with ((pre ++ [x]) ++ fuseEntries).
  2: { unfold zlen. rewrite Nat2Z.id, <- (Nat.add_0_r (length pre)), insert_app_r. cbn. by rewrite <- app_assoc. }
  replace (zlen pre + 1) with (zlen (pre ++ [x])) by (by rewrite zlen_app).
  destruct (IH (j + 1) (pre ++ [x]) fuseEntries s1) as (s' & H' & Hs'); [by eapply idle_onlyCallers|done|by injection Hlen|].
  exists s'. split; [|done]. rewrite H'. by rewrite <- app_assoc.
Qed.

(** C29. [ReadDirAll] ends, and lists the directory: on a directory that does not
    change, it returns every entry once, in order, with its inode and type,
    however many pages it takes, and holds no lock. *)
Theorem ReadDirAll_lists fuel s : fsLocks s = ∅ -> inodeVolume s = i -> m <> [] -> (length m <= fuel)%nat ->
  exists s', runFs (Dir_ReadDirAll volumeName fuel d) s = (s', FsRet (inr (map direntOf m))) /\ fsLocks s' = ∅.
Proof.
  intros Hl Hi Hne Hf. assert (Hr : resumesAt EmptyString [] m).
  { right. split; [done|]. eapply List.Forall_impl; [|exact Hnames]. intros [[|c k] v] [Hk _]; [done|reflexivity]. }
  destruct (run_readPages fuel EmptyString [] m s (conj Hl Hi) eq_refl Hr Hne Hf) as (s1 & H1 & Hs1). unfold Dir_ReadDirAll.
  rewrite (run_then _ _ _ _ _ H1). change (zlen m) with (Z.of_nat (length m)). rewrite Nat2Z.id.
  destruct (run_fillEntries m 0 [] (replicate (length m) (mkDirent 0 0 EmptyString)) s1 Hs1 (rd_types _ _ _ _ _ Hdir)) as (s2 & H2 & [Hs2 _]);
    [by rewrite length_replicate|]. exists s2. split; [|done]. by rewrite (run_then _ _ _ _ _ H2).
Qed.
End Listing.

(** ** Error numbers *)

(** The library answers with minus the error number.  For an error that was
    given none this is 1, which is no error for the kernel. *)
Lemma RespondError_number (e : error) :
  RespondError (newFuseError e) = match merryValue e KErrno with Some v => - int32 (u64 v) | None => 1 end.
Proof. cbn. by destruct (merryValue e KErrno). Qed.

From S2P Require Import FsInstance.

(** ** Witnesses *)

Lemma ReadDirAll_lists_witness : exists s',
  runFs (Dir_ReadDirAll "v" 3 RootDirInodeNumber) containerFs
  = (s', FsRet (inr [mkDirent 1 DT_Dir "."; mkDirent 1 DT_Dir ".."; mkDirent 2 DT_Dir "c"])).
Proof.
  destruct (ReadDirAll_lists "v" RootDirInodeNumber (inodeVolume containerFs) containerEntries (fun _ => DirType) (containerFs_directory 4096)) with (fuel := 3%nat)
    (s := containerFs) as (s' & H & _); [by repeat (apply Forall_cons_2; [done|])|done|vm_compute; reflexivity|done|done|cbn; lia|].
  exists s'. exact H.
Defined.

Lemma containerFs_metadata : exists md, hGetMetadata 2 (inodeVolume containerFs) = (inodeVolume containerFs, Ret md)
  /\ hGetType 2 (inodeVolume containerFs) = (inodeVolume containerFs, Ret (md_InodeType md))
  /\ md_InodeType md = DirType /\ md_Mode md = 16895.
Proof. eexists. split_and!; [vm_compute; reflexivity..]. Qed.

Lemma containerFs_lookup : hLookup RootDirInodeNumber "c" (inodeVolume containerFs) = (inodeVolume containerFs, Ret 2).
Proof. vm_compute. reflexivity. Qed.

Lemma containerFs_free l : lockFree containerFs l.
Proof. assert (H : fsLocks containerFs = ∅) by (vm_compute; reflexivity). unfold lockFree. by rewrite H. Qed.

Lemma Lookup_then_Attr_witness : exists s1 s2 attr',
  runFs (Dir_Lookup "v" RootDirInodeNumber "c") containerFs = (s1, FsRet (inr (Dir 2)))
  /\ runFs (Dir_Attr "v" 2 (mkAttr 0 0 0 0 0 0 0 0 0 0 0 0)) s1 = (s2, FsRet (inr attr'))
  /\ at_Mode attr' = Z.lor ModeDir 511.
Proof.
  destruct containerFs_metadata as (md & Hmd & Ht & Hd & Hm).
  pose proof (Lookup_then_Attr "v" containerFs RootDirInodeNumber "c" 2 md (mkAttr 0 0 0 0 0 0 0 0 0 0 0 0)
    containerFs_free (rd_access _ _ _ _ _ (containerFs_directory 0)) containerFs_lookup Ht Hmd) as H.
  rewrite Hd in H. destruct H as (s1 & s2 & attr' & H1 & H2 & _ & _ & _ & H3 & _).
  exists s1, s2, attr'. split; [exact H1|]. split; [exact H2|]. rewrite H3, Hm. reflexivity.
Defined.
